(* ===== verification/_CoqProject ===== *)
-Q . S2P
Prelude.v
Find.v
Slices.v
Bufring.v
Writer.v
Conn.v
Reader.v
Headers.v
Response.v
Context.v
Reply.v
Coding.v
Body.v
Engine.v
Router.v
Json.v
Cache.v
Accept.v
Compress.v
Dates.v
Paths.v
Static.v
Certs.v
Handshake.v
Uring.v
Coro.v
Proactor.v
Stores.v
Run.v
Serve.v
Clients.v
