(* ===== verification/Prelude.v ===== *)
(** * libioxd: a verification library

    libioxd is an HTTP/1.1 server library in C for Linux: one worker a thread over an io_uring, a coroutine
    a connection, a byte pipe each way between the connection and the engine that reads requests and frames
    replies, and on top of it a router, a JSON writer and a file server. This library models the parts of it
    that compute, operation by operation, and proves what each promises to the one above.

    ** How the program is put together

    Received buffers come from a ring the kernel fills (io/bufring.c), are queued a connection at a time
    (io/spsc.h, io/conn.c), and are read through a pipe (io/pipe.c) by the engine (http/engine.c), which
    parses a head (with picohttpparser, outside the repository), settles the request's framing, runs the
    handler the router (http/router.c) found, frames what the handler wrote, drains what it did not read and
    goes on with the next request. A handler reads its body and writes its reply through http/api.c; json/json.c
    and http/static.c are handlers' helpers on top of that.

    ** The files

    - [Prelude]: bytes, widths of the C types, memory functions, shared lemmas and tactics.
    - [Find] (http/find.c): the substring search, scalar and vector, every access checked.
    - [Slices] (http/api.c): comparing, trimming, cutting and converting slices; the key/value parser.
    - [Accept] (http/api.c): header lookup, decimal numbers, Accept-Encoding.
    - [Bufring] (io/spsc.h, io/bufring.c): the two rings of received buffers.
    - [Conn] (io/conn.c, io/proactor.c): a worker's connections as a state machine: accept, receive, pause,
      resume, close, drain, the coroutine wake-ups, and the free list.
    - [Reader], [Writer] (io/pipe.c, io/conn.c): the pipe's two ends and the awaits that send.
    - [Headers] (http/engine.c): a request's header fields and framing. [Response] (http/api.c, http/engine.c):
      a reply's head. [Context]: what the two sides of a request share.
    - [Reply], [Body], [Engine] (http/engine.c): the reply's framing, the request's body, the serving loop.
    - [Router] (http/router.c): registration, resolution, dispatch, the middleware chain.
    - [Json] (json/json.c): the writer, over the three sinks of the code.
    - [Cache], [Dates], [Paths], [Static] (http/static.c): the file server: its table of files, its dates, the
      names it resolves, and the requests of a worker that share the table.
    - [Coding], [Compress] (http/engine.c, http/compress.c): a reply through a coder, and the coders themselves.
    - [Stores] (http/static.c): the stores that are open, their slots and the tables of the threads.
    - [Certs], [Handshake] (tls/certs.c, tls/handshake.c): the certificates of the names and their reloads; the
      prologue of a connection, record by record, up to the keys in the kernel.
    - [Uring], [Coro], [Proactor] (io/uring.c, io/coro.c and the switch in assembly, io/proactor.c): the rings
      shared with the kernel, the stacks and the switch instruction by instruction, the loop of a worker with its
      listeners, its drain and its deadline.
    - [Run], [Serve], [Clients] (http/run.c, clients/socket.c, clients/timer.c): the configuration and the threads
      of a run, a connection from its prologue to its close_notify, and the connections and waits of a worker.

    State is a record per component, threaded explicitly; an operation is a function with the C function's
    name, of the state before to its result and the state after. What can fail in memory (a read outside an
    object, an access to one that was freed) is [None], so a theorem that a run is [Some] says it does not
    happen. A loop that is not structural takes fuel, and the theorem about it says how much is enough: the
    length of the list it consumes, the bytes left to read, the entries of a table. What the code gets from
    outside the repository is a class: the network ([Writer.Sender]), the parser of heads ([Engine.Parser]),
    the reply hooks ([Context.Hooks]), the clock, allocator and disk (the calls of [Static.ev]), doubles
    ([Accept.Doubles], [Json.Floats]), coders ([Coding.CoderLaws]) and
    encoders ([Compress.Encoders]), OpenSSL ([Handshake.Tls], [Handshake.Kdf]);
    what a theorem relies on of it is the class of its laws, and each theorem that needs laws is applied to a
    concrete instance in its witness.

    ** How the components meet

    [Reader] is proved against the items a connection delivers, [Body] against [Reader]'s operations, [Engine]
    against [Body]'s and [Reply]'s, so that [Engine.serve_boundaries] and [Engine.serve_replies] speak of the
    bytes received and sent over a whole connection for any handler. A handler is a program of calls
    ([Engine.prog]): the router's dispatch is one, and its chain is run on them. [Writer] is written against
    [Writer.Sender], which the awaits of io/conn.c implement; [Json] against [Json.Sink], which the reply, the
    pipe and a buffer implement. The file server's requests are programs of calls too, interleaved on one table
    at the points where a coroutine is suspended. [Proactor] dispatches completions to the connections of
    [Conn]; [Run] gives a worker its configuration, for which the ring of [Bufring] keeps its promise; [Serve]
    puts [Handshake], [Engine] and [Router] together into one connection.

    ** What the theorems show

    - Requests and replies: requests are cut from the byte stream at their boundaries and answered in order,
      each by one self-framed reply ([Engine]); reads return exactly the body ([Body]); what a handler writes
      goes out under its length, in chunks or until close ([Reply]); a head is accepted only with one framing
      ([Headers]) and a reply's head has no line a handler smuggled in, and fits its buffer ([Response]).
    - Routing: a request reaches the best route, a refusal lists the methods ([Router.dispatch_finds],
      [Router.dispatch_refuses]); registration keeps the tree well formed; a chain runs in order, each once.
    - Files: the table is the least-recently-served one, within budget, and never touches freed memory under
      any interleaving ([Cache], [Static]); names stay below the directory ([Paths]); dates read back ([Dates]).
    - Compression: which replies are coded ([Compress.decide_says]) and that a coded reply is framed and decodes
      to what the handler wrote ([Coding.coded_reply_framed], [Compress.compressed_reply_decodes]).
    - TLS: a name gets the right certificate and no handshake loses its table to a reload ([Certs]); the prologue
      hands the kernel the keys and the place in the stream OpenSSL left ([Handshake.prologue_hands_over]); put
      together with the engine and the routes, the requests of a TLS connection are those of its plaintext
      ([Serve.tls_serves]).
    - The runtime: entries and completions pass through the shared rings once each and in order ([Uring]); a
      coroutine goes on with the registers and the stack it left, and no stack is lost or used twice ([Coro]);
      accepts are in flight or stalled and due, and the loop ends ([Proactor]); a run joins what it started
      ([Run]); stores and client sockets are never shared, and left open by no way but the one below ([Stores],
      [Clients]).
    - JSON: the sink holds the document the calls describe, and it reads back ([Json]).
    - Input and output: the reader is a byte stream with kept spans that stay put ([Reader]), the writer one
      stream on the wire ([Writer]); buffers are conserved, references counted, wake-ups never lost ([Conn],
      [Bufring]).
    - Text: the search is exact on every processor path ([Find]); the parser of pairs and the integer
      conversions are exact ([Slices]).

    Where the code does not do what a comment says, a lemma next to the component shows it on a concrete run
    ([Body.bad_chunk_end_read_past], [Reply.head_reply_stray_bytes], [Conn.overflow_leaves_hole],
    [Json.second_root_value], [Cache.over_budget_stays], [Router.second_next_passes_short_circuit],
    [Compress.coding_left_unnamed], [Handshake.raw_after_close],
    [Stores.open_without_memory]).

    ** Bounds

    Lengths and indices of objects in memory are [nat]; numbers a peer chooses are [Z] at the width of their C
    type, with the wrap written out. Constants of the code (caps of names, heads, routes, rings) are
    definitions with the code's names and values. The dates cover every [time_t]; their round trip is stated
    for the years a four-digit field holds.

    ** Not modelled

    The brotli and zlib encoders, OpenSSL with its HKDF, the head parser, strtod and inet_pton are outside the
    repository: classes or arguments. So is the kernel: what it answers to an operation, when it takes an entry
    or posts a completion, and what it delivers are steps or arguments. Left out of io/ are the options of a
    listening socket and the calls that map and register the buffer ring, which change no state of the library;
    of the switch, the control words of floating point; of the rings, the memory order below single loads and
    stores of their indices, each taken as one step. What is printed to stderr is left out but for the lines
    that are rate-limited. Programs under playground/ and tests/ use the library. *)
From stdpp Require Export base list option numbers sets gmap.
From Stdlib Require Export ZArith Lia.
From Stdlib Require Ascii String.
Export Ascii.AsciiSyntax String.StringSyntax.


(** ** Bytes and literals

    A byte is a [Z] between 0 and 255; a slice, a buffer or a C string is the list of its bytes.
    Indices and lengths of objects in memory are [nat] (an object is never larger than
    PTRDIFF_MAX, so a sum of two of them does not wrap); a number that a peer chooses is a [Z]
    with the width of its C type written out. *)
Abbreviation bytes := (list Z).

Definition is_byte (b : Z) : Prop := (0 <= b < 256)%Z.
Definition all_bytes (l : bytes) : Prop := Forall is_byte l.

Definition ch (a : Ascii.ascii) : Z := Z.of_N (Ascii.N_of_ascii a).
Arguments ch _%_char_scope.

Fixpoint lit (s : String.string) : bytes :=
  match s with
  | String.EmptyString => []
  | String.String a s' => ch a :: lit s'
  end.
Arguments lit _%_string_scope.

(** The widths of the C types the program counts in. *)
Definition UINT32_MAX : Z := (2 ^ 32 - 1)%Z.
Definition UINT64_MAX : Z := (2 ^ 64 - 1)%Z.
Definition INT64_MAX  : Z := (2 ^ 63 - 1)%Z.
Definition INT64_MIN  : Z := (- 2 ^ 63)%Z.
Definition INT_MAX    : Z := (2 ^ 31 - 1)%Z.
Definition INT_MIN    : Z := (- 2 ^ 31)%Z.
(** size_t is 64 bits wide on every platform the library runs on. *)
Definition SIZE_MAX   : Z := UINT64_MAX.

Definition wrap32 (z : Z) : Z := (z mod 2 ^ 32)%Z.
Definition wrap64 (z : Z) : Z := (z mod 2 ^ 64)%Z.

(** ** The C library's memory functions *)

(** [memcmp(a, b, n) == 0] on two spans of equal length. *)
Definition beq (a b : bytes) : bool := bool_decide (a = b).

(** [memchr]: the index of the first [c]. *)
Fixpoint memchr (c : Z) (l : bytes) : option nat :=
  match l with
  | [] => None
  | x :: l' => if (x =? c)%Z then Some 0 else S <$> memchr c l'
  end.

(** [memrchr]: the index of the last [c]. *)
Fixpoint memrchr (c : Z) (l : bytes) : option nat :=
  match l with
  | [] => None
  | x :: l' =>
      match memrchr c l' with
      | Some i => Some (S i)
      | None => if (x =? c)%Z then Some 0 else None
      end
  end.

(** [memcpy]/[memmove] of [src] over [dst] at [off]; a copy past the end of [dst] has no meaning. *)
Definition blit (dst : bytes) (off : nat) (src : bytes) : bytes :=
  take off dst ++ src ++ drop (off + length src) dst.

(** A read of [n] bytes at [off]: [None] when it leaves the object. *)
Definition load (l : bytes) (off n : nat) : option bytes :=
  if (off + n <=? length l)%nat then Some (take n (drop off l)) else None.

(** The same read where the caller is known to stay inside. *)
Definition span (l : bytes) (off n : nat) : bytes := take n (drop off l).

#[global] Arguments blit : simpl never.
#[global] Arguments load : simpl never.
#[global] Arguments span : simpl never.

(** ** Automation *)

Create HintDb ioxd.

Ltac bool_to_prop :=
  repeat match goal with
  | H : (_ && _)%bool = true |- _ => apply andb_true_iff in H; destruct H
  | H : (_ || _)%bool = false |- _ => apply orb_false_iff in H; destruct H
  | H : negb _ = true |- _ => apply negb_true_iff in H
  | H : negb _ = false |- _ => apply negb_false_iff in H
  | H : (_ =? _)%Z = true |- _ => apply Z.eqb_eq in H
  | H : (_ =? _)%Z = false |- _ => apply Z.eqb_neq in H
  | H : (_ <? _)%Z = true |- _ => apply Z.ltb_lt in H
  | H : (_ <? _)%Z = false |- _ => apply Z.ltb_ge in H
  | H : (_ <=? _)%Z = true |- _ => apply Z.leb_le in H
  | H : (_ <=? _)%Z = false |- _ => apply Z.leb_gt in H
  | H : (_ =? _)%nat = true |- _ => apply Nat.eqb_eq in H
  | H : (_ =? _)%nat = false |- _ => apply Nat.eqb_neq in H
  | H : (_ <? _)%nat = true |- _ => apply Nat.ltb_lt in H
  | H : (_ <? _)%nat = false |- _ => apply Nat.ltb_ge in H
  | H : (_ <=? _)%nat = true |- _ => apply Nat.leb_le in H
  | H : (_ <=? _)%nat = false |- _ => apply Nat.leb_gt in H
  | H : bool_decide _ = true |- _ => apply bool_decide_eq_true in H
  | H : bool_decide _ = false |- _ => apply bool_decide_eq_false in H
  end.

(** Case analysis on the next test of the code, with its meaning as a hypothesis. *)
Ltac case_test :=
  match goal with
  | |- context [ if ?b then _ else _ ] => let E := fresh "E" in destruct b eqn:E; bool_to_prop
  | H : context [ if ?b then _ else _ ] |- _ => let E := fresh "E" in destruct b eqn:E; bool_to_prop
  end.

Ltac case_opt :=
  match goal with
  | |- context [ match ?o with Some _ => _ | None => _ end ] => let E := fresh "E" in destruct o eqn:E
  | H : context [ match ?o with Some _ => _ | None => _ end ] |- _ => let E := fresh "E" in destruct o eqn:E
  end.

(** Equal pairs: each component by computation or arithmetic. *)
Ltac f_pair :=
  repeat match goal with |- (_, _) = (_, _) => apply f_equal2 end; try reflexivity; try lia.

(** Lengths of the list operations, then arithmetic. *)
Ltac list_lia :=
  repeat (rewrite ?length_app, ?length_take, ?length_drop, ?length_map, ?length_fmap,
                  ?length_rev, ?length_replicate in *; cbn [length] in * ); lia.

(** ** Lemmas the components share *)

Lemma beq_true a b : beq a b = true <-> a = b.
Proof. apply bool_decide_eq_true. Qed.

Lemma beq_refl a : beq a a = true.
Proof. by apply beq_true. Qed.

Lemma beq_false a b : beq a b = false <-> a <> b.
Proof. apply bool_decide_eq_false. Qed.

Lemma memchr_Some c l i :
  memchr c l = Some i <-> l !! i = Some c /\ forall j, j < i -> l !! j <> Some c.
Proof.
  revert i; induction l as [|x l IH]; intros i; simpl; [naive_solver|].
  destruct (Z.eqb_spec x c) as [->|Hx].
  - split.
    + intros [= <-]. split; [done|lia].
    + intros [_ Hmin]. destruct i as [|i]; [done|]. exfalso. by apply (Hmin 0); [lia|].
  - rewrite fmap_Some. split.
    + intros (k & Hk & ->). apply IH in Hk as [H1 H2]. split; [done|].
      intros [|j] Hj; simpl; [congruence|]. apply H2; lia.
    + intros [H1 H2]. destruct i as [|i]; simpl in H1; [congruence|].
      exists i. split; [|done]. apply IH. split; [done|].
      intros j Hj. apply (H2 (S j)); lia.
Qed.

Lemma memchr_None c l : memchr c l = None <-> c ∉ l.
Proof.
  induction l as [|x l IH]; simpl; [set_solver|].
  destruct (Z.eqb_spec x c) as [->|Hx]; [set_solver|].
  rewrite fmap_None, IH. set_solver.
Qed.

Lemma memchr_lt c l i : memchr c l = Some i -> i < length l.
Proof. intros [H _]%memchr_Some. by eapply lookup_lt_Some. Qed.

(** The list cut at what [memchr] found: nothing before it holds the byte. *)
Lemma memchr_split c l i :
  memchr c l = Some i -> l = take i l ++ c :: drop (S i) l /\ c ∉ take i l.
Proof.
  intros H. pose proof (memchr_lt _ _ _ H). apply memchr_Some in H as [H1 H2]. split.
  - rewrite <- (take_drop_middle l i c) at 1 by done. done.
  - intros [j Hj]%list_elem_of_lookup. apply lookup_take_Some in Hj as [??]. by eapply H2.
Qed.

Lemma memchr_app_l c l1 l2 i : memchr c l1 = Some i -> memchr c (l1 ++ l2) = Some i.
Proof.
  revert i. induction l1 as [|x l1 IH]; intros i; simpl; [done|].
  destruct (x =? c)%Z; [done|]. rewrite !fmap_Some. intros (k & Hk & ->). eauto.
Qed.

Lemma memchr_app_r c l1 l2 :
  c ∉ l1 -> memchr c (l1 ++ l2) = (fun i => length l1 + i) <$> memchr c l2.
Proof.
  induction l1 as [|x l1 IH]; simpl; intros Hc.
  - by rewrite option_fmap_id.
  - destruct (Z.eqb_spec x c); [set_solver|].
    rewrite IH by set_solver. destruct (memchr c l2); done.
Qed.

Lemma memrchr_Some c l i :
  memrchr c l = Some i -> l !! i = Some c /\ forall j, i < j -> l !! j <> Some c.
Proof.
  assert (Hnone : forall l', memrchr c l' = None -> c ∉ l').
  { induction l' as [|y l' IH]; simpl; [set_solver|]. repeat case_match; try done.
    bool_to_prop. set_solver. }
  revert i; induction l as [|x l IH]; intros i; simpl; [done|].
  destruct (memrchr c l) as [k|] eqn:E.
  - intros [= <-]. destruct (IH k eq_refl) as [H1 H2]. split; [done|].
    intros [|j] Hj; simpl; [lia|]. apply H2. lia.
  - destruct (Z.eqb_spec x c) as [->|]; [|done]. intros [= <-]. split; [done|].
    intros [|j] Hj; simpl; [lia|]. intros Hl. apply (Hnone l E).
    apply list_elem_of_lookup; eauto.
Qed.

Lemma forallb_Forall {A} (f : A -> bool) l :
  forallb f l = true <-> Forall (fun x => f x = true) l.
Proof.
  induction l as [|x l IH]; cbn [forallb]; [by split; [constructor|]|].
  by rewrite andb_true_iff, IH, Forall_cons.
Qed.

(** *** [blit] *)

Lemma length_blit dst off src :
  off + length src <= length dst -> length (blit dst off src) = length dst.
Proof. unfold blit. intros. list_lia. Qed.

Lemma blit_nil dst off : blit dst off [] = dst.
Proof. unfold blit. simpl. rewrite Nat.add_0_r. apply take_drop. Qed.

Lemma span_blit_same dst off src :
  off + length src <= length dst -> span (blit dst off src) off (length src) = src.
Proof.
  intros H. unfold span, blit. rewrite drop_app_length' by list_lia.
  by rewrite take_app_length.
Qed.

Lemma span_blit_before dst off src o n :
  o + n <= off -> off <= length dst -> span (blit dst off src) o n = span dst o n.
Proof.
  intros H1 H2. unfold span, blit. rewrite drop_app_le by list_lia.
  rewrite take_app_le by list_lia. rewrite skipn_firstn_comm, take_take.
  f_equal. lia.
Qed.

Lemma span_blit_after dst off src o n :
  off + length src <= o -> off + length src <= length dst ->
  span (blit dst off src) o n = span dst o n.
Proof.
  intros H1 H2. unfold span, blit. rewrite drop_app_ge by list_lia.
  rewrite drop_app_ge by list_lia. rewrite drop_drop. do 2 f_equal. list_lia.
Qed.

Lemma length_span l off n : off + n <= length l -> length (span l off n) = n.
Proof. intros. unfold span. list_lia. Qed.

Lemma span_all l : span l 0 (length l) = l.
Proof. unfold span. rewrite drop_0. apply firstn_all. Qed.

Lemma span_app_join l off n m : span l off n ++ span l (off + n) m = span l off (n + m).
Proof.
  unfold span. rewrite <- (take_drop n (take (n + m) (drop off l))).
  rewrite take_take, skipn_firstn_comm, drop_drop. repeat f_equal; lia.
Qed.

Lemma span_take l off n k : k <= n -> take k (span l off n) = span l off k.
Proof. intros. unfold span. rewrite take_take. f_equal. lia. Qed.

Lemma span_drop l off n k : drop k (span l off n) = span l (off + k) (n - k).
Proof. unfold span. by rewrite skipn_firstn_comm, drop_drop. Qed.

Lemma load_Some l off n : off + n <= length l -> load l off n = Some (span l off n).
Proof. intros H. unfold load. apply Nat.leb_le in H. by rewrite H. Qed.

Lemma load_bounds l off n s : load l off n = Some s -> off + n <= length l /\ s = span l off n.
Proof. unfold load, span. case_test; intros [= <-]. split; [lia|done]. Qed.

#[export] Hint Resolve length_blit length_span load_Some : ioxd.

(** *** Bytes *)

Lemma all_bytes_app l1 l2 : all_bytes (l1 ++ l2) <-> all_bytes l1 /\ all_bytes l2.
Proof. apply Forall_app. Qed.

Lemma all_bytes_take n l : all_bytes l -> all_bytes (take n l).
Proof. apply Forall_take. Qed.

Lemma all_bytes_drop n l : all_bytes l -> all_bytes (drop n l).
Proof. apply Forall_drop. Qed.

(** A number shifted to make room for a digit, and the digit put there. *)
Lemma lor_shiftl k a d : (0 <= k -> 0 <= a -> 0 <= d < 2 ^ k -> Z.lor (Z.shiftl a k) d = a * 2 ^ k + d)%Z.
Proof.
  intros Hk Ha Hd. rewrite Z.shiftl_mul_pow2 by lia. assert (Z.land (a * 2 ^ k) d = 0)%Z as Hz.
  { apply Z.bits_inj'. intros n Hn. rewrite Z.land_spec, Z.bits_0. destruct (Z.lt_ge_cases n k).
    - by rewrite Z.mul_pow2_bits_low.
    - destruct (Z.eq_dec d 0) as [->|]; [by rewrite Z.bits_0, andb_false_r|]. rewrite (Z.bits_above_log2 d n), andb_false_r; [done|lia|].
      apply Z.lt_le_trans with k; [apply Z.log2_lt_pow2; lia|lia]. }
  rewrite <- Z.add_lor_land, Hz. lia.
Qed.

Lemma ch_byte a : is_byte (ch a).
Proof. unfold ch, is_byte. pose proof (Ascii.N_ascii_bounded a). lia. Qed.

Lemma lit_bytes s : all_bytes (lit s).
Proof. induction s; constructor; [apply ch_byte|done]. Qed.

#[export] Hint Resolve all_bytes_take all_bytes_drop ch_byte lit_bytes : ioxd.

(** *** Joined lists *)

Definition join_with (sep : bytes) (l : list bytes) : bytes :=
  match l with [] => [] | x :: l' => x ++ concat (map (app sep) l') end.

Lemma join_snoc sep l x : join_with sep (l ++ [x]) = join_with sep l ++ (if bool_decide (l = []) then [] else sep) ++ x.
Proof.
  destruct l as [|y l]; [by cbn; rewrite app_nil_r|]. rewrite bool_decide_false by done. cbn [join_with app].
  rewrite map_app, concat_app. cbn. by rewrite app_nil_r, <- !app_assoc.
Qed.

(** *** Masks *)

Lemma land_lt_pow2 a b n :
  (0 <= n)%Z -> (0 <= a < 2 ^ n)%Z -> (0 <= b)%Z -> (0 <= Z.land a b < 2 ^ n)%Z.
Proof.
  intros Hn Ha Hb. assert (0 <= Z.land a b)%Z by (apply Z.land_nonneg; lia). split; [done|].
  destruct (Z.eq_dec (Z.land a b) 0) as [->|]; [lia|].
  apply Z.log2_lt_pow2; [lia|]. pose proof (Z.log2_land a b ltac:(lia) Hb).
  destruct (Z.eq_dec a 0) as [->|]; [by rewrite Z.land_0_l in *|].
  assert (Z.log2 a < n)%Z by (apply Z.log2_lt_pow2; lia). lia.
Qed.
