(* ===== verification/Find.v ===== *)
(** The substring search of lib/http/find.c: the scalar loop, the vector search at 16 and at 32
    positions a step with its movemask loop, and the public entry that picks one. Every read of
    the haystack and of the needle is a [load], which is [None] outside the object, so a result
    [Some r] also says that the search never read past either. *)
From S2P Require Import Prelude.

(** ** The reference: the first position where the needle is *)

Definition matches_at (hay needle : bytes) (i : nat) : Prop :=
  span hay i (length needle) = needle.

#[export] Instance matches_at_dec hay needle i : Decision (matches_at hay needle i).
Proof. unfold matches_at. apply _. Defined.

(** The answer of an IndexOf: an index that matches with none before it, or no index at all. *)
Definition index_of (hay needle : bytes) (r : option nat) : Prop :=
  match r with
  | Some i => i + length needle <= length hay /\ matches_at hay needle i /\
              forall j, j < i -> ~ matches_at hay needle j
  | None => forall j, j + length needle <= length hay -> ~ matches_at hay needle j
  end.

(** ** The scalar loop *)

(** [memcmp(hay + i + 1, needle + 1, n - 2) == 0], the middle of a candidate. *)
Definition middle_eq (hay needle : bytes) (i n : nat) : option bool :=
  a ← load hay (i + 1) (n - 2); b ← load needle 1 (n - 2); mret (beq a b).

(** [fuel] is the number of starts left, [end - at]. *)
Fixpoint find_scalar_loop (hay needle : bytes) (n : nat) (fuel at_ : nat) : option (option nat) :=
  match fuel with
  | 0 => Some None
  | S fuel' =>
      first ← needle !! 0; last ← needle !! (n - 1);
      rest ← load hay at_ fuel;
      match memchr first rest with
      | None => Some None
      | Some k =>
          let at' := at_ + k in
          c ← hay !! (at' + (n - 1));
          same ← middle_eq hay needle at' n;
          if ((c =? last)%Z && same)%bool then Some (Some at')
          else find_scalar_loop hay needle n (fuel' - k) (at' + 1)
      end
  end.

Definition ioxd__find_scalar (hay needle : bytes) : option (option nat) :=
  let n := length needle in
  find_scalar_loop hay needle n (length hay - n + 1) 0.

(** ** The vector search *)

(** pcmpeqb against a broadcast byte: one truth value a position. *)
Definition cmpeq (v : bytes) (c : Z) : list bool := map (fun x => (x =? c)%Z) v.

Definition vand (a b : list bool) : list bool := zip_with andb a b.

(** pmovmskb: position [j] is bit [j]. *)
Fixpoint movemask (v : list bool) : Z :=
  match v with
  | [] => 0
  | b :: v' => (Z.b2z b + 2 * movemask v')%Z
  end.

(** __builtin_ctz, for a nonzero argument. *)
Fixpoint pos_ctz (p : positive) : nat :=
  match p with
  | xO q => S (pos_ctz q)
  | _ => 0
  end.
Definition ctz (m : Z) : nat := match m with Zpos p => pos_ctz p | _ => 0 end.

(** [for (; m; m &= m - 1) { j = ctz(m); if (test j) return j; }] - [fuel] bounds the bits. *)
Fixpoint mask_loop (test : nat -> option bool) (fuel : nat) (m : Z) : option (option nat) :=
  if (m =? 0)%Z then Some None
  else match fuel with
  | 0 => None
  | S fuel' =>
      let j := ctz m in
      hit ← test j;
      if (hit : bool) then Some (Some j) else mask_loop test fuel' (Z.land m (m - 1))
  end.

(** A block of [w] positions from [i]: the candidates where the first and the last byte match. *)
Definition block (w : nat) (hay : bytes) (i : nat) (needle : bytes) (n : nat) (first last : Z)
  : option (option nat) :=
  a ← load hay i w;
  b ← load hay (i + n - 1) w;
  let m := movemask (vand (cmpeq a first) (cmpeq b last)) in
  r ← mask_loop (fun j => middle_eq hay needle (i + j) n) w m;
  mret ((fun j => i + j) <$> (r : option nat)).

Definition block16 := block 16.
Definition block32 := block 32.

(** The blocks of a haystack with at least [w] starts; the last one overlaps its predecessor. *)
Fixpoint blocks (w fuel : nat) (hay needle : bytes) (n sp : nat) (first last : Z) (i : nat)
  : option (option nat) :=
  match fuel with
  | 0 => None
  | S fuel' =>
      r ← block w hay i needle n first last;
      match (r : option nat) with
      | Some at_ => Some (Some at_)
      | None =>
          if i + w =? sp then Some None
          else let i' := i + w in
               blocks w fuel' hay needle n sp first last (if sp <? i' + w then sp - w else i')
      end
  end.

Definition ioxd__find_sse2 (hay needle : bytes) : option (option nat) :=
  let n := length needle in
  let sp := length hay - n + 1 in
  first ← needle !! 0;
  if 16 <=? sp then
    last ← needle !! (n - 1);
    blocks 16 sp hay needle n sp first last 0
  else if 16 <=? length hay then
    v ← load hay 0 16;
    let m := Z.land (movemask (cmpeq v first)) (Z.shiftl 1 (Z.of_nat sp) - 1) in
    mask_loop (fun j => a ← load hay (j + 1) (n - 1); b ← load needle 1 (n - 1); mret (beq a b)) 16 m
  else ioxd__find_scalar hay needle.

Definition ioxd__find_avx2 (hay needle : bytes) : option (option nat) :=
  let n := length needle in
  let sp := length hay - n + 1 in
  if sp <? 32 then ioxd__find_sse2 hay needle
  else first ← needle !! 0; last ← needle !! (n - 1);
       blocks 32 sp hay needle n sp first last 0.

(** [find]: the one the CPU has; [avx2] is __builtin_cpu_supports("avx2"). *)
Definition find (avx2 : bool) (hay needle : bytes) : option (option nat) :=
  if avx2 then ioxd__find_avx2 hay needle else ioxd__find_sse2 hay needle.

Definition ioxd_slice_find_char (s : bytes) (c : Z) : option nat :=
  match s with [] => None | _ => memchr c s end.

Definition ioxd_slice_rfind_char (s : bytes) (c : Z) : option nat :=
  match s with [] => None | _ => memrchr c s end.

Definition ioxd_slice_find_bytes (avx2 : bool) (s needle : bytes) : option (option nat) :=
  let n := length needle in
  if n =? 0 then Some (Some 0)
  else if length s <? n then Some None
  else if n =? 1 then c ← needle !! 0; Some (ioxd_slice_find_char s c)
  else find avx2 s needle.

Definition ioxd_slice_find := ioxd_slice_find_bytes.

Example find_ex : ioxd_slice_find true (lit "the quick brown fox jumps over the lazy dog and more") (lit "lazy") = Some (Some 35).
Proof. vm_compute. reflexivity. Qed.
Example find_ex2 : ioxd_slice_find false (lit "the quick brown fox jumps over the lazy dog and more") (lit "lazy dig") = Some None.
Proof. vm_compute. reflexivity. Qed.

(** ** The movemask loop visits the set bits from the lowest *)

Lemma pos_ctz_spec p :
  Z.testbit (Zpos p) (Z.of_nat (pos_ctz p)) = true /\
  forall i, i < pos_ctz p -> Z.testbit (Zpos p) (Z.of_nat i) = false.
Proof.
  induction p as [p IH|p IH|]; cbn [pos_ctz]; [by split; [|lia]| |by split; [|lia]].
  destruct IH as [IH1 IH2]. rewrite Pos2Z.pos_xO. split.
  - rewrite Nat2Z.inj_succ, Z.testbit_even_succ by lia. done.
  - intros [|i] Hi; [by rewrite Z.testbit_even_0|].
    rewrite Nat2Z.inj_succ, Z.testbit_even_succ by lia. apply IH2. lia.
Qed.

Lemma land_double a b : Z.land (2 * a) (2 * b + 1) = (2 * Z.land a b)%Z.
Proof.
  apply Z.bits_inj'. intros i Hi. rewrite Z.land_spec.
  destruct (Z.eq_dec i 0) as [->|].
  - by rewrite !Z.testbit_even_0.
  - replace i with (Z.succ (i - 1)) by lia.
    rewrite !Z.testbit_even_succ, Z.testbit_odd_succ, Z.land_spec by lia. done.
Qed.

(** [m & (m - 1)] clears the lowest set bit and nothing else. *)
Lemma clear_lowest p i :
  Z.testbit (Z.land (Zpos p) (Zpos p - 1)) (Z.of_nat i) =
  (Z.testbit (Zpos p) (Z.of_nat i) && negb (i =? pos_ctz p)%nat)%bool.
Proof.
  revert i. induction p as [p IH|p IH|]; intros i; cbn [pos_ctz].
  - rewrite Pos2Z.pos_xI. replace (2 * Z.pos p + 1 - 1)%Z with (2 * Z.pos p)%Z by lia.
    rewrite Z.land_comm, land_double, Z.land_diag. destruct i as [|i]; cbn [Nat.eqb negb].
    + by rewrite Z.testbit_even_0, andb_false_r.
    + rewrite Nat2Z.inj_succ, Z.testbit_even_succ, Z.testbit_odd_succ by lia.
      by rewrite andb_true_r.
  - rewrite Pos2Z.pos_xO. replace (2 * Z.pos p - 1)%Z with (2 * (Z.pos p - 1) + 1)%Z by lia.
    rewrite land_double. destruct i as [|i]; cbn [Nat.eqb negb].
    + by rewrite !Z.testbit_even_0.
    + rewrite Nat2Z.inj_succ, !Z.testbit_even_succ by lia. apply IH.
  - destruct i; by rewrite andb_comm.
Qed.

(** The outcome of trying candidates in order. *)
Definition first_hit (P : nat -> bool) (r : option nat) : Prop :=
  match r with
  | Some j => P j = true /\ forall i, i < j -> P i = false
  | None => forall i, P i = false
  end.

Lemma mask_loop_ok test t fuel k m :
  (0 <= m < 2 ^ Z.of_nat (k + fuel))%Z ->
  (forall i, i < k -> Z.testbit m (Z.of_nat i) = false) ->
  (forall j, Z.testbit m (Z.of_nat j) = true -> test j = Some (t j)) ->
  exists r, mask_loop test fuel m = Some r /\
            first_hit (fun j => Z.testbit m (Z.of_nat j) && t j)%bool r.
Proof.
  revert k m. induction fuel as [|fuel IH]; intros k m Hm Hlow Htest; simpl.
  all: destruct (Z.eqb_spec m 0) as [->|Hm0];
    [exists None; split; [done|]; intros i; by rewrite Z.bits_0|].
  all: destruct m as [|p|p]; [done| |lia]; cbn [ctz];
    pose proof (pos_ctz_spec p) as [Hc Hb]; pose proof (clear_lowest p) as Hclr.
  all: assert (Hk : k <= pos_ctz p)
    by (destruct (decide (pos_ctz p < k)) as [Hl|]; [apply Hlow in Hl; congruence|lia]).
  - exfalso. rewrite Nat.add_0_r in Hm.
    rewrite Z.bits_above_log2 in Hc; [done|lia|]. apply Z.log2_lt_pow2; [lia|].
    eapply Z.lt_le_trans; [apply Hm|]. apply Z.pow_le_mono_r; lia.
  - rewrite (Htest _ Hc); simpl. destruct (t (pos_ctz p)) eqn:Et.
    { exists (Some (pos_ctz p)). split; [done|]. simpl. rewrite Hc, Et. split; [done|].
      intros i Hi. by rewrite Hb. }
    destruct (IH (S k) (Z.land (Z.pos p) (Z.pos p - 1))) as (r & -> & Hr).
    + replace (S k + fuel) with (k + S fuel) by lia. apply land_lt_pow2; lia.
    + intros i Hi. rewrite Hclr. destruct (decide (i < k)) as [Hl|]; [by rewrite Hlow|].
      assert (i = k) as -> by lia. destruct (Nat.eqb_spec k (pos_ctz p)); [apply andb_false_r|].
      rewrite Hb by lia. done.
    + intros j Hj. rewrite Hclr in Hj. bool_to_prop. auto.
    + exists r. split; [done|].
      assert (Heq : forall j, (Z.testbit (Z.land (Z.pos p) (Z.pos p - 1)) (Z.of_nat j) && t j)%bool
                  = (Z.testbit (Z.pos p) (Z.of_nat j) && t j)%bool).
      { intros j. rewrite Hclr. destruct (Nat.eqb_spec j (pos_ctz p)) as [->|]; simpl.
        - by rewrite Et, !andb_false_r.
        - by rewrite andb_true_r. }
      destruct r as [j|]; simpl in *; [|intros i; rewrite <- Heq; auto].
      destruct Hr as [H1 H2]. split; [by rewrite <- Heq|]. intros i Hi. rewrite <- Heq. auto.
Qed.

Lemma movemask_bound v : (0 <= movemask v < 2 ^ Z.of_nat (length v))%Z.
Proof.
  induction v as [|b v IH]; [simpl; lia|]. cbn [movemask length].
  rewrite Nat2Z.inj_succ, Z.pow_succ_r by lia. destruct b; simpl; lia.
Qed.

Lemma movemask_bit v j : Z.testbit (movemask v) (Z.of_nat j) = default false (v !! j).
Proof.
  revert j. induction v as [|b v IH]; intros j; [by rewrite Z.bits_0|]. cbn [movemask].
  destruct j as [|j].
  - rewrite Z.add_comm, Z.testbit_0_r. done.
  - rewrite Z.add_comm, Nat2Z.inj_succ, Z.testbit_succ_r by lia. apply IH.
Qed.

(** ** Blocks *)

Section Search.
Context (hay needle : bytes).
Abbreviation nl := (length needle).
Abbreviation sp := (length hay - length needle + 1).
Hypothesis Hn : 2 <= nl <= length hay.

(** The answer for the starts of a range only. *)
Definition index_in (lo hi : nat) (r : option nat) : Prop :=
  match r with
  | Some i => lo <= i < hi /\ matches_at hay needle i /\
              forall j, lo <= j < i -> ~ matches_at hay needle j
  | None => forall j, lo <= j < hi -> ~ matches_at hay needle j
  end.

Lemma index_in_of r : index_in 0 sp r -> index_of hay needle r.
Proof.
  destruct r as [i|]; simpl.
  - intros (Hi & Hm & Hmin). split; [lia|]. split; [done|]. intros j Hj. apply Hmin. lia.
  - intros H j Hj. apply H. lia.
Qed.

(** A match taken apart the way the code tests it. *)
Lemma matches_split i :
  i + nl <= length hay ->
  matches_at hay needle i <->
    hay !! i = needle !! 0 /\ hay !! (i + (nl - 1)) = needle !! (nl - 1) /\
    span hay (i + 1) (nl - 2) = span needle 1 (nl - 2).
Proof.
  intros Hi. unfold matches_at. split.
  - intros Hm. assert (Hl : forall k, k < nl -> hay !! (i + k) = needle !! k).
    { intros k Hk. apply (f_equal (lookup k)) in Hm. unfold span in Hm.
      by rewrite lookup_take_lt, lookup_drop in Hm by done. }
    split; [rewrite <- (Hl 0) by lia; f_equal; lia|]. split; [apply Hl; lia|].
    unfold span. apply list_eq. intros k. destruct (decide (k < nl - 2)).
    + rewrite !lookup_take_lt, !lookup_drop by done. rewrite <- (Hl (1 + k)) by lia.
      f_equal; lia.
    + rewrite !lookup_take_ge by lia. done.
  - intros (H1 & H2 & H3). apply list_eq. intros k. unfold span.
    destruct (decide (k < nl)) as [Hk|];
      [|rewrite lookup_take_ge, lookup_ge_None_2 by lia; done].
    rewrite lookup_take_lt, lookup_drop by done.
    destruct (decide (k = 0)) as [->|]; [by rewrite Nat.add_0_r|].
    destruct (decide (k = nl - 1)) as [->|]; [done|].
    apply (f_equal (lookup (k - 1))) in H3. unfold span in H3.
    rewrite !lookup_take_lt, !lookup_drop in H3 by lia.
    by replace (i + 1 + (k - 1)) with (i + k) in H3 by lia;
       replace (1 + (k - 1)) with k in H3 by lia.
Qed.

Lemma needle_first : exists c, needle !! 0 = Some c.
Proof. apply lookup_lt_is_Some. lia. Qed.

Lemma needle_last : exists c, needle !! (nl - 1) = Some c.
Proof. apply lookup_lt_is_Some. lia. Qed.

Lemma middle_eq_ok i :
  i + nl <= length hay ->
  middle_eq hay needle i nl = Some (beq (span hay (i + 1) (nl - 2)) (span needle 1 (nl - 2))).
Proof. intros Hi. unfold middle_eq. by rewrite !load_Some by lia. Qed.

(** The block's test of position [j], all three parts of it. *)
Definition hit (first last : Z) (i : nat) : bool :=
  (bool_decide (hay !! i = Some first) && bool_decide (hay !! (i + (nl - 1)) = Some last)
   && beq (span hay (i + 1) (nl - 2)) (span needle 1 (nl - 2)))%bool.

Lemma hit_matches first last i :
  needle !! 0 = Some first -> needle !! (nl - 1) = Some last -> i + nl <= length hay ->
  hit first last i = true <-> matches_at hay needle i.
Proof.
  intros H0 H1 Hi. rewrite matches_split by done. unfold hit.
  rewrite !andb_true_iff, !bool_decide_eq_true, beq_true, H0, H1. naive_solver.
Qed.

Lemma block_bit w i first last j :
  i + w <= sp -> j < w ->
  Z.testbit (movemask (vand (cmpeq (span hay i w) first)
                            (cmpeq (span hay (i + nl - 1) w) last))) (Z.of_nat j) =
  (bool_decide (hay !! (i + j) = Some first) &&
   bool_decide (hay !! (i + j + (nl - 1)) = Some last))%bool.
Proof.
  intros Hi Hj. rewrite movemask_bit. unfold vand, cmpeq, span.
  rewrite lookup_zip_with, !list_lookup_fmap, !lookup_take_lt, !lookup_drop by done.
  replace (i + nl - 1 + j) with (i + j + (nl - 1)) by lia.
  destruct (lookup_lt_is_Some_2 hay (i + j)) as [a ->]; [lia|].
  destruct (lookup_lt_is_Some_2 hay (i + j + (nl - 1))) as [b ->]; [lia|]. simpl.
  f_equal; [destruct (Z.eqb_spec a first)|destruct (Z.eqb_spec b last)];
    symmetry; rewrite ?bool_decide_eq_true, ?bool_decide_eq_false; congruence.
Qed.

Lemma block_ok w i first last :
  needle !! 0 = Some first -> needle !! (nl - 1) = Some last -> i + w <= sp ->
  exists r, block w hay i needle nl first last = Some r /\ index_in i (i + w) r.
Proof.
  intros H0 H1 Hi. unfold block. rewrite !load_Some by lia. cbn [mbind option_bind].
  set (m := movemask _).
  assert (Hlen : length (vand (cmpeq (span hay i w) first)
                              (cmpeq (span hay (i + nl - 1) w) last)) = w).
  { unfold vand, cmpeq. rewrite length_zip_with, !length_map, !length_span; lia. }
  pose proof (movemask_bound (vand (cmpeq (span hay i w) first)
                              (cmpeq (span hay (i + nl - 1) w) last))) as Hb.
  rewrite Hlen in Hb. fold m in Hb.
  assert (Hhigh : forall j, w <= j -> Z.testbit m (Z.of_nat j) = false).
  { intros j Hj. unfold m. rewrite movemask_bit, lookup_ge_None_2 by lia. done. }
  destruct (mask_loop_ok (fun j => middle_eq hay needle (i + j) nl)
    (fun j => beq (span hay (i + j + 1) (nl - 2)) (span needle 1 (nl - 2))) w 0 m)
    as (r & -> & Hr); [done|lia| |].
  { intros j Hj. destruct (decide (j < w)); [apply middle_eq_ok; lia|].
    rewrite Hhigh in Hj by lia. done. }
  exists ((fun j => i + j) <$> r). split; [done|].
  assert (Hhit : forall j, (Z.testbit m (Z.of_nat j) &&
      beq (span hay (i + j + 1) (nl - 2)) (span needle 1 (nl - 2)))%bool = true <->
      j < w /\ matches_at hay needle (i + j)).
  { intros j. destruct (decide (j < w)).
    - unfold m. rewrite block_bit by lia. rewrite <- (hit_matches first last) by (done || lia).
      unfold hit. naive_solver.
    - rewrite Hhigh by lia. simpl. naive_solver lia. }
  destruct r as [j|]; simpl in *.
  - destruct Hr as [Hj Hmin]. apply Hhit in Hj as [Hj Hm]. split; [lia|]. split; [done|].
    intros k Hk Hmk. specialize (Hmin (k - i) ltac:(lia)).
    apply not_true_iff_false in Hmin. apply Hmin, Hhit. split; [lia|].
    by replace (i + (k - i)) with k by lia.
  - intros k Hk Hmk. specialize (Hr (k - i)). apply not_true_iff_false in Hr.
    apply Hr, Hhit. split; [lia|]. by replace (i + (k - i)) with k by lia.
Qed.

(** The loop over the blocks: everything before [i] is known not to match. *)
Lemma blocks_ok w fuel first last i :
  needle !! 0 = Some first -> needle !! (nl - 1) = Some last ->
  0 < w -> i + w <= sp -> sp - i <= fuel + (w - 1) -> 0 < fuel ->
  (forall j, j < i -> ~ matches_at hay needle j) ->
  exists r, blocks w fuel hay needle nl sp first last i = Some r /\ index_in 0 sp r.
Proof.
  intros H0 H1 Hw. revert i. induction fuel as [|fuel IH]; intros i Hi Hf Hpos Hno; [lia|].
  cbn [blocks]. destruct (block_ok w i first last) as (r & -> & Hr); [done..|].
  cbn [mbind option_bind]. destruct r as [at_|].
  { exists (Some at_). split; [done|]. destruct Hr as (Hr & Hm & Hmin). split; [lia|].
    split; [done|]. intros j Hj. destruct (decide (j < i)); [by apply Hno|apply Hmin; lia]. }
  case_test; [exists None; split; [done|]; intros j Hj; destruct (decide (j < i));
              [by apply Hno|apply Hr; lia]|].
  apply IH; [case_test; lia|case_test; lia|lia|].
  intros j Hj. destruct (decide (j < i)); [by apply Hno|].
  apply Hr. revert Hj. case_test; lia.
Qed.

Lemma find_scalar_loop_ok fuel at_ :
  at_ + fuel = sp -> (forall j, j < at_ -> ~ matches_at hay needle j) ->
  exists r, find_scalar_loop hay needle nl fuel at_ = Some r /\ index_in 0 sp r.
Proof.
  destruct needle_first as [first H0], needle_last as [last H1].
  revert at_. induction fuel as [fuel IH] using lt_wf_ind. intros at_ Hf Hno.
  destruct fuel as [|fuel]; cbn [find_scalar_loop].
  { exists None. split; [done|]. intros j Hj. apply Hno. lia. }
  rewrite H0, H1, load_Some by lia. cbn [mbind option_bind].
  destruct (memchr first (span hay at_ (S fuel))) as [k|] eqn:Ek.
  - pose proof (memchr_lt _ _ _ Ek) as Hk. rewrite length_span in Hk by lia.
    apply memchr_Some in Ek as [Hk1 Hk2]. unfold span in Hk1, Hk2.
    rewrite lookup_take_lt, lookup_drop in Hk1 by done.
    destruct (lookup_lt_is_Some_2 hay (at_ + k + (nl - 1))) as [c Hc]; [lia|].
    rewrite Hc. cbn [mbind option_bind]. rewrite middle_eq_ok by lia. cbn [mbind option_bind].
    assert (Hno' : forall j, j < at_ + k -> ~ matches_at hay needle j).
    { intros j Hj. destruct (decide (j < at_)); [by apply Hno|].
      rewrite matches_split by lia. intros (Hm & _). apply (Hk2 (j - at_)); [lia|].
      rewrite lookup_take_lt, lookup_drop by lia. rewrite <- H0, <- Hm. f_equal. lia. }
    assert (Hhit : ((c =? last)%Z && beq (span hay (at_ + k + 1) (nl - 2)) (span needle 1 (nl - 2)))%bool
            = true <-> matches_at hay needle (at_ + k)).
    { rewrite matches_split by lia. rewrite andb_true_iff, Z.eqb_eq, beq_true, Hk1, Hc, H0, H1.
      naive_solver. }
    destruct (_ && _)%bool eqn:Eh.
    + exists (Some (at_ + k)). split; [done|]. split; [lia|]. split; [by apply Hhit|].
      intros j Hj. apply Hno'. lia.
    + apply IH; [lia|lia|]. intros j Hj. destruct (decide (j = at_ + k)) as [->|].
      * rewrite <- Hhit. done.
      * apply Hno'. lia.
  - exists None. split; [done|]. intros j Hj. destruct (decide (j < at_)); [by apply Hno|].
    apply memchr_None in Ek. rewrite matches_split by lia. intros (Hm & _). apply Ek.
    apply list_elem_of_lookup. exists (j - at_). unfold span.
    rewrite lookup_take_lt, lookup_drop by lia. rewrite <- H0, <- Hm. f_equal. lia.
Qed.

Lemma find_scalar_ok :
  exists r, ioxd__find_scalar hay needle = Some r /\ index_in 0 sp r.
Proof. apply find_scalar_loop_ok; [lia|lia]. Qed.
End Search.

Section Entries.
Context (hay needle : bytes).
Hypothesis Hn : 2 <= length needle <= length hay.

(** A haystack of at least 16 bytes with fewer starts than a block: one masked load. *)
Lemma short_block_ok first :
  needle !! 0 = Some first -> length hay - length needle + 1 < 16 -> 16 <= length hay ->
  exists r,
    mask_loop (fun j => a ← load hay (j + 1) (length needle - 1);
                        b ← load needle 1 (length needle - 1); mret (beq a b)) 16
      (Z.land (movemask (cmpeq (span hay 0 16) first))
              (Z.shiftl 1 (Z.of_nat (length hay - length needle + 1)) - 1)) = Some r /\
    index_in hay needle 0 (length hay - length needle + 1) r.
Proof.
  intros H0 Hsp H16. set (sp := length hay - length needle + 1) in *.
  change (Z.shiftl 1 (Z.of_nat sp) - 1)%Z with (Z.ones (Z.of_nat sp)).
  set (mm := movemask _). assert (Hb : (0 <= mm < 2 ^ Z.of_nat 16)%Z).
  { pose proof (movemask_bound (cmpeq (span hay 0 16) first)) as Hb. unfold cmpeq in Hb.
    by rewrite length_map, length_span in Hb by lia. }
  assert (Hbit : forall j, Z.testbit (Z.land mm (Z.ones (Z.of_nat sp))) (Z.of_nat j) = true <->
                           j < sp /\ hay !! j = Some first).
  { intros j. rewrite Z.land_spec, Z.testbit_ones_nonneg, andb_true_iff, Z.ltb_lt by lia.
    destruct (decide (j < sp)) as [Hj|]; [|naive_solver lia].
    unfold mm, cmpeq, span. rewrite movemask_bit, list_lookup_fmap, lookup_take_lt, drop_0 by lia.
    destruct (lookup_lt_is_Some_2 hay j) as [a ->]; [lia|]. simpl. rewrite Z.eqb_eq.
    naive_solver lia. }
  assert (Hm : forall j, j < sp -> matches_at hay needle j <->
    hay !! j = Some first /\ span hay (j + 1) (length needle - 1) = span needle 1 (length needle - 1)).
  { intros j Hj. unfold matches_at. destruct needle as [|c nd] eqn:En; [done|]. cbn [length] in *.
    injection H0 as ->. replace (S (length nd) - 1) with (length nd) by lia.
    assert (span (first :: nd) 1 (length nd) = nd) as ->
      by (unfold span; cbn [drop]; rewrite drop_0; apply firstn_all).
    unfold span.
    destruct (lookup_lt_is_Some_2 hay j) as [a Ha]; [lia|].
    rewrite (drop_S hay a j) by done. cbn [take]. rewrite Ha. rewrite Nat.add_1_r.
    split; [by intros [= -> ->]|by intros [[= ->] ->]]. }
  destruct (mask_loop_ok (fun j => a ← load hay (j + 1) (length needle - 1);
                        b ← load needle 1 (length needle - 1); mret (beq a b))
    (fun j => beq (span hay (j + 1) (length needle - 1)) (span needle 1 (length needle - 1)))
    16 0 (Z.land mm (Z.ones (Z.of_nat sp)))) as (r & -> & Hr).
  - apply land_lt_pow2; [lia|done|]. rewrite Z.ones_equiv. lia.
  - lia.
  - intros j [Hj _]%Hbit. by rewrite !load_Some by lia.
  - exists r. split; [done|].
    assert (Hhit : forall j, (Z.testbit (Z.land mm (Z.ones (Z.of_nat sp))) (Z.of_nat j) &&
        beq (span hay (j + 1) (length needle - 1)) (span needle 1 (length needle - 1)))%bool = true
        <-> j < sp /\ matches_at hay needle j).
    { intros j. rewrite andb_true_iff, Hbit, beq_true.
      destruct (decide (j < sp)); [rewrite Hm by done|]; naive_solver. }
    destruct r as [j|]; simpl in *.
    + destruct Hr as [[Hj1 Hj2]%Hhit Hmin]. split; [lia|]. split; [done|].
      intros k Hk Hmk. specialize (Hmin k ltac:(lia)). apply not_true_iff_false in Hmin.
      apply Hmin, Hhit. split; [lia|done].
    + intros k Hk Hmk. specialize (Hr k). apply not_true_iff_false in Hr.
      apply Hr, Hhit. split; [lia|done].
Qed.

Lemma find_sse2_ok :
  exists r, ioxd__find_sse2 hay needle = Some r /\
            index_in hay needle 0 (length hay - length needle + 1) r.
Proof.
  destruct (needle_first hay needle Hn) as [first H0], (needle_last hay needle Hn) as [last H1].
  unfold ioxd__find_sse2. rewrite H0, H1. cbn [mbind option_bind].
  case_test; [apply blocks_ok; done || lia|].
  case_test; [|by apply find_scalar_ok].
  rewrite (load_Some hay 0 16) by lia. cbn [mbind option_bind]. by apply short_block_ok.
Qed.

Lemma find_avx2_ok :
  exists r, ioxd__find_avx2 hay needle = Some r /\
            index_in hay needle 0 (length hay - length needle + 1) r.
Proof.
  destruct (needle_first hay needle Hn) as [first H0], (needle_last hay needle Hn) as [last H1].
  unfold ioxd__find_avx2. case_test; [apply find_sse2_ok|].
  rewrite H0, H1. cbn [mbind option_bind]. apply blocks_ok; done || lia.
Qed.
End Entries.

Lemma index_of_unique hay needle r1 r2 :
  index_of hay needle r1 -> index_of hay needle r2 -> r1 = r2.
Proof.
  destruct r1 as [i|], r2 as [j|]; simpl; [| | |done].
  - intros (? & Hi & Hmi) (? & Hj & Hmj). f_equal.
    destruct (lt_eq_lt_dec i j) as [[Hl|Hl]|Hl]; [by eapply Hmj in Hl| done | by eapply Hmi in Hl].
  - intros (? & Hi & _) Hno. by apply Hno in Hi.
  - intros Hno (? & Hj & _). by apply Hno in Hj.
Qed.

Lemma find_ok avx2 hay needle :
  2 <= length needle <= length hay ->
  exists r, find avx2 hay needle = Some r /\ index_of hay needle r.
Proof.
  intros Hn. destruct avx2.
  - destruct (find_avx2_ok hay needle Hn) as (r & Hr & Hi). exists r. split; [done|].
    by apply index_in_of.
  - destruct (find_sse2_ok hay needle Hn) as (r & Hr & Hi). exists r. split; [done|].
    by apply index_in_of.
Qed.

Lemma find_char_index s c : index_of s [c] (ioxd_slice_find_char s c).
Proof.
  assert (Hm : forall i, i < length s -> matches_at s [c] i <-> s !! i = Some c).
  { intros i Hi. unfold matches_at, span. destruct (lookup_lt_is_Some_2 s i Hi) as [a Ha].
    cbn [length]. rewrite (drop_S s a i Ha), Ha. cbn [take]. naive_solver. }
  replace (ioxd_slice_find_char s c) with (memchr c s) by (by destruct s).
  destruct (memchr c s) as [i|] eqn:E; cbn [index_of length].
  - pose proof (memchr_lt _ _ _ E). apply memchr_Some in E as [H1 H2].
    split; [lia|]. split; [by apply Hm|]. intros j Hj. rewrite Hm by lia. auto.
  - intros j Hj. rewrite Hm by lia. apply memchr_None in E. intros Hc. apply E.
    apply list_elem_of_lookup. eauto.
Qed.

(** ** Properties *)

(** C38. The public substring search, on a CPU with AVX2 or without: for every slice and every
    needle - empty, one byte, longer than the slice, or any other - it returns the lowest index
    at which the needle is in the slice, or none when there is no such index; it terminates and
    never reads outside the slice or the needle. *)
Theorem find_bytes_correct (avx2 : bool) (s needle : bytes) :
  exists r, ioxd_slice_find_bytes avx2 s needle = Some r /\ index_of s needle r.
Proof.
  unfold ioxd_slice_find_bytes. case_test.
  { exists (Some 0). split; [done|]. destruct needle; [|done]. split; [simpl; lia|].
    split; [by unfold matches_at, span|lia]. }
  case_test; [exists None; split; [done|]; intros j Hj; lia|].
  case_test; [|apply find_ok; lia].
  destruct needle as [|c [|]]; [done| |done]. simpl.
  exists (ioxd_slice_find_char s c). split; [done|]. apply find_char_index.
Qed.

(** The AVX2 search, the SSE2 search and the scalar search agree: on every haystack and every
    needle of at least two bytes that is not longer, the three return the same answer, and each
    of them does return one. *)
Theorem vector_search_equiv (hay needle : bytes) (Hn : 2 <= length needle <= length hay) :
  ioxd__find_avx2 hay needle = ioxd__find_scalar hay needle /\
  ioxd__find_sse2 hay needle = ioxd__find_scalar hay needle /\
  ioxd__find_scalar hay needle <> None.
Proof.
  destruct (find_avx2_ok hay needle Hn) as (r1 & -> & H1).
  destruct (find_sse2_ok hay needle Hn) as (r2 & -> & H2).
  destruct (find_scalar_ok hay needle Hn) as (r3 & -> & H3).
  apply index_in_of in H1, H2, H3; [|done..].
  by rewrite (index_of_unique _ _ _ _ H1 H3), (index_of_unique _ _ _ _ H2 H3).
Qed.

Lemma vector_search_equiv_witness :
  let hay := lit "0123456789abcdef0123456789ABCDEFghij" in
  let needle := lit "EFgh" in
  (2 <= length needle <= length hay) /\
  ioxd__find_avx2 hay needle = ioxd__find_scalar hay needle /\
  ioxd__find_avx2 hay needle = Some (Some 30).
Proof.
  intros hay needle. assert (Hn : 2 <= length needle <= length hay) by (vm_compute; lia).
  split; [exact Hn|]. split; [|vm_compute; reflexivity].
  destruct (vector_search_equiv hay needle Hn) as (H & _). exact H.
Defined.
