(* ===== verification/Slices.v ===== *)
(** The slice helpers of lib/http/api.c: comparing, trimming and cutting slices, the items of a
    separated list, the conversions to numbers and booleans, percent-decoding and the key/value
    parser with its arena. A slice is the list of its bytes, except in the parser, where a pair
    says whether it is a view of the text or lies in the arena, since pairs share the arena. *)
From S2P Require Import Prelude Find.

(** ** Comparing *)

Definition ioxd_slice_eq (s cstr : bytes) : bool :=
  ((length cstr =? length s)%nat && ((length cstr =? 0)%nat || beq s cstr))%bool.

Definition lower (c : Z) : Z :=
  if ((c - ch "A") mod 256 <? 26)%Z then (c + (ch "a" - ch "A"))%Z else c.

(** The byte loop of a case-insensitive compare, on slices of equal length. *)
Fixpoint all_lower_eq (a b : bytes) : bool :=
  match a, b with
  | x :: a', y :: b' => if (lower x =? lower y)%Z then all_lower_eq a' b' else false
  | _, _ => true
  end.

Definition ioxd_slice_eq_ci (s cstr : bytes) : bool :=
  if (length cstr =? length s)%nat then all_lower_eq s cstr else false.

Definition ioxd_slice_starts_with (s prefix : bytes) : bool :=
  let n := length prefix in
  ((n <=? length s)%nat && ((n =? 0)%nat || beq (take n s) prefix))%bool.

Definition ioxd_slice_ends_with (s suffix : bytes) : bool :=
  let n := length suffix in
  ((n <=? length s)%nat && ((n =? 0)%nat || beq (drop (length s - n) s) suffix))%bool.

(** ** Trimming and cutting *)

Definition is_space (c : Z) : bool :=
  ((c =? ch " ") || (c =? 9) || (c =? 13) || (c =? 10))%Z%bool.

Fixpoint trim_front (s : bytes) : bytes :=
  match s with
  | c :: s' => if is_space c then trim_front s' else s
  | [] => []
  end.

(** The second loop: [len] goes down while the byte before it is a space. *)
Fixpoint trim_len (s : bytes) (len : nat) : nat :=
  match len with
  | 0 => 0
  | S k => match s !! k with
           | Some c => if is_space c then trim_len s k else len
           | None => len
           end
  end.

Definition ioxd_slice_trim (s : bytes) : bytes :=
  let s1 := trim_front s in take (trim_len s1 (length s1)) s1.

Definition ioxd_slice_from (s : bytes) (at_ : nat) : bytes :=
  drop (if (length s <? at_)%nat then length s else at_) s.

Definition ioxd_slice_upto (s : bytes) (at_ : nat) : bytes :=
  take (if (at_ <? length s)%nat then at_ else length s) s.

(** Whether [sep] is there, the head and the tail. *)
Definition ioxd_slice_cut (s : bytes) (sep : Z) : bool * bytes * bytes :=
  match ioxd_slice_find_char s sep with
  | None => (false, s, ioxd_slice_from s (length s))
  | Some at_ => (true, ioxd_slice_upto s at_, ioxd_slice_from s (at_ + 1))
  end.

(** The item and what is left of the list, or [None] once it is spent. [fuel] is the length of
    the list: every round takes at least one byte off it. *)
Fixpoint slice_next_loop (fuel : nat) (list_ : bytes) (sep : Z) : option (bytes * bytes) :=
  match fuel with
  | 0 => None
  | S fuel' =>
      if (length list_ =? 0)%nat then None
      else let '(_, head, rest) := ioxd_slice_cut list_ sep in
           let head := ioxd_slice_trim head in
           if (length head =? 0)%nat then slice_next_loop fuel' rest sep else Some (head, rest)
  end.

Definition ioxd_slice_next (list_ : bytes) (sep : Z) : option (bytes * bytes) :=
  slice_next_loop (length list_) list_ sep.

(** The copy: [buf] after the call and the answer. *)
Definition ioxd_cstr (s buf : bytes) : bool * bytes :=
  let cap := length buf in
  if (cap =? 0)%nat then (false, buf)
  else let n := if (length s <? cap)%nat then length s else cap - 1 in
       let buf1 := if (n =? 0)%nat then buf else blit buf 0 (take n s) in
       let buf2 := blit buf1 n [0%Z] in
       ((n =? length s)%nat && match memchr 0 (take n buf2) with Some _ => false | None => true end, buf2)%bool.

(** ** Conversions *)

(** [v] so far; [unsigned d = (unsigned char)p[i] - '0'] wraps huge for a non-digit. *)
Fixpoint digits_loop (p : bytes) (limit v : Z) : option Z :=
  match p with
  | [] => Some v
  | c :: p' =>
      let d := wrap32 (c - ch "0") in
      if ((9 <? d) || (wrap64 (limit - d) / 10 <? v))%Z%bool then None
      else digits_loop p' limit (wrap64 (v * 10 + d))
  end.

Definition digits_to_u64 (p : bytes) (limit : Z) : option Z :=
  if (length p =? 0)%nat then None else digits_loop p limit 0.

Definition ioxd_to_u64 (s : bytes) : option Z := digits_to_u64 s UINT64_MAX.

Definition ioxd_to_i64 (s : bytes) : option Z :=
  let negative := match s with c :: _ => (c =? ch "-")%Z | [] => false end in
  let limit := if negative then (INT64_MAX + 1)%Z else INT64_MAX in
  match digits_to_u64 (if negative then drop 1 s else s) limit with
  | None => None
  | Some magnitude =>
      if negative then Some (if (magnitude =? 0)%Z then 0 else - (magnitude - 1) - 1)%Z
      else Some magnitude
  end.

Definition ioxd_to_int (s : bytes) : option Z :=
  match ioxd_to_i64 s with
  | None => None
  | Some v => if ((v <? INT_MIN) || (INT_MAX <? v))%Z%bool then None else Some v
  end.

Definition yes : list bytes := [lit "true"; lit "1"; lit "yes"; lit "on"].
Definition no  : list bytes := [lit "false"; lit "0"; lit "no"; lit "off"].

Fixpoint to_bool_loop (s : bytes) (ys ns : list bytes) : option bool :=
  match ys, ns with
  | y :: ys', n :: ns' =>
      if ioxd_slice_eq_ci s y then Some true
      else if ioxd_slice_eq_ci s n then Some false
      else to_bool_loop s ys' ns'
  | _, _ => None
  end.
Definition ioxd_to_bool (s : bytes) : option bool := to_bool_loop s yes no.

(** ** Percent-decoding *)

(** [ioxd__http_hexval]: the value of a hex digit, or -1. *)
Definition ioxd__http_hexval (c : Z) : Z :=
  if ((ch "0" <=? c) && (c <=? ch "9"))%Z%bool then (c - ch "0")%Z
  else let c' := Z.lor c 32 in
       if ((ch "a" <=? c') && (c' <=? ch "f"))%Z%bool then (c' - ch "a" + 10)%Z else (-1)%Z.

Fixpoint decode (src : bytes) : bytes :=
  match src with
  | [] => []
  | c :: rest =>
      if (c =? ch "+")%Z then ch " " :: decode rest
      else if (c =? ch "%")%Z then
        match rest with
        | h :: l :: rest' =>
            let hi := ioxd__http_hexval h in
            let lo := ioxd__http_hexval l in
            if ((0 <=? hi) && (0 <=? lo) && negb ((hi =? 0) && (lo =? 0)))%Z%bool
            then (hi * 16 + lo)%Z :: decode rest'
            else ch "%" :: decode rest
        | _ => c :: decode rest
        end
      else c :: decode rest
  end.

(** ** The key/value parser

    A slice of a pair is a view of the text or a part of the arena. *)
Inductive place :=
| InText  (off len : nat)
| InArena (off len : nat).

Record kv := { key : place; value : place }.

Definition place_len (p : place) : nat :=
  match p with InText _ len | InArena _ len => len end.

(** The bytes of a slice, given the text and the arena as they are now. *)
Definition bytes_at (text arena : bytes) (p : place) : bytes :=
  match p with
  | InText off len => span text off len
  | InArena off len => span arena off len
  end.

(** The arena and how much of it is used after decoding a slice into it; [None] when it would
    not fit. The arena's length is its capacity. *)
Definition decode_into (text : bytes) (slice : place) (arena : bytes) (used : nat)
  : option (place * bytes * nat) :=
  if (length arena <? used + place_len slice)%nat then None
  else let d := decode (bytes_at text arena slice) in
       Some (InArena used (length d), blit arena used d, used + length d).

(** The inner loop: [rest] is the text from [end_]; [eq_at] is the length of the text until an
    '=' is found. *)
Fixpoint kv_scan (rest : bytes) (len end_ eq_at : nat) (kd vd : bool) : nat * nat * bool * bool :=
  match rest with
  | [] => (end_, eq_at, kd, vd)
  | c :: rest' =>
      if (c =? ch "&")%Z then (end_, eq_at, kd, vd)
      else if (c =? ch "=")%Z then
        kv_scan rest' len (end_ + 1) (if (eq_at =? len)%nat then end_ else eq_at) kd vd
      else if ((c =? ch "%") || (c =? ch "+"))%Z%bool then
        if (eq_at =? len)%nat then kv_scan rest' len (end_ + 1) eq_at true vd
        else kv_scan rest' len (end_ + 1) eq_at kd true
      else kv_scan rest' len (end_ + 1) eq_at kd vd
  end.

(** [if (needs) decode_into(...)]: the slice as it comes out, or a failure; what was written to
    the arena stays written either way. *)
Definition decode_if (needs : bool) (text : bytes) (p : place) (arena : bytes) (used : nat)
  : option place * bytes * nat :=
  if needs then
    match decode_into text p arena used with
    | Some (p', arena', used') => (Some p', arena', used')
    | None => (None, arena, used)
    end
  else (Some p, arena, used).

(** One nonempty segment [start, end): the pair unless it was lost, the arena, its use. *)
Definition kv_pair (text : bytes) (start end_ eq_at : nat) (kd vd : bool) (arena : bytes) (used : nat)
  : option kv * bytes * nat :=
  let has_eq := (eq_at <? end_)%nat in
  let key := InText start ((if has_eq then eq_at else end_) - start) in
  let value := InText (if has_eq then eq_at + 1 else end_) (if has_eq then end_ - eq_at - 1 else 0) in
  let mark := used in
  match decode_if kd text key arena used with
  | (Some key, arena, used) =>
      match decode_if vd text value arena used with
      | (Some value, arena, used) => (Some {| key := key; value := value |}, arena, used)
      | (None, arena, _) => (None, arena, mark)
      end
  | (None, arena, _) => (None, arena, mark)
  end.

(** The outer loop: the pairs so far, whether one was lost, and the arena. *)
Fixpoint kv_loop (fuel : nat) (text : bytes) (cap start used : nat) (lost : bool)
    (out : list kv) (arena : bytes) : option (list kv * bool * bytes) :=
  match fuel with
  | 0 => None
  | S fuel' =>
      let len := length text in
      if (start <? len)%nat then
        if (length out =? cap)%nat then Some (out, true, arena)
        else
          let '(end_, eq_at, kd, vd) := kv_scan (drop start text) len start len false false in
          if (start <? end_)%nat then
            match kv_pair text start end_ eq_at kd vd arena used with
            | (Some p, arena, used) => kv_loop fuel' text cap (end_ + 1) used lost (out ++ [p]) arena
            | (None, arena, used) => kv_loop fuel' text cap (end_ + 1) used true out arena
            end
          else kv_loop fuel' text cap (end_ + 1) used lost out arena
      else Some (out, lost, arena)
  end.

Definition ioxd_kv_parse (text : bytes) (cap : nat) (arena : bytes) : option (list kv * bool * bytes) :=
  kv_loop (length text + 1) text cap 0 0 false [] arena.

(** [lookup]: the value of the first pair whose key is exactly the name. *)
Fixpoint lookup_kv (pairs : list (bytes * bytes)) (name : bytes) : option bytes :=
  match pairs with
  | [] => None
  | (k, v) :: pairs' =>
      if ((length k =? length name)%nat && beq k name)%bool then Some v else lookup_kv pairs' name
  end.

Definition kv_show (r : option (list kv * bool * bytes)) (text : bytes) : option (list (bytes * bytes) * bool) :=
  match r with
  | Some (out, lost, arena) =>
      Some (map (fun p => (bytes_at text arena (key p), bytes_at text arena (value p))) out, lost)
  | None => None
  end.

Example kv_ex :
  let text := lit "a=1&b%20c=x+y&&=z&flag" in
  kv_show (ioxd_kv_parse text 8 (replicate 16 0%Z)) text =
  Some ([(lit "a", lit "1"); (lit "b c", lit "x y"); ([], lit "z"); (lit "flag", [])], false).
Proof. vm_compute. reflexivity. Qed.

(** ** Comparing: what the tests decide *)

Lemma slice_eq_true s t : ioxd_slice_eq s t = true <-> s = t.
Proof.
  unfold ioxd_slice_eq. rewrite andb_true_iff, orb_true_iff, beq_true, !Nat.eqb_eq. split.
  - intros [Hl [H0|Hb]]; [|done]. destruct t; [|done]. by destruct s.
  - intros ->. auto.
Qed.

Lemma all_lower_eq_true a b :
  length a = length b -> all_lower_eq a b = true <-> map lower a = map lower b.
Proof.
  revert b. induction a as [|x a IH]; intros [|y b] Hl; simpl; try done.
  injection Hl as Hl. destruct (Z.eqb_spec (lower x) (lower y)) as [->|Hne].
  - rewrite IH by done. split; [by intros ->|by intros [= ->]].
  - split; [done|]. intros [= ??]. done.
Qed.

Lemma slice_eq_ci_true s t : ioxd_slice_eq_ci s t = true <-> map lower s = map lower t.
Proof.
  unfold ioxd_slice_eq_ci. destruct (Nat.eqb_spec (length t) (length s)) as [Hl|Hl].
  - by apply all_lower_eq_true.
  - split; [done|]. intros H. apply (f_equal length) in H. rewrite !length_map in H. done.
Qed.

Lemma starts_with_true s p : ioxd_slice_starts_with s p = true <-> exists r, s = p ++ r.
Proof.
  unfold ioxd_slice_starts_with. rewrite andb_true_iff, orb_true_iff, beq_true, Nat.leb_le, Nat.eqb_eq.
  split.
  - intros [Hl [H0|Hb]]; [destruct p; [by exists s|done]|].
    exists (drop (length p) s). by rewrite <- Hb at 1; rewrite take_drop.
  - intros [r ->]. rewrite take_app_length, length_app. split; [lia|auto].
Qed.

Lemma ends_with_true s p : ioxd_slice_ends_with s p = true <-> exists r, s = r ++ p.
Proof.
  unfold ioxd_slice_ends_with. rewrite andb_true_iff, orb_true_iff, beq_true, Nat.leb_le, Nat.eqb_eq.
  split.
  - intros [Hl [H0|Hb]]; [destruct p; [exists s; by rewrite app_nil_r|done]|].
    exists (take (length s - length p) s). by rewrite <- Hb at 2; rewrite take_drop.
  - intros [r ->]. rewrite length_app. replace (length r + length p - length p) with (length r) by lia.
    rewrite drop_app_length. split; [lia|auto].
Qed.

(** ** Trimming *)

Definition no_outer_space (s : bytes) : Prop :=
  (forall c, s !! 0 = Some c -> is_space c = false) /\
  (forall c, last s = Some c -> is_space c = false).

Lemma trim_front_spec s :
  exists pre, s = pre ++ trim_front s /\ Forall (fun c => is_space c = true) pre /\
              forall c, trim_front s !! 0 = Some c -> is_space c = false.
Proof.
  induction s as [|c s (pre & Hs & Hp & Hh)]; simpl; [by exists []|].
  destruct (is_space c) eqn:E.
  - exists (c :: pre). split; [by rewrite Hs at 1|]. split; [by constructor|done].
  - exists []. split; [done|]. split; [constructor|]. intros ? [= <-]. done.
Qed.

Lemma trim_len_spec s len :
  len <= length s ->
  exists k, trim_len s len + k = len /\
            Forall (fun c => is_space c = true) (take k (drop (trim_len s len) s)) /\
            forall c, last (take (trim_len s len) s) = Some c -> is_space c = false.
Proof.
  induction len as [|len IH]; intros Hl; cbn [trim_len]; [by exists 0|].
  destruct (lookup_lt_is_Some_2 s len) as [c Hc]; [lia|]. rewrite Hc.
  destruct (is_space c) eqn:E.
  - destruct (IH ltac:(lia)) as (k & Hk & Hsp & Hlast). exists (S k). split; [lia|].
    split; [|done]. replace (S k) with (k + 1) by lia.
    rewrite <- (take_drop k (take (k + 1) _)). apply Forall_app. split.
    + rewrite take_take. by replace (k `min` (k + 1)) with k by lia.
    + rewrite skipn_firstn_comm, drop_drop. replace (k + 1 - k) with 1 by lia.
      replace (trim_len s len + k) with len by lia.
      rewrite (drop_S s c len Hc). simpl. by constructor.
  - exists 0. split; [lia|]. split; [constructor|]. intros c'.
    rewrite (take_S_r s len c Hc), last_snoc. intros [= <-]. done.
Qed.

Lemma slice_trim_spec s :
  exists pre post, s = pre ++ ioxd_slice_trim s ++ post /\
    Forall (fun c => is_space c = true) pre /\ Forall (fun c => is_space c = true) post /\
    no_outer_space (ioxd_slice_trim s).
Proof.
  unfold ioxd_slice_trim. destruct (trim_front_spec s) as (pre & Hs & Hp & Hh).
  set (s1 := trim_front s) in *. destruct (trim_len_spec s1 (length s1)) as (k & Hk & Hsp & Hl); [lia|].
  exists pre, (drop (trim_len s1 (length s1)) s1). split; [by rewrite take_drop|]. split; [done|].
  split.
  - rewrite take_ge in Hsp by list_lia. done.
  - split; [|done]. intros c Hc. apply Hh.
    destruct (trim_len s1 (length s1)); [by rewrite take_0 in Hc|].
    by rewrite lookup_take_lt in Hc by lia.
Qed.

(** ** Cutting, and the items of a list *)

(** The reference: a list at its separators. *)
Fixpoint split_at (sep : Z) (l : bytes) : list bytes :=
  match l with
  | [] => [[]]
  | c :: l' =>
      if (c =? sep)%Z then [] :: split_at sep l'
      else match split_at sep l' with
           | h :: t => (c :: h) :: t
           | [] => [[c]]
           end
  end.

Lemma split_at_nil sep l : split_at sep l <> [].
Proof. destruct l; simpl; [done|]. case_match; [done|]. by destruct (split_at sep l). Qed.

Lemma split_at_app sep a l :
  sep ∉ a -> split_at sep (a ++ sep :: l) = a :: split_at sep l.
Proof.
  induction a as [|c a IH]; simpl; intros Ha; [by rewrite Z.eqb_refl|].
  destruct (Z.eqb_spec c sep); [set_solver|]. by rewrite IH by set_solver.
Qed.

Lemma split_at_none sep a : sep ∉ a -> split_at sep a = [a].
Proof.
  induction a as [|c a IH]; simpl; intros Ha; [done|].
  destruct (Z.eqb_spec c sep); [set_solver|]. by rewrite IH by set_solver.
Qed.

Lemma slice_cut_spec s sep :
  match ioxd_slice_cut s sep with
  | (true, head, rest) => s = head ++ sep :: rest /\ sep ∉ head
  | (false, head, rest) => head = s /\ rest = [] /\ sep ∉ s
  end.
Proof.
  unfold ioxd_slice_cut.
  replace (ioxd_slice_find_char s sep) with (memchr sep s) by (by destruct s).
  destruct (memchr sep s) as [i|] eqn:E.
  - pose proof (memchr_lt _ _ _ E) as Hi. destruct (memchr_split _ _ _ E) as [Hs Hn].
    unfold ioxd_slice_upto, ioxd_slice_from. rewrite (proj2 (Nat.ltb_lt _ _) Hi).
    rewrite (proj2 (Nat.ltb_ge _ _)) by lia. rewrite Nat.add_1_r. done.
  - apply memchr_None in E. unfold ioxd_slice_from. split; [done|].
    split; [|done]. case_match; apply drop_ge; lia.
Qed.

Lemma slice_cut_split s sep :
  match ioxd_slice_cut s sep with
  | (true, head, rest) => split_at sep s = head :: split_at sep rest
  | (false, head, _) => split_at sep s = [head]
  end.
Proof.
  pose proof (slice_cut_spec s sep) as H. destruct (ioxd_slice_cut s sep) as [[[] head] rest].
  - destruct H as [-> ?]. by apply split_at_app.
  - destruct H as (-> & _ & ?). by apply split_at_none.
Qed.

Definition nonempty (s : bytes) : bool := negb (length s =? 0)%nat.

(** What calling [ioxd_slice_next] until it says false yields. *)
Fixpoint slice_items (fuel : nat) (l : bytes) (sep : Z) : list bytes :=
  match fuel with
  | 0 => []
  | S fuel' => match ioxd_slice_next l sep with
               | Some (item, rest) => item :: slice_items fuel' rest sep
               | None => []
               end
  end.

Definition list_items (l : bytes) (sep : Z) : list bytes :=
  List.filter nonempty (map ioxd_slice_trim (split_at sep l)).

Lemma slice_next_loop_spec fuel l sep :
  length l <= fuel ->
  match slice_next_loop fuel l sep with
  | Some (item, rest) => item <> [] /\ length rest < length l /\
      list_items l sep = item :: (if (length rest =? 0)%nat then [] else list_items rest sep)
  | None => list_items l sep = []
  end.
Proof.
  revert l. induction fuel as [|fuel IH]; intros l Hl; cbn [slice_next_loop].
  { by destruct l; [|simpl in Hl; lia]. }
  destruct (Nat.eqb_spec (length l) 0) as [H0|H0]; [by destruct l|].
  pose proof (slice_cut_spec l sep) as Hc. pose proof (slice_cut_split l sep) as Hs.
  destruct (ioxd_slice_cut l sep) as [[b head] rest].
  assert (Hr : length rest < length l).
  { destruct b; [destruct Hc as [-> _]; list_lia|destruct Hc as (_ & -> & _); simpl; lia]. }
  assert (Hitems : list_items l sep =
    (if nonempty (ioxd_slice_trim head) then [ioxd_slice_trim head] else []) ++
    (if (length rest =? 0)%nat then [] else list_items rest sep)).
  { unfold list_items. destruct b; rewrite Hs; cbn [map List.filter].
    - destruct (Nat.eqb_spec (length rest) 0) as [Hz|]; [|by case_match].
      destruct rest; [|done]. cbn. by case_match.
    - destruct Hc as (_ & -> & _). cbn. by case_match. }
  rewrite Hitems. unfold nonempty. destruct (Nat.eqb_spec (length (ioxd_slice_trim head)) 0) as [Hz|Hz]; simpl.
  - specialize (IH rest ltac:(lia)). destruct (slice_next_loop fuel rest sep) as [[item rest']|].
    + destruct IH as (Hne & Hlt & ->). split; [done|]. split; [lia|].
      destruct (Nat.eqb_spec (length rest) 0); [lia|]. done.
    + rewrite IH. by destruct (length rest).
  - split; [|done]. by destruct (ioxd_slice_trim head).
Qed.

Lemma slice_items_spec fuel l sep :
  length l < fuel -> slice_items fuel l sep = list_items l sep.
Proof.
  revert l. induction fuel as [|fuel IH]; intros l Hl; [lia|]. cbn [slice_items].
  unfold ioxd_slice_next. pose proof (slice_next_loop_spec (length l) l sep ltac:(lia)) as H.
  destruct (slice_next_loop (length l) l sep) as [[item rest]|]; [|done].
  destruct H as (_ & Hlt & ->). f_equal. rewrite IH by lia.
  destruct (Nat.eqb_spec (length rest) 0); [|done]. by destruct rest.
Qed.

(** ** Decimal numbers *)

Definition is_digit (c : Z) : bool := ((ch "0" <=? c) && (c <=? ch "9"))%Z%bool.

(** The reference: the value of a run of digits, of any length. *)
Definition dec_value_from (v : Z) (p : bytes) : Z :=
  fold_left (fun v c => v * 10 + (c - ch "0"))%Z p v.
Definition dec_value (p : bytes) : Z := dec_value_from 0 p.

Lemma wrap32_digit c :
  is_byte c -> (wrap32 (c - ch "0") <= 9)%Z <-> is_digit c = true.
Proof.
  unfold is_byte, wrap32, is_digit. change (ch "0") with 48%Z. change (ch "9") with 57%Z. intros Hc.
  rewrite andb_true_iff, !Z.leb_le. destruct (Z_lt_ge_dec c 48).
  - rewrite <- (Z.mod_add _ 1) by lia. rewrite Z.mod_small by lia. lia.
  - rewrite Z.mod_small by lia. lia.
Qed.

Lemma wrap32_digit_val c : is_digit c = true -> wrap32 (c - ch "0") = (c - ch "0")%Z.
Proof.
  unfold is_digit, wrap32. change (ch "0") with 48%Z. change (ch "9") with 57%Z.
  rewrite andb_true_iff, !Z.leb_le. intros. apply Z.mod_small. lia.
Qed.

Lemma dec_value_from_mono v p :
  (0 <= v)%Z -> Forall (fun c => is_digit c = true) p -> (v <= dec_value_from v p)%Z.
Proof.
  revert v. induction p as [|c p IH]; intros v Hv Hp; [unfold dec_value_from; simpl; lia|].
  inversion Hp as [|? ? Hc Hp']; subst. unfold is_digit in Hc. bool_to_prop.
  change (dec_value_from v (c :: p)) with (dec_value_from (v * 10 + (c - ch "0")) p).
  change (ch "0") with 48%Z in *. change (ch "9") with 57%Z in *.
  etransitivity; [|apply IH; [lia|done]]. lia.
Qed.

(** The loop accepts exactly the digit runs whose value does not pass the limit: no product or
    sum in it wraps before the test refuses it. *)
Lemma digits_loop_spec p limit v :
  all_bytes p -> (9 <= limit <= UINT64_MAX)%Z -> (0 <= v <= limit)%Z ->
  digits_loop p limit v =
    (if (forallb is_digit p && (dec_value_from v p <=? limit))%Z%bool
     then Some (dec_value_from v p) else None).
Proof.
  intros Hp Hlim. revert v. induction Hp as [|c p Hc Hp IH]; intros v Hv; cbn [digits_loop forallb].
  { change (dec_value_from v []) with v. destruct (Z.leb_spec v limit); [done|lia]. }
  change (dec_value_from v (c :: p)) with (dec_value_from (v * 10 + (c - ch "0")) p).
  destruct (is_digit c) eqn:Ed.
  2:{ assert ((9 <? wrap32 (c - ch "0")) = true)%Z as ->; [|done].
      apply Z.ltb_lt. destruct (Z_lt_ge_dec 9 (wrap32 (c - ch "0"))); [done|].
      assert (is_digit c = true) by (apply wrap32_digit; [done|lia]). congruence. }
  rewrite (wrap32_digit_val c Ed). pose proof Ed as Ed'. unfold is_digit in Ed'. bool_to_prop.
  set (d := (c - ch "0")%Z) in *.
  assert (0 <= d <= 9)%Z by (unfold d; change (ch "0") with 48%Z in *; change (ch "9") with 57%Z in *; lia).
  unfold UINT64_MAX in Hlim. assert (Hw : wrap64 (limit - d) = (limit - d)%Z)
    by (unfold wrap64; apply Z.mod_small; lia).
  rewrite Hw. destruct (Z.ltb_spec 9 d); [lia|]. cbn [orb].
  pose proof (Z.div_mod (limit - d) 10 ltac:(lia)) as Hdm.
  pose proof (Z.mod_pos_bound (limit - d) 10 ltac:(lia)) as Hmb.
  destruct (Z.ltb_spec ((limit - d) / 10) v) as [Hbig|Hfit]; cbn [andb].
  - destruct (forallb is_digit p) eqn:Ef; [|done]. cbn [andb].
    apply forallb_Forall in Ef. assert (v * 10 + d > limit)%Z by nia.
    pose proof (dec_value_from_mono (v * 10 + d) p ltac:(lia) Ef) as Hm.
    destruct (Z.leb_spec (dec_value_from (v * 10 + d) p) limit); [lia|done].
  - assert (v * 10 + d <= limit)%Z by nia.
    assert (wrap64 (v * 10 + d) = v * 10 + d)%Z as -> by (unfold wrap64; apply Z.mod_small; lia).
    apply IH. lia.
Qed.

Lemma digits_to_u64_spec p limit :
  all_bytes p -> (9 <= limit <= UINT64_MAX)%Z ->
  digits_to_u64 p limit =
    (if (nonempty p && forallb is_digit p && (dec_value p <=? limit))%Z%bool
     then Some (dec_value p) else None).
Proof.
  intros Hp Hl. unfold digits_to_u64, nonempty. destruct (length p =? 0)%nat; [done|].
  apply digits_loop_spec; [done|done|lia].
Qed.

(** A decimal number without a sign, and one with an optional sign, as the conversions read them. *)
Definition decimal (p : bytes) (v : Z) : Prop :=
  p <> [] /\ forallb is_digit p = true /\ v = dec_value p.

Definition signed_decimal (s : bytes) (v : Z) : Prop :=
  (exists p, s = ch "-" :: p /\ exists m, decimal p m /\ v = (- m)%Z) \/ decimal s v.

Lemma digits_to_u64_iff p limit v :
  all_bytes p -> (9 <= limit <= UINT64_MAX)%Z ->
  digits_to_u64 p limit = Some v <-> decimal p v /\ (v <= limit)%Z.
Proof.
  intros Hp Hl. rewrite digits_to_u64_spec by done. unfold decimal, nonempty.
  destruct p as [|c p]; [naive_solver|]. cbn [length Nat.eqb negb andb].
  destruct (forallb is_digit (c :: p)); cbn [andb]; [|naive_solver].
  destruct (Z.leb_spec (dec_value (c :: p)) limit); naive_solver lia.
Qed.

Lemma dec_value_nonneg p : forallb is_digit p = true -> (0 <= dec_value p)%Z.
Proof.
  intros H. apply (dec_value_from_mono 0); [lia|]. by apply forallb_Forall.
Qed.

(** ** Percent-decoding *)

Lemma hexval_range c : (-1 <= ioxd__http_hexval c <= 15)%Z.
Proof.
  unfold ioxd__http_hexval. repeat case_test; bool_to_prop;
  change (ch "0") with 48%Z in *; change (ch "9") with 57%Z in *;
  change (ch "a") with 97%Z in *; change (ch "f") with 102%Z in *; lia.
Qed.

(** The decoder's recursion: one byte, or three. *)
Lemma decode_ind (P : bytes -> Prop) :
  P [] ->
  (forall c rest, P rest -> (forall h l rest', rest = h :: l :: rest' -> P rest') -> P (c :: rest)) ->
  forall s, P s.
Proof.
  intros H0 H1 s. induction s as [s IH] using (induction_ltof1 _ (@length Z)).
  unfold ltof in IH. destruct s as [|c rest]; [done|]. apply H1; [apply IH; simpl; lia|].
  intros h l rest' ->. apply IH. simpl. lia.
Qed.

Lemma decode_length s : length (decode s) <= length s.
Proof.
  induction s as [|c rest IH IH3] using decode_ind; cbn [decode]; [done|].
  case_test; [simpl; lia|]. case_test; [|simpl; lia].
  destruct rest as [|h [|l rest']]; [simpl; lia|simpl in *; lia|].
  specialize (IH3 h l rest' eq_refl). case_test; cbn [length] in *; lia.
Qed.

Lemma decode_bytes s : all_bytes s -> all_bytes (decode s).
Proof.
  unfold all_bytes.
  induction s as [|c rest IH IH3] using decode_ind; intros Hs; cbn [decode]; [constructor|].
  inversion Hs as [|? ? Hc Hr]; subst. case_test; [constructor; [apply ch_byte|auto]|].
  case_test; [|constructor; auto].
  destruct rest as [|h [|l rest']]; [constructor; auto|constructor; auto|].
  case_test; [|constructor; [apply ch_byte|auto]].
  inversion Hr as [|? ? ? Hr']; inversion Hr'; subst. constructor; [|by eapply IH3].
  pose proof (hexval_range h). pose proof (hexval_range l). unfold is_byte. lia.
Qed.

Lemma decode_plain s : ch "%" ∉ s -> ch "+" ∉ s -> decode s = s.
Proof.
  induction s as [|c s IH]; intros H1 H2; [done|]. cbn [decode].
  destruct (Z.eqb_spec c (ch "+")); [set_solver|].
  destruct (Z.eqb_spec c (ch "%")); [set_solver|]. rewrite IH; [done|set_solver..].
Qed.

(** A reference encoder: every byte as %XX. *)
Definition hex_digit (d : Z) : Z := if (d <? 10)%Z then (ch "0" + d)%Z else (ch "a" + (d - 10))%Z.
Definition percent (b : Z) : bytes := [ch "%"; hex_digit (b / 16); hex_digit (b mod 16)].

Lemma hexval_hex_digit d : (0 <= d < 16)%Z -> ioxd__http_hexval (hex_digit d) = d.
Proof.
  intros H. assert (Hd : d ∈ seqZ 0 16) by (apply elem_of_seqZ; lia).
  revert d H Hd. assert (Forall (fun d => ioxd__http_hexval (hex_digit d) = d) (seqZ 0 16)) as Hall.
  { repeat constructor. }
  intros d _ Hd. by eapply Forall_forall in Hall.
Qed.

Lemma decode_percent b rest :
  (1 <= b < 256)%Z -> decode (percent b ++ rest) = b :: decode rest.
Proof.
  intros Hb. pose proof (Z.div_mod b 16 ltac:(lia)) as Hdm.
  pose proof (Z.mod_pos_bound b 16 ltac:(lia)) as Hm.
  assert (0 <= b / 16 < 16)%Z by (split; [apply Z.div_pos; lia|apply Z.div_lt_upper_bound; lia]).
  change (percent b ++ rest) with (ch "%" :: hex_digit (b / 16) :: hex_digit (b mod 16) :: rest).
  cbn [decode]. change (ch "%" =? ch "+")%Z with false. change (ch "%" =? ch "%")%Z with true.
  cbn [orb]. rewrite !hexval_hex_digit by lia.
  assert (((0 <=? b / 16) && (0 <=? b mod 16) && negb ((b / 16 =? 0) && (b mod 16 =? 0)))%Z%bool = true)
    as ->.
  { rewrite !andb_true_iff, !Z.leb_le, negb_true_iff, andb_false_iff, !Z.eqb_neq. lia. }
  f_equal. lia.
Qed.

(** ** The key/value parser *)

(** The reference: the nonempty segments between '&'s, each cut at its first '=', both sides
    decoded. *)
Definition pair_of (seg : bytes) : bytes * bytes :=
  match memchr (ch "=") seg with
  | Some i => (decode (take i seg), decode (drop (S i) seg))
  | None => (decode seg, [])
  end.
Definition kv_reference (text : bytes) : list (bytes * bytes) :=
  map pair_of (List.filter nonempty (split_at (ch "&") text)).

Definition resolve_kv (text arena : bytes) (p : kv) : bytes * bytes :=
  (bytes_at text arena (key p), bytes_at text arena (value p)).

Definition escaped (s : bytes) : bool := existsb (fun c => (c =? ch "%") || (c =? ch "+"))%Z%bool s.

Lemma decode_unescaped s : escaped s = false -> decode s = s.
Proof.
  intros H. apply decode_plain; intros Hc.
  all: assert (escaped s = true); [|congruence]; apply existsb_exists.
  all: eexists; split; [by apply list_elem_of_In in Hc|done].
Qed.

(** The segment at the front of the rest of the text. *)
Definition front_seg (rest : bytes) : bytes :=
  match memchr (ch "&") rest with Some i => take i rest | None => rest end.

Lemma front_seg_cons c rest :
  front_seg (c :: rest) = if (c =? ch "&")%Z then [] else c :: front_seg rest.
Proof. unfold front_seg. cbn [memchr]. destruct (c =? _)%Z; [done|]. by destruct (memchr _ rest). Qed.

Lemma front_seg_prefix rest : exists r, rest = front_seg rest ++ r.
Proof.
  unfold front_seg. destruct (memchr _ rest) as [i|]; [|exists []; by rewrite app_nil_r].
  exists (drop i rest). by rewrite take_drop.
Qed.

Lemma split_front rest :
  split_at (ch "&") rest =
  front_seg rest :: (if (length (front_seg rest) =? length rest)%nat then []
                     else split_at (ch "&") (drop (length (front_seg rest) + 1) rest)).
Proof.
  unfold front_seg. destruct (memchr (ch "&") rest) as [i|] eqn:E.
  - pose proof (memchr_lt _ _ _ E). destruct (memchr_split _ _ _ E) as [Hs Hn].
    rewrite Hs at 1. rewrite split_at_app by done. rewrite length_take_le by lia.
    destruct (Nat.eqb_spec i (length rest)); [lia|]. by rewrite Nat.add_1_r.
  - rewrite Nat.eqb_refl. apply split_at_none. by apply memchr_None.
Qed.

Ltac kv_chars :=
  repeat match goal with
  | |- context [(ch ?a =? ch ?b)%Z] => let r := eval vm_compute in (ch a =? ch b)%Z in
      change (ch a =? ch b)%Z with r
  end.

Lemma kv_scan_value rest len end_ eq_at kd vd :
  eq_at < len ->
  kv_scan rest len end_ eq_at kd vd =
  (end_ + length (front_seg rest), eq_at, kd, vd || escaped (front_seg rest)).
Proof.
  intros Heq. assert ((eq_at =? len)%nat = false) as Hne by (apply Nat.eqb_neq; lia).
  revert end_ vd. induction rest as [|c rest IH]; intros end_ vd.
  { cbn. by rewrite Nat.add_0_r, orb_false_r. }
  rewrite front_seg_cons. cbn [kv_scan]. rewrite Hne.
  destruct (c =? ch "&")%Z; [cbn; by rewrite Nat.add_0_r, orb_false_r|].
  cbn [length escaped existsb].
  destruct (Z.eqb_spec c (ch "=")) as [->|].
  { change (if false then end_ else eq_at) with eq_at. rewrite IH. kv_chars. cbn [orb].
    f_pair. }
  destruct (_ || _)%bool; rewrite IH; cbn [orb]; rewrite ?orb_true_r; f_pair.
Qed.

Lemma kv_scan_key rest len end_ kd vd :
  end_ + length rest <= len ->
  kv_scan rest len end_ len kd vd =
  match memchr (ch "=") (front_seg rest) with
  | Some i => (end_ + length (front_seg rest), end_ + i, kd || escaped (take i (front_seg rest)),
               vd || escaped (drop (S i) (front_seg rest)))%bool
  | None => (end_ + length (front_seg rest), len, kd || escaped (front_seg rest), vd)%bool
  end.
Proof.
  revert end_ kd. induction rest as [|c rest IH]; intros end_ kd Hl.
  { cbn. by rewrite Nat.add_0_r, orb_false_r. }
  cbn [length] in Hl. rewrite front_seg_cons. cbn [kv_scan]. rewrite Nat.eqb_refl.
  destruct (c =? ch "&")%Z; [cbn; by rewrite Nat.add_0_r, orb_false_r|].
  cbn [memchr]. destruct (c =? ch "=")%Z.
  - rewrite kv_scan_value by lia. cbn [length take drop escaped existsb].
    rewrite drop_0, orb_false_r. f_pair.
  - destruct (_ || _)%bool eqn:Ee; rewrite IH by lia.
    all: destruct (memchr (ch "=") (front_seg rest)); cbn [length take drop escaped existsb fmap option_fmap option_map];
      rewrite ?Ee; cbn [orb]; rewrite ?orb_true_r; f_pair.
Qed.

(** *** The arena: what is below its mark is never written again *)

Definition place_ok (used : nat) (p : place) : Prop :=
  match p with InText _ _ => True | InArena off len => off + len <= used end.

Definition keeps (used : nat) (arena arena' : bytes) : Prop :=
  length arena' = length arena /\ take used arena' = take used arena.

Lemma keeps_refl used arena : keeps used arena arena.
Proof. done. Qed.

Lemma keeps_trans used used' a b c :
  used <= used' -> keeps used a b -> keeps used' b c -> keeps used a c.
Proof.
  intros Hle [H1 H2] [H3 H4]. split; [congruence|].
  rewrite <- H2. apply (f_equal (take used)) in H4. rewrite !take_take in H4.
  by replace (used `min` used') with used in H4 by lia.
Qed.

Lemma keeps_blit used arena src :
  used + length src <= length arena -> keeps used arena (blit arena used src).
Proof.
  intros H. split; [by apply length_blit|]. unfold blit.
  rewrite take_app_le by list_lia. rewrite take_take. by replace (used `min` used) with used by lia.
Qed.

Lemma bytes_at_keeps text used arena arena' p :
  place_ok used p -> keeps used arena arena' -> bytes_at text arena' p = bytes_at text arena p.
Proof.
  destruct p as [|off len]; simpl; [done|]. intros Hp [_ Hk]. unfold span.
  assert (Hs : forall a : bytes, take len (drop off a) = take len (drop off (take used a))).
  { intros a. rewrite skipn_firstn_comm, take_take. f_equal. lia. }
  by rewrite (Hs arena'), Hk, <- Hs.
Qed.

Lemma place_ok_mono used used' p : used <= used' -> place_ok used p -> place_ok used' p.
Proof. destruct p; simpl; [done|lia]. Qed.

#[local] Hint Resolve keeps_refl : core.

(** What [if (needs) decode_into(...)] leaves: the decoded bytes, or the arena below the mark. *)
Lemma decode_if_spec text needs s off arena used :
  s = span text off (length s) -> (needs = false -> escaped s = false) -> used <= length arena ->
  match decode_if needs text (InText off (length s)) arena used with
  | (Some p, arena', used') =>
      keeps used arena arena' /\ used <= used' <= length arena' /\ place_ok used' p /\
      bytes_at text arena' p = decode s
  | (None, arena', _) => keeps used arena arena'
  end.
Proof.
  intros Hs Hn Hu. unfold decode_if. destruct needs.
  - unfold decode_into. cbn [place_len bytes_at]. rewrite <- Hs. case_test; [done|].
    pose proof (decode_length s). assert (used + length (decode s) <= length arena) by lia.
    split; [by apply keeps_blit|]. rewrite length_blit by done. split; [lia|].
    split; [simpl; lia|]. cbn [bytes_at]. by apply span_blit_same.
  - cbn [bytes_at place_ok]. rewrite decode_unescaped, <- Hs by auto. auto.
Qed.

Lemma kv_pair_spec text start seg eq_at kd vd arena used :
  seg = span text start (length seg) -> start + length seg <= length text ->
  (match memchr (ch "=") seg with
   | Some i => eq_at = start + i /\ kd = escaped (take i seg) /\ vd = escaped (drop (S i) seg)
   | None => eq_at = length text /\ kd = escaped seg /\ vd = false
   end) -> used <= length arena ->
  match kv_pair text start (start + length seg) eq_at kd vd arena used with
  | (Some p, arena', used') =>
      keeps used arena arena' /\ used <= used' <= length arena' /\
      place_ok used' (key p) /\ place_ok used' (value p) /\
      resolve_kv text arena' p = pair_of seg
  | (None, arena', used') => used' = used /\ keeps used arena arena'
  end.
Proof.
  intros Hseg Hlen Hm Hu. unfold kv_pair, pair_of, resolve_kv.
  set (k := match memchr (ch "=") seg with Some i => take i seg | None => seg end).
  set (v := match memchr (ch "=") seg with Some i => drop (S i) seg | None => [] end).
  assert (exists vo,
    InText start ((if (eq_at <? start + length seg)%nat then eq_at else start + length seg) - start)
      = InText start (length k) /\
    InText (if (eq_at <? start + length seg)%nat then eq_at + 1 else start + length seg)
           (if (eq_at <? start + length seg)%nat then start + length seg - eq_at - 1 else 0)
      = InText vo (length v) /\ k = span text start (length k) /\ v = span text vo (length v) /\
    kd = escaped k /\ vd = escaped v /\
    match memchr (ch "=") seg with
    | Some i => (decode (take i seg), decode (drop (S i) seg))
    | None => (decode seg, []) end = (decode k, decode v)) as (vo & -> & -> & Hk & Hv & -> & -> & ->).
  { subst k v. destruct (memchr (ch "=") seg) as [i|] eqn:E.
    - pose proof (memchr_lt _ _ _ E). destruct Hm as (-> & -> & ->).
      exists (start + i + 1). destruct (Nat.ltb_spec (start + i) (start + length seg)); [|lia].
      rewrite length_take_le, length_drop by lia.
      split; [f_equal; lia|]. split; [f_equal; lia|].
      assert (take i seg = span text start i) as Ht by (rewrite Hseg; apply span_take; lia).
      assert (drop (S i) seg = span text (start + S i) (length seg - S i)) as Hd
        by (rewrite Hseg at 1; apply span_drop).
      split; [done|]. split; [rewrite Hd; f_equal; lia|]. done.
    - destruct Hm as (-> & -> & ->). exists (start + length seg).
      destruct (Nat.ltb_spec (length text) (start + length seg)); [lia|].
      split; [f_equal; lia|]. split; [done|]. split; [done|]. done. }
  pose proof (decode_if_spec text (escaped k) k start arena used Hk ltac:(done) Hu) as H1.
  destruct (decode_if (escaped k) _ _ arena used) as [[[kp|] arena1] used1]; [|done].
  destruct H1 as (K1 & U1 & P1 & B1).
  pose proof (decode_if_spec text (escaped v) v vo arena1 used1 Hv ltac:(done) ltac:(lia)) as H2.
  destruct (decode_if (escaped v) _ _ arena1 used1) as [[[vp|] arena2] used2].
  - destruct H2 as (K2 & U2 & P2 & B2). cbn [key value].
    split; [eapply keeps_trans; [|exact K1|exact K2]; lia|]. split; [lia|].
    split; [eapply place_ok_mono; [|exact P1]; lia|]. split; [done|].
    f_equal; [|done]. by rewrite (bytes_at_keeps _ used1 arena1).
  - split; [done|]. eapply keeps_trans; [|exact K1|exact H2]. lia.
Qed.

Lemma kv_reference_step rest :
  kv_reference rest =
  (if nonempty (front_seg rest) then [pair_of (front_seg rest)] else []) ++
  kv_reference (drop (length (front_seg rest) + 1) rest).
Proof.
  unfold kv_reference. rewrite split_front at 1. destruct (front_seg_prefix rest) as [r Hr].
  cbn [List.filter]. destruct (Nat.eqb_spec (length (front_seg rest)) (length rest)) as [He|He].
  - rewrite drop_ge by lia. cbn [split_at List.filter]. change (nonempty []) with false.
    destruct (nonempty (front_seg rest)); reflexivity.
  - destruct (nonempty (front_seg rest)); reflexivity.
Qed.

Lemma resolve_keeps text used arena arena' out :
  keeps used arena arena' -> Forall (fun p => place_ok used (key p) /\ place_ok used (value p)) out ->
  map (resolve_kv text arena') out = map (resolve_kv text arena) out.
Proof.
  intros Hk Ho. induction Ho as [|p out [H1 H2] Ho IH]; [done|]. cbn [map]. rewrite IH. f_equal.
  unfold resolve_kv. by rewrite (bytes_at_keeps _ used arena arena' (key p)), (bytes_at_keeps _ used arena arena' (value p)).
Qed.

(** The scan and the pair of the segment at [start]. *)
Lemma scan_pair text start arena used :
  start < length text -> used <= length arena ->
  let seg := front_seg (drop start text) in
  let '(end_, eq_at, kd, vd) := kv_scan (drop start text) (length text) start (length text) false false in
  end_ = start + length seg /\
  match kv_pair text start end_ eq_at kd vd arena used with
  | (Some p, arena', used') =>
      keeps used arena arena' /\ used <= used' <= length arena' /\
      place_ok used' (key p) /\ place_ok used' (value p) /\
      resolve_kv text arena' p = pair_of seg
  | (None, arena', used') => used' = used /\ keeps used arena arena'
  end.
Proof.
  intros Hs Hu seg. destruct (front_seg_prefix (drop start text)) as [r Hr]. fold seg in Hr.
  assert (start + length seg <= length text) as Hl.
  { apply (f_equal length) in Hr. rewrite length_drop, length_app in Hr. lia. }
  assert (seg = span text start (length seg)) as Hsp
    by (unfold span; rewrite Hr; by rewrite take_app_length).
  rewrite kv_scan_key by list_lia. fold seg.
  destruct (memchr (ch "=") seg) as [i|] eqn:E; (split; [done|]).
  all: apply kv_pair_spec; [done|done| |done]; rewrite E; done.
Qed.

Lemma kv_loop_spec fuel text cap start used lost out arena :
  length text - start < fuel -> used <= length arena -> length out <= cap ->
  Forall (fun p => place_ok used (key p) /\ place_ok used (value p)) out ->
  exists out' lost' arena' more,
    kv_loop fuel text cap start used lost out arena = Some (out', lost', arena') /\
    length out' <= cap /\ length arena' = length arena /\
    map (resolve_kv text arena') out' = map (resolve_kv text arena) out ++ more /\
    more `sublist_of` kv_reference (drop start text) /\
    (lost' = false -> lost = false /\ more = kv_reference (drop start text)).
Proof.
  revert start used lost out arena. induction fuel as [|fuel IH]; [lia|].
  intros start used lost out arena Hf Hu Ho Hall. cbn [kv_loop].
  destruct (Nat.ltb_spec start (length text)) as [Hlt|Hge].
  2:{ exists out, lost, arena, []. rewrite drop_ge, app_nil_r by lia. split_and!; try done. }
  destruct (Nat.eqb_spec (length out) cap) as [Hc|Hc].
  { exists out, true, arena, []. rewrite app_nil_r. split_and!; try done. apply sublist_nil_l. }
  pose proof (scan_pair text start arena used Hlt Hu) as Hp. cbv zeta in Hp.
  destruct (kv_scan _ _ _ _ _ _) as [[[end_ eq_at] kd] vd]. destruct Hp as [-> Hp].
  pose proof (kv_reference_step (drop start text)) as Href. rewrite drop_drop in Href.
  set (seg := front_seg (drop start text)) in *.
  replace (start + (length seg + 1)) with (start + length seg + 1) in Href by lia.
  unfold nonempty in Href. destruct (Nat.ltb_spec start (start + length seg)) as [Hne|Hne].
  2:{ destruct (Nat.eqb_spec (length seg) 0); [|lia]. rewrite Href. apply IH; try done. lia. }
  destruct (Nat.eqb_spec (length seg) 0); [lia|]. cbn [negb] in Href.
  destruct (kv_pair _ _ _ _ _ _ _ _) as [[[p|] arena1] used1].
  - destruct Hp as (Hk & Hu1 & Hpk & Hpv & Hres).
    destruct (IH (start + length seg + 1) used1 lost (out ++ [p]) arena1)
      as (out' & lost' & arena' & more & -> & H1 & H2 & H3 & H4 & H5); [lia|lia|list_lia| |].
    { apply Forall_app. split; [|by repeat constructor].
      eapply Forall_impl; [exact Hall|]. intros q [Hq1 Hq2].
      split; (apply (place_ok_mono used used1); [lia|done]). }
    exists out', lost', arena', (pair_of seg :: more). destruct Hk as [Hk1 Hk2].
    split_and!; [done|done|congruence| |by rewrite Href; apply sublist_skip|].
    + rewrite H3, map_app, (resolve_keeps text used arena arena1), <- app_assoc by done.
      simpl. by rewrite Hres.
    + intros Hl. destruct (H5 Hl) as [-> ->]. by rewrite Href.
  - destruct Hp as [-> Hk].
    destruct (IH (start + length seg + 1) used true out arena1)
      as (out' & lost' & arena' & more & -> & H1 & H2 & H3 & H4 & H5); try done; [lia|by destruct Hk as [-> _]|].
    exists out', lost', arena', more. destruct Hk as [Hk1 Hk2].
    split_and!; [done|done|congruence| | |].
    + by rewrite H3, (resolve_keeps text used arena arena1).
    + rewrite Href. by apply sublist_cons.
    + intros Hl. by destruct (H5 Hl).
Qed.

(** With room for everything, nothing is lost. *)
Lemma decode_if_room text needs s off arena used :
  s = span text off (length s) -> used + length s <= length arena ->
  exists p used', decode_if needs text (InText off (length s)) arena used =
    (Some p, if needs then blit arena used (decode s) else arena, used') /\
    used <= used' <= used + length s.
Proof.
  intros Hs Hu. unfold decode_if. destruct needs; [|eexists _, _; split; [done|lia]].
  unfold decode_into. cbn [place_len bytes_at]. rewrite <- Hs.
  destruct (Nat.ltb_spec (length arena) (used + length s)); [lia|].
  eexists _, _. split; [done|]. pose proof (decode_length s). lia.
Qed.

Lemma kv_pair_room text start seg eq_at kd vd arena used :
  seg = span text start (length seg) -> start + length seg <= length text ->
  (match memchr (ch "=") seg with Some i => eq_at = start + i | None => eq_at = length text end) ->
  used + length seg <= length arena ->
  exists p arena' used', kv_pair text start (start + length seg) eq_at kd vd arena used = (Some p, arena', used') /\
    used' <= used + length seg.
Proof.
  intros Hseg Hlen Hm Hu. unfold kv_pair.
  set (k := match memchr (ch "=") seg with Some i => take i seg | None => seg end).
  set (v := match memchr (ch "=") seg with Some i => drop (S i) seg | None => [] end).
  assert (exists vo,
    InText start ((if (eq_at <? start + length seg)%nat then eq_at else start + length seg) - start)
      = InText start (length k) /\
    InText (if (eq_at <? start + length seg)%nat then eq_at + 1 else start + length seg)
           (if (eq_at <? start + length seg)%nat then start + length seg - eq_at - 1 else 0)
      = InText vo (length v) /\ k = span text start (length k) /\ v = span text vo (length v) /\
      length k + length v <= length seg) as (vo & -> & -> & Hk & Hv & Hkv).
  { subst k v. destruct (memchr (ch "=") seg) as [i|] eqn:E; subst eq_at.
    - pose proof (memchr_lt _ _ _ E).
      exists (start + i + 1). destruct (Nat.ltb_spec (start + i) (start + length seg)); [|lia].
      rewrite length_take_le, length_drop by lia.
      split; [f_equal; lia|]. split; [f_equal; lia|].
      split; [rewrite Hseg; apply span_take; lia|]. split; [|lia].
      rewrite Hseg at 1. rewrite span_drop. f_equal; lia.
    - exists (start + length seg).
      destruct (Nat.ltb_spec (length text) (start + length seg)); [lia|].
      split; [f_equal; lia|]. split; [done|]. split; [done|]. split; [done|]. simpl. lia. }
  destruct (decode_if_room text kd k start arena used Hk) as (p1 & u1 & -> & Hu1); [lia|].
  set (arena1 := if kd then _ else _).
  assert (length arena1 = length arena) as Ha.
  { subst arena1. pose proof (decode_length k). destruct kd; [apply length_blit; lia|done]. }
  destruct (decode_if_room text vd v vo arena1 u1 Hv) as (p2 & u2 & -> & Hu2); [lia|].
  eexists _, _, _. split; [done|]. lia.
Qed.

Lemma kv_loop_room fuel text cap start used out arena r :
  kv_loop fuel text cap start used false out arena = Some r ->
  used <= start -> length text <= length arena ->
  length out + length (kv_reference (drop start text)) < cap ->
  snd (fst r) = false.
Proof.
  revert start used out arena. induction fuel as [|fuel IH]; [done|].
  intros start used out arena Hr Hu Ha Hc. cbn [kv_loop] in Hr.
  destruct (Nat.ltb_spec start (length text)) as [Hlt|]; [|by injection Hr as <-].
  destruct (Nat.eqb_spec (length out) cap); [lia|].
  pose proof (scan_pair text start arena used Hlt ltac:(lia)) as Hp. cbv zeta in Hp.
  destruct (front_seg_prefix (drop start text)) as [rr Hrr].
  pose proof (kv_reference_step (drop start text)) as Href. rewrite drop_drop in Href.
  pose proof (kv_scan_key (drop start text) (length text) start false false ltac:(list_lia)) as Hscan.
  set (seg := front_seg (drop start text)) in *.
  assert (start + length seg <= length text) as Hl.
  { apply (f_equal length) in Hrr. rewrite length_drop, length_app in Hrr. lia. }
  assert (seg = span text start (length seg)) as Hsp
    by (unfold span; rewrite Hrr; by rewrite take_app_length).
  replace (start + (length seg + 1)) with (start + length seg + 1) in Href by lia.
  destruct (kv_scan _ _ _ _ _ _) as [[[end_ eq_at] kd] vd]. destruct Hp as [-> Hp].
  destruct (kv_pair_room text start seg eq_at kd vd arena used Hsp Hl) as (p & a' & u' & He & Hu');
    [by destruct (memchr (ch "=") seg); injection Hscan as -> -> ->|lia|].
  rewrite He in Hp, Hr. destruct Hp as ((Hlen & _) & _).
  unfold nonempty in Href. destruct (Nat.ltb_spec start (start + length seg)) as [Hne|Hne].
  - destruct (Nat.eqb_spec (length seg) 0); [lia|]. cbn [negb app] in Href.
    rewrite Href in Hc. cbn [length] in Hc.
    eapply IH; [exact Hr|lia|lia|]. rewrite length_app. cbn [length]. lia.
  - destruct (Nat.eqb_spec (length seg) 0); [|lia]. cbn [negb app] in Href.
    rewrite Href in Hc. eapply IH; [exact Hr|lia|lia|lia].
Qed.

(** ** Properties *)

(** C39. The key/value parser is total and safe: for every text, pair capacity and arena it returns;
    it never returns more pairs than the capacity nor writes past the arena; the pairs it returns,
    read back from the text and from the arena as the call left it - so no decoded value was
    overwritten by a later one - are pairs of the reference in order; and when it does not report a
    loss they are all of them, keys and values percent-decoded. *)
Theorem kv_parse_correct (text : bytes) (cap : nat) (arena : bytes) :
  exists out lost arena',
    ioxd_kv_parse text cap arena = Some (out, lost, arena') /\
    length out <= cap /\ length arena' = length arena /\
    map (resolve_kv text arena') out `sublist_of` kv_reference text /\
    (lost = false -> map (resolve_kv text arena') out = kv_reference text).
Proof.
  destruct (kv_loop_spec (length text + 1) text cap 0 0 false [] arena)
    as (out & lost & arena' & more & Hr & H1 & H2 & H3 & H4 & H5); [lia|lia|simpl; lia|constructor|].
  exists out, lost, arena'. rewrite drop_0 in *. cbn [map app] in H3. rewrite H3.
  split; [exact Hr|]. split; [done|]. split; [done|]. split; [done|]. intros Hl. by apply H5.
Qed.

(** Nothing is lost when there is room: with an arena as long as the text and a capacity above
    the number of pairs, the parser reports no loss, whatever the escapes. *)
Theorem kv_parse_complete (text : bytes) (cap : nat) (arena : bytes)
    (Ha : length text <= length arena) (Hc : length (kv_reference text) < cap) :
  exists out arena', ioxd_kv_parse text cap arena = Some (out, false, arena') /\
    map (resolve_kv text arena') out = kv_reference text.
Proof.
  destruct (kv_loop_spec (length text + 1) text cap 0 0 false [] arena)
    as (out & lost & arena' & more & Hr & H1 & H2 & H3 & H4 & H5); [lia|lia|simpl; lia|constructor|].
  pose proof (kv_loop_room _ _ _ _ _ _ _ _ Hr (le_n 0) Ha ltac:(by rewrite drop_0)) as Hl.
  cbn in Hl. subst lost. exists out, arena'. split; [exact Hr|].
  rewrite drop_0 in *. cbn [map app] in H3. rewrite H3. by apply H5.
Qed.

Lemma kv_parse_complete_witness :
  let text := lit "q=a%26b&&x=1+2" in let arena := replicate 20 0%Z in
  length text <= length arena /\ length (kv_reference text) < 4 /\
  exists out arena', ioxd_kv_parse text 4 arena = Some (out, false, arena') /\
    map (resolve_kv text arena') out = [(lit "q", lit "a&b"); (lit "x", lit "1 2")].
Proof.
  intros text arena. assert (Ha : length text <= length arena) by (vm_compute; lia).
  assert (Hc : length (kv_reference text) < 4) by (vm_compute; lia).
  split; [exact Ha|]. split; [exact Hc|]. exact (kv_parse_complete text 4 arena Ha Hc).
Defined.

(** The two signs of [ioxd_to_i64], each through [digits_to_u64_iff]. *)
Lemma to_i64_negative p v :
  all_bytes p -> ioxd_to_i64 (ch "-" :: p) = Some v <->
  exists m, decimal p m /\ v = (- m)%Z /\ (m <= INT64_MAX + 1)%Z.
Proof.
  intros Hp. change (ioxd_to_i64 (ch "-" :: p)) with
    (match digits_to_u64 p (INT64_MAX + 1) with
     | None => None | Some m => Some (if (m =? 0)%Z then 0 else - (m - 1) - 1)%Z end).
  pose proof (fun m => digits_to_u64_iff p (INT64_MAX + 1) m Hp ltac:(unfold INT64_MAX, UINT64_MAX; lia)) as Hd.
  destruct (digits_to_u64 p (INT64_MAX + 1)) as [m|].
  - destruct (proj1 (Hd m) eq_refl) as [Hm Hle].
    assert (Hval : (if m =? 0 then 0 else - (m - 1) - 1)%Z = (- m)%Z) by (case_test; lia).
    rewrite Hval. split; [intros [= <-]; by exists m|]. intros (m' & Hm' & -> & _).
    do 2 f_equal. destruct Hm as (_ & _ & ->), Hm' as (_ & _ & ->). done.
  - split; [done|]. intros (m & Hm & _ & Hle). discriminate (proj2 (Hd m) (conj Hm Hle)).
Qed.

Lemma to_i64_positive s v :
  all_bytes s -> (forall p, s <> ch "-" :: p) ->
  ioxd_to_i64 s = Some v <-> decimal s v /\ (v <= INT64_MAX)%Z.
Proof.
  intros Hs Hneg. rewrite <- (digits_to_u64_iff s INT64_MAX v Hs) by (unfold INT64_MAX, UINT64_MAX; lia).
  unfold ioxd_to_i64. assert (match s with c :: _ => (c =? ch "-")%Z | [] => false end = false) as ->.
  { destruct s as [|c p]; [done|]. apply Z.eqb_neq. intros ->. by eapply Hneg. }
  by destruct (digits_to_u64 s INT64_MAX).
Qed.

(** Signed conversion: on the bytes of any slice, [ioxd_to_i64] answers exactly the decimal
    numerals - an optional '-', then digits and nothing else - whose value an int64_t holds, and
    with that value; everything else, an overflow of any length included, is refused. *)
Theorem to_i64_correct (s : bytes) (v : Z) (Hs : all_bytes s) :
  ioxd_to_i64 s = Some v <-> signed_decimal s v /\ (INT64_MIN <= v <= INT64_MAX)%Z.
Proof.
  unfold signed_decimal, INT64_MIN, INT64_MAX.
  destruct (decide (head s = Some (ch "-"))) as [[p ->]%head_Some|Hpos].
  - assert (all_bytes p) as Hp by by inversion Hs. rewrite to_i64_negative by done.
    assert (~ decimal (ch "-" :: p) v) by (intros (_ & ? & _); discriminate).
    unfold INT64_MAX. split.
    + intros (m & Hm & -> & Hle). pose proof Hm as (_ & Hf & Hval).
      pose proof (dec_value_nonneg p Hf). split; [left; eauto|lia].
    + intros [[(q & [= <-] & m & Hm & ->)|] Hb]; [|done]. exists m. split; [done|]. lia.
  - rewrite to_i64_positive by (try done; by intros p ->). unfold INT64_MAX. split.
    + intros [Hd Hle]. pose proof Hd as (_ & Hf & Hval). pose proof (dec_value_nonneg s Hf).
      split; [by right|lia].
    + intros [[(p & -> & _)|Hd] Hb]; [done|]. split; [done|lia].
Qed.

Lemma to_i64_correct_witness :
  let s := lit "-9223372036854775808" in
  all_bytes s /\ (ioxd_to_i64 s = Some INT64_MIN) /\ signed_decimal s INT64_MIN.
Proof.
  intros s. assert (Hs : all_bytes s) by apply lit_bytes.
  assert (Hv : ioxd_to_i64 s = Some INT64_MIN) by (vm_compute; reflexivity).
  split; [exact Hs|]. split; [exact Hv|]. exact (proj1 (proj1 (to_i64_correct s INT64_MIN Hs) Hv)).
Defined.

(** Percent-decoding gives back what was encoded: every run of bytes other than NUL, written
    with each byte as %XX, decodes to itself - and no text decodes to more bytes than it has, so
    a slice always fits the arena room its length asks for. *)
Theorem percent_roundtrip (s : bytes) (Hs : Forall (fun b => 1 <= b < 256)%Z s) :
  decode (concat (map percent s)) = s /\ forall t, length (decode t) <= length t.
Proof.
  split; [|apply decode_length]. induction Hs as [|b s Hb Hs IH]; [done|].
  cbn [map concat]. by rewrite decode_percent, IH.
Qed.

Lemma percent_roundtrip_witness :
  let s := lit "a b&c=%+/" in
  Forall (fun b => 1 <= b < 256)%Z s /\ decode (concat (map percent s)) = s.
Proof.
  intros s. assert (Hs : Forall (fun b => 1 <= b < 256)%Z s).
  { unfold s; cbn [lit]. repeat (constructor; [vm_compute; split; discriminate || reflexivity|]). constructor. }
  split; [exact Hs|]. exact (proj1 (percent_roundtrip s Hs)).
Defined.

(** Walking a separated list with [ioxd_slice_next] until it says false terminates, and yields
    exactly the trimmed pieces between the separators that are not empty, in order. *)
Theorem slice_next_items (l : bytes) (sep : Z) :
  slice_items (S (length l)) l sep =
  List.filter nonempty (map ioxd_slice_trim (split_at sep l)).
Proof. apply slice_items_spec. lia. Qed.
