(* ===== verification/Bufring.v ===== *)
(** The two rings that carry received buffers: lib/io/spsc.h, the queue of delivered buffers of one
    connection, whose head and tail are 32-bit counters that wrap; and lib/io/bufring.c, the
    provided-buffer ring, through which every buffer goes to the kernel and comes back. *)
From S2P Require Import Prelude.

(** ** spsc.h *)

Definition RX_QUEUE : Z := 64.

(** A delivered buffer: where its bytes are in the slab, how many, and its ring id. *)
Record rx_item := { ptr : Z; len : Z; buf_id : Z }.
Definition rx_none : rx_item := {| ptr := 0; len := 0; buf_id := 0 |}.

Record spsc := { items : list rx_item; head : Z; tail : Z }.

Definition ioxd__spsc_reset (q : spsc) : spsc := {| items := items q; head := 0; tail := 0 |}.
Definition ioxd__spsc_count (q : spsc) : Z := wrap32 (tail q - head q).
Definition ioxd__spsc_empty (q : spsc) : bool := (tail q =? head q)%Z.
Definition ioxd__spsc_full (q : spsc) : bool := (wrap32 (tail q - head q) =? RX_QUEUE)%Z.

(** The slot of a counter: [& (RX_QUEUE - 1U)]. *)
Definition slot_of (c : Z) : nat := Z.to_nat (Z.land c (RX_QUEUE - 1)).

(** The producer fills the slot it is handed; the caller checked that the ring is not full. *)
Definition ioxd__spsc_push (q : spsc) (x : rx_item) : spsc :=
  {| items := <[slot_of (tail q) := x]> (items q); head := head q; tail := wrap32 (tail q + 1) |}.
Definition ioxd__spsc_pop (q : spsc) : rx_item * spsc :=
  (default rx_none (items q !! slot_of (head q)),
   {| items := items q; head := wrap32 (head q + 1); tail := tail q |}).
Definition ioxd__spsc_peek (q : spsc) : rx_item := default rx_none (items q !! slot_of (head q)).

(** The ring stands for the list of what was pushed and not popped. *)
Record spsc_rep (q : spsc) (l : list rx_item) : Prop := {
  rep_items : length (items q) = 64;
  rep_head  : (0 <= head q < 2 ^ 32)%Z;
  rep_tail  : tail q = wrap32 (head q + Z.of_nat (length l));
  rep_len   : length l <= 64;
  rep_slots : forall i x, l !! i = Some x -> items q !! slot_of (head q + Z.of_nat i) = Some x
}.

Lemma slot_of_mod c : slot_of c = Z.to_nat (c mod 64).
Proof. unfold slot_of, RX_QUEUE. change (64 - 1)%Z with (Z.ones 6). by rewrite Z.land_ones. Qed.

Lemma slot_of_lt c : slot_of c < 64.
Proof. rewrite slot_of_mod. pose proof (Z.mod_pos_bound c 64). lia. Qed.

Lemma slot_of_wrap c : slot_of (wrap32 c) = slot_of c.
Proof.
  rewrite !slot_of_mod. unfold wrap32. f_equal.
  apply Z.mod_mod_divide. by exists (2 ^ 26)%Z.
Qed.

(** Counters less than a ring apart have different slots. *)
Lemma slot_of_ne c i j : (0 <= i < j)%Z -> (j - i < 64)%Z -> slot_of (c + i) <> slot_of (c + j).
Proof.
  intros Hij Hlt H. rewrite !slot_of_mod in H.
  pose proof (Z.mod_pos_bound (c + i) 64 ltac:(lia)). pose proof (Z.mod_pos_bound (c + j) 64 ltac:(lia)).
  pose proof (Z.div_mod (c + i) 64 ltac:(lia)). pose proof (Z.div_mod (c + j) 64 ltac:(lia)).
  assert ((c + i) mod 64 = (c + j) mod 64)%Z by lia. lia.
Qed.

Lemma spsc_rep_count q l : spsc_rep q l -> ioxd__spsc_count q = Z.of_nat (length l).
Proof.
  intros [_ Hh Ht Hl _]. unfold ioxd__spsc_count, wrap32 in *. rewrite Ht.
  rewrite Zminus_mod_idemp_l. replace (head q + _ - head q)%Z with (Z.of_nat (length l)) by lia.
  apply Z.mod_small. lia.
Qed.

Lemma spsc_rep_empty q l : spsc_rep q l -> ioxd__spsc_empty q = bool_decide (l = []).
Proof.
  intros Hr. pose proof (spsc_rep_count q l Hr) as Hc. destruct Hr as [_ Hh Ht Hl _].
  unfold ioxd__spsc_empty, ioxd__spsc_count, wrap32 in *.
  destruct (Z.eqb_spec (tail q) (head q)) as [He|He].
  - rewrite He, Z.sub_diag, Z.mod_0_l in Hc by lia. destruct l; [done|simpl in Hc; lia].
  - destruct l; [|done]. exfalso. apply He. rewrite Ht. simpl. rewrite Z.add_0_r.
    by apply Z.mod_small.
Qed.

Lemma spsc_rep_full q l : spsc_rep q l -> ioxd__spsc_full q = bool_decide (length l = 64).
Proof.
  intros Hr. pose proof (spsc_rep_count q l Hr) as Hc. unfold ioxd__spsc_full.
  unfold ioxd__spsc_count in Hc. rewrite Hc. unfold RX_QUEUE.
  destruct (Z.eqb_spec (Z.of_nat (length l)) 64); symmetry;
    [apply bool_decide_eq_true|apply bool_decide_eq_false]; lia.
Qed.

Lemma spsc_rep_push q l x :
  spsc_rep q l -> length l < 64 -> spsc_rep (ioxd__spsc_push q x) (l ++ [x]).
Proof.
  intros [Hi Hh Ht Hl Hs] Hlt. split; cbn [items head tail ioxd__spsc_push].
  - by rewrite length_insert.
  - done.
  - rewrite Ht, length_app. unfold wrap32. rewrite Zplus_mod_idemp_l. f_equal. simpl. lia.
  - list_lia.
  - intros i y Hy. rewrite Ht, slot_of_wrap.
    destruct (decide (i < length l)) as [Hil|].
    + rewrite lookup_app_l in Hy by done.
      rewrite list_lookup_insert_ne; [by apply Hs|].
      intros He. symmetry in He. revert He. apply slot_of_ne; lia.
    + rewrite lookup_app_r in Hy by lia. apply list_lookup_singleton_Some in Hy as [Hy ->].
      replace i with (length l) by lia. apply list_lookup_insert_eq. rewrite Hi. apply slot_of_lt.
Qed.

Lemma spsc_rep_pop q x l :
  spsc_rep q (x :: l) -> ioxd__spsc_pop q = (x, snd (ioxd__spsc_pop q)) /\ spsc_rep (snd (ioxd__spsc_pop q)) l.
Proof.
  intros [Hi Hh Ht Hl Hs]. pose proof (Hs 0 x eq_refl) as H0.
  rewrite Z.add_0_r in H0. split; [unfold ioxd__spsc_pop; by rewrite H0|].
  split; cbn [items head tail ioxd__spsc_pop snd]; [done| | | |].
  - unfold wrap32. apply Z.mod_pos_bound. lia.
  - rewrite Ht. unfold wrap32. rewrite Zplus_mod_idemp_l. f_equal. simpl. lia.
  - simpl in Hl. lia.
  - intros i y Hy. rewrite <- (Hs (S i) y Hy). f_equal.
    rewrite <- (slot_of_wrap (wrap32 (head q + 1) + _)). rewrite <- (slot_of_wrap (head q + _)).
    f_equal. unfold wrap32. rewrite Zplus_mod_idemp_l. f_equal. lia.
Qed.

(** *** The queue against a list, over any history *)

Inductive qop := QPush (x : rx_item) | QPop | QReset.

(** One operation as the callers make it - a push only when not full, a pop only when not empty -
    and what it lets the caller see. *)
Definition spsc_do (q : spsc) (o : qop) : spsc * option rx_item * bool :=
  match o with
  | QPush x => if ioxd__spsc_full q then (q, None, false) else (ioxd__spsc_push q x, None, true)
  | QPop => if ioxd__spsc_empty q then (q, None, false)
            else let '(x, q') := ioxd__spsc_pop q in (q', Some x, true)
  | QReset => (ioxd__spsc_reset q, None, true)
  end.

Definition list_do (l : list rx_item) (o : qop) : list rx_item * option rx_item * bool :=
  match o with
  | QPush x => if bool_decide (length l = 64) then (l, None, false) else (l ++ [x], None, true)
  | QPop => match l with [] => (l, None, false) | x :: l' => (l', Some x, true) end
  | QReset => ([], None, true)
  end.

Fixpoint run_ops {S} (step : S -> qop -> S * option rx_item * bool) (s : S) (ops : list qop)
  : S * list (option rx_item * bool) :=
  match ops with
  | [] => (s, [])
  | o :: ops' =>
      let '(s', x, ok) := step s o in
      let '(s'', obs) := run_ops step s' ops' in (s'', (x, ok) :: obs)
  end.

Lemma spsc_do_sim q l o :
  spsc_rep q l ->
  let '(q', x, ok) := spsc_do q o in
  let '(l', x', ok') := list_do l o in
  spsc_rep q' l' /\ x = x' /\ ok = ok'.
Proof.
  intros Hr. destruct o as [x| |]; cbn [spsc_do list_do].
  - rewrite (spsc_rep_full _ _ Hr). case_bool_decide; [done|]. split; [|done].
    apply spsc_rep_push; [done|]. destruct Hr. lia.
  - rewrite (spsc_rep_empty _ _ Hr). case_bool_decide as He; [by subst l|].
    destruct l as [|x l]; [done|]. destruct (spsc_rep_pop _ _ _ Hr) as [-> Hp]. done.
  - split; [|done]. destruct Hr as [Hi _ _ _ _].
    by split; cbn; [done|lia|vm_compute|lia|].
Qed.

(** ** bufring.c *)

(** One descriptor of the kernel-shared ring. *)
Record io_uring_buf := { addr : Z; blen : Z; bid : Z }.

(** [slots] are the descriptors of the ring, [ring_tail] the 16-bit tail the kernel reads. *)
Record bufring := {
  slots : list io_uring_buf;
  ring_tail : Z;
  slab : Z;
  count : Z; size : Z; mask : Z;
  btail : Z;
  dirty : bool;
  returned : Z
}.

Definition no_desc : io_uring_buf := {| addr := 0; blen := 0; bid := 0 |}.

(** A buffer's bytes; [None] is the abort of [ioxd__bufring_bad_id]. *)
Definition ioxd__bufring_at (b : bufring) (id : Z) : option Z :=
  if (count b <=? id)%Z then None else Some (slab b + id * size b)%Z.

(** The loop that fills every slot at init: slot [i] offers buffer [i]. *)
Definition init_slot (slab_ size_ : Z) (i : nat) : io_uring_buf :=
  {| addr := slab_ + Z.of_nat i * size_; blen := size_; bid := Z.of_nat i mod 2 ^ 16 |}.

(** The state after the mappings and the registration, which are the kernel's. *)
Definition ioxd__bufring_init (slab_ count_ size_ : Z) : bufring :=
  {| slots := map (init_slot slab_ size_) (seq 0 (Z.to_nat count_));
     ring_tail := count_ mod 2 ^ 16; slab := slab_; count := count_; size := size_;
     mask := count_ - 1; btail := count_; dirty := false; returned := 0 |}.

(** Stage a return; [None] is the abort on a bad id. *)
Definition ioxd__bufring_return (b : bufring) (id : Z) : option bufring :=
  a ← ioxd__bufring_at b id;
  Some {| slots := <[Z.to_nat (Z.land (btail b) (mask b)) := {| addr := a; blen := size b; bid := id |}]> (slots b);
          ring_tail := ring_tail b; slab := slab b; count := count b; size := size b; mask := mask b;
          btail := wrap32 (btail b + 1); dirty := true; returned := wrap32 (returned b + 1) |}.

Definition ioxd__bufring_publish (b : bufring) : bufring :=
  if dirty b then
    {| slots := slots b; ring_tail := btail b mod 2 ^ 16; slab := slab b; count := count b;
       size := size b; mask := mask b; btail := btail b; dirty := false; returned := returned b |}
  else b.

(** *** The life of the buffers

    The worker and the kernel together. [khead] is the kernel's consumer index (it never wraps
    here; the kernel compares its low 16 bits with the published tail), [held] the ids the
    kernel delivered and the worker has not returned. *)
Record world := { b : bufring; khead : Z; held : list Z }.

(** The kernel takes the descriptor at its head when the published tail is past it. *)
Definition kernel_slot (w : world) : io_uring_buf :=
  default no_desc (slots (b w) !! Z.to_nat (Z.land (khead w) (mask (b w)))).

Inductive step : world -> world -> Prop :=
| step_deliver w :
    (khead w mod 2 ^ 16 <> ring_tail (b w))%Z ->
    step w {| b := b w; khead := khead w + 1; held := bid (kernel_slot w) :: held w |}
| step_return w id l1 l2 b' :
    held w = l1 ++ id :: l2 -> ioxd__bufring_return (b w) id = Some b' ->
    step w {| b := b'; khead := khead w; held := l1 ++ l2 |}
| step_publish w :
    step w {| b := ioxd__bufring_publish (b w); khead := khead w; held := held w |}.

Inductive reachable (w0 : world) : world -> Prop :=
| reach_init : reachable w0 w0
| reach_step w w' : reachable w0 w -> step w w' -> reachable w0 w'.

(** The ids in the ring, from the kernel's head to the worker's tail, published or not. *)
Definition offered (w : world) : list Z :=
  map (fun i => bid (default no_desc (slots (b w) !! Z.to_nat (Z.land (khead w + Z.of_nat i) (mask (b w))))))
      (seq 0 (Z.to_nat (wrap32 (btail (b w) - khead w)))).

Definition good_desc (bf : bufring) (id : Z) : io_uring_buf :=
  {| addr := slab bf + id * size bf; blen := size bf; bid := id |}.

(** [W] is what the ring offers, [p] of it published. *)
Record ring_inv (k : nat) (w : world) (W : list Z) (p : nat) : Prop := {
  inv_k     : k <= 15;
  inv_count : count (b w) = (2 ^ Z.of_nat k)%Z;
  inv_mask  : mask (b w) = (2 ^ Z.of_nat k - 1)%Z;
  inv_slots : length (slots (b w)) = 2 ^ k;
  inv_head  : (0 <= khead w)%Z;
  inv_tail  : btail (b w) = wrap32 (khead w + Z.of_nat (length W));
  inv_pub   : ring_tail (b w) = ((khead w + Z.of_nat p) mod 2 ^ 16)%Z;
  inv_p     : p <= length W;
  inv_dirty : dirty (b w) = false -> p = length W;
  inv_desc  : forall i id, W !! i = Some id ->
              slots (b w) !! Z.to_nat ((khead w + Z.of_nat i) mod 2 ^ Z.of_nat k) = Some (good_desc (b w) id);
  inv_perm  : W ++ held w ≡ₚ seqZ 0 (2 ^ Z.of_nat k)
}.

Section Inv.
Context {k : nat} {w : world} {W : list Z} {p : nat}.
Hypothesis I : ring_inv k w W p.

Lemma pow_k : (1 <= 2 ^ Z.of_nat k <= 32768)%Z.
Proof.
  destruct I as [Hk _ _ _ _ _ _ _ _ _ _]. split.
  - change 1%Z with (2 ^ 0)%Z at 1. apply Z.pow_le_mono_r; lia.
  - change 32768%Z with (2 ^ 15)%Z. apply Z.pow_le_mono_r; lia.
Qed.

Lemma ring_slot c : (0 <= c)%Z -> Z.land c (mask (b w)) = (c mod 2 ^ Z.of_nat k)%Z.
Proof.
  intros Hc. rewrite (inv_mask _ _ _ _ I). rewrite <- Z.land_ones by lia.
  by rewrite Z.ones_equiv, Z.sub_1_r.
Qed.

Lemma ring_sizes : length W + length (held w) = Z.to_nat (2 ^ Z.of_nat k).
Proof.
  rewrite <- length_app, (inv_perm _ _ _ _ I), length_seqZ. done.
Qed.

Lemma ring_window : Z.to_nat (wrap32 (btail (b w) - khead w)) = length W.
Proof.
  pose proof ring_sizes. pose proof pow_k. rewrite (inv_tail _ _ _ _ I). unfold wrap32.
  rewrite Zminus_mod_idemp_l. replace (khead w + _ - khead w)%Z with (Z.of_nat (length W)) by lia.
  rewrite Z.mod_small; lia.
Qed.

Lemma ring_tail_slot :
  Z.to_nat (Z.land (btail (b w)) (mask (b w))) =
  Z.to_nat ((khead w + Z.of_nat (length W)) mod 2 ^ Z.of_nat k).
Proof.
  pose proof (inv_head _ _ _ _ I). pose proof (inv_k _ _ _ _ I).
  rewrite ring_slot by (rewrite (inv_tail _ _ _ _ I); unfold wrap32; apply Z.mod_pos_bound; lia).
  rewrite (inv_tail _ _ _ _ I). unfold wrap32. f_equal. apply Z.mod_mod_divide.
  exists (2 ^ (32 - Z.of_nat k))%Z. rewrite <- Z.pow_add_r by lia. f_equal. lia.
Qed.

Lemma ring_offered : offered w = W.
Proof.
  unfold offered. rewrite ring_window. apply list_eq. intros i. rewrite list_lookup_fmap.
  destruct (decide (i < length W)) as [Hi|Hi].
  - rewrite lookup_seq_lt by done. cbn [fmap option_fmap option_map Nat.add].
    destruct (lookup_lt_is_Some_2 W i Hi) as [id Hid]. pose proof (inv_head _ _ _ _ I).
    rewrite ring_slot, (inv_desc _ _ _ _ I i id Hid) by lia. done.
  - rewrite lookup_seq_ge, lookup_ge_None_2 by lia. done.
Qed.

Lemma held_range id : id ∈ held w -> (0 <= id < 2 ^ Z.of_nat k)%Z.
Proof.
  intros Hid. assert (id ∈ seqZ 0 (2 ^ Z.of_nat k)) as Hs%elem_of_seqZ; [|lia].
  rewrite <- (inv_perm _ _ _ _ I). set_solver.
Qed.

End Inv.

Lemma mod_ne c i j n :
  (0 <= i < j)%Z -> (j - i < n)%Z -> ((c + i) mod n <> (c + j) mod n)%Z.
Proof.
  intros Hij Hlt H. assert (n <> 0)%Z as Hn by lia.
  pose proof (Z.div_mod (c + i) n Hn). pose proof (Z.div_mod (c + j) n Hn).
  assert (n * ((c + j) / n - (c + i) / n) = j - i)%Z by lia.
  destruct (Z_le_gt_dec ((c + j) / n - (c + i) / n) 0); nia.
Qed.

Lemma ring_inv_deliver k w W p :
  ring_inv k w W p -> (khead w mod 2 ^ 16 <> ring_tail (b w))%Z ->
  exists id W', W = id :: W' /\ bid (kernel_slot w) = id /\
    ring_inv k {| b := b w; khead := khead w + 1; held := id :: held w |} W' (p - 1).
Proof.
  intros I Hne. pose proof (pow_k I). pose proof (ring_sizes I).
  assert (Hp : p <> 0).
  { intros ->. apply Hne. rewrite (inv_pub _ _ _ _ I). f_equal. lia. }
  pose proof (inv_p _ _ _ _ I). destruct W as [|id W']; [simpl in *; lia|].
  exists id, W'. pose proof (inv_head _ _ _ _ I) as Hh.
  assert (Hk : bid (kernel_slot w) = id).
  { unfold kernel_slot. rewrite (ring_slot I) by done.
    pose proof (inv_desc _ _ _ _ I 0 id eq_refl) as Hd. rewrite Z.add_0_r in Hd. by rewrite Hd. }
  split; [done|]. split; [done|].
  destruct I as [I1 I2 I3 I4 I5 I6 I7 I8 I9 I10 I11].
  split; cbn [b khead held]; try done.
  - lia.
  - rewrite I6. f_equal. simpl. lia.
  - rewrite I7. f_equal. lia.
  - simpl in *. lia.
  - intros Hd. specialize (I9 Hd). simpl in *. lia.
  - intros i x Hx. replace (khead w + 1 + Z.of_nat i)%Z with (khead w + Z.of_nat (S i))%Z by lia.
    by apply I10.
  - rewrite <- I11. simpl. by rewrite <- Permutation_middle.
Qed.

Lemma ring_inv_return k w W p id l1 l2 b' :
  ring_inv k w W p -> held w = l1 ++ id :: l2 -> ioxd__bufring_return (b w) id = Some b' ->
  ring_inv k {| b := b'; khead := khead w; held := l1 ++ l2 |} (W ++ [id]) p.
Proof.
  intros I Hheld Hb'. pose proof (pow_k I) as H2. pose proof (ring_sizes I) as Hsz.
  pose proof (held_range I id ltac:(rewrite Hheld; set_solver)) as Hid.
  pose proof (ring_tail_slot I) as Hts. pose proof (inv_head _ _ _ _ I) as Hh.
  assert (Hlt : length W < Z.to_nat (2 ^ Z.of_nat k)).
  { rewrite Hheld, length_app in Hsz. simpl in Hsz. lia. }
  unfold ioxd__bufring_return, ioxd__bufring_at in Hb'.
  destruct I as [I1 I2 I3 I4 I5 I6 I7 I8 I9 I10 I11].
  destruct (Z.leb_spec (count (b w)) id); [lia|]. injection Hb' as <-.
  split; cbn; try done.
  - by rewrite length_insert.
  - rewrite I6, length_app. unfold wrap32. rewrite Zplus_mod_idemp_l. f_equal. simpl. lia.
  - list_lia.
  - intros i x Hx. rewrite Hts. destruct (decide (i < length W)) as [Hi|Hi].
    + rewrite lookup_app_l in Hx by done. rewrite list_lookup_insert_ne; [by apply I10|].
      intros He. apply (mod_ne (khead w) (Z.of_nat i) (Z.of_nat (length W)) (2 ^ Z.of_nat k)); [lia|lia|].
      pose proof (Z.mod_pos_bound (khead w + Z.of_nat i) (2 ^ Z.of_nat k) ltac:(lia)).
      pose proof (Z.mod_pos_bound (khead w + Z.of_nat (length W)) (2 ^ Z.of_nat k) ltac:(lia)). lia.
    + rewrite lookup_app_r in Hx by lia. apply list_lookup_singleton_Some in Hx as [Hx ->].
      replace i with (length W) by lia. rewrite list_lookup_insert_eq; [done|].
      rewrite I4. pose proof (Z.mod_pos_bound (khead w + Z.of_nat (length W)) (2 ^ Z.of_nat k) ltac:(lia)).
      apply Nat2Z.inj_lt. rewrite Z2Nat.id by lia. rewrite Nat2Z.inj_pow. simpl. lia.
  - rewrite <- I11, Hheld. rewrite <- app_assoc. apply Permutation_app_head. simpl.
    by rewrite Permutation_middle.
Qed.

Lemma ring_inv_publish k w W p :
  ring_inv k w W p -> exists p',
  ring_inv k {| b := ioxd__bufring_publish (b w); khead := khead w; held := held w |} W p'.
Proof.
  intros I. pose proof (pow_k I). pose proof (ring_sizes I).
  unfold ioxd__bufring_publish. destruct I as [I1 I2 I3 I4 I5 I6 I7 I8 I9 I10 I11].
  destruct (dirty (b w)) eqn:Ed.
  - exists (length W). split; cbn; try done.
    rewrite I6. unfold wrap32. apply Z.mod_mod_divide. by exists (2 ^ 16)%Z.
  - exists p. split; cbn; try done. by rewrite Ed.
Qed.

Lemma ring_inv_init k slab_ size_ :
  k <= 15 ->
  ring_inv k {| b := ioxd__bufring_init slab_ (2 ^ Z.of_nat k) size_; khead := 0; held := [] |}
    (seqZ 0 (2 ^ Z.of_nat k)) (Z.to_nat (2 ^ Z.of_nat k)).
Proof.
  intros Hk. assert (1 <= 2 ^ Z.of_nat k <= 32768)%Z as H2.
  { split; [change 1%Z with (2 ^ 0)%Z at 1|change 32768%Z with (2 ^ 15)%Z]; apply Z.pow_le_mono_r; lia. }
  assert (Hn : Z.to_nat (2 ^ Z.of_nat k) = 2 ^ k).
  { apply Nat2Z.inj. rewrite Z2Nat.id, Nat2Z.inj_pow by lia. done. }
  split; cbn -[Z.pow Nat.pow]; try done.
  - rewrite length_map, length_seq. done.
  - rewrite length_seqZ. unfold wrap32. rewrite Z2Nat.id by lia. symmetry. apply Z.mod_small. lia.
  - rewrite Z2Nat.id by lia. done.
  - rewrite length_seqZ. lia.
  - by rewrite length_seqZ.
  - intros i id Hi%lookup_seqZ. destruct Hi as [-> Hi].
    rewrite Z.add_0_l, Z.mod_small, Nat2Z.id by lia. rewrite list_lookup_fmap, lookup_seq_lt by lia.
    cbn. unfold good_desc, init_slot. cbn. rewrite Z.mod_small by lia. done.
  - by rewrite app_nil_r.
Qed.

Lemma ring_inv_step k w W p w' :
  ring_inv k w W p -> step w w' -> exists W' p', ring_inv k w' W' p'.
Proof.
  intros I Hs. destruct Hs as [w Hne|w id l1 l2 b' Hh Hb|w].
  - destruct (ring_inv_deliver _ _ _ _ I Hne) as (id & W' & _ & -> & I'). eauto.
  - eexists _, _. by eapply ring_inv_return.
  - destruct (ring_inv_publish _ _ _ _ I) as [p' I']. eauto.
Qed.

Lemma ring_inv_reachable k slab_ size_ w :
  k <= 15 ->
  reachable {| b := ioxd__bufring_init slab_ (2 ^ Z.of_nat k) size_; khead := 0; held := [] |} w ->
  exists W p, ring_inv k w W p.
Proof.
  intros Hk Hr. induction Hr as [|w w' Hr (W & p & I) Hs].
  - eexists _, _. by apply ring_inv_init.
  - by eapply ring_inv_step.
Qed.

(** ** Properties *)

(** The connection's receive queue is a first-in first-out list of at most 64 items: for every
    sequence of pushes, pops and resets, of any length - past the point where the 32-bit head and
    tail wrap - it answers exactly as the list does: the same items in the same order, full and
    empty at the same moments. *)
Theorem spsc_refines_fifo (ops : list qop) (q : spsc) (l : list rx_item) (Hr : spsc_rep q l) :
  snd (run_ops spsc_do q ops) = snd (run_ops list_do l ops).
Proof.
  revert q l Hr. induction ops as [|o ops IH]; intros q l Hr; [done|]. cbn [run_ops].
  pose proof (spsc_do_sim q l o Hr) as Hs.
  destruct (spsc_do q o) as [[q' x] ok], (list_do l o) as [[l' x'] ok'].
  destruct Hs as (Hr' & -> & ->). specialize (IH q' l' Hr').
  destruct (run_ops spsc_do q' ops), (run_ops list_do l' ops). cbn [snd] in *. by rewrite IH.
Qed.

Lemma spsc_refines_fifo_witness :
  let near_wrap := {| items := replicate 64 rx_none; head := 2 ^ 32 - 1; tail := 2 ^ 32 - 1 |} in
  let a := {| ptr := 0; len := 5; buf_id := 0 |} in
  let c := {| ptr := 64; len := 7; buf_id := 1 |} in
  spsc_rep near_wrap [] /\
  snd (run_ops spsc_do near_wrap [QPush a; QPush c; QPop; QPop; QPop]) =
    [(None, true); (None, true); (Some a, true); (Some c, true); (None, false)].
Proof.
  intros near_wrap a c. assert (Hr : spsc_rep near_wrap []).
  { split; [reflexivity|split; vm_compute; [discriminate|reflexivity]|reflexivity|simpl; lia|
            intros i x Hx; discriminate]. }
  split; [exact Hr|]. rewrite (spsc_refines_fifo _ near_wrap [] Hr). reflexivity.
Defined.

(** No receive buffer is ever lost, duplicated or overwritten: whatever the kernel delivers and
    the worker returns and publishes, in any order and for any number of steps - the 32-bit tail
    and the 16-bit published tail wrapping on the way - each of the buffers is at all times either
    offered in the ring, once, or held by the worker, once; and a held buffer's return never
    aborts. *)
Theorem bufring_conserves (k : nat) (slab_ size_ : Z) (w : world) (Hk : k <= 15)
    (Hr : reachable {| b := ioxd__bufring_init slab_ (2 ^ Z.of_nat k) size_; khead := 0; held := [] |} w) :
  offered w ++ held w ≡ₚ seqZ 0 (2 ^ Z.of_nat k) /\
  (forall id, id ∈ held w -> is_Some (ioxd__bufring_return (b w) id)).
Proof.
  destruct (ring_inv_reachable k slab_ size_ w Hk Hr) as (W & p & I). split.
  - rewrite (ring_offered I). apply I.
  - intros id Hid. pose proof (held_range I id Hid) as Hb. unfold ioxd__bufring_return, ioxd__bufring_at.
    rewrite (inv_count _ _ _ _ I). destruct (Z.leb_spec (2 ^ Z.of_nat k) id); [lia|]. by eexists.
Qed.

Lemma bufring_conserves_witness :
  let w0 := {| b := ioxd__bufring_init 4096 (2 ^ Z.of_nat 1) 64; khead := 0; held := [] |} in
  let w1 := {| b := b w0; khead := 1; held := [0%Z] |} in
  1 <= 15 /\ reachable w0 w1 /\ offered w1 ++ held w1 ≡ₚ seqZ 0 2.
Proof.
  intros w0 w1. assert (Hk : 1 <= 15) by lia.
  assert (Hr : reachable w0 w1).
  { eapply reach_step; [apply reach_init|]. apply (step_deliver w0). vm_compute. discriminate. }
  split; [exact Hk|]. split; [exact Hr|]. exact (proj1 (bufring_conserves 1 4096 64 w1 Hk Hr)).
Defined.
