(* ===== verification/Writer.v ===== *)
(** The sending side: the awaits [ioxd__conn_send] and [ioxd__conn_sendv] of lib/io/conn.c, which
    finish short sends, and the writer of lib/io/pipe.c on top of them - a slab with a lead and a
    slack around it. The writer is written against the [Sender] class; the two awaits are its
    instance. *)
From S2P Require Import Prelude.

(** ** What the writer needs of a connection *)

Class Sender (W : Type) := {
  conn_send  : bytes -> W -> Z * W;
  conn_sendv : list bytes -> W -> Z * W;
  wire       : W -> bytes          (* everything the peer was sent, in order *)
}.

(** A send that does not fail puts all its bytes on the wire; one that fails, a prefix of them. *)
Class SenderLaws (W : Type) `{Sender W} := {
  send_law : forall d w rc w', conn_send d w = (rc, w') ->
    exists k, wire w' = wire w ++ take k d /\ ((0 <= rc)%Z -> take k d = d);
  sendv_law : forall ds w rc w', conn_sendv ds w = (rc, w') ->
    exists k, wire w' = wire w ++ take k (concat ds) /\ ((0 <= rc)%Z -> take k (concat ds) = concat ds)
}.

(** ** The awaits of conn.c *)

Definition EPIPE : Z := 32.

(** [(int)z]. *)
Definition to_int (z : Z) : Z := let m := wrap32 z in if (m <? 2 ^ 31)%Z then m else (m - 2 ^ 32)%Z.

(** The socket: what went out, and how many operations were awaited so far. *)
Record socket := { sent : bytes; awaits : nat }.

Section Awaits.
(** The completion results, one an await. *)
Context (result : nat -> Z).

(** An awaited SEND or SENDMSG of [d]: the kernel answers an error or zero, or takes that many
bytes from the front - never more than it was given. *)
Definition io_send (d : bytes) (s : socket) : Z * socket :=
  let r := Z.min (result (awaits s)) (Z.of_nat (length d)) in
  (r, {| sent := sent s ++ take (Z.to_nat r) d; awaits := S (awaits s) |}).

(** [sqe->len]: a single send asks for at most UINT32_MAX bytes. *)
Definition send_ask (src : bytes) : bytes :=
  if (UINT32_MAX <? Z.of_nat (length src))%Z then take (Z.to_nat UINT32_MAX) src else src.

(** [while (left > 0)]; [total] is len. *)
Fixpoint send_loop (fuel : nat) (total : Z) (src : bytes) (s : socket) : Z * socket :=
  match src with
  | [] => (to_int total, s)
  | _ :: _ =>
    match fuel with
    | 0 => (to_int total, s)
    | S fuel' =>
        let '(n, s') := io_send (send_ask src) s in
        if (n <? 0)%Z then (n, s')
        else if (n =? 0)%Z then ((- EPIPE)%Z, s')
        else send_loop fuel' total (drop (Z.to_nat n) src) s'
    end
  end.

Definition ioxd__conn_send (buf : bytes) (s : socket) : Z * socket :=
  send_loop (length buf) (Z.of_nat (length buf)) buf s.

(** The vector moved past the [left] bytes that went: whole pieces, then part of one. *)
Fixpoint iov_advance (iov : list bytes) (left : nat) : list bytes :=
  match iov with
  | [] => []
  | v :: iov' =>
    if (length v <=? left)%nat then iov_advance iov' (left - length v)
    else drop left v :: iov'
  end.

Fixpoint sendv_loop (fuel : nat) (iov : list bytes) (s : socket) : Z * socket :=
  match iov with
  | [] => (0%Z, s)
  | _ :: _ =>
    match fuel with
    | 0 => (0%Z, s)
    | S fuel' =>
        let '(n, s') := io_send (concat iov) s in
        if (n <? 0)%Z then (n, s')
        else if (n =? 0)%Z then ((- EPIPE)%Z, s')
        else sendv_loop fuel' (iov_advance iov (Z.to_nat n)) s'
    end
  end.

Definition ioxd__conn_sendv (iov : list bytes) (s : socket) : Z * socket :=
  sendv_loop (S (length (concat iov))) iov s.

Definition ioxd__conn_sendmsg (msg : bytes) (s : socket) : Z * socket := io_send msg s.

#[export] Instance socket_sender : Sender socket :=
  {| conn_send := ioxd__conn_send; conn_sendv := ioxd__conn_sendv; wire := sent |}.

(** *** The loops put every byte on the wire, once and in order, or fail *)

Lemma send_ask_take src : exists k, send_ask src = take k src /\ (src <> [] -> 0 < k) /\
  length (send_ask src) <= length src.
Proof.
  unfold send_ask. case_test.
  - exists (Z.to_nat UINT32_MAX). split; [done|]. split; [unfold UINT32_MAX; lia|list_lia].
  - exists (length src). split; [by rewrite firstn_all|]. split; [|lia].
  destruct src; [done|simpl; lia].
Qed.

Lemma io_send_spec d s n s' :
  io_send d s = (n, s') ->
  sent s' = sent s ++ take (Z.to_nat n) d /\ (n <= Z.of_nat (length d))%Z /\ awaits s' = S (awaits s).
Proof. unfold io_send. intros [= <- <-]. cbn [sent awaits]. split; [done|]. split; [lia|done]. Qed.

Lemma take_join (l : bytes) k1 k2 : k1 <= length l -> take k1 l ++ take k2 (drop k1 l) = take (k1 + k2) l.
Proof.
  intros H. rewrite <- (take_drop k1 l) at 3. rewrite take_app_ge by list_lia.
  f_equal. f_equal. list_lia.
Qed.

Lemma send_loop_spec fuel total src s rc s' :
  length src <= fuel -> send_loop fuel total src s = (rc, s') ->
  exists k, sent s' = sent s ++ take k src /\ (rc = to_int total /\ take k src = src \/ (rc < 0)%Z) /\
          awaits s' <= awaits s + length src.
Proof.
  revert src s. induction fuel as [|fuel IH]; intros src s Hf Hrun.
  { destruct src; [|simpl in Hf; lia]. injection Hrun as <- <-. exists 0. rewrite app_nil_r. auto with lia. }
  destruct src as [|x src']; [injection Hrun as <- <-; exists 0; rewrite app_nil_r; auto with lia|].
  cbn [send_loop] in Hrun. set (src := x :: src') in *.
  destruct (send_ask_take src) as (ka & Hask & _ & Hal).
  destruct (io_send (send_ask src) s) as [n s1] eqn:Es.
  apply io_send_spec in Es as (Hw & Hn & Ha).
  assert (Htake : take (Z.to_nat n) (send_ask src) = take (Z.to_nat n) src).
  { rewrite Hask, take_take. destruct (decide (Z.to_nat n <= ka)); [f_equal; lia|].
  rewrite Hask in Hn. rewrite length_take in Hn. rewrite !take_ge by lia. done. }
  rewrite Htake in Hw.
  assert (1 <= length src) by (simpl; lia).
  case_test. { injection Hrun as <- <-. exists (Z.to_nat n). split; [done|]. split; [by right|lia]. }
  case_test. { injection Hrun as <- <-. exists (Z.to_nat n). split; [done|]. split; [right; done|lia]. }
  assert (Hle : Z.to_nat n <= length src) by lia.
  destruct (IH (drop (Z.to_nat n) src) s1) as (k & Hk & Hd & Haw); [list_lia|done|].
  exists (Z.to_nat n + k). rewrite Hk, Hw, <- app_assoc, take_join by done. split; [done|]. split; [|list_lia].
  destruct Hd as [[-> Hd]|]; [left|by right]. split; [done|].
  rewrite <- take_join, Hd by done. apply take_drop.
Qed.

Lemma concat_iov_advance iov left :
  left <= length (concat iov) -> concat (iov_advance iov left) = drop left (concat iov).
Proof.
  revert left. induction iov as [|v iov IH]; intros left Hl; simpl; [by rewrite drop_nil|].
  simpl in Hl. rewrite length_app in Hl. case_test.
  - rewrite IH by lia. rewrite drop_app_ge by lia. done.
  - simpl. rewrite drop_app_le by lia. done.
Qed.

Lemma iov_advance_nil iov : iov_advance iov (length (concat iov)) = [].
Proof.
  induction iov as [|v iov IH]; simpl; [done|]. rewrite length_app.
  destruct (Nat.leb_spec (length v) (length v + length (concat iov))); [|lia].
  by replace (length v + length (concat iov) - length v) with (length (concat iov)) by lia.
Qed.

Lemma sendv_loop_spec fuel iov s rc s' :
  length (concat iov) < fuel -> sendv_loop fuel iov s = (rc, s') ->
  exists k, sent s' = sent s ++ take k (concat iov) /\
          (rc = 0%Z /\ take k (concat iov) = concat iov \/ (rc < 0)%Z).
Proof.
  revert iov s. induction fuel as [|fuel IH]; [lia|]. intros iov s Hf Hrun.
  destruct iov as [|v iov']; [injection Hrun as <- <-; exists 0; rewrite app_nil_r; auto|].
  cbn [sendv_loop] in Hrun. set (iov := v :: iov') in *.
  destruct (io_send (concat iov) s) as [n s1] eqn:Es. apply io_send_spec in Es as (Hw & Hn & _).
  case_test. { injection Hrun as <- <-. exists (Z.to_nat n). split; [done|]. by right. }
  case_test. { injection Hrun as <- <-. exists (Z.to_nat n). split; [done|]. by right. }
  assert (Hle : Z.to_nat n <= length (concat iov)) by lia.
  pose proof (concat_iov_advance iov (Z.to_nat n) Hle) as Hadv.
  destruct (IH (iov_advance iov (Z.to_nat n)) s1) as (k & Hk & Hd); [rewrite Hadv; list_lia|done|].
  rewrite Hadv in *. exists (Z.to_nat n + k). rewrite Hk, Hw, <- app_assoc, take_join by done.
  split; [done|]. destruct Hd as [[-> Hd]|]; [left|by right]. split; [done|].
  rewrite <- take_join, Hd by done. apply take_drop.
Qed.

(** *** With a kernel that always takes something, everything goes *)

Lemma send_loop_all fuel total src s :
  (forall n, (0 < result n)%Z) -> length src <= fuel ->
  exists a, send_loop fuel total src s = (to_int total, {| sent := sent s ++ src; awaits := a |}).
Proof.
  intros Hpos. revert src s. induction fuel as [|fuel IH]; intros src s Hf.
  { destruct src; [|simpl in Hf; lia]. exists (awaits s). destruct s. simpl. by rewrite app_nil_r. }
  destruct src as [|x src']; [exists (awaits s); destruct s; simpl; by rewrite app_nil_r|].
  cbn [send_loop]. set (src := x :: src') in *. assert (1 <= length src) by (simpl; lia).
  destruct (send_ask_take src) as (ka & Hask & Hka & Hal). specialize (Hka ltac:(done)).
  destruct (io_send (send_ask src) s) as [n s1] eqn:Es.
  assert (Hn : (n = result (awaits s) `min` Z.of_nat (length (send_ask src)))%Z) by (unfold io_send in Es; congruence).
  specialize (Hpos (awaits s)). assert (0 < length (send_ask src)) by (rewrite Hask; list_lia).
  apply io_send_spec in Es as (Hw & Hle & _). case_test; [lia|]. case_test; [lia|]. rewrite Hask in Hw, Hle.
  destruct (IH (drop (Z.to_nat n) src) s1) as (a & ->); [list_lia|]. exists a. do 2 f_equal.
  rewrite Hw, <- app_assoc, take_take. f_equal.
  rewrite length_take in Hle. rewrite Nat.min_l by lia. apply take_drop.
Qed.

Lemma iov_advance_filled iov left : iov_advance iov left = [] \/ concat (iov_advance iov left) <> [].
Proof.
  revert left. induction iov as [|v iov IH]; intros k; simpl; [by left|]. case_test; [apply IH|].
  right. simpl. intros H%(f_equal length). rewrite length_app, length_drop in H. simpl in H. lia.
Qed.

Lemma sendv_loop_all fuel iov s :
  (forall n, (0 < result n)%Z) -> length (concat iov) < fuel -> (iov = [] \/ concat iov <> []) ->
  exists a, sendv_loop fuel iov s = (0%Z, {| sent := sent s ++ concat iov; awaits := a |}).
Proof.
  intros Hpos. revert iov s. induction fuel as [|fuel IH]; [lia|]. intros iov s Hf Hne.
  destruct iov as [|v iov']; [exists (awaits s); destruct s; simpl; by rewrite app_nil_r|].
  cbn [sendv_loop]. set (iov := v :: iov') in *.
  assert (0 < length (concat iov)) by (destruct Hne as [|Hne]; [done|]; destruct (concat iov); [done|simpl; lia]).
  destruct (io_send (concat iov) s) as [n s1] eqn:Es.
  assert (Hn : (n = result (awaits s) `min` Z.of_nat (length (concat iov)))%Z) by (unfold io_send in Es; congruence).
  specialize (Hpos (awaits s)). apply io_send_spec in Es as (Hw & Hle & _).
  case_test; [lia|]. case_test; [lia|].
  pose proof (concat_iov_advance iov (Z.to_nat n) ltac:(lia)) as Hadv.
  destruct (IH (iov_advance iov (Z.to_nat n)) s1) as (a & ->); [rewrite Hadv; list_lia|apply iov_advance_filled|].
  exists a. do 2 f_equal. by rewrite Hw, Hadv, <- app_assoc, take_drop.
Qed.

#[export] Instance socket_sender_laws : SenderLaws socket.
Proof.
  split; cbn [conn_send conn_sendv wire socket_sender].
  - intros d w rc w' Hs. destruct (send_loop_spec _ _ _ _ _ _ (le_n _) Hs) as (k & Hk & Hd & _).
  exists k. split; [done|]. destruct Hd as [[-> Hd]|]; [done|lia].
  - intros ds w rc w' Hs. destruct (sendv_loop_spec _ _ _ _ _ (Nat.lt_succ_diag_r _) Hs) as (k & Hk & Hd).
  exists k. split; [done|]. destruct Hd as [[-> Hd]|]; [done|lia].
Qed.
End Awaits.

(** ** The writer of pipe.c

    The slab is [buf] = [lead][cap][slack]; a pointer into it is an offset. *)
Record pipewriter := {
  buf : bytes;
  lead : nat; cap : nat; slack : nat;
  head : nat;      (* bytes of the lead in use *)
  len : nat;       (* data bytes *)
  tail : nat;      (* bytes of the slack in use *)
  failed : bool
}.

Definition set_spans (pw : pipewriter) (h l t : nat) : pipewriter :=
  {| buf := buf pw; lead := lead pw; cap := cap pw; slack := slack pw;
     head := h; len := l; tail := t; failed := failed pw |}.
Definition set_failed (pw : pipewriter) : pipewriter :=
  {| buf := buf pw; lead := lead pw; cap := cap pw; slack := slack pw;
     head := head pw; len := len pw; tail := tail pw; failed := true |}.
Definition set_buf (pw : pipewriter) (b : bytes) : pipewriter :=
  {| buf := b; lead := lead pw; cap := cap pw; slack := slack pw;
     head := head pw; len := len pw; tail := tail pw; failed := failed pw |}.

Definition ioxd__pipewriter_init (buf : bytes) (lead cap slack : nat) : pipewriter :=
  {| buf := buf; lead := lead; cap := cap; slack := slack; head := 0; len := 0; tail := 0; failed := false |}.

Definition ioxd__pipewriter_reset (pw : pipewriter) : pipewriter := set_spans pw 0 0 0.

Definition ioxd__pipewriter_at (pw : pipewriter) : nat := lead pw + len pw.
Definition ioxd__pipewriter_room (pw : pipewriter) : nat := cap pw - len pw.

(** The span a flush sends: front, data and back. *)
Definition pending (pw : pipewriter) : bytes :=
  span (buf pw) (lead pw - head pw) (head pw + len pw + tail pw).

Section Writer.
Context {W : Type} `{Sender W}.
Implicit Types (pw : pipewriter) (w : W).

Definition ioxd__pipewriter_flush_with pw (data : bytes) w : bool * pipewriter * W :=
  if failed pw then (false, pw, w)
  else
    let total := head pw + len pw + tail pw in
    let n := length data in
    let '(rc, w') :=
      if (0 <? total) && (0 <? n) then conn_sendv [pending pw; data] w
      else if 0 <? total then conn_send (pending pw) w
      else if 0 <? n then conn_send data w
      else (0%Z, w) in
    let pw' := set_spans pw 0 0 0 in
    if (rc <? 0)%Z then (false, set_failed pw', w') else (true, pw', w').

Definition ioxd__pipewriter_flush pw w := ioxd__pipewriter_flush_with pw [] w.

(** The offset of [n] bytes at the tail, flushing first when they do not fit. *)
Definition ioxd__pipewriter_reserve pw (n : nat) w : option nat * pipewriter * W :=
  if failed pw || (cap pw <? n) then (None, pw, w)
  else if cap pw <? len pw + n then
    match ioxd__pipewriter_flush pw w with
    | (false, pw', w') => (None, pw', w')
    | (true, pw', w') => (Some (ioxd__pipewriter_at pw'), pw', w')
    end
  else (Some (ioxd__pipewriter_at pw), pw, w).

Definition ioxd__pipewriter_advance pw (n : nat) : pipewriter :=
  let room := ioxd__pipewriter_room pw in
  set_spans pw (head pw) (len pw + (if n <? room then n else room)) (tail pw).

Definition ioxd__pipewriter_front pw (n : nat) : option nat * pipewriter :=
  if lead pw - head pw <? n then (None, pw)
  else let pw' := set_spans pw (head pw + n) (len pw) (tail pw) in
       (Some (lead pw' - head pw'), pw').

Definition ioxd__pipewriter_back pw (n : nat) : option nat * pipewriter :=
  if slack pw - tail pw <? n then (None, pw)
  else (Some (lead pw + len pw + tail pw), set_spans pw (head pw) (len pw) (tail pw + n)).

Definition ioxd__pipewriter_through pw (data : bytes) w : bool * pipewriter * W :=
  if failed pw then (false, pw, w)
  else let '(rc, w') := conn_send data w in
       if (rc <? 0)%Z then (false, set_failed pw, w') else (true, pw, w').

Definition ioxd__pipewriter_write pw (data : bytes) w : bool * pipewriter * W :=
  let n := length data in
  if failed pw then (false, pw, w)
  else if cap pw <? n then
    match ioxd__pipewriter_flush pw w with
    | (false, pw', w') => (false, pw', w')
    | (true, pw', w') => ioxd__pipewriter_through pw' data w'
    end
  else
    match ioxd__pipewriter_reserve pw n w with
    | (None, pw', w') => (false, pw', w')
    | (Some at_, pw', w') =>
        (true, set_spans (set_buf pw' (blit (buf pw') at_ data)) (head pw') (len pw' + n) (tail pw'), w')
    end.

Definition ioxd__pipewriter_send pw (data : bytes) w : bool * pipewriter * W :=
  match ioxd__pipewriter_write pw data w with
  | (false, pw', w') => (false, pw', w')
  | (true, pw', w') => ioxd__pipewriter_flush pw' w'
  end.

(** ** The slab's invariant *)

Record writer_ok pw : Prop := {
  ok_buf : length (buf pw) = lead pw + cap pw + slack pw;
  ok_head : head pw <= lead pw;
  ok_len : len pw <= cap pw;
  ok_tail : tail pw <= slack pw
  }.

(** The layout never changes. *)
Definition same_slab pw pw' : Prop :=
  lead pw' = lead pw /\ cap pw' = cap pw /\ slack pw' = slack pw.

Lemma length_pending pw : writer_ok pw -> length (pending pw) = head pw + len pw + tail pw.
Proof. intros [? ? ? ?]. unfold pending. rewrite length_span; lia. Qed.

Lemma pending_empty pw : head pw + len pw + tail pw = 0 -> pending pw = [].
Proof. intros H0. unfold pending. by rewrite H0. Qed.

Lemma writer_ok_reset pw : writer_ok pw -> writer_ok (set_spans pw 0 0 0).
Proof. intros [? ? ? ?]. split; cbn; lia. Qed.

Lemma writer_ok_init b l c s :
  length b = l + c + s -> writer_ok (ioxd__pipewriter_init b l c s).
Proof. intros. split; cbn; lia. Qed.

Section Laws.
Context `{!SenderLaws W}.

(** What a send did to the wire: all of the bytes, or a prefix of them and a failure. *)
Definition sent_some (w w' : W) (d : bytes) (ok : bool) : Prop :=
  exists k, wire w' = wire w ++ take k d /\ (ok = true -> take k d = d).

Lemma sent_some_refl w : sent_some w w [] true.
Proof. exists 0. by rewrite take_nil, app_nil_r. Qed.

Lemma sent_some_true w w' d : sent_some w w' d true -> wire w' = wire w ++ d.
Proof. intros (k & -> & Hk). by rewrite Hk. Qed.

Lemma sent_some_app w1 w2 w3 d1 d2 ok :
  sent_some w1 w2 d1 true -> sent_some w2 w3 d2 ok -> sent_some w1 w3 (d1 ++ d2) ok.
Proof.
  intros H1%sent_some_true (k & Hw & Hk). exists (length d1 + k).
  rewrite Hw, H1, <- app_assoc, take_app_add. split; [done|]. intros Hok. by rewrite Hk.
Qed.

Lemma sent_some_more w w' d d' : sent_some w w' d false -> sent_some w w' (d ++ d') false.
Proof.
  intros (k & Hw & _). exists (k `min` length d). split; [|done]. rewrite Hw.
  rewrite take_app_le by lia. f_equal. destruct (decide (k <= length d)); [f_equal; lia|].
  rewrite !take_ge by lia. done.
Qed.

Lemma flush_with_spec pw data w ok pw' w' :
  writer_ok pw -> ioxd__pipewriter_flush_with pw data w = (ok, pw', w') ->
  writer_ok pw' /\ same_slab pw pw' /\
  (if failed pw then ok = false /\ pw' = pw /\ w' = w
   else failed pw' = negb ok /\ pending pw' = [] /\ len pw' = 0 /\ head pw' = 0 /\ tail pw' = 0 /\
        buf pw' = buf pw /\ sent_some w w' (pending pw ++ data) ok).
Proof.
  intros Hok Hf. unfold ioxd__pipewriter_flush_with in Hf.
  destruct (failed pw) eqn:Efail; [injection Hf as <- <- <-; by split_and!|].
  set (total := head pw + len pw + tail pw) in *.
  destruct (if (0 <? total) && (0 <? length data) then _ else _) as [rc w1] eqn:Es.
  assert (Hsent : sent_some w w1 (pending pw ++ data) (negb (rc <? 0)%Z)).
  { unfold sent_some. setoid_rewrite negb_true_iff. setoid_rewrite Z.ltb_ge.
    destruct (Nat.ltb_spec 0 total), (Nat.ltb_spec 0 (length data)); cbn [andb] in Es.
    - destruct (sendv_law _ _ _ _ Es) as (k & Hw & Hk). cbn [concat] in Hw, Hk.
      rewrite app_nil_r in Hw, Hk. eauto.
    - destruct data; [|simpl in *; lia]. rewrite app_nil_r. exact (send_law _ _ _ _ Es).
    - rewrite (pending_empty pw) by lia. exact (send_law _ _ _ _ Es).
    - injection Es as <- <-. destruct data; [|simpl in *; lia]. rewrite (pending_empty pw) by lia.
      exists 0. by rewrite app_nil_r. }
  destruct (rc <? 0)%Z; injection Hf as <- <- <-; cbn [negb] in Hsent.
  all: split; [by destruct Hok; split; cbn; lia|]; split; [done|].
  all: cbn [failed set_spans set_failed len head tail buf]; split_and!; try done; by apply pending_empty.
Qed.

Lemma through_spec pw data w ok pw' w' :
  writer_ok pw -> ioxd__pipewriter_through pw data w = (ok, pw', w') ->
  writer_ok pw' /\ same_slab pw pw' /\ pending pw' = pending pw /\ tail pw' = tail pw /\
  (if failed pw then ok = false /\ pw' = pw /\ w' = w
   else failed pw' = negb ok /\ sent_some w w' data ok).
Proof.
  intros Hok Hf. unfold ioxd__pipewriter_through in Hf.
  destruct (failed pw) eqn:Efail; [injection Hf as <- <- <-; by split_and!|].
  destruct (conn_send data w) as [rc w1] eqn:Es. pose proof (send_law _ _ _ _ Es) as (k & Hw & Hk).
  case_test; injection Hf as <- <- <-; cbn.
  - split; [by destruct Hok; split; cbn; lia|]. split_and!; try done. by exists k.
  - split_and!; try done. exists k. auto.
Qed.

(** Data put at the tail joins the pending bytes when nothing is behind them. *)
Lemma pending_append pw data :
  writer_ok pw -> len pw + length data <= cap pw -> tail pw = 0 ->
  pending (set_spans (set_buf pw (blit (buf pw) (ioxd__pipewriter_at pw) data))
             (head pw) (len pw + length data) (tail pw)) = pending pw ++ data.
Proof.
  intros [Hb Hh Hl Ht] Hfit H0. unfold pending, ioxd__pipewriter_at. cbn. rewrite H0, !Nat.add_0_r.
  rewrite Nat.add_assoc. rewrite <- (span_app_join (blit _ _ _)). rewrite span_blit_before by lia.
  replace (lead pw - head pw + (head pw + len pw)) with (lead pw + len pw) by lia.
  by rewrite span_blit_same by lia.
Qed.

Lemma reserve_spec pw n w r pw' w' :
  writer_ok pw -> ioxd__pipewriter_reserve pw n w = (r, pw', w') ->
  writer_ok pw' /\ same_slab pw pw' /\
  match r with
  | Some at_ => failed pw = false /\ failed pw' = false /\ at_ = ioxd__pipewriter_at pw' /\
                len pw' + n <= cap pw' /\
                (pw' = pw /\ w' = w \/
                 pending pw' = [] /\ len pw' = 0 /\ head pw' = 0 /\ tail pw' = 0 /\
                 sent_some w w' (pending pw) true)
  | None => failed pw = true \/ cap pw < n \/
            failed pw' = true /\ pending pw' = [] /\ tail pw' = 0 /\ sent_some w w' (pending pw) false
  end.
Proof.
  intros Hok Hr. unfold ioxd__pipewriter_reserve in Hr.
  destruct (failed pw) eqn:Ef; cbn [orb] in Hr; [injection Hr as <- <- <-; split_and!; auto; done|].
  case_test; [injection Hr as <- <- <-; split_and!; auto; done|].
  case_test.
  - destruct (ioxd__pipewriter_flush pw w) as [[ok pw1] w1] eqn:Efl.
    apply flush_with_spec in Efl as (Hok1 & Hs1 & Hrest); [|done]. rewrite Ef in Hrest.
    destruct Hrest as (Hf1 & Hp1 & Hl1 & Hh1 & Ht1 & _ & Hsent). rewrite app_nil_r in Hsent.
    destruct ok; injection Hr as <- <- <-; do 2 (split; [done|]).
    + destruct Hs1 as (? & ? & ?). split_and!; try done; [|right; done]. lia.
    + right. right. done.
  - injection Hr as <- <- <-. split_and!; try done; try lia; by left.
Qed.

(** The stream law of [write]: the wire and the pending bytes together gain exactly [data]. *)
Lemma write_spec pw data w ok pw' w' :
  writer_ok pw -> tail pw = 0 -> ioxd__pipewriter_write pw data w = (ok, pw', w') ->
  writer_ok pw' /\ same_slab pw pw' /\ tail pw' = 0 /\
  (if failed pw then ok = false /\ pw' = pw /\ w' = w
   else failed pw' = negb ok /\
        (ok = true -> wire w' ++ pending pw' = wire w ++ pending pw ++ data /\ wire w `prefix_of` wire w') /\
        (ok = false -> exists k, wire w' = wire w ++ take k (pending pw ++ data))).
Proof.
  intros Hok Ht Hw. unfold ioxd__pipewriter_write in Hw.
  destruct (failed pw) eqn:Ef; [injection Hw as <- <- <-; by split_and!|].
  destruct (Nat.ltb_spec (cap pw) (length data)) as [Hbig|Hfit].
  - destruct (ioxd__pipewriter_flush pw w) as [[ok1 pw1] w1] eqn:Efl.
    apply flush_with_spec in Efl as (Hok1 & Hs1 & Hrest); [|done]. rewrite Ef in Hrest.
    destruct Hrest as (Hf1 & Hp1 & Hl1 & Hh1 & Ht1 & _ & Hsent). rewrite app_nil_r in Hsent.
    destruct ok1.
    + apply through_spec in Hw as (Hok2 & Hs2 & Hp2 & Ht2 & Hrest); [|done]. rewrite Ht1 in Ht2.
      rewrite Hf1 in Hrest. cbn [negb] in Hrest. destruct Hrest as [Hf2 Hs].
      assert (Hall : sent_some w w' (pending pw ++ data) ok) by (by eapply sent_some_app).
      unfold same_slab in *. split; [done|]. split; [naive_solver congruence|].
      split; [done|]. split; [done|]. rewrite Hp2, Hp1, app_nil_r. split.
      * intros ->. apply sent_some_true in Hall as ->. split; [done|]. by apply prefix_app_r.
      * intros ->. destruct Hall as (k & Hk & _). eauto.
    + injection Hw as <- <- <-. split_and!; try done.
      intros _. apply (sent_some_more _ _ _ data) in Hsent as (k & Hk & _). eauto.
  - destruct (ioxd__pipewriter_reserve pw (length data) w) as [[r pw1] w1] eqn:Er.
    apply reserve_spec in Er as (Hok1 & Hs1 & Hr); [|done]. destruct r as [at_|].
    + destruct Hr as (_ & Hf1 & -> & Hroom & Hcase). injection Hw as <- <- <-.
      assert (tail pw1 = 0) as Ht1 by (destruct Hcase as [[-> _]|(_ & _ & _ & Ht1 & _)]; done).
      rewrite pending_append by done. split.
      { pose proof Hok1 as [Hb1 Hh1 Hl1 _]. split; cbn; try lia.
        rewrite length_blit; [done|]. unfold ioxd__pipewriter_at. lia. }
      split; [done|]. split; [done|]. cbn [failed set_spans set_buf negb].
      split; [by rewrite Hf1|]. split; [|done]. intros _.
      destruct Hcase as [[-> ->]|(Hp1 & _ & _ & _ & Hsent)]; [done|].
      rewrite Hp1. apply sent_some_true in Hsent. rewrite Hsent, <- app_assoc. split; [done|]. by apply prefix_app_r.
    + injection Hw as <- <- <-. destruct Hr as [Hr|[Hr|(Hf1 & Hp1 & Ht1 & Hsent)]]; [congruence|lia|].
      split; [done|]. split; [done|]. split; [done|]. split; [done|]. split; [done|]. intros _.
      apply (sent_some_more _ _ _ data) in Hsent as (k & Hk & _). eauto.
Qed.
End Laws.
End Writer.

(** ** Sequences of writer operations

    [Fill n d] is [ioxd_pipe_reserve(n)], [d] stored at the pointer it returns (a caller stores at
    most the [n] bytes it asked for), then [ioxd_pipe_advance] by what was stored. *)
Inductive pipe_op :=
  | Write (d : bytes)
  | Send (d : bytes)
  | Flush
  | Fill (n : nat) (d : bytes).

Definition fill_at {W} (r : option nat * pipewriter * W) (n : nat) (d : bytes) : bool * pipewriter * W :=
  match r with
  | (None, pw', w') => (false, pw', w')
  | (Some at_, pw', w') =>
      let d' := take n d in
      (true, ioxd__pipewriter_advance (set_buf pw' (blit (buf pw') at_ d')) (length d'), w')
  end.

Definition pipe_do {W} `{Sender W} (o : pipe_op) (pw : pipewriter) (w : W) : bool * pipewriter * W :=
  match o with
  | Write d => ioxd__pipewriter_write pw d w
  | Send d => ioxd__pipewriter_send pw d w
  | Flush => ioxd__pipewriter_flush pw w
  | Fill n d => fill_at (ioxd__pipewriter_reserve pw n w) n d
  end.

(** What an operation adds to the stream: a fill that got no room, nothing. *)
Definition op_data (o : pipe_op) (ok : bool) : bytes :=
  match o with
  | Write d | Send d => d
  | Flush => []
  | Fill n d => if ok then take n d else []
  end.

(** The writer and the wire after the operations, with the stream they were given. *)
Fixpoint pipe_run {W} `{Sender W} (os : list pipe_op) (pw : pipewriter) (w : W) : bytes * pipewriter * W :=
  match os with
  | [] => ([], pw, w)
  | o :: os' =>
      let '(ok, pw1, w1) := pipe_do o pw w in
      let '(s, pw2, w2) := pipe_run os' pw1 w1 in
      (op_data o ok ++ s, pw2, w2)
  end.

Section Runs.
Context {W : Type} `{!Sender W} `{!SenderLaws W}.
Implicit Types (pw : pipewriter) (w : W).

(** The stream [s] given so far is on the wire after [base], or on the wire and pending; a writer that
failed left a prefix of it there. *)
Definition carries (base s : bytes) pw w : Prop :=
  writer_ok pw /\ tail pw = 0 /\ base `prefix_of` wire w /\
  if failed pw then wire w `prefix_of` base ++ s else wire w ++ pending pw = base ++ s.

Lemma carries_more base s d pw w : failed pw = true -> carries base s pw w -> carries base (s ++ d) pw w.
Proof.
  intros Hf (Hok & Ht & Hb & Hc). unfold carries. rewrite Hf in *. do 3 (split; [done|]).
  rewrite app_assoc. by apply prefix_app_r.
Qed.

(** One step of the stream: what an operation may do to a writer that had not failed. *)
Lemma carries_step base s d pw w ok pw' w' :
  carries base s pw w -> failed pw = false ->
  writer_ok pw' -> tail pw' = 0 -> failed pw' = negb ok ->
  (ok = true -> wire w' ++ pending pw' = wire w ++ pending pw ++ d /\ wire w `prefix_of` wire w') ->
  (ok = false -> exists k, wire w' = wire w ++ take k (pending pw ++ d)) ->
  carries base (s ++ d) pw' w'.
Proof.
  intros (Hok & Ht & Hb & Hc) Hf Hok' Ht' Hf' Hyes Hno. rewrite Hf in Hc. unfold carries. rewrite Hf'.
  do 2 (split; [done|]). destruct ok; cbn [negb].
  - destruct (Hyes eq_refl) as [-> Hpre]. split; [by etrans|]. by rewrite app_assoc, Hc, <- app_assoc.
  - destruct (Hno eq_refl) as (k & ->). split; [by apply prefix_app_r|].
    rewrite app_assoc, <- Hc, <- app_assoc. apply prefix_app, prefix_take.
Qed.

Lemma carries_write base s d pw w ok pw' w' :
  carries base s pw w -> ioxd__pipewriter_write pw d w = (ok, pw', w') -> carries base (s ++ d) pw' w'.
Proof.
  intros Hc Hw. pose proof Hc as (Hok & Ht & _).
  apply write_spec in Hw as (Hok' & Hsame & Ht' & Hrest); [|done..].
  destruct (failed pw) eqn:Ef; [destruct Hrest as (_ & -> & ->); by apply carries_more|].
  destruct Hrest as (Hf' & Hyes & Hno). by eapply carries_step.
Qed.

Lemma carries_flush base s pw w ok pw' w' :
  carries base s pw w -> ioxd__pipewriter_flush pw w = (ok, pw', w') -> carries base s pw' w'.
Proof.
  intros Hc Hw. pose proof Hc as (Hok & Ht & _). rewrite <- (app_nil_r s).
  apply flush_with_spec in Hw as (Hok' & Hsame & Hrest); [|done].
  destruct (failed pw) eqn:Ef; [destruct Hrest as (_ & -> & ->); by apply carries_more|].
  destruct Hrest as (Hf' & Hp & _ & _ & Ht' & _ & Hsent). eapply carries_step; try done.
  - intros ->. apply sent_some_true in Hsent as ->. rewrite Hp, app_nil_r. split; [done|]. by apply prefix_app_r.
  - intros _. destruct Hsent as (k & -> & _). eauto.
Qed.

Lemma carries_fill base s n d pw w ok pw' w' :
  carries base s pw w -> fill_at (ioxd__pipewriter_reserve pw n w) n d = (ok, pw', w') ->
  carries base (s ++ op_data (Fill n d) ok) pw' w'.
Proof.
  intros Hc Hw. pose proof Hc as (Hok & Ht & _).
  destruct (ioxd__pipewriter_reserve pw n w) as [[r pw1] w1] eqn:Er.
  assert (carries base s pw1 w1) as Hc1.
  { unfold ioxd__pipewriter_reserve in Er. case_match; [by simplify_eq|]. case_match; [|by simplify_eq].
    destruct (ioxd__pipewriter_flush pw w) as [[[] pw2] w2] eqn:Ef; simplify_eq; by eapply carries_flush. }
  apply reserve_spec in Er as (_ & _ & Hr); [|done]. unfold fill_at in Hw.
  destruct r as [at_|]; injection Hw as <- <- <-; [|by rewrite app_nil_r].
  destruct Hr as (_ & Hf1 & -> & Hroom & _). pose proof Hc1 as (Hok1 & Ht1 & _).
  set (d' := take n d). assert (length d' <= n) by (unfold d'; list_lia).
  assert (Hadv : ioxd__pipewriter_advance (set_buf pw1 (blit (buf pw1) (ioxd__pipewriter_at pw1) d')) (length d')
           = set_spans (set_buf pw1 (blit (buf pw1) (ioxd__pipewriter_at pw1) d'))
               (head pw1) (len pw1 + length d') (tail pw1)).
  { unfold ioxd__pipewriter_advance, ioxd__pipewriter_room. cbn -[Nat.ltb]. unfold set_spans; cbn -[Nat.ltb]. f_equal.
    case_test; lia. }
  rewrite Hadv. eapply (carries_step _ _ _ _ _ true); try done; [|].
  - pose proof Hok1 as [Hb1 Hh1 Hl1 _]. split; cbn; try lia.
    rewrite length_blit; [done|]. unfold ioxd__pipewriter_at. lia.
  - intros _. split; [|done]. rewrite pending_append; [done|done|lia|done].
Qed.

Lemma carries_do base s o pw w ok pw' w' :
  carries base s pw w -> pipe_do o pw w = (ok, pw', w') -> carries base (s ++ op_data o ok) pw' w'.
Proof.
  intros Hc Ho. destruct o; cbn [pipe_do op_data] in *.
  - by eapply carries_write.
  - unfold ioxd__pipewriter_send in Ho.
    destruct (ioxd__pipewriter_write pw d w) as [[[] pw1] w1] eqn:Ew.
    + eapply carries_flush; [|done]. by eapply carries_write.
    + injection Ho as <- <- <-. by eapply carries_write.
  - rewrite app_nil_r. by eapply carries_flush.
  - by eapply carries_fill.
Qed.

Lemma carries_run base os s pw w t pw' w' :
  carries base s pw w -> pipe_run os pw w = (t, pw', w') -> carries base (s ++ t) pw' w'.
Proof.
  revert s pw w t pw' w'. induction os as [|o os IH]; intros s pw w t pw' w' Hc Hr; cbn [pipe_run] in Hr.
  { injection Hr as <- <- <-. by rewrite app_nil_r. }
  destruct (pipe_do o pw w) as [[ok pw1] w1] eqn:Eo.
  destruct (pipe_run os pw1 w1) as [[s2 pw2] w2] eqn:Er. injection Hr as <- <- <-.
  rewrite app_assoc. eapply IH; [|done]. by eapply carries_do.
Qed.

(** C40. The writer is a byte stream. From a fresh slab of any layout, over any connection that keeps
the [Sender] contract, after any sequence of writes, sends, flushes and reserve/advance fills: the
slab was never overrun, and as long as no send failed the bytes on the wire followed by the pending
ones are exactly the bytes given, once each and in order; once a send failed, the wire holds a prefix
of them and nothing is ever added to it again. *)
Theorem writer_stream os slab l c sl w t pw' w' :
  length slab = l + c + sl ->
  pipe_run os (ioxd__pipewriter_init slab l c sl) w = (t, pw', w') ->
  writer_ok pw' /\
  (failed pw' = false -> wire w' ++ pending pw' = wire w ++ t) /\
  (failed pw' = true -> wire w' `prefix_of` wire w ++ t /\
                        forall os', (pipe_run os' pw' w').2 = w').
Proof.
  intros Hb Hr.
  apply (carries_run (wire w) os []) in Hr as (Hok & _ & _ & Hc); cbn [app] in *.
  - split; [done|]. split; intros Hf; rewrite Hf in Hc; [done|]. split; [done|]. clear -Hf. intros os'.
    assert (Hd : forall o, exists ok, pipe_do o pw' w' = (ok, pw', w')).
    { intros []; cbn [pipe_do]; unfold ioxd__pipewriter_send, ioxd__pipewriter_write, ioxd__pipewriter_flush,
        ioxd__pipewriter_flush_with, ioxd__pipewriter_reserve; rewrite Hf; eauto. }
    induction os' as [|o os' IH]; [done|]. cbn [pipe_run]. destruct (Hd o) as (ok & ->).
    by destruct (pipe_run os' pw' w') as [[? ?] ?].
  - split; [by apply writer_ok_init|]. cbn. rewrite pending_empty by done. by rewrite app_nil_r.
Qed.

(** A frame around the pending data. [front] and [back] hand out exactly the bytes just before and
just after the pending span, refuse (and change nothing) when the lead or the slack has no room, and
never touch the data: with both filled, the flush sends front, data and back in one piece. *)
Theorem writer_frame pw w f b :
  writer_ok pw -> failed pw = false -> tail pw = 0 ->
  match ioxd__pipewriter_front pw (length f) with
  | (None, pw1) => lead pw - head pw < length f /\ pw1 = pw
  | (Some at1, pw1) =>
      let pw1 := set_buf pw1 (blit (buf pw1) at1 f) in
      writer_ok pw1 /\ pending pw1 = f ++ pending pw /\
      match ioxd__pipewriter_back pw1 (length b) with
      | (None, pw2) => slack pw < length b /\ pw2 = pw1
      | (Some at2, pw2) =>
          let pw2 := set_buf pw2 (blit (buf pw2) at2 b) in
          writer_ok pw2 /\ pending pw2 = f ++ pending pw ++ b /\
          forall ok pw3 w', ioxd__pipewriter_flush pw2 w = (ok, pw3, w') ->
            failed pw3 = negb ok /\ pending pw3 = [] /\ (ok = true -> wire w' = wire w ++ f ++ pending pw ++ b)
      end
  end.
Proof.
  intros Hok Hf Ht. pose proof (length_pending pw Hok) as Hlp. pose proof Hok as [Hb Hh Hl _].
  unfold ioxd__pipewriter_front. case_test; [done|]. cbn zeta. cbn [buf set_spans lead head].
  set (pw1 := set_buf _ _).
  assert (Hok1 : writer_ok pw1) by (split; cbn; [rewrite length_blit by lia| | |]; lia).
  assert (Hp1 : pending pw1 = f ++ pending pw).
  { unfold pending, pw1. cbn. replace (head pw + length f + len pw + tail pw) with (length f + (head pw + len pw + tail pw)) by lia.
    rewrite <- span_app_join, span_blit_same by lia. f_equal. rewrite span_blit_after by lia. f_equal. lia. }
  split; [done|]. split; [done|]. unfold ioxd__pipewriter_back. cbn [slack tail set_buf set_spans pw1].
  rewrite Ht, Nat.sub_0_r. case_test; [done|]. cbn zeta.
  set (pw2 := set_buf _ _).
  assert (Hok2 : writer_ok pw2) by (split; cbn; [rewrite !length_blit| | |]; rewrite ?length_blit; lia).
  assert (Hp2 : pending pw2 = f ++ pending pw ++ b).
  { rewrite app_assoc, <- Hp1. unfold pending, pw2. cbn. rewrite Ht, Nat.add_0_r.
    rewrite <- span_app_join.
    rewrite span_blit_before by (rewrite ?length_blit; lia).
    replace (lead pw - (head pw + length f) + (head pw + length f + len pw)) with (lead pw + len pw) by lia.
    rewrite Nat.add_0_r, span_blit_same; [done|]. rewrite length_blit; lia. }
  split; [done|]. split; [done|]. intros ok pw3 w' Hfl.
  apply flush_with_spec in Hfl as (_ & _ & Hrest); [|done]. cbn [failed pw2 set_buf set_spans pw1] in Hrest.
  rewrite Hf in Hrest. destruct Hrest as (? & ? & _ & _ & _ & _ & Hs). split; [done|]. split; [done|].
  intros ->. apply sent_some_true in Hs as ->. by rewrite Hp2, app_nil_r.
Qed.
End Runs.

(** A connection that takes everything, for the witnesses. *)
Definition all_goes (n : nat) : Z := 5%Z.

Lemma writer_stream_witness :
  writer_ok (pipe_run (H := socket_sender all_goes)
    [Write (lit "abc"); Fill 2 (lit "de"); Send (lit "fghijk"); Flush]
    (ioxd__pipewriter_init (replicate 9 0%Z) 2 4 3) {| sent := []; awaits := 0 |}).1.2.
Proof.
  refine (proj1 (writer_stream (Sender0 := socket_sender all_goes)
    [Write (lit "abc"); Fill 2 (lit "de"); Send (lit "fghijk"); Flush]
    (replicate 9 0%Z) 2 4 3 {| sent := []; awaits := 0 |} _ _ _ _ eq_refl)).
  vm_compute. reflexivity.
Defined.

(** Short sends are finished. Whatever the kernel answers, each of the two send loops ends - after
at most one await a byte - having put a prefix of its bytes on the wire, in order and once each: all
of them when the result is not negative. With a kernel that always takes something every byte goes,
and the results are [(int)len] for a single send and 0 for a vector. *)
Theorem conn_send_complete result buf iov s :
  (iov = [] \/ concat iov <> []) ->
  (let '(rc, s') := ioxd__conn_send result buf s in
   (exists k, sent s' = sent s ++ take k buf /\ ((0 <= rc)%Z -> take k buf = buf)) /\
   awaits s' <= awaits s + length buf /\
   ((forall n, (0 < result n)%Z) -> sent s' = sent s ++ buf /\ rc = to_int (Z.of_nat (length buf)))) /\
  (let '(rc, s') := ioxd__conn_sendv result iov s in
   (exists k, sent s' = sent s ++ take k (concat iov) /\ ((0 <= rc)%Z -> take k (concat iov) = concat iov)) /\
   ((forall n, (0 < result n)%Z) -> sent s' = sent s ++ concat iov /\ rc = 0%Z)).
Proof.
  intros Hne. split.
  - destruct (ioxd__conn_send result buf s) as [rc s'] eqn:E. unfold ioxd__conn_send in E.
    destruct (send_loop_spec result _ _ _ _ _ _ (le_n _) E) as (k & Hk & Hd & Ha).
    split; [exists k; split; [done|]; destruct Hd as [[_ ?]|]; [done|lia]|]. split; [done|]. intros Hpos.
    destruct (send_loop_all result (length buf) (Z.of_nat (length buf)) buf s Hpos (le_n _)) as (a & Hall).
    rewrite Hall in E. injection E as <- <-. done.
  - destruct (ioxd__conn_sendv result iov s) as [rc s'] eqn:E. unfold ioxd__conn_sendv in E.
    destruct (sendv_loop_spec result _ _ _ _ _ (Nat.lt_succ_diag_r _) E) as (k & Hk & Hd).
    split; [exists k; split; [done|]; destruct Hd as [[_ ?]|]; [done|lia]|]. intros Hpos.
    destruct (sendv_loop_all result _ iov s Hpos (Nat.lt_succ_diag_r _) Hne) as (a & Hall).
    rewrite Hall in E. injection E as <- <-. done.
Qed.

Lemma conn_send_complete_witness :
  (sent (ioxd__conn_send all_goes (lit "a longer message") {| sent := []; awaits := 0 |}).2 = lit "a longer message").
Proof.
  pose proof (conn_send_complete all_goes (lit "a longer message") [] {| sent := []; awaits := 0 |}
    (or_introl eq_refl)) as [H _].
  destruct (ioxd__conn_send all_goes _ _) as [rc s']. destruct H as (_ & _ & H). apply H. intros n. reflexivity.
Defined.

(** The result of a send of 2^31 bytes and more is negative although every byte went: [(int)len]. *)
Lemma conn_send_wraps len : (2 ^ 31 <= len < 2 ^ 32)%Z -> (to_int len < 0)%Z.
Proof. intros. unfold to_int, wrap32. rewrite Z.mod_small by lia. case_test; lia. Qed.

Lemma writer_frame_witness :
  match ioxd__pipewriter_front (ioxd__pipewriter_init (replicate 9 0%Z) 2 4 3) (length (lit "ab")) with
  | (Some _, _) => True
  | (None, _) => False
  end.
Proof.
  assert (Hok : writer_ok (ioxd__pipewriter_init (replicate 9 0%Z) 2 4 3)) by (apply writer_ok_init; reflexivity).
  pose proof (writer_frame (Sender0 := socket_sender all_goes)
    (ioxd__pipewriter_init (replicate 9 0%Z) 2 4 3) {| sent := []; awaits := 0 |} (lit "ab") (lit "c")
    Hok eq_refl eq_refl) as H.
  destruct (ioxd__pipewriter_front _ (length (lit "ab"))) as [[at1|] pw1] eqn:E; [exact I|].
  destruct H as [H _]. cbn in H. lia.
Defined.
