(* ===== verification/Conn.v ===== *)
(** A worker's connections: lib/io/conn.c, with what lib/io/proactor.c does to them. The state is a
    worker; a connection's address is a key of its map of live objects, and an access to an object
    that was freed has no result, so a step that returns [Some] touched live memory only. A handler
    is a list of the actions it still performs: resuming its coroutine runs them up to the next await,
    inline, where the code resumes it. *)
From S2P Require Import Prelude Bufring.

Definition ECANCELED : Z := 125.
Definition ENOBUFS : Z := 105.
Definition EPROTO : Z := 71.
Definition EIO : Z := 5.

Inductive recv_state := RECV_ARMED | RECV_STARVED | RECV_PAUSED | RECV_DONE.

#[export] Instance recv_state_dec : EqDecision recv_state.
Proof. solve_decision. Defined.

(** What a handler does on its connection; [Await] is any await of a one-shot operation (a send, a
timer, a socket option). *)
Inductive action := RecvItem | ReturnItem (i : nat) | RecvPause | RecvResume | Await.

(** Where the coroutine is: in the ready queue, running, parked, or ended. *)
Inductive place := Fresh | Running | OnRx | OnPause | OnOp | Ended.

#[export] Instance place_dec : EqDecision place.
Proof. solve_decision. Defined.

(** [struct conn]; then the coroutine, the buffers its handler owns, and what the kernel did. *)
Record conn := {
  fd : Z;
  certs : bool;                 (* listener && listener->certs *)
  waiter : bool;
  rx : list rx_item;
  recv : recv_state;
  pausing : bool; cancelling : bool;
  refs : Z;
  closed : bool; eof : bool;
  err : Z;
  co : list action; at_ : place; held : list rx_item;
  got : list rx_item;           (* every buffer its handler took *)
  arrived : list rx_item;       (* every buffer the kernel filled for it *)
  inflight : bool               (* a multishot recv is in the kernel *)
}.

Inductive sqe := SQ_RECV (a : nat) | SQ_CANCEL (a : nat) | SQ_CANCEL_ANY | SQ_CLOSE (fd : Z).

Record worker := {
  conns : gmap nat conn;
  conn_free : list nat; idle_connections : nat;
  live : nat;
  starved : list nat; starved_total : nat;
  out : gmap Z nat;             (* buffers not in the ring, with the connection they are at *)
  returned : nat;
  ready : list nat;
  draining : bool; cancel_each : bool;
  accepted : nat;
  sqes : list sqe               (* staged, oldest first *)
}.

(** *** Record updates *)

Definition set_conns (w : worker) (m : gmap nat conn) : worker :=
  {| conns := m; conn_free := conn_free w; idle_connections := idle_connections w; live := live w;
     starved := starved w; starved_total := starved_total w; out := out w; returned := returned w;
     ready := ready w; draining := draining w; cancel_each := cancel_each w; accepted := accepted w;
     sqes := sqes w |}.
Definition set_pool (w : worker) (m : gmap nat conn) (f : list nat) (l : nat) : worker :=
  {| conns := m; conn_free := f; idle_connections := idle_connections w; live := l;
     starved := starved w; starved_total := starved_total w; out := out w; returned := returned w;
     ready := ready w; draining := draining w; cancel_each := cancel_each w; accepted := accepted w;
     sqes := sqes w |}.
Definition set_starved (w : worker) (s : list nat) (n : nat) : worker :=
  {| conns := conns w; conn_free := conn_free w; idle_connections := idle_connections w; live := live w;
     starved := s; starved_total := n; out := out w; returned := returned w;
     ready := ready w; draining := draining w; cancel_each := cancel_each w; accepted := accepted w;
     sqes := sqes w |}.
Definition set_out (w : worker) (o : gmap Z nat) (r : nat) : worker :=
  {| conns := conns w; conn_free := conn_free w; idle_connections := idle_connections w; live := live w;
     starved := starved w; starved_total := starved_total w; out := o; returned := r;
     ready := ready w; draining := draining w; cancel_each := cancel_each w; accepted := accepted w;
     sqes := sqes w |}.
Definition set_ready (w : worker) (r : list nat) (n : nat) : worker :=
  {| conns := conns w; conn_free := conn_free w; idle_connections := idle_connections w; live := live w;
     starved := starved w; starved_total := starved_total w; out := out w; returned := returned w;
     ready := r; draining := draining w; cancel_each := cancel_each w; accepted := n;
     sqes := sqes w |}.
Definition set_drain (w : worker) (d e : bool) : worker :=
  {| conns := conns w; conn_free := conn_free w; idle_connections := idle_connections w; live := live w;
     starved := starved w; starved_total := starved_total w; out := out w; returned := returned w;
     ready := ready w; draining := d; cancel_each := e; accepted := accepted w;
     sqes := sqes w |}.
(** [ioxd__proactor_sqe] and its fields. *)
Definition stage (w : worker) (s : sqe) : worker :=
  {| conns := conns w; conn_free := conn_free w; idle_connections := idle_connections w; live := live w;
     starved := starved w; starved_total := starved_total w; out := out w; returned := returned w;
     ready := ready w; draining := draining w; cancel_each := cancel_each w; accepted := accepted w;
     sqes := sqes w ++ [s] |}.

Definition set_waiter (c : conn) (b : bool) : conn :=
  {| fd := fd c; certs := certs c; waiter := b; rx := rx c; recv := recv c; pausing := pausing c;
     cancelling := cancelling c; refs := refs c; closed := closed c; eof := eof c; err := err c;
     co := co c; at_ := at_ c; held := held c; got := got c; arrived := arrived c; inflight := inflight c |}.
Definition set_rx (c : conn) (r : list rx_item) (a : list rx_item) : conn :=
  {| fd := fd c; certs := certs c; waiter := waiter c; rx := r; recv := recv c; pausing := pausing c;
     cancelling := cancelling c; refs := refs c; closed := closed c; eof := eof c; err := err c;
     co := co c; at_ := at_ c; held := held c; got := got c; arrived := a; inflight := inflight c |}.
Definition set_recv (c : conn) (r : recv_state) (p : bool) : conn :=
  {| fd := fd c; certs := certs c; waiter := waiter c; rx := rx c; recv := r; pausing := p;
     cancelling := cancelling c; refs := refs c; closed := closed c; eof := eof c; err := err c;
     co := co c; at_ := at_ c; held := held c; got := got c; arrived := arrived c; inflight := inflight c |}.
Definition set_cancelling (c : conn) (b : bool) : conn :=
  {| fd := fd c; certs := certs c; waiter := waiter c; rx := rx c; recv := recv c; pausing := pausing c;
     cancelling := b; refs := refs c; closed := closed c; eof := eof c; err := err c;
     co := co c; at_ := at_ c; held := held c; got := got c; arrived := arrived c; inflight := inflight c |}.
Definition set_refs (c : conn) (r : Z) : conn :=
  {| fd := fd c; certs := certs c; waiter := waiter c; rx := rx c; recv := recv c; pausing := pausing c;
     cancelling := cancelling c; refs := r; closed := closed c; eof := eof c; err := err c;
     co := co c; at_ := at_ c; held := held c; got := got c; arrived := arrived c; inflight := inflight c |}.
Definition set_closed (c : conn) : conn :=
  {| fd := fd c; certs := certs c; waiter := waiter c; rx := rx c; recv := recv c; pausing := pausing c;
     cancelling := cancelling c; refs := refs c; closed := true; eof := eof c; err := err c;
     co := co c; at_ := Ended; held := held c; got := got c; arrived := arrived c; inflight := inflight c |}.
Definition set_eof (c : conn) (e : Z) : conn :=
  {| fd := fd c; certs := certs c; waiter := waiter c; rx := rx c; recv := recv c; pausing := pausing c;
     cancelling := cancelling c; refs := refs c; closed := closed c; eof := true; err := e;
     co := co c; at_ := at_ c; held := held c; got := got c; arrived := arrived c; inflight := inflight c |}.
(** The coroutine parks: what it does next, where, and whether it waits for bytes. *)
Definition park (c : conn) (k : list action) (pl : place) (wt : bool) : conn :=
  {| fd := fd c; certs := certs c; waiter := wt; rx := rx c; recv := recv c; pausing := pausing c;
     cancelling := cancelling c; refs := refs c; closed := closed c; eof := eof c; err := err c;
     co := k; at_ := pl; held := held c; got := got c; arrived := arrived c; inflight := inflight c |}.
Definition set_held (c : conn) (r h g : list rx_item) : conn :=
  {| fd := fd c; certs := certs c; waiter := waiter c; rx := r; recv := recv c; pausing := pausing c;
     cancelling := cancelling c; refs := refs c; closed := closed c; eof := eof c; err := err c;
     co := co c; at_ := at_ c; held := h; got := g; arrived := arrived c; inflight := inflight c |}.
Definition set_inflight (c : conn) (b : bool) : conn :=
  {| fd := fd c; certs := certs c; waiter := waiter c; rx := rx c; recv := recv c; pausing := pausing c;
     cancelling := cancelling c; refs := refs c; closed := closed c; eof := eof c; err := err c;
     co := co c; at_ := at_ c; held := held c; got := got c; arrived := arrived c; inflight := b |}.

(** A store through the pointer: only into a live object. *)
Definition upd (a : nat) (f : conn -> conn) (w : worker) : option worker :=
  c ← conns w !! a; Some (set_conns w (<[a := f c]> (conns w))).

(** ** The object *)

Definition new_conn (fd_ : Z) (certs_ : bool) (prog : list action) : conn :=
  {| fd := fd_; certs := certs_; waiter := false; rx := []; recv := RECV_ARMED; pausing := false;
     cancelling := false; refs := 2; closed := false; eof := false; err := 0;
     co := prog; at_ := Fresh; held := []; got := []; arrived := []; inflight := false |}.

(** The object comes from the pool, else from [calloc], which answers [fresh]. *)
Definition ioxd__conn_new (fresh : nat) (fd_ : Z) (certs_ : bool) (prog : list action) (w : worker) : nat * worker :=
  match conn_free w with
  | a :: free' => (a, set_pool w (<[a := new_conn fd_ certs_ prog]> (conns w)) free' (S (live w)))
  | [] => (fresh, set_pool w (<[fresh := new_conn fd_ certs_ prog]> (conns w)) [] (S (live w)))
  end.

Definition conn_unref (a : nat) (w : worker) : option worker :=
  c ← conns w !! a;
  if negb (refs c - 1 =? 0)%Z then Some (set_conns w (<[a := set_refs c (refs c - 1)]> (conns w)))
  else
    Some (set_pool w (delete a (conns w))
            (if length (conn_free w) <? idle_connections w then a :: conn_free w else conn_free w)
            (live w - 1)).

(** ** The recv side *)

Definition cancel_recv (a : nat) (w : worker) : option worker :=
  c ← conns w !! a;
  if cancelling c then Some w
  else Some (stage (set_conns w (<[a := set_cancelling c true]> (conns w))) (SQ_CANCEL a)).

Definition end_input (e : Z) (c : conn) : conn := if eof c then c else set_eof c e.

Definition ioxd__conn_arm_recv (a : nat) (w : worker) : option worker :=
  c ← conns w !! a;
  Some (stage (set_conns w (<[a := set_inflight (set_cancelling (set_recv c RECV_ARMED (pausing c)) false) true]> (conns w)))
          (SQ_RECV a)).

(** A buffer goes back once: a second return of the same one has no result. *)
Definition bufring_return (id : Z) (w : worker) : option worker :=
  _ ← out w !! id; Some (set_out w (delete id (out w)) (S (returned w))).

Fixpoint return_all (ids : list Z) (w : worker) : option worker :=
  match ids with
  | [] => Some w
  | id :: ids' => w1 ← bufring_return id w; return_all ids' w1
  end.

(** [note_starved] counts (its log line is not modelled); [starved_push] keeps the list in order. *)
Definition note_starved (w : worker) : worker := set_starved w (starved w) (S (starved_total w)).
Definition starved_push (a : nat) (w : worker) : worker := set_starved w (starved w ++ [a]) (starved_total w).

(** The first entry that is [a], the ones behind it moved down. *)
Fixpoint remove_first (a : nat) (l : list nat) : list nat :=
  match l with
  | [] => []
  | b :: l' => if Nat.eqb b a then l' else b :: remove_first a l'
  end.
Definition starved_remove (a : nat) (w : worker) : worker :=
  set_starved w (remove_first a (starved w)) (starved_total w).

(** ** Close *)

Definition ioxd__conn_close_socket (fd_ : Z) (w : worker) : worker := stage w (SQ_CLOSE fd_).

Definition ioxd__conn_close (a : nat) (w : worker) : option worker :=
  w ← upd a set_closed w;
  c ← conns w !! a;
  w ← (if decide (recv c = RECV_ARMED) then cancel_recv a w
       else if decide (recv c = RECV_STARVED \/ recv c = RECV_PAUSED) then
         let w := if decide (recv c = RECV_STARVED) then starved_remove a w else w in
         upd a (fun c => set_refs (set_recv c RECV_DONE (pausing c)) (refs c - 1)) w
       else Some w);
  w ← return_all (buf_id <$> rx c) w;
  w ← upd a (fun c => set_rx c [] (arrived c)) w;
  conn_unref a (ioxd__conn_close_socket (fd c) w).

(** [ioxd__conn_main] behind the handler: [ioxd__pipe_close] hands back what the reader still owns,
then the connection closes. *)
Definition conn_main_end (a : nat) (w : worker) : option worker :=
  c ← conns w !! a;
  w ← return_all (buf_id <$> held c) w;
  w ← upd a (fun c => set_held c (rx c) [] (got c)) w;
  ioxd__conn_close a w.

(** ** The handler's side *)

(** The end of [ioxd__conn_recv_pause], behind its loop: 0, or -1. *)
Definition pause_tail (a : nat) (w : worker) : option (Z * worker) :=
  c ← conns w !! a;
  w ← (if decide (recv c = RECV_STARVED) then
         upd a (fun c => set_recv c RECV_PAUSED (pausing c)) (starved_remove a w)
       else Some w);
  c ← conns w !! a;
  Some ((if eof c then -1 else if decide (recv c = RECV_PAUSED) then 0 else -1)%Z, w).

Definition ioxd__conn_recv_resume (a : nat) (w : worker) : option (bool * worker) :=
  c ← conns w !! a;
  if negb (bool_decide (recv c = RECV_PAUSED)) || eof c || closed c then Some (false, w)
  else if draining w then
    w ← upd a (fun c => set_recv (end_input (- ECANCELED) c) RECV_DONE (pausing c)) w;
    w ← conn_unref a w;
    Some (false, w)
  else w ← ioxd__conn_arm_recv a w; Some (true, w).

(** The coroutine runs until it parks or its handler returned. *)
Fixpoint run_co (acts : list action) (a : nat) (w : worker) : option worker :=
  match acts with
  | [] => conn_main_end a w
  | RecvItem :: k =>
      c ← conns w !! a;
      match rx c with
      | i :: rx' =>
          w ← upd a (fun c => set_held c rx' (held c ++ [i]) (got c ++ [i])) w;
          run_co k a w
      | [] =>
          if eof c then run_co k a w                     (* returns c->err *)
          else upd a (fun c => park c acts OnRx true) w
      end
  | ReturnItem i :: k =>
      c ← conns w !! a;
      match held c !! i with
      | Some it =>
          w ← bufring_return (buf_id it) w;
          w ← upd a (fun c => set_held c (rx c) (take i (held c) ++ drop (S i) (held c)) (got c)) w;
          run_co k a w
      | None => run_co k a w
      end
  | RecvPause :: k =>
      c ← conns w !! a;
      if decide (recv c = RECV_ARMED) then
        w ← upd a (fun c => set_recv c (recv c) true) w;
        w ← cancel_recv a w;
        upd a (fun c => park c k OnPause true) w
      else '(_, w) ← pause_tail a w; run_co k a w
  | RecvResume :: k => '(_, w) ← ioxd__conn_recv_resume a w; run_co k a w
  | Await :: k => upd a (fun c => park c k OnOp false) w
  end.

(** The loop of [ioxd__conn_recv_pause]: woken, it parks again while the recv is armed. *)
Definition pause_wait (k : list action) (a : nat) (w : worker) : option worker :=
  c ← conns w !! a;
  if decide (recv c = RECV_ARMED) then upd a (fun c => park c k OnPause true) w
  else
    w ← upd a (fun c => set_recv c (recv c) false) w;
    '(_, w) ← pause_tail a w; run_co k a w.

Definition coro_resume (a : nat) (w : worker) : option worker :=
  c ← conns w !! a;
  let w := set_conns w (<[a := park c [] Running (waiter c)]> (conns w)) in
  if decide (at_ c = OnPause) then pause_wait (co c) a w else run_co (co c) a w.

(** ** The completion of a recv *)

Definition wake_reader (a : nat) (w : worker) : option worker :=
  c ← conns w !! a;
  if waiter c then coro_resume a (set_conns w (<[a := set_waiter c false]> (conns w))) else Some w.

(** [if (!more) ... else if (p->cancel_each && !c->closed)] *)
Definition on_recv_tail (a : nat) (more : bool) (w : worker) : option worker :=
  c ← conns w !! a;
  if negb more then
    if pausing c && negb (closed c) then
      w ← upd a (fun c => set_recv c RECV_PAUSED false) w;
      wake_reader a w
    else if negb (closed c) && negb (eof c) then ioxd__conn_arm_recv a w
    else w ← upd a (fun c => set_recv c RECV_DONE (pausing c)) w; conn_unref a w
  else if cancel_each w && negb (closed c) then cancel_recv a w
  else Some w.

(** [buf] is the buffer id when IORING_CQE_F_BUFFER is set; [base] is [ioxd__bufring_at] of it. *)
Definition ioxd__conn_on_recv (base : Z -> Z) (a : nat) (result : Z) (more : bool) (buf : option Z) (w : worker) : option worker :=
  c ← conns w !! a;
  w ← (if negb more then upd a (fun c => set_cancelling c false) w else Some w);
  if (result =? - ENOBUFS)%Z then
    if closed c then
      w ← upd a (fun c => set_recv c RECV_DONE (pausing c)) w; conn_unref a w
    else if pausing c then
      w ← upd a (fun c => set_recv c RECV_PAUSED false) w; wake_reader a w
    else if eof c then
      w ← upd a (fun c => set_recv c RECV_DONE (pausing c)) w;
      w ← wake_reader a w; conn_unref a w
    else
      w ← upd a (fun c => set_recv c RECV_STARVED (pausing c)) w;
      Some (starved_push a (note_starved w))
  else if (result <=? 0)%Z then
    w ← (match buf with Some id => bufring_return id w | None => Some w end);
    if pausing c && negb (closed c) && (result =? - ECANCELED)%Z then
      w ← upd a (fun c => set_recv c RECV_PAUSED false) w; wake_reader a w
    else
      w ← upd a (end_input (if (result =? - EIO)%Z && certs c then 0%Z else result)) w;
      w ← upd a (fun c => set_recv c RECV_DONE (pausing c)) w;
      w ← wake_reader a w;
      conn_unref a w
  else
    w ← (match buf with
         | None =>
             w ← upd a (end_input (- EPROTO)) w;
             w ← (if more then cancel_recv a w else Some w);
             wake_reader a w
         | Some id =>
             if closed c then bufring_return id w
             else if length (rx c) =? Z.to_nat RX_QUEUE then
               w ← bufring_return id w;
               w ← upd a (end_input (- ENOBUFS)) w;
               w ← (if more then cancel_recv a w else Some w);
               wake_reader a w
             else
               w ← upd a (fun c => set_rx c (rx c ++ [{| ptr := base id; len := result; buf_id := id |}]) (arrived c)) w;
               wake_reader a w
         end);
    on_recv_tail a more w.

(** ** Shutdown and the loop *)

Definition ioxd__conn_recv_drain (a : nat) (w : worker) : option worker :=
  c ← conns w !! a;
  if negb (bool_decide (recv c = RECV_STARVED)) then Some w
  else
    w ← upd a (fun c => set_recv (end_input (- ECANCELED) c) RECV_DONE (pausing c)) w;
    w ← wake_reader a w;
    conn_unref a w.

(** [while (p->nstarved) ioxd__conn_recv_drain(p->starved[--p->nstarved])]; each round takes one. *)
Fixpoint drain_starved (fuel : nat) (w : worker) : option worker :=
  match fuel, rev (starved w) with
  | S fuel', a :: l =>
      w ← ioxd__conn_recv_drain a (set_starved w (rev l) (starved_total w));
      drain_starved fuel' w
  | _, _ => Some w
  end.

Definition begin_drain (w : worker) : option worker :=
  let w := stage (set_drain w true (cancel_each w)) SQ_CANCEL_ANY in
  drain_starved (length (starved w)) w.

Fixpoint arm_all (l : list nat) (w : worker) : option worker :=
  match l with
  | [] => Some w
  | a :: l' => w ← ioxd__conn_arm_recv a w; arm_all l' w
  end.

Definition rearm_starved (w : worker) : option worker :=
  let room := returned w in
  let w := set_out w (out w) 0 in
  if (length (starved w) =? 0) || (room =? 0) then Some w
  else
    let n := if room <? length (starved w) then room else length (starved w) in
    w ← arm_all (take n (starved w)) w;
    Some (set_starved w (drop n (starved w)) (starved_total w)).

Definition ioxd__proactor_spawn (a : nat) (w : worker) : worker := set_ready w (ready w ++ [a]) (accepted w).

(** The part of [on_accept] that is about connections, and [run_ready] one coroutine at a time. *)
Definition on_accept (fresh : nat) (result : Z) (certs_ : bool) (prog : list action) (w : worker) : option worker :=
  if (0 <=? result)%Z && draining w then Some (ioxd__conn_close_socket result w)
  else if (0 <=? result)%Z then
    let '(a, w) := ioxd__conn_new fresh result certs_ prog w in
    w ← ioxd__conn_arm_recv a w;
    let w := ioxd__proactor_spawn a w in
    Some (set_ready w (ready w) (S (accepted w)))
  else Some w.

Definition run_ready1 (w : worker) : option worker :=
  match ready w with
  | [] => Some w
  | a :: ready' => coro_resume a (set_ready w ready' (accepted w))
  end.

(** ** The worker's steps

    [EvRecv] is a completion of a multishot recv: the kernel takes a buffer that is in the ring. *)
Inductive event :=
  | EvAccept (fresh : nat) (result : Z) (certs_ : bool) (prog : list action)
  | EvReady
  | EvRearm
  | EvRecv (a : nat) (result : Z) (more : bool) (buf : option Z)
  | EvOp (a : nat)
  | EvDrain
  | EvCancelEach.

(** What the kernel did before the loop saw the completion. *)
Definition deliver (base : Z -> Z) (a : nat) (result : Z) (more : bool) (buf : option Z) (w : worker) : option worker :=
  w ← upd a (fun c =>
        let c := if (0 <? result)%Z
                 then set_rx c (rx c) (arrived c ++ [{| ptr := base (default 0%Z buf); len := result; buf_id := default (-1)%Z buf |}])
                 else c in
        if more then c else set_inflight c false) w;
  Some (match buf with Some id => set_out w (<[id := a]> (out w)) (returned w) | None => w end).

Definition step (base : Z -> Z) (e : event) (w : worker) : option worker :=
  match e with
  | EvAccept fresh result certs_ prog => on_accept fresh result certs_ prog w
  | EvReady => run_ready1 w
  | EvRearm => rearm_starved w
  | EvRecv a result more buf =>
      w ← deliver base a result more buf w; ioxd__conn_on_recv base a result more buf w
  | EvOp a => coro_resume a w
  | EvDrain => begin_drain w
  | EvCancelEach => Some (set_drain w (draining w) true)
  end.

(** What the kernel and the allocator guarantee: an address that is in use is not handed out; a recv
completes while it is in flight, into a buffer that is in the ring, and its last completion is the
one without [IORING_CQE_F_MORE] - an error or the end of input always is; an operation completes for
the coroutine parked on it. *)
Definition legal (e : event) (w : worker) : Prop :=
  match e with
  | EvAccept fresh _ _ _ => conns w !! fresh = None
  | EvRecv a result more buf =>
      (exists c, conns w !! a = Some c /\ inflight c = true) /\
      (forall id, buf = Some id -> out w !! id = None) /\
      ((result <= 0)%Z -> more = false) /\ (result = - ENOBUFS -> buf = None)%Z
  | EvOp a => exists c, conns w !! a = Some c /\ at_ c = OnOp
  | _ => True
  end.

Definition init_worker (idle : nat) : worker :=
  {| conns := ∅; conn_free := []; idle_connections := idle; live := 0; starved := []; starved_total := 0;
     out := ∅; returned := 0; ready := []; draining := false; cancel_each := false; accepted := 0; sqes := [] |}.

Inductive reachable (base : Z -> Z) (idle : nat) : worker -> Prop :=
  | reach_init : reachable base idle (init_worker idle)
  | reach_step w e w' : reachable base idle w -> legal e w -> step base e w = Some w' -> reachable base idle w'.

(** ** The invariant *)

Definition ids (c : conn) : list Z := buf_id <$> (rx c ++ held c).

(** Where a connection is in its step: at rest, with its coroutine running, or woken - its fields set
by the loop, its coroutine not yet resumed. *)
Inductive kind := Rest | Run | Woke.

(** [x] extra references are still counted (the loop drops them later in the same step); [t]: the last
completion of its recv is being handled. *)
Record conn_ok (x : Z) (t : bool) (k : kind) (S R : list nat) (O : gmap Z nat) (a : nat) (c : conn) : Prop := {
  ok_refs : refs c = (Z.b2z (negb (closed c)) + Z.b2z (negb (bool_decide (recv c = RECV_DONE))) + x)%Z;
  ok_alive : (0 < refs c)%Z;
  ok_inflight : inflight c = bool_decide (recv c = RECV_ARMED) && negb t;
  ok_starved : a ∈ S <-> recv c = RECV_STARVED;
  ok_ready : a ∈ R <-> at_ c = Fresh;
  ok_waiter : waiter c = bool_decide (at_ c = OnRx \/ at_ c = OnPause);
  ok_closed : closed c = bool_decide (at_ c = Ended);
  ok_gone : closed c = true -> rx c = [] /\ held c = [] /\ pausing c = false /\
            (recv c = RECV_ARMED /\ (cancelling c = true \/ t = true) \/ recv c = RECV_DONE);
  ok_rx : length (rx c) <= 64;
  ok_ids : NoDup (ids c);
  ok_out : forall id, O !! id = Some a <-> id ∈ ids c;
  ok_eof : eof c = false -> closed c = false -> recv c <> RECV_DONE;
  ok_stream : closed c = false -> eof c = false \/ (err c <> - ENOBUFS /\ err c <> - EPROTO)%Z ->
              arrived c = got c ++ rx c;
  ok_ended : eof c = true -> (err c <> - ENOBUFS /\ err c <> - EPROTO)%Z -> recv c = RECV_DONE;
  ok_pausing : pausing c = true -> at_ c = OnPause;
  ok_kind : match k with
            | Run => at_ c = Running
            | Woke => at_ c <> Running /\
                      (at_ c = OnPause -> recv c = RECV_ARMED -> pausing c = true /\ (cancelling c = true \/ t = true))
            | Rest => at_ c <> Running /\ (at_ c = OnRx -> rx c = [] /\ eof c = false) /\
                      (at_ c = OnPause -> recv c = RECV_ARMED /\ pausing c = true /\ (cancelling c = true \/ t = true))
            end
  }.

(** The connection in the middle of a step, if there is one. *)
Record focus := Foc { f_a : nat; f_x : Z; f_t : bool; f_k : kind }.

Definition ok_in (m : option focus) (w : worker) (b : nat) (c : conn) : Prop :=
  match m with
  | Some f => if decide (b = f_a f) then conn_ok (f_x f) (f_t f) (f_k f) (starved w) (ready w) (out w) b c
              else conn_ok 0 false Rest (starved w) (ready w) (out w) b c
  | None => conn_ok 0 false Rest (starved w) (ready w) (out w) b c
  end.

Record Inv (m : option focus) (w : worker) : Prop := {
  g_starved : NoDup (starved w);
  g_ready : NoDup (ready w);
  g_free : NoDup (conn_free w) /\ (forall b, b ∈ conn_free w -> conns w !! b = None) /\
           length (conn_free w) <= idle_connections w;
  g_live : live w = base.size (conns w);
  g_dom : forall b, b ∈ starved w \/ b ∈ ready w \/ (exists id, out w !! id = Some b) -> is_Some (conns w !! b);
  g_conns : forall b c, conns w !! b = Some c -> ok_in m w b c
  }.

Lemma end_input_fields e c :
  end_input e c = (if eof c then c else set_eof c e).
Proof. done. Qed.

(** A step that only touched connection [a]. *)
Record frame (a : nat) (w w' : worker) : Prop := {
  fr_starved : NoDup (starved w') /\ forall b, b <> a -> b ∈ starved w' <-> b ∈ starved w;
  fr_ready : NoDup (ready w') /\ forall b, b <> a -> b ∈ ready w' <-> b ∈ ready w;
  fr_out : forall id b, b <> a -> out w' !! id = Some b <-> out w !! id = Some b;
  fr_idle : idle_connections w' = idle_connections w
}.

Lemma conn_ok_frame a w w' b c :
  frame a w w' -> b <> a ->
  conn_ok 0 false Rest (starved w) (ready w) (out w) b c ->
  conn_ok 0 false Rest (starved w') (ready w') (out w') b c.
Proof.
  intros [[_ Hs] [_ Hr] Ho _] Hb []. split; try done.
  - by rewrite Hs.
  - by rewrite Hr.
  - intros id. by rewrite Ho.
Qed.

(** The one lemma every store to a connection goes through. *)
Lemma inv_set a x0 t0 k0 x t k w w' c c' :
  Inv (Some (Foc a x0 t0 k0)) w -> conns w !! a = Some c -> frame a w w' ->
  conns w' = <[a := c']> (conns w) -> conn_free w' = conn_free w -> live w' = live w ->
  conn_ok x t k (starved w') (ready w') (out w') a c' ->
  Inv (Some (Foc a x t k)) w'.
Proof.
  intros [G1 G2 (G3 & G3' & G3'') G4 G5 G6] Hc Hfr Hcs Hfree Hlive Hok. pose proof Hfr as [Hs Hr Ho Hi]. split.
  - apply Hs.
  - apply Hr.
  - rewrite Hfree, Hi. split; [done|]. split; [|done]. intros b Hb. rewrite Hcs, lookup_insert_ne; [by apply G3'|].
    intros <-. rewrite G3' in Hc; done.
  - rewrite Hlive, G4, Hcs. rewrite map_size_insert. by rewrite Hc.
  - intros b Hb. rewrite Hcs. destruct (decide (b = a)) as [->|Hne]; [rewrite lookup_insert_eq; eauto|].
    rewrite lookup_insert_ne by done. apply G5. destruct Hb as [Hb|[Hb|[id Hb]]]; [left|right; left|right; right].
    + by apply Hs.
    + by apply Hr.
    + exists id. by apply Ho.
  - intros b cb. rewrite Hcs. unfold ok_in; cbn. case_decide as Hb.
    + subst b. rewrite lookup_insert_eq. by intros [= <-].
    + rewrite lookup_insert_ne by done. intros Hl. eapply conn_ok_frame; [done..|].
      specialize (G6 b cb Hl). unfold ok_in in G6. by rewrite decide_False in G6.
Qed.

(** The focused connection is at rest again, or gone. *)
Lemma inv_unfocus f w :
  Inv (Some f) w -> (f_x f = 0%Z /\ f_t f = false /\ f_k f = Rest \/ conns w !! f_a f = None) -> Inv None w.
Proof.
  intros [G1 G2 G3 G4 G5 G6] Hf. split; try done. intros b c Hb. specialize (G6 b c Hb). unfold ok_in in *.
  case_decide; [|done]. subst. destruct Hf as [(Hx & Ht & Hk)|Hn]; [by rewrite Hx, Ht, Hk in G6|congruence].
Qed.

Lemma inv_focus a w : Inv None w -> Inv (Some (Foc a 0 false Rest)) w.
Proof.
  intros [G1 G2 G3 G4 G5 G6]. split; try done. intros b c Hb. specialize (G6 b c Hb). unfold ok_in in *. by case_decide.
Qed.

Lemma inv_at f w c :
  Inv (Some f) w -> conns w !! f_a f = Some c ->
  conn_ok (f_x f) (f_t f) (f_k f) (starved w) (ready w) (out w) (f_a f) c.
Proof. intros [_ _ _ _ _ G6] Hc. specialize (G6 _ _ Hc). unfold ok_in in G6. by rewrite decide_True in G6. Qed.

Lemma frame_refl a w : NoDup (starved w) -> NoDup (ready w) -> frame a w w.
Proof. by split. Qed.

Lemma inv_frame f w : Inv (Some f) w -> frame (f_a f) w w.
Proof. intros []. by apply frame_refl. Qed.

(** Dropping a reference: the object lives on, or nothing of it is left anywhere and it is freed. *)
Lemma conn_unref_ok a x t k w c :
  Inv (Some (Foc a (x + 1) t k)) w -> conns w !! a = Some c -> (0 <= x)%Z ->
  exists w', conn_unref a w = Some w' /\ Inv (Some (Foc a x t k)) w' /\
    starved w' = starved w /\ draining w' = draining w /\ cancel_each w' = cancel_each w /\
    (conns w' = <[a := set_refs c (refs c - 1)]> (conns w) /\ refs c <> 1%Z \/
     refs c = 1%Z /\ conns w' = delete a (conns w)).
Proof.
  intros Hinv Hc Hx. pose proof (inv_at _ _ _ Hinv Hc) as Hok. cbn in Hok.
  unfold conn_unref. rewrite Hc. cbn [mbind option_bind]. destruct (Z.eqb_spec (refs c - 1) 0) as [H1|H1]; cbn [negb].
  - set (fr := if _ <? _ then _ else _).
    assert (Hlen : fr = a :: conn_free w /\ length (conn_free w) < idle_connections w \/
                   fr = conn_free w /\ idle_connections w <= length (conn_free w)).
    { unfold fr. case_test; auto with lia. }
    clearbody fr. eexists; split; [done|]. destruct Hok. rewrite ok_refs0 in H1.
    assert (closed c = true /\ recv c = RECV_DONE) as [Hcl Hd].
    { destruct (closed c), (bool_decide_reflect (recv c = RECV_DONE)); cbn in H1; try lia. done. }
    destruct (ok_gone0 Hcl) as (Hrx & Hh & _). unfold ids in *. rewrite Hrx, Hh in *. cbn in *.
    assert (a ∉ starved w) by (rewrite ok_starved0, Hd; done).
    assert (a ∉ ready w) by (rewrite ok_ready0; intros Hf; rewrite Hf in ok_closed0; rewrite Hcl in ok_closed0; done).
    assert (forall id, out w !! id <> Some a) by (intros id Hid; apply ok_out0 in Hid; set_solver).
    destruct Hinv as [G1 G2 (G3 & G3' & G3'') G4 G5 G6]. cbn in G6. split; [|cbn; split_and!; try done; right; split; [lia|done]].
    split; cbn; try done.
    + assert (a ∉ conn_free w) by (intros Hin; rewrite G3' in Hc; done).
      destruct Hlen as [[-> Hlen]|[-> Hlen]].
      * split; [by constructor|]. split; [|simpl; lia]. intros b [->|Hb]%elem_of_cons; [by rewrite lookup_delete_eq|].
        rewrite lookup_delete_ne by set_solver. by apply G3'.
      * split; [done|]. split; [|done]. intros b Hb. rewrite lookup_delete_ne by set_solver. by apply G3'.
    + rewrite map_size_delete_Some by eauto. rewrite G4. lia.
    + intros b Hb. rewrite lookup_delete_ne; [by apply G5|]. intros <-. naive_solver.
    + intros b cb. destruct (decide (b = a)) as [->|Hb]; [by rewrite lookup_delete_eq|].
      rewrite lookup_delete_ne by done. intros Hl. specialize (G6 b cb Hl). unfold ok_in in *. cbn in *.
      by rewrite decide_False in * by done.
  - eexists; split; [done|]. split; [|cbn; split_and!; try done; left; split; [done|lia]].
    eapply inv_set; [done|done| |done..|]; [by apply inv_frame in Hinv as []|].
    destruct Hok. split; cbn; try done; lia.
Qed.

Lemma return_all_spec l w :
  NoDup l -> (forall id, id ∈ l -> is_Some (out w !! id)) ->
  exists O r, return_all l w = Some (set_out w O r) /\
              (forall id, O !! id = if decide (id ∈ l) then None else out w !! id).
Proof.
  revert w. induction l as [|id l IH]; intros w Hnd Hin; cbn [return_all].
  { exists (out w), (returned w). split; [by destruct w|]. done. }
  apply NoDup_cons in Hnd as [Hid Hnd]. unfold bufring_return.
  destruct (Hin id ltac:(set_solver)) as [b Hb]. rewrite Hb. cbn [mbind option_bind].
  destruct (IH (set_out w (delete id (out w)) (S (returned w)))) as (O & r & Heq & HO); [done| |].
  { intros id' Hid'. cbn. rewrite lookup_delete_ne by set_solver. apply Hin. set_solver. }
  exists O, r. rewrite Heq. split; [done|]. intros id'. rewrite HO. cbn.
  destruct (decide (id' = id)) as [->|Hne].
  - rewrite decide_False by done. rewrite (decide_True (P := id ∈ id :: l)) by set_solver. by rewrite lookup_delete_eq.
  - rewrite lookup_delete_ne by done. case_decide.
    + by rewrite decide_True by set_solver.
    + by rewrite decide_False by set_solver.
Qed.

Lemma remove_first_spec a l :
  NoDup l -> NoDup (remove_first a l) /\ forall b, b ∈ remove_first a l <-> b ∈ l /\ b <> a.
Proof.
  induction l as [|x l IH]; intros Hnd; cbn [remove_first]; [set_solver|].
  apply NoDup_cons in Hnd as [Hx Hnd]. destruct (IH Hnd) as [IH1 IH2].
  destruct (Nat.eqb_spec x a) as [->|Hne]; [split; [done|]; set_solver|].
  split; [|set_solver]. constructor; [|done]. rewrite IH2. naive_solver.
Qed.

(** Tests of a known recv state or place. *)
Ltac absurd_test H :=
  try discriminate H; try (destruct H as [H|H]; discriminate H);
  try (exfalso; apply H; (reflexivity || (left; reflexivity) || (right; reflexivity))).
Ltac dec :=
  repeat match goal with
  | |- context [decide ?P] => let H := fresh "Hd" in destruct (decide P) as [H|H]; absurd_test H; try clear H
  | |- context [bool_decide ?P] => let H := fresh "Hd" in destruct (bool_decide_reflect P) as [H|H]; absurd_test H; try clear H
  end.

(** What resuming a coroutine leaves alone: the recv of its connection while it is armed, or done with
the loop's reference still counted. *)
Definition keeps (x : Z) (a : nat) (c : conn) (w w' : worker) : Prop :=
  draining w' = draining w /\ cancel_each w' = cancel_each w /\
  (recv c = RECV_ARMED -> exists c', conns w' !! a = Some c' /\ recv c' = RECV_ARMED) /\
  (recv c = RECV_DONE -> starved w' = starved w /\
     ((0 < x)%Z -> exists c', conns w' !! a = Some c' /\ recv c' = RECV_DONE)).

(** The state a closing connection is in when its last reference of its own is dropped. *)
Definition closing (c : conn) : conn :=
  {| fd := fd c; certs := certs c; waiter := waiter c; rx := []; 
     recv := if decide (recv c = RECV_ARMED) then RECV_ARMED else RECV_DONE; pausing := pausing c;
     cancelling := if decide (recv c = RECV_ARMED) then true else cancelling c;
     refs := if decide (recv c = RECV_STARVED \/ recv c = RECV_PAUSED) then (refs c - 1)%Z else refs c;
     closed := true; eof := eof c; err := err c;
     co := co c; at_ := Ended; held := held c; got := got c; arrived := arrived c; inflight := inflight c |}.

(** Two stores of the same connection: field by field, the tests of the closing state settled. *)
Ltac by_fields :=
  repeat case_decide; try (exfalso; naive_solver); try done; f_equal;
  unfold set_rx, set_refs, set_recv, set_cancelling, set_closed;
  match goal with c : conn |- _ => destruct c; cbn in *; congruence end.

Lemma conn_close_spec a w c :
  conns w !! a = Some c -> NoDup (starved w) -> NoDup (buf_id <$> rx c) ->
  (forall id, id ∈ buf_id <$> rx c -> is_Some (out w !! id)) ->
  exists w1, ioxd__conn_close a w = conn_unref a w1 /\
    conns w1 = <[a := closing c]> (conns w) /\ conn_free w1 = conn_free w /\ live w1 = live w /\
    idle_connections w1 = idle_connections w /\ ready w1 = ready w /\
    draining w1 = draining w /\ cancel_each w1 = cancel_each w /\
    (starved w1 = if decide (recv c = RECV_STARVED) then remove_first a (starved w) else starved w) /\
    (forall id, out w1 !! id = if decide (id ∈ buf_id <$> rx c) then None else out w !! id).
Proof.
  intros Hc Hnd Hrx Hids.
  unfold ioxd__conn_close, upd. rewrite Hc. cbn [mbind option_bind conns set_conns].
  rewrite lookup_insert_eq. cbn [mbind option_bind].
  change (recv (set_closed c)) with (recv c). change (rx (set_closed c)) with (rx c).
  unfold closing. destruct (recv c) eqn:Er;
    repeat (case_decide as Hd; [try (exfalso; clear -Hd; naive_solver)|try (exfalso; clear -Hd; naive_solver)]; clear Hd);
    unfold cancel_recv; cbn [conns set_conns starved_remove set_starved]; rewrite ?lookup_insert_eq; cbn [mbind option_bind].
  - change (cancelling (set_closed c)) with (cancelling c).
    destruct (cancelling c) eqn:Ecan; cbn [mbind option_bind];
    (match goal with |- context [return_all ?l ?w0] => destruct (return_all_spec l w0 Hrx Hids) as (O & r & -> & HO) end);
    cbn [mbind option_bind conns set_conns set_out stage]; rewrite lookup_insert_eq; cbn [mbind option_bind];
    eexists; (split; [reflexivity|]); cbn; rewrite !insert_insert_eq; split_and!; try done; by_fields.
  - unfold upd; cbn [conns set_starved]; rewrite ?lookup_insert_eq. cbn [mbind option_bind].
    (match goal with |- context [return_all ?l ?w0] => destruct (return_all_spec l w0 Hrx Hids) as (O & r & -> & HO) end).
    cbn [mbind option_bind conns set_conns set_out stage set_starved]; rewrite !lookup_insert_eq; cbn [mbind option_bind].
    eexists; (split; [reflexivity|]); cbn; rewrite !insert_insert_eq; split_and!; try done; by_fields.
  - (match goal with |- context [return_all ?l ?w0] => destruct (return_all_spec l w0 Hrx Hids) as (O & r & -> & HO) end).
    cbn [mbind option_bind conns set_conns set_out stage set_starved]; rewrite !lookup_insert_eq; cbn [mbind option_bind].
    eexists; (split; [reflexivity|]); cbn; rewrite !insert_insert_eq; split_and!; try done; by_fields.
  - (match goal with |- context [return_all ?l ?w0] => destruct (return_all_spec l w0 Hrx Hids) as (O & r & -> & HO) end).
    cbn [mbind option_bind conns set_conns set_out stage set_starved]; rewrite !lookup_insert_eq; cbn [mbind option_bind].
    eexists; (split; [reflexivity|]); cbn; rewrite !insert_insert_eq; split_and!; try done; by_fields.
Qed.

Lemma conn_main_end_ok a x t w c :
  Inv (Some (Foc a x t Run)) w -> conns w !! a = Some c -> (0 <= x)%Z ->
  exists w', conn_main_end a w = Some w' /\ Inv (Some (Foc a x t Rest)) w' /\ keeps x a c w w'.
Proof.
  intros Hinv Hc Hx. pose proof (inv_at _ _ _ Hinv Hc) as Hok. cbn in Hok.
  pose proof (inv_frame _ _ Hinv) as [[Hns _] [Hnr _] _ _].
  destruct Hok. unfold conn_main_end. rewrite Hc. cbn [mbind option_bind].
  unfold ids in *. rewrite fmap_app in ok_ids0, ok_out0. apply NoDup_app in ok_ids0 as (Hn1 & Hdis & Hn2).
  destruct (return_all_spec (buf_id <$> held c) w Hn2) as (O & r & -> & HO).
  { intros id Hid. exists a. apply ok_out0. set_solver. }
  unfold upd. cbn [mbind option_bind conns set_out]. rewrite Hc. cbn [mbind option_bind].
  set (c1 := set_held c (rx c) [] (got c)). set (w1 := set_conns _ _).
  destruct (conn_close_spec a w1 c1) as (w2 & -> & Hc2 & Hf2 & Hl2 & Hi2 & Hr2 & Hd2 & He2 & Hs2 & Ho2).
  { unfold w1. cbn. by rewrite lookup_insert_eq. }
  { done. } { done. }
  { unfold w1, c1. cbn. intros id Hid. rewrite HO, decide_False by naive_solver. exists a. apply ok_out0. set_solver. }
  unfold w1 in Hc2. cbn in Hc2. rewrite insert_insert_eq in Hc2.
  cbn in Hf2, Hl2, Hi2, Hr2, Hd2, He2, Hs2, Ho2.
  destruct (remove_first_spec a (starved w) Hns) as [Hrn Hrm].
  assert (HoutF : forall id b, out w2 !! id = Some b <-> out w !! id = Some b /\ b <> a).
  { intros id b. rewrite Ho2, HO. destruct (decide (id ∈ buf_id <$> rx c)); [|destruct (decide (id ∈ buf_id <$> held c))].
    - split; [done|]. intros [Hb Hne]. assert (out w !! id = Some a) by (apply ok_out0; set_solver). congruence.
    - split; [done|]. intros [Hb Hne]. assert (out w !! id = Some a) by (apply ok_out0; set_solver). congruence.
    - split; [intros Hb; split; [done|]; intros ->; apply ok_out0 in Hb; set_solver|naive_solver]. }
  assert (Hst : NoDup (starved w2) /\ (forall b, b ∈ starved w2 <-> b ∈ starved w /\ b <> a)).
  { rewrite Hs2. destruct (decide (recv c = RECV_STARVED)) as [Hd|Hd]; [done|]. split; [done|]. intros b. split; [|naive_solver].
    intros Hb. split; [done|]. intros ->. by apply ok_starved0 in Hb. }
  assert (Hinv2 : Inv (Some (Foc a (x + 1) t Rest)) w2).
  { eapply (inv_set a x t Run); [done|done| |done..|].
    - split; [|rewrite Hr2| |done]; [split; [apply Hst|]|split; [done|tauto]|].
      + intros b Hb. rewrite (proj2 Hst). naive_solver.
      + intros id b Hb. rewrite HoutF. naive_solver.
    - assert (closed c = false) as Hcl by (by rewrite ok_closed0, ok_kind0).
      assert (pausing c = false) as Hp by (destruct (pausing c); [specialize (ok_pausing0 eq_refl); congruence|done]).
      rewrite Hcl in ok_refs0. rewrite Hp in *. split; cbn; try done.
      + rewrite ok_refs0. clear. destruct (recv c); dec; cbn; lia.
      + rewrite ok_refs0. clear -Hx. destruct (recv c); dec; cbn; lia.
      + rewrite ok_inflight0. clear. destruct (recv c); dec; done.
      + rewrite (proj2 Hst). clear. destruct (recv c); dec; naive_solver.
      + rewrite Hr2, ok_ready0, ok_kind0. done.
      + rewrite ok_waiter0, ok_kind0. done.
      + intros _. rewrite Hp. split_and!; try done. clear. destruct (recv c); dec; [left; auto|right; done..].
      + lia.
      + constructor.
      + intros id. rewrite HoutF. unfold ids. cbn. set_solver.
      + intros He Hee. rewrite (ok_ended0 He Hee). dec. done.
      + by rewrite Hp. }
  assert (Hc2' : conns w2 !! a = Some (closing c1)) by (by rewrite Hc2, lookup_insert_eq).
  destruct (conn_unref_ok a x t Rest w2 _ Hinv2 Hc2' Hx) as (w3 & Hw3 & Hinv3 & Hst3 & Hd3 & He3 & Hcase).
  exists w3. split; [done|]. split; [done|]. split; [congruence|]. split; [congruence|].
  assert (Hrefs : recv c = RECV_ARMED \/ (recv c = RECV_DONE /\ (0 < x)%Z) -> refs (closing c1) <> 1%Z).
  { assert (closed c = false) as Hcl by (by rewrite ok_closed0, ok_kind0). rewrite Hcl in ok_refs0. cbn.
    rewrite ok_refs0. clear -Hx. intros [->|[-> Hxx]]; dec; cbn; lia. }
  split.
  - intros Ha. destruct Hcase as [[-> _]|[H1 _]]; [|tauto]. rewrite lookup_insert_eq. eexists; split; [done|].
    cbn. by rewrite Ha.
  - intros Ha. rewrite Hst3, Hs2, decide_False by (cbn; congruence). split; [done|]. intros Hxx.
    destruct Hcase as [[-> _]|[H1 _]]; [|tauto]. rewrite lookup_insert_eq. eexists; split; [done|].
    cbn. by rewrite Ha.
Qed.

Definition put (a : nat) (c : conn) (w : worker) : worker := set_conns w (<[a := c]> (conns w)).

Lemma upd_put a f w c : conns w !! a = Some c -> upd a f w = Some (put a (f c) w).
Proof. intros Hc. unfold upd. by rewrite Hc. Qed.

Lemma put_at a c w : conns (put a c w) !! a = Some c.
Proof. cbn. by rewrite lookup_insert_eq. Qed.

Lemma put_put a c c' w : put a c' (put a c w) = put a c' w.
Proof. unfold put, set_conns. cbn. by rewrite insert_insert_eq. Qed.

Lemma inv_put a x t k x' t' k' c c' w :
  Inv (Some (Foc a x t k)) w -> conns w !! a = Some c ->
  (conn_ok x t k (starved w) (ready w) (out w) a c -> conn_ok x' t' k' (starved w) (ready w) (out w) a c') ->
  Inv (Some (Foc a x' t' k')) (put a c' w).
Proof.
  intros Hinv Hc Hok. eapply (inv_set a x t k); [done|done| |done|done|done|].
  - apply inv_frame in Hinv as []. by split.
  - apply Hok. exact (inv_at _ _ _ Hinv Hc).
Qed.

Lemma keeps_step x a c c1 w w1 w' :
  recv c1 = recv c -> draining w1 = draining w -> cancel_each w1 = cancel_each w -> starved w1 = starved w ->
  keeps x a c1 w1 w' -> keeps x a c w w'.
Proof. unfold keeps. intros -> -> -> ->. done. Qed.

Lemma keeps_put x a c c1 w : recv c1 = recv c -> keeps x a c w (put a c1 w).
Proof.
  intros Hr. unfold keeps. rewrite put_at. cbn. split; [done|]. split; [done|].
  split; intros Ha; [by exists c1; rewrite Hr|]. split; [done|]. intros _. by exists c1; rewrite Hr.
Qed.

(** What the items a handler owns and the queue hold may move between the two. *)
Lemma ok_take_item x t S R O a c i rx' :
  rx c = i :: rx' -> conn_ok x t Run S R O a c ->
  conn_ok x t Run S R O a (set_held c rx' (held c ++ [i]) (got c ++ [i])).
Proof.
  intros Hrx []. assert (Hp : ids (set_held c rx' (held c ++ [i]) (got c ++ [i])) ≡ₚ ids c).
  { unfold ids. cbn. rewrite Hrx. apply fmap_Permutation. cbn. rewrite app_assoc. by rewrite Permutation_app_comm. }
  split; cbn; try done.
  - rewrite ok_closed0. intros Hcl. by rewrite ok_kind0 in Hcl.
  - rewrite Hrx in ok_rx0. simpl in ok_rx0. lia.
  - by rewrite Hp.
  - intros id. by rewrite ok_out0, Hp.
  - intros Hcl Hd. rewrite (ok_stream0 Hcl Hd), Hrx, <- app_assoc. done.
Qed.

Lemma ok_return_item x t S R O a c i it :
  held c !! i = Some it -> conn_ok x t Run S R O a c ->
  O !! buf_id it = Some a /\
  conn_ok x t Run S R (delete (buf_id it) O) a (set_held c (rx c) (take i (held c) ++ drop (Datatypes.S i) (held c)) (got c)).
Proof.
  intros Hi []. set (c' := set_held _ _ _ _).
  assert (Hp : ids c ≡ₚ buf_id it :: ids c').
  { unfold ids, c'. cbn. rewrite !fmap_app. rewrite <- (take_drop_middle _ _ _ Hi) at 1. rewrite fmap_app, fmap_cons.
    by rewrite app_assoc, <- Permutation_middle, <- app_assoc. }
  rewrite Hp in ok_ids0. apply NoDup_cons in ok_ids0 as [Hni Hnd].
  split; [apply ok_out0; rewrite Hp; by left|]. split; cbn; try done.
  - rewrite ok_closed0. intros Hcl. by rewrite ok_kind0 in Hcl.
  - intros id. destruct (decide (id = buf_id it)) as [->|Hne]; [rewrite lookup_delete_eq; naive_solver|].
    rewrite lookup_delete_ne by done. rewrite ok_out0, Hp. set_solver.
Qed.

(** A running coroutine whose connection is armed, done or paused changes nothing in the recv by waiting
for it; starved, it leaves the list. *)
Lemma pause_tail_ok a x t w c :
  Inv (Some (Foc a x t Run)) w -> conns w !! a = Some c ->
  exists r w', pause_tail a w = Some (r, w') /\ Inv (Some (Foc a x t Run)) w' /\
    draining w' = draining w /\ cancel_each w' = cancel_each w /\
    exists c', conns w' !! a = Some c' /\
      (recv c <> RECV_STARVED -> w' = w) /\ (recv c = RECV_STARVED -> recv c' = RECV_PAUSED).
Proof.
  intros Hinv Hc. unfold pause_tail. rewrite Hc. cbn [mbind option_bind].
  destruct (decide (recv c = RECV_STARVED)) as [Hs|Hs].
  - set (w1 := starved_remove a w). rewrite (upd_put a _ w1 c Hc). cbn [mbind option_bind]. rewrite put_at. cbn [mbind option_bind].
    eexists _, _. split; [reflexivity|]. split; [|cbn; rewrite lookup_insert_eq; naive_solver].
    pose proof (inv_frame _ _ Hinv) as [[Hns _] [Hnr _] _ _]. pose proof (inv_at _ _ _ Hinv Hc) as []. cbn in *.
    destruct (remove_first_spec a (starved w) Hns) as [Hn Hm].
    eapply (inv_set a x t Run); [done|done| |done|done|done|].
    + split; cbn; try done. split; [done|]. intros b Hb. rewrite Hm. naive_solver.
    + rewrite Hs in *. split; cbn; try done.
      * rewrite Hm. naive_solver.
      * rewrite ok_closed0. intros Hcl. by rewrite ok_kind0 in Hcl.
      * intros He Hee. by specialize (ok_ended0 He Hee).
  - cbn [mbind option_bind]. rewrite Hc. cbn [mbind option_bind]. eexists _, w. split; [done|]. naive_solver.
Qed.

Lemma arm_ok a x k w c :
  Inv (Some (Foc a x false k)) w -> conns w !! a = Some c -> closed c = false -> eof c = false ->
  recv c = RECV_PAUSED ->
  (k = Run) ->
  exists w', ioxd__conn_arm_recv a w = Some w' /\ Inv (Some (Foc a x false k)) w' /\
    draining w' = draining w /\ cancel_each w' = cancel_each w /\ starved w' = starved w /\
    exists c', conns w' !! a = Some c' /\ recv c' = RECV_ARMED.
Proof.
  intros Hinv Hc Hcl He Hr ->. unfold ioxd__conn_arm_recv. rewrite Hc. cbn [mbind option_bind].
  eexists. split; [reflexivity|]. split; [|cbn; rewrite lookup_insert_eq; naive_solver].
  eapply (inv_put _ _ _ _ x false Run _ (set_inflight (set_cancelling (set_recv c RECV_ARMED (pausing c)) false) true)) in Hinv; [|done|].
  - destruct Hinv. by split.
  - intros []. rewrite Hr in *. split; cbn; try done.
    + by rewrite ok_starved0.
    + intros Hcl'. congruence.
    + intros He'. congruence.
Qed.

Lemma recv_resume_ok a x t w c :
  Inv (Some (Foc a x t Run)) w -> conns w !! a = Some c -> (t = true -> recv c = RECV_ARMED) -> (0 <= x)%Z ->
  exists r w' c', ioxd__conn_recv_resume a w = Some (r, w') /\ Inv (Some (Foc a x t Run)) w' /\
    conns w' !! a = Some c' /\ (recv c <> RECV_PAUSED -> w' = w) /\
    draining w' = draining w /\ cancel_each w' = cancel_each w.
Proof.
  intros Hinv Hc Ht Hx. unfold ioxd__conn_recv_resume. rewrite Hc. cbn [mbind option_bind].
  destruct (bool_decide_reflect (recv c = RECV_PAUSED)) as [Hp|Hp]; cbn [negb orb]; [|eexists _, w, c; by split_and!].
  destruct (eof c) eqn:He; cbn [orb]; [eexists _, w, c; by split_and!|].
  destruct (closed c) eqn:Hcl; [eexists _, w, c; by split_and!|].
  destruct t; [by rewrite Ht in Hp|].
  destruct (draining w) eqn:Hd.
  - rewrite (upd_put _ _ _ _ Hc). cbn [mbind option_bind].
    eapply (inv_put _ _ _ _ (x + 1) false Run c (set_recv (end_input (- ECANCELED) c) RECV_DONE (pausing c))) in Hinv; [|done|].
    + destruct (conn_unref_ok a x false Run _ _ Hinv (put_at _ _ _) Hx) as (w' & -> & Hinv' & _ & Hd' & He' & Hcase).
      cbn [mbind option_bind].
      destruct Hcase as [[Hcs _]|[H1 _]].
      * eexists _, w', _. split; [done|]. split; [done|]. rewrite Hcs. split; [by rewrite lookup_insert_eq|].
        split; [congruence|]. split; [cbn in Hd'; congruence|done].
      * exfalso. pose proof (inv_at _ _ _ Hinv (put_at _ _ _)) as [].
        rewrite H1 in ok_refs0. unfold end_input in ok_refs0. rewrite He in ok_refs0. cbn [closed set_recv set_eof recv] in ok_refs0.
        rewrite Hcl in ok_refs0. clear -ok_refs0 Hx. destruct (bool_decide _); cbn in ok_refs0; lia.
    + unfold end_input. rewrite He. intros []. rewrite Hp, He in *. split; cbn; try done.
      * rewrite ok_refs0. clear. dec; cbn; lia.
      * by rewrite ok_starved0.
      * congruence.
      * intros _ [|Hee]; [done|]. apply ok_stream0; auto.
  - destruct (arm_ok a x Run w c) as (w' & -> & Hinv' & Hd' & He' & _ & c' & Hc' & _); [done..|].
    cbn [mbind option_bind]. eexists _, w', c'. split_and!; try done; congruence.
Qed.

(** A step that changed the recv: only of a connection neither armed nor done. *)
Lemma keeps_moved x a c c1 w w1 w' :
  recv c <> RECV_ARMED -> recv c <> RECV_DONE -> draining w1 = draining w -> cancel_each w1 = cancel_each w ->
  keeps x a c1 w1 w' -> keeps x a c w w'.
Proof. unfold keeps. intros ? ? -> ->. naive_solver. Qed.

Lemma cancel_recv_put a w c :
  conns w !! a = Some c ->
  exists sq, cancel_recv a w = Some (fold_left stage sq (put a (set_cancelling c true) w)).
Proof.
  intros Hc. unfold cancel_recv. rewrite Hc. cbn [mbind option_bind]. destruct (cancelling c) eqn:E.
  - exists []. cbn. f_equal. unfold put, set_conns. rewrite insert_id; [by destruct w|]. rewrite Hc. f_equal.
    destruct c; cbn in *; by subst.
  - by exists [SQ_CANCEL a].
Qed.

(** Staging an SQE changes nothing else. *)
Lemma stage_fields sq w :
  let w' := fold_left stage sq w in
  conns w' = conns w /\ conn_free w' = conn_free w /\ live w' = live w /\ starved w' = starved w /\
  ready w' = ready w /\ out w' = out w /\ idle_connections w' = idle_connections w /\
  draining w' = draining w /\ cancel_each w' = cancel_each w.
Proof. revert w. induction sq as [|s sq IH]; intros w; [done|]. apply (IH (stage w s)). Qed.

Lemma inv_stage m sq w : Inv m w -> Inv m (fold_left stage sq w).
Proof.
  pose proof (stage_fields sq w) as (H1 & H2 & H3 & H4 & H5 & H6 & H7 & _). cbn in *.
  intros [G1 G2 G3 G4 G5 G6]. split.
  - by rewrite H4.
  - by rewrite H5.
  - by rewrite H1, H2, H7.
  - by rewrite H1, H3.
  - rewrite H1, H4, H5, H6. done.
  - intros b c. rewrite H1. intros Hb. specialize (G6 b c Hb). unfold ok_in in *. by rewrite H4, H5, H6.
Qed.

Lemma ok_pausing_park x t S R O a c k :
  recv c = RECV_ARMED -> conn_ok x t Run S R O a c ->
  conn_ok x t Rest S R O a (park (set_cancelling (set_recv c (recv c) true) true) k OnPause true).
Proof.
  intros Hr []. assert (closed c = false) as Hcl by (by rewrite ok_closed0, ok_kind0).
  rewrite Hr, ok_kind0 in *. split; cbn; try done; try congruence.
  - rewrite ok_ready0. done.
  - split; [done|]. split; [done|auto].
Qed.

Lemma ok_park x t S R O a c k pl wt :
  conn_ok x t Run S R O a c ->
  (pl = OnRx /\ wt = true /\ rx c = [] /\ eof c = false \/ pl = OnOp /\ wt = false) ->
  conn_ok x t Rest S R O a (park c k pl wt).
Proof.
  intros [] Hpl. assert (closed c = false) as Hcl by (by rewrite ok_closed0, ok_kind0).
  assert (pausing c = false) as Hp by (destruct (pausing c); [specialize (ok_pausing0 eq_refl); congruence|done]).
  rewrite ok_kind0 in *. destruct Hpl as [(-> & -> & Hrx & He)|[-> ->]]; split; cbn; try done; try congruence;
    rewrite ok_ready0; done.
Qed.

(** Resuming a coroutine: it runs to its next await or to its end, and the invariant is restored. *)
Lemma run_co_ok acts : forall a x t w c,
  Inv (Some (Foc a x t Run)) w -> conns w !! a = Some c -> (t = true -> recv c = RECV_ARMED) -> (0 <= x)%Z ->
  exists w', run_co acts a w = Some w' /\ Inv (Some (Foc a x t Rest)) w' /\ keeps x a c w w'.
Proof.
  induction acts as [|act k IH]; intros a x t w c Hinv Hc Ht Hx; cbn [run_co]; [by apply conn_main_end_ok|].
  destruct act as [|i| | |]; try (rewrite Hc; cbn [mbind option_bind]).
  - destruct (rx c) as [|i rx'] eqn:Hrx.
    + destruct (eof c) eqn:He.
      * by eapply IH.
      * rewrite (upd_put _ _ _ _ Hc). eexists; split; [done|]. split; [|by apply keeps_put].
        eapply inv_put; [done..|]. intros Hok. apply ok_park; auto.
    + rewrite (upd_put _ _ _ _ Hc). cbn [mbind option_bind].
      destruct (IH a x t (put a (set_held c rx' (held c ++ [i]) (got c ++ [i])) w) (set_held c rx' (held c ++ [i]) (got c ++ [i])))
        as (w' & -> & Hinv' & Hk); [|apply put_at|done..|].
      * eapply inv_put; [done..|]. by apply ok_take_item.
      * eexists; split; [done|]. split; [done|]. by eapply keeps_step; [..|exact Hk].
  - destruct (held c !! i) as [it|] eqn:Hit; [|by eapply IH].
    pose proof (ok_return_item _ _ _ _ _ _ _ _ _ Hit (inv_at _ _ _ Hinv Hc)) as [Ho Hok]. cbn in Ho.
    unfold bufring_return. rewrite Ho. cbn [mbind option_bind].
    set (w1 := set_out w _ _). rewrite (upd_put a _ w1 c Hc). cbn [mbind option_bind].
    set (c1 := set_held _ _ _ _) in *.
    destruct (IH a x t (put a c1 w1) c1) as (w' & -> & Hinv' & Hk); [|apply put_at|done..|].
    + pose proof (inv_frame _ _ Hinv) as [[Hns _] [Hnr _] _ _].
      eapply (inv_set a x t Run); [exact Hinv|exact Hc| |done|done|done|done].
      split; cbn; try done. intros id b Hb. destruct (decide (id = buf_id it)) as [->|Hne].
      * rewrite lookup_delete_eq. split; [done|congruence].
      * by rewrite lookup_delete_ne.
    + eexists; split; [done|]. split; [done|]. by eapply keeps_step; [..|exact Hk].
  - destruct (decide (recv c = RECV_ARMED)) as [Ha|Ha].
    + rewrite (upd_put _ _ _ _ Hc). cbn [mbind option_bind].
      set (c1 := set_recv c (recv c) true). destruct (cancel_recv_put a (put a c1 w) c1 (put_at _ _ _)) as (sq & ->).
      cbn [mbind option_bind]. rewrite put_put.
      set (w2 := fold_left stage sq _). pose proof (stage_fields sq (put a (set_cancelling c1 true) w)) as (E1 & _ & _ & E2 & _ & _ & _ & E3 & E4).
      fold w2 in E1, E2, E3, E4.
      rewrite (upd_put a _ w2 (set_cancelling c1 true)) by (rewrite E1; apply put_at).
      eexists; split; [done|]. split.
      * replace (put a _ w2) with (fold_left stage sq (put a (park (set_cancelling c1 true) k OnPause true) w)).
        { apply inv_stage. eapply inv_put; [done..|]. by apply ok_pausing_park. }
        unfold w2. clear. generalize (set_cancelling c1 true) as c2. intros c2. generalize w as w0.
        induction sq as [|s sq IH]; intros w0; cbn [fold_left]; [by rewrite put_put|].
        change (stage (put a ?x w0) s) with (put a x (stage w0 s)). apply IH.
      * destruct (keeps_put x a c (park (set_cancelling c1 true) k OnPause true) w eq_refl) as (_ & _ & Hk1 & Hk2).
        split; [cbn; by rewrite E3|]. split; [cbn; by rewrite E4|]. split; [intros _|congruence].
        eexists. split; [apply put_at|done].
    + destruct (pause_tail_ok a x t w c Hinv Hc) as (r & w1 & -> & Hinv1 & Hd1 & He1 & c1 & Hc1 & Hsame & Hst).
      cbn [mbind option_bind].
      destruct (IH a x t w1 c1) as (w' & Hrun & Hinv' & Hk); [done|done|intros ->; by rewrite Ht in Ha|done|].
      exists w'. split; [done|]. split; [done|]. destruct (decide (recv c = RECV_STARVED)) as [Hs|Hs].
      * eapply keeps_moved; [..|exact Hk]; congruence.
      * rewrite Hsame in * by done. rewrite Hc in Hc1. injection Hc1 as <-. done.
  - destruct (recv_resume_ok a x t w c Hinv Hc Ht Hx) as (r & w1 & c1 & -> & Hinv1 & Hc1 & Hsame & Hd1 & He1).
    cbn [mbind option_bind]. destruct (decide (recv c = RECV_PAUSED)) as [Hp|Hp].
    + destruct (IH a x t w1 c1) as (w' & Hrun & Hinv' & Hk); [done|done|intros ->; by rewrite Ht in Hp|done|].
      exists w'. split; [done|]. split; [done|]. eapply keeps_moved; [..|exact Hk]; congruence.
    + rewrite Hsame by done. by eapply IH.
  - rewrite (upd_put _ _ _ _ Hc). eexists; split; [done|]. split; [|by apply keeps_put].
    eapply inv_put; [done..|]. intros Hok. apply ok_park; auto.
Qed.

Lemma ok_run x t k S R R' O a c c' :
  conn_ok x t k S R O a c -> closed c = false -> c' = set_recv (park c [] Running false) (recv c) false ->
  (a ∉ R') -> conn_ok x t Run S R' O a c'.
Proof.
  intros [] Hcl -> HR. split; cbn; try done; try congruence.
Qed.

(** The coroutine of a connection that is not being paused runs. *)
Lemma run_from a x t k w c acts :
  Inv (Some (Foc a x t k)) w -> conns w !! a = Some c -> closed c = false -> pausing c = false -> a ∉ ready w ->
  (t = true -> recv c = RECV_ARMED) -> (0 <= x)%Z ->
  exists w', run_co acts a (put a (park c [] Running false) w) = Some w' /\ Inv (Some (Foc a x t Rest)) w' /\ keeps x a c w w'.
Proof.
  intros Hinv Hc Hcl Hp Hr Ht Hx. set (c1 := park c [] Running false).
  destruct (run_co_ok acts a x t (put a c1 w) c1) as (w' & Hw & Hinv' & Hk); [|apply put_at|done|done|].
  - eapply inv_put; [done..|]. intros Hok. eapply (ok_run x t k _ _ _ _ a c); [exact Hok|done| |done].
    unfold c1, set_recv, park. cbn. by rewrite Hp.
  - exists w'. split; [done|]. split; [done|]. by eapply keeps_step; [..|exact Hk].
Qed.

Lemma wake_ok a x t w c :
  Inv (Some (Foc a x t Woke)) w -> conns w !! a = Some c -> (t = true -> recv c = RECV_ARMED) -> (0 <= x)%Z ->
  exists w', wake_reader a w = Some w' /\ Inv (Some (Foc a x t Rest)) w' /\ keeps x a c w w'.
Proof.
  intros Hinv Hc Ht Hx. pose proof (inv_at _ _ _ Hinv Hc) as Hok. cbn in Hok. pose proof Hok as [].
  unfold wake_reader. rewrite Hc. cbn [mbind option_bind]. destruct ok_kind0 as [Hnr Hpz].
  destruct (waiter c) eqn:Hw.
  - symmetry in ok_waiter0. apply bool_decide_eq_true in ok_waiter0.
    assert (closed c = false) as Hcl.
    { rewrite ok_closed0. apply bool_decide_eq_false. destruct ok_waiter0; congruence. }
    assert (a ∉ ready w) as Hra by (rewrite ok_ready0; destruct ok_waiter0; congruence).
    unfold coro_resume. change (set_conns w _) with (put a (set_waiter c false) w). rewrite put_at.
    cbn [mbind option_bind]. change (set_conns (put a ?c0 w) _) with (put a (park (set_waiter c false) [] Running false) (put a c0 w)).
    rewrite put_put. change (park (set_waiter c false) [] Running false) with (park c [] Running false).
    change (at_ (set_waiter c false)) with (at_ c). change (co (set_waiter c false)) with (co c).
    destruct (decide (at_ c = OnPause)) as [Hpl|Hpl].
    + unfold pause_wait. rewrite put_at. cbn [mbind option_bind]. change (recv (park c [] Running false)) with (recv c).
      destruct (decide (recv c = RECV_ARMED)) as [Ha|Ha].
      * rewrite (upd_put _ _ _ _ (put_at _ _ _)), put_put. eexists; split; [reflexivity|]. split; [|by apply keeps_put].
        eapply inv_put; [done..|]. intros _. destruct (Hpz Hpl Ha) as [Hp1 Hp2]. split; cbn; try done; try congruence.
      * rewrite (upd_put _ _ _ _ (put_at _ _ _)), put_put. cbn [mbind option_bind].
        change (set_recv (park c [] Running false) _ false) with (set_recv (park c [] Running false) (recv c) false).
        set (c1 := set_recv _ _ _).
        assert (Hinv1 : Inv (Some (Foc a x t Run)) (put a c1 w)).
        { eapply inv_put; [done..|]. intros _. by eapply (ok_run x t Woke _ _ _ _ a c). }
        destruct (pause_tail_ok a x t _ c1 Hinv1 (put_at _ _ _)) as (r & w1 & -> & Hinv2 & Hd & He & c2 & Hc2 & Hsame & Hst).
        cbn [mbind option_bind].
        assert (t = true -> recv c2 = RECV_ARMED) as Ht2 by (intros ->; by specialize (Ht eq_refl)).
        destruct (run_co_ok (co c) a x t w1 c2 Hinv2 Hc2 Ht2 Hx) as (w' & Hrun & Hinv' & Hk).
        exists w'. split; [done|]. split; [done|]. destruct (decide (recv c = RECV_STARVED)) as [Hs|Hs].
        -- eapply keeps_moved; [congruence|congruence|exact Hd|exact He|exact Hk].
        -- rewrite Hsame in * by done. rewrite put_at in Hc2. injection Hc2 as <-. by eapply keeps_step; [..|exact Hk].
    + assert (pausing c = false) as Hp by (destruct (pausing c); [tauto|done]).
      by eapply run_from.
  - symmetry in ok_waiter0. apply bool_decide_eq_false in ok_waiter0.
    exists w. split; [done|]. split; [|unfold keeps; eauto 10].
    replace w with (put a c w) at 1; [|unfold put, set_conns; rewrite insert_id by done; by destruct w].
    eapply inv_put; [done..|]. intros _. split; try done; cbn.
    + rewrite Hw. symmetry. by apply bool_decide_eq_false.
    + split; [done|]. split; intros Hpl; exfalso; apply ok_waiter0; auto.
Qed.

(** A coroutine parked on an operation, or just started. *)
Lemma resume_ok a w w0 c :
  Inv None w -> conns w !! a = Some c -> at_ c = OnOp \/ at_ c = Fresh ->
  (w0 = w /\ a ∉ ready w \/ exists r, w0 = set_ready w r (accepted w) /\ ready w = a :: r) ->
  exists w', coro_resume a w0 = Some w' /\ Inv None w'.
Proof.
  intros Hinv0 Hc Hat Hw0. pose proof (inv_focus a _ Hinv0) as Hinv. pose proof (inv_at _ _ _ Hinv Hc) as Hok. cbn in Hok.
  assert (Hcl : closed c = false) by (destruct Hok; rewrite ok_closed0; apply bool_decide_eq_false; destruct Hat; congruence).
  assert (Hp : pausing c = false).
  { destruct Hok. destruct (pausing c); [|done]. specialize (ok_pausing0 eq_refl). destruct Hat; congruence. }
  assert (Hwt : waiter c = false).
  { destruct Hok. rewrite ok_waiter0. apply bool_decide_eq_false. intros []; destruct Hat; congruence. }
  assert (Hra : a ∉ ready w0).
  { destruct Hw0 as [[-> ?]|(r & -> & Hr)]; [done|]. cbn. destruct Hinv0. rewrite Hr in g_ready0.
    by apply NoDup_cons in g_ready0 as []. }
  assert (Hinv1 : Inv (Some (Foc a 0 false Run)) (put a (park c [] Running false) w0)).
  { eapply (inv_set a 0 false Rest); [exact Hinv|exact Hc| | | | |].
    - pose proof (inv_frame _ _ Hinv) as [[Hns _] [Hnr _] _ _].
      destruct Hw0 as [[-> ?]|(r & -> & Hr)]; [by split|]. split; try done. cbn. rewrite Hr in *.
      apply NoDup_cons in Hnr as []. split; [done|]. set_solver.
    - by destruct Hw0 as [[-> ?]|(r & -> & Hr)].
    - by destruct Hw0 as [[-> ?]|(r & -> & Hr)].
    - by destruct Hw0 as [[-> ?]|(r & -> & Hr)].
    - replace (starved (put _ _ w0)) with (starved w) by (by destruct Hw0 as [[-> ?]|(r & -> & Hr)]).
      replace (out (put _ _ w0)) with (out w) by (by destruct Hw0 as [[-> ?]|(r & -> & Hr)]).
      eapply (ok_run 0 false Rest _ _ _ _ a c); [exact Hok|done| |exact Hra].
      unfold set_recv, park. cbn. by rewrite Hp. }
  unfold coro_resume. replace (conns w0) with (conns w) by (by destruct Hw0 as [[-> ?]|(r & -> & Hr)]).
  rewrite Hc. cbn [mbind option_bind]. rewrite decide_False by (destruct Hat; congruence).
  replace (set_conns w0 _) with (put a (park c [] Running false) w0).
  2:{ unfold put. rewrite Hwt. by destruct Hw0 as [[-> ?]|(r & -> & Hr)]. }
  destruct (run_co_ok (co c) a 0 false _ _ Hinv1 (put_at _ _ _)) as (w' & -> & Hinv' & _); [done|done|].
  exists w'. split; [done|]. eapply inv_unfocus; [exact Hinv'|]. by left.
Qed.

(** The last reference of the recv, dropped behind its last completion. *)
Lemma finish_recv a w c :
  Inv (Some (Foc a 1 false Rest)) w -> conns w !! a = Some c ->
  exists w', conn_unref a w = Some w' /\ Inv None w' /\ starved w' = starved w /\ draining w' = draining w.
Proof.
  intros Hinv Hc. destruct (conn_unref_ok a 0 false Rest w c Hinv Hc) as (w' & -> & Hinv' & Hs & Hd & _); [done|].
  exists w'. split; [done|]. split; [|done]. eapply inv_unfocus; [exact Hinv'|]. by left.
Qed.

Lemma wake_finish a w c :
  Inv (Some (Foc a 1 false Woke)) w -> conns w !! a = Some c -> recv c = RECV_DONE ->
  exists w', (w1 ← wake_reader a w; conn_unref a w1) = Some w' /\ Inv None w' /\
             starved w' = starved w /\ draining w' = draining w.
Proof.
  intros Hinv Hc Hr. destruct (wake_ok a 1 false w c Hinv Hc) as (w1 & -> & Hinv1 & Hd & _ & _ & Hk); [done|done|].
  destruct (Hk Hr) as [Hs Hk']. destruct (Hk' ltac:(lia)) as (c' & Hc' & _). cbn [mbind option_bind].
  rewrite <- Hs, <- Hd. by eapply finish_recv.
Qed.

Lemma two_of_four {A B C : worker -> Prop} {o : option worker} :
  (exists w', o = Some w' /\ A w' /\ B w' /\ C w') -> exists w', o = Some w' /\ A w'.
Proof. naive_solver. Qed.

Lemma wake_rest a w c :
  Inv (Some (Foc a 0 false Woke)) w -> conns w !! a = Some c ->
  exists w', wake_reader a w = Some w' /\ Inv None w'.
Proof.
  intros Hinv Hc. destruct (wake_ok a 0 false w c Hinv Hc) as (w1 & -> & Hinv1 & _); [done|done|].
  exists w1. split; [done|]. eapply inv_unfocus; [exact Hinv1|]. by left.
Qed.

(** Behind a delivery, with the recv still armed. *)
Lemma on_recv_tail_ok a more w c :
  Inv (Some (Foc a 0 (negb more) Rest)) w -> conns w !! a = Some c -> recv c = RECV_ARMED ->
  exists w', on_recv_tail a more w = Some w' /\ Inv None w'.
Proof.
  intros Hinv Hc Ha. unfold on_recv_tail. rewrite Hc. cbn [mbind option_bind].
  pose proof (inv_at _ _ _ Hinv Hc) as Hok. cbn in Hok. destruct more; cbn [negb] in *.
  - destruct (cancel_each w && negb (closed c)) eqn:E.
    + destruct (cancel_recv_put a w c Hc) as (sq & ->). eexists; split; [done|].
      apply inv_stage. eapply (inv_unfocus (Foc a 0 false Rest)); [|by left].
      eapply inv_put; [done..|]. intros []. split; cbn; try done; [naive_solver|].
      split; [apply ok_kind0|]. split; [apply ok_kind0|]. intros Hp. destruct ok_kind0 as (_ & _ & Hpz).
      destruct (Hpz Hp) as (? & ? & ?). auto.
    + exists w. split; [done|]. eapply inv_unfocus; [done|]. by left.
  - destruct (pausing c && negb (closed c)) eqn:E1; [|destruct (negb (closed c) && negb (eof c)) eqn:E2].
    + apply andb_true_iff in E1 as [Hp Hcl]. apply negb_true_iff in Hcl.
      rewrite (upd_put _ _ _ _ Hc). cbn [mbind option_bind]. eapply wake_rest; [|apply put_at].
      eapply inv_put; [done..|]. intros []. rewrite Ha in *. split; cbn; try done; try congruence.
      * by rewrite ok_starved0.
      * intros He Hee. by specialize (ok_ended0 He Hee).
      * split; [apply ok_kind0|done].
    + apply andb_true_iff in E2 as [Hcl He]. apply negb_true_iff in Hcl, He.
      unfold ioxd__conn_arm_recv. rewrite Hc. cbn [mbind option_bind]. eexists; split; [done|].
      apply (inv_stage _ [SQ_RECV a]). eapply (inv_unfocus (Foc a 0 false Rest)); [|by left].
      eapply (inv_put a 0 true Rest); [done..|]. intros []. rewrite Hcl in E1. rewrite Ha in *. split; cbn; try done; try congruence.
      destruct ok_kind0 as (? & ? & Hpz). split; [done|]. split; [done|]. intros Hp. destruct (Hpz Hp) as (_ & Hp' & _).
      by rewrite Hp' in E1.
    + rewrite (upd_put _ _ _ _ Hc). cbn [mbind option_bind]. eapply two_of_four, finish_recv; [|apply put_at].
      eapply (inv_put a 0 true Rest); [done..|]. intros []. rewrite Ha in *. split; cbn; try done.
      * rewrite ok_refs0. clear. dec; cbn; lia.
      * by rewrite ok_starved0.
      * intros Hcl. destruct (ok_gone0 Hcl) as (? & ? & ? & _). auto.
      * intros He Hcl. by rewrite He, Hcl in E2.
      * destruct ok_kind0 as (? & ? & Hpz). split; [done|]. split; [done|]. intros Hp. destruct (Hpz Hp) as (_ & Hp' & _).
        rewrite Hp' in E1. cbn in E1. apply negb_false_iff in E1. rewrite E1 in ok_closed0. symmetry in ok_closed0.
        apply bool_decide_eq_true in ok_closed0. congruence.
Qed.

Lemma inv_put_out a x t k c c' w O r :
  Inv None w -> conns w !! a = Some c ->
  (forall id b, b <> a -> O !! id = Some b <-> out w !! id = Some b) ->
  conn_ok x t k (starved w) (ready w) O a c' ->
  Inv (Some (Foc a x t k)) (put a c' (set_out w O r)).
Proof.
  intros Hinv Hc HO Hok. eapply (inv_set a 0 false Rest); [by apply inv_focus|exact Hc| |done..|exact Hok].
  destruct Hinv. by split.
Qed.

(** The connection once its completion was taken: what [ioxd__conn_on_recv] works on. *)
Definition taken (base : Z -> Z) (result : Z) (more : bool) (buf : option Z) (c : conn) : conn :=
  {| fd := fd c; certs := certs c; waiter := waiter c; rx := rx c; recv := recv c; pausing := pausing c;
     cancelling := if more then cancelling c else false; refs := refs c; closed := closed c; eof := eof c; err := err c;
     co := co c; at_ := at_ c; held := held c; got := got c;
     arrived := if (0 <? result)%Z then arrived c ++ [{| ptr := base (default 0%Z buf); len := result; buf_id := default (-1)%Z buf |}]
                else arrived c;
     inflight := if more then inflight c else false |}.

Definition out_taken (a : nat) (buf : option Z) (w : worker) : gmap Z nat :=
  match buf with Some id => <[id := a]> (out w) | None => out w end.

Lemma on_recv_from base a result more buf w c :
  conns w !! a = Some c ->
  exists cd wd, deliver base a result more buf w = Some wd /\ conns wd !! a = Some cd /\
    (if negb more then upd a (fun c => set_cancelling c false) wd else Some wd) =
      Some (put a (taken base result more buf c) (set_out w (out_taken a buf w) (returned w))) /\
    certs cd = certs c /\ closed cd = closed c /\ pausing cd = pausing c /\ eof cd = eof c /\ rx cd = rx c.
Proof.
  intros Hc. unfold deliver. rewrite (upd_put _ _ _ _ Hc). cbn [mbind option_bind].
  match goal with |- context [put a ?x w] => set (cd := x) end.
  exists cd. eexists. split; [reflexivity|]. split; [destruct buf; cbn; by rewrite lookup_insert_eq|]. unfold cd. clear cd. split.
  - destruct more; cbn [negb].
    + unfold taken, out_taken. destruct w, c, buf, (0 <? result)%Z; reflexivity.
    + unfold taken, out_taken, upd.
      destruct w, c, buf, (0 <? result)%Z; cbn; rewrite lookup_insert_eq; unfold put, set_conns; cbn; by rewrite insert_insert_eq.
  - destruct more, (0 <? result)%Z; by split_and!.
Qed.

Lemma bufring_return_put a id c w O r :
  out w !! id = None -> O = <[id := a]> (out w) ->
  bufring_return id (put a c (set_out w O r)) = Some (put a c (set_out w (out w) (S r))).
Proof.
  intros Ho ->. unfold bufring_return. cbn. rewrite lookup_insert_eq. cbn [mbind option_bind]. unfold put, set_out, set_conns. cbn.
  by rewrite delete_insert_id.
Qed.

(** The states the branches of [ioxd__conn_on_recv] store, from a connection at rest whose recv was in
flight. *)
Section Taken.
Context (S R : list nat) (O : gmap Z nat) (a : nat) (c : conn) (base : Z -> Z) (result : Z) (more : bool) (buf : option Z).
Hypothesis Hok : conn_ok 0 false Rest S R O a c.
Hypothesis Hin : inflight c = true.
Let c1 : conn := taken base result more buf c.

Lemma in_flight_armed : recv c = RECV_ARMED.
Proof using Hok Hin.
  destruct Hok. rewrite Hin in ok_inflight0. symmetry in ok_inflight0. apply andb_true_iff in ok_inflight0 as [H _].
  by apply bool_decide_eq_true in H.
Qed.

Lemma ok_paused : more = false -> closed c = false -> (result <= 0)%Z ->
  conn_ok 0 false Woke S R O a (set_recv c1 RECV_PAUSED false).
Proof using Hok Hin.
  intros Hm Hcl Hres. pose proof in_flight_armed as Ha. destruct Hok. unfold c1, taken. rewrite Hm.
  assert ((0 <? result)%Z = false) as -> by lia.
  rewrite Ha in *. split; cbn; try done; try congruence.
  - by rewrite ok_starved0.
  - intros He Hee. by specialize (ok_ended0 He Hee).
  - split; [apply ok_kind0|done].
Qed.

Lemma ok_done e : more = false -> (result <= 0)%Z ->
  conn_ok 1 false Woke S R O a (set_recv (end_input e c1) RECV_DONE (pausing c1)).
Proof using Hok Hin.
  intros Hm Hres. pose proof in_flight_armed as Ha. destruct Hok. unfold c1, taken, end_input. rewrite Hm.
  assert ((0 <? result)%Z = false) as -> by lia. cbn [eof].
  rewrite Ha in *. destruct (eof c) eqn:He; split; cbn; try done; try (rewrite ok_refs0; clear; dec; cbn; lia); try by rewrite ok_starved0.
  - intros Hcl. destruct (ok_gone0 Hcl) as (? & ? & ? & _). auto.
  - split; [apply ok_kind0|done].
  - intros Hcl. destruct (ok_gone0 Hcl) as (? & ? & ? & _). auto.
  - intros Hcl _. apply ok_stream0; auto.
  - split; [apply ok_kind0|done].
Qed.

Lemma ok_starving : more = false -> (result <= 0)%Z -> closed c = false -> pausing c = false -> eof c = false -> a ∉ S ->
  conn_ok 0 false Rest (S ++ [a]) R O a (set_recv c1 RECV_STARVED (pausing c1)).
Proof using Hok Hin.
  intros Hm Hres Hcl Hp He Ha'. pose proof in_flight_armed as Ha. destruct Hok. unfold c1, taken. rewrite Hm.
  assert ((0 <? result)%Z = false) as -> by lia.
  rewrite Ha in *. split; cbn; try done; try congruence.
  - set_solver.
  - destruct ok_kind0 as (? & ? & Hpz). split_and!; try done; intros Hpl; destruct (Hpz Hpl) as (_ & ? & _); congruence.
Qed.

Lemma ok_closed_drop : closed c = true -> conn_ok 0 (negb more) Rest S R O a c1.
Proof using Hok Hin.
  intros Hcl. pose proof in_flight_armed as Ha. destruct Hok. unfold c1, taken.
  rewrite Ha in *. split; cbn; try done.
  - rewrite Hin. by destruct more.
  - intros _. destruct (ok_gone0 Hcl) as (? & ? & ? & [[_ Hca]|Hd]); [|done]. split_and!; try done. left. split; [done|].
    destruct more; [left; naive_solver|by right].
  - congruence.
  - destruct ok_kind0 as (? & ? & Hpz). split_and!; try done; [naive_solver..|].
    intros Hpl. destruct (Hpz Hpl) as (_ & Hp' & Hca). destruct (ok_gone0 Hcl) as (_ & _ & Hp & _). congruence.
Qed.

Lemma ok_lost e (lc : bool) : e = (- ENOBUFS)%Z \/ e = (- EPROTO)%Z ->
  conn_ok 0 (negb more) Woke S R O a (let c2 := end_input e c1 in if lc then set_cancelling c2 true else c2).
Proof using Hok Hin.
  intros Hee. pose proof in_flight_armed as Ha. destruct Hok.
  assert (Hbad : eof c = true -> err c = (- ENOBUFS)%Z \/ err c = (- EPROTO)%Z).
  { intros He. destruct (decide (err c = - ENOBUFS)%Z), (decide (err c = - EPROTO)%Z); auto.
    specialize (ok_ended0 He ltac:(auto)). congruence. }
  unfold c1, taken, end_input. cbn [eof]. rewrite Ha in *.
  assert (Hinf : (if more then inflight c else false) = negb (negb more)) by (rewrite Hin; by destruct more).
  assert (Hgone : forall lc : bool, closed c = true -> rx c = [] /\ held c = [] /\ pausing c = false /\
            (RECV_ARMED = RECV_ARMED /\ ((if lc then true else if more then cancelling c else false) = true \/ negb more = true) \/ RECV_ARMED = RECV_DONE)).
  { intros lc' H. destruct (ok_gone0 H) as (? & ? & ? & [[_ Hca]|Hd]); [|done]. split_and!; try done. left. split; [done|].
    destruct lc'; [by left|]. destruct more; [left; naive_solver|by right]. }
  assert (Hpz : forall lc : bool, at_ c = OnPause -> RECV_ARMED = RECV_ARMED -> pausing c = true /\
            ((if lc then true else if more then cancelling c else false) = true \/ negb more = true)).
  { intros lc' Hpl _. destruct ok_kind0 as (_ & _ & Hpz). destruct (Hpz Hpl) as (_ & ? & Hca). split; [done|].
    destruct lc'; [by left|]. destruct more; [left; naive_solver|by right]. }
  assert (at_ c <> Running) by apply ok_kind0.
  destruct (eof c) eqn:He, lc; split; cbn; try done; try exact (Hgone true); try exact (Hgone false);
    try (split; [done|exact (Hpz true)]); try (split; [done|exact (Hpz false)]).
  1,2: intros _ [|[H1 H2]]; [done|]; destruct (Hbad eq_refl); congruence.
  1,3: intros _ [|[H1 H2]]; [done|]; destruct Hee; congruence.
  all: intros _ [H1 H2]; destruct Hee; congruence.
Qed.

Lemma ok_pushed id : buf = Some id -> (0 < result)%Z -> closed c = false -> length (rx c) < 64 -> O !! id = None ->
  conn_ok 0 (negb more) Woke S R (<[id := a]> O) a
    (set_rx c1 (rx c1 ++ [{| ptr := base id; len := result; buf_id := id |}]) (arrived c1)).
Proof using Hok Hin.
  intros Hb Hres Hcl Hlen Ho. pose proof in_flight_armed as Ha. destruct Hok.
  assert (Hid : id ∉ ids c) by (intros Hid; apply ok_out0 in Hid; congruence).
  unfold c1, taken. rewrite Hb. assert ((0 <? result)%Z = true) as -> by lia. rewrite Ha in *.
  assert (Hp : forall x, buf_id <$> ((rx c ++ [x]) ++ held c) ≡ₚ buf_id x :: ids c).
  { intros x. unfold ids. rewrite !fmap_app, <- app_assoc. cbn. by rewrite <- Permutation_middle. }
  split; cbn; try done; try congruence.
  - rewrite Hin. by destruct more.
  - rewrite length_app. cbn. lia.
  - unfold ids; cbn. rewrite Hp. by constructor.
  - intros id'. unfold ids; cbn. rewrite Hp. cbn. destruct (decide (id' = id)) as [->|Hne].
    + rewrite lookup_insert_eq. set_solver.
    + rewrite lookup_insert_ne by done. rewrite ok_out0. set_solver.
  - intros _ Hd. rewrite app_assoc. f_equal. by apply ok_stream0.
  - destruct ok_kind0 as (? & _ & Hpz). split; [done|]. intros Hpl _. destruct (Hpz Hpl) as (_ & ? & Hca). split; [done|].
    destruct more; [left; naive_solver|by right].
Qed.
End Taken.

(** A delivery was handled - queued, dropped or lost - and the recv is still armed. *)
Lemma woken_then_tail a more w c :
  Inv (Some (Foc a 0 (negb more) Woke)) w -> conns w !! a = Some c -> recv c = RECV_ARMED ->
  exists w', (w ← wake_reader a w; on_recv_tail a more w) = Some w' /\ Inv None w'.
Proof.
  intros Hinv Hc Ha. destruct (wake_ok a 0 (negb more) w c Hinv Hc) as (w1 & -> & Hinv1 & _ & _ & Hk & _); [done|done|].
  destruct (Hk Ha) as (c' & Hc' & Ha'). cbn [mbind option_bind]. by eapply on_recv_tail_ok.
Qed.

Lemma lost_ok base a result more buf w c e O r :
  Inv None w -> conns w !! a = Some c -> inflight c = true ->
  O = out w -> (e = - ENOBUFS \/ e = - EPROTO)%Z ->
  let c1 := taken base result more buf c in
  exists w', (w ← upd a (end_input e) (put a c1 (set_out w O r));
              w ← (if more then cancel_recv a w else Some w);
              w ← wake_reader a w; on_recv_tail a more w) = Some w' /\ Inv None w'.
Proof.
  intros Hinv Hc Hin -> He c1. rewrite (upd_put _ _ _ _ (put_at _ _ _)), put_put. cbn [mbind option_bind].
  pose proof (inv_at _ _ _ (inv_focus a _ Hinv) Hc) as Hok. cbn in Hok.
  pose proof (in_flight_armed _ _ _ _ _ Hok Hin) as Ha.
  assert (Hrecv : recv (end_input e c1) = RECV_ARMED) by (unfold end_input, c1, taken; cbn; by destruct (eof c)).
  destruct more.
  - destruct (cancel_recv_put a _ _ (put_at a (end_input e c1) (set_out w (out w) r))) as (sq & ->).
    cbn [mbind option_bind]. rewrite put_put.
    pose proof (stage_fields sq (put a (set_cancelling (end_input e c1) true) (set_out w (out w) r))) as (E1 & _).
    eapply (woken_then_tail a true); [apply inv_stage|rewrite E1; apply put_at|exact Hrecv].
    eapply inv_put_out; [done..|]. apply (ok_lost _ _ _ _ c base result true buf Hok Hin e true He).
  - eapply (woken_then_tail a false); [|apply put_at|exact Hrecv].
    eapply inv_put_out; [done..|]. apply (ok_lost _ _ _ _ c base result false buf Hok Hin e false He).
Qed.

Lemma step_recv base a result more buf w :
  Inv None w -> legal (EvRecv a result more buf) w ->
  exists w', step base (EvRecv a result more buf) w = Some w' /\ Inv None w'.
Proof.
  intros Hinv ((c & Hc & Hin) & Hbuf & Hm & Hnb). cbn [step].
  pose proof (inv_at _ _ _ (inv_focus a _ Hinv) Hc) as Hok. cbn in Hok.
  pose proof (in_flight_armed _ _ _ _ _ Hok Hin) as Ha.
  destruct (on_recv_from base a result more buf w c Hc) as (cd & wd & -> & Hcd & Hup & Ecert & Ecl & Ep & Ee & Erx).
  cbn [mbind option_bind]. unfold ioxd__conn_on_recv. rewrite Hcd. cbn [mbind option_bind]. rewrite Hup. cbn [mbind option_bind].
  rewrite Ecert, Ecl, Ep, Ee, Erx. clear Hup cd wd Hcd Ecert Ecl Ep Ee Erx.
  set (c1 := taken base result more buf c).
  assert (Hret : forall id, buf = Some id -> bufring_return id (put a c1 (set_out w (out_taken a buf w) (returned w))) =
                   Some (put a c1 (set_out w (out w) (S (returned w))))).
  { intros id ->. eapply bufring_return_put; [by apply Hbuf|done]. }
  assert (Hfin : forall r k c2, (conn_ok 0 false k (starved w) (ready w) (out w) a c2) ->
                   Inv (Some (Foc a 0 false k)) (put a c2 (set_out w (out w) r))).
  { intros r k c2 Hc2. by eapply inv_put_out. }
  assert (Hfin1 : forall r k c2, (conn_ok 1 false k (starved w) (ready w) (out w) a c2) ->
                   Inv (Some (Foc a 1 false k)) (put a c2 (set_out w (out w) r))).
  { intros r k c2 Hc2. by eapply inv_put_out. }
  destruct (Z.eqb_spec result (- ENOBUFS)) as [Hr|Hr]; [|destruct (Z.leb_spec result 0) as [Hle|Hgt]].
  - (* the ring was empty *)
    assert (result <= 0)%Z as Hle by (unfold ENOBUFS in Hr; lia).
    pose proof (Hm Hle) as ->. pose proof (Hnb Hr) as ->. cbn [out_taken].
    destruct (closed c) eqn:Hcl; [|destruct (pausing c) eqn:Hp; [|destruct (eof c) eqn:He]];
      rewrite (upd_put _ _ _ _ (put_at _ _ _)), put_put; cbn [mbind option_bind].
    + eapply two_of_four, finish_recv; [|apply put_at]. eapply Hfin1.
      pose proof (ok_done _ _ _ _ c base result false None Hok Hin 0 eq_refl Hle) as Hd.
      pose proof (ok_closed_drop _ _ _ _ c base result false None Hok Hin Hcl) as Hcd. 
      destruct Hok. destruct (ok_gone0 Hcl) as (Hrx & Hh & Hpp & _).
      assert (at_ c = Ended) as Hat by (rewrite Hcl in ok_closed0; symmetry in ok_closed0; by apply bool_decide_eq_true in ok_closed0).
      unfold end_input in Hd. destruct Hd. unfold c1. destruct (eof (taken base result false None c)) eqn:Ee; split; try done; cbn in *; try congruence.
      all: rewrite Hat in *; try done.
    + eapply wake_rest; [|apply put_at]. eapply Hfin. by apply ok_paused.
    + eapply two_of_four, wake_finish; [|apply put_at|done]. eapply Hfin1.
      pose proof (ok_done _ _ _ _ c base result false None Hok Hin 0 eq_refl Hle) as Hd.
      unfold end_input in Hd. change (eof (taken _ _ _ _ c)) with (eof c) in Hd. by rewrite He in Hd.
    + eexists. split; [reflexivity|]. eapply (inv_unfocus (Foc a 0 false Rest)); [|by left].
      assert (a ∉ starved w) as Hna by (destruct Hok; rewrite ok_starved0; congruence).
      eapply (inv_set a 0 false Rest); [by apply inv_focus|exact Hc| |done..|].
      * destruct Hinv. split; cbn; try done. split; [|set_solver]. apply NoDup_app. split_and!; [done|set_solver|apply NoDup_singleton].
      * by apply ok_starving.
  - (* the recv ended *)
    pose proof (Hm Hle) as ->.
    assert (exists r, (match buf with Some id => bufring_return id (put a c1 (set_out w (out_taken a buf w) (returned w)))
                 | None => Some (put a c1 (set_out w (out_taken a buf w) (returned w))) end) = Some (put a c1 (set_out w (out w) r)))
      as (r & ->).
    { destruct buf as [id|]; [rewrite (Hret id eq_refl); eauto|]. eauto. }
    cbn [mbind option_bind].
    destruct (pausing c && negb (closed c) && (result =? - ECANCELED)%Z) eqn:E.
    + rewrite (upd_put _ _ _ _ (put_at _ _ _)), put_put. cbn [mbind option_bind].
      eapply wake_rest; [|apply put_at]. eapply Hfin. apply ok_paused; try done.
      apply andb_true_iff in E as [[_ E]%andb_true_iff _]. by apply negb_true_iff in E.
    + rewrite (upd_put _ _ _ _ (put_at _ _ _)), put_put. cbn [mbind option_bind].
      rewrite (upd_put _ _ _ _ (put_at _ _ _)), put_put. cbn [mbind option_bind].
      set (e := if (result =? - EIO)%Z && certs c then 0%Z else result).
      eapply two_of_four, wake_finish; [|apply put_at|done]. eapply Hfin1. 
      replace (pausing (end_input e c1)) with (pausing c1) by (unfold end_input; by destruct (eof c1)).
      by apply (ok_done _ _ _ _ c base result false buf Hok Hin e).
  - destruct buf as [id|].
    + destruct (closed c) eqn:Hcl; [|destruct (Nat.eqb_spec (length (rx c)) (Z.to_nat RX_QUEUE)) as [Hf|Hf]].
      * rewrite (Hret id eq_refl). cbn [mbind option_bind]. eapply on_recv_tail_ok; [|apply put_at|exact Ha].
        eapply inv_put_out; [done..|]. by apply (ok_closed_drop _ _ _ _ c base result more (Some id)).
      * rewrite (Hret id eq_refl). cbn [mbind option_bind]. 
        destruct (lost_ok base a result more (Some id) w c (- ENOBUFS) (out w) (S (returned w)) Hinv Hc Hin eq_refl) as (w' & Hw' & Hinv'); [by left|].
        exists w'. split; [|done]. rewrite <- Hw'. cbn. destruct (upd _ _ _); [|done]. cbn. by destruct (if more then _ else _).
      * rewrite (upd_put _ _ _ _ (put_at _ _ _)), put_put. cbn [mbind option_bind].
        eapply woken_then_tail; [|apply put_at|exact Ha].
        eapply inv_put_out; [done|done| |].
        { intros id' b Hb. cbn. rewrite lookup_insert_Some. specialize (Hbuf id eq_refl). naive_solver. }
        apply ok_pushed; try done; [|by apply Hbuf]. destruct Hok. unfold RX_QUEUE in Hf. lia.
    + destruct (lost_ok base a result more None w c (- EPROTO) (out w) (returned w) Hinv Hc Hin eq_refl) as (w' & Hw' & Hinv'); [by right|].
      exists w'. split; [|done]. rewrite <- Hw'. cbn. destruct (upd _ _ _); [|done]. cbn. by destruct (if more then _ else _).
Qed.

(** ** The other steps *)

Definition armed (c : conn) : conn := set_inflight (set_cancelling (set_recv c RECV_ARMED (pausing c)) false) true.

Lemma arm_all_spec l w :
  NoDup l -> (forall b, b ∈ l -> is_Some (conns w !! b)) ->
  exists w', arm_all l w = Some w' /\
    (forall b, conns w' !! b = if decide (b ∈ l) then armed <$> conns w !! b else conns w !! b) /\
    base.size (conns w') = base.size (conns w) /\
    conn_free w' = conn_free w /\ idle_connections w' = idle_connections w /\ live w' = live w /\
    starved w' = starved w /\ ready w' = ready w /\ out w' = out w /\ starved_total w' = starved_total w.
Proof.
  revert w. induction l as [|a l IH]; intros w Hnd Hin; cbn [arm_all].
  { exists w. split_and!; try done. }
  apply NoDup_cons in Hnd as [Ha Hnd]. destruct (Hin a ltac:(set_solver)) as [c Hc].
  unfold ioxd__conn_arm_recv. rewrite Hc. cbn [mbind option_bind]. fold (armed c).
  set (w1 := stage _ _). destruct (IH w1 Hnd) as (w' & Hw' & Hcs & Hsz & Hrest).
  { intros b Hb. cbn. destruct (decide (b = a)) as [->|]; [done|]. rewrite lookup_insert_ne by done. apply Hin. set_solver. }
  exists w'. split; [done|]. split; [|split; [|done]].
  - intros b. rewrite Hcs. cbn. destruct (decide (b = a)) as [->|Hne].
    + rewrite decide_False by done. rewrite decide_True by set_solver. by rewrite lookup_insert_eq, Hc.
    + rewrite lookup_insert_ne by done. destruct (decide (b ∈ l)).
      * by rewrite decide_True by set_solver.
      * by rewrite decide_False by set_solver.
  - rewrite Hsz. cbn. rewrite map_size_insert. by rewrite Hc.
Qed.

(** A recv parked on starvation, armed again. *)
Lemma ok_rearmed S S' R O a c :
  conn_ok 0 false Rest S R O a c -> recv c = RECV_STARVED -> a ∉ S' -> conn_ok 0 false Rest S' R O a (armed c).
Proof.
  intros [] Hr Ha. rewrite Hr in *. split; cbn; try done.
  - intros Hcl. destruct (ok_gone0 Hcl) as (_ & _ & _ & [[? _]|?]); done.
  - intros He Hee. by specialize (ok_ended0 He Hee).
  - destruct ok_kind0 as (? & ? & Hpz). split_and!; try done; intros Hpl; by destruct (Hpz Hpl).
Qed.

Lemma step_rearm w : Inv None w -> exists w', rearm_starved w = Some w' /\ Inv None w' .
Proof.
  intros Hinv. unfold rearm_starved. cbn [starved set_out].
  assert (Hinv0 : Inv None (set_out w (out w) 0)) by (destruct Hinv; by split).
  destruct (_ || _); [eauto|]. set (n := if returned w <? length (starved w) then returned w else length (starved w)).
  pose proof Hinv as [G1 G2 G3 G4 G5 G6].
  assert (Hnd : NoDup (take n (starved w)) /\ NoDup (drop n (starved w))).
  { rewrite <- (take_drop n (starved w)) in G1. apply NoDup_app in G1. tauto. }
  destruct (arm_all_spec (take n (starved w)) (set_out w (out w) 0)) as (w' & -> & Hcs & Hsz & Hf & Hi & Hl & Hs & Hr & Ho & Ht).
  { apply Hnd. }
  { intros b Hb. cbn. apply G5. left. eapply elem_of_take in Hb as (? & ? & ?). by eapply list_elem_of_lookup_2. }
  cbn [mbind option_bind]. eexists; split; [reflexivity|].
  assert (Hdrop : forall b, b ∈ drop n (starved w') <-> b ∈ starved w /\ b ∉ take n (starved w)).
  { intros b. rewrite Hs. cbn. rewrite <- (take_drop n (starved w)) in G1. apply NoDup_app in G1 as (_ & Hdis & _).
    rewrite <- (take_drop n (starved w)) at 2. set_solver. }
  cbn in *. split; cbn [conns starved ready conn_free idle_connections live out set_starved].
  - rewrite Hs. apply Hnd.
  - by rewrite Hr.
  - rewrite Hf, Hi. destruct G3 as (? & G3 & ?). split; [done|]. split; [|done]. intros b Hb. rewrite Hcs. rewrite G3 by done. by case_decide.
  - by rewrite Hl, Hsz.
  - intros b Hb. rewrite Hcs. assert (is_Some (conns w !! b)) as [c Hc].
    { apply G5. rewrite Hdrop, Hr, Ho in Hb. naive_solver. }
    rewrite Hc. case_decide; eauto.
  - intros b c. rewrite Hcs. unfold ok_in. cbn [starved ready out set_starved]. rewrite Hr, Ho.
    destruct (decide (b ∈ take n (starved w))) as [Hin|Hin].
    + rewrite fmap_Some. intros (c0 & Hc0 & ->). specialize (G6 b c0 Hc0). cbn in G6.
      eapply ok_rearmed; [done| |rewrite Hdrop; naive_solver]. destruct G6. apply ok_starved0.
      eapply elem_of_take in Hin as (? & ? & ?). by eapply list_elem_of_lookup_2.
    + intros Hc. specialize (G6 b c Hc). cbn in G6. destruct G6. split; try done. rewrite Hdrop, <- ok_starved0. naive_solver.
Qed.

Lemma step_accept fresh result certs_ prog w :
  Inv None w -> conns w !! fresh = None ->
  exists w', on_accept fresh result certs_ prog w = Some w' /\ Inv None w'.
Proof.
  intros Hinv Hfresh. unfold on_accept.
  destruct ((0 <=? result)%Z && draining w); [eexists; split; [done|]; by apply (inv_stage _ [SQ_CLOSE result])|].
  destruct (0 <=? result)%Z; [|eauto].
  assert (exists a free', ioxd__conn_new fresh result certs_ prog w =
            (a, set_pool w (<[a := new_conn result certs_ prog]> (conns w)) free' (S (live w))) /\
            conns w !! a = None /\ NoDup free' /\ (forall b, b ∈ free' -> conns w !! b = None /\ b <> a) /\
            length free' <= idle_connections w) as (a & free' & -> & Ha & Hnd & Hfree & Hlen).
  { unfold ioxd__conn_new. destruct Hinv as [_ _ (G3 & G3' & G3'') _ _ _]. destruct (conn_free w) as [|a free'] eqn:Ef.
    - exists fresh, []. split_and!; try done; try constructor; cbn; try lia; set_solver.
    - apply NoDup_cons in G3 as [Hna Hnd]. exists a, free'. split_and!; try done; [apply G3'; by left| |cbn in *; lia].
      intros b Hb. split; [apply G3'; by right|]. by intros ->. }
  unfold ioxd__conn_arm_recv. cbn [conns set_pool]. rewrite lookup_insert_eq. cbn [mbind option_bind]. rewrite insert_insert_eq.
  set (c := set_inflight _ _). eexists; split; [reflexivity|].
  pose proof Hinv as [G1 G2 G3 G4 G5 G6].
  assert (Hns : a ∉ starved w) by (intros H; destruct (G5 a) as [? ?]; [by left|congruence]).
  assert (Hnr : a ∉ ready w) by (intros H; destruct (G5 a) as [? ?]; [by right; left|congruence]).
  assert (Hno : forall id, out w !! id <> Some a) by (intros id H; destruct (G5 a) as [? ?]; [right; right; eauto|congruence]).
  split; cbn [conns starved ready conn_free idle_connections live out set_starved ioxd__proactor_spawn set_ready stage set_conns set_pool accepted].
  - done.
  - apply NoDup_app. split_and!; [done|set_solver|apply NoDup_singleton].
  - split; [done|]. split; [|done]. intros b Hb. destruct (Hfree b Hb) as [? ?]. by rewrite lookup_insert_ne.
  - rewrite map_size_insert, Ha, G4. done.
  - intros b Hb. destruct (decide (b = a)) as [->|Hne]; [by rewrite lookup_insert_eq|]. rewrite lookup_insert_ne by done.
    apply G5. set_solver.
  - intros b cb. unfold ok_in. cbn. destruct (decide (b = a)) as [->|Hne].
    + rewrite lookup_insert_eq. intros [= <-]. split; cbn; try done; try lia.
      * set_solver.
      * constructor.
      * intros id. split; [intros H; by apply Hno in H|set_solver].
    + rewrite lookup_insert_ne by done. intros Hb. specialize (G6 b cb Hb). cbn in G6. destruct G6. split; try done. set_solver.
Qed.

Lemma ok_drained S R O a c :
  conn_ok 0 false Rest (S ++ [a]) R O a c -> recv c = RECV_STARVED -> a ∉ S ->
  conn_ok 1 false Woke S R O a (set_recv (end_input (- ECANCELED) c) RECV_DONE (pausing c)).
Proof.
  intros [] Hr Ha. rewrite Hr in *. unfold end_input.
  assert (Hcl : closed c = false).
  { destruct (closed c); [|done]. destruct (ok_gone0 eq_refl) as (_ & _ & _ & [[? _]|?]); done. }
  destruct (eof c) eqn:He; split; cbn; try done; try (rewrite ok_refs0, Hcl; clear; dec; cbn; lia); try congruence;
    try (split; [apply ok_kind0|done]).
  - intros _ Hd. rewrite He in Hd. by apply ok_stream0.
  - intros _ _. apply ok_stream0; auto.
Qed.

Lemma drain_starved_ok fuel w :
  Inv None w -> length (starved w) <= fuel ->
  exists w', drain_starved fuel w = Some w' /\ Inv None w' /\ starved w' = [] /\ draining w' = draining w.
Proof.
  revert w. induction fuel as [|fuel IH]; intros w Hinv Hlen; cbn [drain_starved].
  { exists w. split_and!; try done. destruct (starved w); [done|simpl in Hlen; lia]. }
  destruct (rev (starved w)) as [|a l] eqn:Er.
  { exists w. split_and!; try done. by rewrite <- (rev_involutive (starved w)), Er. }
  assert (Hs : starved w = rev l ++ [a]) by (by rewrite <- (rev_involutive (starved w)), Er).
  pose proof (g_starved _ _ Hinv) as Hnd. rewrite Hs in Hnd. apply NoDup_app in Hnd as (Hnd & Hdis & _).
  assert (Ha : a ∉ rev l) by (intros H; apply (Hdis a H); set_solver).
  destruct (g_dom _ _ Hinv a) as [c Hc]; [left; rewrite Hs; set_solver|].
  pose proof (g_conns _ _ Hinv a c Hc) as Hok. cbn in Hok.
  assert (Hr : recv c = RECV_STARVED) by (destruct Hok; apply ok_starved0; rewrite Hs; set_solver).
  unfold ioxd__conn_recv_drain. cbn [conns set_starved]. rewrite Hc. cbn [mbind option_bind].
  rewrite bool_decide_true by done. cbn [negb]. set (w1 := set_starved w _ _).
  rewrite (upd_put a _ w1 c Hc). cbn [mbind option_bind].
  set (c1 := set_recv _ _ _).
  destruct (wake_finish a (put a c1 w1) c1) as (w2 & Hw2 & Hinv2 & Hs2 & Hd2); [|apply put_at|done|].
  { eapply (inv_set a 0 false Rest); [by apply inv_focus|exact Hc| |done..|].
    - destruct Hinv. split; cbn; try done. split; [done|]. rewrite Hs. set_solver.
    - rewrite Hs in Hok. by eapply ok_drained. }
  rewrite Hw2. cbn [mbind option_bind].
  destruct (IH w2 Hinv2) as (w' & -> & Hinv' & Hs' & Hd').
  { rewrite Hs2. cbn. rewrite Hs in Hlen. list_lia. }
  exists w'. split_and!; try done. rewrite Hd', Hd2. done.
Qed.

Lemma begin_drain_ok w :
  Inv None w -> exists w', begin_drain w = Some w' /\ Inv None w' /\ starved w' = [] /\ draining w' = true.
Proof.
  intros Hinv. unfold begin_drain.
  destruct (drain_starved_ok (length (starved w)) (stage (set_drain w true (cancel_each w)) SQ_CANCEL_ANY))
    as (w' & H1 & H2 & H3 & H4); [|done|].
  - apply (inv_stage _ [SQ_CANCEL_ANY]). by destruct Hinv.
  - exists w'. split_and!; try done.
Qed.

Lemma step_ok base e w : Inv None w -> legal e w -> exists w', step base e w = Some w' /\ Inv None w'.
Proof.
  intros Hinv Hl. destruct e; cbn [step legal] in *.
  - by apply step_accept.
  - unfold run_ready1. destruct (ready w) as [|a r] eqn:Er; [eauto|].
    destruct (g_dom _ _ Hinv a) as [c Hc]; [right; left; rewrite Er; by left|].
    pose proof (g_conns _ _ Hinv a c Hc) as Hok. cbn in Hok.
    eapply (resume_ok a w _ c); [done..| |right; eauto]. right. destruct Hok. apply ok_ready0. rewrite Er. by left.
  - by apply step_rearm.
  - by apply step_recv.
  - destruct Hl as (c & Hc & Hop). pose proof (g_conns _ _ Hinv a c Hc) as Hok. cbn in Hok.
    eapply (resume_ok a w w c); [done..|by left|]. left. split; [done|]. destruct Hok. rewrite ok_ready0. congruence.
  - destruct (begin_drain_ok w Hinv) as (w' & ? & ? & _). eauto.
  - eexists; split; [done|]. by destruct Hinv.
Qed.

Lemma inv_init idle : Inv None (init_worker idle).
Proof.
  split; cbn.
  - constructor.
  - constructor.
  - split_and!; [constructor|set_solver|cbn; lia].
  - done.
  - intros b [H|[H|[id H]]]; set_solver.
  - intros b c H. by rewrite lookup_empty in H.
Qed.

Lemma reachable_inv base idle w : reachable base idle w -> Inv None w.
Proof.
  induction 1 as [|w e w' _ IH Hl Hs]; [apply inv_init|].
  destruct (step_ok base e w IH Hl) as (w1 & Hw1 & Hinv). congruence.
Qed.

(** ** Properties *)

(** C26. No use after free and no double return. Whatever accepts, completions, buffers and handlers the
worker meets, and however a coroutine resumed in the middle of [ioxd__conn_on_recv] closes its
connection there: every step of the loop the kernel can cause finds each connection it touches alive,
returns only buffers that are out of the ring, and completes. *)
Theorem worker_never_stuck base idle e w :
  reachable base idle w -> legal e w -> exists w', step base e w = Some w'.
Proof. intros Hr Hl. destruct (step_ok base e w (reachable_inv _ _ _ Hr) Hl) as (w' & ? & _). eauto. Qed.

Lemma worker_never_stuck_witness :
  exists w', step (fun id => id) (EvAccept 3 7 false [RecvItem]) (init_worker 4) = Some w'.
Proof. apply (worker_never_stuck _ 4); [constructor|reflexivity]. Defined.

(** Buffers are owned once. At any time the buffers that are not in the ring are exactly the ones
queued on a connection or held by its handler, each at one connection and in one place; a queue never
holds more than its 64 slots. *)
Lemma conn_buffers base idle w :
  reachable base idle w ->
  (forall id a, out w !! id = Some a <-> exists c, conns w !! a = Some c /\ id ∈ ids c) /\
  forall a c, conns w !! a = Some c -> NoDup (ids c) /\ length (rx c) <= 64.
Proof.
  intros Hr. destruct (reachable_inv _ _ _ Hr) as [_ _ _ _ G5 G6]. split.
  - intros id a. split.
    + intros Ho. destruct (G5 a) as [c Hc]; [right; right; eauto|]. exists c. split; [done|].
      specialize (G6 a c Hc). cbn in G6. destruct G6. by apply ok_out0.
    + intros (c & Hc & Hid). specialize (G6 a c Hc). cbn in G6. destruct G6. by apply ok_out0.
  - intros a c Hc. specialize (G6 a c Hc). cbn in G6. by destruct G6.
Qed.

(** C27. What holds between the loop's steps. The live count is the number of open objects, and none of
them is in the pool. Of every connection: its references are exactly its handler's (until it closed)
and its recv's (until it ended), and there is one; a multishot recv is in the kernel just when the
recv is armed; it is in the starved list just when it is starved. The buffers that are not in the ring are
exactly the ones queued on a connection or held by its handler, each in one place, and a queue never
holds more than its 64 slots. *)
Theorem conn_refcounts base idle w :
  reachable base idle w ->
  live w = base.size (conns w) /\ length (conn_free w) <= idle_connections w /\
  (forall a, a ∈ conn_free w -> conns w !! a = None) /\ NoDup (starved w) /\
  (forall a, a ∈ starved w -> is_Some (conns w !! a)) /\
  (forall id a, out w !! id = Some a <-> exists c, conns w !! a = Some c /\ id ∈ ids c) /\
  forall a c, conns w !! a = Some c ->
    NoDup (ids c) /\ length (rx c) <= 64 /\
    refs c = (Z.b2z (negb (closed c)) + Z.b2z (negb (bool_decide (recv c = RECV_DONE))))%Z /\ (0 < refs c)%Z /\
    inflight c = bool_decide (recv c = RECV_ARMED) /\ (a ∈ starved w <-> recv c = RECV_STARVED).
Proof.
  intros Hr. destruct (reachable_inv _ _ _ Hr) as [G1 G2 (G3 & G3' & G3'') G4 G5 G6].
  destruct (conn_buffers _ _ _ Hr) as [B1 B2]. split_and!; try done; [intros a Ha; apply G5; by left|].
  intros a c Hc. destruct (B2 a c Hc) as [B3 B4]. specialize (G6 a c Hc). cbn in G6. destruct G6.
  split; [done|]. split; [done|]. split; [rewrite ok_refs0; lia|]. split; [done|]. split; [|done]. by rewrite ok_inflight0, andb_true_r.
Qed.


(** The byte stream of a connection. While its input has not ended - or ended for any reason but
the two the loop invents, a full queue and a delivery without a buffer - what its handler took and
what is still queued are, in order, exactly the buffers the kernel filled for it. *)
Theorem conn_stream base idle w a c :
  reachable base idle w -> conns w !! a = Some c -> closed c = false ->
  eof c = false \/ (err c <> - ENOBUFS /\ err c <> - EPROTO)%Z ->
  arrived c = got c ++ rx c.
Proof.
  intros Hr Hc. pose proof (g_conns _ _ (reachable_inv _ _ _ Hr) a c Hc) as Hok. cbn in Hok. destruct Hok. done.
Qed.

(** *** Runs, for concrete executions *)

Definition legalb (e : event) (w : worker) : bool :=
  match e with
  | EvAccept fresh _ _ _ => match conns w !! fresh with None => true | Some _ => false end
  | EvRecv a result more buf =>
      match conns w !! a with Some c => inflight c | None => false end &&
      match buf with Some id => match out w !! id with None => true | Some _ => false end | None => true end &&
      ((0 <? result)%Z || negb more) &&
      (negb (result =? - ENOBUFS)%Z || match buf with None => true | Some _ => false end)
  | EvOp a => match conns w !! a with Some c => bool_decide (at_ c = OnOp) | None => false end
  | _ => true
  end.

Fixpoint run_events (base : Z -> Z) (es : list event) (w : worker) : option worker :=
  match es with
  | [] => Some w
  | e :: es' => if legalb e w then w' ← step base e w; run_events base es' w' else None
  end.

Lemma legalb_legal e w : legalb e w = true -> legal e w.
Proof.
  destruct e; cbn [legal legalb]; try done.
  - by destruct (conns w !! fresh).
  - rewrite !andb_true_iff, !orb_true_iff, !negb_true_iff. intros [[[H1 H2] H3] H4].
    split; [destruct (conns w !! a); [eauto|done]|]. split.
    + intros id ->. by destruct (out w !! id).
    + split; [intros Hr; destruct H3; [lia|done]|]. intros ->. destruct H4 as [H4|]; [by rewrite Z.eqb_refl in H4|by destruct buf].
  - destruct (conns w !! a) as [c|]; [|done]. intros H. exists c. split; [done|]. by apply bool_decide_eq_true in H.
Qed.

Lemma run_reachable base idle es w w' :
  reachable base idle w -> run_events base es w = Some w' -> reachable base idle w'.
Proof.
  revert w. induction es as [|e es IH]; intros w Hr Hrun; cbn [run_events] in Hrun; [congruence|].
  destruct (legalb e w) eqn:Hl; [|done]. destruct (step base e w) as [w1|] eqn:Hs; [|done].
  apply (IH w1); [|done]. econstructor; [done|by apply legalb_legal|done].
Qed.

(** A busy handler: 65 buffers arrive while it waits for a send, so the last is dropped and the input
ends; then it takes one, and the next arrival - still in the kernel's hands - is queued again. *)
Definition overflow_run : list event :=
  [EvAccept 0 7 false ([Await; RecvItem; Await] ++ replicate 64 RecvItem ++ [Await]); EvReady] ++
  map (fun i => EvRecv 0 10 true (Some (Z.of_nat i))) (seq 0 65) ++
  [EvOp 0; EvRecv 0 10 true (Some 65%Z); EvOp 0].

(** The bytes of an overflowed connection have a hole: after the input was ended because a buffer was
dropped on a full queue, a later buffer is still queued, and the handler reads it behind the earlier
ones - what it took is not a prefix of what arrived. *)
Theorem overflow_leaves_hole :
  exists w c, reachable (fun id => id) 4 w /\ conns w !! 0 = Some c /\ eof c = true /\ err c = (- ENOBUFS)%Z /\
              ~ (got c `prefix_of` arrived c).
Proof.
  destruct (run_events (fun id => id) overflow_run (init_worker 4)) as [w|] eqn:Hrun; [|by vm_compute in Hrun].
  assert (Hc : (c ← conns w !! 0; Some (eof c, err c, buf_id <$> got c, buf_id <$> arrived c)) =
               Some (true, (- ENOBUFS)%Z, Z.of_nat <$> (seq 0 64 ++ [65]), Z.of_nat <$> seq 0 66)).
  { assert (H : Some w = run_events (fun id => id) overflow_run (init_worker 4)) by done. clear Hrun.
    vm_compute in H. injection H as ->. vm_compute. reflexivity. }
  destruct (conns w !! 0) as [c|] eqn:Hw; [|done]. cbn [mbind option_bind] in Hc. injection Hc as He Hr Hg Ha.
  pose proof (run_reachable _ _ overflow_run _ _ (reach_init _ _) Hrun) as Hreach. clear Hrun.
  exists w, c. split; [exact Hreach|]. split; [exact Hw|]. split; [exact He|]. split; [exact Hr|].
  intros [k Hk]. apply (f_equal (fmap buf_id)) in Hk. rewrite fmap_app, Ha, Hg in Hk.
  apply (f_equal (fun l => l !! 64)) in Hk. vm_compute in Hk. discriminate Hk.
Qed.

(** A worker that drains re-arms a recv: the blanket cancel was staged first, so nothing cancels it. *)
Definition drain_run : list event :=
  [EvAccept 0 7 false [RecvItem; RecvItem]; EvReady; EvDrain; EvRecv 0 10 false (Some 0%Z)].

Theorem drain_rearms_recv :
  exists w c, reachable (fun id => id) 4 w /\ conns w !! 0 = Some c /\ draining w = true /\
    inflight c = true /\ cancelling c = false /\ at_ c = OnRx /\ sqes w = [SQ_RECV 0; SQ_CANCEL_ANY; SQ_RECV 0].
Proof.
  destruct (run_events (fun id => id) drain_run (init_worker 4)) as [w|] eqn:Hrun; [|by vm_compute in Hrun].
  assert (H : Some w = run_events (fun id => id) drain_run (init_worker 4)) by done.
  vm_compute in H. injection H as ->.
  eexists _, _. split; [exact (run_reachable _ _ drain_run _ _ (reach_init _ _) Hrun)|]. vm_compute. split_and!; reflexivity.
Qed.

(** *** Witnesses: a connection whose handler took one buffer and waits for the next *)

Definition small_run : list event :=
  [EvAccept 0 7 false [RecvItem; RecvItem]; EvReady; EvRecv 0 10 true (Some 3%Z)].

Definition small_worker : worker := default (init_worker 4) (run_events (fun id => id) small_run (init_worker 4)).
Definition small_conn : conn := default (new_conn 0 false []) (conns small_worker !! 0).

Lemma small_reachable : reachable (fun id => id) 4 small_worker.
Proof. apply (run_reachable _ _ small_run _ _ (reach_init _ _)). vm_compute. reflexivity. Qed.

Lemma small_conn_at : conns small_worker !! 0 = Some small_conn.
Proof. vm_compute. reflexivity. Qed.

Lemma conn_refcounts_witness : live small_worker = 1.
Proof. rewrite (proj1 (conn_refcounts _ _ _ small_reachable)). vm_compute. reflexivity. Defined.


Lemma conn_buffers_witness : out small_worker !! 3%Z = Some 0.
Proof.
  apply (proj1 (conn_buffers _ _ _ small_reachable) 3%Z 0). exists small_conn. split; [exact small_conn_at|].
  apply list_elem_of_lookup. exists 0. vm_compute. reflexivity.
Defined.

Lemma conn_stream_witness : arrived small_conn = got small_conn ++ rx small_conn.
Proof.
  apply (conn_stream _ _ _ _ _ small_reachable small_conn_at); [vm_compute; reflexivity|].
  left. vm_compute. reflexivity.
Defined.
