(* ===== verification/Reader.v ===== *)
(** The reader of lib/io/pipe.c: received bytes handed out as one contiguous span, in place in a
    kernel buffer or gathered in the consumer's buffer, with kept bytes that stay where they are. The
    kernel buffers are a memory keyed by buffer id; what a connection delivers is a list of items - the
    ones queued already and the ones still to come. *)
From S2P Require Import Prelude.
From S2P Require Bufring.
Import Bufring (rx_item, buf_id, rx_none).

#[local] Arguments Nat.ltb : simpl never.
#[local] Arguments Nat.leb : simpl never.

Definition IOXD_PIPE_GONE : Z := -1.
Definition IOXD_PIPE_FULL : Z := -2.

(** The bytes of an item, a [uint32_t] in the code. *)
Definition ilen (i : rx_item) : nat := Z.to_nat (Bufring.len i).

(** What the reader sees of the worker: the buffers' memory, the items delivered ([now]) and the ones
that will be, then how the input ends; and the buffers it gave back, in order. *)
Record rworld := {
  mem : gmap Z bytes;
  now : list rx_item;
  later : list rx_item;
  end_rc : Z;
  back : list Z
}.

Definition kmem (w : rworld) (id : Z) : bytes := default [] (mem w !! id).

Definition set_mem (w : rworld) (id : Z) (b : bytes) : rworld :=
  {| mem := <[id := b]> (mem w); now := now w; later := later w; end_rc := end_rc w; back := back w |}.
Definition give_back (id : Z) (w : rworld) : rworld :=
  {| mem := mem w; now := now w; later := later w; end_rc := end_rc w; back := back w ++ [id] |}.

(** [ioxd__conn_recv_item]: a queued item, else the next one once it arrived, else how the input ended. *)
Definition recv_item (w : rworld) : option rx_item * rworld :=
  match now w, later w with
  | i :: now', _ => (Some i, {| mem := mem w; now := now'; later := later w; end_rc := end_rc w; back := back w |})
  | [], i :: later' => (Some i, {| mem := mem w; now := []; later := later'; end_rc := end_rc w; back := back w |})
  | [], [] => (None, w)
  end.

Record pipereader := {
  buf : bytes; cap : nat; floor : nat;
  live_in_buf : bool; buf_pos : nat; buf_end : nat;
  cur : rx_item; has_cur : bool; cur_pos : nat;
  pinned : rx_item; has_pinned : bool; cur_is_pinned : bool;
  run_in_cur : bool; run_start : nat; run_len : nat;
  examined : nat; eof : bool; error : Z
}.

Definition ioxd__pipereader_init (buf_ : bytes) (cap_ : nat) : pipereader :=
  {| buf := buf_; cap := cap_; floor := 0; live_in_buf := false; buf_pos := 0; buf_end := 0;
     cur := rx_none; has_cur := false; cur_pos := 0; pinned := rx_none; has_pinned := false; cur_is_pinned := false;
     run_in_cur := false; run_start := 0; run_len := 0; examined := 0; eof := false; error := 0 |}.

(** *** Field updates *)

Definition set_buffer (pr : pipereader) (b : bytes) (fl : nat) (lib : bool) (bp be : nat) : pipereader :=
  {| buf := b; cap := cap pr; floor := fl; live_in_buf := lib; buf_pos := bp; buf_end := be;
     cur := cur pr; has_cur := has_cur pr; cur_pos := cur_pos pr; pinned := pinned pr; has_pinned := has_pinned pr;
     cur_is_pinned := cur_is_pinned pr; run_in_cur := run_in_cur pr; run_start := run_start pr; run_len := run_len pr;
     examined := examined pr; eof := eof pr; error := error pr |}.
Definition set_cur (pr : pipereader) (c : rx_item) (h : bool) (p : nat) (ip : bool) : pipereader :=
  {| buf := buf pr; cap := cap pr; floor := floor pr; live_in_buf := live_in_buf pr; buf_pos := buf_pos pr; buf_end := buf_end pr;
     cur := c; has_cur := h; cur_pos := p; pinned := pinned pr; has_pinned := has_pinned pr;
     cur_is_pinned := ip; run_in_cur := run_in_cur pr; run_start := run_start pr; run_len := run_len pr;
     examined := examined pr; eof := eof pr; error := error pr |}.
Definition set_pinned (pr : pipereader) (c : rx_item) (h ip : bool) : pipereader :=
  {| buf := buf pr; cap := cap pr; floor := floor pr; live_in_buf := live_in_buf pr; buf_pos := buf_pos pr; buf_end := buf_end pr;
     cur := cur pr; has_cur := has_cur pr; cur_pos := cur_pos pr; pinned := c; has_pinned := h;
     cur_is_pinned := ip; run_in_cur := run_in_cur pr; run_start := run_start pr; run_len := run_len pr;
     examined := examined pr; eof := eof pr; error := error pr |}.
Definition set_run (pr : pipereader) (ric : bool) (s l : nat) : pipereader :=
  {| buf := buf pr; cap := cap pr; floor := floor pr; live_in_buf := live_in_buf pr; buf_pos := buf_pos pr; buf_end := buf_end pr;
     cur := cur pr; has_cur := has_cur pr; cur_pos := cur_pos pr; pinned := pinned pr; has_pinned := has_pinned pr;
     cur_is_pinned := cur_is_pinned pr; run_in_cur := ric; run_start := s; run_len := l;
     examined := examined pr; eof := eof pr; error := error pr |}.
Definition set_end (pr : pipereader) (ex : nat) (e : bool) (er : Z) : pipereader :=
  {| buf := buf pr; cap := cap pr; floor := floor pr; live_in_buf := live_in_buf pr; buf_pos := buf_pos pr; buf_end := buf_end pr;
     cur := cur pr; has_cur := has_cur pr; cur_pos := cur_pos pr; pinned := pinned pr; has_pinned := has_pinned pr;
     cur_is_pinned := cur_is_pinned pr; run_in_cur := run_in_cur pr; run_start := run_start pr; run_len := run_len pr;
     examined := ex; eof := e; error := er |}.

Implicit Types (pr : pipereader) (w : rworld).

(** ** The operations *)

(** A span handed out: in buf, or in a kernel buffer. *)
Inductive where_ := InBuf (off len : nat) | InKern (id : Z) (off len : nat) | Nowhere.

Definition live_span pr : where_ :=
  if live_in_buf pr then InBuf (buf_pos pr) (buf_end pr - buf_pos pr)
  else if has_cur pr then InKern (buf_id (cur pr)) (cur_pos pr) (ilen (cur pr) - cur_pos pr)
  else Nowhere.

Definition wlen (s : where_) : nat := match s with InBuf _ n => n | InKern _ _ n => n | Nowhere => 0 end.

(** The bytes at a span. *)
Definition at_span pr w (s : where_) : bytes :=
  match s with
  | InBuf off n => span (buf pr) off n
  | InKern id off n => span (kmem w id) off n
  | Nowhere => []
  end.

Definition cur_done pr w : pipereader * rworld :=
  if negb (has_cur pr) || (cur_pos pr <? ilen (cur pr)) || (run_in_cur pr && (0 <? run_len pr)) then (pr, w)
  else (set_cur pr (cur pr) false 0 false,
        if cur_is_pinned pr then w else give_back (buf_id (cur pr)) w).

Definition compact pr : pipereader :=
  if floor pr <? buf_pos pr then
    let d := buf_pos pr - floor pr in
    set_buffer pr (blit (buf pr) (floor pr) (span (buf pr) (buf_pos pr) (buf_end pr - buf_pos pr)))
      (floor pr) (live_in_buf pr) (floor pr) (buf_end pr - d)
  else pr.

(** [gather], its copy of the run, and of the live bytes. *)
Definition gather_run pr w (run : nat) : pipereader :=
  let data := kmem w (buf_id (cur pr)) in
  let p :=
    if 0 <? run then
      let p := set_buffer pr (blit (buf pr) (floor pr) (span data (run_start pr) run))
                 (floor pr + run) (live_in_buf pr) (buf_pos pr) (buf_end pr) in
      let p := set_run p (run_in_cur p) (floor pr) (run_len p) in
      if has_pinned p then p else set_pinned p (cur p) true true
    else pr in
  set_run p false (run_start p) (run_len p).

Definition gather_live pr w (live : nat) : pipereader * rworld :=
  let data := kmem w (buf_id (cur pr)) in
  let b := if 0 <? live then blit (buf pr) (floor pr) (span data (cur_pos pr) live) else buf pr in
  let p := set_buffer pr b (floor pr) true (floor pr) (floor pr + live) in
  if has_cur p then cur_done (set_cur p (cur p) true (ilen (cur p)) (cur_is_pinned p)) w else (p, w).

Definition gather pr w : option (pipereader * rworld) :=
  let live := if has_cur pr then ilen (cur pr) - cur_pos pr else 0 in
  let run := if run_in_cur pr then run_len pr else 0 in
  if cap pr <? floor pr + run + live then None
  else Some (gather_live (gather_run pr w run) w live).

Definition refuse pr w (i : rx_item) : Z * pipereader * rworld :=
  (IOXD_PIPE_FULL, set_end pr (examined pr) (eof pr) IOXD_PIPE_FULL, give_back (buf_id i) w).

(** The end of [more]: the item joins the live bytes in buf. *)
Definition append_item pr w (i : rx_item) : Z * pipereader * rworld :=
  let n := ilen i in
  let pr := if cap pr <? buf_end pr + n then compact pr else pr in
  if cap pr <? buf_end pr + n then refuse pr w i
  else (1%Z, set_buffer pr (blit (buf pr) (buf_end pr) (span (kmem w (buf_id i)) 0 n))
               (floor pr) (live_in_buf pr) (buf_pos pr) (buf_end pr + n), give_back (buf_id i) w).

Definition more pr w : Z * pipereader * rworld :=
  if eof pr then (0%Z, pr, w)
  else
    match recv_item w with
    | (None, w) =>
        if (end_rc w <? 0)%Z then (IOXD_PIPE_GONE, set_end pr (examined pr) true IOXD_PIPE_GONE, w)
        else (0%Z, set_end pr (examined pr) true (error pr), w)
    | (Some i, w) =>
        if negb (live_in_buf pr) && negb (has_cur pr) then (1%Z, set_cur pr i true 0 false, w)
        else if negb (live_in_buf pr) then
          match gather pr w with
          | None => refuse pr w i
          | Some (pr, w) => append_item pr w i
          end
        else append_item pr w i
    end.

(** [for (;;)]: every round but the last takes an item. *)
Fixpoint read_loop (fuel : nat) pr w : Z * where_ * pipereader * rworld :=
  let l := live_span pr in
  if examined pr <? wlen l then (1%Z, l, pr, w)
  else
    match fuel with
    | 0 => (0%Z, Nowhere, pr, w)
    | S fuel' =>
        match more pr w with
        | (rc, pr, w) => if (rc <=? 0)%Z then (rc, Nowhere, pr, w) else read_loop fuel' pr w
        end
    end.

Definition items_left w : nat := length (now w) + length (later w).

Definition ioxd__pipereader_read pr w : Z * where_ * pipereader * rworld :=
  if negb (error pr =? 0)%Z then (error pr, Nowhere, pr, w) else read_loop (S (items_left w)) pr w.

Definition ioxd__pipereader_examine pr (n : nat) : pipereader := set_end pr n (eof pr) (error pr).

Definition consume pr w (n : nat) : pipereader * rworld :=
  let have := wlen (live_span pr) in
  let n := if have <? n then have else n in
  let '(pr, w) :=
    if live_in_buf pr then
      let p := set_buffer pr (buf pr) (floor pr) true (buf_pos pr + n) (buf_end pr) in
      (if buf_end pr <=? buf_pos pr + n then set_buffer p (buf p) (floor p) false (floor p) (floor p) else p, w)
    else if has_cur pr then cur_done (set_cur pr (cur pr) true (cur_pos pr + n) (cur_is_pinned pr)) w
    else (pr, w) in
  (set_end pr (if n <? examined pr then examined pr - n else 0) (eof pr) (error pr), w).

Definition ioxd__pipereader_drop pr w (n : nat) : pipereader * rworld := consume pr w n.

(** The kept bytes are extended in place, or moved next to the run; then the bytes are consumed. *)
Definition ioxd__pipereader_keep pr w (n : nat) : option where_ * pipereader * rworld :=
  let live := live_span pr in
  if wlen live <? n then (None, pr, w)
  else if n =? 0 then (Some live, pr, w)
  else
    let placed : option (where_ * pipereader * rworld) + pipereader :=
      if live_in_buf pr then
        let p :=
          if run_len pr =? 0 then
            set_run (set_buffer pr (buf pr) (buf_pos pr) true (buf_pos pr) (buf_end pr)) false (buf_pos pr) 0
          else if negb (buf_pos pr =? floor pr) then
            set_buffer pr (blit (buf pr) (floor pr) (span (buf pr) (buf_pos pr) n)) (floor pr) true (buf_pos pr) (buf_end pr)
          else pr in
        inl (Some (InBuf (floor p) n, set_buffer p (buf p) (floor p + n) true (buf_pos p) (buf_end p), w))
      else if has_cur pr && ((run_len pr =? 0) || run_in_cur pr) then
        let p := if run_len pr =? 0 then set_run pr true (cur_pos pr) 0 else pr in
        let run_end := run_start p + run_len p in
        let id := buf_id (cur p) in
        let w' := if negb (run_end =? cur_pos p)
                  then set_mem w id (blit (kmem w id) run_end (span (kmem w id) (cur_pos p) n)) else w in
        inl (Some (InKern id run_end n, p, w'))
      else if has_cur pr then
        if cap pr <? floor pr + n then inr (set_end pr (examined pr) (eof pr) IOXD_PIPE_FULL)
        else
          let b := blit (buf pr) (floor pr) (span (kmem w (buf_id (cur pr))) (cur_pos pr) n) in
          inl (Some (InBuf (floor pr) n, set_buffer pr b (floor pr + n) false (floor pr + n) (floor pr + n), w))
      else inl None in
    match placed with
    | inr p => (None, p, w)
    | inl None => (None, pr, w)
    | inl (Some (kept, p, w)) =>
        let '(p, w) := consume (set_run p (run_in_cur p) (run_start p) (run_len p + n)) w n in (Some kept, p, w)
    end.

Definition ioxd__pipereader_run_begin pr w : pipereader * rworld :=
  let pr1 :=
    if run_in_cur pr && (0 <? run_len pr) then
      if has_pinned pr && negb (cur_is_pinned pr) then
        if cap pr <? floor pr + run_len pr then set_end pr (examined pr) (eof pr) IOXD_PIPE_FULL
        else set_buffer pr (blit (buf pr) (floor pr) (span (kmem w (buf_id (cur pr))) (run_start pr) (run_len pr)))
               (floor pr + run_len pr) (live_in_buf pr) (buf_pos pr) (buf_end pr)
      else set_pinned pr (cur pr) true true
    else pr in
  cur_done (set_run pr1 false (run_start pr1) 0) w.

Definition ioxd__pipereader_run pr : where_ :=
  if run_in_cur pr then InKern (buf_id (cur pr)) (run_start pr) (run_len pr) else InBuf (run_start pr) (run_len pr).

Definition ioxd__pipereader_release pr w : pipereader * rworld :=
  let p := set_run pr false (run_start pr) 0 in
  let p :=
    if live_in_buf p then
      set_buffer p (blit (buf p) 0 (span (buf p) (buf_pos p) (buf_end p - buf_pos p))) 0 true 0 (buf_end p - buf_pos p)
    else set_buffer p (buf p) 0 false 0 0 in
  let '(p, w) :=
    if has_pinned p then
      if cur_is_pinned p then (set_pinned p (pinned p) false false, w)
      else (set_pinned p (pinned p) false (cur_is_pinned p), give_back (buf_id (pinned p)) w)
    else (p, w) in
  cur_done p w.

Definition ioxd__pipereader_close pr w : pipereader * rworld :=
  let w := if has_cur pr && negb (cur_is_pinned pr) then give_back (buf_id (cur pr)) w else w in
  let w := if has_pinned pr then give_back (buf_id (pinned pr)) w else w in
  (set_pinned (set_cur pr (cur pr) false (cur_pos pr) false) (pinned pr) false false, w).

(** [copy] with room for [n]: the result, and the bytes stored at [dst]. *)
Fixpoint copy_loop (fuel : nat) pr w (n : nat) : Z * bytes * pipereader * rworld :=
  let l := live_span pr in
  if 0 <? wlen l then
    let k := if wlen l <? n then wlen l else n in
    let data := take k (at_span pr w l) in
    let '(pr, w) := consume pr w k in (Z.of_nat k, data, pr, w)
  else
    match fuel with
    | 0 => (0%Z, [], pr, w)
    | S fuel' =>
        match more pr w with
        | (rc, pr, w) => if (rc <=? 0)%Z then (rc, [], pr, w) else copy_loop fuel' pr w n
        end
    end.

Definition ioxd__pipereader_copy pr w (n : nat) : Z * bytes * pipereader * rworld :=
  if negb (error pr =? 0)%Z then (error pr, [], pr, w) else copy_loop (S (items_left w)) pr w n.

Fixpoint avail_loop (fuel : nat) pr w : Z * where_ * pipereader * rworld :=
  let l := live_span pr in
  if examined pr <? wlen l then (1%Z, l, pr, w)
  else
    match now w, fuel with
    | [], _ => (0%Z, Nowhere, pr, w)
    | _, 0 => (0%Z, Nowhere, pr, w)
    | _, S fuel' =>
        match more pr w with
        | (rc, pr, w) => if (rc <=? 0)%Z then (rc, Nowhere, pr, w) else avail_loop fuel' pr w
        end
    end.

Definition ioxd__pipereader_avail pr w : Z * where_ * pipereader * rworld :=
  if negb (error pr =? 0)%Z then (error pr, Nowhere, pr, w) else avail_loop (S (items_left w)) pr w.

Definition ioxd__pipereader_inject pr w (data : bytes) : bool * pipereader * rworld :=
  if negb (error pr =? 0)%Z then (false, pr, w)
  else
    match (if live_in_buf pr then Some (pr, w)
           else if has_cur pr then gather pr w
           else Some (set_buffer pr (buf pr) (floor pr) true (floor pr) (floor pr), w)) with
    | None => (false, pr, w)
    | Some (pr, w) =>
        let n := length data in
        let pr := if cap pr <? buf_end pr + n then compact pr else pr in
        if cap pr <? buf_end pr + n then (false, pr, w)
        else (true, set_buffer pr (blit (buf pr) (buf_end pr) data) (floor pr) (live_in_buf pr) (buf_pos pr) (buf_end pr + n), w)
    end.

(** ** What the reader stands for

    The run in progress, the live bytes and the bytes still to come. *)
Definition run_bytes pr w : bytes := if 0 <? run_len pr then at_span pr w (ioxd__pipereader_run pr) else [].
Definition live_bytes pr w : bytes := at_span pr w (live_span pr).
Definition item_bytes w (i : rx_item) : bytes := span (kmem w (buf_id i)) 0 (ilen i).
Definition coming w : bytes := concat (map (item_bytes w) (now w ++ later w)).

(** The buffers the reader owns. *)
Definition owned pr : list Z :=
  (if has_cur pr && negb (cur_is_pinned pr) then [buf_id (cur pr)] else []) ++
  (if has_pinned pr then [buf_id (pinned pr)] else []).

(** Every buffer there is, by where it is: given back, the reader's, or not received yet. A buffer is
named by its delivery - the kernel may fill it again once it came back, under another name. *)
Definition ledger pr w : list Z := back w ++ owned pr ++ map buf_id (now w ++ later w).

(** The first [k] live bytes may already belong to the run: what [keep] does before it consumes. *)
Record reader_ok (k : nat) pr w : Prop := {
  ro_cap : length (buf pr) = cap pr;
  ro_floor : floor pr <= cap pr;
  ro_buf : live_in_buf pr = true ->
           floor pr <= buf_pos pr + k /\ buf_pos pr <= buf_end pr <= cap pr /\ has_cur pr = false;
  ro_cur : has_cur pr = true -> cur_pos pr <= ilen (cur pr) <= length (kmem w (buf_id (cur pr)));
  ro_run_cur : run_in_cur pr = true -> 0 < run_len pr ->
               has_cur pr = true /\ run_start pr + run_len pr <= cur_pos pr + k;
  ro_run_buf : run_in_cur pr = false -> 0 < run_len pr -> run_start pr + run_len pr = floor pr;
  ro_pin : cur_is_pinned pr = true -> has_cur pr = true /\ has_pinned pr = true /\ cur pr = pinned pr;
  ro_ledger : NoDup (ledger pr w);
  ro_items : forall i, i ∈ now w ++ later w -> ilen i <= length (kmem w (buf_id i))
}.

(** Frozen bytes: below the floor of buf, or in the pinned buffer before anything that may still move. *)
Definition frozen pr (s : where_) : Prop :=
  match s with
  | InBuf off n => off + n <= floor pr /\ (run_in_cur pr = false -> 0 < run_len pr -> off + n <= run_start pr)
  | InKern id off n =>
      has_pinned pr = true /\ buf_id (pinned pr) = id /\
      (cur_is_pinned pr = true ->
       off + n <= (if run_in_cur pr && (0 <? run_len pr) then run_start pr else cur_pos pr))
  | Nowhere => False
  end.

(** What every operation but [release] and [close] leaves alone: the bytes frozen so far. *)
Definition keeps_frozen pr w pr' w' : Prop :=
  forall s, frozen pr s -> frozen pr' s /\ at_span pr' w' s = at_span pr w s.

Lemma keeps_frozen_refl pr w : keeps_frozen pr w pr w.
Proof. by intros s. Qed.

Lemma keeps_frozen_trans pr w pr1 w1 pr2 w2 :
  keeps_frozen pr w pr1 w1 -> keeps_frozen pr1 w1 pr2 w2 -> keeps_frozen pr w pr2 w2.
Proof. intros H1 H2 s Hs. destruct (H1 s Hs) as [Ha ->%symmetry]. destruct (H2 s Ha) as [? ->]. split; [done|]. by destruct (H1 s Hs). Qed.

(** An operation that only moves buffers about: same run, same live bytes, same input. *)
Record same pr w pr' w' : Prop := {
  sm_run : run_bytes pr' w' = run_bytes pr w;
  sm_live : live_bytes pr' w' = live_bytes pr w;
  sm_coming : coming w' = coming w;
  sm_ledger : ledger pr' w' ≡ₚ ledger pr w;
  sm_frozen : keeps_frozen pr w pr' w';
  sm_items : items_left w' = items_left w;
  sm_end : error pr' = error pr /\ eof pr' = eof pr /\ examined pr' = examined pr /\ end_rc w' = end_rc w;
  sm_len : run_len pr' = run_len pr
}.

Lemma same_refl pr w : same pr w pr w.
Proof. split; try done. Qed.

Lemma same_trans pr w pr1 w1 pr2 w2 : same pr w pr1 w1 -> same pr1 w1 pr2 w2 -> same pr w pr2 w2.
Proof.
  intros [] []. split; try congruence.
  - by etrans.
  - by eapply keeps_frozen_trans.
  - destruct sm_end0 as (? & ? & ? & ?), sm_end1 as (? & ? & ? & ?). split_and!; congruence.
Qed.

Lemma length_live pr w k : reader_ok k pr w -> length (live_bytes pr w) = wlen (live_span pr).
Proof.
  intros [Hc Hf Hb Hcur _ _ _ _ _]. unfold live_bytes, live_span. destruct (live_in_buf pr) eqn:E1; cbn.
  - destruct (Hb eq_refl) as (? & ? & ?). rewrite length_span; lia.
  - destruct (has_cur pr) eqn:E2; cbn; [|done]. destruct (Hcur eq_refl). rewrite length_span; lia.
Qed.

Lemma cur_done_spec pr w pr' w' :
  reader_ok 0 pr w -> cur_done pr w = (pr', w') -> reader_ok 0 pr' w' /\ same pr w pr' w'.
Proof.
  intros Hok Hd. unfold cur_done in Hd.
  destruct (negb (has_cur pr)) eqn:E1; cbn [orb] in Hd; [injection Hd as <- <-; split; [done|apply same_refl]|].
  destruct (Nat.ltb_spec (cur_pos pr) (ilen (cur pr))) as [Hlt|Hge]; cbn [orb] in Hd; [injection Hd as <- <-; split; [done|apply same_refl]|].
  destruct (run_in_cur pr && (0 <? run_len pr)) eqn:E3; [injection Hd as <- <-; split; [done|apply same_refl]|].
  apply negb_false_iff in E1. destruct Hok as [Hc Hf Hb Hcur Hrc Hrb Hp Hl Hi].
  assert (Hlib : live_in_buf pr = false) by (destruct (live_in_buf pr); [destruct (Hb eq_refl) as (_ & _ & ?); congruence|done]).
  assert (Hnr : run_in_cur pr = true -> run_len pr = 0).
  { intros Hr. rewrite Hr in E3. destruct (Nat.ltb_spec 0 (run_len pr)); [done|lia]. }
  assert (Hled : ledger pr' w' ≡ₚ ledger pr w).
  { injection Hd as <- <-. unfold ledger, owned. cbn. rewrite E1. destruct (cur_is_pinned pr) eqn:Ep; cbn.
    - destruct (Hp eq_refl) as (_ & -> & <-). done.
    - rewrite <- !app_assoc. cbn. done. }
  injection Hd as <- <-. split.
  - split; try (by rewrite Hled); cbn; try done; try (intros Hr Hl0; specialize (Hnr Hr); lia); [congruence|].
    by destruct (cur_is_pinned pr).
  - assert (Hm : forall id, kmem (if cur_is_pinned pr then w else give_back (buf_id (cur pr)) w) id = kmem w id) by (by destruct (cur_is_pinned pr)).
    split; try done.
    + unfold run_bytes, ioxd__pipereader_run. cbn. destruct (run_in_cur pr) eqn:Er; [by rewrite Hnr|]. done.
    + unfold live_bytes, live_span. cbn. rewrite Hlib, E1. cbn.
      replace (ilen (cur pr) - cur_pos pr) with 0 by lia. done.
    + by destruct (cur_is_pinned pr).
    + intros s Hs. destruct s as [off n|id off n|]; cbn in *; [done| |done]. rewrite Hm. naive_solver.
    + by destruct (cur_is_pinned pr).
    + split_and!; try done. by destruct (cur_is_pinned pr).
Qed.

Lemma span_blit_at dst off src n : length src = n -> off + n <= length dst -> span (blit dst off src) off n = src.
Proof. intros <- ?. by apply span_blit_same. Qed.

(** Frozen bytes of buf are below the floor, so a copy at the floor or above leaves them. *)
Lemma frozen_blit pr w off n b :
  off + n <= floor pr -> length (buf pr) = cap pr -> floor pr <= cap pr -> forall o, floor pr <= o -> o + length b <= cap pr ->
  span (blit (buf pr) o b) off n = span (buf pr) off n.
Proof. intros. apply span_blit_before; lia. Qed.

(** The run in buf ends at the floor. *)
Lemma run_in_buf_blit k pr w o b :
  reader_ok k pr w -> run_in_cur pr = false -> floor pr <= o -> o + length b <= cap pr ->
  (if 0 <? run_len pr then span (blit (buf pr) o b) (run_start pr) (run_len pr) else []) = run_bytes pr w.
Proof.
  intros [] Hr Ho Hb. unfold run_bytes, ioxd__pipereader_run. rewrite Hr. cbn.
  destruct (Nat.ltb_spec 0 (run_len pr)) as [Hl|]; [|done]. specialize (ro_run_buf0 Hr Hl). apply span_blit_before; lia.
Qed.

Lemma compact_spec pr w :
  reader_ok 0 pr w -> live_in_buf pr = true ->
  reader_ok 0 (compact pr) w /\ same pr w (compact pr) w /\ live_in_buf (compact pr) = true.
Proof.
  intros Hok Hlib. unfold compact. destruct (Nat.ltb_spec (floor pr) (buf_pos pr)) as [Hlt|]; [|split_and!; [done|apply same_refl|done]].
  pose proof Hok as [Hc Hf Hb Hcur Hrc Hrb Hp Hl Hi]. destruct (Hb Hlib) as (Hb1 & Hb2 & Hb3).
  set (data := span _ _ _). assert (Hd : length data = buf_end pr - buf_pos pr) by (unfold data; rewrite length_span; lia).
  assert (Hrun : run_in_cur pr = true -> 0 < run_len pr -> False) by (intros Hr Hl0; destruct (Hrc Hr Hl0); congruence).
  split; [|split; [|done]].
  - split; cbn; try done; [rewrite length_blit; lia|]. intros _. split_and!; try done; lia.
  - split; try done; cbn.
    + unfold run_bytes, ioxd__pipereader_run. cbn. destruct (Nat.ltb_spec 0 (run_len pr)) as [Hl0|]; [|done].
      destruct (run_in_cur pr) eqn:Er; [by destruct Hrun|]. specialize (Hrb eq_refl Hl0). cbn. apply span_blit_before; lia.
    + unfold live_bytes, live_span. cbn. rewrite Hlib. cbn.
      replace (buf_end pr - (buf_pos pr - floor pr) - floor pr) with (length data) by lia. rewrite span_blit_same by lia. done.
    + intros s Hs. split; [by destruct s|]. destruct s; cbn in *; try done. apply span_blit_before; lia.
Qed.

Lemma gather_run_spec pr w :
  let run := if run_in_cur pr then run_len pr else 0 in
  reader_ok 0 pr w -> live_in_buf pr = false -> floor pr + run <= cap pr ->
  let pr' := gather_run pr w run in
  reader_ok 0 pr' w /\ same pr w pr' w /\ live_in_buf pr' = false /\ run_in_cur pr' = false /\
  has_cur pr' = has_cur pr /\ cur pr' = cur pr /\ cur_pos pr' = cur_pos pr /\ floor pr' = floor pr + run /\ cap pr' = cap pr.
Proof.
  intros run Hok Hlib Hfit. unfold gather_run. pose proof Hok as [Hc Hf Hb Hcur Hrc Hrb Hp Hl Hi].
  destruct (Nat.ltb_spec 0 run) as [H0|H0].
  - destruct (run_in_cur pr) eqn:Er; [|unfold run in H0; lia]. change run with (run_len pr) in *.
    destruct (Hrc eq_refl H0) as [Hh Hend]. specialize (Hcur Hh).
    set (data := span _ _ _). assert (Hd : length data = run_len pr) by (unfold data; rewrite length_span; lia).
    set (p := if has_pinned _ then _ else _).
    assert (Hpf : floor p = floor pr + run_len pr /\ buf p = blit (buf pr) (floor pr) data /\ live_in_buf p = false /\
              cap p = cap pr /\ has_cur p = true /\ cur p = cur pr /\ cur_pos p = cur_pos pr /\ run_start p = floor pr /\
              run_len p = run_len pr /\ examined p = examined pr /\ eof p = eof pr /\ error p = error pr /\
              has_pinned p = true /\ (pinned p = if has_pinned pr then pinned pr else cur pr) /\
              cur_is_pinned p = if has_pinned pr then cur_is_pinned pr else true).
    { unfold p. cbn. destruct (has_pinned pr) eqn:Ehp; cbn; rewrite ?Ehp; split_and!; done. }
    destruct Hpf as (P1 & P2 & P3 & P4 & P5 & P6 & P7 & P8 & P9 & P10 & P11 & P12 & P13 & P14 & P15).
    assert (Hnp : has_pinned pr = false -> cur_is_pinned pr = false).
    { intros Hn. destruct (cur_is_pinned pr); [destruct (Hp eq_refl) as (_ & ? & _); congruence|done]. }
    assert (Hown : owned (set_run p false (run_start p) (run_len p)) = owned pr).
    { unfold owned. cbn. rewrite P5, P6, P13, P14, P15, Hh. destruct (has_pinned pr) eqn:Ehp; [done|].
      by rewrite Hnp. }
    assert (Hled : ledger (set_run p false (run_start p) (run_len p)) w = ledger pr w) by (unfold ledger; by rewrite Hown).
    split; [|split; [|cbn; split_and!; congruence]].
    + split; try (by rewrite Hled); cbn; rewrite ?P1, ?P2, ?P3, ?P4, ?P5, ?P6, ?P7, ?P8, ?P9; try done; try lia.
      * rewrite length_blit; lia.
      * rewrite P15, P13, P14. destruct (has_pinned pr) eqn:Ehp; [|done]. intros Hcp. destruct (Hp Hcp) as (_ & _ & ->). done.
    + split; try done.
      * unfold run_bytes, ioxd__pipereader_run. cbn. rewrite P8, P9, Er. cbn. rewrite P2.
        destruct (Nat.ltb_spec 0 (run_len pr)); [|lia]. rewrite <- Hd at 1. rewrite span_blit_same by lia. done.
      * unfold live_bytes, live_span. cbn. by rewrite P3, P5, P6, P7, Hlib, Hh.
      * by rewrite Hled.
      * intros s Hs. destruct s as [off n|id off n|]; cbn in *; [| |done].
        -- destruct Hs as [Hs _]. rewrite P1, P2, P8. split; [lia|]. apply span_blit_before; lia.
        -- destruct Hs as (Hs1 & Hs2 & Hs3). rewrite P13, P14, P15, P7, Hs1. split; [|done]. split; [done|]. split; [done|].
           intros Hcp. specialize (Hs3 Hcp). rewrite Er in Hs3. cbn in Hs3. destruct (Nat.ltb_spec 0 (run_len pr)); lia.
  - assert (run = 0) as Hr0 by lia. rewrite Hr0, Nat.add_0_r. clear Hfit.
    assert (Hr : run_in_cur pr = true -> run_len pr = 0) by (intros Hr; unfold run in Hr0; by rewrite Hr in Hr0).
    split; [|split; [|by split_and!]].
    + split; try done; cbn. intros _ Hl0. apply Hrb; [|done]. destruct (run_in_cur pr); [specialize (Hr eq_refl); lia|done].
    + split; try done.
      * unfold run_bytes, ioxd__pipereader_run. cbn. destruct (run_in_cur pr); [by rewrite Hr|done].
      * intros s Hs. split; [|by destruct s]. destruct s as [off n|id off n|]; cbn in *; [| |done].
        -- destruct Hs as [Hs1 Hs2]. split; [done|]. intros _ Hl0. apply Hs2; [|done]. destruct (run_in_cur pr); [specialize (Hr eq_refl); lia|done].
        -- destruct Hs as (Hs1 & Hs2 & Hs3). split_and!; try done. intros Hcp. specialize (Hs3 Hcp).
           destruct (run_in_cur pr); cbn in *; [rewrite Hr in Hs3 by done; done|done].
Qed.

Lemma gather_spec pr w pr' w' :
  reader_ok 0 pr w -> live_in_buf pr = false -> gather pr w = Some (pr', w') ->
  reader_ok 0 pr' w' /\ same pr w pr' w' /\ live_in_buf pr' = true.
Proof.
  intros Hok0 Hlib0 Hg. unfold gather in Hg. set (live := if has_cur pr then _ else 0) in *.
  set (run := if run_in_cur pr then run_len pr else 0) in *.
  destruct (Nat.ltb_spec (cap pr) (floor pr + run + live)) as [|Hfit]; [done|].
  destruct (gather_run_spec pr w Hok0 Hlib0) as (Hok & Hsame & Hlib & Hrc0 & Hh & Hcr & Hcp & Hfl & Hca).
  { fold run. lia. }
  fold run in Hok, Hsame, Hlib, Hrc0, Hh, Hcr, Hcp, Hfl, Hca. set (p := gather_run pr w run) in *. clearbody p.
  assert (live = if has_cur p then ilen (cur p) - cur_pos p else 0) as Hlive by (by rewrite Hh, Hcr, Hcp).
  assert (Hfit' : floor p + live <= cap p) by lia. clearbody live. clear Hfit.
  enough (reader_ok 0 pr' w' /\ same p w pr' w' /\ live_in_buf pr' = true) as (? & ? & ?) by (split_and!; try done; by eapply same_trans).
  clear pr Hok0 Hlib0 Hsame Hh Hcr Hcp Hfl Hca run.
  pose proof Hok as [Hc Hf Hb Hcur Hrc Hrb Hp Hl Hi].
  injection Hg as Hg. unfold gather_live in Hg. set (b := if 0 <? live then _ else _) in *.
  assert (Hbl : length b = cap p /\ span b (floor p) live = live_bytes p w /\
                forall off n, off + n <= floor p -> span b off n = span (buf p) off n).
  { unfold b. destruct (Nat.ltb_spec 0 live) as [H0|H0].
    - destruct (has_cur p) eqn:Hh; [|lia]. specialize (Hcur eq_refl). set (d := span _ _ _).
      assert (Hd : length d = live) by (unfold d; rewrite length_span; lia).
      rewrite length_blit by lia. split; [done|]. split; [|intros; apply span_blit_before; lia].
      rewrite <- Hd at 1. rewrite span_blit_same by lia. unfold live_bytes, live_span. by rewrite Hlib, Hh, <- Hlive.
    - split; [done|]. split; [|done]. replace live with 0 in * by lia. unfold live_bytes, live_span. rewrite Hlib.
      destruct (has_cur p); cbn; [|done]. by rewrite <- Hlive. }
  destruct Hbl as (Hb1 & Hb2 & Hb3). clearbody b. cbn [has_cur set_buffer] in Hg.
  assert (Hrun : (if 0 <? run_len p then span b (run_start p) (run_len p) else []) = run_bytes p w).
  { unfold run_bytes, ioxd__pipereader_run. rewrite Hrc0. destruct (Nat.ltb_spec 0 (run_len p)); [|done]. cbn.
    apply Hb3. rewrite Hrb; done || lia. }
  assert (Hled : ledger pr' w' ≡ₚ ledger p w).
  { destruct (has_cur p) eqn:Hh; [|by injection Hg as <- <-].
    unfold cur_done in Hg. cbn in Hg. rewrite Nat.ltb_irrefl, Hrc0 in Hg. cbn in Hg. injection Hg as <- <-.
    unfold ledger, owned. cbn. rewrite Hh. destruct (cur_is_pinned p) eqn:Ep; cbn; [done|]. by rewrite <- !app_assoc. }
  assert (Hfields : buf pr' = b /\ cap pr' = cap p /\ floor pr' = floor p /\ live_in_buf pr' = true /\ buf_pos pr' = floor p /\
            buf_end pr' = floor p + live /\ has_cur pr' = false /\ cur_is_pinned pr' = false /\
            pinned pr' = pinned p /\ has_pinned pr' = has_pinned p /\
            run_in_cur pr' = false /\ run_start pr' = run_start p /\ run_len pr' = run_len p /\
            error pr' = error p /\ eof pr' = eof p /\ examined pr' = examined p /\
            mem w' = mem w /\ now w' = now w /\ later w' = later w /\ end_rc w' = end_rc w).
  { destruct (has_cur p) eqn:Hh.
    - unfold cur_done in Hg. cbn in Hg. rewrite Nat.ltb_irrefl, Hrc0 in Hg. cbn in Hg. injection Hg as <- <-. cbn.
      split_and!; try done; by destruct (cur_is_pinned p).
    - injection Hg as <- <-. cbn. split_and!; try done. destruct (cur_is_pinned p); [|done]. by destruct (Hp eq_refl). }
  destruct Hfields as (F1 & F2 & F3 & F4 & F5 & F6 & F7 & F8 & F9 & F10 & F11 & F12 & F13 & F14 & F15 & F16 & F17 & F18 & F19 & F20).
  split; [|split; [|done]].
  - split; try (by rewrite Hled); rewrite ?F1, ?F2, ?F3, ?F4, ?F5, ?F6, ?F7, ?F8, ?F11, ?F12, ?F13, ?F17, ?F18, ?F19; try done; try lia.
    + intros _ Hl0. by apply Hrb.
    + unfold kmem. by rewrite F17.
  - split.
    + unfold run_bytes at 1. unfold ioxd__pipereader_run. rewrite F11, F12, F13. cbn. by rewrite F1.
    + unfold live_bytes at 1, live_span. rewrite F4. cbn. rewrite F1, F5, F6. by replace (floor p + live - floor p) with live by lia.
    + unfold coming, item_bytes, kmem. by rewrite F17, F18, F19.
    + done.
    + intros s Hs. destruct s as [off n|id off n|]; cbn in *; [| |done].
      * rewrite F1, F3, F11, F12, F13. split; [naive_solver|]. apply Hb3. lia.
      * rewrite F8, F9, F10. unfold kmem. rewrite F17. naive_solver.
    + unfold items_left. by rewrite F18, F19.
    + done.
    + done.
Qed.

(** ** More input *)

Lemma recv_item_Some w i w' :
  recv_item w = (Some i, w') ->
  now w ++ later w = i :: now w' ++ later w' /\ mem w' = mem w /\ end_rc w' = end_rc w /\ back w' = back w /\
  items_left w = S (items_left w').
Proof.
  unfold recv_item, items_left. destruct (now w) as [|j n]; [destruct (later w) as [|j n]; [done|]|]; intros [= <- <-]; cbn; split_and!; done || lia.
Qed.

Lemma recv_item_None w w' : recv_item w = (None, w') -> w' = w /\ now w = [] /\ later w = [].
Proof. unfold recv_item. destruct (now w); [destruct (later w); [|done]|done]. by intros [= <-]. Qed.

(** An item that joined the live bytes, or was refused. *)
Record joined pr w (i : rx_item) (rc : Z) pr' w' : Prop := {
  jo_ok : reader_ok 0 pr' w';
  jo_run : run_bytes pr' w' = run_bytes pr w;
  jo_coming : coming w' = coming w;
  jo_ledger : ledger pr' w' ≡ₚ buf_id i :: ledger pr w;
  jo_frozen : keeps_frozen pr w pr' w';
  jo_items : items_left w' = items_left w;
  jo_end : eof pr' = eof pr /\ examined pr' = examined pr /\ end_rc w' = end_rc w;
  jo_rc : rc = 1%Z /\ live_bytes pr' w' = live_bytes pr w ++ item_bytes w i /\ error pr' = error pr \/
          rc = IOXD_PIPE_FULL /\ live_bytes pr' w' = live_bytes pr w /\ error pr' = IOXD_PIPE_FULL
}.

Lemma joined_same pr w pr1 w1 i rc pr' w' :
  same pr w pr1 w1 -> mem w1 = mem w -> joined pr1 w1 i rc pr' w' -> joined pr w i rc pr' w'.
Proof.
  intros [] Hm []. split; try congruence.
  - by rewrite jo_ledger0, sm_ledger0.
  - by eapply keeps_frozen_trans.
  - destruct sm_end0 as (? & ? & ? & ?), jo_end0 as (? & ? & ?). split_and!; congruence.
  - unfold item_bytes, kmem in *. rewrite Hm, sm_live0 in jo_rc0. destruct sm_end0 as (He & _). by rewrite He in jo_rc0.
Qed.

Lemma ledger_give_back pr id w : ledger pr (give_back id w) ≡ₚ id :: ledger pr w.
Proof. unfold ledger. cbn. rewrite <- app_assoc. cbn. by rewrite <- Permutation_middle. Qed.

Lemma reader_ok_give_back k pr id w : reader_ok k pr w -> NoDup (id :: ledger pr w) -> reader_ok k pr (give_back id w).
Proof. intros [] Hnd. split; try done. by rewrite ledger_give_back. Qed.

Lemma refuse_spec pr w i rc pr' w' :
  reader_ok 0 pr w -> NoDup (buf_id i :: ledger pr w) -> refuse pr w i = (rc, pr', w') -> joined pr w i rc pr' w'.
Proof.
  intros Hok Hnd [= <- <- <-]. pose proof (reader_ok_give_back _ _ _ _ Hok Hnd) as [].
  split; try done; [by rewrite <- ledger_give_back|by right].
Qed.

Lemma append_item_spec pr w i rc pr' w' :
  reader_ok 0 pr w -> live_in_buf pr = true -> NoDup (buf_id i :: ledger pr w) -> ilen i <= length (kmem w (buf_id i)) ->
  append_item pr w i = (rc, pr', w') -> joined pr w i rc pr' w'.
Proof.
  intros Hok Hlib Hnd Hi Ha. unfold append_item in Ha.
  set (p := if cap pr <? buf_end pr + ilen i then compact pr else pr) in *.
  assert (reader_ok 0 p w /\ same pr w p w /\ live_in_buf p = true) as (Hokp & Hsame & Hlibp).
  { unfold p. destruct (cap pr <? buf_end pr + ilen i); [by apply compact_spec|split_and!; [done|apply same_refl|done]]. }
  apply (joined_same _ _ p w); [done|done|]. assert (NoDup (buf_id i :: ledger p w)) as Hndp by (by rewrite (sm_ledger _ _ _ _ Hsame)).
  clearbody p. clear pr Hok Hlib Hnd Hsame.
  destruct (Nat.ltb_spec (cap p) (buf_end p + ilen i)) as [Hbig|Hfit]; [by apply refuse_spec|].
  injection Ha as <- <- <-. pose proof (reader_ok_give_back _ _ _ _ Hokp Hndp) as Hok'. destruct Hok' as [Hc Hf Hb Hcur Hrc Hrb Hp Hl Hit].
  destruct (Hb Hlibp) as (Hb1 & Hb2 & Hb3).
  assert (Hd : length (item_bytes w i) = ilen i) by (unfold item_bytes; rewrite length_span; lia).
  fold (item_bytes w i).
  split.
  - split; try done; cbn; [rewrite length_blit; lia|]. intros _. split_and!; try done; lia.
  - unfold run_bytes, ioxd__pipereader_run. cbn. destruct (run_in_cur p) eqn:Er; [done|]. destruct (Nat.ltb_spec 0 (run_len p)); [|done].
    cbn. rewrite span_blit_before; [done|rewrite (Hrb eq_refl); lia|lia].
  - done.
  - exact (ledger_give_back p (buf_id i) w).
  - intros s Hs. destruct s as [off n|id off n|]; cbn in *; [|done..]. split; [done|]. apply span_blit_before; lia.
  - done.
  - done.
  - left. split; [done|]. split; [|done]. unfold live_bytes, live_span. cbn. rewrite Hlibp. cbn.
    replace (buf_end p + ilen i - buf_pos p) with (buf_end p - buf_pos p + ilen i) by lia.
    rewrite <- span_app_join. f_equal; [apply span_blit_before; lia|].
    replace (buf_pos p + (buf_end p - buf_pos p)) with (buf_end p) by lia. rewrite <- Hd. apply span_blit_same. lia.
Qed.

(** The outcome of [more]: an item joined, the input ended, or there was no room for it. *)
Record mored pr w (rc : Z) pr' w' : Prop := {
  mo_ok : reader_ok 0 pr' w';
  mo_run : run_bytes pr' w' = run_bytes pr w;
  mo_ledger : ledger pr' w' ≡ₚ ledger pr w;
  mo_frozen : keeps_frozen pr w pr' w';
  mo_examined : examined pr' = examined pr;
  mo_stream : live_bytes pr' w' ++ coming w' = live_bytes pr w ++ coming w \/ rc = IOXD_PIPE_FULL;
  mo_grow : live_bytes pr w `prefix_of` live_bytes pr' w';
  mo_rc : rc = 1%Z /\ items_left w = S (items_left w') /\ error pr' = error pr /\ eof pr = false /\ eof pr' = false \/
          rc = 0%Z /\ eof pr' = true /\ (eof pr = true \/ items_left w = 0) /\ error pr' = error pr /\ live_bytes pr' w' = live_bytes pr w /\ w' = w \/
          rc = IOXD_PIPE_GONE /\ items_left w = 0 /\ error pr' = IOXD_PIPE_GONE /\ live_bytes pr' w' = live_bytes pr w /\ w' = w \/
          rc = IOXD_PIPE_FULL /\ items_left w = S (items_left w') /\ error pr' = IOXD_PIPE_FULL /\ live_bytes pr' w' = live_bytes pr w
}.

Lemma more_spec pr w rc pr' w' :
  reader_ok 0 pr w -> more pr w = (rc, pr', w') -> mored pr w rc pr' w'.
Proof.
  intros Hok Hm. unfold more in Hm. destruct (eof pr) eqn:He.
  { injection Hm as <- <- <-. split; try done; [by left|]. right; left. split_and!; try done. by left. }
  destruct (recv_item w) as [[i|] w1] eqn:Er.
  - apply recv_item_Some in Er as (Hq & Hmem & Hrc & Hback & Hleft).
    assert (Hlw : ledger pr w ≡ₚ buf_id i :: ledger pr w1).
    { unfold ledger. rewrite Hq, Hback. cbn. rewrite !app_assoc. by rewrite <- Permutation_middle. }
    assert (Hok1 : reader_ok 0 pr w1).
    { destruct Hok. rewrite Hlw in ro_ledger0. apply NoDup_cons in ro_ledger0 as [_ ?]. split; try done; unfold kmem; rewrite Hmem; try done.
      intros j Hj. apply ro_items0. rewrite Hq. by right. }
    assert (Hnd : NoDup (buf_id i :: ledger pr w1)) by (rewrite <- Hlw; apply Hok).
    assert (Hi : ilen i <= length (kmem w1 (buf_id i))).
    { unfold kmem. rewrite Hmem. apply Hok. rewrite Hq. by left. }
    assert (Hcom : coming w = item_bytes w i ++ coming w1).
    { unfold coming. rewrite Hq. unfold item_bytes, kmem. by rewrite Hmem. }
    assert (Hfz : keeps_frozen pr w pr w1) by (intros s Hs; destruct s; cbn; unfold kmem; by rewrite ?Hmem).
    assert (Hlv : live_bytes pr w1 = live_bytes pr w).
    { unfold live_bytes, live_span. repeat case_match; cbn; unfold kmem; by rewrite ?Hmem. }
    assert (Hrn : run_bytes pr w1 = run_bytes pr w).
    { unfold run_bytes, ioxd__pipereader_run. repeat case_match; cbn; unfold kmem; by rewrite ?Hmem. }
    assert (Hjoin : joined pr w1 i rc pr' w' -> mored pr w rc pr' w').
    { intros []. destruct jo_end0 as (J1 & J2 & J3). unfold item_bytes, kmem in jo_rc0. rewrite Hmem in jo_rc0. fold (kmem w (buf_id i)) (item_bytes w i) in jo_rc0.
      split; try done.
      - congruence.
      - by rewrite jo_ledger0, Hlw.
      - by eapply keeps_frozen_trans.
      - destruct jo_rc0 as [(-> & -> & _)|(-> & _)]; [left|by right]. by rewrite jo_coming0, Hcom, Hlv, app_assoc.
      - destruct jo_rc0 as [(-> & -> & _)|(-> & -> & _)]; rewrite Hlv; [by apply prefix_app_r|done].
      - destruct jo_rc0 as [(-> & Hl & Her)|(-> & Hl & Her)]; [left|right; right; right]; rewrite jo_items0; split_and!; congruence. }
    destruct (live_in_buf pr) eqn:Hlib; cbn [negb andb] in Hm.
    + apply Hjoin. by apply append_item_spec.
    + destruct (has_cur pr) eqn:Hh; cbn [negb] in Hm.
      * destruct (gather pr w1) as [[p w2]|] eqn:Eg; [|apply Hjoin; by apply refuse_spec].
        pose proof Eg as Eg'. apply gather_spec in Eg as (Hok2 & Hsame & Hlib2); [|done..].
        assert (Hm2 : mem w2 = mem w1).
        { unfold gather in Eg'. case_match; [done|]. injection Eg' as Eg'. unfold gather_live, cur_done in Eg'. cbn in Eg'.
          repeat case_match; injection Eg' as <- <-; done. }
        apply Hjoin. apply (joined_same _ _ p w2); [done|done|]. apply append_item_spec; try done.
        -- by rewrite (sm_ledger _ _ _ _ Hsame).
        -- unfold kmem. by rewrite Hm2.
      * injection Hm as <- <- <-. destruct Hok1 as [Hc Hf Hb Hcur Hrcr Hrb Hp Hl Hit].
        assert (Hnp : cur_is_pinned pr = false) by (destruct (cur_is_pinned pr); [destruct (Hp eq_refl); congruence|done]).
        assert (Hled : ledger (set_cur pr i true 0 false) w1 ≡ₚ ledger pr w).
        { rewrite Hlw. unfold ledger, owned. cbn. rewrite Hh. cbn. by rewrite <- Permutation_middle. }
        assert (Hnr : run_in_cur pr = true -> 0 < run_len pr -> False) by (intros Hr H0; destruct (Hrcr Hr H0); congruence).
        assert (Hl0 : live_bytes pr w = []) by (unfold live_bytes, live_span; by rewrite Hlib, Hh).
        assert (Hl1 : live_bytes (set_cur pr i true 0 false) w1 = item_bytes w i).
        { unfold live_bytes, live_span. cbn. rewrite Hlib. cbn. rewrite Nat.sub_0_r. unfold item_bytes, kmem. by rewrite Hmem. }
        split.
        -- split; try (by rewrite Hled; apply Hok); cbn; try done; [naive_solver|lia|naive_solver].
        -- rewrite <- Hrn. unfold run_bytes, ioxd__pipereader_run. cbn. destruct (run_in_cur pr); [|done].
           destruct (Nat.ltb_spec 0 (run_len pr)); [by destruct Hnr|done].
        -- done.
        -- intros s Hs. destruct (Hfz s Hs) as [_ Heq]. destruct s as [off n|id off n|]; cbn in *; [done| |done].
           split; [|done]. destruct Hs as (? & ? & _). split_and!; done.
        -- done.
        -- left. by rewrite Hl1, Hl0, Hcom.
        -- rewrite Hl0. apply prefix_nil.
        -- left. by split_and!.
  - apply recv_item_None in Er as (-> & Hn & Hlt). assert (Hz : items_left w = 0) by (unfold items_left; by rewrite Hn, Hlt).
    destruct (end_rc w <? 0)%Z; injection Hm as <- <- <-; destruct Hok; split; try done; try (by left); try (by split).
    + right; right; left. by split_and!.
    + right; left. split_and!; try done. by right.
Qed.

(** ** Consuming *)

(** [n] live bytes went; the run, the input and the frozen bytes did not change. *)
Record consumed (n : nat) pr w pr' w' : Prop := {
  co_ok : reader_ok 0 pr' w';
  co_run : run_bytes pr' w' = run_bytes pr w;
  co_live : live_bytes pr' w' = drop n (live_bytes pr w);
  co_coming : coming w' = coming w;
  co_ledger : ledger pr' w' ≡ₚ ledger pr w;
  co_frozen : keeps_frozen pr w pr' w';
  co_end : eof pr' = eof pr /\ error pr' = error pr /\ items_left w' = items_left w /\ run_len pr' = run_len pr
}.

Lemma set_end_consumed n pr w pr' w' ex :
  consumed n pr w pr' w' -> consumed n pr w (set_end pr' ex (eof pr') (error pr')) w'.
Proof. intros [[] ? ? ? ? Hf ?]. split; try done. Qed.

Lemma consume_spec k n pr w pr' w' :
  reader_ok k pr w -> k <= n -> k <= wlen (live_span pr) -> consume pr w n = (pr', w') -> consumed n pr w pr' w'.
Proof.
  intros Hok Hkn Hk Hc. unfold consume in Hc. pose proof (length_live pr w k Hok) as Hll.
  set (n' := if wlen (live_span pr) <? n then wlen (live_span pr) else n) in *.
  assert (Hn' : n' = n `min` wlen (live_span pr)) by (unfold n'; case_test; lia).
  assert (Hdrop : drop n (live_bytes pr w) = drop n' (live_bytes pr w)).
  { rewrite Hn'. destruct (decide (n <= wlen (live_span pr))); [f_equal; lia|]. rewrite !drop_ge by lia. done. }
  clearbody n'. pose proof Hok as [Hca Hf Hb Hcur Hrc Hrb Hp Hl Hi].
  destruct (live_in_buf pr) eqn:Hlib; [|destruct (has_cur pr) eqn:Hh].
  - destruct (Hb eq_refl) as (Hb1 & Hb2 & Hb3).
    assert (Hw : wlen (live_span pr) = buf_end pr - buf_pos pr) by (unfold live_span; by rewrite Hlib).
    assert (Hnr : run_in_cur pr = true -> 0 < run_len pr -> False) by (intros Hr H0; destruct (Hrc Hr H0); congruence).
    assert (Hlive : drop n (live_bytes pr w) = span (buf pr) (buf_pos pr + n') (buf_end pr - buf_pos pr - n')).
    { rewrite Hdrop. unfold live_bytes, live_span. rewrite Hlib. cbn. apply span_drop. }
    set (p := if buf_end pr <=? buf_pos pr + n' then _ else _) in *. injection Hc as <- <-.
    assert (consumed n pr w p w) as Hco; [|exact (set_end_consumed _ _ _ p w _ Hco) || (by destruct p; apply set_end_consumed)].
    unfold p. destruct (Nat.leb_spec (buf_end pr) (buf_pos pr + n')) as [Hle|Hlt].
    + split; try done.
      * split; try done; cbn; intros Hr H0; by destruct Hnr.
      * rewrite Hlive. unfold live_bytes, live_span. cbn. rewrite Hb3. replace (buf_end pr - buf_pos pr - n') with 0 by lia. done.
    + split; try done.
      * split; try done; cbn; [intros _; split_and!; try done; lia|]. intros Hr H0; by destruct Hnr.
      * rewrite Hlive. unfold live_bytes, live_span. cbn. f_equal. lia.
  - specialize (Hcur eq_refl). assert (Hw : wlen (live_span pr) = ilen (cur pr) - cur_pos pr) by (unfold live_span; by rewrite Hlib, Hh).
    destruct (cur_done _ w) as [p w1] eqn:Ed. injection Hc as <- <-. set (m := set_cur pr _ _ _ _) in Ed.
    assert (Hokm : reader_ok 0 m w).
    { split; try done; cbn.
      - by rewrite Hlib.
      - intros _. lia.
      - intros Hr H0. destruct (Hrc Hr H0). split; [done|lia].
      - unfold ledger, owned. cbn. unfold ledger, owned in Hl. by rewrite Hh in Hl. }
    destruct (cur_done_spec m w p w1 Hokm Ed) as [Hokp []]. destruct sm_end0 as (E1 & E2 & E3 & E4).
    apply set_end_consumed.
    replace (error pr) with (error p) by (by rewrite E1). replace (eof pr) with (eof p) by (by rewrite E2). 
    split; try done.
    + rewrite sm_live0, Hdrop. unfold live_bytes, live_span. cbn. rewrite Hlib, Hh. cbn. rewrite span_drop. f_equal. lia.
    + rewrite sm_ledger0. unfold ledger, owned, m. cbn. by rewrite Hh.
    + eapply keeps_frozen_trans; [|exact sm_frozen0]. intros s Hs. split; [|by destruct s]. destruct s as [off l|id off l|]; cbn in *; try done.
      destruct Hs as (? & ? & Hs). split_and!; try done. intros Hcp. specialize (Hs Hcp). destruct (run_in_cur pr && (0 <? run_len pr)); lia.
  - injection Hc as <- <-. apply set_end_consumed.
    assert (Hw : wlen (live_span pr) = 0) by (unfold live_span; by rewrite Hlib, Hh).
    assert (k = 0) as -> by lia. split; try done.
    rewrite Hdrop. replace n' with 0 by lia. done.
Qed.

Lemma consume_memory pr w n pr' w' : consume pr w n = (pr', w') -> buf pr' = buf pr /\ mem w' = mem w.
Proof.
  unfold consume, cur_done. intros Hc. destruct (live_in_buf pr); [|destruct (has_cur pr)]; cbn in Hc.
  - repeat case_match; by simplify_eq.
  - repeat case_match; by simplify_eq.
  - by simplify_eq.
Qed.

(** ** Keeping *)

(** The reader once the kept bytes are in their place, and before they are consumed. *)
Record placed (n : nat) pr w (s : where_) p w1 : Prop := {
  pl_ok : reader_ok n p w1;
  pl_span : at_span p w1 s = take n (live_bytes pr w);
  pl_run : run_bytes p w1 = run_bytes pr w ++ take n (live_bytes pr w);
  pl_live : drop n (live_bytes p w1) = drop n (live_bytes pr w);
  pl_len : n <= wlen (live_span p);
  pl_coming : coming w1 = coming w;
  pl_ledger : ledger p w1 = ledger pr w;
  pl_frozen : keeps_frozen pr w p w1;
  pl_end : eof p = eof pr /\ error p = error pr /\ items_left w1 = items_left w
}.

Lemma kmem_set_ne w id id' b : id' <> id -> kmem (set_mem w id b) id' = kmem w id'.
Proof. intros. unfold kmem. cbn. by rewrite lookup_insert_ne. Qed.

Lemma kmem_set_eq w id b : kmem (set_mem w id b) id = b.
Proof. unfold kmem. cbn. by rewrite lookup_insert_eq. Qed.

(** Bytes of one place copied over: the span read back, what is before it and what is behind it. *)
Lemma blit_self_behind b o d src n :
  o + length d <= src -> src + n <= length b -> span (blit b o d) src n = span b src n.
Proof. intros. apply span_blit_after; lia. Qed.

Lemma drop_blit_overlap b o pos n m :
  o <= pos -> n <= m -> pos + m <= length b ->
  drop n (span (blit b o (span b pos n)) pos m) = drop n (span b pos m).
Proof.
  intros Ho Hn Hm. rewrite !span_drop. apply span_blit_after; rewrite length_span; lia.
Qed.

Definition bump pr (n : nat) : pipereader := set_run pr (run_in_cur pr) (run_start pr) (run_len pr + n).

Lemma place_in_buf n pr w :
  reader_ok 0 pr w -> live_in_buf pr = true -> 0 < n <= wlen (live_span pr) ->
  let p := if run_len pr =? 0 then
             set_run (set_buffer pr (buf pr) (buf_pos pr) true (buf_pos pr) (buf_end pr)) false (buf_pos pr) 0
           else if negb (buf_pos pr =? floor pr) then
             set_buffer pr (blit (buf pr) (floor pr) (span (buf pr) (buf_pos pr) n)) (floor pr) true (buf_pos pr) (buf_end pr)
           else pr in
  placed n pr w (InBuf (floor p) n) (bump (set_buffer p (buf p) (floor p + n) true (buf_pos p) (buf_end p)) n) w.
Proof.
  intros Hok Hlib Hn. pose proof Hok as [Hca Hf Hb Hcur Hrc Hrb Hp Hl Hi]. destruct (Hb Hlib) as (Hb1 & Hb2 & Hb3).
  assert (Hw : wlen (live_span pr) = buf_end pr - buf_pos pr) by (unfold live_span; by rewrite Hlib).
  assert (Hlv : live_bytes pr w = span (buf pr) (buf_pos pr) (buf_end pr - buf_pos pr)) by (unfold live_bytes, live_span; by rewrite Hlib).
  assert (Hnr : 0 < run_len pr -> run_in_cur pr = false).
  { intros H0. destruct (run_in_cur pr) eqn:Er; [|done]. destruct (Hrc eq_refl H0); congruence. }
  assert (Htk : take n (live_bytes pr w) = span (buf pr) (buf_pos pr) n) by (rewrite Hlv; apply span_take; lia).
  cbn zeta. destruct (Nat.eqb_spec (run_len pr) 0) as [H0|H0].
  - assert (Hr0 : run_bytes pr w = []) by (unfold run_bytes; by rewrite H0).
    split; try done; cbn.
    + split; try done; cbn; try lia.
    + rewrite Hr0, Htk. unfold run_bytes, ioxd__pipereader_run. cbn. destruct (Nat.ltb_spec 0 n); [done|lia].
    + by rewrite Hlv.
    + lia.
    + intros s Hs. split; [|by destruct s]. destruct s as [off m|id off m|]; cbn in *; [| |done].
      * split; [lia|]. intros _ _. lia.
      * destruct Hs as (? & ? & Hs). split_and!; try done. intros Hcp. destruct (Hp Hcp); congruence.
  - specialize (Hnr ltac:(lia)). specialize (Hrb Hnr ltac:(lia)).
    assert (Hrun : run_bytes pr w = span (buf pr) (run_start pr) (run_len pr)).
    { unfold run_bytes, ioxd__pipereader_run. rewrite Hnr. by destruct (Nat.ltb_spec 0 (run_len pr)); [|lia]. }
    set (b := if negb (buf_pos pr =? floor pr) then blit (buf pr) (floor pr) (span (buf pr) (buf_pos pr) n) else buf pr).
    replace (if negb (buf_pos pr =? floor pr) then _ else pr) with (set_buffer pr b (floor pr) true (buf_pos pr) (buf_end pr)).
    2:{ unfold b. destruct (buf_pos pr =? floor pr); cbn; [|done]. unfold set_buffer. destruct pr; cbn in *; by subst. }
    assert (Hd : length (span (buf pr) (buf_pos pr) n) = n) by (apply length_span; lia).
    assert (length b = cap pr /\ span b (floor pr) n = span (buf pr) (buf_pos pr) n /\
            (forall off m, off + m <= floor pr -> span b off m = span (buf pr) off m) /\
            drop n (span b (buf_pos pr) (buf_end pr - buf_pos pr)) = drop n (span (buf pr) (buf_pos pr) (buf_end pr - buf_pos pr)))
      as (B1 & B2 & B3 & B4).
    { unfold b. destruct (Nat.eqb_spec (buf_pos pr) (floor pr)) as [He|He]; cbn [negb].
      - rewrite He. done.
      - split; [rewrite length_blit; lia|]. split; [apply span_blit_at; [done|lia]|]. 
        split; [intros; apply span_blit_before; lia|]. apply drop_blit_overlap; lia. }
    clearbody b. split; try done; cbn.
    + split; try done; cbn; try lia; [intros _; split_and!; try done; lia|congruence].
    + by rewrite B2, Htk.
    + rewrite Hrun, Htk. unfold run_bytes, ioxd__pipereader_run. cbn. rewrite Hnr. cbn.
      destruct (Nat.ltb_spec 0 (run_len pr + n)); [|lia]. rewrite <- span_app_join. rewrite B3 by lia. f_equal. by rewrite Hrb.
    + unfold live_bytes, live_span. cbn. rewrite Hlib. cbn. done.
    + lia.
    + intros s Hs. destruct s as [off m|id off m|]; cbn in *; [| |done].
      * split; [|apply B3; lia]. split; [lia|]. intros _ _. apply Hs; [done|lia].
      * destruct Hs as (? & ? & Hs). split; [|done]. split_and!; try done. intros Hcp. destruct (Hp Hcp); congruence.
Qed.

(** Nothing else the reader sees is in the current buffer. *)
Lemma cur_elsewhere k pr w :
  reader_ok k pr w -> has_cur pr = true ->
  (forall i, i ∈ now w ++ later w -> buf_id i <> buf_id (cur pr)) /\
  (has_pinned pr = true -> cur_is_pinned pr = false -> buf_id (pinned pr) <> buf_id (cur pr)).
Proof.
  intros [] Hh. unfold ledger, owned in *. rewrite Hh in *. apply NoDup_app in ro_ledger0 as (_ & _ & Hnd).
  apply NoDup_app in Hnd as (Hn1 & Hn2 & _). split.
  - intros i Hi Heq. apply (Hn2 (buf_id (cur pr))).
    + destruct (cur_is_pinned pr) eqn:Ep; cbn; [destruct (ro_pin0 eq_refl) as (_ & -> & <-)|]; by left.
    + rewrite <- Heq. by apply list_elem_of_fmap_2.
  - intros Hhp Hcp Heq. rewrite Hhp, Hcp in Hn1. cbn in Hn1. rewrite Heq in Hn1. apply NoDup_cons in Hn1 as [Hn1 _]. apply Hn1. by left.
Qed.

Lemma place_in_cur n pr w :
  reader_ok 0 pr w -> live_in_buf pr = false -> has_cur pr = true -> run_len pr = 0 \/ run_in_cur pr = true ->
  0 < n <= wlen (live_span pr) ->
  let p := if run_len pr =? 0 then set_run pr true (cur_pos pr) 0 else pr in
  let run_end := run_start p + run_len p in
  let id := buf_id (cur p) in
  let w1 := if negb (run_end =? cur_pos p) then set_mem w id (blit (kmem w id) run_end (span (kmem w id) (cur_pos p) n)) else w in
  placed n pr w (InKern id run_end n) (bump p n) w1.
Proof.
  intros Hok Hlib Hh Hrn Hn. pose proof Hok as [Hca Hf Hb Hcur Hrc Hrb Hp Hl Hi]. specialize (Hcur Hh).
  destruct (cur_elsewhere _ _ _ Hok Hh) as [Hel1 Hel2].
  assert (Hw : wlen (live_span pr) = ilen (cur pr) - cur_pos pr) by (unfold live_span; by rewrite Hlib, Hh).
  intros p run_end id w1.
  assert (Hp1 : p = set_run pr true (run_start p) (run_len pr) /\ run_end <= cur_pos pr /\
                run_bytes pr w = span (kmem w id) (run_start p) (run_len pr) /\
                (run_len pr = 0 -> run_end = cur_pos pr) /\ run_end = run_start p + run_len pr /\
                (0 < run_len pr -> run_start p = run_start pr /\ run_in_cur pr = true)).
  { unfold run_end, id, p. destruct (Nat.eqb_spec (run_len pr) 0) as [H0|H0]; cbn.
    - rewrite H0. split_and!; try done; try lia. unfold run_bytes. by rewrite H0.
    - destruct Hrn as [|Hr]; [done|]. destruct (Hrc Hr ltac:(lia)). split_and!; try done; try lia.
      + unfold set_run. destruct pr; cbn in *; by subst.
      + unfold run_bytes, ioxd__pipereader_run. rewrite Hr. by destruct (Nat.ltb_spec 0 (run_len pr)); [|lia]. }
  destruct Hp1 as (Hpe & Hre & Hrun & Hre0 & Hree & Hrs). assert (Hid : id = buf_id (cur pr)) by (unfold id; by rewrite Hpe).
  assert (Hcp : cur_pos p = cur_pos pr) by (by rewrite Hpe).
  set (data := span (kmem w id) (cur_pos p) n) in *.
  assert (Hd : length data = n) by (unfold data; rewrite length_span; rewrite ?Hid, ?Hcp; lia).
  assert (Hm : length (kmem w1 id) = length (kmem w id) /\ span (kmem w1 id) run_end n = data /\
               (forall off m, off + m <= run_end -> span (kmem w1 id) off m = span (kmem w id) off m) /\
               drop n (span (kmem w1 id) (cur_pos pr) (ilen (cur pr) - cur_pos pr)) = drop n (span (kmem w id) (cur_pos pr) (ilen (cur pr) - cur_pos pr)) /\
               (forall id', id' <> id -> kmem w1 id' = kmem w id') /\
               now w1 = now w /\ later w1 = later w /\ back w1 = back w).
  { unfold w1. destruct (Nat.eqb_spec run_end (cur_pos p)) as [He|He]; cbn [negb].
    - split_and!; try done. unfold data. by rewrite He.
    - rewrite kmem_set_eq. rewrite <- Hid in Hcur. unfold data. rewrite Hcp in *. split_and!; try done.
      + rewrite length_blit; [done|]. rewrite length_span; lia.
      + apply span_blit_at; [|lia]. rewrite length_span; lia.
      + intros off m Hom. apply span_blit_before; lia.
      + apply drop_blit_overlap; lia.
      + intros id' Hne. by apply kmem_set_ne. }
  destruct Hm as (M1 & M2 & M3 & M4 & M5 & M6 & M7 & M8).
  assert (Hlv : live_bytes pr w = span (kmem w id) (cur_pos pr) (ilen (cur pr) - cur_pos pr)) by (unfold live_bytes, live_span; by rewrite Hlib, Hh, Hid).
  assert (Htk : take n (live_bytes pr w) = data) by (rewrite Hlv; unfold data; rewrite Hcp; apply span_take; lia).
  assert (Hit : forall i, i ∈ now w ++ later w -> kmem w1 (buf_id i) = kmem w (buf_id i)) by (intros i Hii; apply M5; rewrite Hid; by apply Hel1).
  assert (Hled : ledger (bump p n) w1 = ledger pr w) by (unfold ledger, owned; rewrite M6, M7, M8, Hpe; done).
  assert (Hend : items_left w1 = items_left w) by (unfold items_left; by rewrite M6, M7).
  clearbody w1 data run_end id. remember (run_start p) as rs eqn:Hrs0. clear Hrs0. clearbody p. subst p. clear Hcp.
  split; try done.
  - split; try (by rewrite Hled); cbn; try done.
    + by rewrite Hlib.
    + intros _. rewrite <- Hid, M1, Hid. done.
    + intros _ _. split; [done|lia].
    + rewrite M6, M7. intros i Hii. rewrite Hit by done. by apply Hi.
  - cbn. by rewrite M2, Htk.
  - rewrite Hrun, Htk. unfold run_bytes, ioxd__pipereader_run. cbn. destruct (Nat.ltb_spec 0 (run_len pr + n)); [|lia].
    rewrite <- Hid, <- span_app_join. rewrite M3 by lia. rewrite <- Hree, M2. done.
  - rewrite Hlv. unfold live_bytes, live_span. cbn. rewrite Hlib, Hh. cbn. by rewrite <- Hid.
  - unfold live_span. cbn. rewrite Hlib, Hh. cbn. lia.
  - unfold coming. rewrite M6, M7. f_equal. apply map_ext_in. intros i Hii. unfold item_bytes. rewrite Hit; [done|]. by apply list_elem_of_In.
  - intros s Hs. destruct s as [off m|id' off m|]; cbn in *; [| |done].
    + split; [|done]. split; [apply Hs|done].
    + destruct Hs as (Hs1 & Hs2 & Hs3). split.
      * split_and!; try done. intros Hcp. specialize (Hs3 Hcp). destruct (Nat.ltb_spec 0 (run_len pr + n)); [|lia].
        destruct (Nat.eq_dec (run_len pr) 0) as [H0|H0].
        -- rewrite (Hre0 H0) in *. rewrite H0 in *. rewrite andb_false_r in Hs3. lia.
        -- destruct (Hrs ltac:(lia)) as [Hrs1 Hrs2]. rewrite Hrs2 in Hs3. destruct (Nat.ltb_spec 0 (run_len pr)); [|lia]. cbn in Hs3. lia.
      * destruct (decide (id' = id)) as [->|Hne]; [|by rewrite M5].
        apply M3. destruct (cur_is_pinned pr) eqn:Ecp; [|exfalso; apply (Hel2 Hs1 eq_refl); congruence].
        specialize (Hs3 eq_refl). destruct (Nat.eq_dec (run_len pr) 0) as [H0|H0].
        -- rewrite (Hre0 H0) in *. rewrite H0 in *. rewrite andb_false_r in Hs3. lia.
        -- destruct (Hrs ltac:(lia)) as [Hrs1 Hrs2]. rewrite Hrs2 in Hs3. destruct (Nat.ltb_spec 0 (run_len pr)); [|lia]. cbn in Hs3. lia.
Qed.

Lemma place_across n pr w :
  reader_ok 0 pr w -> live_in_buf pr = false -> has_cur pr = true -> 0 < run_len pr -> run_in_cur pr = false ->
  0 < n <= wlen (live_span pr) -> floor pr + n <= cap pr ->
  let b := blit (buf pr) (floor pr) (span (kmem w (buf_id (cur pr))) (cur_pos pr) n) in
  placed n pr w (InBuf (floor pr) n) (bump (set_buffer pr b (floor pr + n) false (floor pr + n) (floor pr + n)) n) w.
Proof.
  intros Hok Hlib Hh H0 Hnr Hn Hfit b. pose proof Hok as [Hca Hf Hb Hcur Hrc Hrb Hp Hl Hi]. specialize (Hcur Hh). specialize (Hrb Hnr H0).
  assert (Hw : wlen (live_span pr) = ilen (cur pr) - cur_pos pr) by (unfold live_span; by rewrite Hlib, Hh).
  assert (Hlv : live_bytes pr w = span (kmem w (buf_id (cur pr))) (cur_pos pr) (ilen (cur pr) - cur_pos pr)) by (unfold live_bytes, live_span; by rewrite Hlib, Hh).
  set (data := span _ _ n) in b. assert (Hd : length data = n) by (unfold data; rewrite length_span; lia).
  assert (Htk : take n (live_bytes pr w) = data) by (rewrite Hlv; apply span_take; lia).
  assert (Hsp : span b (floor pr) n = data) by (apply span_blit_at; [done|lia]).
  assert (Hbf : forall off m, off + m <= floor pr -> span b off m = span (buf pr) off m) by (intros; apply span_blit_before; lia).
  assert (Hbl : length b = cap pr) by (unfold b; rewrite length_blit; lia). clearbody b.
  split; try done; cbn.
  - split; try done; cbn; try lia. congruence.
  - by rewrite Htk.
  - rewrite Htk. unfold run_bytes, ioxd__pipereader_run. cbn. rewrite Hnr. cbn. destruct (Nat.ltb_spec 0 (run_len pr + n)); [|lia].
    destruct (Nat.ltb_spec 0 (run_len pr)); [|lia]. rewrite <- span_app_join. rewrite Hbf by lia. by rewrite Hrb, Hsp.
  - unfold live_bytes at 1, live_span. cbn. by rewrite Hh, Hlv.
  - unfold live_span. cbn. rewrite Hh. cbn. lia.
  - intros s Hs. destruct s as [off m|id off m|]; cbn in *; [| |done].
    + split; [|apply Hbf; lia]. split; [lia|]. intros _ _. by apply Hs.
    + destruct Hs as (? & ? & Hs). split; [|done]. split_and!; try done. intros Hcp. specialize (Hs Hcp). by rewrite Hnr in *.
Qed.

(** [keep]: the first [n] live bytes join the run, where the result says they are; or nothing changed. *)
Lemma keep_spec n pr w r pr' w' :
  reader_ok 0 pr w -> ioxd__pipereader_keep pr w n = (r, pr', w') ->
  match r with
  | Some s =>
      n <= length (live_bytes pr w) /\ at_span pr' w' s = take n (live_bytes pr w) \/ n = 0
  | None =>
      length (live_bytes pr w) < n \/ error pr' = IOXD_PIPE_FULL
  end /\
  reader_ok 0 pr' w' /\ coming w' = coming w /\ ledger pr' w' ≡ₚ ledger pr w /\ keeps_frozen pr w pr' w' /\
  items_left w' = items_left w /\ eof pr' = eof pr /\
  match r with
  | Some _ => run_bytes pr' w' = run_bytes pr w ++ take n (live_bytes pr w) /\ live_bytes pr' w' = drop n (live_bytes pr w) /\ error pr' = error pr
  | None => run_bytes pr' w' = run_bytes pr w /\ live_bytes pr' w' = live_bytes pr w
  end.
Proof.
  intros Hok Hk. unfold ioxd__pipereader_keep in Hk. pose proof (length_live pr w 0 Hok) as Hll.
  destruct (Nat.ltb_spec (wlen (live_span pr)) n) as [Hbig|Hfit].
  { injection Hk as <- <- <-. split; [left; lia|]. by split_and!. }
  destruct (Nat.eqb_spec n 0) as [->|Hn].
  { injection Hk as <- <- <-. split; [by right|]. rewrite take_0, drop_0, app_nil_r. by split_and!. }
  assert (Hfinish : forall s p w1, placed n pr w s (bump p n) w1 ->
            (let '(p, w) := consume (set_run p (run_in_cur p) (run_start p) (run_len p + n)) w1 n in (Some s, p, w)) = (r, pr', w') ->
            (n <= length (live_bytes pr w) /\ at_span pr' w' s = take n (live_bytes pr w)) /\ r = Some s /\
            reader_ok 0 pr' w' /\ coming w' = coming w /\ ledger pr' w' ≡ₚ ledger pr w /\ keeps_frozen pr w pr' w' /\
            items_left w' = items_left w /\ eof pr' = eof pr /\
            run_bytes pr' w' = run_bytes pr w ++ take n (live_bytes pr w) /\ live_bytes pr' w' = drop n (live_bytes pr w) /\ error pr' = error pr).
  { intros s p w1 [] Hc. fold (bump p n) in Hc. destruct (consume (bump p n) w1 n) as [p2 w2] eqn:Ec. injection Hc as <- <- <-.
    pose proof (consume_memory _ _ _ _ _ Ec) as [Hm1 Hm2].
    apply (consume_spec n n) in Ec as []; [|done|lia|done].
    destruct co_end0 as (? & ? & ? & _), pl_end0 as (? & ? & ?). split_and!; try done; try congruence; try lia.
    - rewrite <- pl_span0. destruct s; cbn; unfold kmem; by rewrite ?Hm1, ?Hm2.
    - by eapply keeps_frozen_trans. }
  assert (Hnn : 0 < n <= wlen (live_span pr)) by lia.
  destruct (live_in_buf pr) eqn:Hlib; [|destruct (has_cur pr) eqn:Hh; cbn [andb] in Hk].
  - eapply Hfinish in Hk as (Hs & -> & Hrest); [|by apply place_in_buf]. split; [by left|]. naive_solver.
  - destruct ((run_len pr =? 0) || run_in_cur pr) eqn:E.
    + eapply Hfinish in Hk as (Hs & -> & Hrest).
      * split; [by left|]. naive_solver.
      * apply place_in_cur; try done. apply orb_true_iff in E as [E|E]; [left; by apply Nat.eqb_eq|by right].
    + apply orb_false_iff in E as [E1 E2]. apply Nat.eqb_neq in E1.
      destruct (Nat.ltb_spec (cap pr) (floor pr + n)) as [Hov|Hroom].
      * injection Hk as <- <- <-. split; [by right|]. destruct Hok. split_and!; try done.
      * eapply Hfinish in Hk as (Hs & -> & Hrest); [|apply place_across; done || lia]. split; [by left|]. naive_solver.
  - unfold live_span in Hnn. rewrite Hlib, Hh in Hnn. cbn in Hnn. lia.
Qed.

(** ** The end of a run, of the kept bytes, of the reader *)

Lemma run_begin_spec pr w pr' w' :
  reader_ok 0 pr w -> ioxd__pipereader_run_begin pr w = (pr', w') ->
  reader_ok 0 pr' w' /\ run_bytes pr' w' = [] /\ live_bytes pr' w' = live_bytes pr w /\ coming w' = coming w /\
  ledger pr' w' ≡ₚ ledger pr w /\ keeps_frozen pr w pr' w' /\ items_left w' = items_left w /\
  (0 < run_len pr -> (run_in_cur pr = true -> has_pinned pr = true -> cur_is_pinned pr = true) ->
   error pr' = error pr /\ frozen pr' (ioxd__pipereader_run pr) /\
   at_span pr' w' (ioxd__pipereader_run pr) = run_bytes pr w).
Proof.
  intros Hok Hr. unfold ioxd__pipereader_run_begin in Hr. set (pr1 := if _ && _ then _ else _) in *.
  set (m := set_run pr1 false (run_start pr1) 0) in *. pose proof Hok as [Hca Hf Hb Hcur Hrc Hrb Hp Hl Hi].
  assert (Hm : reader_ok 0 m w /\ live_bytes m w = live_bytes pr w /\ ledger m w ≡ₚ ledger pr w /\ keeps_frozen pr w m w /\
               (0 < run_len pr -> (run_in_cur pr = true -> has_pinned pr = true -> cur_is_pinned pr = true) ->
                error m = error pr /\ frozen m (ioxd__pipereader_run pr) /\ at_span m w (ioxd__pipereader_run pr) = run_bytes pr w)).
  { unfold m, pr1. destruct (run_in_cur pr) eqn:Er; cbn [andb].
    - destruct (Nat.ltb_spec 0 (run_len pr)) as [H0|H0].
      + destruct (Hrc eq_refl H0) as [Hh Hend]. specialize (Hcur Hh).
        assert (Hlib : live_in_buf pr = false) by (destruct (live_in_buf pr); [destruct (Hb eq_refl) as (_ & _ & ?); congruence|done]).
        destruct (has_pinned pr && negb (cur_is_pinned pr)) eqn:E.
        * apply andb_true_iff in E as [E1 E2]. apply negb_true_iff in E2.
          destruct (Nat.ltb_spec (cap pr) (floor pr + run_len pr)) as [Hov|Hfit].
          -- split; [split; try done; cbn; lia|]. split; [done|]. split; [done|].
             split; [|intros _ Hx; specialize (Hx eq_refl E1); congruence].
             intros s Hs. split; [|by destruct s]. destruct s; cbn in *; [|rewrite E2 in *|done].
             { split; [apply Hs|]. intros _ ?. lia. } { destruct Hs as (? & ? & _). by split_and!. }
          -- set (d := span _ _ _). assert (Hd : length d = run_len pr) by (unfold d; rewrite length_span; lia).
             split; [|split; [|split; [done|]]].
             ++ split; try done; cbn; try lia; try congruence. rewrite length_blit; lia.
             ++ unfold live_bytes, live_span. cbn. by rewrite Hlib, Hh.
             ++ split; [|intros _ Hx; specialize (Hx eq_refl E1); congruence].
                intros s Hs. destruct s as [off n|id off n|]; cbn in *; [| |done].
                ** split; [|apply span_blit_before; lia]. split; [lia|]. intros _ ?. lia.
                ** rewrite E2. split; [|done]. destruct Hs as (? & ? & _). by split_and!.
        * assert (Hcp : has_pinned pr = true -> cur_is_pinned pr = true) by (intros H; rewrite H in E; by destruct (cur_is_pinned pr)).
          assert (Hown : owned (set_run (set_pinned pr (cur pr) true true) false (run_start pr) 0) ≡ₚ owned pr).
          { unfold owned. cbn. rewrite Hh. cbn. destruct (has_pinned pr) eqn:Ehp.
            - rewrite Hcp by done. destruct (Hp (Hcp eq_refl)) as (_ & _ & ->). done.
            - destruct (cur_is_pinned pr) eqn:Ecp; [destruct (Hp eq_refl) as (_ & ? & _); congruence|done]. }
          split; [|split; [|split; [|split]]].
          -- split; try done; cbn; try lia. unfold ledger. by rewrite Hown.
          -- done.
          -- unfold ledger. by rewrite Hown.
          -- intros s Hs. destruct s as [off n|id off n|]; cbn in *; [| |done].
             ++ split; [|done]. split; [apply Hs|]. intros _ ?. lia.
             ++ destruct Hs as (Hs1 & Hs2 & Hs3). specialize (Hcp Hs1). destruct (Hp Hcp) as (_ & _ & Heq). rewrite Heq. split; [|done].
                split_and!; try done. intros _. specialize (Hs3 Hcp). rewrite Er in Hs3. destruct (Nat.ltb_spec 0 (run_len pr)); [|lia]. cbn in Hs3. lia.
          -- intros _ _. split; [done|]. unfold run_bytes. destruct (Nat.ltb_spec 0 (run_len pr)); [|lia].
             unfold ioxd__pipereader_run. rewrite Er. split; [|done]. cbn. split_and!; try done. intros _. lia.
      + split; [split; try done; cbn; lia|]. split; [done|]. split; [done|]. split; [|lia].
        intros s Hs. split; [|by destruct s]. destruct s as [off n|id off n|]; cbn in *; [| |done].
        * split; [apply Hs|]. intros _ ?. lia.
        * destruct Hs as (? & ? & Hs3). split_and!; try done. intros Hcp. specialize (Hs3 Hcp). rewrite Er in Hs3.
          destruct (Nat.ltb_spec 0 (run_len pr)); [lia|]. done.
    - split; [split; try done; cbn; lia|]. split; [done|]. split; [done|]. split.
      + intros s Hs. split; [|by destruct s]. destruct s as [off n|id off n|]; cbn in *; [| |done].
        * split; [apply Hs|]. intros _ ?. lia.
        * destruct Hs as (? & ? & Hs3). rewrite Er in Hs3. by split_and!.
      + intros H0 _. split; [done|]. unfold run_bytes, ioxd__pipereader_run. rewrite Er. destruct (Nat.ltb_spec 0 (run_len pr)); [|lia].
        cbn. split; [|done]. rewrite Hrb by done. split; [lia|]. intros _ ?. lia. }
  destruct Hm as (Hokm & Hlm & Hledm & Hfm & Hrun). assert (Hrl : run_len m = 0) by done. clearbody m.
  destruct (cur_done_spec m w pr' w' Hokm Hr) as [Hok' []]. destruct sm_end0 as (Eerr & _).
  split; [done|]. split.
  { unfold run_bytes. by rewrite sm_len0, Hrl. }
  split; [congruence|]. split; [done|]. split; [by rewrite sm_ledger0|]. split; [by eapply keeps_frozen_trans|]. split; [done|].
  intros H0 Hx. destruct (Hrun H0 Hx) as (R1 & R2 & R3). destruct (sm_frozen0 _ R2) as [F1 F2]. split_and!; [congruence|done|congruence].
Qed.

Lemma release_spec pr w pr' w' :
  reader_ok 0 pr w -> ioxd__pipereader_release pr w = (pr', w') ->
  reader_ok 0 pr' w' /\ run_bytes pr' w' = [] /\ live_bytes pr' w' = live_bytes pr w /\ coming w' = coming w /\
  ledger pr' w' ≡ₚ ledger pr w /\ error pr' = error pr.
Proof.
  intros Hok Hr. pose proof Hok as [Hca Hf Hb Hcur Hrc Hrb Hp Hl Hi]. unfold ioxd__pipereader_release in Hr.
  set (p1 := if live_in_buf _ then _ else _) in Hr.
  set (q := if has_pinned p1 then _ else _) in Hr. destruct q as [m w1] eqn:Eq.
  assert (Hp1 : p1 = {| buf := if live_in_buf pr then blit (buf pr) 0 (span (buf pr) (buf_pos pr) (buf_end pr - buf_pos pr)) else buf pr;
      cap := cap pr; floor := 0; live_in_buf := live_in_buf pr; buf_pos := 0;
      buf_end := if live_in_buf pr then buf_end pr - buf_pos pr else 0;
      cur := cur pr; has_cur := has_cur pr; cur_pos := cur_pos pr; pinned := pinned pr; has_pinned := has_pinned pr;
      cur_is_pinned := cur_is_pinned pr; run_in_cur := false; run_start := run_start pr; run_len := 0;
      examined := examined pr; eof := eof pr; error := error pr |}).
  { unfold p1. cbn. by destruct (live_in_buf pr) eqn:E; unfold set_buffer; cbn; rewrite ?E. }
  clearbody p1. subst p1. cbn in q.
  assert (Hm : reader_ok 0 m w1 /\ run_len m = 0 /\ live_bytes m w1 = live_bytes pr w /\ coming w1 = coming w /\
               ledger m w1 ≡ₚ ledger pr w /\ error m = error pr).
  { set (b := if live_in_buf pr then blit _ _ _ else buf pr) in *.
    assert (Hbl : length b = cap pr /\ (live_in_buf pr = true -> span b 0 (buf_end pr - buf_pos pr) = live_bytes pr w)).
    { unfold b. destruct (live_in_buf pr) eqn:E; [|done]. destruct (Hb eq_refl) as (_ & ? & _).
      rewrite length_blit by (rewrite length_span; lia). split; [done|]. intros _. unfold live_bytes, live_span. rewrite E. cbn.
      apply span_blit_at; rewrite ?length_span; lia. }
    clearbody b. destruct Hbl as [Hb1 Hb2].
    assert (Hfields : buf m = b /\ cap m = cap pr /\ floor m = 0 /\ live_in_buf m = live_in_buf pr /\ buf_pos m = 0 /\
              buf_end m = (if live_in_buf pr then buf_end pr - buf_pos pr else 0) /\ cur m = cur pr /\ has_cur m = has_cur pr /\
              cur_pos m = cur_pos pr /\ has_pinned m = false /\ cur_is_pinned m = false /\ run_in_cur m = false /\ run_len m = 0 /\
              error m = error pr /\ mem w1 = mem w /\ now w1 = now w /\ later w1 = later w).
    { unfold q in Eq. destruct (has_pinned pr) eqn:Ehp; [destruct (cur_is_pinned pr) eqn:Ecp|]; injection Eq as <- <-; cbn; split_and!; try done.
      destruct (cur_is_pinned pr) eqn:Ecp; [|done]. destruct (Hp eq_refl) as (_ & ? & _). congruence. }
    destruct Hfields as (F1 & F2 & F3 & F4 & F5 & F6 & F7 & F8 & F9 & F10 & F11 & F12 & F13 & F14 & F15 & F16 & F17).
    assert (Hled : ledger m w1 ≡ₚ ledger pr w).
    { unfold ledger, owned. rewrite F7, F8, F10, F11, F16, F17. unfold q in Eq.
      destruct (has_pinned pr) eqn:Ehp; [destruct (cur_is_pinned pr) eqn:Ecp|]; injection Eq as <- <-; cbn.
      - destruct (Hp eq_refl) as (Hh & _ & ->). by rewrite Hh.
      - rewrite app_nil_r, <- !app_assoc. cbn. by rewrite <- (Permutation_middle (if _ && _ then _ else _)).
      - rewrite app_nil_r. destruct (cur_is_pinned pr) eqn:Ecp; [|by rewrite app_nil_r]. destruct (Hp eq_refl) as (_ & ? & _). congruence. }
    split; [|split; [done|split; [|split; [|split; done]]]].
    - split; try (by rewrite Hled); rewrite ?F1, ?F2, ?F3, ?F4, ?F5, ?F6, ?F7, ?F8, ?F9, ?F11, ?F12, ?F13, ?F16, ?F17; try done; try lia; unfold kmem; rewrite ?F15; try done.
      intros E. rewrite E. destruct (Hb E) as (_ & ? & ?). split_and!; try done; lia.
    - unfold live_bytes at 1, live_span. rewrite F4, F5, F6, F7, F8, F9. destruct (live_in_buf pr) eqn:E; cbn.
      + rewrite F1, Nat.sub_0_r. by apply Hb2.
      + unfold live_bytes, live_span. rewrite E. destruct (has_cur pr); cbn; [|done]. unfold kmem. by rewrite F15.
    - unfold coming, item_bytes, kmem. by rewrite F15, F16, F17. }
  destruct Hm as (Hokm & Hrl & Hlm & Hcm & Hledm & Hem). destruct (cur_done_spec m w1 pr' w' Hokm Hr) as [Hok' []].
  split; [done|]. split; [unfold run_bytes; by rewrite sm_len0, Hrl|]. split; [congruence|]. split; [congruence|].
  split; [by rewrite sm_ledger0|]. destruct sm_end0; congruence.
Qed.

(** What [close] gives back: everything the reader owned. *)
Lemma close_spec pr w pr' w' :
  ioxd__pipereader_close pr w = (pr', w') ->
  owned pr' = [] /\ back w' = back w ++ owned pr /\ now w' = now w /\ later w' = later w.
Proof.
  unfold ioxd__pipereader_close, owned. intros [= <- <-]. cbn.
  destruct (has_cur pr && negb (cur_is_pinned pr)), (has_pinned pr); cbn; by rewrite <- ?app_assoc, ?app_nil_r.
Qed.

(** *** The loops *)

(** What a read, or anything that only takes input, did. *)
Record fetched pr w pr' w' : Prop := {
  fe_ok : reader_ok 0 pr' w';
  fe_run : run_bytes pr' w' = run_bytes pr w;
  fe_ledger : ledger pr' w' ≡ₚ ledger pr w;
  fe_frozen : keeps_frozen pr w pr' w';
  fe_stream : live_bytes pr' w' ++ coming w' = live_bytes pr w ++ coming w \/ error pr' = IOXD_PIPE_FULL;
  fe_grow : live_bytes pr w `prefix_of` live_bytes pr' w';
  fe_examined : examined pr' = examined pr
}.

Lemma fetched_refl pr w : reader_ok 0 pr w -> fetched pr w pr w.
Proof. intros Hok. split; try done. by left. Qed.

Lemma more_fetched pr w rc pr1 w1 pr2 w2 :
  mored pr w rc pr1 w1 -> rc = 1%Z -> fetched pr1 w1 pr2 w2 -> fetched pr w pr2 w2.
Proof.
  intros [] -> []. split; try done; try congruence.
  - by rewrite fe_ledger0.
  - by eapply keeps_frozen_trans.
  - destruct mo_stream0 as [Hs|]; [|done]. destruct fe_stream0 as [Ht|]; [left; congruence|by right].
  - by etrans.
Qed.

Lemma more_ended pr w rc pr1 w1 : mored pr w rc pr1 w1 -> (rc <= 0)%Z -> fetched pr w pr1 w1.
Proof.
  intros [] Hrc. split; try done. destruct mo_stream0 as [?|Hx]; [by left|]. right. subst rc.
  destruct mo_rc0 as [(? & _)|[(? & _)|[(? & _)|(_ & _ & ? & _)]]]; done.
Qed.

Lemma read_loop_spec fuel pr w rc l pr' w' :
  reader_ok 0 pr w -> items_left w < fuel -> read_loop fuel pr w = (rc, l, pr', w') ->
  fetched pr w pr' w' /\
  (rc = 1%Z /\ l = live_span pr' /\ examined pr' < wlen l \/
   rc = 0%Z /\ eof pr' = true /\ wlen (live_span pr') <= examined pr' \/
   (rc < 0)%Z /\ error pr' = rc).
Proof.
  revert pr w. induction fuel as [|fuel IH]; intros pr w Hok Hlt Hr; [lia|]. cbn [read_loop] in Hr.
  destruct (Nat.ltb_spec (examined pr) (wlen (live_span pr))) as [Hex|Hex].
  { injection Hr as <- <- <- <-. split; [by apply fetched_refl|]. left. done. }
  destruct (more pr w) as [[rc1 pr1] w1] eqn:Em. apply more_spec in Em; [|done].
  destruct (Z.leb_spec rc1 0) as [Hle|Hgt].
  - injection Hr as <- <- <- <-. split; [by eapply more_ended|]. pose proof (length_live _ _ _ Hok) as Hl1.
    pose proof (length_live _ _ _ (mo_ok _ _ _ _ _ Em)) as Hl2. destruct Em.
    destruct mo_rc0 as [(? & _)|[(-> & Heof & _ & _ & Hlv & _)|[(-> & _ & He & _)|(-> & _ & He & _)]]]; [lia|right; left|right; right; done..].
    split_and!; try done. rewrite mo_examined0, <- Hl2, Hlv. lia.
  - assert (Hone : rc1 = 1%Z) by (destruct Em; destruct mo_rc0 as [(? & _)|[(? & _)|[(? & _)|(? & _)]]]; subst; unfold IOXD_PIPE_GONE, IOXD_PIPE_FULL in *; lia).
    assert (Hit : items_left w = S (items_left w1)).
    { destruct Em. destruct mo_rc0 as [(_ & ? & _)|[(? & _)|[(? & _)|(? & _)]]]; subst; done. }
    apply IH in Hr as [Hf Hrest]; [|apply Em|lia]. split; [by eapply more_fetched|done].
Qed.

Lemma read_spec pr w rc l pr' w' :
  reader_ok 0 pr w -> ioxd__pipereader_read pr w = (rc, l, pr', w') ->
  fetched pr w pr' w' /\
  (rc = 1%Z /\ l = live_span pr' /\ examined pr' < wlen l \/
   rc = 0%Z /\ eof pr' = true /\ wlen (live_span pr') <= examined pr' \/
   rc <> 0%Z /\ error pr' = rc).
Proof.
  intros Hok Hr. unfold ioxd__pipereader_read in Hr. destruct (Z.eqb_spec (error pr) 0) as [He|He]; cbn [negb] in Hr.
  - apply read_loop_spec in Hr as [Hf Hc]; [|done|lia]. split; [done|]. destruct Hc as [Hx|[Hx|[Hx Hy]]]; [by left|by right; left|right; right; split; [lia|done]].
  - injection Hr as <- <- <- <-. split; [by apply fetched_refl|]. auto.
Qed.

Lemma avail_loop_spec fuel pr w rc l pr' w' :
  reader_ok 0 pr w -> avail_loop fuel pr w = (rc, l, pr', w') ->
  fetched pr w pr' w' /\ (rc = 1%Z -> l = live_span pr' /\ examined pr' < wlen l).
Proof.
  revert pr w. induction fuel as [|fuel IH]; intros pr w Hok Hr; cbn [avail_loop] in Hr;
    (destruct (Nat.ltb_spec (examined pr) (wlen (live_span pr))) as [Hex|Hex];
     [injection Hr as <- <- <- <-; by split; [apply fetched_refl|]|]).
  - destruct (now w); injection Hr as <- <- <- <-; by split; [apply fetched_refl|].
  - destruct (now w) eqn:En; [injection Hr as <- <- <- <-; by split; [apply fetched_refl|]|].
    destruct (more pr w) as [[rc1 pr1] w1] eqn:Em. apply more_spec in Em; [|done].
    destruct (Z.leb_spec rc1 0) as [Hle|Hgt].
    + injection Hr as <- <- <- <-. split; [by eapply more_ended|lia].
    + assert (Hone : rc1 = 1%Z) by (destruct Em; destruct mo_rc0 as [(? & _)|[(? & _)|[(? & _)|(? & _)]]]; subst; unfold IOXD_PIPE_GONE, IOXD_PIPE_FULL in *; lia).
      apply IH in Hr as [Hf Hrest]; [|apply Em]. split; [by eapply more_fetched|done].
Qed.

(** [copy]: what it stores is consumed. *)
Lemma copy_loop_spec fuel pr w n rc d pr' w' :
  reader_ok 0 pr w -> items_left w < fuel -> copy_loop fuel pr w n = (rc, d, pr', w') ->
  reader_ok 0 pr' w' /\ run_bytes pr' w' = run_bytes pr w /\ ledger pr' w' ≡ₚ ledger pr w /\ keeps_frozen pr w pr' w' /\
  length d <= n /\ (d ++ live_bytes pr' w' ++ coming w' = live_bytes pr w ++ coming w \/ error pr' = IOXD_PIPE_FULL) /\
  ((0 < rc)%Z -> rc = Z.of_nat (length d)) /\ (rc = 0%Z -> n = 0 \/ eof pr' = true).
Proof.
  revert pr w. induction fuel as [|fuel IH]; intros pr w Hok Hlt Hr; [lia|]. cbn [copy_loop] in Hr.
  pose proof (length_live _ _ _ Hok) as Hll.
  destruct (Nat.ltb_spec 0 (wlen (live_span pr))) as [Hl|Hl].
  - set (k := if wlen (live_span pr) <? n then _ else n) in *. fold (live_bytes pr w) in Hr.
    assert (Hk : k = n `min` wlen (live_span pr)) by (unfold k; case_test; lia). clearbody k.
    destruct (consume pr w k) as [pr1 w1] eqn:Ec. injection Hr as <- <- <- <-.
    apply (consume_spec 0 k) in Ec as []; [|done|lia..]. rewrite length_take.
    split; [done|]. split; [done|]. split; [done|]. split; [done|]. split; [lia|]. split.
    + left. rewrite co_live0, co_coming0, app_assoc, take_drop. done.
    + split; [lia|]. intros ?. left. lia.
  - destruct (more pr w) as [[rc1 pr1] w1] eqn:Em. apply more_spec in Em; [|done].
    destruct (Z.leb_spec rc1 0) as [Hle|Hgt].
    + injection Hr as <- <- <- <-. pose proof (more_ended _ _ _ _ _ Em Hle) as []. split_and!; try done; cbn; try lia.
      intros ->. right. destruct Em. destruct mo_rc0 as [(? & _)|[(_ & ? & _)|[(? & _)|(? & _)]]]; done.
    + assert (Hone : rc1 = 1%Z) by (destruct Em; destruct mo_rc0 as [(? & _)|[(? & _)|[(? & _)|(? & _)]]]; subst; unfold IOXD_PIPE_GONE, IOXD_PIPE_FULL in *; lia).
      assert (Hit : items_left w = S (items_left w1)).
      { destruct Em. destruct mo_rc0 as [(_ & ? & _)|[(? & _)|[(? & _)|(? & _)]]]; subst; done. }
      apply IH in Hr as (R1 & R2 & R3 & R4 & R5 & R6 & R7 & R8); [|apply Em|lia].
      destruct Em. split_and!; try done; [congruence|by rewrite R3|by eapply keeps_frozen_trans|].
      destruct mo_stream0 as [Hs|]; [|subst; done]. destruct R6 as [R6|]; [left; congruence|by right].
Qed.

(** A read that hands out bytes leaves the error alone, and takes an item when everything live had been
looked at. *)
Lemma read_loop_items fuel pr w l pr' w' : reader_ok 0 pr w -> read_loop fuel pr w = (1%Z, l, pr', w') ->
  error pr' = error pr /\ items_left w' <= items_left w /\ (wlen (live_span pr) <= examined pr -> items_left w' < items_left w).
Proof.
  revert pr w. induction fuel as [|fuel IH]; intros pr w Hok Hr; cbn [read_loop] in Hr;
    (destruct (Nat.ltb_spec (examined pr) (wlen (live_span pr))) as [Hex|Hex]; [injection Hr as <- <- <-; split_and!; [done|lia|lia]|]); [done|].
  destruct (more pr w) as [[rc1 pr1] w1] eqn:Em. apply more_spec in Em; [|done]. destruct (Z.leb_spec rc1 0) as [Hle|Hgt]; [injection Hr as ? ? ? ?; lia|].
  assert (Hone : rc1 = 1%Z) by (destruct Em; destruct mo_rc0 as [(? & _)|[(? & _)|[(? & _)|(? & _)]]]; subst; unfold IOXD_PIPE_GONE, IOXD_PIPE_FULL in *; lia).
  apply IH in Hr as (R1 & R2 & R3); [|apply Em]. destruct Em as [_ _ _ _ _ _ _ [(_ & Hi & He & _)|[(? & _)|[(? & _)|(? & _)]]]]; subst; try done.
  split_and!; [congruence|lia|lia].
Qed.

Lemma read_items pr w l pr' w' : reader_ok 0 pr w -> ioxd__pipereader_read pr w = (1%Z, l, pr', w') -> error pr <> 1%Z ->
  error pr = 0%Z /\ error pr' = 0%Z /\ items_left w' <= items_left w /\ (wlen (live_span pr) <= examined pr -> items_left w' < items_left w).
Proof.
  intros Hok Hr Hne. unfold ioxd__pipereader_read in Hr. destruct (Z.eqb_spec (error pr) 0) as [He|He]; cbn [negb] in Hr; [|congruence].
  apply read_loop_items in Hr as (R1 & R2 & R3); [|done]. split_and!; try done. congruence.
Qed.

Lemma read_loop_one fuel pr w rc l pr' w' : read_loop fuel pr w = (rc, l, pr', w') -> (0 < rc)%Z -> rc = 1%Z.
Proof.
  revert pr w. induction fuel as [|fuel IH]; intros pr w; cbn [read_loop]; (destruct (_ <? _); [by intros [= <- _ _ _]|]); [by intros [= <- _ _ _]|].
  destruct (more pr w) as [[rc1 pr1] w1]. destruct (Z.leb_spec rc1 0); [intros [= <- _ _ _]; lia|]. apply IH.
Qed.

Lemma copy_loop_error fuel pr w n rc d pr' w' : reader_ok 0 pr w -> copy_loop fuel pr w n = (rc, d, pr', w') -> (0 < rc)%Z -> error pr' = error pr.
Proof.
  revert pr w. induction fuel as [|fuel IH]; intros pr w Hok Hr Hrc; cbn [copy_loop] in Hr; pose proof (length_live _ _ _ Hok) as Hll;
    (destruct (Nat.ltb_spec 0 (wlen (live_span pr))) as [Hl|Hl];
      [destruct (consume pr w _) as [pr1 w1] eqn:Ec; injection Hr as <- <- <- <-; apply (consume_spec 0) in Ec as [_ _ _ _ _ _ (_ & ? & _)]; [done|done|lia|lia]|]);
    [injection Hr as <- <- <- <-; lia|].
  destruct (more pr w) as [[rc1 pr1] w1] eqn:Em. apply more_spec in Em; [|done]. destruct (Z.leb_spec rc1 0) as [Hle|Hgt]; [injection Hr as <- <- <- <-; lia|].
  assert (Hone : rc1 = 1%Z) by (destruct Em; destruct mo_rc0 as [(? & _)|[(? & _)|[(? & _)|(? & _)]]]; subst; unfold IOXD_PIPE_GONE, IOXD_PIPE_FULL in *; lia).
  apply IH in Hr; [|apply Em|done]. destruct Em as [_ _ _ _ _ _ _ [(_ & Hi & He & _)|[(? & _)|[(? & _)|(? & _)]]]]; subst; try done. congruence.
Qed.

(** ** Sequences of operations *)

Inductive rop := RRead | RAvail | RExamine (n : nat) | RDrop (n : nat) | RKeep (n : nat) | RRunBegin | RRelease | RCopy (n : nat).

(** The bytes an operation took off the live bytes, and the state after it. *)
Definition reader_do (o : rop) pr w : bytes * pipereader * rworld :=
  match o with
  | RRead => let '(_, _, pr, w) := ioxd__pipereader_read pr w in ([], pr, w)
  | RAvail => let '(_, _, pr, w) := ioxd__pipereader_avail pr w in ([], pr, w)
  | RExamine n => ([], ioxd__pipereader_examine pr n, w)
  | RDrop n => let d := take n (live_bytes pr w) in let '(pr, w) := ioxd__pipereader_drop pr w n in (d, pr, w)
  | RKeep n =>
      let d := take n (live_bytes pr w) in
      match ioxd__pipereader_keep pr w n with
      | (Some _, pr, w) => (d, pr, w)
      | (None, pr, w) => ([], pr, w)
      end
  | RRunBegin => let '(pr, w) := ioxd__pipereader_run_begin pr w in ([], pr, w)
  | RRelease => let '(pr, w) := ioxd__pipereader_release pr w in ([], pr, w)
  | RCopy n => let '(_, d, pr, w) := ioxd__pipereader_copy pr w n in (d, pr, w)
  end.

(** What an operation does to the run. *)
Definition run_after (o : rop) (run taken : bytes) : bytes :=
  match o with RKeep _ => run ++ taken | RRunBegin | RRelease => [] | _ => run end.

Fixpoint reader_run (os : list rop) pr w : bytes * pipereader * rworld :=
  match os with
  | [] => ([], pr, w)
  | o :: os' =>
      let '(d, pr, w) := reader_do o pr w in
      let '(ds, pr, w) := reader_run os' pr w in (d ++ ds, pr, w)
  end.

Lemma reader_do_spec o pr w d pr' w' :
  reader_ok 0 pr w -> reader_do o pr w = (d, pr', w') ->
  reader_ok 0 pr' w' /\ ledger pr' w' ≡ₚ ledger pr w /\
  run_bytes pr' w' = run_after o (run_bytes pr w) d /\
  (d ++ live_bytes pr' w' ++ coming w' = live_bytes pr w ++ coming w \/ error pr' = IOXD_PIPE_FULL) /\
  (o <> RRelease -> keeps_frozen pr w pr' w').
Proof.
  intros Hok Hd. destruct o; cbn [reader_do run_after] in *.
  - destruct (ioxd__pipereader_read pr w) as [[[rc l] pr1] w1] eqn:E. injection Hd as <- <- <-.
    apply read_spec in E as [[] _]; [|done]. by split_and!.
  - destruct (ioxd__pipereader_avail pr w) as [[[rc l] pr1] w1] eqn:E. injection Hd as <- <- <-.
    unfold ioxd__pipereader_avail in E. destruct (negb _).
    + injection E as _ _ <- <-. split_and!; try done. by left.
    + apply avail_loop_spec in E as [[] _]; [|done]. by split_and!.
  - injection Hd as <- <- <-. destruct Hok. split_and!; try done. by left.
  - destruct (ioxd__pipereader_drop pr w n) as [pr1 w1] eqn:E. injection Hd as <- <- <-.
    apply (consume_spec 0 n) in E as []; [|done|lia..]. split_and!; try done. left. by rewrite co_live0, co_coming0, app_assoc, take_drop.
  - destruct (ioxd__pipereader_keep pr w n) as [[r pr1] w1] eqn:E. pose proof (keep_spec n pr w r pr1 w1 Hok E) as (_ & K1 & K2 & K3 & K4 & _ & _ & K5).
    destruct r as [s|]; injection Hd as <- <- <-.
    + destruct K5 as (-> & -> & _). split_and!; try done. left. by rewrite K2, app_assoc, take_drop.
    + destruct K5 as (-> & ->). rewrite app_nil_r. split_and!; try done. left. by rewrite K2.
  - destruct (ioxd__pipereader_run_begin pr w) as [pr1 w1] eqn:E. injection Hd as <- <- <-.
    apply run_begin_spec in E as (R1 & R2 & R3 & R4 & R5 & R6 & _); [|done]. split_and!; try done. left. by rewrite R3, R4.
  - destruct (ioxd__pipereader_release pr w) as [pr1 w1] eqn:E. injection Hd as <- <- <-.
    apply release_spec in E as (R1 & R2 & R3 & R4 & R5 & _); [|done]. split_and!; try done. left. by rewrite R3, R4.
  - destruct (ioxd__pipereader_copy pr w n) as [[[rc d1] pr1] w1] eqn:E. injection Hd as <- <- <-.
    unfold ioxd__pipereader_copy in E. destruct (negb _).
    + injection E as _ <- <- <-. split_and!; try done. by left.
    + apply copy_loop_spec in E as (R1 & R2 & R3 & R4 & _ & R6 & _); [|done|lia]. by split_and!.
Qed.

(** *** An error stays *)

Lemma cur_done_error pr w : error (cur_done pr w).1 = error pr.
Proof. unfold cur_done. by repeat case_match. Qed.

Lemma consume_error pr w n : error (consume pr w n).1 = error pr.
Proof.
  unfold consume. pose proof (cur_done_error (set_cur pr (cur pr) true (cur_pos pr + (if wlen (live_span pr) <? n then wlen (live_span pr) else n)) (cur_is_pinned pr)) w).
  destruct (live_in_buf pr); [cbn; by repeat case_match|]. destruct (has_cur pr); [|done]. by destruct (cur_done _ _).
Qed.

(** *** Without a run nothing gets pinned *)

Definition no_run pr : Prop := run_len pr = 0 /\ has_pinned pr = false.

Lemma cur_done_no_run pr w : no_run pr -> no_run (cur_done pr w).1.
Proof. intros Hn. unfold cur_done. repeat case_match; exact Hn. Qed.

Lemma append_item_no_run pr w i rc pr' w' : no_run pr -> append_item pr w i = (rc, pr', w') -> no_run pr'.
Proof.
  intros Hn Ha. unfold append_item in Ha. cbn zeta in Ha. assert (Hc : no_run (compact pr)) by (unfold compact; destruct (floor pr <? buf_pos pr); exact Hn).
  set (p := if cap pr <? buf_end pr + ilen i then compact pr else pr) in Ha.
  assert (Hp : no_run p) by (unfold p; destruct (cap pr <? buf_end pr + ilen i); [exact Hc|exact Hn]). clearbody p.
  destruct (cap p <? buf_end p + ilen i); [unfold refuse in Ha|]; injection Ha as <- <- <-; exact Hp.
Qed.

Lemma more_no_run pr w rc pr' w' : no_run pr -> more pr w = (rc, pr', w') -> no_run pr'.
Proof.
  intros Hn Hm. unfold more in Hm. destruct (eof pr); [injection Hm as <- <- <-; exact Hn|]. destruct (recv_item w) as [[i|] w1].
  2: { destruct (_ <? _)%Z; injection Hm as <- <- <-; exact Hn. }
  destruct (_ && _); [injection Hm as <- <- <-; exact Hn|]. destruct (negb _); [|by eapply append_item_no_run].
  destruct (gather pr w1) as [[p w2]|] eqn:Eg; [|unfold refuse in Hm; injection Hm as <- <- <-; exact Hn].
  eapply append_item_no_run; [|exact Hm]. unfold gather in Eg. destruct (_ <? _); [done|]. injection Eg as Eg.
  assert (Hr : (if run_in_cur pr then run_len pr else 0) = 0) by (destruct (run_in_cur pr); [apply Hn|done]). rewrite Hr in Eg.
  unfold gather_live in Eg. set (q := set_buffer _ _ _ _ _ _) in Eg. assert (Hq : no_run q) by (unfold q, gather_run; cbn; exact Hn). clearbody q.
  destruct (has_cur q); [|injection Eg as <- <-; exact Hq]. pose proof (cur_done_no_run (set_cur q (cur q) true (ilen (cur q)) (cur_is_pinned q)) w1 Hq) as Hc.
  by rewrite Eg in Hc.
Qed.

Lemma read_no_run pr w rc l pr' w' : no_run pr -> ioxd__pipereader_read pr w = (rc, l, pr', w') -> no_run pr'.
Proof.
  unfold ioxd__pipereader_read. destruct (negb _); [by intros ? [= _ _ <- _]|]. generalize (S (items_left w)). intros fuel. revert pr w.
  induction fuel as [|fuel IH]; intros pr w Hn; cbn [read_loop]; (destruct (_ <? _); [by intros [= _ _ <- _]|]); [by intros [= _ _ <- _]|].
  destruct (more pr w) as [[rc1 pr1] w1] eqn:Em. apply more_no_run in Em; [|done].
  destruct (rc1 <=? 0)%Z; [by intros [= _ _ <- _]|]. by apply IH.
Qed.

Lemma consume_no_pin pr w n : has_pinned (consume pr w n).1 = has_pinned pr.
Proof.
  unfold consume. set (m := if wlen (live_span pr) <? n then _ else _).
  assert (Hc : forall p, has_pinned (cur_done p w).1 = has_pinned p) by (intros p; unfold cur_done; by repeat case_match).
  destruct (live_in_buf pr); [by destruct (_ <=? _)|]. destruct (has_cur pr); [|done].
  specialize (Hc (set_cur pr (cur pr) true (cur_pos pr + m) (cur_is_pinned pr))). by destruct (cur_done _ w).
Qed.

(** A keep without a run before it starts one, and pins nothing. *)
Lemma keep_no_pin pr w n s pr' w' : no_run pr -> ioxd__pipereader_keep pr w n = (Some s, pr', w') -> has_pinned pr' = false.
Proof.
  intros [Hl Hp] Hk. unfold ioxd__pipereader_keep in Hk. destruct (_ <? n); [done|]. destruct (n =? 0); [by injection Hk as <- <- <-|].
  rewrite Hl in Hk. cbn [Nat.eqb] in Hk.
  assert (Hc : forall p w1 k, has_pinned p = false -> (let '(p, w) := consume (set_run p (run_in_cur p) (run_start p) (run_len p + n)) w1 n in (Some k, p, w)) = (Some s, pr', w') -> has_pinned pr' = false).
  { intros p w1 k Hpp. pose proof (consume_no_pin (set_run p (run_in_cur p) (run_start p) (run_len p + n)) w1 n) as Hq. cbn in Hq.
    destruct (consume _ w1 n) as [p2 w2]. cbn in Hq. intros [= <- <- <-]. congruence. }
  destruct (live_in_buf pr); [by eapply Hc in Hk|]. cbn [orb] in Hk. destruct (has_cur pr); cbn [andb] in Hk; [by eapply Hc in Hk|done].
Qed.

Lemma release_no_run pr w pr' w' : ioxd__pipereader_release pr w = (pr', w') -> no_run pr'.
Proof.
  unfold ioxd__pipereader_release. intros Hr. set (p1 := if live_in_buf _ then _ else _) in Hr.
  assert (H1 : run_len p1 = 0) by (unfold p1; by destruct (live_in_buf _)). clearbody p1.
  set (q := if has_pinned p1 then _ else _) in Hr. assert (Hq : no_run q.1) by (unfold q; destruct (has_pinned p1) eqn:E; [by destruct (cur_is_pinned p1)|by split]).
  destruct q as [p2 w2]. pose proof (cur_done_no_run p2 w2 Hq) as Hc. by rewrite Hr in Hc.
Qed.

(** No step sets an error above zero. *)
Lemma mored_nonpos pr w rc pr' w' : mored pr w rc pr' w' -> (error pr <= 0)%Z -> (error pr' <= 0)%Z.
Proof.
  intros [_ _ _ _ _ _ _ Hrc] He. unfold IOXD_PIPE_GONE, IOXD_PIPE_FULL in *.
  destruct Hrc as [(_ & _ & E & _)|[(_ & _ & _ & E & _)|[(_ & _ & E & _)|(_ & _ & E & _)]]]; lia.
Qed.

Lemma read_nonpos pr w rc l pr' w' : reader_ok 0 pr w -> ioxd__pipereader_read pr w = (rc, l, pr', w') ->
  (error pr <= 0)%Z -> (error pr' <= 0)%Z.
Proof.
  unfold ioxd__pipereader_read. destruct (negb _); [by intros _ [= _ _ <- _]|]. generalize (S (items_left w)). intros fuel. revert pr w.
  induction fuel as [|fuel IH]; intros pr w Hok; cbn [read_loop]; (destruct (_ <? _); [by intros [= _ _ <- _]|]); [by intros [= _ _ <- _]|].
  destruct (more pr w) as [[rc1 pr1] w1] eqn:Em. apply more_spec in Em; [|done]. pose proof (mored_nonpos _ _ _ _ _ Em) as Hn.
  destruct (rc1 <=? 0)%Z; [by intros [= _ _ <- _]|]. intros Hr He. eapply IH; [apply Em|exact Hr|auto].
Qed.

Lemma copy_nonpos pr w n rc d pr' w' : reader_ok 0 pr w -> ioxd__pipereader_copy pr w n = (rc, d, pr', w') ->
  (error pr <= 0)%Z -> (error pr' <= 0)%Z.
Proof.
  unfold ioxd__pipereader_copy. destruct (negb _); [by intros _ [= _ _ <- _]|]. generalize (S (items_left w)). intros fuel. revert pr w.
  induction fuel as [|fuel IH]; intros pr w Hok; cbn [copy_loop];
    (destruct (0 <? _);
     [match goal with |- context [consume pr w ?m] => pose proof (consume_error pr w m) as Hc; destruct (consume pr w m) as [p1 w1]; cbn [fst] in Hc end;
      intros [= _ _ <- _]; by rewrite Hc|]); [by intros [= _ _ <- _]|].
  destruct (more pr w) as [[rc1 pr1] w1] eqn:Em. apply more_spec in Em; [|done]. pose proof (mored_nonpos _ _ _ _ _ Em) as Hn.
  destruct (rc1 <=? 0)%Z; [by intros [= _ _ <- _]|]. intros Hr He. eapply IH; [apply Em|exact Hr|auto].
Qed.

Lemma keep_nonpos pr w n r pr' w' : reader_ok 0 pr w -> ioxd__pipereader_keep pr w n = (r, pr', w') -> (error pr <= 0)%Z -> (error pr' <= 0)%Z.
Proof.
  intros Hok Hk He. destruct r as [s|].
  - apply keep_spec in Hk as (_ & _ & _ & _ & _ & _ & _ & _ & _ & ->); done.
  - unfold ioxd__pipereader_keep in Hk. destruct (_ <? n); [by injection Hk as <- <-|]. destruct (n =? 0); [done|].
    assert (Hc : forall p w1 (s : where_), (let '(p, w) := consume (set_run p (run_in_cur p) (run_start p) (run_len p + n)) w1 n in (Some s, p, w)) <> (None, pr', w')).
    { intros p w1 s Hx. destruct (consume (set_run p (run_in_cur p) (run_start p) (run_len p + n)) w1 n). discriminate Hx. }
    destruct (live_in_buf pr); [by apply Hc in Hk|]. destruct (has_cur pr); cbn [andb] in Hk; [|by injection Hk as <- <-].
    destruct (_ || _); [by apply Hc in Hk|]. destruct (_ <? _); [|by apply Hc in Hk]. by injection Hk as <- <-.
Qed.

Lemma error_sticky o pr w d pr' w' :
  error pr = IOXD_PIPE_FULL -> reader_do o pr w = (d, pr', w') -> error pr' = IOXD_PIPE_FULL.
Proof.
  intros He Hd. destruct o; cbn [reader_do] in Hd.
  - unfold ioxd__pipereader_read in Hd. rewrite He in Hd. by injection Hd as <- <- <-.
  - unfold ioxd__pipereader_avail in Hd. rewrite He in Hd. by injection Hd as <- <- <-.
  - by injection Hd as <- <- <-.
  - unfold ioxd__pipereader_drop in Hd. pose proof (consume_error pr w n). destruct (consume pr w n). injection Hd as <- <- <-. by rewrite <- He.
  - destruct (ioxd__pipereader_keep pr w n) as [[r pr1] w1] eqn:E. 
    enough (error pr1 = IOXD_PIPE_FULL) by (destruct r; injection Hd as <- <- <-; done).
    unfold ioxd__pipereader_keep in E. destruct (_ <? n); [by injection E as <- <- <-|]. destruct (n =? 0); [by injection E as <- <- <-|].
    destruct (live_in_buf pr); [|destruct (has_cur pr && ((run_len pr =? 0) || run_in_cur pr)); [|destruct (has_cur pr); [destruct (cap pr <? floor pr + n)|]]];
      lazy beta iota zeta in E; try (by injection E as <- <- <-);
      match type of E with context [consume ?q ?w0 n] => pose proof (consume_error q w0 n) as Hq; destruct (consume q w0 n) end;
      injection E as <- <- <-; cbn in *; rewrite Hq; by repeat case_match.
  - unfold ioxd__pipereader_run_begin in Hd. set (q := if _ && _ then _ else _) in Hd.
    pose proof (cur_done_error (set_run q false (run_start q) 0) w) as Hq. destruct (cur_done _ _) as [p1 w1]. injection Hd as <- <- <-.
    cbn in Hq. rewrite Hq. unfold q. by repeat case_match.
  - unfold ioxd__pipereader_release in Hd. set (q := if live_in_buf _ then _ else _) in Hd.
    assert (error q = IOXD_PIPE_FULL) as Hq by (unfold q; by destruct (live_in_buf _)). clearbody q.
    destruct (if has_pinned q then _ else _) as [m w1] eqn:Em.
    assert (error m = IOXD_PIPE_FULL) by (repeat case_match; by injection Em as <- <-).
    pose proof (cur_done_error m w1). destruct (cur_done m w1). injection Hd as <- <- <-. cbn in *. congruence.
  - unfold ioxd__pipereader_copy in Hd. rewrite He in Hd. by injection Hd as <- <- <-.
Qed.

(** What comes to a fresh reader: its buffer, and the world's items, each in a buffer of its own that
holds it whole. *)
Record world_ok w : Prop := {
  wo_names : NoDup (map buf_id (now w ++ later w));
  wo_items : forall i, i ∈ now w ++ later w -> ilen i <= length (kmem w (buf_id i));
  wo_back : back w = []
}.

Lemma reader_ok_init b w : world_ok w -> reader_ok 0 (ioxd__pipereader_init b (length b)) w.
Proof. intros []. split; cbn; try done; try lia. unfold ledger, owned. cbn. by rewrite wo_back0. Qed.

Lemma reader_run_spec os pr w d pr' w' :
  reader_ok 0 pr w -> reader_run os pr w = (d, pr', w') ->
  reader_ok 0 pr' w' /\ ledger pr' w' ≡ₚ ledger pr w /\
  (d ++ live_bytes pr' w' ++ coming w' = live_bytes pr w ++ coming w \/ error pr' = IOXD_PIPE_FULL) /\
  (error pr = IOXD_PIPE_FULL -> error pr' = IOXD_PIPE_FULL) /\
  (RRelease ∉ os -> keeps_frozen pr w pr' w').
Proof.
  revert pr w d. induction os as [|o os IH]; intros pr w d Hok Hr; cbn [reader_run] in Hr.
  { injection Hr as <- <- <-. split_and!; try done. by left. }
  destruct (reader_do o pr w) as [[d1 pr1] w1] eqn:Eo. destruct (reader_run os pr1 w1) as [[d2 pr2] w2] eqn:Er.
  injection Hr as <- <- <-. pose proof (error_sticky o pr w d1 pr1 w1) as Hst.
  pose proof (reader_do_spec o pr w d1 pr1 w1 Hok Eo) as (H1 & H2 & _ & H4 & H5).
  apply IH in Er as (R1 & R2 & R3 & R4 & R5); [|done]. split_and!; try done; [by rewrite R2| | |].
  - destruct H4 as [H4|H4]; [|right; auto]. destruct R3 as [R3|]; [left|by right]. by rewrite <- app_assoc, R3, H4.
  - auto.
  - intros Hn. eapply keeps_frozen_trans; [apply H5|apply R5]; set_solver.
Qed.

(** ** Properties *)

(** C25. The reader is a byte stream. Over any input, in pieces of any sizes, after any sequence of reads,
drops, keeps, run starts, releases and copies: the bytes taken so far, the live bytes and the bytes
still to come are together exactly the input, in order - unless kept plus live bytes outgrew the
gathering buffer, which is reported; every span stays inside its buffer (the invariant [reader_ok]);
and no buffer was given back twice or lost: given back, held and still to come they are the buffers
there were. *)
Theorem reader_stream os b w d pr' w' :
  world_ok w -> reader_run os (ioxd__pipereader_init b (length b)) w = (d, pr', w') ->
  reader_ok 0 pr' w' /\
  (d ++ live_bytes pr' w' ++ coming w' = coming w \/ error pr' = IOXD_PIPE_FULL) /\
  back w' ++ owned pr' ++ map buf_id (now w' ++ later w') ≡ₚ map buf_id (now w ++ later w).
Proof.
  intros Hw Hr. apply reader_run_spec in Hr as (R1 & R2 & R3 & _); [|by apply reader_ok_init].
  split; [done|]. split; [exact R3|]. unfold ledger in R2. rewrite R2. unfold owned. cbn. by rewrite (wo_back _ Hw).
Qed.

(** Kept bytes do not move. Of any reachable state whose run is not in a buffer about to be displaced
(another one is pinned already): once the run is frozen, whatever is read, dropped, kept or copied
afterwards, until the release the bytes of the run are still where [ioxd__pipereader_run] said, in
memory the reader still owns. *)
Theorem reader_frozen os pr w pr1 w1 d pr' w' :
  reader_ok 0 pr w -> 0 < run_len pr ->
  (run_in_cur pr = true -> has_pinned pr = true -> cur_is_pinned pr = true) ->
  ioxd__pipereader_run_begin pr w = (pr1, w1) -> RRelease ∉ os -> reader_run os pr1 w1 = (d, pr', w') ->
  at_span pr' w' (ioxd__pipereader_run pr) = run_bytes pr w /\
  match ioxd__pipereader_run pr with InKern id _ _ => id ∈ owned pr' | _ => True end.
Proof.
  intros Hok Hl Hp Hb Hos Hr. apply run_begin_spec in Hb as (B1 & _ & _ & _ & _ & _ & _ & B8); [|done].
  destruct (B8 Hl Hp) as (_ & Hf & Hs). apply reader_run_spec in Hr as (_ & _ & _ & _ & Hk); [|done].
  destruct (Hk Hos _ Hf) as [Hf' ->]. split; [done|].
  destruct (ioxd__pipereader_run pr); cbn in *; try done. destruct Hf' as (H1 & <- & _). unfold owned. rewrite H1. set_solver.
Qed.

(** Reading makes progress and keep answers as it says. A read returns live bytes with something
unexamined among them, or 0 only at the end of the input with every live byte seen, or a sticky error -
never a silent stop; a keep that succeeds returns where exactly the first [n] live bytes now are, as the
end of the run; one that fails asked for more than is live or found no room. *)
Theorem reader_read_keep pr w n :
  reader_ok 0 pr w ->
  (let '(rc, l, pr', w') := ioxd__pipereader_read pr w in
   rc = 1%Z /\ l = live_span pr' /\ examined pr' < length (live_bytes pr' w') \/
   rc = 0%Z /\ eof pr' = true /\ length (live_bytes pr' w') <= examined pr' \/
   rc <> 0%Z /\ error pr' = rc) /\
  match ioxd__pipereader_keep pr w n with
  | (Some s, pr', w') =>
      (0 < n -> n <= length (live_bytes pr w) /\ at_span pr' w' s = take n (live_bytes pr w)) /\
      run_bytes pr' w' = run_bytes pr w ++ take n (live_bytes pr w) /\
      live_bytes pr' w' = drop n (live_bytes pr w)
  | (None, pr', w') =>
      (length (live_bytes pr w) < n \/ error pr' = IOXD_PIPE_FULL) /\
      run_bytes pr' w' = run_bytes pr w /\ live_bytes pr' w' = live_bytes pr w
  end.
Proof.
  intros Hok. split.
  - destruct (ioxd__pipereader_read pr w) as [[[rc l] pr'] w'] eqn:E. apply read_spec in E as [[Hok' _ _ _ _ _ _] Hc]; [|done].
    rewrite (length_live _ _ _ Hok'). destruct Hc as [(? & -> & ?)|[?|?]]; auto.
  - destruct (ioxd__pipereader_keep pr w n) as [[r pr'] w'] eqn:E. apply keep_spec in E as (H1 & _ & _ & _ & _ & _ & _ & H2); [|done].
    destruct r as [s|]; [|done]. destruct H2 as (H2 & H3 & _). split; [|done]. intros Hn. destruct H1; [done|lia].
Qed.

(** *** Witnesses *)

Definition two_items : rworld :=
  {| mem := <[7%Z := lit "hello wo"]> (<[9%Z := lit "rld!"]> ∅);
     now := [{| Bufring.ptr := 0; Bufring.len := 8; Bufring.buf_id := 7 |}];
     later := [{| Bufring.ptr := 0; Bufring.len := 4; Bufring.buf_id := 9 |}]; end_rc := 0; back := [] |}.

Lemma two_items_ok : world_ok two_items.
Proof.
  split; [|  |reflexivity].
  - cbn. repeat constructor; set_solver.
  - intros i Hi. cbn in Hi. repeat (apply elem_of_cons in Hi as [->|Hi]); [vm_compute; lia..|set_solver].
Qed.

Lemma reader_stream_witness :
  exists d pr' w', reader_run [RRead; RKeep 5; RExamine 9; RRead; RDrop 1] (ioxd__pipereader_init (replicate 16 0%Z) (length (replicate 16 0%Z))) two_items = (d, pr', w') /\
    (d ++ live_bytes pr' w' ++ coming w' = coming two_items \/ error pr' = IOXD_PIPE_FULL).
Proof.
  destruct (reader_run _ _ two_items) as [[d pr'] w'] eqn:E. exists d, pr', w'. split; [reflexivity|].
  apply (reader_stream _ _ _ _ _ _ two_items_ok E).
Defined.

(** A reader that kept five bytes in place. *)
Definition kept_state : pipereader * rworld :=
  let '(_, pr, w) := reader_run [RRead; RKeep 5] (ioxd__pipereader_init (replicate 16 0%Z) 16) two_items in (pr, w).

Lemma kept_state_ok : reader_ok 0 kept_state.1 kept_state.2.
Proof.
  unfold kept_state. destruct (reader_run _ _ two_items) as [[d pr'] w'] eqn:E.
  apply reader_run_spec in E as [H _]; [exact H|]. exact (reader_ok_init (replicate 16 0%Z) two_items two_items_ok).
Qed.

Lemma reader_frozen_witness :
  exists pr' w', at_span pr' w' (ioxd__pipereader_run kept_state.1) = lit "hello".
Proof.
  destruct (ioxd__pipereader_run_begin kept_state.1 kept_state.2) as [pr1 w1] eqn:E1.
  destruct (reader_run [RExamine 3; RRead; RKeep 4] pr1 w1) as [[d pr'] w'] eqn:E2.
  exists pr', w'.
  pose proof (proj1 (reader_frozen [RExamine 3; RRead; RKeep 4] _ _ pr1 w1 d pr' w' kept_state_ok
    ltac:(vm_compute; lia) ltac:(intros _ H; vm_compute in H; discriminate H) E1 ltac:(set_solver) E2)) as ->.
  vm_compute. reflexivity.
Defined.

Lemma reader_read_keep_witness : exists s pr' w',
  ioxd__pipereader_keep kept_state.1 kept_state.2 2 = (Some s, pr', w') /\ live_bytes pr' w' = lit "o".
Proof.
  pose proof (reader_read_keep _ _ 2 kept_state_ok) as [_ H].
  destruct (ioxd__pipereader_keep kept_state.1 kept_state.2 2) as [[[s|] pr'] w'] eqn:E.
  - exists s, pr', w'. split; [reflexivity|]. destruct H as (_ & _ & ->). vm_compute. reflexivity.
  - exfalso. apply (f_equal (fun x => match x.1.1 with Some _ => true | None => false end)) in E. vm_compute in E. discriminate E.
Defined.
