(* ===== verification/Headers.v ===== *)
(** What lib/http/engine.c reads from a request head: the header list it gets from the parser, names
    folded to lower case eight bytes at a time, the framing fields picked out, and [fill_request], which
    settles path, query, framing and persistence or refuses the request. Then the two digit writers of
    the reply. The HTTP parser itself is picohttpparser, not part of the sources: what it found in a
    head is the argument of [fill_request]. *)
From S2P Require Import Prelude Slices.

#[local] Arguments Nat.ltb : simpl never.
#[local] Arguments Nat.leb : simpl never.
#[local] Arguments lit : simpl never.

(** ** Case and numbers *)

Definition lower_ascii (a : Z) : Z := if (wrap32 (a - ch "A") <? 26)%Z then Z.lor a 32 else a.

Fixpoint eq_ci_loop (a b : bytes) : bool :=
  match a, b with
  | x :: a', y :: b' => if negb (lower_ascii x =? lower_ascii y)%Z then false else eq_ci_loop a' b'
  | _, _ => true
  end.

Definition eq_ci (a b : bytes) : bool :=
  if negb (length a =? length b) then false else eq_ci_loop a b.

Fixpoint parse_length_loop (s : bytes) (v : Z) : option Z :=
  match s with
  | [] => Some v
  | c :: s' =>
      let d := wrap32 (c - ch "0") in
      if ((9 <? d) || (wrap64 (SIZE_MAX - d) / 10 <? v))%Z%bool then None
      else parse_length_loop s' (wrap64 (v * 10 + d))
  end.

Definition parse_length (s : bytes) : option Z := if length s =? 0 then None else parse_length_loop s 0.

(** ** Lists of tokens *)

(** The loop that passes blanks and commas, on what is left of the value. *)
Fixpoint skip_seps (rest : bytes) : bytes :=
  match rest with
  | c :: rest' => if ((c =? ch " ") || (c =? ch ",") || (c =? 9))%Z%bool then skip_seps rest' else rest
  | [] => []
  end.

(** How many bytes come before the next comma. *)
Fixpoint until_comma (rest : bytes) : nat :=
  match rest with
  | c :: rest' => if negb (c =? ch ",")%Z then S (until_comma rest') else 0
  | [] => 0
  end.

(** [while (end > start && value[end - 1] is a blank) end--], for the [n] bytes from [start]. *)
Fixpoint trim_blanks (tok : bytes) (n : nat) : nat :=
  match n with
  | 0 => 0
  | S n' =>
      match tok !! n' with
      | Some c => if ((c =? ch " ") || (c =? 9))%Z%bool then trim_blanks tok n' else n
      | None => n
      end
  end.

(** The next token and what is left after it; the code counts in [at] how much is gone. *)
Definition next_token (rest : bytes) : option (bytes * bytes) :=
  let rest := skip_seps rest in
  if length rest =? 0 then None
  else
    let n := until_comma rest in
    Some (take (trim_blanks rest n) rest, drop n rest).

Fixpoint token_loop (fuel : nat) (rest tok : bytes) : bool :=
  match fuel with
  | 0 => false
  | S fuel' =>
      match next_token rest with
      | Some (t, rest') => if eq_ci t tok then true else token_loop fuel' rest' tok
      | None => false
      end
  end.

Definition token_present_ci (value tok : bytes) : bool := token_loop (S (length value)) value tok.

(** ** The header pass *)

Record picked_headers := {
  content_length : bytes;
  n_content_length : nat; n_transfer_enc : nat; n_host : nat;
  te_last_chunked : bool;
  te_other : bool;
  close : bool; keep_alive : bool;
  expect_continue : bool;
  refuse : Z
}.

Definition picked_none : picked_headers :=
  {| content_length := []; n_content_length := 0; n_transfer_enc := 0; n_host := 0; te_last_chunked := false;
     te_other := false; close := false; keep_alive := false; expect_continue := false; refuse := 0 |}.

Definition set_te (p : picked_headers) (n : nat) (last other : bool) : picked_headers :=
  {| content_length := content_length p; n_content_length := n_content_length p; n_transfer_enc := n; n_host := n_host p;
     te_last_chunked := last; te_other := other; close := close p; keep_alive := keep_alive p;
     expect_continue := expect_continue p; refuse := refuse p |}.
Definition set_refuse (p : picked_headers) (r : Z) : picked_headers :=
  {| content_length := content_length p; n_content_length := n_content_length p; n_transfer_enc := n_transfer_enc p; n_host := n_host p;
     te_last_chunked := te_last_chunked p; te_other := te_other p; close := close p; keep_alive := keep_alive p;
     expect_continue := expect_continue p; refuse := r |}.
Definition set_length (p : picked_headers) (v : bytes) (n : nat) : picked_headers :=
  {| content_length := v; n_content_length := n; n_transfer_enc := n_transfer_enc p; n_host := n_host p;
     te_last_chunked := te_last_chunked p; te_other := te_other p; close := close p; keep_alive := keep_alive p;
     expect_continue := expect_continue p; refuse := refuse p |}.
Definition set_flags (p : picked_headers) (hosts : nat) (c k e : bool) : picked_headers :=
  {| content_length := content_length p; n_content_length := n_content_length p; n_transfer_enc := n_transfer_enc p; n_host := hosts;
     te_last_chunked := te_last_chunked p; te_other := te_other p; close := c; keep_alive := k;
     expect_continue := e; refuse := refuse p |}.

(** [uint64_t] arithmetic on eight bytes read little-endian, as [memcpy] reads them on x86-64 and
AArch64. *)
Fixpoint pack (l : bytes) : Z := match l with [] => 0 | b :: l' => (b + 256 * pack l')%Z end.
Fixpoint unpack (n : nat) (w : Z) : bytes :=
  match n with 0 => [] | S n' => (w mod 256)%Z :: unpack n' (w / 256)%Z end.

Definition lower_word (w : Z) : Z :=
  let upper := Z.land (Z.land (wrap64 (w + 0x3f3f3f3f3f3f3f3f)) (UINT64_MAX - wrap64 (w + 0x2525252525252525))) 0x8080808080808080 in
  Z.lor w (Z.shiftr upper 2).

Definition lower_byte (c : Z) : Z := if (wrap32 (c - ch "A") <? 26)%Z then (c + (ch "a" - ch "A"))%Z else c.

Fixpoint lower_inplace (s : bytes) : bytes :=
  match s with
  | b0 :: b1 :: b2 :: b3 :: b4 :: b5 :: b6 :: b7 :: s' =>
      unpack 8 (lower_word (pack [b0; b1; b2; b3; b4; b5; b6; b7])) ++ lower_inplace s'
  | _ => map lower_byte s
  end.

(** The tokens of one Transfer-Encoding line. *)
Fixpoint te_loop (fuel : nat) (rest : bytes) (any last other : bool) : bool * bool * bool :=
  match fuel with
  | 0 => (any, last, other)
  | S fuel' =>
      match next_token rest with
      | None => (any, last, other)
      | Some (tok, rest') =>
          let final := match next_token rest' with Some _ => false | None => true end in
          if final && eq_ci tok (lit "chunked") then te_loop fuel' rest' true true other
          else te_loop fuel' rest' true last true
      end
  end.

Definition pick_transfer_encoding (p : picked_headers) (value : bytes) : picked_headers :=
  let other := if te_last_chunked p then true else te_other p in
  let '(any, last, other) := te_loop (S (length value)) value false false other in
  let p := set_te p (n_transfer_enc p + 1) last other in
  if negb any then set_refuse p 400 else p.

(** A header line: the name is absent on a folded continuation. *)
Definition header : Type := option bytes * bytes.

Definition pick_header (p : picked_headers) (name value : bytes) : picked_headers :=
  let n := length name in
  if n =? 4 then
    if beq name (lit "host") then set_flags p (n_host p + 1) (close p) (keep_alive p) (expect_continue p) else p
  else if n =? 6 then
    if beq name (lit "expect") then
      if eq_ci value (lit "100-continue") then set_flags p (n_host p) (close p) (keep_alive p) true
      else set_refuse p 417
    else p
  else if n =? 10 then
    if beq name (lit "connection") then
      let p := if token_present_ci value (lit "close") then set_flags p (n_host p) true (keep_alive p) (expect_continue p) else p in
      if token_present_ci value (lit "keep-alive") then set_flags p (n_host p) (close p) true (expect_continue p) else p
    else p
  else if n =? 14 then
    if beq name (lit "content-length") then
      let p' := if (0 <? n_content_length p) && negb ((length value =? length (content_length p)) && beq value (content_length p))
                then set_refuse p 400 else p in
      set_length p' value (n_content_length p + 1)
    else p
  else if n =? 17 then
    if beq name (lit "transfer-encoding") then pick_transfer_encoding p value else p
  else p.

(** The pass over the headers: the names come out lowered. *)
Fixpoint pick_loop (hs : list header) (p : picked_headers) : list header * picked_headers :=
  match hs with
  | [] => ([], p)
  | (None, v) :: hs' => let '(out, p) := pick_loop hs' (set_refuse p 400) in ((None, v) :: out, p)
  | (Some name, v) :: hs' =>
      let name := lower_inplace name in
      let '(out, p) := pick_loop hs' (pick_header p name v) in ((Some name, v) :: out, p)
  end.

Definition pick_headers (hs : list header) : list header * picked_headers := pick_loop hs picked_none.

Definition keep_alive_from (minor_version : Z) (p : picked_headers) : bool :=
  if close p then false else (1 <=? minor_version)%Z || keep_alive p.

(** ** The request *)

Record ioxd_request := {
  method : bytes; target : bytes; path : bytes; query : bytes;
  minor_version : Z;
  headers : list header;
  params : list kv; params_arena : bytes;
  route_params : list (bytes * bytes);
  req_content_length : Z;
  chunked : bool;
  req_keep_alive : bool;
  req_expect_continue : bool;
  route_arena : bytes
}.

Definition IOXD_MAX_PARAMS : nat := 32.

Definition starts_ci (s l : bytes) : bool :=
  let n := length l in (n <=? length s) && eq_ci (take n s) l.

(** The target without scheme and authority. *)
Definition origin_form (target : bytes) : bytes :=
  match target with
  | c :: _ =>
      if negb (c =? ch "/")%Z && (starts_ci target (lit "http://") || starts_ci target (lit "https://")) then
        let skip := match target !! 4 with Some d => if (d =? ch ":")%Z then 7 else 8 | None => 8 end in
        match memchr (ch "/") (drop skip target) with
        | Some i => drop (skip + i) target
        | None => lit "/"
        end
      else target
  | [] => target
  end.

Definition set_uri (r : ioxd_request) (p q : bytes) (ps : list kv) (arena : bytes) : ioxd_request :=
  {| method := method r; target := target r; path := p; query := q; minor_version := minor_version r;
     headers := headers r; params := ps; params_arena := arena; route_params := []; req_content_length := req_content_length r;
     chunked := chunked r; req_keep_alive := req_keep_alive r; req_expect_continue := req_expect_continue r; route_arena := route_arena r |}.

Definition set_framing (r : ioxd_request) (hs : list header) (c : bool) (n : Z) (k e : bool) : ioxd_request :=
  {| method := method r; target := target r; path := path r; query := query r; minor_version := minor_version r;
     headers := hs; params := params r; params_arena := params_arena r; route_params := route_params r; req_content_length := n;
     chunked := c; req_keep_alive := k; req_expect_continue := e; route_arena := route_arena r |}.

Definition set_chunked (r : ioxd_request) : ioxd_request :=
  set_framing r (headers r) true (req_content_length r) (req_keep_alive r) (req_expect_continue r).
Definition set_content_length (r : ioxd_request) (n : Z) : ioxd_request :=
  set_framing r (headers r) (chunked r) n (req_keep_alive r) (req_expect_continue r).

(** [fill_request], after the query was parsed: the headers and the framing. *)
Definition settle_framing (req : ioxd_request) (truncated : bool) : Z * ioxd_request :=
  let '(hs, picked) := pick_headers (headers req) in
  let req := set_framing req hs false 0 (keep_alive_from (minor_version req) picked) (expect_continue picked) in
  if negb (refuse picked =? 0)%Z then (refuse picked, req)
  else if truncated then ((if (length (params req) =? IOXD_MAX_PARAMS)%nat then 400 else 414)%Z, req)
  else if (if (1 <=? minor_version req)%Z then negb (n_host picked =? 1) else 1 <? n_host picked) then (400%Z, req)
  else if 0 <? n_transfer_enc picked then
    if 0 <? n_content_length picked then (400%Z, req)
    else if te_other picked then (501%Z, req)
    else if negb (te_last_chunked picked) then (400%Z, req)
    else (0%Z, set_chunked req)
  else if 0 <? n_content_length picked then
    match parse_length (content_length picked) with
    | None => (400%Z, req)
    | Some n => (0%Z, set_content_length req n)
    end
  else (0%Z, req).

(** The query into the request's parameters; [None] would be the parser's fuel running out. *)
Definition fill_request (req : ioxd_request) (arena : bytes) : option (Z * ioxd_request) :=
  let target := origin_form (target req) in
  let '(path, query) := match memchr (ch "?") target with
                        | Some i => (take i target, drop (i + 1) target)
                        | None => (target, [])
                        end in
  match (if negb (length query =? 0) then ioxd_kv_parse query IOXD_MAX_PARAMS arena else Some ([], false, arena)) with
  | None => None
  | Some (ps, truncated, arena) => Some (settle_framing (set_uri req path query ps arena) truncated)
  end.

(** ** The digit writers *)

(** [do ... while (v)]: the digits, lowest first, in [tmp[20]]. *)
Fixpoint uint_tmp (fuel : nat) (v : Z) : bytes :=
  match fuel with
  | 0 => []
  | S fuel' => (ch "0" + v mod 10)%Z :: (if (v / 10 =? 0)%Z then [] else uint_tmp fuel' (v / 10))
  end.
Definition put_uint (v : Z) : bytes := rev (uint_tmp 20 v).

Definition digits : bytes := lit "0123456789abcdef".
Fixpoint hex_tmp (fuel : nat) (v : Z) : bytes :=
  match fuel with
  | 0 => []
  | S fuel' =>
      nth (Z.to_nat (Z.land v 15)) digits 0%Z ::
      (if (Z.shiftr v 4 =? 0)%Z then [] else hex_tmp fuel' (Z.shiftr v 4))
  end.
Definition put_hex (v : Z) : bytes := rev (hex_tmp 16 v).

(** *** On concrete heads *)

Definition req0 (t : bytes) (minor : Z) (hs : list header) : ioxd_request :=
  {| method := lit "GET"; target := t; path := []; query := []; minor_version := minor; headers := hs; params := [];
     params_arena := []; route_params := []; req_content_length := 0; chunked := false; req_keep_alive := false;
     req_expect_continue := false; route_arena := replicate 256 0%Z |}.

Definition hd (n v : String.string) : header := (Some (lit n), lit v).
Arguments hd (_ _)%_string_scope.

Definition refused (r : option (Z * ioxd_request)) : Z := match r with Some (rc, _) => rc | None => (-1)%Z end.

Example lower_ex : lower_inplace (lit "Transfer-ENCODING_[@") = lit "transfer-encoding_[@".
Proof. reflexivity. Qed.
Example fill_ex1 : refused (fill_request (req0 (lit "/a?b=1") 1 [hd "HOST" "x"; hd "Content-LENGTH" "12"]) []) = 0%Z.
Proof. reflexivity. Qed.
Example fill_ex2 :
  map (fun hs => refused (fill_request (req0 (lit "/") 1 (hd "Host" "x" :: hs)) []))
    [[hd "Transfer-Encoding" "Chunked"]; [hd "Transfer-Encoding" "gzip, chunked"]; [hd "Transfer-Encoding" "chunked"; hd "transfer-encoding" "chunked"];
     [hd "Transfer-Encoding" " ,"]; [hd "Transfer-Encoding" "chunked"; hd "Content-Length" "3"];
     [hd "Content-Length" "3"; hd "content-length" "3"]; [hd "Content-Length" "3"; hd "content-length" "03"]; [hd "Content-Length" "+3"];
     [hd "Content-Length" "18446744073709551616"]; [(None, lit "folded")]; [hd "Expect" "x"]; [hd "Host" "y"]]
  = [0; 501; 501; 400; 400; 0; 400; 400; 400; 400; 417; 400]%Z.
Proof. reflexivity. Qed.
Example put_ex : (put_uint 0, put_uint 18446744073709551615, put_hex 48879, put_hex 0) = (lit "0", lit "18446744073709551615", lit "beef", lit "0").
Proof. reflexivity. Qed.

(** ** Tokens: the reference *)

Definition blank (c : Z) : bool := ((c =? ch " ") || (c =? 9))%Z%bool.

Fixpoint trim_l (l : bytes) : bytes := match l with c :: l' => if blank c then trim_l l' else l | [] => [] end.
Fixpoint trim_r (l : bytes) : bytes :=
  match l with
  | [] => []
  | c :: l' => match trim_r l' with [] => if blank c then [] else [c] | t => c :: t end
  end.

(** The nonempty elements of a comma-separated list, blanks around them dropped. *)
Definition tokens (v : bytes) : list bytes :=
  List.filter nonempty (map (fun s => trim_r (trim_l s)) (split_at (ch ",") v)).

Lemma tokens_nil : tokens [] = [].
Proof. reflexivity. Qed.

Lemma tokens_comma l : tokens (ch "," :: l) = tokens l.
Proof. reflexivity. Qed.

Lemma tokens_blank c l : blank c = true -> tokens (c :: l) = tokens l.
Proof.
  intros Hb. unfold tokens. cbn [split_at].
  destruct (Z.eqb_spec c (ch ",")) as [->|_]; [done|].
  pose proof (split_at_nil (ch ",") l) as Hn. destruct (split_at (ch ",") l) as [|h t]; [done|].
  cbn [map trim_l]. by rewrite Hb.
Qed.

Lemma tokens_skip_seps l : tokens (skip_seps l) = tokens l.
Proof.
  induction l as [|c l IH]; [done|]. cbn [skip_seps].
  destruct (Z.eqb_spec c (ch " ")) as [->|]; [by rewrite tokens_blank|].
  destruct (Z.eqb_spec c (ch ",")) as [->|]; [by rewrite tokens_comma|].
  destruct (Z.eqb_spec c 9) as [->|]; [by rewrite tokens_blank|]. done.
Qed.

Lemma skip_seps_length l : length (skip_seps l) <= length l.
Proof. induction l as [|c l IH]; cbn [skip_seps]; [done|]. case_match; cbn; lia. Qed.

Lemma skip_seps_head l c r : skip_seps l = c :: r -> blank c = false /\ c <> ch ",".
Proof.
  induction l as [|d l IH]; cbn [skip_seps]; [done|]. destruct (Z.eqb_spec d (ch " ")) as [|H1]; [done|].
  destruct (Z.eqb_spec d (ch ",")) as [|H2]; [done|]. destruct (Z.eqb_spec d 9) as [|H3]; [done|].
  cbn. intros [= <- <-]. unfold blank. by destruct (Z.eqb_spec d (ch " ")), (Z.eqb_spec d 9).
Qed.

Lemma until_comma_spec l :
  ch "," ∉ take (until_comma l) l /\ until_comma l <= length l /\
  (drop (until_comma l) l = [] \/ exists r, drop (until_comma l) l = ch "," :: r).
Proof.
  induction l as [|c l (IH1 & IH2 & IH3)]; cbn [until_comma]; [split_and!; [set_solver|done|by left]|].
  destruct (Z.eqb_spec c (ch ",")) as [->|Hc]; cbn.
  - split_and!; [set_solver|lia|right; by eexists].
  - split_and!; [set_solver|lia|done].
Qed.

Lemma trim_r_snoc l c : trim_r (l ++ [c]) = if blank c then trim_r l else l ++ [c].
Proof.
  induction l as [|d l IH]; cbn; [by destruct (blank c)|]. rewrite IH. destruct (blank c); [done|]. by destruct l.
Qed.

Lemma trim_blanks_spec l n : n <= length l -> take (trim_blanks l n) l = trim_r (take n l).
Proof.
  induction n as [|n IH]; intros Hn; cbn [trim_blanks]; [done|].
  destruct (l !! n) as [c|] eqn:E; [|apply lookup_ge_None in E; lia].
  pose proof (take_S_r _ _ _ E) as Ht. rewrite Ht, trim_r_snoc, <- Ht. unfold blank. case_match; [apply IH; lia|done].
Qed.

Lemma trim_blanks_le l n : trim_blanks l n <= n.
Proof. induction n as [|n IH]; cbn [trim_blanks]; [done|]. repeat case_match; lia. Qed.

Lemma trim_r_head c l : blank c = false -> exists t, trim_r (c :: l) = c :: t.
Proof. intros Hb. cbn. destruct (trim_r l); [rewrite Hb|]; by eexists. Qed.

(** A token is the first of the list, and what is left holds the others. *)
Lemma next_token_spec l :
  match next_token l with
  | Some (t, r) => tokens l = t :: tokens r /\ t <> [] /\ length r < length l
  | None => tokens l = []
  end.
Proof.
  unfold next_token. rewrite <- (tokens_skip_seps l). pose proof (skip_seps_length l) as Hl.
  pose proof (skip_seps_head l) as Hh. destruct (skip_seps l) as [|c r]; cbn [length Nat.eqb]; [done|].
  destruct (Hh c r eq_refl) as [Hb Hc]. pose proof (until_comma_spec (c :: r)) as (U1 & U2 & U3).
  set (n := until_comma (c :: r)) in *. assert (Hn : 0 < n).
  { unfold n. cbn. destruct (Z.eqb_spec c (ch ",")); [done|]. cbn. lia. }
  rewrite trim_blanks_spec by done. destruct n as [|n]; [lia|]. cbn [take drop] in *.
  destruct (trim_r_head c (take n r) Hb) as [t Ht].
  assert (Htok : tokens (c :: r) = trim_r (c :: take n r) :: tokens (drop n r)).
  { rewrite <- (take_drop n r) at 1. unfold tokens at 1.
    assert (Hsp : List.filter nonempty (map (fun s => trim_r (trim_l s)) [c :: take n r]) = [trim_r (c :: take n r)]).
    { cbn [map List.filter trim_l]. rewrite Hb, Ht. done. }
    destruct U3 as [->|[r' ->]].
    - rewrite app_nil_r, split_at_none by done. by rewrite tokens_nil.
    - rewrite tokens_comma. change (c :: take n r ++ ch "," :: r') with ((c :: take n r) ++ ch "," :: r').
      rewrite split_at_app by done. cbn [map]. rewrite <- (app_nil_l (map _ _)).
      change (trim_r (trim_l (c :: take n r)) :: [] ++ ?x) with (map (fun s => trim_r (trim_l s)) [c :: take n r] ++ x).
      by rewrite List.filter_app, Hsp. }
  rewrite Htok. split_and!; [done|by rewrite Ht|]. rewrite length_drop. cbn [length] in *. lia.
Qed.

Lemma token_present_spec v tok : token_present_ci v tok = existsb (fun t => eq_ci t tok) (tokens v).
Proof.
  unfold token_present_ci. assert (H : forall fuel l, length l < fuel -> token_loop fuel l tok = existsb (fun t => eq_ci t tok) (tokens l)).
  { induction fuel as [|fuel IH]; intros l Hl; [lia|]. cbn [token_loop]. pose proof (next_token_spec l) as Hn.
    destruct (next_token l) as [[t r]|].
    - destruct Hn as (-> & _ & Hr). cbn [existsb]. rewrite IH by lia. by destruct (eq_ci t tok).
    - by rewrite Hn. }
  apply H. lia.
Qed.

(** What the loop over one Transfer-Encoding line computes. *)
Definition is_chunked (t : bytes) : bool := eq_ci t (lit "chunked").
Definition te_fold (ts : list bytes) (last other : bool) : bool * bool :=
  match ts with
  | [] => (last, other)
  | _ => if is_chunked (List.last ts []) then (true, other || (1 <? length ts)) else (last, true)
  end.

Lemma te_fold_cons t t' ts last other : te_fold (t :: t' :: ts) last other = te_fold (t' :: ts) last true.
Proof. cbn. destruct (is_chunked _); [|done]. f_equal. by destruct other. Qed.

Lemma te_loop_spec fuel l any last other :
  length l < fuel ->
  te_loop fuel l any last other =
    (any || (0 <? length (tokens l)), (te_fold (tokens l) last other).1, (te_fold (tokens l) last other).2).
Proof.
  revert l any last other. induction fuel as [|fuel IH]; intros l any last other Hl; [lia|]. cbn [te_loop].
  pose proof (next_token_spec l) as Hn. destruct (next_token l) as [[t r]|].
  2:{ rewrite Hn. cbn. by rewrite orb_false_r. }
  destruct Hn as (Ht & _ & Hr). pose proof (next_token_spec r) as Hn'. rewrite Ht.
  assert (Hany : forall k, any || (0 <? S k) = true) by (intros; by rewrite orb_true_r).
  destruct (next_token r) as [[t' r']|]; cbn [andb].
  - rewrite IH by lia. destruct Hn' as (-> & _). rewrite te_fold_cons. cbn [length]. by rewrite Hany.
  - unfold is_chunked in *. rewrite Hn'. destruct (eq_ci t (lit "chunked")) eqn:E; rewrite IH by lia; rewrite Hn'; cbn;
      unfold is_chunked; rewrite E, orb_true_r; cbn; by rewrite ?orb_false_r.
Qed.

(** ** Case folding *)

Lemma lower_byte_ascii c : is_byte c -> lower_byte c = lower_ascii c.
Proof.
  unfold lower_byte, lower_ascii, is_byte, wrap32. change (ch "A") with 65%Z. change (ch "a") with 97%Z. intros Hc.
  destruct (Z.ltb_spec ((c - 65) mod 2 ^ 32) 26) as [H|H]; [|done].
  assert (65 <= c < 91)%Z as Hr.
  { destruct (Z_lt_ge_dec c 65); [rewrite <- (Z.mod_add _ 1), Z.mod_small in H by lia; lia|].
    rewrite Z.mod_small in H by lia. lia. }
  assert (forallb (fun k => Z.of_nat k + (97 - 65) =? Z.lor (Z.of_nat k) 32)%Z (seq 65 26) = true) as Hall by reflexivity.
  rewrite forallb_forall in Hall. specialize (Hall (Z.to_nat c)). rewrite in_seq, Z2Nat.id, Z.eqb_eq in Hall by lia.
  apply Hall. lia.
Qed.

Lemma pack_testbit b p i : is_byte b -> (0 <= i)%Z ->
  Z.testbit (b + 256 * p) i = if (i <? 8)%Z then Z.testbit b i else Z.testbit p (i - 8).
Proof.
  unfold is_byte. intros Hb Hi. destruct (Z.ltb_spec i 8).
  - rewrite <- (Z.mod_pow2_bits_low (b + 256 * p) 8) by lia. change (2 ^ 8)%Z with 256%Z.
    rewrite (Z.mul_comm 256), Z.mod_add by lia. by rewrite Z.mod_small by lia.
  - replace i with (i - 8 + 8)%Z at 1 by lia. rewrite <- Z.div_pow2_bits by lia. change (2 ^ 8)%Z with 256%Z.
    rewrite (Z.mul_comm 256), Z.div_add by lia. by rewrite Z.div_small by lia.
Qed.

Lemma land_byte a b : is_byte a -> is_byte b -> is_byte (Z.land a b).
Proof. unfold is_byte. intros. pose proof (land_lt_pow2 a b 8 ltac:(lia) ltac:(lia) ltac:(lia)). lia. Qed.

Lemma lor_byte a b : is_byte a -> is_byte b -> is_byte (Z.lor a b).
Proof.
  unfold is_byte. intros Ha Hb. assert (0 <= Z.lor a b)%Z by (apply Z.lor_nonneg; lia). split; [done|].
  destruct (Z.eq_dec (Z.lor a b) 0) as [->|]; [lia|]. change 256%Z with (2 ^ 8)%Z. apply Z.log2_lt_pow2; [lia|].
  rewrite Z.log2_lor by lia. apply Z.max_lub_lt; (destruct (Z.eq_dec a 0) as [->|]; [|assert (Z.log2 a < 8)%Z by (apply Z.log2_lt_pow2; lia)]);
    (destruct (Z.eq_dec b 0) as [->|]; [|assert (Z.log2 b < 8)%Z by (apply Z.log2_lt_pow2; lia)]); cbn; lia.
Qed.

(** A bitwise operation on words is the operation on their bytes. *)
Lemma pack_land a b : all_bytes a -> all_bytes b -> length a = length b -> Z.land (pack a) (pack b) = pack (zip_with Z.land a b).
Proof.
  intros Ha. revert b. induction Ha as [|x a Hx Ha IH]; intros [|y b] Hb Hl; try done. inversion Hb as [|? ? Hy Hb']; subst.
  cbn [pack zip_with]. rewrite <- IH by (done || (cbn in Hl; lia)). apply Z.bits_inj'. intros i Hi.
  rewrite Z.land_spec, !pack_testbit by (done || by apply land_byte). case_match; by rewrite Z.land_spec.
Qed.

Lemma pack_lor a b : all_bytes a -> all_bytes b -> length a = length b -> Z.lor (pack a) (pack b) = pack (zip_with Z.lor a b).
Proof.
  intros Ha. revert b. induction Ha as [|x a Hx Ha IH]; intros [|y b] Hb Hl; try done. inversion Hb as [|? ? Hy Hb']; subst.
  cbn [pack zip_with]. rewrite <- IH by (done || (cbn in Hl; lia)). apply Z.bits_inj'. intros i Hi.
  rewrite Z.lor_spec, !pack_testbit by (done || by apply lor_byte). case_match; by rewrite Z.lor_spec.
Qed.

Lemma pack_bound l : all_bytes l -> (0 <= pack l < 2 ^ (8 * Z.of_nat (length l)))%Z.
Proof.
  induction 1 as [|b l Hb _ IH]; cbn [pack length]; [cbn; lia|]. unfold is_byte in Hb.
  replace (8 * Z.of_nat (S (length l)))%Z with (8 + 8 * Z.of_nat (length l))%Z by lia. rewrite Z.pow_add_r by lia.
  change (2 ^ 8)%Z with 256%Z. lia.
Qed.

Lemma unpack_pack l : all_bytes l -> unpack (length l) (pack l) = l.
Proof.
  induction 1 as [|b l Hb _ IH]; [done|]. cbn [pack length unpack]. unfold is_byte in Hb.
  rewrite (Z.mul_comm 256), Z.mod_add, Z.div_add, Z.mod_small, Z.div_small by lia. by rewrite Z.add_0_l, IH.
Qed.

(** What the word operation does to one byte below 0x80. *)
Definition fold_byte (b : Z) : Z := Z.lor b (Z.shiftr (Z.land (Z.land (b + 63) (255 - (b + 37))) 128) 2).

Lemma fold_byte_lower b : (0 <= b < 128)%Z -> fold_byte b = lower_ascii b.
Proof.
  intros Hb. assert (forallb (fun k => fold_byte (Z.of_nat k) =? lower_ascii (Z.of_nat k))%Z (seq 0 128) = true) as H by (vm_compute; reflexivity).
  rewrite forallb_forall in H. specialize (H (Z.to_nat b)). rewrite in_seq, Z2Nat.id, Z.eqb_eq in H by lia. apply H. lia.
Qed.

Definition ascii (l : bytes) : Prop := Forall (fun b => 0 <= b < 128)%Z l.

Lemma ascii_bytes l : ascii l -> all_bytes l.
Proof. intros H. eapply Forall_impl; [exact H|]. unfold is_byte. cbn. lia. Qed.

Lemma ascii_map f l : ascii l -> (forall b, (0 <= b < 128)%Z -> is_byte (f b)) -> all_bytes (map f l).
Proof. intros Ha Hf. apply Forall_map. eapply Forall_impl; [exact Ha|]. intros b Hb. by apply Hf. Qed.

Lemma pack_shift_add l k : pack (map (fun b => b + k)%Z l) = (pack l + pack (map (fun _ => k) l))%Z.
Proof. induction l as [|b l IH]; cbn [map pack]; lia. Qed.

Lemma pack_complement l : pack (map (fun b => 255 - b)%Z l) = (2 ^ (8 * Z.of_nat (length l)) - 1 - pack l)%Z.
Proof.
  induction l as [|b l IH]; cbn [map pack length]; [done|]. rewrite IH.
  replace (8 * Z.of_nat (S (length l)))%Z with (8 + 8 * Z.of_nat (length l))%Z by lia. rewrite Z.pow_add_r by lia.
  change (2 ^ 8)%Z with 256%Z. lia.
Qed.

Lemma pack_shiftr2 l : Forall (fun b => b = 0 \/ b = 128)%Z l -> Z.shiftr (pack l) 2 = pack (map (fun b => Z.shiftr b 2) l).
Proof.
  intros H. rewrite Z.shiftr_div_pow2 by lia. change (2 ^ 2)%Z with 4%Z.
  assert (pack l = 4 * pack (map (fun b => Z.shiftr b 2) l))%Z as ->.
  { induction H as [|b l Hb _ IH]; [done|]. destruct Hb as [-> | ->]; cbn [map pack]; change (Z.shiftr 0 2) with 0%Z; change (Z.shiftr 128 2) with 32%Z; lia. }
  by rewrite Z.mul_comm, Z.div_mul by lia.
Qed.

Lemma land_128 b : is_byte b -> (Z.land b 128 = 0 \/ Z.land b 128 = 128)%Z.
Proof.
  unfold is_byte. intros Hb.
  assert (forallb (fun k => (Z.land (Z.of_nat k) 128 =? 0) || (Z.land (Z.of_nat k) 128 =? 128))%Z (seq 0 256) = true) as H by (vm_compute; reflexivity).
  rewrite forallb_forall in H. specialize (H (Z.to_nat b)). rewrite in_seq, Z2Nat.id, orb_true_iff, !Z.eqb_eq in H by lia. apply H. lia.
Qed.

Lemma fold_mask b : (0 <= b < 128)%Z ->
  (Z.land (Z.land (b + 63) (255 - (b + 37))) 128 = 0 \/ Z.land (Z.land (b + 63) (255 - (b + 37))) 128 = 128)%Z.
Proof. intros Hb. apply land_128, land_byte; unfold is_byte; lia. Qed.

Lemma zip_map {A B C} (f : A -> B -> C) (g : A -> B) l : zip_with f l (map g l) = map (fun a => f a (g a)) l.
Proof. induction l as [|a l IH]; cbn; [done|]. by rewrite IH. Qed.

Lemma lower_word_spec l : ascii l -> length l = 8 -> lower_word (pack l) = pack (map lower_ascii l).
Proof.
  intros Ha Hl. pose proof (ascii_bytes _ Ha) as Hb. unfold lower_word.
  assert (Hk : forall k, pack (map (fun _ => k) l) = (k * 0x0101010101010101)%Z).
  { intros k. do 9 (destruct l as [|? l]; try done). cbn. lia. }
  assert (Hsh : forall k, (0 <= k < 128)%Z -> wrap64 (pack l + k * 0x0101010101010101) = pack (map (fun b => b + k)%Z l) /\ all_bytes (map (fun b => b + k)%Z l)).
  { intros k Hkb. assert (Hby : all_bytes (map (fun b => b + k)%Z l)).
    { apply Forall_map. eapply Forall_impl; [exact Ha|]. unfold is_byte. cbn. lia. }
    split; [|done]. rewrite <- Hk, <- pack_shift_add. apply Z.mod_small. pose proof (pack_bound _ Hby) as Hpb.
    rewrite length_map, Hl in Hpb. exact Hpb. }
  change 0x3f3f3f3f3f3f3f3f%Z with (63 * 0x0101010101010101)%Z. change 0x2525252525252525%Z with (37 * 0x0101010101010101)%Z.
  change 0x8080808080808080%Z with (128 * 0x0101010101010101)%Z.
  destruct (Hsh 63%Z ltac:(lia)) as [-> H63]. destruct (Hsh 37%Z ltac:(lia)) as [-> H37].
  assert (Hc : (UINT64_MAX - pack (map (fun b => b + 37) l))%Z = pack (map (fun b => 255 - b)%Z (map (fun b => b + 37)%Z l))).
  { rewrite pack_complement, length_map, Hl. reflexivity. }
  rewrite Hc, <- Hk, map_map.
  assert (H37' : all_bytes (map (fun b => 255 - (b + 37))%Z l)).
  { apply ascii_map; [done|]. unfold is_byte. lia. }
  rewrite pack_land by (done || by rewrite !length_map).
  assert (Hz : zip_with Z.land (map (fun b => b + 63)%Z l) (map (fun b => 255 - (b + 37))%Z l) = map (fun b => Z.land (b + 63) (255 - (b + 37))) l).
  { clear. induction l as [|b l IH]; cbn [map zip_with]; [done|]. by rewrite IH. }
  rewrite Hz. assert (Hz' : all_bytes (map (fun b => Z.land (b + 63) (255 - (b + 37))) l)).
  { apply ascii_map; [done|]. intros b ?. apply land_byte; unfold is_byte; lia. }
  assert (Hconst : all_bytes (map (fun _ => 128%Z) l)) by (apply ascii_map; [done|unfold is_byte; lia]).
  rewrite pack_land by (done || by rewrite !length_map).
  assert (Hz2 : zip_with Z.land (map (fun b => Z.land (b + 63) (255 - (b + 37))) l) (map (fun _ => 128%Z) l)
               = map (fun b => Z.land (Z.land (b + 63) (255 - (b + 37))) 128) l).
  { clear. induction l as [|b l IH]; cbn [map zip_with]; [done|]. by rewrite IH. }
  rewrite Hz2, pack_shiftr2, map_map.
  2:{ apply Forall_map. eapply Forall_impl; [exact Ha|]. intros b Hb'. by apply fold_mask. }
  rewrite pack_lor; [|done| |by rewrite length_map].
  2:{ apply ascii_map; [done|]. intros b Hb'. destruct (fold_mask b Hb') as [-> | ->]; [change (Z.shiftr 0 2) with 0%Z|change (Z.shiftr 128 2) with 32%Z]; unfold is_byte; lia. }
  rewrite zip_map. f_equal. apply map_ext_Forall. eapply Forall_impl; [exact Ha|]. intros b Hb'. by apply fold_byte_lower.
Qed.

(** Eight bytes a step is the byte loop. *)
Lemma lower_inplace_spec l : ascii l -> lower_inplace l = map lower_ascii l.
Proof.
  remember (length l) as n eqn:Hn. revert l Hn. induction (lt_wf n) as [n _ IH]. intros l -> Ha.
  assert (Hsmall : map lower_byte l = map lower_ascii l).
  { apply map_ext_Forall. eapply Forall_impl; [exact (ascii_bytes _ Ha)|]. apply lower_byte_ascii. }
  destruct l as [|b0 [|b1 [|b2 [|b3 [|b4 [|b5 [|b6 [|b7 l]]]]]]]]; try exact Hsmall.
  change (b0 :: b1 :: b2 :: b3 :: b4 :: b5 :: b6 :: b7 :: l) with ([b0; b1; b2; b3; b4; b5; b6; b7] ++ l) in Ha.
  apply Forall_app in Ha as [H8 Hr]. cbn [lower_inplace]. rewrite lower_word_spec by done.
  change 8 with (length (map lower_ascii [b0; b1; b2; b3; b4; b5; b6; b7])). rewrite unpack_pack.
  - rewrite (IH (length l)); [done|cbn; lia|done|done].
  - apply ascii_map; [done|]. intros b Hb. rewrite <- fold_byte_lower by done.
    unfold fold_byte. apply lor_byte; [unfold is_byte; lia|].
    destruct (fold_mask b Hb) as [-> | ->]; [change (Z.shiftr 0 2) with 0%Z|change (Z.shiftr 128 2) with 32%Z]; unfold is_byte; lia.
Qed.

Lemma eq_ci_true a b : eq_ci a b = true <-> map lower_ascii a = map lower_ascii b.
Proof.
  unfold eq_ci. destruct (Nat.eqb_spec (length a) (length b)) as [Hl|Hl]; cbn [negb].
  - revert b Hl. induction a as [|x a IH]; intros [|y b] Hl; cbn in *; try done; try lia.
    destruct (Z.eqb_spec (lower_ascii x) (lower_ascii y)) as [->|Hx]; cbn [negb].
    + rewrite IH by lia. split; [by intros ->|by intros [= ->]].
    + split; [done|]. by intros [= ? ?].
  - split; [done|]. intros H%(f_equal length). rewrite !length_map in H. lia.
Qed.

Lemma parse_length_u64 s : parse_length s = digits_to_u64 s SIZE_MAX.
Proof.
  unfold parse_length, digits_to_u64. destruct (length s =? 0); [done|]. generalize 0%Z.
  induction s as [|c s IH]; intros v; cbn [parse_length_loop digits_loop]; [done|]. case_match; [done|]. apply IH.
Qed.

(** A Content-Length is taken exactly when it is a decimal numeral that a [size_t] holds. *)
Lemma parse_length_iff s n :
  all_bytes s -> parse_length s = Some n <-> decimal s n /\ (n <= SIZE_MAX)%Z.
Proof. intros. rewrite parse_length_u64. apply digits_to_u64_iff; [done|]. unfold SIZE_MAX, UINT64_MAX. lia. Qed.

(** ** What the pass picks

    The values of the lines with a given name, in order. *)
Definition named (n : bytes) (h : header) : list bytes :=
  match h with (Some name, v) => if decide (map lower_ascii name = n) then [v] else [] | _ => [] end.
Definition values_of (n : bytes) (hs : list header) : list bytes := concat (map (named n) hs).

Lemma values_of_snoc n hs h : values_of n (hs ++ [h]) = values_of n hs ++ named n h.
Proof. unfold values_of. rewrite map_app, concat_app. cbn. by rewrite app_nil_r. Qed.

Definition is_100 (v : bytes) : bool := eq_ci v (lit "100-continue").
Definition has_token (t v : bytes) : bool := existsb (fun x => eq_ci x t) (tokens v).

Definition te_step (s : bool * bool) (v : bytes) : bool * bool := te_fold (tokens v) false (s.1 || s.2).

(** Lines that no reading can make sense of: a folded one, an unknown expectation, two lengths that
disagree, a transfer coding list with nothing in it. *)
Record legible (hs : list header) : Prop := {
  lg_folded : Forall (fun h => h.1 <> None) hs;
  lg_expect : Forall (fun v => is_100 v = true) (values_of (lit "expect") hs);
  lg_length : forall v v', v ∈ values_of (lit "content-length") hs -> v' ∈ values_of (lit "content-length") hs -> v = v';
  lg_te : Forall (fun v => tokens v <> []) (values_of (lit "transfer-encoding") hs)
}.

Record picked_ok (hs : list header) (p : picked_headers) : Prop := {
  pk_host : n_host p = length (values_of (lit "host") hs);
  pk_lengths : n_content_length p = length (values_of (lit "content-length") hs);
  pk_length : content_length p = List.last (values_of (lit "content-length") hs) [];
  pk_tes : n_transfer_enc p = length (values_of (lit "transfer-encoding") hs);
  pk_te : (te_last_chunked p, te_other p) = fold_left te_step (values_of (lit "transfer-encoding") hs) (false, false);
  pk_close : close p = existsb (has_token (lit "close")) (values_of (lit "connection") hs);
  pk_keep : keep_alive p = existsb (has_token (lit "keep-alive")) (values_of (lit "connection") hs);
  pk_expect : expect_continue p = existsb is_100 (values_of (lit "expect") hs);
  pk_refuse : refuse p = 0%Z <-> legible hs;
  pk_code : refuse p ∈ [0; 400; 417]%Z
}.

(** The pass is a fold over the lines. *)
Definition pick_line (p : picked_headers) (h : header) : picked_headers :=
  match h with (None, _) => set_refuse p 400 | (Some name, v) => pick_header p (lower_inplace name) v end.

Definition lowered (h : header) : header := (option_map lower_inplace h.1, h.2).

Lemma pick_loop_fold hs p : pick_loop hs p = (map lowered hs, fold_left pick_line hs p).
Proof.
  revert p. induction hs as [|[[n|] v] hs IH]; intros p; cbn [pick_loop fold_left map pick_line]; [done| |];
    rewrite IH; done.
Qed.

Definition ascii_names (hs : list header) : Prop := Forall (fun h => from_option ascii True h.1) hs.

(** The header a line's name selects. *)
Inductive selected (name : bytes) : option bytes -> Prop :=
| sel_host : name = lit "host" -> selected name (Some (lit "host"))
| sel_expect : name = lit "expect" -> selected name (Some (lit "expect"))
| sel_connection : name = lit "connection" -> selected name (Some (lit "connection"))
| sel_length : name = lit "content-length" -> selected name (Some (lit "content-length"))
| sel_te : name = lit "transfer-encoding" -> selected name (Some (lit "transfer-encoding"))
| sel_other : name ∉ [lit "host"; lit "expect"; lit "connection"; lit "content-length"; lit "transfer-encoding"] -> selected name None.

Lemma select name : exists o, selected name o.
Proof.
  destruct (decide (name ∈ [lit "host"; lit "expect"; lit "connection"; lit "content-length"; lit "transfer-encoding"])) as [H|H].
  - repeat (apply elem_of_cons in H as [->|H]); [eexists; by constructor..|set_solver].
  - eexists. by apply sel_other.
Qed.

Lemma pick_other p name v :
  name ∉ [lit "host"; lit "expect"; lit "connection"; lit "content-length"; lit "transfer-encoding"] -> pick_header p name v = p.
Proof.
  intros H. unfold pick_header.
  repeat match goal with |- context [beq name ?l] => let E := fresh "E" in destruct (beq name l) eqn:E; [apply beq_true in E; subst name; set_solver|] end.
  by repeat case_match.
Qed.

Lemma legible_snoc_other hs name v :
  map lower_ascii name ∉ [lit "expect"; lit "content-length"; lit "transfer-encoding"] ->
  legible (hs ++ [(Some name, v)]) <-> legible hs.
Proof.
  intros H. assert (Hn : forall n, n ∈ [lit "expect"; lit "content-length"; lit "transfer-encoding"] -> values_of n (hs ++ [(Some name, v)]) = values_of n hs).
  { intros n Hn. rewrite values_of_snoc. cbn. destruct (decide _) as [<-|]; [done|apply app_nil_r]. }
  split; intros [F E L T]; split; rewrite ?Hn in * by set_solver; try done.
  - by apply Forall_app in F as [? _].
  - apply Forall_app. split; [done|]. by repeat constructor.
Qed.

Lemma named_self n name v : map lower_ascii name = n -> named n (Some name, v) = [v].
Proof. intros. cbn. by rewrite decide_True. Qed.
Lemma named_ne n name v : map lower_ascii name <> n -> named n (Some name, v) = [].
Proof. intros. cbn. by rewrite decide_False. Qed.

Lemma values_of_line n hs name v m :
  map lower_ascii name = m -> values_of n (hs ++ [(Some name, v)]) = values_of n hs ++ (if decide (m = n) then [v] else []).
Proof. intros <-. by rewrite values_of_snoc. Qed.

(** Decides between the literal names of the model. *)
Ltac lit_decide :=
  repeat match goal with
  | |- context [decide (lit ?a = lit ?b)] =>
      (rewrite (decide_True (P := lit a = lit b)) by reflexivity) ||
      (rewrite (decide_False (P := lit a = lit b)) by (vm_compute; discriminate))
  end; rewrite ?app_nil_r.

Lemma legible_expect hs name v : map lower_ascii name = lit "expect" ->
  legible (hs ++ [(Some name, v)]) <-> legible hs /\ is_100 v = true.
Proof.
  intros Hm. split.
  - intros [F E L T]. rewrite !(values_of_line _ _ _ _ _ Hm) in *. revert E L T. lit_decide. intros.
    apply Forall_app in F as [F _], E as [E [? _]%Forall_cons]. by split; [split|].
  - intros [[F E L T] Hv]. split; rewrite ?(values_of_line _ _ _ _ _ Hm); lit_decide; try done.
    + apply Forall_app. split; [done|by repeat constructor].
    + apply Forall_app. split; [done|by repeat constructor].
Qed.

Lemma legible_te hs name v : map lower_ascii name = lit "transfer-encoding" ->
  legible (hs ++ [(Some name, v)]) <-> legible hs /\ tokens v <> [].
Proof.
  intros Hm. split.
  - intros [F E L T]. rewrite !(values_of_line _ _ _ _ _ Hm) in *. revert E L T. lit_decide. intros.
    apply Forall_app in F as [F _], T as [T [? _]%Forall_cons]. by split; [split|].
  - intros [[F E L T] Hv]. split; rewrite ?(values_of_line _ _ _ _ _ Hm); lit_decide; try done.
    + apply Forall_app. split; [done|by repeat constructor].
    + apply Forall_app. split; [done|by repeat constructor].
Qed.

Lemma legible_length hs name v : map lower_ascii name = lit "content-length" ->
  legible (hs ++ [(Some name, v)]) <-> legible hs /\ (forall v', v' ∈ values_of (lit "content-length") hs -> v' = v).
Proof.
  intros Hm. split.
  - intros [F E L T]. rewrite !(values_of_line _ _ _ _ _ Hm) in *. revert E L T. lit_decide. intros E L T.
    apply Forall_app in F as [F _]. split; [split; try done|]; intros; apply L; set_solver.
  - intros [[F E L T] Hv]. split; rewrite ?(values_of_line _ _ _ _ _ Hm); lit_decide; try done.
    + apply Forall_app. split; [done|by repeat constructor].
    + intros x y [Hx|Hx%list_elem_of_singleton]%elem_of_app [Hy|Hy%list_elem_of_singleton]%elem_of_app; subst; auto. symmetry. auto.
Qed.

Lemma last_elem (l : list bytes) d : l <> [] -> List.last l d ∈ l.
Proof.
  induction l as [|x [|y l] IH]; intros H; [done|cbn; set_solver|].
  change (List.last (x :: y :: l) d) with (List.last (y :: l) d). apply elem_of_cons. right. by apply IH.
Qed.

Lemma last_snoc (l : list bytes) x d : List.last (l ++ [x]) d = x.
Proof. apply List.last_last. Qed.

Lemma picked_length hs p name v :
  picked_ok hs p -> map lower_ascii name = lit "content-length" ->
  let p' := pick_header p (lit "content-length") v in
  (refuse p' = 0%Z <-> legible (hs ++ [(Some name, v)])) /\ refuse p' ∈ [0; 400; 417]%Z.
Proof.
  intros [_ Hls Hl _ _ _ _ _ Hr Hc] Hm. cbn zeta. rewrite legible_length by done. unfold pick_header.
  change (length (lit "content-length")) with 14. cbn [Nat.eqb]. rewrite beq_refl.
  destruct (Nat.ltb_spec 0 (n_content_length p)) as [H0|H0]; cbn [andb].
  - assert (Hne : values_of (lit "content-length") hs <> []) by (intros E; rewrite E in Hls; cbn in Hls; lia).
    pose proof (last_elem _ [] Hne) as Hin. rewrite <- Hl in Hin.
    destruct (beq v (content_length p)) eqn:Eb.
    + apply beq_true in Eb as ->. rewrite Nat.eqb_refl. cbn. split; [|done]. rewrite Hr.
      split; [|tauto]. intros Hlg. split; [done|]. intros v' Hv'. by apply (lg_length _ Hlg).
    + rewrite andb_false_r. cbn. split; [|set_solver]. split; [done|]. intros [_ Hv]. apply beq_false in Eb. destruct Eb. symmetry. auto.
  - cbn. split; [|done]. rewrite Hr. split; [|tauto]. intros Hlg. split; [done|].
    destruct (values_of _ hs) eqn:E; [set_solver|]. cbn in Hls. lia.
Qed.

Lemma picked_ok_snoc hs p h : from_option ascii True h.1 -> picked_ok hs p -> picked_ok (hs ++ [h]) (pick_line p h).
Proof.
  destruct h as [[name|] v]; cbn [fst from_option pick_line]; intros Ha Hp.
  2:{ destruct Hp as [? ? ? ? ? ? ? ? Hr Hc]. assert (Hv : forall n, values_of n (hs ++ [(None, v)]) = values_of n hs).
      { intros. rewrite values_of_snoc. cbn. apply app_nil_r. }
      split; rewrite ?Hv; cbn; try done; [|set_solver]. split; [done|].
      intros [F _ _ _]. apply Forall_app in F as [_ [F _]%Forall_cons]. done. }
  rewrite lower_inplace_spec by done. destruct (select (map lower_ascii name)) as [o Hs]. inversion Hs as [Hm|Hm|Hm|Hm|Hm|Hm]; subst o; clear Hs.
  - destruct Hp. rewrite Hm. unfold pick_header. change (length (lit "host")) with 4. cbn [Nat.eqb]. rewrite beq_refl.
    split; rewrite ?(values_of_line _ _ _ _ _ Hm); lit_decide; cbn; try done.
    + rewrite length_app. cbn. lia.
    + rewrite legible_snoc_other; [done|]. rewrite Hm. vm_compute. set_solver.
  - destruct Hp. rewrite Hm. unfold pick_header. change (length (lit "expect")) with 6. cbn [Nat.eqb]. rewrite beq_refl. fold (is_100 v).
    destruct (is_100 v) eqn:E; split; rewrite ?(values_of_line _ _ _ _ _ Hm); lit_decide; cbn; try done;
      rewrite ?existsb_app, ?legible_expect by done; cbn; rewrite ?E, ?orb_true_r, ?orb_false_r; try done; [tauto|by split; [|intros []]|set_solver].
  - destruct Hp. rewrite Hm. unfold pick_header. change (length (lit "connection")) with 10. cbn [Nat.eqb]. rewrite beq_refl.
    rewrite !token_present_spec. fold (has_token (lit "close") v) (has_token (lit "keep-alive") v).
    assert (Hl : legible (hs ++ [(Some name, v)]) <-> legible hs) by (rewrite legible_snoc_other; [done|rewrite Hm; vm_compute; set_solver]).
    destruct (has_token (lit "close") v) eqn:E1, (has_token (lit "keep-alive") v) eqn:E2;
      split; rewrite ?(values_of_line _ _ _ _ _ Hm); lit_decide; cbn; try done;
      rewrite ?existsb_app, ?Hl; cbn; rewrite ?E1, ?E2, ?orb_true_r, ?orb_false_r; done.
  - pose proof (picked_length _ _ name v Hp Hm) as [Hr Hc]. destruct Hp. rewrite Hm.
    set (p' := pick_header p (lit "content-length") v) in *.
    assert (Hp' : content_length p' = v /\ n_content_length p' = n_content_length p + 1 /\ n_transfer_enc p' = n_transfer_enc p /\
      n_host p' = n_host p /\ te_last_chunked p' = te_last_chunked p /\ te_other p' = te_other p /\ close p' = close p /\
      keep_alive p' = keep_alive p /\ expect_continue p' = expect_continue p).
    { unfold p', pick_header. change (length (lit "content-length")) with 14. cbn [Nat.eqb]. rewrite beq_refl. case_match; done. }
    clearbody p'. destruct Hp' as (Q1 & Q2 & Q3 & Q4 & Q5 & Q6 & Q7 & Q8 & Q9).
    split; rewrite ?Q1, ?Q2, ?Q3, ?Q4, ?Q5, ?Q6, ?Q7, ?Q8, ?Q9, ?(values_of_line _ _ _ _ _ Hm); lit_decide; try done; [rewrite length_app; cbn; lia|by rewrite last_snoc].
  - destruct Hp. rewrite Hm. unfold pick_header. change (length (lit "transfer-encoding")) with 17. cbn [Nat.eqb]. rewrite beq_refl.
    unfold pick_transfer_encoding. rewrite te_loop_spec by lia.
    assert (Hstep : te_fold (tokens v) false (if te_last_chunked p then true else te_other p) = te_step (te_last_chunked p, te_other p) v)
      by (unfold te_step; cbn; by destruct (te_last_chunked p)).
    rewrite Hstep. cbn [orb]. destruct (Nat.ltb_spec 0 (length (tokens v))) as [Hn|Hn]; cbn [negb];
      split; rewrite ?(values_of_line _ _ _ _ _ Hm); lit_decide; cbn; try done;
      rewrite ?fold_left_app, <- ?pk_te0, ?length_app, ?legible_te by done; cbn; try (by destruct (te_step _ _)); try lia.
    + rewrite pk_refuse0. split; [|tauto]. intros ?. split; [done|]. destruct (tokens v); [cbn in Hn; lia|done].
    + split; [done|]. intros [_ Hv]. by destruct (tokens v); [|cbn in Hn; lia].
    + set_solver.
  - rewrite pick_other by done.
    assert (Hv : forall n, n ∈ [lit "host"; lit "expect"; lit "connection"; lit "content-length"; lit "transfer-encoding"] ->
      values_of n (hs ++ [(Some name, v)]) = values_of n hs).
    { intros n Hn. rewrite values_of_snoc, named_ne, app_nil_r; [done|]. set_solver. }
    destruct Hp. split; rewrite ?Hv by set_solver; try done. rewrite legible_snoc_other; [done|]. set_solver.
Qed.

Lemma picked_ok_all hs : ascii_names hs -> picked_ok hs (fold_left pick_line hs picked_none).
Proof.
  induction hs as [|h hs IH] using rev_ind; intros Ha.
  - split; cbn; try done; [|set_solver]. split; [|done]. intros _. split; try done; set_solver.
  - apply Forall_app in Ha as [Ha [Hh _]%Forall_cons]. rewrite fold_left_app. cbn [fold_left]. by apply picked_ok_snoc; [|apply IH].
Qed.

(** ** The framing of a request *)

Record framed (minor : Z) (hs : list header) (c : bool) (n : Z) : Prop := {
  fr_legible : legible hs;
  fr_host : if (1 <=? minor)%Z then length (values_of (lit "host") hs) = 1 else length (values_of (lit "host") hs) <= 1;
  fr_body :
    (values_of (lit "transfer-encoding") hs = [] /\ values_of (lit "content-length") hs = [] /\ c = false /\ n = 0%Z) \/
    (values_of (lit "transfer-encoding") hs = [] /\ c = false /\
     exists v, v ∈ values_of (lit "content-length") hs /\ decimal v n /\ (n <= SIZE_MAX)%Z) \/
    (values_of (lit "content-length") hs = [] /\ c = true /\ n = 0%Z /\
     exists v t, values_of (lit "transfer-encoding") hs = [v] /\ tokens v = [t] /\ is_chunked t = true)
}.

Lemma te_fold_shape ts last other : ts <> [] -> te_fold ts last other <> (false, false).
Proof. intros Hts. unfold te_fold. destruct ts; [done|]. case_match; [done|]. by destruct last. Qed.

Lemma te_steps vs : Forall (fun v => tokens v <> []) vs ->
  (fold_left te_step vs (false, false) = (true, false) <-> exists v t, vs = [v] /\ tokens v = [t] /\ is_chunked t = true).
Proof.
  intros Hv. split.
  - destruct vs as [|v vs] using rev_ind; [done|]. clear IHvs. rewrite fold_left_app. cbn [fold_left]. unfold te_step at 1.
    apply Forall_app in Hv as [Hvs [Hv _]%Forall_cons]. intros Hf. unfold te_fold in Hf.
    destruct (tokens v) as [|t [|t' ts]] eqn:Et; [done| |].
    + cbn [List.last length] in Hf. destruct (is_chunked t) eqn:Ec; [|done]. cbn in Hf. injection Hf as Hf. rewrite orb_false_r in Hf.
      apply orb_false_iff in Hf as [F1 F2]. destruct vs as [|u vs] using rev_ind; [by exists v, t|]. clear IHvs.
      apply Forall_app in Hvs as [_ [Hu _]%Forall_cons]. rewrite fold_left_app in F1, F2. cbn [fold_left] in F1, F2.
      exfalso. unfold te_step at 1 in F1. unfold te_step at 1 in F2. eapply te_fold_shape; [exact Hu|].
      rewrite (surjective_pairing (te_fold _ _ _)). by rewrite F1, F2.
    + destruct (is_chunked _); [|done]. injection Hf as Hf. by rewrite orb_true_r in Hf.
  - intros (v & t & -> & Ht & Hc). cbn. unfold te_step, te_fold. rewrite Ht. cbn. by rewrite Hc.
Qed.

Lemma values_of_bytes n hs v : Forall (fun h => all_bytes h.2) hs -> v ∈ values_of n hs -> all_bytes v.
Proof.
  induction 1 as [|[[m|] w] hs Hw _ IH]; cbn; [set_solver| |done]. destruct (decide _); cbn; [|done].
  intros [->|]%elem_of_cons; auto.
Qed.

(** Every answer of the framing step, for a parsed query. *)
Lemma settle_framing_spec req truncated rc r :
  ascii_names (headers req) -> Forall (fun h => all_bytes h.2) (headers req) ->
  settle_framing req truncated = (rc, r) ->
  rc ∈ [0; 400; 414; 417; 501]%Z /\
  (rc = 0%Z -> truncated = false /\ framed (minor_version req) (headers req) (chunked r) (req_content_length r)) /\
  (forall c n, framed (minor_version req) (headers req) c n ->
     if truncated then rc = 414%Z \/ rc = 400%Z /\ length (params r) = IOXD_MAX_PARAMS
     else rc = 0%Z /\ chunked r = c /\ req_content_length r = n) /\
  headers r = map lowered (headers req) /\ path r = path req /\ query r = query req /\ params r = params req /\
  params_arena r = params_arena req /\
  req_keep_alive r = (negb (existsb (has_token (lit "close")) (values_of (lit "connection") (headers req))) &&
                     ((1 <=? minor_version req)%Z || existsb (has_token (lit "keep-alive")) (values_of (lit "connection") (headers req)))).
Proof.
  intros Ha Hb. unfold settle_framing, pick_headers. rewrite pick_loop_fold.
  pose proof (picked_ok_all _ Ha) as [P1 P2 P3 P4 P5 P6 P7 P8 P9 P10]. set (p := fold_left pick_line (headers req) picked_none) in *. clearbody p.
  assert (Hv : all_bytes (content_length p)).
  { rewrite P3. destruct (decide (values_of (lit "content-length") (headers req) = [])) as [->|]; [by constructor|].
    by eapply values_of_bytes, last_elem. }
  assert (Hka : keep_alive_from (minor_version req) p = (negb (existsb (has_token (lit "close")) (values_of (lit "connection") (headers req))) &&
                     ((1 <=? minor_version req)%Z || existsb (has_token (lit "keep-alive")) (values_of (lit "connection") (headers req))))).
  { unfold keep_alive_from. rewrite P6, P7. by destruct (existsb _ _). }
  rewrite <- Hka. cbn [minor_version set_framing params].
  destruct (Z.eqb_spec (refuse p) 0) as [Hr|Hr]; cbn [negb].
  2:{ intros [= <- <-]. split_and!; try done; [set_solver|]. intros c n Hfr. exfalso. apply Hr, P9, Hfr. }
  apply P9 in Hr as Hlg. destruct truncated.
  { intros [= <- <-]. split_and!; try done; [case_match; set_solver|by case_match|]. intros c n _. cbn.
    destruct (Nat.eqb_spec (length (params req)) IOXD_MAX_PARAMS) as [->|]; auto. }
  destruct (if (1 <=? minor_version req)%Z then negb (n_host p =? 1) else 1 <? n_host p) eqn:Eh.
  { intros [= <- <-]. split_and!; try done; [set_solver|]. intros c n [_ Hh _]. exfalso. rewrite <- P1 in Hh.
    destruct (1 <=? minor_version req)%Z; bool_to_prop; lia. }
  assert (Hh : if (1 <=? minor_version req)%Z then length (values_of (lit "host") (headers req)) = 1 else length (values_of (lit "host") (headers req)) <= 1).
  { rewrite <- P1. destruct (1 <=? minor_version req)%Z; bool_to_prop; lia. }
  destruct (Nat.ltb_spec 0 (n_transfer_enc p)) as [Ht|Ht].
  - destruct (Nat.ltb_spec 0 (n_content_length p)) as [Hc|Hc].
    { intros [= <- <-]. split_and!; try done; [set_solver|].
      intros c n [_ _ [(E & _)|[(E & _)|(E & _)]]]; rewrite E in *; cbn in *; lia. }
    assert (Hcl : values_of (lit "content-length") (headers req) = []) by (apply length_zero_iff_nil; lia).
    pose proof (te_steps _ (lg_te _ Hlg)) as Hts. rewrite <- P5 in Hts.
    assert (Hno : (te_last_chunked p, te_other p) <> (true, false) -> forall c n, ~ framed (minor_version req) (headers req) c n).
    { intros Hne c n [_ _ [(E & _)|[(E & _)|(_ & _ & _ & Hx)]]]; [rewrite E in *; cbn in *; lia..|]. by apply Hne, Hts. }
    destruct (te_other p) eqn:Eo.
    { intros [= <- <-]. split_and!; try done; [set_solver|]. intros c n Hfr. exfalso. eapply Hno; [|exact Hfr]. congruence. }
    destruct (te_last_chunked p) eqn:El; cbn [negb].
    2:{ intros [= <- <-]. split_and!; try done; [set_solver|]. intros c n Hfr. exfalso. eapply Hno; [|exact Hfr]. congruence. }
    intros [= <- <-]. split_and!; try done; [set_solver| |].
    + intros _. split; [done|]. split; [done|done|]. right. right. split_and!; try done. by apply Hts.
    + intros c n [_ _ [(E & _)|[(E & _)|(_ & -> & -> & _)]]]; [rewrite E in *; cbn in *; lia..|done].
  - assert (Hte : values_of (lit "transfer-encoding") (headers req) = []) by (apply length_zero_iff_nil; lia).
    destruct (Nat.ltb_spec 0 (n_content_length p)) as [Hc|Hc].
    + assert (Hne : values_of (lit "content-length") (headers req) <> []) by (intros E; rewrite E in *; cbn in *; lia).
      pose proof (last_elem _ [] Hne) as Hin. rewrite <- P3 in Hin.
      destruct (parse_length (content_length p)) as [k|] eqn:Ek.
      * apply parse_length_iff in Ek as [Hd Hk]; [|done]. intros [= <- <-]. split_and!; try done; [set_solver| |].
        -- intros _. split; [done|]. split; [done|done|]. right. left. split_and!; try done. by exists (content_length p).
        -- intros c n [_ _ [(_ & E & _)|[(_ & -> & v & Hv' & Hd' & _)|(E & _)]]]; [done| |done].
           rewrite (lg_length _ Hlg _ _ Hv' Hin) in Hd'. split_and!; try done. destruct Hd as (_ & _ & ->), Hd' as (_ & _ & ->). done.
      * intros [= <- <-]. split_and!; try done; [set_solver|].
        intros c n [_ _ [(_ & E & _)|[(_ & -> & v & Hv' & Hd' & Hn')|(E & _)]]]; [done| |done]. exfalso.
        rewrite (lg_length _ Hlg _ _ Hv' Hin) in Hd'. assert (parse_length (content_length p) = Some n) by (by apply parse_length_iff). congruence.
    + assert (Hcl : values_of (lit "content-length") (headers req) = []) by (apply length_zero_iff_nil; lia).
      intros [= <- <-]. split_and!; try done; [set_solver| |].
      * intros _. split; [done|]. split; [done|done|]. left. by split_and!.
      * intros c n [_ _ [(_ & _ & -> & ->)|[(_ & _ & v & Hv' & _)|(_ & _ & _ & v & t & E & _)]]]; [done|rewrite Hcl in Hv'; set_solver|congruence].
Qed.

(** *** The query *)

Lemma kv_parse_total text cap_ arena :
  exists out lost arena', ioxd_kv_parse text cap_ arena = Some (out, lost, arena') /\ length out <= cap_ /\
    (lost = false -> map (resolve_kv text arena') out = kv_reference text).
Proof.
  destruct (kv_loop_spec (length text + 1) text cap_ 0 0 false [] arena)
    as (out & lost & arena' & more & Hr & H1 & _ & H3 & _ & H5); [lia|lia|simpl; lia|constructor|].
  exists out, lost, arena'. rewrite drop_0 in *. cbn [map app] in H3. split; [exact Hr|]. split; [done|].
  intros Hl. rewrite H3. by apply H5.
Qed.

(** The query part of a target: what follows the first '?'. *)
Definition with_query (path query : bytes) (t : bytes) : Prop :=
  ch "?" ∉ path /\ (t = path /\ query = [] \/ t = path ++ ch "?" :: query).

Lemma fill_request_inv req arena :
  exists ps lost arena' pth q,
    with_query pth q (origin_form (target req)) /\ length ps <= IOXD_MAX_PARAMS /\
    (lost = false -> map (resolve_kv q arena') ps = kv_reference q) /\
    fill_request req arena = Some (settle_framing (set_uri req pth q ps arena') lost).
Proof.
  unfold fill_request. set (t := origin_form (target req)). destruct (match memchr (ch "?") t with Some _ => _ | None => _ end) as [pth q] eqn:E.
  assert (Hq : with_query pth q t).
  { destruct (memchr (ch "?") t) as [i|] eqn:Em; injection E as <- <-.
    - apply memchr_split in Em as [Ht Hn]. split; [done|]. right. replace (i + 1) with (S i) by lia. done.
    - apply memchr_None in Em. split; [done|by left]. }
  destruct (Nat.eqb_spec (length q) 0) as [H0|H0]; cbn [negb].
  - exists [], false, arena, pth, q. split_and!; try done; [cbn; lia|]. intros _. by destruct q.
  - destruct (kv_parse_total q IOXD_MAX_PARAMS arena) as (out & lost & arena' & -> & H1 & H2). by exists out, lost, arena', pth, q.
Qed.

Definition clean_head (req : ioxd_request) : Prop :=
  ascii_names (headers req) /\ Forall (fun h => all_bytes h.2) (headers req).



(** An absolute-form target with an empty path: the path is looked for inside the query. *)
Lemma absolute_form_in_query : exists r,
  fill_request (req0 (lit "http://a.example?next=/admin") 1 [hd "Host" "a.example"]) [] = Some (0%Z, r) /\ path r = lit "/admin".
Proof. eexists. split; reflexivity. Qed.

(** ** Digits *)

Lemma uint_tmp_spec fuel v : (0 <= v < 10 ^ Z.of_nat fuel)%Z -> 0 < fuel ->
  dec_value (rev (uint_tmp fuel v)) = v /\ forallb is_digit (rev (uint_tmp fuel v)) = true /\ uint_tmp fuel v <> [] /\ length (uint_tmp fuel v) <= fuel.
Proof.
  revert v. induction fuel as [|fuel IH]; intros v Hv Hf; [lia|]. cbn [uint_tmp].
  pose proof (Z.mod_pos_bound v 10 ltac:(lia)). pose proof (Z.div_mod v 10 ltac:(lia)).
  assert (Hd : is_digit (ch "0" + v mod 10) = true).
  { unfold is_digit. change (ch "0") with 48%Z. change (ch "9") with 57%Z. apply andb_true_iff. rewrite !Z.leb_le. lia. }
  destruct (Z.eqb_spec (v / 10) 0) as [Hz|Hz].
  - cbn [rev app forallb]. rewrite Hd. split_and!; [|done|done|cbn; lia]. unfold dec_value, dec_value_from. cbn. change (ch "0") with 48%Z. lia.
  - rewrite Nat2Z.inj_succ, Z.pow_succ_r in Hv by lia. assert (0 < v / 10)%Z by (pose proof (Z.div_pos v 10 ltac:(lia) ltac:(lia)); lia).
    destruct fuel as [|fuel]; [cbn in Hv; lia|].
    destruct (IH (v / 10)%Z) as (I1 & I2 & I3 & I4); [split; [lia|apply Z.div_lt_upper_bound; lia]|lia|].
    cbn [rev]. rewrite forallb_app, I2. cbn [forallb]. rewrite Hd. split_and!; [|done|done|cbn [length]; lia].
    unfold dec_value, dec_value_from in *. rewrite fold_left_app, I1. cbn. change (ch "0") with 48%Z. lia.
Qed.

Lemma put_uint_spec v : (0 <= v <= SIZE_MAX)%Z ->
  decimal (put_uint v) v /\ length (put_uint v) <= 20.
Proof.
  intros Hv. unfold put_uint. destruct (uint_tmp_spec 20 v) as (H1 & H2 & H3 & H4); [unfold SIZE_MAX, UINT64_MAX in Hv; cbn; lia|lia|].
  rewrite length_rev. split; [|done]. split_and!; [|done|done]. intros E. apply H3. by rewrite <- (rev_involutive (uint_tmp 20 v)), E.
Qed.

Lemma digit_bytes s : forallb is_digit s = true -> all_bytes s.
Proof.
  intros H%forallb_Forall. eapply Forall_impl; [exact H|]. intros c Hc. unfold is_digit in Hc. bool_to_prop.
  change (ch "0") with 48%Z in *. change (ch "9") with 57%Z in *. unfold is_byte. lia.
Qed.

(** The decimal numeral the reply's Content-Length is written with reads back as the number, for every
[size_t], in at most the 20 bytes the code reserves. *)
Theorem put_uint_roundtrip v (Hv : (0 <= v <= SIZE_MAX)%Z) :
  parse_length (put_uint v) = Some v /\ length (put_uint v) <= 20.
Proof.
  destruct (put_uint_spec v Hv) as [Hd Hl]. split; [|done]. apply parse_length_iff; [by apply digit_bytes, Hd|]. split; [done|lia].
Qed.

Lemma put_uint_roundtrip_witness : parse_length (put_uint 18446744073709551615) = Some 18446744073709551615%Z.
Proof. apply (put_uint_roundtrip 18446744073709551615). unfold SIZE_MAX, UINT64_MAX. lia. Defined.

Definition sample : ioxd_request :=
  req0 (lit "/a?b=1&c=%20") 1 [hd "HOST" "x"; hd "Transfer-Encoding" " chunked ,"; hd "Connection" "x, Close"].

Lemma sample_clean : clean_head sample.
Proof. split; repeat constructor; vm_compute; try done; intros; discriminate. Qed.


