(* ===== verification/Response.v ===== *)
(** The reply's head: what a handler sets through lib/http/api.c (fields, content type, declared length)
    and how lib/http/engine.c serializes it. Added fields live in the reply's arena as the lines that
    will be sent, growing from the front; a copied content type sits at the arena's far end. *)
From S2P Require Import Prelude Slices Headers.

#[local] Arguments Nat.ltb : simpl never.
#[local] Arguments Nat.leb : simpl never.
#[local] Arguments lit : simpl never.

Definition IOXD_MAX_RESP_HEADERS : nat := 16.
Definition IOXD_RESP_HEAD_CAP : nat := 3072.
Definition IOXD_HEAD_CAP : nat := 4096.
#[global] Arguments IOXD_MAX_RESP_HEADERS : simpl never.
#[global] Arguments IOXD_RESP_HEAD_CAP : simpl never.
#[global] Arguments IOXD_HEAD_CAP : simpl never.

(** The content type: a literal of the program, or a slice of the arena. *)
Inductive ctype := CtLit (b : bytes) | CtHead (off len : nat).

Record ioxd_response := {
  status : Z;
  content_type : ctype;
  headers : list kv;          (* slices of the arena *)
  close : bool;
  head_sent : bool;
  content_length : Z;
  has_length : bool;
  chunked : bool; failed : bool;
  body_sent : Z;
  head_len : nat;
  head : bytes
}.

Definition ct_bytes (r : ioxd_response) : bytes :=
  match content_type r with CtLit b => b | CtHead off len => span (head r) off len end.
Definition ct_len (r : ioxd_response) : nat :=
  match content_type r with CtLit b => length b | CtHead _ len => len end.

(** [init_response]; the arena keeps what it held. *)
Definition init_response (arena : bytes) : ioxd_response :=
  {| status := 200; content_type := CtLit (lit "text/plain"); headers := []; close := false; head_sent := false;
     content_length := 0; has_length := false; chunked := false; failed := false; body_sent := 0; head_len := 0; head := arena |}.

(** *** Field updates *)

Definition set_head (r : ioxd_response) (ct : ctype) (hs : list kv) (n : nat) (h : bytes) : ioxd_response :=
  {| status := status r; content_type := ct; headers := hs; close := close r; head_sent := head_sent r;
     content_length := content_length r; has_length := has_length r; chunked := chunked r; failed := failed r;
     body_sent := body_sent r; head_len := n; head := h |}.
Definition set_length (r : ioxd_response) (n : Z) (h : bool) : ioxd_response :=
  {| status := status r; content_type := content_type r; headers := headers r; close := close r; head_sent := head_sent r;
     content_length := n; has_length := h; chunked := chunked r; failed := failed r;
     body_sent := body_sent r; head_len := head_len r; head := head r |}.
Definition set_flags (r : ioxd_response) (s : Z) (cl sent ck fl : bool) (bs : Z) : ioxd_response :=
  {| status := s; content_type := content_type r; headers := headers r; close := cl; head_sent := sent;
     content_length := content_length r; has_length := has_length r; chunked := ck; failed := fl;
     body_sent := bs; head_len := head_len r; head := head r |}.
Definition set_status (r : ioxd_response) (s : Z) := set_flags r s (close r) (head_sent r) (chunked r) (failed r) (body_sent r).
Definition set_close (r : ioxd_response) (b : bool) := set_flags r (status r) b (head_sent r) (chunked r) (failed r) (body_sent r).
Definition set_sent (r : ioxd_response) := set_flags r (status r) (close r) true (chunked r) (failed r) (body_sent r).
Definition set_chunked (r : ioxd_response) := set_flags r (status r) (close r) (head_sent r) true (failed r) (body_sent r).
Definition set_failed (r : ioxd_response) := set_flags r (status r) (close r) (head_sent r) (chunked r) true (body_sent r).
Definition set_body_sent (r : ioxd_response) (n : Z) := set_flags r (status r) (close r) (head_sent r) (chunked r) (failed r) n.

(** ** Adding to the head *)

Definition is_tchar (c : Z) : bool :=
  ((ch "0" <=? c) && (c <=? ch "9") || (ch "a" <=? c) && (c <=? ch "z") || (ch "A" <=? c) && (c <=? ch "Z")
   || negb (c =? 0) && match memchr c (lit "!#$%&'*+-.^_`|~") with Some _ => true | None => false end)%Z%bool.

Definition valid_field_value (v : bytes) : bool :=
  forallb (fun c => negb ((c <? 32) && negb (c =? 9) || (c =? 127)))%Z%bool v.

(** Bytes of the arena a copied content type takes. *)
Definition content_type_reserved (r : ioxd_response) : nat :=
  match content_type r with
  | CtHead off len => if off <? IOXD_RESP_HEAD_CAP then len else 0
  | CtLit _ => 0
  end.

(** The room is computed in [size_t]. *)
Definition head_room (r : ioxd_response) (n : nat) : option (nat * ioxd_response) :=
  if (wrap64 (wrap64 (Z.of_nat IOXD_RESP_HEAD_CAP - Z.of_nat (content_type_reserved r)) - Z.of_nat (head_len r)) <? Z.of_nat n)%Z
  then None
  else Some (head_len r, set_head r (content_type r) (headers r) (head_len r + n) (head r)).

(** [ioxd_content_type], [type] a C string or a null pointer. *)
Definition ioxd_content_type (r : ioxd_response) (type : option bytes) : bool * ioxd_response :=
  match type with
  | None => (false, r)
  | Some t =>
      if head_sent r then (false, r)
      else if negb (valid_field_value t) then (false, r)
      else if (wrap64 (Z.of_nat IOXD_RESP_HEAD_CAP - Z.of_nat (head_len r)) <? Z.of_nat (length t))%Z then (false, r)
      else
        let copy := IOXD_RESP_HEAD_CAP - length t in
        (true, set_head r (CtHead copy (length t)) (headers r) (head_len r) (blit (head r) copy t))
  end.

Definition ioxd_header (r : ioxd_response) (name value : option bytes) : bool * ioxd_response :=
  match name, value with
  | Some name, Some value =>
      let name_len := length name in
      if head_sent r || (length (headers r) =? IOXD_MAX_RESP_HEADERS) || (name_len =? 0) then (false, r)
      else if negb (forallb is_tchar name) then (false, r)
      else if negb (valid_field_value value) then (false, r)
      else if (name_len =? 12) && eq_ci name (lit "content-type") then ioxd_content_type r (Some value)
      else if (name_len =? 14) && eq_ci name (lit "content-length")
           || (name_len =? 17) && eq_ci name (lit "transfer-encoding")
           || (name_len =? 10) && eq_ci name (lit "connection") then (false, r)
      else
        match head_room r (name_len + 2 + length value + 2) with
        | None => (false, r)
        | Some (line, r) =>
            let text := map lower name ++ lit ": " ++ value ++ [13; 10]%Z in
            (true, set_head r (content_type r)
                     (headers r ++ [{| key := InArena line name_len; value := InArena (line + name_len + 2) (length value) |}])
                     (head_len r) (blit (head r) line text))
        end
  | _, _ => (false, r)
  end.

Definition ioxd_content_length (r : ioxd_response) (n : Z) : bool * ioxd_response :=
  if head_sent r then (false, r) else (true, set_length r n true).

(** ** Serializing it *)

Definition ioxd_reason (status : Z) : bytes :=
  match status with
  | 200 => lit "OK" | 201 => lit "Created" | 204 => lit "No Content" | 301 => lit "Moved Permanently" | 302 => lit "Found"
  | 304 => lit "Not Modified" | 400 => lit "Bad Request" | 401 => lit "Unauthorized" | 403 => lit "Forbidden"
  | 404 => lit "Not Found" | 405 => lit "Method Not Allowed" | 409 => lit "Conflict" | 411 => lit "Length Required"
  | 413 => lit "Payload Too Large" | 431 => lit "Request Header Fields Too Large" | 500 => lit "Internal Server Error"
  | 501 => lit "Not Implemented" | 503 => lit "Service Unavailable"
  | _ => lit "Unknown"
  end%Z.

Definition CRLF : bytes := [13; 10]%Z.

(** The precomposed status lines. *)
Definition status_line (code : Z) : option bytes :=
  match code with
  | 200 => Some (lit "HTTP/1.1 200 OK" ++ CRLF)
  | 204 => Some (lit "HTTP/1.1 204 No Content" ++ CRLF)
  | 400 => Some (lit "HTTP/1.1 400 Bad Request" ++ CRLF)
  | 404 => Some (lit "HTTP/1.1 404 Not Found" ++ CRLF)
  | 405 => Some (lit "HTTP/1.1 405 Method Not Allowed" ++ CRLF)
  | 500 => Some (lit "HTTP/1.1 500 Internal Server Error" ++ CRLF)
  | _ => None
  end%Z.

Inductive framing := FRAME_LENGTH | FRAME_CHUNKED | FRAME_UNTIL_CLOSE | FRAME_NONE.

Definition wire_status (status : Z) : Z := if ((100 <=? status) && (status <=? 999))%Z%bool then status else 500%Z.

(** [NEED], and [PUT] behind what is there. *)
Definition need (cap n : nat) (p : bytes) : option bytes := if cap - length p <? n then None else Some p.
Definition put (cap : nat) (src : bytes) (p : bytes) : option bytes :=
  p ← need cap (length src) p; Some (p ++ src).

(** The status line, the framing fields and the connection field. *)
Definition put_status (cap : nat) (status : Z) (p : bytes) : option bytes :=
  match status_line status with
  | Some line => put cap line p
  | None =>
      p ← put cap (lit "HTTP/1.1 ") p; p ← need cap 3 p;
      p ← put cap (lit " ") (p ++ put_uint status); p ← put cap (ioxd_reason status) p; put cap CRLF p
  end.

Definition put_framing (cap : nat) (f : framing) (body_len : Z) (p : bytes) : option bytes :=
  match f with
  | FRAME_LENGTH => p ← put cap (lit "content-length: ") p; p ← need cap 20 p; put cap CRLF (p ++ put_uint body_len)
  | FRAME_CHUNKED => put cap (lit "transfer-encoding: chunked" ++ CRLF) p
  | _ => Some p
  end.

Definition put_connection (cap : nat) (keep : bool) (minor_version : Z) (p : bytes) : option bytes :=
  if negb keep then put cap (lit "connection: close" ++ CRLF) p
  else if (minor_version =? 0)%Z then put cap (lit "connection: keep-alive" ++ CRLF) p
  else Some p.

Definition build_head (keep_alive : bool) (minor_version : Z) (res : ioxd_response) (cap : nat) (f : framing) (body_len : Z) : option bytes :=
  p ← put_status cap (wire_status (status res)) [];
  p ← put cap (lit "content-type: ") p; p ← put cap (ct_bytes res) p; p ← put cap CRLF p;
  p ← put_framing cap f body_len p;
  p ← put_connection cap (keep_alive && negb (close res)) minor_version p;
  p ← put cap (take (head_len res) (head res)) p;
  put cap CRLF p.

Definition arena0 : bytes := replicate 3072 0%Z.

Example header_ex :
  let r := init_response arena0 in
  let '(b1, r) := ioxd_header r (Some (lit "X-Id")) (Some (lit "7")) in
  let '(b2, r) := ioxd_header r (Some (lit "Content-Length")) (Some (lit "7")) in
  let '(b3, r) := ioxd_header r (Some (lit "x-a")) (Some (13%Z :: lit "evil: 1")) in
  let '(b4, r) := ioxd_header r (Some (lit "Content-Type")) (Some (lit "a/b")) in
  ([b1; b2; b3; b4], build_head true 1 r IOXD_HEAD_CAP FRAME_LENGTH 42)
  = ([true; false; false; true],
     Some (lit "HTTP/1.1 200 OK" ++ CRLF ++ lit "content-type: a/b" ++ CRLF ++ lit "content-length: 42" ++ CRLF ++ lit "x-id: 7" ++ CRLF ++ CRLF)).
Proof. vm_compute. reflexivity. Qed.

(** ** The reply's head is what the handler added, and nothing else *)

(** The fields a response holds, read from the arena as it is. *)
Definition field_of (h : bytes) (p : kv) : bytes * bytes := (bytes_at [] h (key p), bytes_at [] h (value p)).
Definition fields (r : ioxd_response) : list (bytes * bytes) := map (field_of (head r)) (headers r).
Definition field_line (f : bytes * bytes) : bytes := f.1 ++ lit ": " ++ f.2.
Definition field_text (f : bytes * bytes) : bytes := field_line f ++ CRLF.

Definition engine_fields : list bytes :=
  [lit "content-type"; lit "content-length"; lit "transfer-encoding"; lit "connection"].

(** A field fit to send: its name a lowered token that is not the engine's, its value free of controls. *)
Record field_ok (f : bytes * bytes) : Prop := {
  fo_name : f.1 <> [] /\ exists n, f.1 = map lower n /\ forallb is_tchar n = true;
  fo_engine : f.1 ∉ engine_fields;
  fo_value : valid_field_value f.2 = true
}.

Definition place_in (n : nat) (p : place) : Prop := match p with InArena off len => off + len <= n | InText _ _ => False end.

Record head_ok (r : ioxd_response) : Prop := {
  ho_cap : length (head r) = IOXD_RESP_HEAD_CAP;
  ho_room : head_len r + content_type_reserved r <= IOXD_RESP_HEAD_CAP;
  ho_type : match content_type r with CtHead off len => off + len = IOXD_RESP_HEAD_CAP | CtLit _ => True end;
  ho_type_value : valid_field_value (ct_bytes r) = true;
  ho_places : Forall (fun p => place_in (head_len r) (key p) /\ place_in (head_len r) (value p)) (headers r);
  ho_text : take (head_len r) (head r) = concat (map field_text (fields r));
  ho_fields : Forall field_ok (fields r);
  ho_count : length (headers r) <= IOXD_MAX_RESP_HEADERS
}.

Lemma head_ok_init arena : length arena = IOXD_RESP_HEAD_CAP -> head_ok (init_response arena).
Proof. intros Ha. split; cbn; try done; lia. Qed.

Lemma wrap64_small z : (0 <= z < 2 ^ 64)%Z -> wrap64 z = z.
Proof. apply Z.mod_small. Qed.

Lemma bytes_at_blit h n off src p : place_in n p -> n <= off -> off <= length h -> bytes_at [] (blit h off src) p = bytes_at [] h p.
Proof. destruct p; cbn; [done|]. intros. apply span_blit_before; lia. Qed.

(** Writing past the lines leaves every field as it was. *)
Lemma fields_blit r off src h' : 
  Forall (fun p => place_in (head_len r) (key p) /\ place_in (head_len r) (value p)) (headers r) ->
  head_len r <= off -> off <= length (head r) -> h' = blit (head r) off src ->
  map (field_of h') (headers r) = fields r /\ take (head_len r) h' = take (head_len r) (head r).
Proof.
  intros Hp Ho Hl ->. split.
  - unfold fields. apply map_ext_Forall. eapply Forall_impl; [exact Hp|]. intros p [Hk Hv]. unfold field_of.
    by rewrite !(bytes_at_blit _ (head_len r)).
  - change (take (head_len r) ?x) with (span x 0 (head_len r)). apply span_blit_before; lia.
Qed.

Lemma content_type_ok r t ok r' : head_ok r -> ioxd_content_type r t = (ok, r') ->
  head_ok r' /\ fields r' = fields r /\ head_len r' = head_len r.
Proof.
  intros Hok Hc. unfold ioxd_content_type in Hc. destruct t as [t|]; [|by injection Hc as <- <-].
  destruct (head_sent r); [by injection Hc as <- <-|]. destruct (valid_field_value t) eqn:Ev; cbn [negb] in Hc; [|by injection Hc as <- <-].
  destruct (Z.ltb_spec (wrap64 (Z.of_nat IOXD_RESP_HEAD_CAP - Z.of_nat (head_len r))) (Z.of_nat (length t))) as [H|H]; [by injection Hc as <- <-|].
  injection Hc as <- <-. destruct Hok as [H1 H2 H3 H4 H5 H6 H7 H8].
  rewrite wrap64_small in H by (unfold IOXD_RESP_HEAD_CAP in *; lia).
  destruct (fields_blit r (IOXD_RESP_HEAD_CAP - length t) t _ H5 ltac:(lia) ltac:(lia) eq_refl) as [Hf Ht].
  split; [|split; [exact Hf|done]]. split; cbn.
  - rewrite length_blit; lia.
  - destruct (_ <? _); lia.
  - lia.
  - unfold ct_bytes. cbn. rewrite span_blit_same; [done|lia].
  - done.
  - unfold fields. cbn. by rewrite Hf, Ht.
  - unfold fields. cbn. by rewrite Hf.
  - done.
Qed.

Lemma tchar_range c : is_tchar c = true -> (0 < c < 128)%Z.
Proof.
  unfold is_tchar. change (ch "0") with 48%Z. change (ch "9") with 57%Z. change (ch "a") with 97%Z. change (ch "z") with 122%Z.
  change (ch "A") with 65%Z. change (ch "Z") with 90%Z. rewrite !orb_true_iff, !andb_true_iff, !Z.leb_le.
  intros [[[?|?]|?]|[_ Hm]]; [lia..|]. destruct (memchr c _) as [i|] eqn:E; [|done].
  apply memchr_Some in E as [E _]. apply list_elem_of_lookup_2 in E. revert E. vm_compute lit.
  intros E. repeat (apply elem_of_cons in E as [->|E]; [lia|]). by apply elem_of_nil in E.
Qed.

(** A check over the 128 ASCII codes. *)
Lemma ascii_forall (f : Z -> bool) : forallb (fun k => f (Z.of_nat k)) (seq 0 128) = true -> forall c, (0 <= c < 128)%Z -> f c = true.
Proof.
  intros H c Hc. rewrite forallb_forall in H. specialize (H (Z.to_nat c)). rewrite in_seq, Z2Nat.id in H by lia. apply H. lia.
Qed.

Lemma lower_ascii_lower c : (0 <= c < 128)%Z -> lower c = lower_ascii c.
Proof. intros Hc. apply Z.eqb_eq. revert c Hc. apply ascii_forall. vm_compute. reflexivity. Qed.

Lemma lower_not_engine name n :
  forallb is_tchar name = true -> eq_ci name n = false -> map lower_ascii n = n -> map lower name <> n.
Proof.
  intros Ht Hc Hn E. assert (eq_ci name n = true); [|congruence]. apply eq_ci_true. rewrite Hn, <- E.
  apply map_ext_Forall. apply forallb_Forall in Ht. eapply Forall_impl; [exact Ht|]. intros c Hx%tchar_range. symmetry. apply lower_ascii_lower. lia.
Qed.

Lemma concat_snoc {A} (l : list (list A)) x : concat (l ++ [x]) = concat l ++ x.
Proof. rewrite concat_app. cbn. by rewrite app_nil_r. Qed.

Definition add_line (r : ioxd_response) (n v : bytes) : ioxd_response :=
  set_head r (content_type r)
    (headers r ++ [{| key := InArena (head_len r) (length n); value := InArena (head_len r + length n + 2) (length v) |}])
    (head_len r + (length n + 2 + length v + 2)) (blit (head r) (head_len r) (n ++ lit ": " ++ v ++ CRLF)).

Lemma length_text n v : length (n ++ lit ": " ++ v ++ CRLF) = length n + 2 + length v + 2.
Proof. rewrite !length_app. change (length (lit ": ")) with 2. change (length CRLF) with 2. lia. Qed.

Lemma field_of_line h off n v : off + length (n ++ lit ": " ++ v ++ CRLF) <= length h ->
  field_of (blit h off (n ++ lit ": " ++ v ++ CRLF)) {| key := InArena off (length n); value := InArena (off + length n + 2) (length v) |} = (n, v).
Proof.
  intros Hl. pose proof (span_blit_same h off _ Hl) as Hs. rewrite length_text in *. unfold field_of. cbn [bytes_at key value]. f_equal.
  - rewrite <- (span_take _ _ (length n + 2 + length v + 2)) by lia. rewrite Hs. by rewrite take_app_length.
  - replace (off + length n + 2) with (off + (length n + 2)) by lia.
    rewrite <- (span_take _ _ (length n + 2 + length v + 2 - (length n + 2))), <- span_drop by lia. rewrite Hs.
    rewrite app_assoc, drop_app_length' by (rewrite length_app; done). by rewrite take_app_length.
Qed.

Lemma add_line_ok r n v :
  head_ok r -> field_ok (n, v) -> length (headers r) < IOXD_MAX_RESP_HEADERS ->
  head_len r + (length n + 2 + length v + 2) + content_type_reserved r <= IOXD_RESP_HEAD_CAP ->
  head_ok (add_line r n v) /\ fields (add_line r n v) = fields r ++ [(n, v)].
Proof.
  intros [H1 H2 H3 H4 H5 H6 H7 H8] Hf Hc Hr. pose proof (length_text n v) as Hlt.
  destruct (fields_blit r (head_len r) (n ++ lit ": " ++ v ++ CRLF) _ H5 ltac:(lia) ltac:(lia) eq_refl) as [Hfs Ht].
  assert (Hnew : fields (add_line r n v) = fields r ++ [(n, v)]).
  { unfold fields at 1, add_line. cbn [headers head set_head]. rewrite map_app, Hfs. cbn [map]. rewrite field_of_line by lia. done. }
  split; [|exact Hnew]. split; rewrite ?Hnew; cbn [add_line head head_len content_type headers set_head]; rewrite ?length_app; cbn [length].
  - rewrite length_blit; lia.
  - unfold content_type_reserved in *. cbn. lia.
  - done.
  - unfold ct_bytes in *. cbn. unfold content_type_reserved in *. destruct (content_type r) as [b|off k] eqn:Ec; [done|].
    rewrite span_blit_after; [done| |lia]. destruct (Nat.ltb_spec off IOXD_RESP_HEAD_CAP); lia.
  - apply Forall_app. split; [|repeat constructor; cbn; lia].
    eapply Forall_impl; [exact H5|]. intros [[] []] [Hk Hv]; cbn in *; try done; lia.
  - rewrite map_app. cbn [map]. rewrite concat_snoc, <- H6, <- Ht. unfold field_text, field_line. cbn [fst snd].
    rewrite <- !app_assoc. set (b := blit _ _ _). change (take (head_len r + ?k) b) with (span b 0 (head_len r + k)).
    rewrite <- span_app_join. f_equal. rewrite <- Hlt. cbn [Nat.add]. apply span_blit_same. lia.
  - apply Forall_app. split; [done|]. by constructor.
  - lia.
Qed.

Lemma not_engine name :
  forallb is_tchar name = true -> (length name =? 12) && eq_ci name (lit "content-type") = false ->
  (length name =? 14) && eq_ci name (lit "content-length") || (length name =? 17) && eq_ci name (lit "transfer-encoding")
    || (length name =? 10) && eq_ci name (lit "connection") = false ->
  map lower name ∉ engine_fields.
Proof.
  intros Ht E1 [[E2 E3]%orb_false_iff E4]%orb_false_iff.
  assert (Hne : forall k n, (length name =? k) && eq_ci name n = false -> length n = k -> map lower_ascii n = n -> map lower name <> n).
  { intros k n [Hk|He]%andb_false_iff Hl Hn; [|by apply lower_not_engine]. bool_to_prop. intros E. rewrite <- E, length_map in Hl. lia. }
  unfold engine_fields. rewrite !not_elem_of_cons. split_and!; [by eapply Hne..|set_solver].
Qed.

(** An accepted field is appended; a refused call changes no field. *)
Lemma header_ok r name value ok r' : head_ok r -> ioxd_header r name value = (ok, r') ->
  head_ok r' /\ (fields r' = fields r \/
    exists n v, name = Some n /\ value = Some v /\ fields r' = fields r ++ [(map lower n, v)]).
Proof.
  intros Hok Hh. unfold ioxd_header in Hh.
  assert (Hno : (false, r) = (ok, r') -> head_ok r' /\ (fields r' = fields r \/
    exists n v, name = Some n /\ value = Some v /\ fields r' = fields r ++ [(map lower n, v)])) by (intros [= <- <-]; by split; [|left]).
  destruct name as [name|]; [|auto]. destruct value as [v|]; [|auto].
  destruct (head_sent r || (length (headers r) =? IOXD_MAX_RESP_HEADERS) || (length name =? 0)) eqn:E0; [auto|].
  destruct (forallb is_tchar name) eqn:Et; cbn [negb] in Hh; [|auto].
  destruct (valid_field_value v) eqn:Ev; cbn [negb] in Hh; [|auto].
  destruct ((length name =? 12) && eq_ci name (lit "content-type")) eqn:E1.
  { apply content_type_ok in Hh as (? & ? & _); [|done]. split; [done|by left]. }
  destruct (_ || _ || _) eqn:E2 in Hh; [auto|]. pose proof (not_engine _ Et E1 E2) as Hne. clear E1 E2. apply orb_false_iff in E0 as [[_ E0]%orb_false_iff E0'].
  unfold head_room in Hh. destruct (Z.ltb_spec
    (wrap64 (wrap64 (Z.of_nat IOXD_RESP_HEAD_CAP - Z.of_nat (content_type_reserved r)) - Z.of_nat (head_len r)))
    (Z.of_nat (length name + 2 + length v + 2))) as [Hz|Hz]; [auto|]. clear Hno.
  pose proof (ho_room _ Hok) as H2. pose proof (ho_count _ Hok) as H8. bool_to_prop.
  rewrite (wrap64_small (Z.of_nat IOXD_RESP_HEAD_CAP - _)) in Hz by (unfold IOXD_RESP_HEAD_CAP in *; lia).
  rewrite wrap64_small in Hz by (unfold IOXD_RESP_HEAD_CAP in *; lia).
  assert (Hr' : r' = add_line r (map lower name) v) by (unfold add_line; rewrite length_map; injection Hh as <- <-; done).
  rewrite Hr'. destruct (add_line_ok r (map lower name) v) as [Ha Hb]; [done| |lia|rewrite length_map; lia|].
  - split; cbn; [split; [intros ->%map_eq_nil; cbn in *; lia|by exists name]|done|done].
  - split; [done|]. right. by exists name, v.
Qed.

(** ** The serialized head *)

Definition status_text (s : Z) : bytes :=
  match status_line s with Some line => line | None => lit "HTTP/1.1 " ++ put_uint s ++ lit " " ++ ioxd_reason s ++ CRLF end.
Definition status_words (s : Z) : bytes := lit "HTTP/1.1 " ++ put_uint s ++ lit " " ++ ioxd_reason s.
Definition framing_lines (f : framing) (n : Z) : list bytes :=
  match f with
  | FRAME_LENGTH => [lit "content-length: " ++ put_uint n]
  | FRAME_CHUNKED => [lit "transfer-encoding: chunked"]
  | _ => []
  end.
Definition connection_lines (keep : bool) (minor : Z) : list bytes :=
  if negb keep then [lit "connection: close"] else if (minor =? 0)%Z then [lit "connection: keep-alive"] else [].

(** The lines of a head, in order. *)
Definition head_lines (keep_alive : bool) (minor : Z) (r : ioxd_response) (f : framing) (n : Z) : list bytes :=
  [status_words (wire_status (status r)); lit "content-type: " ++ ct_bytes r] ++
  framing_lines f n ++ connection_lines (keep_alive && negb (close r)) minor ++ map field_line (fields r).

Definition with_crlf (l : bytes) : bytes := l ++ CRLF.
Definition head_text (lines : list bytes) : bytes := concat (map with_crlf lines) ++ CRLF.

(** A case analysis on a status against the codes the program knows. *)
Lemma status_cases (P : Z -> Prop) s :
  Forall P [200; 201; 204; 301; 302; 304; 400; 401; 403; 404; 405; 409; 411; 413; 431; 500; 501; 503]%Z ->
  (s ∉ [200; 201; 204; 301; 302; 304; 400; 401; 403; 404; 405; 409; 411; 413; 431; 500; 501; 503]%Z -> P s) -> P s.
Proof.
  intros HP Hn. destruct (decide (s ∈ [200; 201; 204; 301; 302; 304; 400; 401; 403; 404; 405; 409; 411; 413; 431; 500; 501; 503]%Z)) as [Hin|]; [|auto].
  rewrite Forall_forall in HP. by apply HP.
Qed.

Lemma reason_other s : s ∉ [200; 201; 204; 301; 302; 304; 400; 401; 403; 404; 405; 409; 411; 413; 431; 500; 501; 503]%Z ->
  ioxd_reason s = lit "Unknown" /\ status_line s = None.
Proof.
  intros H. split; [unfold ioxd_reason|unfold status_line];
    repeat match goal with |- context [match ?z with _ => _ end] => is_var z; destruct z; try reflexivity end; exfalso; apply H; set_solver.
Qed.

Lemma status_text_words s : status_text s = with_crlf (status_words s).
Proof.
  apply (status_cases (fun s => status_text s = with_crlf (status_words s))); [repeat constructor; vm_compute; reflexivity|].
  intros [_ H]%reason_other. unfold status_text, with_crlf, status_words. rewrite H. by rewrite <- !app_assoc.
Qed.

(** A step that appends [s]: what it leaves is what was there with [s] behind, and it does not fail when
[s] and the 20 bytes asked for before a number fit. *)
Record writes (cap : nat) (g : bytes -> option bytes) (s : bytes) : Prop := {
  wr_some : forall p q, g p = Some q -> q = p ++ s;
  wr_fits : forall p, length p + length s + 20 <= cap -> g p = Some (p ++ s)
}.

Lemma writes_eq cap g s s' : writes cap g s -> s = s' -> writes cap g s'.
Proof. by intros ? <-. Qed.

Lemma need_Some cap n p : length p + n <= cap -> need cap n p = Some p.
Proof. intros. unfold need. destruct (Nat.ltb_spec (cap - length p) n); [lia|done]. Qed.

Lemma writes_need cap n : n <= 20 -> writes cap (need cap n) [].
Proof.
  intros Hn. split; intros p; rewrite app_nil_r.
  - intros q. unfold need. destruct (_ <? _); cbn; congruence.
  - intros H. apply need_Some. lia.
Qed.

Lemma writes_put cap s : writes cap (put cap s) s.
Proof.
  split; intros p.
  - intros q. unfold put, need. destruct (_ <? _); cbn; congruence.
  - intros H. unfold put. by rewrite need_Some by lia.
Qed.

Lemma writes_ret cap : writes cap Some [].
Proof. split; intros p; rewrite app_nil_r; congruence. Qed.

(** Appending first, then going on. *)
Lemma writes_app cap g s t : writes cap g t -> writes cap (fun p => g (p ++ s)) (s ++ t).
Proof.
  intros [H1 H2]. split.
  - intros p q Hg. rewrite app_assoc. by apply H1.
  - intros p Hl. rewrite app_assoc. apply H2. rewrite !length_app in *. lia.
Qed.

Lemma writes_bind cap g h s t : writes cap g s -> writes cap h t -> writes cap (fun p => q ← g p; h q) (s ++ t).
Proof.
  intros [G1 G2] [H1 H2]. split.
  - intros p q (r & ->%G1 & ->%H1)%bind_Some. by rewrite app_assoc.
  - intros p Hl. rewrite length_app in Hl. rewrite G2 by lia. unfold mbind. cbn [option_bind]. rewrite app_assoc. apply H2. rewrite length_app. lia.
Qed.

#[local] Opaque put.

Ltac writes :=
  repeat first [apply writes_put | apply writes_ret | apply writes_need; lia | eapply writes_bind | eapply writes_app].

(** The pieces, one after the other. *)
Lemma head_text_pieces keep minor r f n : head_ok r ->
  head_text (head_lines keep minor r f n) =
    status_text (wire_status (status r)) ++ lit "content-type: " ++ ct_bytes r ++ CRLF ++
    concat (map with_crlf (framing_lines f n)) ++ concat (map with_crlf (connection_lines (keep && negb (close r)) minor)) ++
    take (head_len r) (head r) ++ CRLF.
Proof.
  intros Hok. unfold head_text, head_lines. rewrite status_text_words, (ho_text _ Hok), !map_app, !concat_app, map_map.
  cbn [map concat]. unfold with_crlf at 2. rewrite <- !app_assoc. reflexivity.
Qed.

Lemma writes_status cap s : writes cap (put_status cap s) (status_text s).
Proof. unfold put_status, status_text. destruct (status_line s); [writes|]. eapply writes_eq; [writes|].
  by rewrite <- ?app_assoc. Qed.

Lemma writes_framing cap f n : writes cap (put_framing cap f n) (concat (map with_crlf (framing_lines f n))).
Proof. destruct f; (eapply writes_eq; [unfold put_framing; writes|]); cbn; unfold with_crlf; by rewrite ?app_nil_r, <- ?app_assoc. Qed.

Lemma writes_connection cap keep minor : writes cap (put_connection cap keep minor) (concat (map with_crlf (connection_lines keep minor))).
Proof.
  unfold put_connection, connection_lines. destruct (negb keep); [|destruct (minor =? 0)%Z];
    (eapply writes_eq; [writes|]); cbn; unfold with_crlf; by rewrite ?app_nil_r.
Qed.

(** What [build_head] writes, and that it does not fail when that fits. *)
Lemma build_head_spec keep minor r cap f n : head_ok r ->
  (forall h, build_head keep minor r cap f n = Some h -> h = head_text (head_lines keep minor r f n)) /\
  (length (head_text (head_lines keep minor r f n)) + 20 <= cap ->
   build_head keep minor r cap f n = Some (head_text (head_lines keep minor r f n))).
Proof.
  intros Hok. rewrite head_text_pieces by done.
  assert (Hw : writes cap (fun p => p ← put_status cap (wire_status (status r)) p; p ← put cap (lit "content-type: ") p;
     p ← put cap (ct_bytes r) p; p ← put cap CRLF p; p ← put_framing cap f n p; p ← put_connection cap (keep && negb (close r)) minor p;
     p ← put cap (take (head_len r) (head r)) p; put cap CRLF p)
     (status_text (wire_status (status r)) ++ lit "content-type: " ++ ct_bytes r ++ CRLF ++
    concat (map with_crlf (framing_lines f n)) ++ concat (map with_crlf (connection_lines (keep && negb (close r)) minor)) ++
    take (head_len r) (head r) ++ CRLF)).
  { apply writes_bind; [apply writes_status|]. do 3 (apply writes_bind; [apply writes_put|]).
    apply writes_bind; [apply writes_framing|]. apply writes_bind; [apply writes_connection|]. writes. }
  destruct Hw as [H1 H2]. split; [intros h Hh; by apply (H1 [])|]. intros Hl. by apply (H2 []).
Qed.

(** ** What a handler can do to the head *)

Inductive head_op :=
| OHeader (name value : option bytes)
| OType (type : option bytes)
| OTypeLit (type : bytes)           (* res.content_type assigned a literal *)
| OLength (n : Z)
| OStatus (s : Z)
| OClose (b : bool).

Definition head_do (o : head_op) (r : ioxd_response) : ioxd_response :=
  match o with
  | OHeader n v => (ioxd_header r n v).2
  | OType t => (ioxd_content_type r t).2
  | OTypeLit b => set_head r (CtLit b) (headers r) (head_len r) (head r)
  | OLength n => (ioxd_content_length r n).2
  | OStatus s => set_status r s
  | OClose b => set_close r b
  end.

Definition head_run (os : list head_op) (r : ioxd_response) : ioxd_response := fold_left (fun r o => head_do o r) os r.

(** What the program promises of a literal it assigns. *)
Definition op_ok (o : head_op) : Prop :=
  match o with OTypeLit b => valid_field_value b = true /\ length b <= 512 | _ => True end.

Definition added (os : list head_op) (f : bytes * bytes) : Prop :=
  exists n v, OHeader (Some n) (Some v) ∈ os /\ f = (map lower n, v).

Definition lit_small (r : ioxd_response) : Prop := match content_type r with CtLit b => length b <= 512 | CtHead _ _ => True end.

Lemma set_keeps_head r r' :
  content_type r' = content_type r -> headers r' = headers r -> head_len r' = head_len r -> head r' = head r ->
  head_ok r -> head_ok r' /\ fields r' = fields r.
Proof.
  intros E1 E2 E3 E4 [H1 H2 H3 H4 H5 H6 H7 H8]. assert (fields r' = fields r) by (unfold fields; by rewrite E2, E4).
  split; [|done]. split; unfold content_type_reserved, ct_bytes in *; by rewrite ?E1, ?E2, ?E3, ?E4, ?H.
Qed.

Lemma lit_small_init arena : lit_small (init_response arena).
Proof. unfold lit_small. cbn. change (length (lit "text/plain")) with 10. lia. Qed.

Lemma content_type_lit r t : lit_small r -> lit_small (ioxd_content_type r t).2.
Proof. intros H. unfold ioxd_content_type. destruct t; [|done]. by repeat (destruct (_ : bool); [done|]). Qed.

Lemma head_do_ok o r : op_ok o -> head_ok r -> lit_small r ->
  head_ok (head_do o r) /\ lit_small (head_do o r) /\
  (fields (head_do o r) = fields r \/ exists n v, o = OHeader (Some n) (Some v) /\ fields (head_do o r) = fields r ++ [(map lower n, v)]).
Proof.
  intros Ho Hr Hs. destruct o as [n v|t|b|n|s|b]; cbn [head_do].
  - destruct (ioxd_header r n v) as [ok r'] eqn:E. cbn. pose proof E as Eh. apply header_ok in E as [H1 H2]; [|done]. split; [done|]. split.
    + unfold ioxd_header in Eh. destruct n as [n|]; [|by injection Eh as <- <-]. destruct v as [v|]; [|by injection Eh as <- <-].
      repeat (destruct (_ : bool); [first [by injection Eh as <- <- | by replace r' with (ioxd_content_type r (Some v)).2 by (by rewrite Eh); apply content_type_lit]|]).
      unfold head_room in Eh. destruct (_ <? _)%Z; by injection Eh as <- <-.
    + destruct H2 as [|(n' & v' & -> & -> & H2)]; [by left|right; eauto].
  - destruct (ioxd_content_type r t) as [ok r'] eqn:E. cbn. pose proof (content_type_lit r t Hs) as Hl. rewrite E in Hl.
    apply content_type_ok in E as (H1 & H2 & _); [|done]. split_and!; try done. by left.
  - destruct Ho as [Ho Hb]. split; [|split; [done|by left]]. destruct Hr as [H1 H2 H3 H4 H5 H6 H7 H8].
    split; try done. unfold content_type_reserved. cbn. lia.
  - unfold ioxd_content_length. destruct (head_sent r); cbn; [split_and!; try done; by left|].
    destruct (set_keeps_head r (set_length r n true)) as [? ?]; try done. split_and!; try done. by left.
  - destruct (set_keeps_head r (set_status r s)) as [? ?]; try done. split_and!; try done. by left.
  - destruct (set_keeps_head r (set_close r b)) as [? ?]; try done. split_and!; try done. by left.
Qed.

Lemma head_run_ok os r : Forall op_ok os -> head_ok r -> lit_small r ->
  head_ok (head_run os r) /\ lit_small (head_run os r) /\ Forall (fun f => f ∈ fields r \/ added os f) (fields (head_run os r)).
Proof.
  revert r. induction os as [|o os IH]; intros r Ho Hr Hs; cbn [head_run fold_left].
  { split_and!; try done. apply Forall_forall. by left. }
  apply Forall_cons in Ho as [Ho Hos]. destruct (head_do_ok o r Ho Hr Hs) as (H1 & H2 & H3). destruct (IH (head_do o r) Hos H1 H2) as (I1 & I2 & I3).
  split_and!; try done. eapply Forall_impl; [exact I3|]. intros f [Hf|(n & v & Hin & ->)]; [|right; exists n, v; split; [by apply elem_of_cons; right|done]].
  destruct H3 as [H3|(n & v & -> & H3)]; rewrite H3 in Hf; [by left|]. apply elem_of_app in Hf as [|Hf]; [by left|].
  right. apply list_elem_of_singleton in Hf as ->. exists n, v. split; [apply elem_of_cons; by left|done].
Qed.

(** A line that is one: not empty, no line end inside. *)
Definition clean (l : bytes) : Prop := 13%Z ∉ l /\ 10%Z ∉ l.
Definition one_line (l : bytes) : Prop := l <> [] /\ clean l.

Lemma clean_forallb l (f : Z -> bool) : f 13%Z = false -> f 10%Z = false -> forallb f l = true -> clean l.
Proof.
  intros H1 H2 H%forallb_Forall. rewrite Forall_forall in H. split; intros Hin%H; congruence.
Qed.

Lemma clean_app a b : clean a -> clean b -> clean (a ++ b).
Proof. unfold clean. set_solver. Qed.

Lemma uint_tmp_digits fuel v : forallb is_digit (uint_tmp fuel v) = true.
Proof.
  revert v. induction fuel as [|fuel IH]; intros v; cbn [uint_tmp forallb]; [done|]. apply andb_true_iff. split.
  - pose proof (Z.mod_pos_bound v 10 ltac:(lia)). unfold is_digit. change (ch "0") with 48%Z. change (ch "9") with 57%Z.
    apply andb_true_iff. rewrite !Z.leb_le. lia.
  - case_match; [done|apply IH].
Qed.

Lemma put_uint_clean v : clean (put_uint v).
Proof.
  apply (clean_forallb _ is_digit); [done..|]. unfold put_uint. apply forallb_Forall, Forall_rev, forallb_Forall, uint_tmp_digits.
Qed.

Lemma put_uint_length v : length (put_uint v) <= 20.
Proof.
  unfold put_uint. rewrite length_rev. assert (H : forall fuel v, length (uint_tmp fuel v) <= fuel).
  { induction fuel as [|fuel IH]; intros u; cbn [uint_tmp length]; [done|]. case_match; cbn [length]; [lia|]. specialize (IH (u / 10)%Z). lia. }
  apply H.
Qed.

Lemma lit_clean s : forallb (fun c => negb ((c =? 13) || (c =? 10)))%Z (lit s) = true -> clean (lit s).
Proof. intros H. by apply (clean_forallb _ (fun c => negb ((c =? 13) || (c =? 10)))%Z). Qed.

Lemma reason_clean s : clean (ioxd_reason s) /\ length (ioxd_reason s) <= 31.
Proof.
  apply (status_cases (fun s => clean (ioxd_reason s) /\ length (ioxd_reason s) <= 31)).
  - repeat constructor; try (vm_compute; lia); apply lit_clean; reflexivity.
  - intros [-> _]%reason_other. split; [apply lit_clean; reflexivity|vm_compute; lia].
Qed.

Lemma value_clean v : valid_field_value v = true -> clean v.
Proof. apply clean_forallb; reflexivity. Qed.

Lemma name_clean n : forallb is_tchar n = true -> clean (map lower n).
Proof.
  intros H%forallb_Forall. apply (clean_forallb _ (fun c => negb ((c =? 13) || (c =? 10)))%Z); [done..|].
  apply forallb_Forall, Forall_map. eapply Forall_impl; [exact H|]. intros c Hc. cbn.
  assert (Hb : implb (is_tchar c) (negb ((lower c =? 13) || (lower c =? 10)))%Z = true).
  { apply (ascii_forall (fun c => implb (is_tchar c) (negb ((lower c =? 13) || (lower c =? 10)))%Z)); [vm_compute; reflexivity|].
    apply tchar_range in Hc. lia. }
  by rewrite Hc in Hb.
Qed.

Lemma head_lines_clean keep minor r f n : head_ok r -> Forall one_line (head_lines keep minor r f n).
Proof.
  intros Hok. assert (Hlit : forall s l, lit s <> [] -> forallb (fun c => negb ((c =? 13) || (c =? 10)))%Z (lit s) = true -> clean l -> one_line (lit s ++ l)).
  { intros s l Hs Hc Hl. split; [|by apply clean_app; [apply lit_clean|]]. intros [E _]%app_nil. done. }
  unfold head_lines. rewrite !Forall_app. split_and!.
  - constructor; [|constructor; [|constructor]].
    + apply Hlit; [done|done|]. apply clean_app; [apply put_uint_clean|]. apply clean_app; [by apply lit_clean|apply reason_clean].
    + apply Hlit; [done|done|]. apply value_clean, ho_type_value, Hok.
  - destruct f; constructor; [|constructor|split; [done|by apply lit_clean]|constructor]. apply Hlit; [done|done|apply put_uint_clean].
  - unfold connection_lines. destruct (negb _); [|destruct (minor =? 0)%Z]; constructor; try constructor; try done; by apply lit_clean.
  - apply Forall_map. eapply Forall_impl; [exact (ho_fields _ Hok)|]. intros [m v] [[Hne (k & Hk & Ht)] _ Hv]. cbn in *. unfold field_line. cbn.
    split; [by intros [E _]%app_nil|]. subst m. apply clean_app; [by apply name_clean|]. apply clean_app; [by apply lit_clean|by apply value_clean].
Qed.

(** ** Properties *)

(** C6. No response splitting. Whatever sequence of headers, content types, lengths, statuses a handler
sets (a literal it assigns as the content type holding no control byte), a head the engine serializes is
the status line, the content type, one framing field at most, the connection field when there is one, and
the accepted fields in order, each a line of its own - not empty, without CR or LF - closed by an empty
line; and the fields are ones the handler added, lower-cased, none of them a field the engine owns. *)
Theorem response_head_lines os arena keep minor f n h :
  length arena = IOXD_RESP_HEAD_CAP -> Forall op_ok os ->
  let r := head_run os (init_response arena) in
  build_head keep minor r IOXD_HEAD_CAP f n = Some h ->
  h = head_text (head_lines keep minor r f n) /\ Forall one_line (head_lines keep minor r f n) /\
  Forall (fun fd => added os fd /\ fd.1 ∉ engine_fields) (fields r).
Proof.
  intros Ha Ho r Hb. destruct (head_run_ok os (init_response arena) Ho (head_ok_init _ Ha)) as (H1 & _ & H3); [apply lit_small_init|].
  fold r in H1, H3. split; [by apply build_head_spec in Hb|]. split; [by apply head_lines_clean|].
  rewrite Forall_forall in H3 |- *. pose proof (ho_fields _ H1) as Hf. rewrite Forall_forall in Hf.
  intros fd Hin. split; [|apply Hf, Hin]. destruct (H3 _ Hin) as [Hx|]; [by apply elem_of_nil in Hx|done].
Qed.

(** C7. A head always fits. Whatever a handler added - the arena bounds it - and whatever the status, the
framing and the length, the head has room in the buffer it is serialized into, so a reply is never lost to
its size; a content type assigned as a literal may be up to 512 bytes long. *)
Theorem response_head_fits os arena keep minor f n :
  length arena = IOXD_RESP_HEAD_CAP -> Forall op_ok os ->
  let r := head_run os (init_response arena) in
  build_head keep minor r IOXD_HEAD_CAP f n = Some (head_text (head_lines keep minor r f n)).
Proof.
  intros Ha Ho r. destruct (head_run_ok os (init_response arena) Ho (head_ok_init _ Ha)) as (H1 & H2 & _); [apply lit_small_init|].
  fold r in H1, H2. apply build_head_spec; [done|]. rewrite head_text_pieces by done.
  rewrite status_text_words. unfold with_crlf at 1, status_words. rewrite !length_app.
  pose proof (put_uint_length (wire_status (status r))) as L1. pose proof (reason_clean (wire_status (status r))) as [_ L2].
  assert (L3 : length (ct_bytes r) + length (take (head_len r) (head r)) <= 512 + IOXD_RESP_HEAD_CAP).
  { pose proof (ho_room _ H1) as R. pose proof (ho_type _ H1) as T. pose proof (ho_cap _ H1). rewrite length_take.
    unfold lit_small, ct_bytes, content_type_reserved in *. destruct (content_type r) as [b|off k]; [lia|].
    rewrite length_span by lia. destruct (Nat.ltb_spec off IOXD_RESP_HEAD_CAP); lia. }
  assert (L4 : length (concat (map with_crlf (framing_lines f n))) <= 38).
  { pose proof (put_uint_length n). destruct f; cbn [framing_lines map concat]; unfold with_crlf; rewrite ?length_app;
      change (length (lit "content-length: ")) with 16; change (length (lit "transfer-encoding: chunked")) with 26;
      change (length CRLF) with 2; cbn [length]; lia. }
  assert (L5 : length (concat (map with_crlf (connection_lines (keep && negb (close r)) minor))) <= 24).
  { unfold connection_lines. destruct (negb _); [|destruct (minor =? 0)%Z]; vm_compute; lia. }
  change (length (lit "HTTP/1.1 ")) with 9. change (length (lit " ")) with 1. change (length CRLF) with 2. change (length (lit "content-type: ")) with 14.
  unfold IOXD_RESP_HEAD_CAP, IOXD_HEAD_CAP in *. lia.
Qed.

Definition sample_ops : list head_op :=
  [OHeader (Some (lit "X-Id")) (Some (lit "7")); OHeader (Some (lit "X-Evil")) (Some (lit "a" ++ CRLF ++ lit "b: c"));
   OType (Some (lit "text/html")); OHeader (Some (lit "Connection")) (Some (lit "x")); OStatus 404].

Lemma sample_ops_ok : Forall op_ok sample_ops.
Proof. repeat constructor. Qed.

Lemma response_head_fits_witness :
  build_head true 1 (head_run sample_ops (init_response arena0)) IOXD_HEAD_CAP FRAME_LENGTH 12 =
  Some (head_text [lit "HTTP/1.1 404 Not Found"; lit "content-type: text/html"; lit "content-length: 12"; lit "x-id: 7"]).
Proof.
  rewrite (response_head_fits sample_ops arena0 true 1 FRAME_LENGTH 12 eq_refl sample_ops_ok). vm_compute. reflexivity.
Defined.

Lemma response_head_lines_witness :
  Forall one_line (head_lines true 1 (head_run sample_ops (init_response arena0)) FRAME_CHUNKED 0).
Proof.
  destruct (build_head true 1 (head_run sample_ops (init_response arena0)) IOXD_HEAD_CAP FRAME_CHUNKED 0) as [h|] eqn:E.
  - apply (response_head_lines sample_ops arena0 true 1 FRAME_CHUNKED 0 h eq_refl sample_ops_ok E).
  - exfalso. vm_compute in E. discriminate E.
Defined.
