(* ===== verification/Context.v ===== *)
(** What the engine and a handler share for one request (ioxd_ctx of ioxd/http.h and struct serve_state
    of lib/http/engine.c): the request, the reply being shaped, the connection's pipe with the input it
    reads from and the wire it writes to, and the engine's bookkeeping. *)
From S2P Require Import Prelude Writer Headers Response.
From S2P Require Reader.

(** A reply's filter (a coder) and its delegate for the head are code outside the engine: what the
engine relies on is how it calls them. [filter_run] takes the coder, input, the room for output and the
operation, and gives its result (1: more output than fit, 0: done, -1), the input consumed, the output and
the coder as it is then; [head_call] may shape the reply and install a filter. *)
Inductive ioxd_filter_op := IOXD_FILTER_MORE | IOXD_FILTER_FLUSH | IOXD_FILTER_FINISH.

Class Hooks := {
  Coder : Type;
  filter_run : Coder -> bytes -> nat -> ioxd_filter_op -> Z * nat * bytes * Coder;
  Delegate : Type;
  head_call : Delegate -> ioxd_request -> ioxd_response -> nat -> bool -> ioxd_response * option Coder
}.

Section Context.
Context {W : Type} `{Hooks}.

Record ctx := {
  req : ioxd_request; res : ioxd_response;
  inp : Reader.pipereader; kern : Reader.rworld;
  out : pipewriter; coded : pipewriter; net : W;
  body : Reader.where_;
  body_read : Z; body_done : bool; body_whole : bool; body_err : Z; chunk_left : Z;
  head_only : bool; no_body : bool; continue_sent : bool;
  on_head : option Delegate; filter : option Coder
}.

Implicit Types c : ctx.

Definition set_req c (r : ioxd_request) : ctx :=
  {| req := r; res := res c; inp := inp c; kern := kern c; out := out c; coded := coded c; net := net c; body := body c;
     body_read := body_read c; body_done := body_done c; body_whole := body_whole c; body_err := body_err c; chunk_left := chunk_left c;
     head_only := head_only c; no_body := no_body c; continue_sent := continue_sent c; on_head := on_head c; filter := filter c |}.
Definition set_res c (r : ioxd_response) : ctx :=
  {| req := req c; res := r; inp := inp c; kern := kern c; out := out c; coded := coded c; net := net c; body := body c;
     body_read := body_read c; body_done := body_done c; body_whole := body_whole c; body_err := body_err c; chunk_left := chunk_left c;
     head_only := head_only c; no_body := no_body c; continue_sent := continue_sent c; on_head := on_head c; filter := filter c |}.
Definition set_in c (pr : Reader.pipereader) (k : Reader.rworld) : ctx :=
  {| req := req c; res := res c; inp := pr; kern := k; out := out c; coded := coded c; net := net c; body := body c;
     body_read := body_read c; body_done := body_done c; body_whole := body_whole c; body_err := body_err c; chunk_left := chunk_left c;
     head_only := head_only c; no_body := no_body c; continue_sent := continue_sent c; on_head := on_head c; filter := filter c |}.
Definition set_out c (pw cw : pipewriter) (w : W) : ctx :=
  {| req := req c; res := res c; inp := inp c; kern := kern c; out := pw; coded := cw; net := w; body := body c;
     body_read := body_read c; body_done := body_done c; body_whole := body_whole c; body_err := body_err c; chunk_left := chunk_left c;
     head_only := head_only c; no_body := no_body c; continue_sent := continue_sent c; on_head := on_head c; filter := filter c |}.
Definition set_body c (b : Reader.where_) (rd : Z) (done whole : bool) (err left : Z) : ctx :=
  {| req := req c; res := res c; inp := inp c; kern := kern c; out := out c; coded := coded c; net := net c; body := b;
     body_read := rd; body_done := done; body_whole := whole; body_err := err; chunk_left := left;
     head_only := head_only c; no_body := no_body c; continue_sent := continue_sent c; on_head := on_head c; filter := filter c |}.
Definition set_flags c (ho nb cs : bool) (h : option Delegate) (f : option Coder) : ctx :=
  {| req := req c; res := res c; inp := inp c; kern := kern c; out := out c; coded := coded c; net := net c; body := body c;
     body_read := body_read c; body_done := body_done c; body_whole := body_whole c; body_err := body_err c; chunk_left := chunk_left c;
     head_only := ho; no_body := nb; continue_sent := cs; on_head := h; filter := f |}.

Definition set_no_body c (b : bool) : ctx := set_flags c (head_only c) b (continue_sent c) (on_head c) (filter c).
Definition set_continue_sent c : ctx := set_flags c (head_only c) (no_body c) true (on_head c) (filter c).
Definition set_hooks c (h : option Delegate) (f : option Coder) : ctx := set_flags c (head_only c) (no_body c) (continue_sent c) h f.

Definition set_body_err c (e : Z) : ctx := set_body c (body c) (body_read c) (body_done c) (body_whole c) e (chunk_left c).
Definition set_body_done c : ctx := set_body c (body c) (body_read c) true (body_whole c) (body_err c) (chunk_left c).
Definition set_chunk_left c (n : Z) : ctx := set_body c (body c) (body_read c) (body_done c) (body_whole c) (body_err c) n.
Definition set_body_read c (n : Z) : ctx := set_body c (body c) n (body_done c) (body_whole c) (body_err c) (chunk_left c).
End Context.
Arguments ctx _ {_}.
