(* ===== verification/Reply.v ===== *)
(** The reply of lib/http/engine.c: the slab a handler writes into, the head in front of the first send,
    how the body is framed (a length, chunks, until close, none), the coding of a body through a filter,
    and the end of a reply. *)
From S2P Require Import Prelude Writer Headers Response Context.

#[local] Arguments Nat.ltb : simpl never.
#[local] Arguments Nat.leb : simpl never.
#[local] Arguments lit : simpl never.

Definition IOXD_DRAIN_MAX : Z := 1024 * 1024.
Inductive flush_kind := FLUSH_FULL | FLUSH_ASKED | FLUSH_FINAL.

(** [memcpy] to an offset of the slab. *)
Definition store (pw : pipewriter) (at_ : nat) (d : bytes) : pipewriter := set_buf pw (blit (buf pw) at_ d).

Definition put_terminator : bytes := ch "0" :: CRLF ++ CRLF.

(** The slab's bytes as one chunk: the size line in front, CRLF behind. *)
Definition frame_chunk (pw : pipewriter) : bool * pipewriter :=
  let size_line := put_hex (Z.of_nat (len pw)) in
  let '(front, pw) := ioxd__pipewriter_front pw (length size_line + 2) in
  let '(back, pw) := ioxd__pipewriter_back pw 2 in
  match front, back with
  | Some f, Some b => (true, store (store pw f (size_line ++ CRLF)) b CRLF)
  | _, _ => (false, pw)
  end.

Section Reply.
Context {W : Type} `{Sender W} `{Hooks}.
Implicit Types (c : ctx W) (pw : pipewriter) (w : W).

(** [send_status]: [head[128]] bounds what is sent. *)
Definition status_reply (code : Z) : bytes :=
  take 127 (lit "HTTP/1.1 " ++ put_uint code ++ lit " " ++ ioxd_reason code ++ CRLF ++ lit "content-length: 0" ++ CRLF ++
            lit "connection: close" ++ CRLF ++ CRLF).
Definition send_status pw (code : Z) w : pipewriter * W :=
  let '(_, pw, w) := ioxd__pipewriter_send (ioxd__pipewriter_reset pw) (status_reply code) w in (pw, w).

Definition fail c : ctx W := set_res c (set_failed (res c)).

(** The head in front of the span, or on its own ahead of it when the lead has no room. *)
Definition put_in_front pw (head : bytes) w : bool * pipewriter * W :=
  match ioxd__pipewriter_front pw (length head) with
  | (Some f, pw) => (true, store pw f head, w)
  | (None, pw) => ioxd__pipewriter_through pw head w
  end.

(** The head is the bytes still to send in front, empty once they went out. *)
Definition send_coded c (head : bytes) : bool * bytes * ctx W :=
  let r := res c in
  let c := set_res c (set_body_sent r (wrap64 (body_sent r + Z.of_nat (len (coded c))))) in
  let '(ok, cw) := if chunked r && (0 <? len (coded c)) then frame_chunk (coded c) else (true, coded c) in
  let c := set_out c (out c) cw (net c) in
  if negb ok then (false, head, fail c)
  else
    let '(ok, head, c) :=
      if 0 <? length head then
        match put_in_front (coded c) head (net c) with
        | (true, cw, w) => (true, [], set_out c (out c) cw w)
        | (false, cw, w) => (false, head, set_out c (out c) cw w)
        end
      else (true, head, c) in
    if negb ok then (false, head, fail c)
    else
      match ioxd__pipewriter_flush (coded c) (net c) with
      | (true, cw, w) => (true, head, set_out c (out c) cw w)
      | (false, cw, w) => (false, head, fail (set_out c (out c) cw w))
      end.

(** The loop of [encode] over the slab's bytes [inp_]; [head] is absent for a body coded whole. [None]
is a filter that never ends. *)
Fixpoint encode_loop (fuel : nat) c (f : Coder) (op : ioxd_filter_op) (inp_ : bytes) (head : option bytes)
  : option (bool * option bytes * ctx W) :=
  match fuel with
  | 0 => None
  | S fuel' =>
      let room := ioxd__pipewriter_room (coded c) in
      let '(rc, in_len, outp, f) := filter_run f inp_ room op in
      let c := set_hooks c (on_head c) (Some f) in
      if (rc <? 0)%Z || (length inp_ <? in_len) || (room <? length outp) then Some (false, head, fail c)
      else
        let inp_ := drop in_len inp_ in
        let cw := ioxd__pipewriter_advance (store (coded c) (ioxd__pipewriter_at (coded c)) outp) (length outp) in
        let c := set_out c (out c) cw (net c) in
        if (rc =? 0)%Z && (length inp_ =? 0) then Some (true, head, c)
        else if ioxd__pipewriter_room (coded c) =? 0 then
          match head with
          | None => Some (false, head, fail c)
          | Some h =>
              match send_coded c h with
              | (false, h, c) => Some (false, Some h, fail c)
              | (true, h, c) => encode_loop fuel' c f op inp_ (Some h)
              end
          end
        else if (in_len =? 0) && (length outp =? 0) then Some (false, head, fail c)
        else encode_loop fuel' c f op inp_ head
  end.

Definition encode (fuel : nat) c (op : ioxd_filter_op) (head : option bytes) : option (bool * option bytes * ctx W) :=
  match filter c with
  | None => Some (true, head, c)
  | Some f =>
      match encode_loop fuel c f op (span (buf (out c)) (lead (out c)) (len (out c))) head with
      | Some (true, head, c) => Some (true, head, set_out c (set_spans (out c) (Writer.head (out c)) 0 (tail (out c))) (coded c) (net c))
      | r => r
      end
  end.

(** [flush_with], in the order of the code. First the delegate for the head. *)
Definition run_delegate c (final : bool) : ctx W :=
  match on_head c with
  | Some fn =>
      if negb (head_sent (res c)) && negb (head_only c) then
        let '(r, f) := head_call fn (req c) (res c) (len (out c)) final in
        let c := set_res (set_hooks c None (filter c)) r in
        set_hooks c None (match f with Some f => Some f | None => filter c end)
      else c
  | None => c
  end.

Definition has_filter c : bool := match filter c with Some _ => true | None => false end.

(** The writer that sends: the coded one when the body goes through a filter. *)
Definition sw (coding : bool) c : pipewriter := if coding then coded c else out c.
Definition set_sw (coding : bool) c pw w : ctx W := if coding then set_out c (out c) pw w else set_out c pw (coded c) w.

Definition bodyless (status : Z) : bool := ((status <? 200) || (status =? 204) || (status =? 304))%Z.

(** The first send decides the framing and serializes the head. *)
Definition decide_framing c (coding final : bool) : framing * Z * ctx W :=
  let status := wire_status (status (res c)) in
  let bl := bodyless status in
  let c := set_no_body c (head_only c || bl) in
  let declared := has_length (res c) && (negb final || no_body c) in
  let body_len := if declared then content_length (res c) else Z.of_nat (len (sw coding c)) in
  let c := if has_length (res c) && negb declared then set_res c (set_length (res c) (Z.of_nat (len (sw coding c))) true) else c in
  if bl then ((if (status =? 304)%Z && has_length (res c) then FRAME_LENGTH else FRAME_NONE), body_len, c)
  else if negb (has_length (res c)) && negb final then
    if (1 <=? minor_version (req c))%Z then (FRAME_CHUNKED, body_len, set_res c (set_chunked (res c)))
    else (FRAME_UNTIL_CLOSE, body_len, set_res c (set_close (res c) true))
  else (FRAME_LENGTH, body_len, c).

(** A body left unread that is more than the drain takes, or may never come, means close. *)
Definition close_if_unread c : ctx W :=
  if negb (body_done c) && (body_err c =? 0)%Z then
    let left := if Headers.chunked (req c) then SIZE_MAX else wrap64 (req_content_length (req c) - body_read c) in
    if (IOXD_DRAIN_MAX <? left)%Z || (req_expect_continue (req c) && negb (continue_sent c))
    then set_res c (set_close (res c) true) else c
  else c.

Definition settle_head c (coding final : bool) : bool * bytes * ctx W :=
  if head_sent (res c) then (true, [], c)
  else
    let '(f, body_len, c) := decide_framing c coding final in
    let c := close_if_unread c in
    match build_head (req_keep_alive (req c)) (minor_version (req c)) (res c) IOXD_HEAD_CAP f body_len with
    | None => let '(pw, w) := send_status (out c) 500 (net c) in (false, [], fail (set_out c pw (coded c) w))
    | Some head => (true, head, set_res c (set_sent (res c)))
    end.

(** Never a byte past the declared length: what is sent of the slab and of [extra]. *)
Definition clamp c (coding : bool) (extra : bytes) : bool * bytes * ctx W :=
  if has_length (res c) then
    let left := wrap64 (content_length (res c) - body_sent (res c)) in
    let pw := sw coding c in
    let over1 := (left <? Z.of_nat (len pw))%Z in
    let pw := if over1 then set_spans pw (Writer.head pw) (Z.to_nat left) (tail pw) else pw in
    let left := (left - Z.of_nat (len pw))%Z in
    let over2 := (left <? Z.of_nat (length extra))%Z in
    let extra := if over2 then take (Z.to_nat left) extra else extra in
    (over1 || over2, extra, set_sw coding c pw (net c))
  else (false, extra, c).

(** The frame around what goes out, then the send. *)
Definition send_framed c (coding final : bool) (head extra : bytes) : bool * ctx W :=
  let pw := sw coding c in
  let '(ok, pw) := if chunked (res c) && (0 <? len pw) then frame_chunk pw else (true, pw) in
  if negb ok then (false, fail (set_sw coding c pw (net c)))
  else
    let '(ok, pw) :=
      if final && chunked (res c) then
        match ioxd__pipewriter_back pw 5 with
        | (Some b, pw) => (true, store pw b put_terminator)
        | (None, pw) => (false, pw)
        end
      else (true, pw) in
    if negb ok then (false, fail (set_sw coding c pw (net c)))
    else
      let '(ok, pw, w) := if 0 <? length head then put_in_front pw head (net c) else (true, pw, net c) in
      if negb ok then (false, fail (set_sw coding c pw w))
      else
        match ioxd__pipewriter_flush_with pw extra w with
        | (true, pw, w) => (true, set_sw coding c pw w)
        | (false, pw, w) => (false, fail (set_sw coding c pw w))
        end.

Definition kind_op (kind : flush_kind) : ioxd_filter_op :=
  match kind with FLUSH_FINAL => IOXD_FILTER_FINISH | FLUSH_ASKED => IOXD_FILTER_FLUSH | FLUSH_FULL => IOXD_FILTER_MORE end.

Definition is_final (kind : flush_kind) : bool := match kind with FLUSH_FINAL => true | _ => false end.

(** The rest of [flush_with], once the head is settled. *)
Definition flush_body (fuel : nat) c (kind : flush_kind) (coding whole : bool) (head extra : bytes) : option (bool * ctx W) :=
  let final := is_final kind in
  if no_body c then
    let c := set_out c (ioxd__pipewriter_reset (out c)) (ioxd__pipewriter_reset (coded c)) (net c) in
    if 0 <? length head then
      match ioxd__pipewriter_through (out c) head (net c) with
      | (true, pw, w) => Some (true, set_out c pw (coded c) w)
      | (false, pw, w) => Some (false, fail (set_out c pw (coded c) w))
      end
    else Some (true, c)
  else
    match (if coding && negb whole then encode fuel c (kind_op kind) (Some head) else Some (true, Some head, c)) with
    | None => None
    | Some (false, _, c) => Some (false, c)
    | Some (true, head, c) =>
        let head := default [] head in
        let '(over, extra, c) := clamp c coding extra in
        let r := res c in
        let c := set_res c (set_body_sent r (wrap64 (body_sent r + Z.of_nat (len (sw coding c) + length extra)))) in
        match send_framed c coding final head extra with
        | (false, c) => Some (false, c)
        | (true, c) => if over then Some (false, fail c) else Some (true, c)
        end
    end.

Definition flush_with (fuel : nat) c (kind : flush_kind) (extra : bytes) : option (bool * ctx W) :=
  if failed (res c) then Some (false, c)
  else
    let final := is_final kind in
    let c := run_delegate c final in
    let coding := has_filter c && negb (head_only c) in
    let whole := coding && negb (head_sent (res c)) && final in
    let c := if coding && negb (head_sent (res c)) && negb whole then set_res c (set_length (res c) (content_length (res c)) false) else c in
    match (if whole then encode fuel c IOXD_FILTER_FINISH None else Some (true, None, c)) with
    | None => None
    | Some (false, _, c) => Some (false, c)
    | Some (true, _, c) =>
        match settle_head c coding final with
        | (false, _, c) => Some (false, c)
        | (true, head, c) => flush_body fuel c kind coding whole head extra
        end
    end.

Definition flush (fuel : nat) c (kind : flush_kind) : option (bool * ctx W) := flush_with fuel c kind [].

(** Whether body bytes go out as they are. *)
Definition raw_framed c : bool :=
  match on_head c, filter c with
  | None, None => if head_sent (res c) then negb (chunked (res c)) else has_length (res c) || (minor_version (req c) =? 0)%Z
  | _, _ => false
  end.

(** [finish]: what is still to be sent, then a declared length that was not reached closes. *)
Definition finish_send (fuel : nat) c : option (bool * ctx W) :=
  if negb (head_sent (res c)) || (0 <? len (out c)) || has_filter c then flush fuel c FLUSH_FINAL
  else if chunked (res c) then
    match ioxd__pipewriter_back (out c) 5 with
    | (None, pw) => Some (false, fail (set_out c pw (coded c) (net c)))
    | (Some b, pw) =>
        match ioxd__pipewriter_flush (store pw b put_terminator) (net c) with
        | (true, pw, w) => Some (true, set_out c pw (coded c) w)
        | (false, pw, w) => Some (false, fail (set_out c pw (coded c) w))
        end
    end
  else Some (true, c).

Definition close_if_short c : ctx W :=
  if has_length (res c) && negb (no_body c) && negb (body_sent (res c) =? content_length (res c))%Z
  then set_res c (set_close (res c) true) else c.

Definition finish (fuel : nat) c : option (bool * ctx W) :=
  if failed (res c) then Some (false, c)
  else match finish_send fuel c with Some (true, c) => Some (true, close_if_short c) | r => r end.

(** ** What a handler calls *)

(** The loop of [ioxd_write]: each round fills the slab or empties it. *)
Fixpoint write_loop (fuel efuel : nat) c (src : bytes) : option (bool * ctx W) :=
  if length src =? 0 then Some (true, c)
  else
    match fuel with
    | 0 => None
    | S fuel' =>
        let room := ioxd__pipewriter_room (out c) in
        if room =? 0 then
          match flush efuel c FLUSH_FULL with
          | Some (true, c) => write_loop fuel' efuel c src
          | r => r
          end
        else
          let n := if length src <? room then length src else room in
          let pw := ioxd__pipewriter_advance (store (out c) (ioxd__pipewriter_at (out c)) (take n src)) n in
          write_loop fuel' efuel (set_out c pw (coded c) (net c)) (drop n src)
    end.

Definition ioxd_write (efuel : nat) c (data : bytes) : option (bool * ctx W) :=
  if failed (res c) then Some (false, c)
  else if (ioxd__pipewriter_room (out c) <? length data) && raw_framed c then flush_with efuel c FLUSH_FULL data
  else write_loop (2 * length data + 1) efuel c data.

Definition ioxd_text (efuel : nat) c (s : option bytes) : option (bool * ctx W) :=
  match s with Some s => ioxd_write efuel c s | None => Some (true, c) end.

(** [vsnprintf] into the slab with [size] bytes: what fits, and a NUL. *)
Definition format_at pw (size : nat) (text : bytes) : pipewriter :=
  if size =? 0 then pw else store pw (ioxd__pipewriter_at pw) (take (size - 1) text ++ [0%Z]).

(** [ioxd_printf]; [text] is what the format comes to, absent on a formatting error, and [heap] whether
[malloc] gives memory for it. *)
Definition ioxd_printf (efuel : nat) c (text : option bytes) (heap : bool) : option (bool * ctx W) :=
  if failed (res c) then Some (false, c)
  else
    match text with
    | None => Some (false, c)
    | Some text =>
        let room := ioxd__pipewriter_room (out c) in
        let n := length text in
        let c := set_out c (format_at (out c) room text) (coded c) (net c) in
        if n <? room then Some (true, set_out c (ioxd__pipewriter_advance (out c) n) (coded c) (net c))
        else if cap (out c) <=? n then
          if heap then ioxd_write efuel c text else Some (false, fail c)
        else
          match flush efuel c FLUSH_FULL with
          | Some (true, c) =>
              Some (true, set_out c (ioxd__pipewriter_advance (format_at (out c) (cap (out c)) text) n) (coded c) (net c))
          | r => r
          end
    end.

Definition ioxd_flush (efuel : nat) c : option (bool * ctx W) := flush efuel c FLUSH_ASKED.

Definition ioxd_on_head c (fn : option Delegate) : bool * ctx W :=
  if head_sent (res c) then (false, c) else (true, set_hooks c fn (filter c)).

Definition ioxd_reply_filter c (f : Coder) : bool * ctx W :=
  if head_sent (res c) || has_filter c then (false, c) else (true, set_hooks c (on_head c) (Some f)).

(** The offset to write [n] bytes at. *)
Definition ioxd_reserve (efuel : nat) c (n : nat) : option (option nat * ctx W) :=
  if failed (res c) || (cap (out c) <? n) then Some (None, c)
  else if ioxd__pipewriter_room (out c) <? n then
    match flush efuel c FLUSH_FULL with
    | Some (true, c) => Some (Some (ioxd__pipewriter_at (out c)), c)
    | Some (false, c) => Some (None, c)
    | None => None
    end
  else Some (Some (ioxd__pipewriter_at (out c)), c).

Definition ioxd_advance c (n : nat) : ctx W := set_out c (ioxd__pipewriter_advance (out c) n) (coded c) (net c).
End Reply.

(** ** Frames in the slab *)

Definition chunk_text (d : bytes) : bytes := put_hex (Z.of_nat (length d)) ++ CRLF ++ d ++ CRLF.

(** The data bytes waiting in a slab. *)
Definition data (pw : pipewriter) : bytes := span (buf pw) (lead pw) (len pw).

(** A slab with nothing framed yet, on a connection that did not fail. *)
Record idle (pw : pipewriter) : Prop := {
  id_ok : writer_ok pw; id_head : Writer.head pw = 0; id_tail : tail pw = 0; id_failed : Writer.failed pw = false
}.

Lemma pending_idle pw : idle pw -> pending pw = data pw.
Proof. intros [_ Hh Ht _]. unfold pending, data. rewrite Hh, Ht. f_equal; lia. Qed.

Lemma length_data pw : idle pw -> length (data pw) = len pw.
Proof. intros [Hok _ _ _]. unfold data. rewrite length_span; [done|]. destruct Hok. lia. Qed.

Lemma front_pending pw n f pw' d :
  writer_ok pw -> ioxd__pipewriter_front pw n = (Some f, pw') -> length d = n ->
  pending (store pw' f d) = d ++ pending pw /\ writer_ok (store pw' f d) /\ len (store pw' f d) = len pw /\
  tail (store pw' f d) = tail pw /\ Writer.failed (store pw' f d) = Writer.failed pw /\ same_slab pw (store pw' f d).
Proof.
  intros [B1 B2 B3 B4] Hf Hd. unfold ioxd__pipewriter_front in Hf. destruct (Nat.ltb_spec (lead pw - Writer.head pw) n) as [|Hn]; [done|].
  injection Hf as <- <-. cbn. split; [|split; [split; cbn; try lia; rewrite length_blit; lia|done]].
  unfold pending, store. cbn. replace (Writer.head pw + n + len pw + tail pw) with (n + (Writer.head pw + len pw + tail pw)) by lia.
  rewrite <- span_app_join, <- Hd, span_blit_same by lia. f_equal. rewrite span_blit_after by lia. f_equal; lia.
Qed.

Lemma back_pending pw n b pw' d :
  writer_ok pw -> ioxd__pipewriter_back pw n = (Some b, pw') -> length d = n ->
  pending (store pw' b d) = pending pw ++ d /\ writer_ok (store pw' b d) /\ len (store pw' b d) = len pw /\
  Writer.failed (store pw' b d) = Writer.failed pw /\ same_slab pw (store pw' b d).
Proof.
  intros [B1 B2 B3 B4] Hf Hd. unfold ioxd__pipewriter_back in Hf. destruct (Nat.ltb_spec (slack pw - tail pw) n) as [|Hn]; [done|].
  injection Hf as <- <-. cbn. split; [|split; [split; cbn; try lia; rewrite length_blit; lia|done]].
  unfold pending, store. cbn. replace (Writer.head pw + len pw + (tail pw + n)) with ((Writer.head pw + len pw + tail pw) + n) by lia.
  rewrite <- span_app_join. f_equal.
  - apply span_blit_before; lia.
  - replace (lead pw - Writer.head pw + (Writer.head pw + len pw + tail pw)) with (lead pw + len pw + tail pw) by lia.
    rewrite <- Hd. apply span_blit_same. lia.
Qed.

(** Storing in front and at the back can be done in either order. *)
Lemma frame_chunk_spec pw pw' : idle pw -> frame_chunk pw = (true, pw') ->
  pending pw' = chunk_text (data pw) /\ writer_ok pw' /\ len pw' = len pw /\ Writer.failed pw' = false /\ same_slab pw pw'.
Proof.
  intros Hid Hf. unfold frame_chunk in Hf. set (line := put_hex (Z.of_nat (len pw))) in *.
  destruct (ioxd__pipewriter_front pw (length line + 2)) as [[f|] pw1] eqn:E1; [|destruct (ioxd__pipewriter_back pw1 2); done].
  destruct (ioxd__pipewriter_back pw1 2) as [[b|] pw2] eqn:E2; [|done]. injection Hf as <-.
  destruct (front_pending pw _ f pw1 (line ++ CRLF) (id_ok _ Hid) E1) as (P1 & O1 & L1 & T1 & F1 & S1); [rewrite length_app; done|].
  assert (E2' : ioxd__pipewriter_back (store pw1 f (line ++ CRLF)) 2 = (Some b, store pw2 f (line ++ CRLF))).
  { unfold ioxd__pipewriter_back in *. cbn. destruct (_ <? 2); [done|]. injection E2 as <- <-. done. }
  destruct (back_pending _ 2 b _ CRLF O1 E2' eq_refl) as (P2 & O2 & L2 & F2 & S2).
  split_and!; [|done|congruence|rewrite F2, F1; apply Hid|unfold same_slab in *; cbn in *; intuition congruence].
  rewrite P2, P1, (pending_idle _ Hid). unfold chunk_text. rewrite length_data by done. by rewrite <- !app_assoc.
Qed.

Section Replies.
Context {W : Type} `{Sender W, !SenderLaws W} `{Hooks}.
Implicit Types (c : ctx W) (pw : pipewriter) (w : W).

Lemma put_in_front_spec pw h w pw' w' : writer_ok pw -> Writer.failed pw = false -> put_in_front pw h w = (true, pw', w') ->
  writer_ok pw' /\ Writer.failed pw' = false /\ same_slab pw pw' /\ len pw' = len pw /\ Writer.wire w' ++ pending pw' = Writer.wire w ++ h ++ pending pw.
Proof.
  intros Hok Hf Hp. unfold put_in_front in Hp. destruct (ioxd__pipewriter_front pw (length h)) as [[f|] pw1] eqn:E.
  - injection Hp as <- <-. destruct (front_pending _ _ _ _ h Hok E eq_refl) as (P & O & L & _ & F & S). split_and!; try done; [congruence|by rewrite P].
  - assert (pw1 = pw) as ->.
    { unfold ioxd__pipewriter_front in E. destruct (_ <? _); by injection E. }
    pose proof Hp as Hl. apply through_spec in Hp as (O & S & P & _ & F); [|done]. rewrite Hf in F. destruct F as [F Hw].
    split_and!; try done.
    + unfold ioxd__pipewriter_through in Hl. rewrite Hf in Hl. destruct (conn_send h w) as [rc ?]. destruct (rc <? 0)%Z; [done|by injection Hl as <- <-].
    + apply sent_some_true in Hw. by rewrite Hw, P, <- app_assoc.
Qed.

(** The bytes one send puts on the wire around the slab's data. *)
Definition framed_data (chk final : bool) (d : bytes) : bytes :=
  (if chk && (0 <? length d) then chunk_text d else d) ++ (if final && chk then put_terminator else []).

Lemma emptied pw pw' : writer_ok pw' -> Writer.failed pw' = false -> Writer.head pw' = 0 -> tail pw' = 0 -> idle pw'.
Proof. by split. Qed.

Lemma send_framed_spec c final h extra ok c' : idle (out c) -> send_framed c false final h extra = (ok, c') ->
  if ok then
    Writer.wire (net c') = Writer.wire (net c) ++ h ++ framed_data (chunked (res c)) final (data (out c)) ++ extra /\
    idle (out c') /\ len (out c') = 0 /\ same_slab (out c) (out c') /\ c' = set_out c (out c') (coded c) (net c')
  else failed (res c') = true.
Proof.
  intros Hid Hs. unfold send_framed in Hs. cbn [sw set_sw] in Hs.
  destruct (if chunked (res c) && (0 <? len (out c)) then _ else _) as [ok1 pw1] eqn:E1.
  destruct ok1; cbn [negb] in Hs; [|by injection Hs as <- <-].
  assert (H1 : pending pw1 = (if chunked (res c) && (0 <? length (data (out c))) then chunk_text (data (out c)) else data (out c)) /\
    writer_ok pw1 /\ Writer.failed pw1 = false /\ same_slab (out c) pw1).
  { rewrite length_data by done. destruct (chunked (res c) && (0 <? len (out c))).
    - apply frame_chunk_spec in E1 as (? & ? & _ & ? & ?); [|done]. done.
    - injection E1 as <-. split_and!; try apply Hid; [by apply pending_idle|done]. }
  destruct H1 as (P1 & O1 & F1 & S1). clear E1.
  destruct (if final && chunked (res c) then _ else _) as [ok2 pw2] eqn:E2.
  destruct ok2; cbn [negb] in Hs; [|by injection Hs as <- <-].
  assert (H2 : pending pw2 = framed_data (chunked (res c)) final (data (out c)) /\ writer_ok pw2 /\ Writer.failed pw2 = false /\ same_slab (out c) pw2).
  { unfold framed_data. destruct (final && chunked (res c)).
    - destruct (ioxd__pipewriter_back pw1 5) as [[b|] pw3] eqn:Eb; [|done]. injection E2 as <-.
      destruct (back_pending _ _ _ _ put_terminator O1 Eb eq_refl) as (P & O & _ & F & S).
      split_and!; [by rewrite P, P1|done|congruence|unfold same_slab in *; cbn in *; intuition congruence].
    - injection E2 as <-. by rewrite app_nil_r. }
  destruct H2 as (P2 & O2 & F2 & S2). clear E2.
  destruct (if 0 <? length h then _ else _) as [[ok3 pw3] w3] eqn:E3.
  destruct ok3; cbn [negb] in Hs; [|by injection Hs as <- <-].
  assert (H3 : Writer.wire w3 ++ pending pw3 = Writer.wire (net c) ++ h ++ pending pw2 /\ writer_ok pw3 /\ Writer.failed pw3 = false /\ same_slab (out c) pw3).
  { destruct (Nat.ltb_spec 0 (length h)).
    - apply put_in_front_spec in E3 as (O & F & S & _ & Hw); [|done..]. split_and!; try done. unfold same_slab in *; intuition congruence.
    - injection E3 as <- <-. by destruct h; [|cbn in *; lia]. }
  destruct H3 as (P3 & O3 & F3 & S3). clear E3.
  destruct (ioxd__pipewriter_flush_with pw3 extra w3) as [[ok4 pw4] w4] eqn:E4. apply flush_with_spec in E4 as (O4 & S4 & E4); [|done].
  rewrite F3 in E4. destruct E4 as (F4 & _ & L4 & Hh4 & T4 & _ & Hw4). destruct ok4; injection Hs as <- <-; [|done].
  cbn. split_and!; try done.
  - apply sent_some_true in Hw4. by rewrite Hw4, app_assoc, P3, P2, <- !app_assoc.
  - unfold same_slab in *; intuition congruence.
Qed.

(** ** What a reply has put on the wire

    For a reply without a filter (nor a delegate, unless the request is a HEAD) to a request with persistence
    [kp], minor version [mv] and method HEAD or not [ho]; [base] is what the connection had been sent before. *)
Variables (kp : bool) (mv : Z) (ho : bool) (base : bytes).

(** The head on the wire, and what decided it. *)
Definition head_built c (h : bytes) (f : framing) (n : Z) : Prop :=
  exists r0, build_head kp mv r0 IOXD_HEAD_CAP f n = Some h /\ head_sent (res c) = true /\
    no_body c = ho || bodyless (wire_status (status r0)) /\ (f = FRAME_UNTIL_CLOSE -> close r0 = true).

(** The body bytes on the wire and the data they carry, while the reply goes on. *)
Inductive so_far (r : ioxd_response) : framing -> Z -> bytes -> bytes -> Prop :=
| so_length b : has_length r = true -> chunked r = false -> body_sent r = Z.of_nat (length b) ->
    (Z.of_nat (length b) <= content_length r)%Z -> so_far r FRAME_LENGTH (content_length r) b b
| so_chunks n ds : has_length r = false -> chunked r = true -> Forall (fun d => d <> []) ds ->
    so_far r FRAME_CHUNKED n (concat ds) (concat (map chunk_text ds))
| so_close n b : has_length r = false -> chunked r = false -> close r = true -> so_far r FRAME_UNTIL_CLOSE n b b.

Lemma so_far_ext r r' f n S b :
  has_length r' = has_length r -> chunked r' = chunked r -> body_sent r' = body_sent r -> content_length r' = content_length r ->
  (close r = true -> close r' = true) -> so_far r f n S b -> so_far r' f n S b.
Proof.
  intros E1 E2 E3 E4 E5 [b' ? ? ? ?|k ds ? ? ?|k b' ? ? ?].
  - rewrite <- E4. apply so_length; congruence.
  - apply so_chunks; congruence.
  - apply so_close; auto; congruence.
Qed.

Record steady c : Prop := {
  st_hooks : filter c = None /\ (on_head c = None \/ head_only c = true);
  st_req : req_keep_alive (req c) = kp /\ minor_version (req c) = mv /\ head_only c = ho;
  st_out : idle (out c);
  st_cap : 0 < cap (out c) /\ (Z.of_nat (cap (out c)) <= SIZE_MAX)%Z;
  st_len : (0 <= content_length (res c) <= SIZE_MAX)%Z;
  st_live : failed (res c) = false
}.

(** [D] is all the data given to the reply. *)
Definition started c (D : bytes) : Prop :=
  exists h f n, head_built c h f n /\
    if no_body c then Writer.wire (net c) = base ++ h
    else exists S b, Writer.wire (net c) = base ++ h ++ b /\ so_far (res c) f n S b /\ D = S ++ data (out c).

Definition unstarted c (D : bytes) : Prop :=
  head_sent (res c) = false /\ Writer.wire (net c) = base /\ D = data (out c) /\ body_sent (res c) = 0%Z /\ chunked (res c) = false.

Definition reply_inv c (D : bytes) : Prop := steady c /\ (unstarted c D \/ started c D).

(** Between the decision on the head and the send: [hp] is the head still to go out. *)
Definition settled c (final : bool) (hp D : bytes) : Prop :=
  exists h f n b, head_built c h f n /\ Writer.wire (net c) ++ hp = base ++ h ++ b /\
    if no_body c then b = []
    else (exists S, so_far (res c) f n S b /\ D = S ++ data (out c)) \/
         (final = true /\ f = FRAME_LENGTH /\ has_length (res c) = false /\ chunked (res c) = false /\ b = [] /\
          n = Z.of_nat (len (out c)) /\ D = data (out c)).

Lemma steady_res c r : steady c -> (0 <= content_length r <= SIZE_MAX)%Z -> failed r = failed (res c) -> steady (set_res c r).
Proof. intros [] ? ?. split; cbn; try done. congruence. Qed.

Lemma close_if_unread_spec c : exists b, (b = close (res c) \/ b = true) /\ close_if_unread c = set_res c (set_close (res c) b).
Proof.
  assert (Hc : c = set_res c (set_close (res c) (close (res c)))) by (destruct c as [? r]; by destruct r).
  unfold close_if_unread. repeat case_match; eauto.
Qed.

Lemma settle_head_spec c D final ok hp c' :
  reply_inv c D -> settle_head c false final = (ok, hp, c') ->
  if ok then steady c' /\ settled c' final hp D /\ out c' = out c /\
     (raw_framed c = true -> no_body c' = false -> final = false -> chunked (res c') = false)
  else failed (res c') = true.
Proof.
  intros [Hst Hsh] Hs. unfold settle_head in Hs. destruct (head_sent (res c)) eqn:Ehs.
  { injection Hs as <- <- <-. destruct Hsh as [(Hu & _)|(h & f & n & Hb & Hsh)]; [congruence|].
    split; [done|]. split; [|split; [done|]].
    - exists h, f, n. destruct (no_body c) eqn:Enb.
      + exists []. split; [done|]. by rewrite !app_nil_r.
      + destruct Hsh as (S & b & Hw & Hso & HD). exists b. split; [done|]. rewrite app_nil_r. split; [done|]. left. by exists S.
    - unfold raw_framed. destruct (st_hooks _ Hst) as [-> _]. rewrite Ehs. destruct (on_head c); [done|]. intros Hr _ _. by apply negb_true_iff. }
  destruct Hsh as [(_ & Hw & HD & Hbs & Hck)|(h & f & n & (? & _ & ? & _) & _)]; [|congruence].
  destruct (decide_framing c false final) as [[f n] c1] eqn:Ed.
  destruct (close_if_unread_spec c1) as (cb & Hcb & Hcu). rewrite Hcu in Hs.
  destruct (build_head _ _ _ _ f n) as [h|] eqn:Eb; [|destruct (send_status _ _ _); by injection Hs as <- <- <-].
  injection Hs as <- <- <-. destruct Hst as [S1 (S2 & S3 & S4) S5 S6 S7 S8].
  unfold decide_framing in Ed. cbn [sw] in Ed.
  set (c2 := set_no_body c (head_only c || bodyless (wire_status (status (res c))))) in *.
  set (declared := has_length (res c2) && (negb final || no_body c2)) in *.
  set (c3 := if has_length (res c2) && negb declared then _ else c2) in *.
  assert (H3 : steady c3 /\ out c3 = out c /\ net c3 = net c /\ no_body c3 = no_body c2 /\ status (res c3) = status (res c) /\
    has_length (res c3) = has_length (res c) /\ chunked (res c3) = false /\ body_sent (res c3) = 0%Z /\ close (res c3) = close (res c) /\
    req c3 = req c /\ (has_length (res c) = true -> content_length (res c3) = if declared then content_length (res c2) else Z.of_nat (len (out c2)))).
  { assert (Hlc : (0 <= Z.of_nat (len (out c)) <= SIZE_MAX)%Z) by (destruct S5 as [[] _ _ _]; lia).
    unfold c3. destruct (has_length (res c2) && negb declared) eqn:E.
    - apply andb_true_iff in E as [E1 E2]. apply negb_true_iff in E2. rewrite E2. by split_and!.
    - split_and!; try done. intros Hl. unfold c2 in E. cbn in E. rewrite Hl in E. by apply negb_false_iff in E as ->. }
  clearbody c3. destruct H3 as (K1 & K2 & K3 & K4 & K5 & K6 & K7 & K8 & K9 & K10 & K11).
  assert (Hnb : no_body c2 = ho || bodyless (wire_status (status (res c)))) by (unfold c2; cbn; by rewrite S4).
  assert (Hfin : forall c1', steady c1' -> out c1' = out c -> net c1' = net c -> no_body c1' = no_body c2 -> status (res c1') = status (res c) ->
     build_head (req_keep_alive (req c1')) (minor_version (req c1')) (set_close (res c1') cb) IOXD_HEAD_CAP f n = Some h ->
     (f = FRAME_UNTIL_CLOSE -> cb = true) ->
     (no_body c2 = false -> so_far (set_close (res c1') cb) f n [] [] \/
        (final = true /\ f = FRAME_LENGTH /\ has_length (res c1') = false /\ chunked (res c1') = false /\ n = Z.of_nat (len (out c)))) ->
     let c' := set_res (set_res c1' (set_close (res c1') cb)) (set_sent (set_close (res c1') cb)) in
     steady c' /\ settled c' final h D /\ out c' = out c).
  { intros c1' T1 T2 T3 T4 T5 T6 T7 T8 c'. split; [|split; [|exact T2]].
    - apply steady_res; [|apply (st_len _ T1)|done]. apply steady_res; [done|apply (st_len _ T1)|done].
    - exists h, f, n, []. destruct (st_req _ T1) as (R1 & R2 & R3). split; [|split].
      + exists (set_close (res c1') cb). rewrite R1, R2 in T6. split_and!; try done. cbn. rewrite T4, Hnb. by rewrite T5.
      + cbn. rewrite T3, Hw, app_nil_r. done.
      + cbn. rewrite T4, T2. destruct (no_body c2); [done|]. destruct (T8 eq_refl) as [Hso|Hwh].
        * left. exists []. split; [|by rewrite HD]. by eapply so_far_ext; [..|exact Hso].
        * right. destruct Hwh as (? & ? & ? & ? & ?). by split_and!. }
  rewrite K6, K10 in Ed. cbn [out] in *.
  destruct (bodyless (wire_status (status (res c)))) eqn:Ebl.
  { assert (Hb2 : no_body c2 = true) by (rewrite Hnb; apply orb_true_r). injection Ed as Ef En <-.
    destruct (Hfin c3) as (F1 & F2 & F3); try done; [rewrite <- Ef; by destruct (_ && has_length (res c))|congruence]. }
  rewrite orb_false_r in Hnb.
  destruct (negb (has_length (res c)) && negb final) eqn:Enl.
  - apply andb_true_iff in Enl as [En1 En2]. apply negb_true_iff in En1, En2.
    destruct (1 <=? minor_version (req c))%Z eqn:Emv; injection Ed as Ef En <-.
    + destruct (Hfin (set_res c3 (set_chunked (res c3)))) as (F1 & F2 & F3); try done.
      { by apply steady_res; [|apply (st_len _ K1)|]. }
      { intros ->. done. }
      { intros _. left. rewrite <- Ef. apply (so_chunks _ _ []); [cbn; congruence|done|constructor]. }
      refine (conj F1 (conj F2 (conj F3 _))). unfold raw_framed. destruct S1 as [-> _]. destruct (on_head c); [done|]. rewrite Ehs, En1. cbn. intros Hz. bool_to_prop. lia.
    + destruct Hcb as [Hcb|Hcb]; cbn in Hcb; subst cb;
      (destruct (Hfin (set_res c3 (set_close (res c3) true))) as (F1 & F2 & F3); try done;
      [by apply steady_res; [|apply (st_len _ K1)|]|intros _; left; rewrite <- Ef; apply so_close; cbn; congruence]).
  - injection Ed as Ef En <-. destruct (Hfin c3) as (F1 & F2 & F3); try done; [by rewrite <- Ef|].
    intros Hb2. destruct (has_length (res c)) eqn:El.
    + left. rewrite <- Ef. replace n with (content_length (set_close (res c3) cb)) by (rewrite <- En; cbn; by rewrite K11).
      apply so_length; cbn; try done. apply (st_len _ K1).
    + right. cbn in Enl. apply negb_false_iff in Enl. split_and!; try done. rewrite <- En. unfold declared, c2. cbn. by rewrite El.
Qed.

(** *** The send *)

Lemma chunks_snoc ds d : concat (map chunk_text (ds ++ [d])) = concat (map chunk_text ds) ++ chunk_text d.
Proof. by rewrite map_app, concat_app; cbn; rewrite app_nil_r. Qed.

(** More data framed as the reply is. *)
Lemma so_far_more r r' f n S b d :
  so_far r f n S b -> has_length r' = has_length r -> chunked r' = chunked r -> content_length r' = content_length r ->
  (close r = true -> close r' = true) -> (0 <= content_length r <= SIZE_MAX)%Z ->
  body_sent r' = wrap64 (body_sent r + Z.of_nat (length d)) ->
  (has_length r = true -> (Z.of_nat (length d) <= wrap64 (content_length r - body_sent r))%Z) ->
  so_far r' f n (S ++ d) (b ++ framed_data (chunked r) false d).
Proof.
  intros Hso E1 E2 E3 E4 Hc E5 Hl. unfold framed_data. rewrite andb_false_l, app_nil_r.
  destruct Hso as [b' H1 H2 H3 H4|k ds H1 H2 H3|k b' H1 H2 H3]; rewrite H2 in *; cbn [andb].
  - specialize (Hl H1). rewrite H3 in Hl, E5. unfold SIZE_MAX, UINT64_MAX in Hc. rewrite wrap64_small in Hl by lia.
    rewrite wrap64_small in E5 by lia. rewrite <- E3. apply so_length; rewrite ?length_app; try congruence; rewrite ?E3; lia.
  - destruct (Nat.ltb_spec 0 (length d)) as [Hd|Hd].
    + rewrite <- chunks_snoc, <- (concat_snoc ds d). apply so_chunks; try congruence. apply Forall_app. split; [done|]. by repeat constructor; destruct d; [cbn in Hd; lia|].
    + destruct d; [|cbn in Hd; lia]. rewrite !app_nil_r. apply so_chunks; congruence.
  - apply so_close; auto; congruence.
Qed.

Lemma clamp_whole c extra extra' c' : clamp c false extra = (false, extra', c') ->
  extra' = extra /\ c' = c /\ (has_length (res c) = true ->
    (Z.of_nat (len (out c)) + Z.of_nat (length extra) <= wrap64 (content_length (res c) - body_sent (res c)))%Z).
Proof.
  unfold clamp. cbn [sw set_sw]. destruct (has_length (res c)); [|by intros [= <- <-]].
  set (left := wrap64 _). destruct (Z.ltb_spec left (Z.of_nat (len (out c)))) as [H1|H1]; cbn [orb]; [done|].
  destruct (Z.ltb_spec (left - Z.of_nat (len (out c))) (Z.of_nat (length extra))) as [H2|H2]; [done|].
  intros [= <- <-]. split; [done|]. split; [by destruct c|]. lia.
Qed.

(** A body sent whole, as the client must read it. *)
Inductive body_framed (closing : bool) : framing -> Z -> bytes -> bytes -> Prop :=
| bf_length D : body_framed closing FRAME_LENGTH (Z.of_nat (length D)) D D
| bf_short n D : (Z.of_nat (length D) < n)%Z -> closing = true -> body_framed closing FRAME_LENGTH n D D
| bf_chunks n ds : Forall (fun d => d <> []) ds -> body_framed closing FRAME_CHUNKED n (concat ds) (concat (map chunk_text ds) ++ put_terminator)
| bf_close n D : closing = true -> body_framed closing FRAME_UNTIL_CLOSE n D D.

(** A reply all of whose data [D] went out. *)
Definition finished c (D : bytes) : Prop :=
  exists h f n b, head_built c h f n /\ Writer.wire (net c) = base ++ h ++ b /\
    if no_body c then b = [] \/ (chunked (res c) = true /\ b = put_terminator) else body_framed (close (res c)) f n D b.

(** The same before [finish] has compared the length sent with the one declared. *)
Definition final_sent c (D : bytes) : Prop :=
  steady c /\ exists h f n b, head_built c h f n /\ Writer.wire (net c) = base ++ h ++ b /\
    if no_body c then b = [] \/ (chunked (res c) = true /\ b = put_terminator)
    else body_framed true f n D b /\ (f = FRAME_UNTIL_CLOSE -> close (res c) = true) /\
         (f = FRAME_LENGTH -> (Z.of_nat (length D) < n)%Z -> has_length (res c) = true /\ body_sent (res c) = Z.of_nat (length D) /\ content_length (res c) = n).

(** A send on a reply without a body: the head alone. *)
Lemma flush_no_body fuel c kind whole hp h extra ok c' :
  steady c -> no_body c = true -> Writer.wire (net c) ++ hp = base ++ h -> flush_body fuel c kind false whole hp extra = Some (ok, c') ->
  if ok then steady c' /\ Writer.wire (net c') = base ++ h /\ len (out c') = 0 /\ same_slab (out c) (out c') /\
     res c' = res c /\ no_body c' = true
  else failed (res c') = true.
Proof.
  intros Hst Hnb Hw Hf. unfold flush_body in Hf. rewrite Hnb in Hf. pose proof (st_out _ Hst) as [O1 O2 O3 O4].
  set (c1 := set_out c (ioxd__pipewriter_reset (out c)) (ioxd__pipewriter_reset (coded c)) (net c)) in *.
  assert (Hi1 : idle (out c1)) by (split; [by apply writer_ok_reset|done..]).
  assert (Hst1 : forall w, steady (set_out c1 (out c1) (coded c1) w)) by (intros; destruct Hst; by split).
  destruct (Nat.ltb_spec 0 (length hp)) as [Hl|Hl].
  - destruct (ioxd__pipewriter_through (out c1) hp (net c1)) as [[ok1 pw] w] eqn:Et. pose proof Et as Et'.
    apply through_spec in Et as (P1 & P2 & P3 & P4 & P5); [|apply Hi1]. rewrite (id_failed _ Hi1) in P5. destruct P5 as [P5 P6].
    destruct ok1; injection Hf as <- <-; [|done]. assert (pw = out c1) as ->.
    { unfold ioxd__pipewriter_through in Et'. rewrite (id_failed _ Hi1) in Et'. destruct (conn_send _ _) as [rc ?]. destruct (rc <? 0)%Z; [done|by injection Et' as <- <-]. }
    split_and!; try done. cbn. apply sent_some_true in P6. by rewrite P6.
  - injection Hf as <- <-. destruct hp; [|cbn in Hl; lia]. rewrite app_nil_r in Hw. split_and!; try done. by apply (Hst1 (net c)).
Qed.

(** One on a reply with a body: everything goes, or it fails. *)
Lemma flush_with_body fuel c kind hp hb extra ok c' :
  steady c -> no_body c = false -> Writer.wire (net c) ++ hp = hb -> flush_body fuel c kind false false hp extra = Some (ok, c') ->
  if ok then steady c' /\ Writer.wire (net c') = hb ++ framed_data (chunked (res c)) (is_final kind) (data (out c)) ++ extra /\
     len (out c') = 0 /\ same_slab (out c) (out c') /\ no_body c' = false /\
     res c' = set_body_sent (res c) (wrap64 (body_sent (res c) + Z.of_nat (length (data (out c)) + length extra))) /\
     (has_length (res c) = true ->
      (Z.of_nat (length (data (out c)) + length extra) <= wrap64 (content_length (res c) - body_sent (res c)))%Z)
  else failed (res c') = true.
Proof.
  intros Hst Hnb Hw Hf. unfold flush_body in Hf. rewrite Hnb in Hf. cbn [andb] in Hf.
  destruct (clamp c false _) as [[over extra'] c1] eqn:Ec. cbn [sw default] in Hf.
  assert (Hi : idle (out c1)).
  { clear -Hst Ec. unfold clamp in Ec. cbn [sw set_sw] in Ec. destruct Hst as [_ _ Hi _ _ _].
    destruct (has_length (res c)); injection Ec as <- <- <-; [|done]. cbn. case_match; [|done]. bool_to_prop.
    destruct Hi as [[] ? ? ?]. pose proof (Z.mod_pos_bound (content_length (res c) - body_sent (res c)) (2 ^ 64) ltac:(lia)).
    unfold wrap64 in *. split; cbn; try done. split; cbn; try done. lia. }
  destruct (send_framed _ _ _ _ _) as [ok1 c2] eqn:Es. apply send_framed_spec in Es; [|exact Hi].
  destruct ok1; [|by injection Hf as <- <-]. destruct over; [by injection Hf as <- <-|]. injection Hf as <- <-.
  apply clamp_whole in Ec as (-> & -> & Hroom). destruct Es as (Ew & Ei & El & Esl & Ec2).
  rewrite <- (length_data _ Hi) in Ec2, Hroom. cbn [res net chunked set_res out set_body_sent Response.set_flags] in Ew, Esl, Ec2.
  set (r' := set_body_sent (res c) _) in *. change (id hp) with hp in Ew.
  assert (Hr : res c2 = r' /\ no_body c2 = no_body c) by (rewrite Ec2; done). destruct Hr as [Hr Hnb'].
  split_and!; try done; [|by rewrite app_assoc, Hw in Ew|by rewrite Hnb'|intros Hl; specialize (Hroom Hl); lia].
  rewrite Ec2. destruct Hst as [T1 T2 T3 T4 T5 T6]. split; cbn; try done. destruct Esl as (_ & -> & _). done.
Qed.

Lemma head_built_ext c c' h f n : head_sent (res c') = head_sent (res c) -> no_body c' = no_body c -> head_built c h f n -> head_built c' h f n.
Proof. intros E1 E2 (r0 & B1 & B2 & B3 & B4). exists r0. split_and!; try done; congruence. Qed.

(** The last send of a body. *)
Lemma final_framed r r' f n S b d :
  so_far r f n S b -> (0 <= content_length r <= SIZE_MAX)%Z -> r' = set_body_sent r (wrap64 (body_sent r + Z.of_nat (length d))) ->
  (has_length r = true -> (Z.of_nat (length d) <= wrap64 (content_length r - body_sent r))%Z) ->
  body_framed true f n (S ++ d) (b ++ framed_data (chunked r) true d) /\ (f = FRAME_UNTIL_CLOSE -> close r' = true) /\
  (f = FRAME_LENGTH -> has_length r' = true /\ body_sent r' = Z.of_nat (length (S ++ d)) /\ content_length r' = n).
Proof.
  intros Hso Hc -> Hl. set (r' := set_body_sent _ _).
  assert (Hm : so_far r' f n (S ++ d) (b ++ framed_data (chunked r) false d)) by (by eapply so_far_more).
  unfold framed_data in *. rewrite andb_false_l, app_nil_r in Hm. cbn [andb]. rewrite app_assoc. assert (Hck : chunked r' = chunked r) by done.
  inversion Hm as [b' H1 H2 H3 H4 Hf Hn HS Hb'|k ds H1 H2 H3 Hf Hn HS Hb'|k b' H1 H2 H3 Hf Hn HS Hb']; subst f n; rewrite Hck in H2; rewrite H2 in *; cbn [andb] in *; rewrite ?app_nil_r.
  - split; [|split; [done|intros _; by split_and!]].
    destruct (Z.eq_dec (content_length r') (Z.of_nat (length (S ++ d)))) as [->|]; [apply bf_length|]. apply bf_short; [lia|done].
  - split; [|done]. by apply bf_chunks.
  - split; [|split; [done|done]]. by apply bf_close.
Qed.

Lemma flush_body_spec fuel c kind hp extra D ok c' :
  steady c -> settled c (is_final kind) hp D -> (extra = [] \/ is_final kind = false) ->
  (no_body c = false -> extra <> [] -> chunked (res c) = false) ->
  flush_body fuel c kind false false hp extra = Some (ok, c') ->
  if ok then (if is_final kind then final_sent c' D else steady c' /\ started c' (D ++ extra)) /\ len (out c') = 0 /\ same_slab (out c) (out c')
  else failed (res c') = true.
Proof.
  intros Hst (h & f & n & b & Hb & Hw & Hsh) Hex Hck Hf. destruct (no_body c) eqn:Enb.
  { subst b. rewrite app_nil_r in Hw. apply (flush_no_body _ _ _ _ _ h) in Hf; [|done..]. destruct ok; [|done].
    destruct Hf as (F1 & F2 & F3 & F4 & F5 & F6). apply (head_built_ext _ c') in Hb; [|congruence..]. split; [|done]. destruct (is_final kind).
    - split; [done|]. exists h, f, n, []. rewrite app_nil_r, F6. split_and!; auto.
    - split; [done|]. exists h, f, n. by rewrite F6. }
  apply (flush_with_body _ _ _ _ _ _ _ _ Hst Enb Hw) in Hf. destruct ok; [|done].
  destruct Hf as (F1 & F2 & F3 & F4 & F5 & F6 & F7). apply (head_built_ext _ c') in Hb; [|by rewrite F6|congruence]. split; [|done].
  set (d := data (out c)) in *. rewrite <- !app_assoc in F2. destruct (is_final kind) eqn:Ek.
  - destruct Hex as [->|]; [|done]. rewrite app_nil_r in F2. cbn [length] in F6, F7. rewrite Nat.add_0_r in F6, F7. split; [done|].
    exists h, f, n, (b ++ framed_data (chunked (res c)) true d). split; [done|]. split; [done|]. rewrite F5.
    destruct Hsh as [(S & Hso & ->)|(_ & -> & E1 & E2 & -> & -> & ->)].
    + destruct (final_framed _ (res c') _ _ _ _ d Hso (st_len _ Hst) F6 F7) as (G1 & G2 & G3). split_and!; try done. intros Hx _. by apply G3.
    + unfold framed_data. rewrite E2. cbn [andb app]. rewrite app_nil_r, <- (length_data _ (st_out _ Hst)).
      split; [apply bf_length|]. split; [done|]. intros _ Hx. fold d in Hx. lia.
  - split; [done|]. exists h, f, n. split; [done|]. rewrite F5. destruct Hsh as [(S & Hso & ->)|(? & _)]; [|done].
    assert (Hdd : data (out c') = []) by (apply length_zero_iff_nil; rewrite length_data; [done|apply (st_out _ F1)]).
    exists (S ++ d ++ extra), (b ++ framed_data (chunked (res c)) false d ++ extra). split; [done|]. rewrite Hdd, app_nil_r. split; [|by rewrite app_assoc].
    assert (Hfd : framed_data (chunked (res c)) false d ++ extra = framed_data (chunked (res c)) false (d ++ extra)).
    { destruct extra as [|e extra]; [by rewrite !app_nil_r|]. unfold framed_data. rewrite (Hck eq_refl) by done. cbn [andb]. by rewrite !app_nil_r. }
    rewrite Hfd, F6. eapply so_far_more; [exact Hso|done..|apply (st_len _ Hst)|by rewrite length_app|by rewrite length_app].
Qed.

(** Nobody to ask about the head, or a reply to HEAD, which does not ask. *)
Lemma run_delegate_quiet c final : on_head c = None \/ head_only c = true -> run_delegate c final = c.
Proof. unfold run_delegate. intros [->| ->]; [done|]. rewrite andb_false_r. by destruct (on_head c). Qed.

Lemma flush_with_total fuel c kind extra :
  filter c = None /\ (on_head c = None \/ head_only c = true) -> exists ok c', flush_with fuel c kind extra = Some (ok, c').
Proof.
  intros [Hf Hh]. unfold flush_with. destruct (failed (res c)); [by eexists _, _|].
  rewrite run_delegate_quiet by done. unfold has_filter. rewrite Hf. cbn [andb].
  destruct (settle_head c false (is_final kind)) as [[[] h] c1]; [|by eexists _, _]. unfold flush_body.
  destruct (no_body c1); [destruct (0 <? length h); [destruct (ioxd__pipewriter_through _ _ _) as [[[] ?] ?]|]; by eexists _, _|].
  cbn [andb]. destruct (clamp c1 false extra) as [[over extra'] c2]. destruct (send_framed _ _ _ _ _) as [[] c3]; [destruct over|]; by eexists _, _.
Qed.

Lemma flush_with_spec' fuel c D kind extra ok c' :
  reply_inv c D -> (extra = [] \/ raw_framed c = true /\ is_final kind = false) -> flush_with fuel c kind extra = Some (ok, c') ->
  if ok then (if is_final kind then final_sent c' D else reply_inv c' (D ++ extra)) /\ len (out c') = 0 /\ same_slab (out c) (out c')
  else failed (res c') = true.
Proof.
  intros Hinv Hex Hf. pose proof Hinv as [Hst _]. unfold flush_with in Hf. rewrite (st_live _ Hst) in Hf.
  rewrite run_delegate_quiet in Hf by apply (st_hooks _ Hst). unfold has_filter in Hf. rewrite (proj1 (st_hooks _ Hst)) in Hf. cbn [andb] in Hf.
  destruct (settle_head c false (is_final kind)) as [[ok1 hp] c1] eqn:Es. apply (settle_head_spec c D) in Es; [|done].
  destruct ok1; [|by injection Hf as <- <-]. destruct Es as (S1 & S2 & S3 & S4).
  apply (flush_body_spec _ _ _ _ _ D) in Hf; [|done|done|destruct Hex as [|[_ ?]]; auto|].
  2:{ intros Hnb Hne. destruct Hex as [|[Hr Hk]]; [done|]. by apply S4. }
  destruct ok; [|done]. destruct Hf as [Hf Hl]. rewrite S3 in Hl. split; [|done]. destruct (is_final kind); [done|].
  destruct Hf as [F1 F2]. split; [done|by right].
Qed.

(** *** Filling the slab *)

Lemma advance_data pw s n : idle pw -> n <= length s -> length s <= ioxd__pipewriter_room pw ->
  let pw' := ioxd__pipewriter_advance (store pw (ioxd__pipewriter_at pw) s) n in
  idle pw' /\ data pw' = data pw ++ take n s /\ same_slab pw pw' /\ len pw' = len pw + n.
Proof.
  intros [[B1 B2 B3 B4] Hh Ht Hf] Hn Hs. unfold ioxd__pipewriter_room, ioxd__pipewriter_at in *.
  assert (Hadv : ioxd__pipewriter_advance (store pw (lead pw + len pw) s) n = set_spans (store pw (lead pw + len pw) s) (Writer.head pw) (len pw + n) (tail pw)).
  { unfold ioxd__pipewriter_advance, ioxd__pipewriter_room. cbn. f_equal. destruct (Nat.ltb_spec n (cap pw - len pw)); lia. }
  cbv zeta. rewrite Hadv. assert (Hl : length (blit (buf pw) (lead pw + len pw) s) = length (buf pw)) by (apply length_blit; lia).
  split; [|split; [|split; [done|done]]].
  - split; cbn; try done. split; cbn; lia.
  - unfold data, store. cbn. rewrite <- span_app_join. f_equal; [apply span_blit_before; lia|].
    rewrite <- (span_take _ _ (length s)) by lia. by rewrite span_blit_same by lia.
Qed.

Lemma reply_inv_out c D pw d : reply_inv c D -> idle pw -> same_slab (out c) pw -> data pw = data (out c) ++ d ->
  reply_inv (set_out c pw (coded c) (net c)) (D ++ d).
Proof.
  intros [Hst Hsh] Hi (Hs1 & Hs2 & Hs3) Hd. split.
  - destruct Hst as [T1 T2 T3 T4 T5 T6]. split; cbn; try done. by rewrite Hs2.
  - destruct Hsh as [(U1 & U2 & U3 & U4 & U5)|(h & f & n & Hb & Hs)]; [left|right].
    + split_and!; try done. cbn. by rewrite Hd, U3.
    + exists h, f, n. split; [done|]. cbn. destruct (no_body c); [done|]. destruct Hs as (S & b & W1 & W2 & ->).
      exists S, b. split_and!; try done. by rewrite Hd, app_assoc.
Qed.

Lemma reply_inv_fill c D d : reply_inv c D -> length d <= ioxd__pipewriter_room (out c) ->
  let c' := set_out c (ioxd__pipewriter_advance (store (out c) (ioxd__pipewriter_at (out c)) d) (length d)) (coded c) (net c) in
  reply_inv c' (D ++ d) /\ len (out c') = len (out c) + length d /\ cap (out c') = cap (out c).
Proof.
  intros Hinv Hd c'. destruct (advance_data (out c) d (length d) (st_out _ (proj1 Hinv)) (le_n _) Hd) as (H1 & H2 & H3 & H4).
  rewrite firstn_all in H2. split; [by apply reply_inv_out|]. split; [done|]. apply H3.
Qed.

Lemma reply_inv_cap c D : reply_inv c D -> len (out c) <= cap (out c) /\ 0 < cap (out c).
Proof. intros [[_ _ [[] _ _ _] [? _] _ _] _]. lia. Qed.

(** The loop ends, and the data is in. *)
Lemma write_loop_spec fuel efuel c D src :
  reply_inv c D -> 2 * length src + (if ioxd__pipewriter_room (out c) =? 0 then 1 else 0) <= fuel ->
  exists ok c', write_loop fuel efuel c src = Some (ok, c') /\ if ok then reply_inv c' (D ++ src) else failed (res c') = true.
Proof.
  revert c D src. induction fuel as [|fuel IH]; intros c D src Hinv Hf; cbn [write_loop];
    (destruct (Nat.eqb_spec (length src) 0) as [Hz|Hz]; [destruct src; [|done]; eexists _, _; split; [done|]; cbn; by rewrite app_nil_r|]).
  { destruct (_ =? 0); lia. }
  pose proof (reply_inv_cap _ _ Hinv) as [Hlc Hcap]. destruct (Nat.eqb_spec (ioxd__pipewriter_room (out c)) 0) as [Hr|Hr].
  - unfold flush. destruct (flush_with_total efuel c FLUSH_FULL []) as (ok1 & c1 & E1); [apply Hinv..|]. rewrite E1.
    apply (flush_with_spec' _ _ D) in E1; [|done|by left]. destruct ok1; [|by eexists _, _].
    cbn [is_final] in E1. rewrite app_nil_r in E1. destruct E1 as (E1 & El & _). apply (IH c1 D src E1).
    pose proof (reply_inv_cap _ _ E1). unfold ioxd__pipewriter_room. destruct (Nat.eqb_spec (cap (out c1) - len (out c1)) 0); lia.
  - set (n := if length src <? ioxd__pipewriter_room (out c) then length src else ioxd__pipewriter_room (out c)).
    assert (Hn : 0 < n /\ n <= length src /\ n <= ioxd__pipewriter_room (out c)) by (unfold n; destruct (Nat.ltb_spec (length src) (ioxd__pipewriter_room (out c))); lia).
    assert (Hlt : length (take n src) = n) by (rewrite length_take; lia).
    destruct (reply_inv_fill c D (take n src) Hinv ltac:(lia)) as (F1 & F2 & F3). rewrite Hlt in F1, F2, F3.
    destruct (IH _ _ (drop n src) F1) as (ok & c' & E & Hok); [rewrite length_drop; destruct (_ =? 0); lia|]. exists ok, c'. split; [exact E|]. destruct ok; [|done]. by rewrite <- app_assoc, take_drop in Hok.
Qed.

Lemma reply_write_spec fuel c D d : reply_inv c D ->
  exists ok c', ioxd_write fuel c d = Some (ok, c') /\ if ok then reply_inv c' (D ++ d) else failed (res c') = true.
Proof.
  intros Hinv. unfold ioxd_write. rewrite (st_live _ (proj1 Hinv)).
  destruct ((ioxd__pipewriter_room (out c) <? length d) && raw_framed c) eqn:E.
  - apply andb_true_iff in E as [_ E]. destruct (flush_with_total fuel c FLUSH_FULL d) as (ok & c' & Hf); [apply Hinv..|].
    exists ok, c'. split; [done|]. apply (flush_with_spec' _ _ D) in Hf; [|done|by right]. destruct ok; [|done]. apply Hf.
  - apply write_loop_spec; [done|]. destruct (_ =? 0); lia.
Qed.

Lemma format_room pw size text : idle pw -> size <= ioxd__pipewriter_room pw ->
  idle (format_at pw size text) /\ data (format_at pw size text) = data pw /\ same_slab pw (format_at pw size text) /\ len (format_at pw size text) = len pw.
Proof.
  intros [[B1 B2 B3 B4] Hh Ht Hf] Hs. unfold format_at. destruct (Nat.eqb_spec size 0) as [|Hz]; [by repeat split|].
  unfold ioxd__pipewriter_room, ioxd__pipewriter_at in *. set (s := take (size - 1) text ++ [0%Z]).
  assert (length s <= size) by (unfold s; rewrite length_app, length_take; cbn; lia).
  split; [|split; [|done]]; [split; cbn; try done; split; cbn; try lia; rewrite length_blit; lia|].
  unfold data, store. cbn. apply span_blit_before; lia.
Qed.

Lemma format_advance pw size text : idle pw -> length text < size -> size <= ioxd__pipewriter_room pw ->
  let pw' := ioxd__pipewriter_advance (format_at pw size text) (length text) in
  idle pw' /\ data pw' = data pw ++ text /\ same_slab pw pw'.
Proof.
  intros Hi Hl Hs. unfold format_at. destruct (Nat.eqb_spec size 0) as [|Hz]; [lia|].
  rewrite (take_ge text) by lia. destruct (advance_data pw (text ++ [0%Z]) (length text) Hi) as (H1 & H2 & H3 & _); [rewrite length_app; lia|rewrite length_app; cbn; lia|].
  by rewrite take_app_length in H2.
Qed.

Lemma set_out_inv c D pw : reply_inv c D -> idle pw -> same_slab (out c) pw -> data pw = data (out c) -> reply_inv (set_out c pw (coded c) (net c)) D.
Proof. intros Hinv Hi Hs Hd. rewrite <- (app_nil_r D). apply reply_inv_out; [done..|]. by rewrite app_nil_r. Qed.

Lemma printf_spec fuel c D text heap : reply_inv c D ->
  exists ok c', ioxd_printf fuel c text heap = Some (ok, c') /\
    if ok then exists t, text = Some t /\ reply_inv c' (D ++ t) else failed (res c') = true \/ text = None /\ c' = c.
Proof.
  intros Hinv. pose proof (st_out _ (proj1 Hinv)) as Hi. unfold ioxd_printf. rewrite (st_live _ (proj1 Hinv)).
  destruct text as [t|]; [|eexists _, _; split; [done|by right]].
  destruct (Nat.ltb_spec (length t) (ioxd__pipewriter_room (out c))) as [Hl|Hl].
  { destruct (format_advance (out c) _ t Hi Hl (le_n _)) as (F1 & F2 & F3). eexists _, _. split; [done|]. exists t. split; [done|]. exact (reply_inv_out c D _ t Hinv F1 F3 F2). }
  destruct (format_room (out c) _ t Hi (le_n _)) as (F1 & F2 & F3 & F4). set (c1 := set_out c (format_at _ _ _) _ _).
  assert (Hinv1 : reply_inv c1 D) by (by apply set_out_inv).
  destruct (Nat.leb_spec (cap (out c1)) (length t)) as [Hc|Hc].
  { destruct heap; [|eexists _, _; split; [done|by left]]. destruct (reply_write_spec fuel c1 D t Hinv1) as (ok & c' & E & Hok).
    exists ok, c'. split; [done|]. destruct ok; [by exists t|by left]. }
  unfold flush. destruct (flush_with_total fuel c1 FLUSH_FULL []) as (ok1 & c2 & E1); [apply Hinv1..|]. rewrite E1.
  apply (flush_with_spec' _ _ D) in E1; [|done|by left]. destruct ok1; [|eexists _, _; split; [done|by left]].
  cbn [is_final] in E1. rewrite app_nil_r in E1. destruct E1 as (E1 & El & _ & Hcap & _).
  destruct (format_advance (out c2) (cap (out c2)) t (st_out _ (proj1 E1))) as (G1 & G2 & G3); [lia|unfold ioxd__pipewriter_room; lia|].
  eexists _, _. split; [done|]. exists t. split; [done|]. by apply reply_inv_out.
Qed.

(** *** Shaping the head *)

(** A handler sets [close], never clears it, and declares a length that a [size_t] holds. *)
Definition shape_ok (o : head_op) : Prop :=
  match o with OClose b => b = true | OLength n => (0 <= n <= SIZE_MAX)%Z | _ => True end.

Lemma content_type_rest r t : exists ct n h, (ioxd_content_type r t).2 = set_head r ct (headers r) n h.
Proof.
  assert (Hr : r = set_head r (content_type r) (headers r) (head_len r) (Response.head r)) by (by destruct r).
  unfold ioxd_content_type. destruct t as [t|]; [|eauto]. repeat (destruct (_ : bool); [eauto|]). eexists _, _, _. reflexivity.
Qed.

Lemma header_rest r n v : exists ct hs k h, (ioxd_header r n v).2 = set_head r ct hs k h.
Proof.
  assert (Hr : r = set_head r (content_type r) (headers r) (head_len r) (Response.head r)) by (by destruct r).
  unfold ioxd_header. destruct n as [n|]; [|eauto]. destruct v as [v|]; [|eauto].
  repeat match goal with |- context [if ?b then _ else _] => destruct b; [first [by eauto | destruct (content_type_rest r (Some v)) as (? & ? & ? & ->); eauto]|] end.
  unfold head_room. destruct (_ <? _)%Z; [eauto|]. by eexists _, _, _, _.
Qed.

Lemma head_do_rest o r : shape_ok o -> (0 <= content_length r <= SIZE_MAX)%Z ->
  let r' := head_do o r in
  head_sent r' = head_sent r /\ chunked r' = chunked r /\ failed r' = failed r /\ body_sent r' = body_sent r /\
  (0 <= content_length r' <= SIZE_MAX)%Z /\ (close r = true -> close r' = true) /\
  (head_sent r = true -> has_length r' = has_length r /\ content_length r' = content_length r).
Proof.
  intros Ho Hl. destruct o as [n v|t|b|n|s|b]; cbn [head_do].
  - destruct (header_rest r n v) as (? & ? & ? & ? & ->). cbn; tauto.
  - destruct (content_type_rest r t) as (? & ? & ? & ->). cbn; tauto.
  - cbn; tauto.
  - cbn in Ho. unfold ioxd_content_length. destruct (head_sent r) eqn:E; cbn; rewrite ?E; intuition congruence.
  - cbn; tauto.
  - cbn in Ho. subst b. cbn. tauto.
Qed.

Lemma reply_inv_head c D o : shape_ok o -> reply_inv c D -> reply_inv (set_res c (head_do o (res c))) D.
Proof.
  intros Ho [Hst Hsh]. destruct (head_do_rest o (res c) Ho (st_len _ Hst)) as (R1 & R2 & R3 & R4 & R5 & R6 & R7).
  split; [by apply steady_res|]. destruct Hsh as [(U1 & U2 & U3 & U4 & U5)|(h & f & n & Hb & Hs)]; [left|right].
  - split_and!; cbn; try done; congruence.
  - assert (Hsent : head_sent (res c) = true) by (destruct Hb as (? & _ & ? & _); done). destruct (R7 Hsent) as [R8 R9].
    exists h, f, n. split; [by apply (head_built_ext c)|]. cbn. destruct (no_body c); [done|]. destruct Hs as (S & b & W1 & W2 & W3).
    exists S, b. split_and!; try done. by eapply so_far_ext; [..|exact W2].
Qed.

(** ** A handler's reply *)

Inductive reply_op :=
| RHead (o : head_op)
| RWrite (d : bytes)
| RPrintf (text : option bytes) (heap : bool)
| RFlush
| RFill (n : nat) (d : bytes).      (* reserve n bytes, store d there, advance by it *)

Definition reply_op_ok (o : reply_op) : Prop :=
  match o with RHead o => shape_ok o | RFill n d => length d <= n | _ => True end.

Definition reply_do (fuel : nat) (o : reply_op) c : option (bool * ctx W) :=
  match o with
  | RHead o => Some (true, set_res c (head_do o (res c)))
  | RWrite d => ioxd_write fuel c d
  | RPrintf t heap => ioxd_printf fuel c t heap
  | RFlush => ioxd_flush fuel c
  | RFill n d =>
      match ioxd_reserve fuel c n with
      | Some (Some at_, c) => Some (true, ioxd_advance (set_out c (store (out c) at_ d) (coded c) (net c)) (length d))
      | Some (None, c) => Some (false, c)
      | None => None
      end
  end.

Definition reply_data (o : reply_op) (ok : bool) : bytes :=
  match o, ok with
  | RWrite d, true => d
  | RPrintf (Some t) _, true => t
  | RFill _ d, true => d
  | _, _ => []
  end.

(** The data the reply took, and the state it left. *)
Fixpoint reply_run (fuel : nat) (os : list reply_op) c : option (bytes * ctx W) :=
  match os with
  | [] => Some ([], c)
  | o :: os =>
      match reply_do fuel o c with
      | None => None
      | Some (ok, c) => match reply_run fuel os c with Some (d, c) => Some (reply_data o ok ++ d, c) | None => None end
      end
  end.

Lemma reserve_spec' fuel c D n d : reply_inv c D -> length d <= n ->
  exists ok c', reply_do fuel (RFill n d) c = Some (ok, c') /\
    (failed (res c') = true \/ reply_inv c' (D ++ if ok then d else [])).
Proof.
  intros Hinv Hd. cbn [reply_do]. unfold ioxd_reserve. rewrite (st_live _ (proj1 Hinv)). cbn [orb].
  destruct (Nat.ltb_spec (cap (out c)) n) as [Hn|Hn]; [eexists _, _; split; [done|right]; by rewrite app_nil_r|].
  destruct (Nat.ltb_spec (ioxd__pipewriter_room (out c)) n) as [Hr|Hr].
  - unfold flush. destruct (flush_with_total fuel c FLUSH_FULL []) as (ok1 & c1 & E1); [apply Hinv..|]. rewrite E1.
    apply (flush_with_spec' _ _ D) in E1; [|done|by left]. destruct ok1; [|eexists _, _; split; [done|by left]].
    cbn [is_final] in E1. rewrite app_nil_r in E1. destruct E1 as (E1 & El & _ & Hcap & _).
    eexists _, _. split; [done|]. right. refine (proj1 (reply_inv_fill c1 D d E1 _)). unfold ioxd__pipewriter_room. lia.
  - eexists _, _. split; [done|]. right. refine (proj1 (reply_inv_fill c D d Hinv _)). lia.
Qed.

(** On a failed reply nothing more is done. *)
Lemma reply_do_failed o c : failed (res c) = true -> exists ok c', (forall fuel, reply_do fuel o c = Some (ok, c')) /\ failed (res c') = true.
Proof.
  intros Hf. destruct o as [o|d|t hp| |n d]; cbn [reply_do].
  - eexists _, _. split; [done|]. cbn. destruct o as [n v|t|b|n|s|b]; cbn [head_do]; try done.
    + by destruct (header_rest (res c) n v) as (? & ? & ? & ? & ->).
    + by destruct (content_type_rest (res c) t) as (? & ? & ? & ->).
    + unfold ioxd_content_length. by destruct (head_sent (res c)).
  - unfold ioxd_write. rewrite Hf. eauto.
  - unfold ioxd_printf. rewrite Hf. eauto.
  - unfold ioxd_flush, flush, flush_with. rewrite Hf. eauto.
  - unfold ioxd_reserve. rewrite Hf. cbn. eauto.
Qed.

(** Every operation ends; the data it took is in, or the reply failed. *)
Lemma reply_do_spec fuel c D o : reply_op_ok o -> failed (res c) = true \/ reply_inv c D ->
  exists ok c', reply_do fuel o c = Some (ok, c') /\ (failed (res c') = true \/ reply_inv c' (D ++ reply_data o ok)).
Proof.
  intros Ho [Hf|Hinv]; [destruct (reply_do_failed o c Hf) as (ok & c' & E & ?); exists ok, c'; by auto|].
  destruct o as [o|d|t hp| |n d]; cbn [reply_do reply_data].
  - eexists _, _. split; [done|]. right. rewrite app_nil_r. by apply reply_inv_head.
  - destruct (reply_write_spec fuel c D d Hinv) as (ok & c' & E & Hok). exists ok, c'. split; [done|]. destruct ok; auto.
  - destruct (printf_spec fuel c D t hp Hinv) as (ok & c' & E & Hok). exists ok, c'. split; [done|]. destruct ok.
    + destruct Hok as (t' & -> & Hok). auto.
    + destruct Hok as [|[-> ->]]; [by left|]. right. by rewrite app_nil_r.
  - unfold ioxd_flush, flush. destruct (flush_with_total fuel c FLUSH_ASKED []) as (ok & c' & E); [apply Hinv..|]. exists ok, c'. split; [done|].
    apply (flush_with_spec' _ _ D) in E; [|done|by left]. destruct ok; [|by left]. right. apply E.
  - apply reserve_spec'; done.
Qed.

Lemma reply_run_spec fuel os c D : Forall reply_op_ok os -> failed (res c) = true \/ reply_inv c D ->
  exists d c', reply_run fuel os c = Some (d, c') /\ (failed (res c') = true \/ reply_inv c' (D ++ d)).
Proof.
  intros Hos. revert c D. induction Hos as [|o os Ho _ IH]; intros c D Hc; cbn [reply_run].
  { eexists _, _. split; [done|]. by rewrite app_nil_r. }
  destruct (reply_do_spec fuel c D o Ho Hc) as (ok & c1 & -> & H1). destruct (IH c1 _ H1) as (d & c2 & -> & H2).
  eexists _, _. split; [done|]. by rewrite app_assoc.
Qed.

(** *** The end *)

Lemma close_if_short_finished c D : final_sent c D -> finished (close_if_short c) D.
Proof.
  intros (Hst & h & f & n & b & Hb & Hw & Hsh).
  assert (Hc : exists x, (x = close (res c) \/ x = true) /\ close_if_short c = set_res c (set_close (res c) x) /\
     (has_length (res c) = true -> no_body c = false -> body_sent (res c) <> content_length (res c) -> x = true)).
  { assert (Hid : c = set_res c (set_close (res c) (close (res c)))) by (destruct c as [? r]; by destruct r).
    unfold close_if_short. destruct (has_length (res c)); cbn [andb]; [|exists (close (res c)); split_and!; [by left|done|done]].
    destruct (no_body c); cbn [negb andb]; [exists (close (res c)); split_and!; [by left|done|done]|].
    destruct (Z.eqb_spec (body_sent (res c)) (content_length (res c))); cbn [negb]; [exists (close (res c)); split_and!; [by left|done|done]|exists true; split_and!; [by right|done|done]]. }
  destruct Hc as (x & Hx & -> & Hsx). exists h, f, n, b. split; [by apply (head_built_ext c)|]. split; [done|]. cbn.
  destruct (no_body c); [done|]. destruct Hsh as (Hbf & Hcl & Hsl).
  inversion Hbf as [D' E1 E2 E3|n' D' Hlt _ E1 E2 E3|n' ds Hds E1 E2 E3|n' D' _ E1 E2 E3]; subst.
  - apply bf_length.
  - destruct (Hsl eq_refl Hlt) as (L1 & L2 & L3). apply bf_short; [done|]. apply Hsx; [done|done|]. lia.
  - by apply bf_chunks.
  - apply bf_close. destruct Hx as [->| ->]; auto.
Qed.

(** The terminator on its own. *)
Lemma terminator_alone pw w b pw' pw2 w2 ok : idle pw -> len pw = 0 -> ioxd__pipewriter_back pw 5 = (Some b, pw') ->
  ioxd__pipewriter_flush (store pw' b put_terminator) w = (ok, pw2, w2) ->
  idle pw2 /\ same_slab pw pw2 /\ Writer.wire w2 = Writer.wire w ++ put_terminator \/ ok = false.
Proof.
  intros Hi Hl Hb Hf. destruct (back_pending _ _ _ _ put_terminator (id_ok _ Hi) Hb eq_refl) as (P & O & _ & F & S).
  rewrite (pending_idle _ Hi) in P. assert (Hd : data pw = []) by (apply length_zero_iff_nil; by rewrite length_data).
  rewrite Hd in P. cbn [app] in P. unfold ioxd__pipewriter_flush in Hf. apply flush_with_spec in Hf as (O2 & S2 & Hf); [|done].
  rewrite F, (id_failed _ Hi) in Hf. destruct Hf as (F2 & _ & L2 & H2 & T2 & _ & Hw). destruct ok; [left|by right].
  split; [by split|]. split; [unfold same_slab in *; intuition congruence|]. apply sent_some_true in Hw. by rewrite Hw, P, app_nil_r.
Qed.

Lemma close_if_short_steady c D : final_sent c D -> finished (close_if_short c) D /\ steady (close_if_short c).
Proof.
  intros Hf. split; [by apply close_if_short_finished|]. destruct Hf as [Hst _]. unfold close_if_short.
  destruct (_ && _ && _); [|done]. destruct Hst. by split.
Qed.

Lemma finish_spec fuel c D : failed (res c) = true \/ reply_inv c D ->
  exists ok c', finish fuel c = Some (ok, c') /\ if ok then finished c' D /\ steady c' else failed (res c') = true.
Proof.
  intros [Hf|Hinv]; [unfold finish; rewrite Hf; eauto|]. pose proof Hinv as [Hst Hsh].
  unfold finish, finish_send, has_filter. rewrite (st_live _ Hst). rewrite (proj1 (st_hooks _ Hst)), orb_false_r.
  destruct (negb (head_sent (res c)) || (0 <? len (out c))) eqn:E1.
  { unfold flush. destruct (flush_with_total fuel c FLUSH_FINAL []) as (ok & c1 & E); [apply Hinv..|]. rewrite E.
    apply (flush_with_spec' _ _ D) in E; [|done|by left]. destruct ok; [|eauto]. eexists _, _. split; [done|]. apply close_if_short_steady, E. }
  apply orb_false_iff in E1 as [E1 E2]. apply negb_false_iff in E1. bool_to_prop. assert (Hl : len (out c) = 0) by lia.
  destruct Hsh as [(U & _)|(h & f & n & Hb & Hs)]; [congruence|].
  assert (Hd : data (out c) = []) by (apply length_zero_iff_nil; by rewrite length_data by apply (st_out _ Hst)).
  destruct (chunked (res c)) eqn:Ec.
  - destruct (ioxd__pipewriter_back (out c) 5) as [[b|] pw] eqn:Eb; [|by eexists _, _].
    destruct (ioxd__pipewriter_flush (store pw b put_terminator) (net c)) as [[ok pw2] w2] eqn:Ef. destruct ok; [|by eexists _, _].
    destruct (terminator_alone _ _ _ _ _ _ _ (st_out _ Hst) Hl Eb Ef) as [(T1 & T2 & T3)|]; [|done].
    eexists _, _. split; [done|]. apply close_if_short_steady. split.
    + destruct Hst as [S1 S2 S3 S4 S5 S6]. split; cbn; try done. by destruct T2 as (_ & -> & _).
    + cbn [no_body set_out net res]. destruct (no_body c) eqn:En.
      * exists h, f, n, put_terminator. split; [by apply (head_built_ext c)|]. split; [by rewrite T3, Hs, <- app_assoc|].
        by right.
      * destruct Hs as (S & b' & W1 & W2 & ->). rewrite Hd, app_nil_r. exists h, f, n, (b' ++ put_terminator).
        split; [by apply (head_built_ext c)|]. split; [by rewrite T3, W1, <- !app_assoc|].
        inversion W2; subst; try congruence. split; [by apply bf_chunks|]. by split.
  - eexists _, _. split; [done|]. apply close_if_short_steady. split; [done|]. destruct (no_body c) eqn:En.
    + exists h, f, n, []. rewrite app_nil_r. split_and!; try done. by left.
    + destruct Hs as (S & b & W1 & W2 & ->). rewrite Hd, app_nil_r. exists h, f, n, b. split; [done|]. split; [done|].
      inversion W2; subst; try congruence.
      * split; [|split; [done|done]]. destruct (Z.eq_dec (content_length (res c)) (Z.of_nat (length b))) as [->|]; [apply bf_length|]. apply bf_short; [lia|done].
      * split; [by apply bf_close|done].
Qed.

End Replies.

(** *** On concrete replies *)

(** A reply without hooks on a connection that takes everything. *)
#[export] Instance no_hooks : Hooks :=
  {| Coder := unit; filter_run _ _ _ _ := (0%Z, 0, [], tt); Delegate := unit; head_call _ _ r _ _ := (r, None) |}.

Definition calm : Sender socket := socket_sender all_goes.

(** A slab of ten bytes. *)
Definition fresh (ho : bool) (minor : Z) : ctx socket :=
  {| req := set_framing (req0 (lit "/") minor []) [] false 0 true false; res := init_response arena0;
     inp := Reader.ioxd__pipereader_init [] 0; kern := {| Reader.mem := ∅; Reader.now := []; Reader.later := []; Reader.end_rc := 0; Reader.back := [] |};
     out := ioxd__pipewriter_init (replicate 120 0%Z) 100 10 10; coded := ioxd__pipewriter_init [] 0 0 0; net := {| sent := []; awaits := 0 |};
     body := Reader.Nowhere; body_read := 0; body_done := true; body_whole := false; body_err := 0; chunk_left := 0;
     head_only := ho; no_body := false; continue_sent := false; on_head := None; filter := None |}.

Definition head_of (l : list bytes) : bytes := head_text l.

(** What a handler's reply put on the wire, and whether the connection closes. *)
Definition reply_shows (ho : bool) (minor : Z) (os : list reply_op) : option (bytes * bool) :=
  match reply_run (H := calm) 9 os (fresh ho minor) with
  | Some (_, c) => match finish (H := calm) 9 c with Some (true, c) => Some (sent (net c), close (res c)) | _ => None end
  | None => None
  end.

Example reply_buffered : reply_shows false 1 [RWrite (lit "hello"); RHead (OStatus 404)] =
  Some (head_of [lit "HTTP/1.1 404 Not Found"; lit "content-type: text/plain"; lit "content-length: 5"] ++ lit "hello", false).
Proof. vm_compute. reflexivity. Qed.
Example reply_streamed : reply_shows false 1 [RWrite (lit "hello world, "); RFill 4 (lit "this")] =
  Some (head_of [lit "HTTP/1.1 200 OK"; lit "content-type: text/plain"; lit "transfer-encoding: chunked"] ++
        chunk_text (lit "hello worl") ++ chunk_text (lit "d, this") ++ put_terminator, false).
Proof. vm_compute. reflexivity. Qed.
Example reply_declared : reply_shows false 1 [RHead (OLength 20); RWrite (lit "hello world")] =
  Some (head_of [lit "HTTP/1.1 200 OK"; lit "content-type: text/plain"; lit "content-length: 20"] ++ lit "hello world", true).
Proof. vm_compute. reflexivity. Qed.
Example reply_old : reply_shows false 0 [RWrite (lit "hello world")] =
  Some (head_of [lit "HTTP/1.1 200 OK"; lit "content-type: text/plain"; lit "connection: close"] ++ lit "hello world", true).
Proof. vm_compute. reflexivity. Qed.

(** A HEAD reply that streamed and ended on a flush leaves five stray bytes on a connection that stays
open: with nothing in the slab the end of the reply writes the chunked terminator without testing that the
reply has no body, so the next response the client parses begins inside it. *)
Theorem head_reply_stray_bytes :
  reply_shows true 1 [RWrite (lit "hello"); RFlush] =
  Some (head_of [lit "HTTP/1.1 200 OK"; lit "content-type: text/plain"; lit "transfer-encoding: chunked"] ++ put_terminator, false).
Proof. vm_compute. reflexivity. Qed.

Lemma fresh_steady : steady true 1 false (fresh false 1) /\ unstarted (H := calm) [] (fresh false 1) [].
Proof.
  split.
  - split; try done.
    + split; [done|by left].
    + split; [|done..]. split; [reflexivity|cbn; lia..].
    + split; [cbn; lia|vm_compute; discriminate].
  - by split_and!.
Qed.

