(* ===== verification/Coding.v ===== *)
(** Replies whose body goes through a filter (lib/http/engine.c, ioxd/http.h): what a coder promises, and
    that a reply coded whole or flush by flush carries a coding of exactly what the handler wrote. *)
From S2P Require Import Prelude Writer Headers Response Context Reply.

#[local] Arguments Nat.ltb : simpl never.
#[local] Arguments Nat.leb : simpl never.
#[local] Arguments lit : simpl never.

(** ** What a coder promises

    [decodes f E D]: [E] is a whole coding of [D] in the format of the coder [f]. [fed f X E] is the history
    of a coder: the input it has taken since it was made, the output it has given. Every call adds what it
    took and gave; one that finishes leaves a whole coding. [work] bounds how long a call can be repeated:
    each repetition that moves bytes leaves less to do. A slab is far smaller than the 4 GiB a coder may be
    limited to. A delegate may add fields to the head, and the coder it installs is a new one. *)
Definition moved (n : nat) (o : bytes) : nat := if (n =? 0) && (length o =? 0) then 0 else 1.

Class CoderLaws `{Hooks} := {
  decodes : Coder -> bytes -> bytes -> Prop;
  fed : Coder -> bytes -> bytes -> Prop;
  work : Coder -> ioxd_filter_op -> bytes -> nat;
  delegate_ok : Delegate -> Prop;
  run_fed f X E i room op rc n o f' :
    fed f X E -> (Z.of_nat (length i) <= UINT32_MAX)%Z -> (Z.of_nat room <= UINT32_MAX)%Z -> filter_run f i room op = (rc, n, o, f') -> (0 <= rc)%Z -> n <= length i -> length o <= room ->
    fed f' (X ++ take n i) (E ++ o) /\ (op = IOXD_FILTER_FINISH -> rc = 0%Z -> n = length i -> decodes f' (E ++ o) (X ++ i));
  run_work f X E i room op rc n o f' :
    fed f X E -> (Z.of_nat (length i) <= UINT32_MAX)%Z -> (Z.of_nat room <= UINT32_MAX)%Z -> filter_run f i room op = (rc, n, o, f') -> (0 <= rc)%Z -> n <= length i -> length o <= room ->
    moved n o + work f' op (drop n i) <= work f op i;
  head_call_fields d q r n w r' fo : delegate_ok d -> head_call d q r n w = (r', fo) ->
    (exists fields, r' = foldl (fun r nv => (ioxd_header r nv.1 nv.2).2) r fields) /\ (forall f, fo = Some f -> fed f [] [])
}.

(** ** Enough fuel

    [settles F P]: with enough fuel [F] gives one result, and [P] holds of it. *)
Definition settles {A} (F : nat -> option A) (P : A -> Prop) : Prop := exists r, P r /\ exists N, forall n, N <= n -> F n = Some r.

Lemma settles_ret {A} (F : nat -> option A) (P : A -> Prop) r : P r -> (forall n, F n = Some r) -> settles F P.
Proof. intros Hp Hf. exists r. split; [done|]. exists 0. auto. Qed.

Lemma settles_mono {A} (F : nat -> option A) (P Q : A -> Prop) : settles F P -> (forall r, P r -> Q r) -> settles F Q.
Proof. intros (r & Hp & HF) HQ. exists r. auto. Qed.

Lemma settles_ext {A} (F G : nat -> option A) (P : A -> Prop) : settles F P -> (forall n, G n = F n) -> settles G P.
Proof. intros (r & Hp & N & HF) HG. exists r. split; [done|]. exists N. intros n Hn. by rewrite HG, HF. Qed.

Lemma settles_bind {A B} (F : nat -> option A) (G : A -> nat -> option B) (P : A -> Prop) (Q : B -> Prop) :
  settles F P -> (forall a, P a -> settles (G a) Q) -> settles (fun n => match F n with Some a => G a n | None => None end) Q.
Proof.
  intros (a & Hp & N & HF) HG. destruct (HG a Hp) as (b & Hq & M & HG'). exists b. split; [done|]. exists (N + M). intros n Hn.
  rewrite HF, HG' by lia. done.
Qed.

(** ** A coded reply, seen from its coded slab

    What sends is the coded slab: a coded reply is a plain one on a state whose slabs are swapped. *)
Section Swap.
Context {W : Type} `{Sender W} `{Hooks}.
Implicit Types (c : ctx W).

Definition swap c : ctx W := set_hooks (set_out c (coded c) (out c) (net c)) None None.

(** What coding leaves alone. *)
Definition same_side c c' : Prop :=
  on_head c' = on_head c /\ filter c' = filter c /\ out c' = out c /\ req c' = req c /\ head_only c' = head_only c.

Lemma same_side_trans c1 c2 c3 : same_side c1 c2 -> same_side c2 c3 -> same_side c1 c3.
Proof. unfold same_side. intuition congruence. Qed.

Lemma decide_framing_swap c final : exists f n c', decide_framing c true final = (f, n, c') /\
  decide_framing (swap c) false final = (f, n, swap c') /\ same_side c c' /\ coded c' = coded c /\ net c' = net c.
Proof.
  destruct c as [rq [st ct hs cl hsent n hl ck fl bs hln hd] pr k pw cw w b br bd bw be chl ho nb cs oh fi].
  unfold decide_framing. cbn -[bodyless wire_status Z.eqb Z.leb]. destruct hl, final, (bodyless _) eqn:Eb, ho; cbn -[bodyless wire_status Z.eqb Z.leb];
    rewrite ?Eb; try destruct (1 <=? minor_version rq)%Z; try destruct (wire_status st =? 304)%Z; eexists _, _, _; by repeat split.
Qed.

Lemma close_if_unread_swap c : close_if_unread (swap c) = swap (close_if_unread c) /\ same_side c (close_if_unread c) /\
  coded (close_if_unread c) = coded c /\ net (close_if_unread c) = net c.
Proof. unfold close_if_unread. cbn. repeat match goal with |- context [if ?b then _ else _] => destruct b end; by repeat split. Qed.

Lemma settle_head_swap c final ok h c' : settle_head c true final = (ok, h, c') ->
  if ok then settle_head (swap c) false final = (true, h, swap c') /\ same_side c c' /\ coded c' = coded c else failed (res c') = true.
Proof.
  unfold settle_head. change (head_sent (res (swap c))) with (head_sent (res c)). destruct (head_sent (res c)); [intros [= <- <- <-]; by repeat split|].
  destruct (decide_framing_swap c final) as (f & n & c1 & -> & -> & S1 & C1 & _). destruct (close_if_unread_swap c1) as (-> & S2 & C2 & _).
  cbn [swap req res set_hooks set_out Context.set_flags]. destruct (build_head _ _ _ _ _ _) as [hd|].
  - intros [= <- <- <-]. split; [done|]. split; [by eapply same_side_trans|]. cbn. congruence.
  - destruct (send_status _ _ _). by intros [= <- <- <-].
Qed.

Lemma clamp_swap c e : exists o e' c', clamp c true e = (o, e', c') /\ clamp (swap c) false e = (o, e', swap c') /\ same_side c c' /\ no_body c' = no_body c.
Proof.
  unfold clamp. cbn [swap sw set_sw out res set_hooks set_out Context.set_flags]. destruct (has_length (res c)); eexists _, _, _; by repeat split.
Qed.

Lemma send_framed_swap c final h e : exists ok c', send_framed c true final h e = (ok, c') /\ send_framed (swap c) false final h e = (ok, swap c') /\ same_side c c'.
Proof.
  unfold send_framed. cbn [swap sw set_sw out res net set_hooks set_out Context.set_flags].
  repeat first
    [ match goal with |- context [if ?b then _ else _] => destruct b end
    | match goal with |- context [let '(_, _) := ?x in _] => destruct x as [? ?] end
    | match goal with |- context [match ?x with Some _ => _ | None => _ end] => destruct x end ];
    eexists _, _; by repeat split.
Qed.

Lemma flush_body_swap fuel c kind h ok c' : no_body c = false -> flush_body fuel c kind true true h [] = Some (ok, c') ->
  flush_body fuel (swap c) kind false false h [] = Some (ok, swap c') /\ same_side c c'.
Proof.
  intros Hnb. unfold flush_body. change (no_body (swap c)) with (no_body c). rewrite Hnb. cbn [andb negb].
  destruct (clamp_swap c []) as (o & e & c1 & -> & -> & S1 & _).
  cbn [default]. change (id h) with h. set (r' := set_body_sent _ _). change (set_body_sent (res (swap c1)) _) with r'.
  change (set_res (swap c1) r') with (swap (set_res c1 r')). destruct (send_framed_swap (set_res c1 r') (is_final kind) h e) as (ok2 & c2 & -> & -> & S2).
  assert (Hs : same_side c c2) by (eapply same_side_trans; [exact S1|exact S2]). destruct ok2; [destruct o|]; intros [= <- <-]; by split.
Qed.

(** Sending coded bytes while a body goes on is a flush of the coded slab. *)
Lemma send_coded_swap fuel c h ok h' c' : no_body c = false -> has_length (res c) = false -> send_coded c h = (ok, h', c') ->
  exists c2, flush_body fuel (swap c) FLUSH_FULL false false h [] = Some (ok, c2) /\
    if ok then h' = [] /\ c2 = swap c' /\ same_side c c' else failed (res c') = true.
Proof.
  intros Hnb Hhl. unfold send_coded, flush_body. change (no_body (swap c)) with (no_body c). rewrite Hnb. cbn [andb negb is_final].
  unfold clamp. change (has_length (res (swap c))) with (has_length (res c)). rewrite Hhl.
  unfold send_framed. cbn [default swap sw set_sw out coded res net set_res set_hooks set_out Context.set_flags length].
  change (id h) with h. rewrite Nat.add_0_r. change (chunked (set_body_sent (res c) ?x)) with (chunked (res c)).
  destruct (if chunked (res c) && (0 <? len (coded c)) then _ else _) as [[] cw]; cbn [negb]; [|intros [= <- <- <-]; by eexists].
  cbn [andb]. destruct (Nat.ltb_spec 0 (length h)) as [Hl|Hl].
  - cbn. destruct (put_in_front cw h (net c)) as [[[] cw2] w2]; cbn; [|intros [= <- <- <-]; by eexists].
    unfold ioxd__pipewriter_flush. destruct (ioxd__pipewriter_flush_with cw2 [] w2) as [[[] cw3] w3]; intros [= <- <- <-]; eexists; by repeat split.
  - assert (h = []) as -> by (destruct h; [done|cbn in Hl; lia]).
    cbn. unfold ioxd__pipewriter_flush. destruct (ioxd__pipewriter_flush_with cw [] (net c)) as [[[] cw3] w3]; intros [= <- <- <-]; eexists; by repeat split.
Qed.
End Swap.

(** ** The loop that codes *)

Section Coded.
Context {W : Type} `{Sender W, !SenderLaws W} `{Hooks} `{!CoderLaws}.
Context (kp : bool) (mv : Z) (base : bytes).
Implicit Types (c : ctx W).

Notation steady' := (steady kp mv false).
Notation settled' := (settled kp mv false base).
Notation started' := (started kp mv false base).

(** In the middle of a coding that gave [E]: whole, nothing is sent; else the head [hd] is still to go, or gone. *)
Definition coding_to c (hd : option bytes) (E : bytes) : Prop :=
  steady' (swap c) /\ (Z.of_nat (cap (coded c)) <= UINT32_MAX)%Z /\
  match hd with
  | None => unstarted base (swap c) E
  | Some h => no_body c = false /\ has_length (res c) = false /\ settled' (swap c) false h E
  end.

Lemma started_settled c final D : started' c D -> settled' c final [] D.
Proof.
  intros (h & f & n & Hb & Hs). exists h, f, n. destruct (no_body c).
  - exists []. split; [done|]. by rewrite !app_nil_r.
  - destruct Hs as (S & b & Hw & Hso & HD). exists b. split; [done|]. rewrite app_nil_r. split; [done|]. left. by exists S.
Qed.

Lemma coding_to_fill c hd E o : coding_to c hd E -> length o <= ioxd__pipewriter_room (coded c) ->
  let cw := ioxd__pipewriter_advance (store (coded c) (ioxd__pipewriter_at (coded c)) o) (length o) in
  coding_to (set_out c (out c) cw (net c)) hd (E ++ o) /\ ioxd__pipewriter_room cw = ioxd__pipewriter_room (coded c) - length o.
Proof.
  intros (Hst & Hcap & Hs) Ho cw. destruct (advance_data (coded c) o (length o) (st_out _ _ _ _ Hst) (le_n _) Ho) as (A1 & A2 & A3 & A4).
  rewrite firstn_all in A2. fold cw in A1, A2, A3, A4. pose proof A3 as (_ & A5 & _).
  split; [|unfold ioxd__pipewriter_room in *; rewrite A4, A5; lia]. split; [|split; [by rewrite <- A5 in Hcap|]].
  - destruct Hst as [T1 T2 T3 T4 T5 T6]. split; cbn; try done.
  - destruct hd as [h|].
    + destruct Hs as (N1 & N2 & h' & f & n & b & B1 & B2 & B3). split; [done|]. split; [done|]. exists h', f, n, b. split; [done|]. split; [done|].
      cbn in *. rewrite N1 in *. destruct B3 as [(S & Hso & ->)|(? & _)]; [|done]. left. exists S. split; [done|]. by rewrite A2, app_assoc.
    + destruct Hs as (U1 & U2 & U3 & U4 & U5). split_and!; try done. cbn in *. by rewrite A2, U3.
Qed.

(** A send in the middle of a coding empties the coded slab. *)
Lemma send_coded_spec c h E ok h' c' : coding_to c (Some h) E -> send_coded c h = (ok, h', c') ->
  if ok then h' = [] /\ coding_to c' (Some []) E /\ len (coded c') = 0 /\ same_slab (coded c) (coded c') /\ same_side c c' else failed (res c') = true.
Proof.
  intros (Hst & Hcap & Hnb & Hhl & Hse) Hs. apply (send_coded_swap 0) in Hs as (c2 & Hf & Hok); [|done..]. destruct ok; [|done].
  destruct Hok as (-> & -> & Hside). pose proof Hse as (h0 & f0 & n0 & b0 & _ & Hw & _).
  pose proof (flush_with_body _ _ _ _ _ _ _ _ _ _ _ Hst Hnb Hw Hf) as (F1 & _ & F3 & F4 & F5 & F6 & _).
  pose proof (flush_body_spec _ _ _ _ _ _ FLUSH_FULL _ _ E _ _ Hst Hse (or_introl eq_refl) ltac:(done) Hf) as [[_ Hstart] _].
  rewrite app_nil_r in Hstart. split; [done|]. split; [|by split_and!]. split; [done|].
  split; [destruct F4 as (_ & F4 & _); cbn in F4; by rewrite F4|]. split; [done|]. split; [|by apply started_settled].
  change (res c') with (res (swap c')). rewrite F6. done.
Qed.

Definition coded_to c (hd : option bytes) (X i : bytes) (op : ioxd_filter_op) (r : bool * option bytes * ctx W) : Prop :=
  match r with
  | (false, _, c') => failed (res c') = true
  | (true, hd', c') => exists f' E', filter c' = Some f' /\ coding_to c' hd' E' /\ fed f' (X ++ i) E' /\
      (op = IOXD_FILTER_FINISH -> decodes f' E' (X ++ i)) /\ (hd' = None <-> hd = None) /\ out c' = out c /\ on_head c' = on_head c /\
      same_slab (coded c) (coded c')
  end.

Lemma encode_loop_spec op : forall m c f hd X E i, 2 * work f op i + (if ioxd__pipewriter_room (coded c) =? 0 then 1 else 0) < m ->
  (Z.of_nat (length i) <= UINT32_MAX)%Z -> coding_to c hd E -> fed f X E -> exists r, (forall fuel, m <= fuel -> encode_loop fuel c f op i hd = Some r) /\ coded_to c hd X i op r.
Proof.
  induction m as [|m IH]; intros c f hd X E i Hm Hi Hc Hfed; [lia|].
  assert (Hroom32 : (Z.of_nat (ioxd__pipewriter_room (coded c)) <= UINT32_MAX)%Z) by (destruct Hc as (_ & Hcap & _); unfold ioxd__pipewriter_room; lia).
  destruct (filter_run f i (ioxd__pipewriter_room (coded c)) op) as [[[rc n] o] f'] eqn:Er.
  assert (Hstep : exists r, (forall fuel, m <= fuel -> encode_loop (S fuel) c f op i hd = Some r) /\ coded_to c hd X i op r).
  2: { destruct Hstep as (r & Hr & Hto). exists r. split; [|done]. intros [|fuel] Hfuel; [lia|]. apply Hr. lia. }
  cbn [encode_loop]. rewrite Er. set (c1 := set_hooks c (on_head c) (Some f')).
  destruct (Z.ltb_spec rc 0) as [|Hrc]; cbn [orb]; [by eexists|]. destruct (Nat.ltb_spec (length i) n) as [|Hn]; cbn [orb]; [by eexists|].
  change (coded c1) with (coded c). change (out c1) with (out c). change (net c1) with (net c).
  destruct (Nat.ltb_spec (ioxd__pipewriter_room (coded c)) (length o)) as [|Ho]; [by eexists|].
  destruct (run_fed _ _ _ _ _ _ _ _ _ _ Hfed Hi Hroom32 Er Hrc Hn Ho) as [Hfed' Hdec]. pose proof (run_work _ _ _ _ _ _ _ _ _ _ Hfed Hi Hroom32 Er Hrc Hn Ho) as Hwork.
  assert (Hc1 : coding_to c1 hd E) by done. destruct (coding_to_fill c1 hd E o Hc1 Ho) as [Hc2 Hroom].
  change (coded c1) with (coded c) in *. set (cw := ioxd__pipewriter_advance _ _) in *. set (c2 := set_out c1 (out c) cw (net c)).
  change (coding_to c2 hd (E ++ o)) in Hc2. assert (Hslab : same_slab (coded c) cw) by (by repeat split).
  destruct ((rc =? 0)%Z && (length (drop n i) =? 0)) eqn:Edone.
  { bool_to_prop. assert (n = length i) as -> by (rewrite length_drop in *; lia). rewrite take_ge in Hfed' by lia.
    eexists. split; [done|]. exists f', (E ++ o). split_and!; try done. intros Hop. by apply Hdec. }
  clear Edone. change (coded c2) with cw.
  destruct (Nat.eqb_spec (ioxd__pipewriter_room cw) 0) as [Hz|Hz].
  - destruct hd as [h|]; [|by eexists]. destruct (send_coded c2 h) as [[ok h'] c3] eqn:Es. pose proof (send_coded_spec _ _ _ _ _ _ Hc2 Es) as Hsc.
    destruct ok; [|by eexists]. destruct Hsc as (-> & Hc3 & Hl3 & Hs3 & (G1 & G2 & G3 & _)).
    assert (Hr3 : ioxd__pipewriter_room (coded c3) <> 0).
    { unfold ioxd__pipewriter_room. rewrite Hl3. pose proof (st_cap _ _ _ _ (proj1 Hc3)) as [Hcap _]. cbn in Hcap. lia. }
    destruct (IH c3 f' (Some []) (X ++ take n i) (E ++ o) (drop n i)) as (r & Hr & Hto); [|rewrite length_drop; lia|done..|].
    { unfold moved in Hwork. destruct (Nat.eqb_spec (ioxd__pipewriter_room (coded c3)) 0); [done|]. rewrite Hroom in Hz.
      destruct (Nat.eqb_spec n 0), (Nat.eqb_spec (length o) 0), (Nat.eqb_spec (ioxd__pipewriter_room (coded c)) 0); cbn [andb] in Hwork; lia. }
    exists r. split; [done|]. clear -Hto G1 G3 Hs3 Hslab. destruct r as [[[] hd'] c']; [|done].
    unfold coded_to in Hto. rewrite <- app_assoc, take_drop in Hto. destruct Hto as (f2 & E2 & K1 & K2 & K3 & K4 & K5 & K6 & K7 & K8). exists f2, E2. split_and!; try done; try congruence.
    + split; [intros Hx; discriminate (proj1 K5 Hx)|done].
    + by rewrite K6, G3.
    + by rewrite K7, G1.
    + unfold same_slab in *. cbn in *. intuition congruence.
  - destruct ((n =? 0) && (length o =? 0)) eqn:Emv; [by eexists|].
    destruct (IH c2 f' hd (X ++ take n i) (E ++ o) (drop n i)) as (r & Hr & Hto); [|rewrite length_drop; lia|done..|].
    { unfold moved in Hwork. rewrite Emv in Hwork. change (coded c2) with cw. destruct (Nat.eqb_spec (ioxd__pipewriter_room cw) 0); [done|]. lia. }
    exists r. split; [done|]. destruct r as [[[] hd'] c']; [|done]. unfold coded_to in Hto. rewrite <- app_assoc, take_drop in Hto.
    destruct Hto as (f2 & E2 & K1 & K2 & K3 & K4 & K5 & K6 & K7 & K8). exists f2, E2. split_and!; try done.
Qed.

(** *** One flush *)

Definition slab_ok (pw : pipewriter) : Prop := idle pw /\ 0 < cap pw /\ (Z.of_nat (cap pw) <= UINT32_MAX)%Z.

Lemma settled_any c final h D : settled' c false h D -> settled' c final h D.
Proof.
  intros (h' & f & n & b & B1 & B2 & B3). exists h', f, n, b. split; [done|]. split; [done|]. destruct (no_body c); [done|].
  destruct B3 as [|(? & _)]; [by left|done].
Qed.

Lemma coding_to_out c pw hd E : coding_to c hd E -> coding_to (set_out c pw (coded c) (net c)) hd E.
Proof. intros ([] & Hcap & Hs). split; [by split|]. split; [done|]. by destruct hd. Qed.

Lemma encode_spec c f hd X E op : filter c = Some f -> coding_to c hd E -> fed f X E -> slab_ok (out c) ->
  settles (fun fuel => encode fuel c op hd) (fun r =>
    match r with
    | (false, _, c') => failed (res c') = true
    | (true, hd', c') => exists f' E', filter c' = Some f' /\ coding_to c' hd' E' /\ fed f' (X ++ data (out c)) E' /\
        (op = IOXD_FILTER_FINISH -> decodes f' E' (X ++ data (out c))) /\ (hd' = None <-> hd = None) /\
        len (out c') = 0 /\ slab_ok (out c') /\ same_slab (out c) (out c') /\ on_head c' = on_head c
    end).
Proof.
  intros Hf Hc Hfed Hout. unfold encode. rewrite Hf. fold (data (out c)).
  destruct (encode_loop_spec op _ c f hd X E (data (out c)) (Nat.lt_succ_diag_r _) ltac:(destruct Hout as [Hi [_ Hu]]; rewrite length_data by done; destruct Hi as [[] ? ? ?]; lia) Hc Hfed) as (r & Hr & Hto).
  apply settles_bind with (P := fun r => coded_to c hd X (data (out c)) op r).
  { exists r. split; [done|]. eexists. exact Hr. }
  clear r Hr Hto. intros [[[] hd'] c'] Hto; [|by (eapply settles_ret; [|done])]. destruct Hto as (f' & E' & K1 & K2 & K3 & K4 & K5 & K6 & K7 & K8).
  eapply settles_ret; [|done]. exists f', E'. rewrite K6. destruct Hout as [[[] ? ? ?] ?].
  split_and!; try done; [by apply coding_to_out|]. split; [|done]. split; try done. split; cbn; try done. lia.
Qed.

Definition coded_small c : Prop := (Z.of_nat (cap (coded c)) <= UINT32_MAX)%Z.

(** A coded reply under way, [D] all the data given to it. *)
Definition coding_inv c (D : bytes) : Prop :=
  exists f E, filter c = Some f /\ on_head c = None /\ slab_ok (out c) /\ coded_small c /\ steady' (swap c) /\ started' (swap c) E /\
    (no_body c = false -> has_length (res c) = false /\ exists X, fed f X E /\ D = X ++ data (out c)).

(** All of it sent, before the end has compared lengths. *)
Definition final_coded c (D : bytes) : Prop :=
  exists f E, filter c = Some f /\ final_sent kp mv false base (swap c) E /\ (no_body c = false -> decodes f E D).

Definition flushed c (kind : flush_kind) (D : bytes) (r : bool * ctx W) : Prop :=
  match r with
  | (true, c') => (if is_final kind then final_coded c' D else coding_inv c' D) /\ len (out c') = 0 /\ same_slab (out c) (out c')
  | (false, c') => failed (res c') = true
  end.

Lemma slab_ok_reset pw : slab_ok pw -> slab_ok (ioxd__pipewriter_reset pw).
Proof. intros [[? ? ? ?] ?]. split; [split|]; try done. by apply writer_ok_reset. Qed.

Lemma through_reset pw d w ok pw' w' : Writer.failed pw = false -> ioxd__pipewriter_through pw d w = (ok, pw', w') -> ok = true -> pw' = pw.
Proof. unfold ioxd__pipewriter_through. intros ->. destruct (conn_send d w) as [rc ?]. destruct (rc <? 0)%Z; by intros [= <- <- <-]. Qed.

(** A reply without a body drops the data, coded or not. *)
Lemma flush_no_body_coded fuel c f E kind whole final h D : filter c = Some f -> on_head c = None -> slab_ok (out c) -> coded_small c -> steady' (swap c) ->
  no_body c = true -> settled' (swap c) final h E -> exists r, flush_body fuel c kind true whole h [] = Some r /\ flushed c kind D r.
Proof.
  intros Hf Hh Ho Hsm Hst Hnb (h0 & f0 & n0 & b & Hb & Hw & Hs). change (no_body (swap c)) with (no_body c) in Hs. rewrite Hnb in Hs. subst b.
  unfold flush_body. rewrite Hnb. set (c1 := set_out c _ _ _). pose proof (slab_ok_reset _ Ho) as Ho1.
  assert (Hok : forall w, Writer.wire w = base ++ h0 ->
    flushed c kind D (true, set_out c1 (ioxd__pipewriter_reset (out c)) (ioxd__pipewriter_reset (coded c)) w)).
  { intros w Hww. assert (Hsw : steady' (swap (set_out c1 (ioxd__pipewriter_reset (out c)) (ioxd__pipewriter_reset (coded c)) w))).
    { destruct Hst as [T1 T2 [? ? ? ?] T4 T5 T6]. split; cbn; try done. split; try done. by apply writer_ok_reset. }
    split; [|done]. destruct (is_final kind); exists f, E; split_and!; try done.
    - split; [exact Hsw|]. exists h0, f0, n0, []. rewrite app_nil_r. split; [done|]. split; [done|]. cbn. rewrite Hnb. by left.
    - cbn. by rewrite Hnb.
    - exists h0, f0, n0. split; [done|]. cbn. by rewrite Hnb.
    - cbn. by rewrite Hnb. }
  rewrite app_nil_r in Hw. destruct (Nat.ltb_spec 0 (length h)) as [Hl|Hl].
  - change (out c1) with (ioxd__pipewriter_reset (out c)). destruct (ioxd__pipewriter_through _ h (net c1)) as [[ok pw] w] eqn:Et.
    pose proof Et as Et'. apply through_spec in Et as (_ & _ & _ & _ & P5); [|apply (proj1 Ho1)]. rewrite (id_failed _ (proj1 Ho1)) in P5. destruct P5 as [_ P6].
    destruct ok; [|by eexists]. apply through_reset in Et'; [|apply (proj1 Ho1)|done]. subst pw. eexists. split; [done|]. apply Hok.
    apply sent_some_true in P6. rewrite P6. exact Hw.
  - destruct h; [|cbn in Hl; lia]. eexists. split; [done|]. apply (Hok (net c)). by rewrite app_nil_r in Hw.
Qed.

(** The send of what was coded. *)
Lemma flush_body_coded c f E h D kind : filter c = Some f -> on_head c = None -> slab_ok (out c) -> len (out c) = 0 -> coded_small c -> steady' (swap c) ->
  no_body c = false -> settled' (swap c) (is_final kind) h E ->
  (if is_final kind then decodes f E D else has_length (res c) = false /\ fed f D E) ->
  exists r, (forall fuel, flush_body fuel c kind true true h [] = Some r) /\ flushed c kind D r.
Proof.
  intros Hf Hh Ho Hl Hsm Hst Hnb Hse Hdec. assert (Htot : exists r, forall fuel, flush_body fuel c kind true true h [] = Some r).
  { unfold flush_body. rewrite Hnb. cbn [andb negb]. destruct (clamp c true []) as [[o e] c1]. destruct (send_framed _ _ _ _ _) as [[] c2]; [destruct o|]; by eexists. }
  destruct Htot as ([ok c'] & Hr). exists (ok, c'). split; [done|]. specialize (Hr 0). apply flush_body_swap in Hr as [Hr (G1 & G2 & G3 & _)]; [|done].
  pose proof Hse as (h0 & f0 & n0 & b0 & _ & Hw & _). pose proof (flush_with_body _ _ _ _ _ _ _ _ _ _ _ Hst Hnb Hw Hr) as Hb.
  pose proof (flush_body_spec _ _ _ _ _ _ kind _ _ E _ _ Hst Hse (or_introl eq_refl) ltac:(done) Hr) as Hs.
  destruct ok; [|done]. destruct Hs as [Hs _]. destruct Hb as (_ & _ & _ & (_ & F4 & _) & F5 & F6 & _). cbn [flushed]. rewrite G3.
  split; [|by repeat split]. destruct (is_final kind).
  - exists f, E. split; [congruence|]. by split.
  - destruct Hs as [Hs1 Hs2]. rewrite app_nil_r in Hs2. destruct Hdec as [Hd1 Hd2]. exists f, E. rewrite G3. unfold coded_small in *. cbn in F4. rewrite <- F4 in Hsm. split_and!; try done; try congruence.
    intros _. split; [change (res c') with (res (swap c')); by rewrite F6|]. exists D. split; [done|].
    destruct Ho as [Hi _]. rewrite (proj1 (length_zero_iff_nil _) (eq_trans (length_data _ Hi) Hl)). by rewrite app_nil_r.
Qed.

Lemma flush_body_streaming c f E h D kind : filter c = Some f -> on_head c = None -> slab_ok (out c) -> coded_small c -> steady' (swap c) -> settled' (swap c) false h E ->
  (no_body c = false -> has_length (res c) = false /\ exists X, fed f X E /\ D = X ++ data (out c)) ->
  settles (fun fuel => flush_body fuel c kind true false h []) (flushed c kind D).
Proof.
  intros Hf Hh Ho Hsm Hst Hse Hfed. destruct (no_body c) eqn:Hnb.
  { destruct (flush_no_body_coded 0 c f E kind false false h D) as (r & Hr & Hfl); [done..|]. eapply settles_ret; [exact Hfl|]. intros n. rewrite <- Hr. unfold flush_body. by rewrite Hnb. }
  destruct (Hfed eq_refl) as (Hhl & X & HX & ->).
  pose proof (encode_spec c f (Some h) X E (kind_op kind) Hf ltac:(by split_and!) HX Ho) as Henc.
  destruct Henc as (r & Hr & N & HN).
  assert (Hunf : forall n, N <= n -> flush_body n c kind true false h [] =
    match r with (false, _, c2) => Some (false, c2) | (true, hd, c2) => if no_body c2 then flush_body n c kind true false h [] else flush_body n c2 kind true true (default [] hd) [] end).
  { intros n Hn. unfold flush_body. rewrite Hnb. cbn [andb negb]. rewrite HN by done. destruct r as [[[] hd] c2]; [|done]. by destruct (no_body c2). }
  destruct r as [[[] hd] c2]; [|by exists (false, c2); split; [|eexists]].
  destruct Hr as (f2 & E2 & K1 & (K2 & Ksm & K3) & K4 & K5 & K6 & K7 & K8 & K9 & K10). destruct hd as [h2|]; [|discriminate (proj1 K6 eq_refl)].
  destruct K3 as (K3 & K11 & K12). rewrite K3 in Hunf. cbn [default] in Hunf.
  destruct (flush_body_coded c2 f2 E2 h2 (X ++ data (out c)) kind) as (r & Hr & Hfl); [done|congruence|done..| | |].
  { by apply settled_any. }
  { destruct kind; cbn [is_final]; [done|done|]. by apply K5. }
  exists r. split; [|exists N; intros n Hn; by rewrite Hunf, Hr]. destruct r as [[] c3]; [|done]. destruct Hfl as (Q1 & Q2 & Q3).
  split; [done|]. split; [done|]. unfold same_slab in *. intuition congruence.
Qed.

Lemma flush_coding c D kind : coding_inv c D -> settles (fun fuel => flush_with fuel c kind []) (flushed c kind D).
Proof.
  intros (f & E & Hf & Hh & Ho & Hsm & Hst & Hstart & Hfed). eapply settles_ext; [eapply flush_body_streaming with (h := []); try done; by apply started_settled|].
  intros fuel. assert (Hsent : head_sent (res c) = true) by (by destruct Hstart as (? & ? & ? & (? & _ & ? & _) & _)).
  unfold flush_with. change (failed (res c)) with (failed (res (swap c))). rewrite (st_live _ _ _ _ Hst), run_delegate_quiet by (by left).
  unfold has_filter. rewrite Hf. change (head_only c) with (head_only (swap c)). rewrite (proj2 (proj2 (st_req _ _ _ _ Hst))), Hsent. cbn [andb negb].
  unfold settle_head. by rewrite Hsent.
Qed.

(** A filter just installed, nothing sent. *)
Definition installed c (f : Coder) (D : bytes) : Prop :=
  filter c = Some f /\ on_head c = None /\ slab_ok (out c) /\ coded_small c /\ steady' (swap c) /\ unstarted base (swap c) [] /\ D = data (out c) /\ fed f [] [].

Lemma settle_head_length c coding final ok h c' : has_length (res c) = false -> settle_head c coding final = (ok, h, c') -> ok = true -> has_length (res c') = false.
Proof.
  intros Hl. unfold settle_head. destruct (head_sent (res c)); [by intros [= <- <- <-]|].
  unfold decide_framing. cbn [res set_no_body Context.set_flags]. rewrite Hl. cbn [andb negb]. change (has_length (res (set_no_body c ?b))) with (has_length (res c)). rewrite Hl.
  set (c1 := set_no_body c _). assert (Hl1 : has_length (res c1) = false) by done. clearbody c1. cbn [andb negb].
  assert (Hc : forall c2, has_length (res c2) = false -> has_length (res (close_if_unread c2)) = false).
  { intros c2 H2. unfold close_if_unread. by repeat case_match. }
  repeat case_match; simplify_eq; intros [= <- <- <-] _; try done; by apply Hc.
Qed.

Lemma settle_head_coded c final E ok h c' : steady' (swap c) -> unstarted base (swap c) E -> settle_head c true final = (ok, h, c') ->
  if ok then steady' (swap c') /\ settled' (swap c') final h E /\ same_side c c' /\ coded c' = coded c else failed (res c') = true.
Proof.
  intros Hst Hun Hs. apply settle_head_swap in Hs. destruct ok; [|done]. destruct Hs as (Hs & Hside & Hcd).
  by destruct (settle_head_spec _ _ _ _ _ E _ _ _ _ (conj Hst (or_introl Hun)) Hs) as (? & ? & _ & _).
Qed.

Lemma flush_installed c f D kind : installed c f D -> settles (fun fuel => flush_with fuel c kind []) (flushed c kind D).
Proof.
  intros (Hf & Hh & Ho & Hsm & Hst & Hun & -> & Hfed). pose proof Hun as (Hsent & _). change (head_sent (res (swap c))) with (head_sent (res c)) in Hsent.
  assert (Hunf : forall fuel, flush_with fuel c kind [] =
    let c1 := if is_final kind then c else set_res c (set_length (res c) (content_length (res c)) false) in
    match (if is_final kind then encode fuel c IOXD_FILTER_FINISH None else Some (true, None, c1)) with
    | None => None | Some (false, _, c2) => Some (false, c2)
    | Some (true, _, c2) => match settle_head c2 true (is_final kind) with (false, _, c2) => Some (false, c2) | (true, h, c2) => flush_body fuel c2 kind true (is_final kind) h [] end
    end).
  { intros fuel. unfold flush_with. change (failed (res c)) with (failed (res (swap c))). rewrite (st_live _ _ _ _ Hst), run_delegate_quiet by (by left).
    unfold has_filter. rewrite Hf. change (head_only c) with (head_only (swap c)). rewrite (proj2 (proj2 (st_req _ _ _ _ Hst))), Hsent. cbn [andb negb].
    by destruct (is_final kind). }
  eapply settles_ext; [|exact Hunf]. clear Hunf. cbv zeta. destruct (is_final kind) eqn:Ek.
  - eapply settles_bind; [by apply (encode_spec c f None [] [] IOXD_FILTER_FINISH)|]. intros [[[] hd] c2] Hc2; [|by (eapply settles_ret; [|done])].
    destruct Hc2 as (f2 & E2 & K1 & (K2 & Ksm & K3) & K4 & K5 & K6 & K7 & K8 & K9 & K10). destruct hd as [|]; [discriminate (proj2 K6 eq_refl)|].
    destruct (settle_head c2 true true) as [[ok h] c3] eqn:Es. apply (settle_head_coded _ _ E2) in Es; [|done..].
    destruct ok; [|by (eapply settles_ret; [|done])]. destruct Es as (S1 & S2 & (G1 & G2 & G3 & _) & S4).
    assert (Hsm3 : coded_small c3) by (unfold coded_small; by rewrite S4).
    assert (Hfl : exists r, (forall fuel, flush_body fuel c3 kind true true h [] = Some r) /\ flushed c3 kind (data (out c)) r).
    { destruct (no_body c3) eqn:Hnb.
      - destruct (flush_no_body_coded 0 c3 f2 E2 kind true true h (data (out c))) as (r & Hr & Hfl); [congruence|congruence|by rewrite G3|done..|].
        exists r. split; [|done]. intros n. rewrite <- Hr. unfold flush_body. by rewrite Hnb.
      - apply (flush_body_coded _ f2 E2); try done; [congruence|congruence|by rewrite G3|by rewrite G3|by rewrite Ek|]. rewrite Ek. by apply K5. }
    destruct Hfl as (r & Hr & Hfl). eapply settles_ret; [|exact Hr]. destruct r as [[] c4]; [|done]. destruct Hfl as (Q1 & Q2 & Q3).
    split; [done|]. split; [done|]. rewrite G3 in Q3. unfold same_slab in *. intuition congruence.
  - set (c1 := set_res c _). assert (Hst1 : steady' (swap c1)) by (apply (steady_res _ _ _ (swap c)); [done|apply (st_len _ _ _ _ Hst)|done]).
    destruct (settle_head c1 true false) as [[ok h] c3] eqn:Es. pose proof (settle_head_length c1 _ _ _ _ _ eq_refl Es) as Hl.
    apply (settle_head_coded _ _ []) in Es; [|done..]. destruct ok; [|by (eapply settles_ret; [|done])]. destruct Es as (S1 & S2 & (G1 & G2 & G3 & _) & S4).
    assert (Hsm3 : coded_small c3) by (unfold coded_small; by rewrite S4).
    eapply settles_mono; [apply (flush_body_streaming c3 f [] h (data (out c)) kind); [by rewrite G2|by rewrite G1|by rewrite G3|done..|]|].
    { intros _. split; [by apply Hl|]. exists []. split; [done|]. by rewrite G3. }
    intros [[] c4]; [|done]. cbn [flushed]. by rewrite G3.
Qed.

(** A delegate still to be asked about the head. *)
Definition waiting c (D : bytes) : Prop :=
  (exists d, on_head c = Some d /\ delegate_ok d) /\ (Z.of_nat (cap (out c)) <= UINT32_MAX)%Z /\ filter c = None /\ slab_ok (coded c) /\ len (coded c) = 0 /\
  steady' (set_hooks c None None) /\ unstarted base c D.

Lemma fields_rest fields r : exists ct hs n h, foldl (fun r (nv : option bytes * option bytes) => (ioxd_header r nv.1 nv.2).2) r fields = set_head r ct hs n h.
Proof.
  revert r. induction fields as [|nv fields IH]; intros r; cbn [foldl]; [exists (content_type r), (headers r), (head_len r), (Response.head r); by destruct r|].
  destruct (header_rest r nv.1 nv.2) as (ct & hs & n & h & ->). destruct (IH (set_head r ct hs n h)) as (ct2 & hs2 & n2 & h2 & ->). by eexists _, _, _, _.
Qed.

(** Without a filter the fuel is not used. *)
Lemma flush_with_fuel n m c kind extra : filter c = None /\ (on_head c = None \/ head_only c = true) -> flush_with n c kind extra = flush_with m c kind extra.
Proof. intros [Hf Hh]. unfold flush_with. rewrite run_delegate_quiet by done. unfold has_filter. by rewrite Hf. Qed.

Lemma flush_waiting c D kind : waiting c D -> settles (fun fuel => flush_with fuel c kind []) (fun r =>
  flushed c kind D r \/
  match r with
  | (true, c') => (if is_final kind then final_sent kp mv false base c' D else reply_inv kp mv false base c' D) /\ len (out c') = 0 /\ same_slab (out c) (out c')
  | (false, _) => False
  end).
Proof.
  intros ((d & Hd & Hdok) & Hou & Hf & Hco & Hcl & Hst & Hun). pose proof Hst as [S1 (S2 & S3 & S4) S5 S6 S7 S8]. pose proof Hun as (Hsent & Hw & HD & Hbs & Hck).
  destruct (head_call d (req c) (res c) (len (out c)) (is_final kind)) as [r fo] eqn:Ec. destruct (head_call_fields _ _ _ _ _ _ _ Hdok Ec) as [(fields & Hr) Hnew].
  destruct (fields_rest fields (res c)) as (ct & hs & n & h & Hfr). rewrite Hfr in Hr. clear Hfr. set (c1 := set_hooks (set_res c r) None fo).
  assert (Hdel : run_delegate c (is_final kind) = c1).
  { unfold run_delegate. rewrite Hd, Hsent. change (head_only c) with (head_only (set_hooks c None None)). rewrite S4, Ec, Hf. cbn [andb negb]. by destruct fo. }
  assert (Hunf : forall fuel, flush_with fuel c kind [] = flush_with fuel c1 kind []).
  { intros fuel. unfold flush_with. rewrite Hdel, run_delegate_quiet by (by left). change (failed (res c)) with (failed (res (set_hooks c None None))).
    change (failed (res c1)) with (failed r). rewrite S8, Hr. cbn [failed set_head]. change (failed (res c)) with (failed (res (set_hooks c None None))). by rewrite S8. }
  eapply settles_ext; [|exact Hunf]. destruct fo as [f|].
  - eapply settles_mono; [apply (flush_installed c1 f D kind)|intros [[] c2]; by left].
    split; [done|]. split; [done|]. split; [split; [done|]; split; [apply S6|done]|]. split; [apply Hco|]. split.
    + destruct Hco as (? & ? & ?). subst r. split; try done. cbn. unfold UINT32_MAX, SIZE_MAX, UINT64_MAX in *. split; [done|lia].
    + destruct Hco as [Hi _]. split; [|split; [done|by apply Hnew]]. unfold unstarted. change (res (swap c1)) with r. subst r. split_and!; try done.
      symmetry. apply length_zero_iff_nil. by rewrite length_data.
  - assert (Hinv : reply_inv kp mv false base c1 D).
    { subst r. split; [split; try done; by split; [|left]|]. left. by split_and!. }
    destruct (flush_with_total 0 c1 kind []) as (ok & c2 & E); [by split; [|left]|]. exists (ok, c2). split.
    + pose proof (flush_with_spec' _ _ _ base _ _ D _ _ _ _ Hinv (or_introl eq_refl) E) as Hs. rewrite app_nil_r in Hs. destruct ok; [by right|by left].
    + exists 0. intros fuel _. rewrite <- E. apply flush_with_fuel; by split; [|left].
Qed.
End Coded.

(** ** A handler's reply, coded or not *)

Section Handler.
Context {W : Type} `{Sender W, !SenderLaws W} `{Hooks} `{!CoderLaws}.
Context (kp : bool) (mv : Z) (ho : bool) (base : bytes).
Implicit Types (c : ctx W).

(** A reply that goes on: plain, about to ask its delegate, or coded. *)
Definition going c (D : bytes) : Prop :=
  reply_inv kp mv ho base c D \/ ho = false /\ (waiting kp mv base c D \/ coding_inv kp mv base c D).

Definition over c (D : bytes) : Prop :=
  final_sent kp mv ho base c D \/ ho = false /\ final_coded kp mv base c D.

Definition went c (kind : flush_kind) (D : bytes) (r : bool * ctx W) : Prop :=
  match r with
  | (true, c') => (if is_final kind then over c' D else going c' D) /\ len (out c') = 0 /\ same_slab (out c) (out c')
  | (false, c') => failed (res c') = true
  end.

Lemma flush_going c D kind : going c D -> settles (fun fuel => flush_with fuel c kind []) (went c kind D).
Proof.
  unfold went, over, going. intros [Hinv|[-> [Hw|Hc]]].
  - destruct (flush_with_total 0 c kind []) as (ok & c2 & E); [apply Hinv|]. eapply settles_ret with (r := (ok, c2)).
    + pose proof (flush_with_spec' _ _ _ base _ _ D _ _ _ _ Hinv (or_introl eq_refl) E) as Hs. rewrite app_nil_r in Hs.
      destruct ok; [|done]. destruct Hs as [Hs ?]. split; [|done]. destruct (is_final kind); by left.
    + intros n. rewrite <- E. apply flush_with_fuel, Hinv.
  - eapply settles_mono; [by apply flush_waiting|]. intros [[] c2] [Hr|Hr]; try done; destruct Hr as (Hr & ?); (split; [|done]);
      destruct (is_final kind); try (by left); right; (split; [done|]); [done|by right].
  - eapply settles_mono; [by apply flush_coding|]. intros [[] c2] Hr; [|done]. destruct Hr as (Hr & ?). split; [|done].
    destruct (is_final kind); right; (split; [done|]); [done|by right].
Qed.

Lemma going_slab c D : going c D -> (idle (out c) /\ 0 < cap (out c)) /\ failed (res c) = false.
Proof.
  intros [[Hst _]|[_ [(_ & _ & _ & _ & _ & Hst & _)|(f & E & _ & _ & Ho & _ & Hst & _)]]].
  - split; [split; [apply (st_out _ _ _ _ Hst)|apply (st_cap _ _ _ _ Hst)]|apply (st_live _ _ _ _ Hst)].
  - split; [split; [apply (st_out _ _ _ _ Hst)|apply (st_cap _ _ _ _ Hst)]|apply (st_live _ _ _ _ Hst)].
  - split; [split; apply Ho|apply (st_live _ _ _ _ Hst)].
Qed.

(** Bytes go out uncopied only for a plain reply. *)
Lemma going_raw c D : going c D -> raw_framed c = true -> reply_inv kp mv ho base c D.
Proof.
  intros [Hinv|[_ [((d & Hd & _) & _)|(f & E & Hf & Hh & _)]]] Hr; [done| |]; unfold raw_framed in Hr; [by rewrite Hd in Hr|by rewrite Hh, Hf in Hr].
Qed.

Lemma going_out c D pw d : going c D -> idle pw -> same_slab (out c) pw -> data pw = data (out c) ++ d ->
  going (set_out c pw (coded c) (net c)) (D ++ d).
Proof.
  intros [Hinv|[Hho [Hw|Hc]]] Hi Hs Hd; [left; by apply reply_inv_out|right; split; [done|left]|right; split; [done|right]].
  - destruct Hw as (W1 & W0 & W2 & W3 & W4 & [T1 T2 T3 T4 T5 T6] & U1 & U2 & -> & U4 & U5).
    split_and!; try done; [cbn; by destruct Hs as (_ & -> & _)|].
    split; try done. cbn. by destruct Hs as (_ & -> & _).
  - destruct Hc as (f & E & C1 & C2 & [C3 C4] & Csm & C5 & C6 & C7). exists f, E. split_and!; try done.
    + cbn. split; [done|]. destruct Hs as (_ & -> & _). done.
    + destruct C5. by split.
    + intros Hnb. destruct (C7 Hnb) as (C8 & X & C9 & ->). split; [done|]. exists X. split; [done|]. cbn. by rewrite Hd, app_assoc.
Qed.

Lemma going_fill c D d : going c D -> length d <= ioxd__pipewriter_room (out c) ->
  let c' := set_out c (ioxd__pipewriter_advance (store (out c) (ioxd__pipewriter_at (out c)) d) (length d)) (coded c) (net c) in
  going c' (D ++ d) /\ len (out c') = len (out c) + length d /\ cap (out c') = cap (out c).
Proof.
  intros Hg Hd c'. destruct (going_slab _ _ Hg) as [[Hi _] _]. destruct (advance_data (out c) d (length d) Hi (le_n _) Hd) as (H1' & H2' & H3' & H4').
  rewrite firstn_all in H2'. split; [by apply going_out|]. split; [done|]. apply H3'.
Qed.

(** What a call leaves: the data it took, or a failed reply. *)
Definition took (D d : bytes) (r : bool * ctx W) : Prop := if (r.1 : bool) then going r.2 (D ++ d) else failed (res r.2) = true.

Lemma settles_flush c kind D (K : ctx W -> nat -> option (bool * ctx W)) P : going c D ->
  (forall c1, went c kind D (true, c1) -> settles (K c1) P) -> (forall c1, failed (res c1) = true -> P (false, c1)) ->
  settles (fun n => match flush n c kind with Some (true, c1) => K c1 n | r => r end) P.
Proof.
  intros Hg HK HP. apply settles_ext with (F := fun n => match flush_with n c kind [] with Some r => (let '(ok, c1) := r in fun n => if (ok : bool) then K c1 n else Some (false, c1)) n | None => None end).
  - apply (settles_bind _ (fun r => let '(ok, c1) := r in fun n => if (ok : bool) then K c1 n else Some (false, c1)) (went c kind D) P (flush_going c D kind Hg)). intros [[] c1] Hw; [by apply HK|]. eapply settles_ret; [|done]. by apply HP.
  - intros n. unfold flush. by destruct (flush_with n c kind []) as [[[] ?]|].
Qed.

Lemma write_loop_going fuel c D src : going c D -> 2 * length src + (if ioxd__pipewriter_room (out c) =? 0 then 1 else 0) <= fuel ->
  settles (fun efuel => write_loop fuel efuel c src) (took D src).
Proof.
  revert c D src. induction fuel as [|fuel IH]; intros c D src Hg Hf; cbn [write_loop];
    (destruct (Nat.eqb_spec (length src) 0) as [Hz|Hz]; [destruct src; [|done]; eapply settles_ret; [|done]; cbn; by rewrite app_nil_r|]).
  { destruct (_ =? 0); lia. }
  destruct (going_slab _ _ Hg) as [[[[Hb1 Hb2 Hb3 Hb4] _ _ _] Hcap] _]. destruct (Nat.eqb_spec (ioxd__pipewriter_room (out c)) 0) as [Hr|Hr].
  - apply (settles_flush c FLUSH_FULL D (fun c n => write_loop fuel n c src)); [done| |done]. intros c1 (Hg1 & Hl1 & _ & Hc1 & _). apply (IH c1 D src Hg1).
    unfold ioxd__pipewriter_room. destruct (Nat.eqb_spec (cap (out c1) - len (out c1)) 0); lia.
  - set (n := if length src <? ioxd__pipewriter_room (out c) then length src else ioxd__pipewriter_room (out c)).
    assert (Hn : 0 < n /\ n <= length src /\ n <= ioxd__pipewriter_room (out c)) by (unfold n; destruct (Nat.ltb_spec (length src) (ioxd__pipewriter_room (out c))); lia).
    assert (Hlt : length (take n src) = n) by (rewrite length_take; lia).
    destruct (going_fill c D (take n src) Hg ltac:(lia)) as (F1 & F2 & F3). rewrite Hlt in F1, F2, F3.
    eapply settles_mono; [apply (IH _ _ (drop n src) F1); rewrite length_drop; destruct (_ =? 0); lia|].
    intros [[] c'] Ht; [|done]. unfold took in *. cbn in *. by rewrite <- app_assoc, take_drop in Ht.
Qed.

Lemma write_going c D d : going c D -> settles (fun efuel => ioxd_write efuel c d) (took D d).
Proof.
  intros Hg. unfold ioxd_write. rewrite (proj2 (going_slab _ _ Hg)). destruct (_ && raw_framed c) eqn:E.
  - apply andb_true_iff in E as [_ E]. pose proof (going_raw _ _ Hg E) as Hinv. destruct (flush_with_total 0 c FLUSH_FULL d) as (ok & c' & Hf); [apply Hinv|].
    apply settles_ret with (r := (ok, c')); [|intros n; rewrite <- Hf; apply flush_with_fuel, Hinv].
    pose proof (flush_with_spec' _ _ _ base _ _ D FLUSH_FULL d _ _ Hinv (or_intror (conj E eq_refl)) Hf) as Hs. destruct ok; [|done]. left. apply Hs.
  - apply write_loop_going; [done|]. destruct (_ =? 0); lia.
Qed.

Lemma format_going c D size text : going c D -> size <= ioxd__pipewriter_room (out c) ->
  going (set_out c (format_at (out c) size text) (coded c) (net c)) D.
Proof.
  intros Hg Hs. destruct (format_room (out c) size text (proj1 (proj1 (going_slab _ _ Hg))) Hs) as (F1 & F2 & F3 & _).
  rewrite <- (app_nil_r D). apply going_out; try done. by rewrite app_nil_r.
Qed.

Lemma printf_going c D text heap : going c D -> settles (fun efuel => ioxd_printf efuel c text heap)
  (fun r => (exists t, text = Some t /\ took D t r) \/ text = None /\ r = (false, c)).
Proof.
  intros Hg. destruct (going_slab _ _ Hg) as [[Hi _] Hlive]. unfold ioxd_printf. rewrite Hlive.
  destruct text as [t|]; [|eapply settles_ret; [|done]; by right].
  destruct (Nat.ltb_spec (length t) (ioxd__pipewriter_room (out c))) as [Hl|Hl].
  { destruct (format_advance (out c) _ t Hi Hl (le_n _)) as (F1 & F2 & F3). eapply settles_ret; [|done]. left. exists t. split; [done|]. exact (going_out c D _ t Hg F1 F3 F2). }
  pose proof (format_going c D _ t Hg (le_n _)) as Hg1. set (c1 := set_out c (format_at _ _ _) _ _) in *.
  destruct (Nat.leb_spec (cap (out c1)) (length t)) as [Hc|Hc].
  { destruct heap; [|eapply settles_ret; [|done]; left; by exists t]. eapply settles_mono; [exact (write_going c1 D t Hg1)|]. intros r Hr. left. by exists t. }
  eapply (settles_flush c1 FLUSH_FULL D (fun c _ => Some (true, set_out c (ioxd__pipewriter_advance (format_at (out c) (cap (out c)) t) (length t)) (coded c) (net c))));
    [done| |intros c2 Hf; left; by exists t]. intros c2 (Hg2 & Hl2 & _ & Hc2 & _).
  destruct (format_advance (out c2) (cap (out c2)) t (proj1 (proj1 (going_slab _ _ Hg2)))) as (G1 & G2 & G3); [lia|unfold ioxd__pipewriter_room; lia|].
  eapply settles_ret; [|done]. left. exists t. split; [done|]. by apply going_out.
Qed.

Lemma reserve_going c D n d : going c D -> length d <= n ->
  settles (fun efuel => reply_do efuel (RFill n d) c) (fun r => failed (res r.2) = true \/ going r.2 (D ++ if (r.1 : bool) then d else [])).
Proof.
  intros Hg Hd. cbn [reply_do]. unfold ioxd_reserve. rewrite (proj2 (going_slab _ _ Hg)). cbn [orb].
  destruct (Nat.ltb_spec (cap (out c)) n) as [Hn|Hn]; [eapply settles_ret; [|done]; right; by rewrite app_nil_r|].
  destruct (Nat.ltb_spec (ioxd__pipewriter_room (out c)) n) as [Hr|Hr].
  - apply settles_ext with (F := fun efuel => match flush efuel c FLUSH_FULL with
      | Some (true, c) => Some (true, ioxd_advance (set_out c (store (out c) (ioxd__pipewriter_at (out c)) d) (coded c) (net c)) (length d))
      | r => r end).
    2: { intros efuel. by destruct (flush efuel c FLUSH_FULL) as [[[] ?]|]. }
    apply (settles_flush c FLUSH_FULL D (fun c _ => Some (true, ioxd_advance (set_out c (store (out c) (ioxd__pipewriter_at (out c)) d) (coded c) (net c)) (length d))));
      [done| |by left]. intros c1 (Hg1 & Hl1 & _ & Hc1 & _).
    eapply settles_ret; [|done]. right. refine (proj1 (going_fill c1 D d Hg1 _)). unfold ioxd__pipewriter_room. lia.
  - eapply settles_ret; [|done]. right. refine (proj1 (going_fill c D d Hg _)). lia.
Qed.

(** Setting the head: a coded reply's is out already. *)
Lemma head_going c D o : shape_ok o -> going c D -> going (set_res c (head_do o (res c))) D.
Proof.
  intros Ho [Hinv|[Hho [Hw|Hc]]]; [left; by apply reply_inv_head|right; split; [done|left]|right; split; [done|right]].
  - destruct Hw as (W1 & W0 & W2 & W3 & W4 & Hst & U1 & U2 & U3 & U4 & U5).
    destruct (head_do_rest o (res c) Ho (st_len _ _ _ _ Hst)) as (R1 & R2 & R3 & R4 & R5 & R6 & R7).
    split_and!; try done; [by apply (steady_res _ _ _ (set_hooks c None None))|]. split_and!; cbn; try done; congruence.
  - destruct Hc as (f & E & C1 & C2 & C3 & Csm & C4 & C5 & C6). destruct (head_do_rest o (res c) Ho (st_len _ _ _ _ C4)) as (R1 & R2 & R3 & R4 & R5 & R6 & R7).
    assert (Hsent : head_sent (res c) = true) by (by destruct C5 as (? & ? & ? & (? & _ & ? & _) & _)). destruct (R7 Hsent) as [R8 R9].
    destruct (reply_inv_head _ _ _ base (swap c) E o Ho (conj C4 (or_intror C5))) as [Hst' [(Hn & _)|Hstart]]; [cbn in Hn; congruence|].
    exists f, E. split_and!; try done. intros Hnb. destruct (C6 Hnb) as [C7 ?]. split; [|done]. cbn. congruence.
Qed.

Lemma reply_do_going o c D : reply_op_ok o -> failed (res c) = true \/ going c D ->
  settles (fun fuel => reply_do fuel o c) (fun r => failed (res r.2) = true \/ going r.2 (D ++ reply_data o r.1)).
Proof.
  intros Ho [Hf|Hg]; [destruct (reply_do_failed o c Hf) as (ok & c' & E & ?); eapply settles_ret; [|exact E]; by left|].
  destruct o as [o|d|t hp| |n d]; cbn [reply_do reply_data].
  - eapply settles_ret; [|done]. right. rewrite app_nil_r. by apply head_going.
  - eapply settles_mono; [by apply write_going|]. intros [[] c']; [by right|by left].
  - eapply settles_mono; [by apply printf_going|]. intros [ok c'] [(t' & -> & Ht)|(-> & [= -> ->])]; [destruct ok; [by right|by left]|right; by rewrite app_nil_r].
  - eapply settles_mono; [by apply (flush_going c D FLUSH_ASKED)|]. intros [[] c'] Hw; [right; rewrite app_nil_r; apply Hw|by left].
  - eapply settles_mono; [by apply reserve_going|]. intros [[] c']; done.
Qed.

Lemma reply_run_going os c D : Forall reply_op_ok os -> failed (res c) = true \/ going c D ->
  settles (fun fuel => reply_run fuel os c) (fun r => failed (res r.2) = true \/ going r.2 (D ++ r.1)).
Proof.
  intros Hos. revert c D. induction Hos as [|o os Ho _ IH]; intros c D Hc; cbn [reply_run].
  { eapply settles_ret; [|done]. by rewrite app_nil_r. }
  apply settles_ext with (F := fun fuel => match reply_do fuel o c with Some r =>
    (fun fuel => match reply_run fuel os r.2 with Some (d, c) => Some (reply_data o r.1 ++ d, c) | None => None end) fuel | None => None end).
  2: { intros n. by destruct (reply_do n o c) as [[ok c1]|]. }
  apply (settles_bind _ (fun r fuel => match reply_run fuel os r.2 with Some (d, c) => Some (reply_data o r.1 ++ d, c) | None => None end) _ _ (reply_do_going o c D Ho Hc)).
  intros [ok c1] H1'. destruct (IH c1 _ H1') as ([d c2] & Hr & N & HN). exists (reply_data o ok ++ d, c2). cbn in *. rewrite app_assoc. split; [done|].
  exists N. intros n Hn. by rewrite HN.
Qed.

(** The body on the wire is the data, or a coding of it by the reply's filter. *)
Definition delivered c (D : bytes) : Prop :=
  exists E, finished kp mv ho base c E /\ match filter c with None => E = D | Some f => no_body c = true \/ decodes f E D end.

Lemma close_if_short_over c D : over c D -> delivered (close_if_short c) D.
Proof.
  unfold delivered. intros [Hf|[Hho (f & E & Hf & Hfin & Hdec)]].
  - exists D. split; [by apply close_if_short_finished|]. destruct Hf as [Hst _]. assert (Hfi : filter (close_if_short c) = filter c) by (unfold close_if_short; by case_match).
    by rewrite Hfi, (proj1 (st_hooks _ _ _ _ Hst)).
  - exists E. assert (Hsw : close_if_short (swap c) = swap (close_if_short c)) by (unfold close_if_short; cbn; by repeat case_match).
    rewrite Hho. split; [exact (eq_ind _ (fun x => finished kp mv false base x E) (close_if_short_finished _ _ _ _ (swap c) E Hfin) _ Hsw)|].
    assert (Hfi : filter (close_if_short c) = filter c /\ no_body (close_if_short c) = no_body c) by (unfold close_if_short; by case_match).
    destruct Hfi as [-> ->]. rewrite Hf. destruct (no_body c); [by left|right; by apply Hdec].
Qed.

Lemma finish_going c D : failed (res c) = true \/ going c D ->
  settles (fun fuel => finish fuel c) (fun r => if (r.1 : bool) then delivered r.2 D else failed (res r.2) = true).
Proof.
  intros [Hf|Hg]; [eapply settles_ret; [|intros n; unfold finish; by rewrite Hf]; done|].
  assert (Hflush : negb (head_sent (res c)) || (0 <? len (out c)) || has_filter c = true ->
    settles (fun fuel => finish fuel c) (fun r => if (r.1 : bool) then delivered r.2 D else failed (res r.2) = true)).
  { intros Hs. apply settles_ext with (F := fun n => match flush n c FLUSH_FINAL with Some (true, c1) => (fun c1 _ => Some (true, close_if_short c1)) c1 n | r => r end).
    - apply (settles_flush c FLUSH_FINAL D (fun c1 _ => Some (true, close_if_short c1))); [done| |done]. intros c1 [Ho _]. eapply settles_ret; [|done]. by apply close_if_short_over.
    - intros n. unfold finish, finish_send. by rewrite (proj2 (going_slab _ _ Hg)), Hs. }
  destruct Hg as [Hinv|[Hho [Hw|Hc]]].
  - destruct (finish_spec kp mv ho base 0 c D (or_intror Hinv)) as (ok & c2 & E & Hfin). destruct (negb (head_sent (res c)) || (0 <? len (out c)) || has_filter c) eqn:Es; [by apply Hflush|].
    eapply settles_ret with (r := (ok, c2)).
    + destruct ok; [|done]. destruct Hfin as [Hfin Hst]. exists D. split; [done|]. cbn. by rewrite (proj1 (st_hooks _ _ _ _ Hst)).
    + intros n. rewrite <- E. unfold finish, finish_send. by rewrite Es.
  - apply Hflush. destruct Hw as (_ & _ & _ & _ & _ & _ & Hn & _). by rewrite Hn.
  - apply Hflush. destruct Hc as (f & _ & Hf & _). unfold has_filter. by rewrite Hf, orb_true_r.
Qed.

(** A reply nothing was done to, with a delegate to ask or none. *)
Definition fresh_reply c : Prop := steady kp mv ho c /\ unstarted base c [] \/ ho = false /\ waiting kp mv base c [].

(** C8. A reply through a filter carries a coding of exactly what the handler wrote. From a fresh reply, with
a delegate for the head or without, for every sequence of calls a handler makes, the calls and the end of
the reply return once the fuel is enough for what the coder has to do; either the reply failed, or the wire
holds one head and the body it announces - under its exact length when it was coded whole, in chunks or
until close when it was coded flush by flush, whatever length the handler had declared - and that body is
the data the handler wrote, or, if the delegate installed a filter, a whole coding that decodes to it. *)
Theorem coded_reply_framed os c : fresh_reply c -> Forall reply_op_ok os ->
  exists N, forall fuel, N <= fuel -> exists D c1 ok c2, reply_run fuel os c = Some (D, c1) /\ finish fuel c1 = Some (ok, c2) /\
    if ok then delivered c2 D else failed (res c2) = true.
Proof.
  intros Hc Hos. destruct (reply_run_going os c [] Hos) as ([D c1] & H1' & N & HN).
  { right. destruct Hc as [[? ?]|[? ?]]; [left; split; [done|by left]|right; auto]. }
  destruct (finish_going c1 D H1') as ([ok c2] & H2' & M & HM). exists (N + M). intros fuel Hf. exists D, c1, ok, c2.
  split; [apply HN; lia|]. split; [apply HM; lia|done].
Qed.
End Handler.

(** ** On a concrete coder

    It copies, as much as there is room for. *)
Definition copy_hooks : Hooks :=
  {| Coder := unit; filter_run _ i room _ := (0%Z, Nat.min (length i) room, take room i, tt);
     Delegate := unit; head_call _ _ r _ _ := ((ioxd_header r (Some (lit "content-encoding")) (Some (lit "copy"))).2, Some tt) |}.

Lemma take_min {A} (l : list A) n : take (Nat.min (length l) n) l = take n l.
Proof. destruct (Nat.min_spec (length l) n) as [[? ->]|[? ->]]; [by rewrite !take_ge by lia|done]. Qed.

#[local] Instance copy_laws : CoderLaws (H := copy_hooks).
Proof.
  refine {| decodes := (fun (_ : @Coder copy_hooks) E D => E = D); fed := (fun (_ : @Coder copy_hooks) X E => E = X); work := (fun (_ : @Coder copy_hooks) _ i => length i);
            delegate_ok := (fun _ : @Delegate copy_hooks => True) |}.
  - intros f X E i room op rc n o f' -> _ _ [= <- <- <- <-] _ _ _. rewrite take_min. split; [done|]. intros _ _ Hn. by rewrite take_ge by lia.
  - intros f X E i room op rc n o f' -> _ _ [= <- <- <- <-] _ _ _. unfold moved. rewrite length_take, length_drop.
    destruct (Nat.eqb_spec (Nat.min (length i) room) 0), (Nat.eqb_spec (Nat.min room (length i)) 0); cbn [andb]; lia.
  - intros d q r n w r' fo _ [= <- <-]. split; [by exists [(Some (lit "content-encoding"), Some (lit "copy"))]|done].
Defined.

(** A slab of ten bytes, and one of twelve for what is coded. *)
Definition open_reply `{Hooks} (q : ioxd_request) (d : option Delegate) : ctx socket :=
  {| req := q; res := init_response arena0;
     inp := Reader.ioxd__pipereader_init [] 0; kern := {| Reader.mem := ∅; Reader.now := []; Reader.later := []; Reader.end_rc := 0; Reader.back := [] |};
     out := ioxd__pipewriter_init (replicate 120 0%Z) 100 10 10; coded := ioxd__pipewriter_init (replicate 122 0%Z) 100 12 10; net := {| sent := []; awaits := 0 |};
     body := Reader.Nowhere; body_read := 0; body_done := true; body_whole := false; body_err := 0; chunk_left := 0;
     head_only := false; no_body := false; continue_sent := false; on_head := d; filter := None |}.

Definition get_request (hs : list header) : ioxd_request := set_framing (req0 (lit "/") 1 hs) hs false 0 true false.

Lemma open_steady `{Hooks} hs d : steady true 1 false (set_hooks (open_reply (get_request hs) d) None None) /\ unstarted (H := calm) [] (open_reply (get_request hs) d) [].
Proof.
  split.
  - split; try done.
    + split; [done|by left].
    + split; [|done..]. split; [reflexivity|cbn; lia..].
    + split; [cbn; lia|vm_compute; discriminate].
  - by split_and!.
Qed.

Definition shows {Hk : Hooks} (fuel : nat) (os : list reply_op) (c : ctx socket) : option (bytes * bytes) :=
  match reply_run (H := calm) fuel os c with
  | Some (d, c) => match finish (H := calm) fuel c with Some (true, c) => Some (d, sent (net c)) | _ => None end
  | None => None
  end.

(** Coded whole under its length, and flush by flush in chunks. *)
Example coded_ex :
  shows (Hk := copy_hooks) 40 [RWrite (lit "hello")] (open_reply (H := copy_hooks) (get_request []) (Some tt)) =
    Some (lit "hello", head_text [lit "HTTP/1.1 200 OK"; lit "content-type: text/plain"; lit "content-length: 5"; lit "content-encoding: copy"] ++ lit "hello") /\
  shows (Hk := copy_hooks) 40 [RWrite (lit "hello, there"); RFlush; RWrite (lit "you")] (open_reply (H := copy_hooks) (get_request []) (Some tt)) =
    Some (lit "hello, thereyou", head_text [lit "HTTP/1.1 200 OK"; lit "content-type: text/plain"; lit "transfer-encoding: chunked"; lit "content-encoding: copy"] ++
      chunk_text (lit "hello, the") ++ chunk_text (lit "re") ++ chunk_text (lit "you") ++ put_terminator).
Proof. split; vm_compute; reflexivity. Qed.

Lemma coded_reply_framed_witness : exists N, forall fuel, N <= fuel -> exists D c1 ok c2,
  reply_run (H := calm) fuel [RWrite (lit "hello, there"); RFlush; RWrite (lit "you")] (open_reply (H := copy_hooks) (get_request []) (Some tt)) = Some (D, c1) /\
  finish (H := calm) fuel c1 = Some (ok, c2) /\ if ok then delivered (H := calm) (H1 := copy_laws) true 1 false [] c2 D else failed (res c2) = true.
Proof.
  apply (coded_reply_framed (H := calm) (H1 := copy_laws) true 1 false []); [|repeat constructor].
  right. split; [reflexivity|]. destruct (@open_steady copy_hooks [] (Some tt)) as [Hs Hu]. split; [exists tt; split; [reflexivity|exact I]|].
  split; [vm_compute; discriminate|]. split; [reflexivity|]. split; [|split; [reflexivity|split; [exact Hs|exact Hu]]].
  split; [split; [split; [reflexivity|cbn; lia..]|reflexivity..]|]. split; [cbn; lia|vm_compute; discriminate].
Defined.
