(* ===== verification/Body.v ===== *)
(** The request body of lib/http/engine.c, read on demand from the connection's reader: the whole body
    kept in place, any number of bytes, or one chunk at a time, for a body of known length and for a
    chunked one; the drain of what a handler left; and the head read in front of it. *)
From S2P Require Import Prelude Slices Writer Headers Response Context Reply.
From S2P Require Import Reader.

#[local] Arguments Nat.ltb : simpl never.
#[local] Arguments Nat.leb : simpl never.
#[local] Arguments lit : simpl never.

Definition IOXD_TRAILER_MAX : nat := Z.to_nat 4096.

(** [memmem(live, len, CRLF, 2)]. *)
Fixpoint find_crlf (l : bytes) : option nat :=
  match l with
  | a :: (b :: _) as l' => if ((a =? 13) && (b =? 10))%Z%bool then Some 0 else S <$> find_crlf l'
  | _ => None
  end.

Section Body.
Context {W : Type} `{Sender W} `{Hooks}.
Implicit Types (c : ctx W).

Definition body_fail c (status : Z) : ctx W := let c := set_body_err c status in set_res c (set_status (res c) status).

(** The interim reply an expecting client waits for. *)
Definition body_begin c : bool * ctx W :=
  if negb (req_expect_continue (req c)) || continue_sent c || head_sent (res c) then (true, c)
  else
    let c := set_continue_sent c in
    match ioxd__pipewriter_through (out c) (lit "HTTP/1.1 100 Continue" ++ CRLF ++ CRLF) (net c) with
    | (true, pw, w) => (true, set_out c pw (coded c) w)
    | (false, pw, w) => (false, set_body_err (set_out c pw (coded c) w) (-1))
    end.

(** The live bytes, or nothing and the failure recorded. *)
Definition body_bytes c : option bytes * ctx W :=
  let '(rc, live, pr, k) := ioxd__pipereader_read (inp c) (kern c) in
  let c := set_in c pr k in
  if (0 <? rc)%Z then (Some (at_span pr k live), c)
  else if (rc =? IOXD_PIPE_FULL)%Z then (None, body_fail c 413)
  else (None, set_body_err c (-1)).

Definition examine c (n : nat) : ctx W := set_in c (ioxd__pipereader_examine (inp c) n) (kern c).
Definition drop_live c (n : nat) : ctx W := let '(pr, k) := ioxd__pipereader_drop (inp c) (kern c) n in set_in c pr k.

(** The line at the front of the live bytes: every round but the last takes an item. *)
Fixpoint body_line_loop (fuel : nat) c : option (nat * bytes) * ctx W :=
  match body_bytes c with
  | (None, c) => (None, c)
  | (Some live, c) =>
      match find_crlf live, fuel with
      | Some i, _ => (Some (i, live), c)
      | None, S fuel' => body_line_loop fuel' (examine c (length live))
      | None, 0 => (None, c)
      end
  end.
Definition body_line c : option (nat * bytes) * ctx W := body_line_loop (S (items_left (kern c))) c.

(** Trailer lines up to an empty one; each takes two bytes at least of the bound. *)
Fixpoint chunk_trailers_loop (fuel taken : nat) c : bool * ctx W :=
  match body_line c with
  | (None, c) => (false, c)
  | (Some (len, _), c) =>
      let taken := taken + len + 2 in
      if IOXD_TRAILER_MAX <? taken then (false, body_fail c 400)
      else
        let c := drop_live c (len + 2) in
        if len =? 0 then (true, set_body_done c)
        else match fuel with 0 => (false, c) | S fuel' => chunk_trailers_loop fuel' taken c end
  end.
Definition chunk_trailers c : bool * ctx W := chunk_trailers_loop IOXD_TRAILER_MAX 0 c.

(** The hex digits at the front of a size line: how many, and their value; absent on overflow. *)
Fixpoint size_loop (line : bytes) (i : nat) (size : Z) : option (nat * Z) :=
  match line with
  | [] => Some (i, size)
  | ch_ :: line' =>
      let digit := ioxd__http_hexval ch_ in
      if (digit <? 0)%Z then Some (i, size)
      else if (Z.shiftr SIZE_MAX 4 <? size)%Z then None
      else size_loop line' (S i) (Z.lor (wrap64 (Z.shiftl size 4)) digit)
  end.

(** How many blanks. *)
Fixpoint blanks (l : bytes) : nat :=
  match l with ch_ :: l' => if blank ch_ then S (blanks l') else 0 | [] => 0 end.

(** The size of a chunk from its size line, without the CRLF. *)
Definition chunk_size (line : bytes) : option Z :=
  let len := length line in
  match size_loop line 0 0 with
  | None => None
  | Some (i, size) =>
      let j := i + blanks (drop i line) in
      let ended := (j =? len) && (j =? i) || (j + 1 <? len) && match line !! j with Some b => (b =? ch ";")%Z | None => false end in
      if (i =? 0) || negb ended then None else Some size
  end.

Definition chunk_header c : bool * ctx W :=
  match body_line c with
  | (None, c) => (false, if (body_err c =? 413)%Z then body_fail c 400 else c)
  | (Some (len, live), c) =>
      match chunk_size (take len live) with
      | None => (false, body_fail c 400)
      | Some size =>
          let c := drop_live c (len + 2) in
          if (size =? 0)%Z then chunk_trailers c else (true, set_chunk_left c size)
      end
  end.

(** The CRLF that ends a chunk's data. *)
Fixpoint chunk_end_loop (fuel : nat) c : bool * ctx W :=
  match body_bytes c with
  | (None, c) => (false, c)
  | (Some live, c) =>
      if 2 <=? length live then
        if negb (beq (take 2 live) CRLF) then (false, body_fail c 400) else (true, drop_live c 2)
      else match fuel with 0 => (false, c) | S fuel' => chunk_end_loop fuel' (examine c (length live)) end
  end.
Definition chunk_end c : bool * ctx W := chunk_end_loop 2 c.

(** [ioxd_body_all] on a chunked body: every round takes a size line or some data; [None] would be the
fuel running out. *)
Fixpoint body_all_chunked (fuel : nat) c : option (bool * ctx W) :=
  match fuel with
  | 0 => None
  | S fuel' =>
      if body_done c then Some (true, c)
      else if (chunk_left c =? 0)%Z then
        match chunk_header c with (false, c) => Some (false, c) | (true, c) => body_all_chunked fuel' c end
      else
        match body_bytes c with
        | (None, c) => Some (false, c)
        | (Some live, c) =>
            let n := if (Z.of_nat (length live) <? chunk_left c)%Z then length live else Z.to_nat (chunk_left c) in
            let '(kept, pr, k) := ioxd__pipereader_keep (inp c) (kern c) n in
            let c := set_in c pr k in
            match kept with
            | None => Some (false, body_fail c 413)
            | Some _ =>
                let c := set_body_read (set_chunk_left c (wrap64 (chunk_left c - Z.of_nat n))) (wrap64 (body_read c + Z.of_nat n)) in
                if (chunk_left c =? 0)%Z then
                  match chunk_end c with (false, c) => Some (false, c) | (true, c) => body_all_chunked fuel' c end
                else body_all_chunked fuel' c
            end
        end
  end.

(** Its loop on a body of known length: until that many bytes are live. *)
Fixpoint body_all_length (fuel : nat) c (live : bytes) (n : nat) : option bytes * ctx W :=
  if (0 <? n) && (length live <? n) then
    let c := if 0 <? length live then examine c (length live) else c in
    match body_bytes c with
    | (None, c) => (None, c)
    | (Some live, c) => match fuel with 0 => (None, c) | S fuel' => body_all_length fuel' c live n end
    end
  else (Some live, c).

Definition set_body_slice c (s : where_) : ctx W := set_body c s (body_read c) (body_done c) (body_whole c) (body_err c) (chunk_left c).
Definition set_body_whole c : ctx W := set_body c (body c) (body_read c) (body_done c) true (body_err c) (chunk_left c).

(** The slice of the whole body, or none. *)
Definition ioxd_body_all (fuel : nat) c : option (option where_ * ctx W) :=
  if body_whole c then Some (Some (body c), c)
  else if negb (body_read c =? 0)%Z || negb (body_err c =? 0)%Z then Some (None, c)
  else
    let '(ok, c) := if negb (body_done c) then body_begin c else (true, c) in
    if negb ok then Some (None, c)
    else if Headers.chunked (req c) then
      match body_all_chunked fuel c with
      | None => None
      | Some (false, c) => Some (None, c)
      | Some (true, c) => let c := set_body_whole (set_body_slice c (ioxd__pipereader_run (inp c))) in Some (Some (body c), c)
      end
    else
      let n := req_content_length (req c) in
      if (Z.of_nat (cap (inp c)) <? n)%Z then Some (None, body_fail c 413)
      else
        match body_all_length (S (items_left (kern c))) c [] (Z.to_nat n) with
        | (None, c) => Some (None, c)
        | (Some _, c) =>
            let '(kept, pr, k) :=
              if (n =? 0)%Z then (Some Nowhere, inp c, kern c) else ioxd__pipereader_keep (inp c) (kern c) (Z.to_nat n) in
            let c := set_in c pr k in
            match kept with
            | None => Some (None, body_fail c 413)
            | Some s =>
                let c := set_body c s n true true (body_err c) (chunk_left c) in
                Some (Some s, c)
            end
        end.

(** Up to [n] bytes of a body of known length: the result and the bytes stored. *)
Definition fixed_data c (n : nat) : Z * bytes * ctx W :=
  let remaining := wrap64 (req_content_length (req c) - body_read c) in
  let n := if (remaining <? Z.of_nat n)%Z then Z.to_nat remaining else n in
  let '(got, d, pr, k) := ioxd__pipereader_copy (inp c) (kern c) n in
  let c := set_in c pr k in
  if (got <=? 0)%Z then ((-1)%Z, [], set_body_err c (-1))
  else
    let c := set_body_read c (wrap64 (body_read c + got)) in
    (got, d, if (body_read c =? req_content_length (req c))%Z then set_body_done c else c).

(** Up to [n] bytes of the chunk in progress; a bad chunk end is recorded and shows in the next call. *)
Definition chunk_data c (n : nat) : Z * bytes * ctx W :=
  let n := if (chunk_left c <? Z.of_nat n)%Z then Z.to_nat (chunk_left c) else n in
  let '(got, d, pr, k) := ioxd__pipereader_copy (inp c) (kern c) n in
  let c := set_in c pr k in
  if (got <=? 0)%Z then ((-1)%Z, [], set_body_err c (-1))
  else
    let c := set_body_read (set_chunk_left c (wrap64 (chunk_left c - got))) (wrap64 (body_read c + got)) in
    if (chunk_left c =? 0)%Z then let '(_, c) := chunk_end c in (got, d, c) else (got, d, c).

(** One round of [ioxd_body_read_until], [got] stored so far. *)
Definition read_one c (n : nat) (got : bytes) : Z * bytes * ctx W :=
  if negb (Headers.chunked (req c)) then fixed_data c (n - length got)
  else if (chunk_left c =? 0)%Z then let '(ok, c) := chunk_header c in ((if ok then 0 else -1)%Z, [], c)
  else chunk_data c (n - length got).

(** The loop of [ioxd_body_read_until]: what it stored so far is [got]. *)
Fixpoint read_until_loop (fuel : nat) c (n : nat) (got : bytes) : option (Z * bytes * ctx W) :=
  match fuel with
  | 0 => None
  | S fuel' =>
      if (length got <? n) && negb (body_done c) then
        let '(k, d, c) := read_one c n got in
        if (k <? 0)%Z then Some ((-1)%Z, got, c) else read_until_loop fuel' c n (got ++ d)
      else Some (Z.of_nat (length got), got, c)
  end.

Definition ioxd_body_read_until (c : ctx W) (n : nat) : option (Z * bytes * ctx W) :=
  if negb (body_err c =? 0)%Z then Some ((-1)%Z, [], c)
  else if (n =? 0) || body_done c then Some (0%Z, [], c)
  else
    match body_begin c with
    | (false, c) => Some ((-1)%Z, [], c)
    | (true, c) =>
        let n := if (INT_MAX <? Z.of_nat n)%Z then Z.to_nat INT_MAX else n in
        read_until_loop (2 * n + 2) c n []
    end.

(** The rest of the chunk in progress. *)
Fixpoint next_chunk_loop (fuel : nat) c (want : nat) (got : bytes) : option (Z * bytes * ctx W) :=
  if length got <? want then
    match fuel with
    | 0 => None
    | S fuel' =>
        match chunk_data c (want - length got) with
        | (k, d, c) => if (k <? 0)%Z then Some ((-1)%Z, got, c) else next_chunk_loop fuel' c want (got ++ d)
        end
    end
  else Some (Z.of_nat (length got), got, c).

Definition ioxd_body_read_next_chunk c (cap_ : nat) : option (Z * bytes * ctx W) :=
  if negb (body_err c =? 0)%Z || negb (Headers.chunked (req c)) then Some ((-1)%Z, [], c)
  else if body_done c then Some (0%Z, [], c)
  else
    match body_begin c with
    | (false, c) => Some ((-1)%Z, [], c)
    | (true, c) =>
        let '(ok, c) := if (chunk_left c =? 0)%Z then chunk_header c else (true, c) in
        if negb ok then Some ((-1)%Z, [], c)
        else if body_done c then Some (0%Z, [], c)
        else if (Z.of_nat cap_ <? chunk_left c)%Z || (INT_MAX <? Z.of_nat cap_)%Z then Some ((-1)%Z, [], body_fail c 413)
        else let want := Z.to_nat (chunk_left c) in next_chunk_loop want c want []
    end.

(** [sizeof tmp]. *)
Definition drain_buffer : nat := Z.to_nat 4096.

(** What is left of the body, up to a limit; every round but the last takes a byte. *)
Fixpoint drain_loop (fuel : nat) c (drained : Z) : option (ctx W) :=
  match fuel with
  | 0 => None
  | S fuel' =>
      if negb (body_done c) && (body_err c =? 0)%Z then
        if (IOXD_DRAIN_MAX <=? drained)%Z then Some (set_res c (set_close (res c) true))
        else
          match ioxd_body_read_until c drain_buffer with
          | None => None
          | Some (n, _, c) => if (n <=? 0)%Z then Some c else drain_loop fuel' c (wrap64 (drained + n))
          end
      else Some c
  end.
Definition drain_body c : option (ctx W) := drain_loop (Z.to_nat IOXD_DRAIN_MAX + 1) c 0.
End Body.

(** ** The chunked coding, as a grammar

    A line of the coding holds no CRLF before its own. *)
Definition is_line (l : bytes) : Prop := find_crlf (l ++ CRLF) = Some (length l).

Inductive trailer_part : bytes -> Prop :=
| tr_end : trailer_part CRLF
| tr_line l t : is_line l -> l <> [] -> trailer_part t -> trailer_part (l ++ CRLF ++ t).

(** [chunked_coding text data rest]: the text begins with a chunked body that carries [data], and [rest]
follows it. *)
Inductive chunked_coding : bytes -> bytes -> bytes -> Prop :=
| cc_last line t rest : is_line line -> chunk_size line = Some 0%Z -> trailer_part t ->
    chunked_coding (line ++ CRLF ++ t ++ rest) [] rest
| cc_chunk line d more data rest : is_line line -> d <> [] -> chunk_size line = Some (Z.of_nat (length d)) ->
    chunked_coding more data rest -> chunked_coding (line ++ CRLF ++ d ++ CRLF ++ more) (d ++ data) rest.

Lemma find_crlf_split l i : find_crlf l = Some i -> l = take i l ++ CRLF ++ drop (i + 2) l /\ i + 2 <= length l.
Proof.
  revert i. induction l as [|a l IH]; intros i Hi; [done|]. destruct l as [|b l]; [done|]. cbn [find_crlf] in Hi.
  destruct ((a =? 13) && (b =? 10))%Z eqn:E.
  - injection Hi as <-. bool_to_prop. subst. split; [|cbn; lia]. cbn. by rewrite drop_0.
  - apply fmap_Some in Hi as (k & Hk & ->). destruct (IH k Hk) as [H1 H2]. split; [|cbn in *; lia].
    replace (S k + 2) with (S (k + 2)) by lia. cbn [take drop app]. by rewrite <- H1.
Qed.

Lemma find_crlf_app l x i : find_crlf l = Some i -> find_crlf (l ++ x) = Some i.
Proof.
  revert i. induction l as [|a l IH]; intros i Hi; [done|]. destruct l as [|b l]; [done|]. cbn [find_crlf app] in *.
  destruct ((a =? 13) && (b =? 10))%Z; [done|]. apply fmap_Some in Hi as (k & Hk & ->). apply IH in Hk. cbn [app] in Hk. by rewrite Hk.
Qed.

Lemma find_crlf_line l i : find_crlf l = Some i -> is_line (take i l).
Proof.
  unfold is_line. revert i. induction l as [|a l IH]; intros i Hi; [done|]. destruct l as [|b l]; [done|].
  change (find_crlf (a :: b :: l)) with (if ((a =? 13) && (b =? 10))%Z%bool then Some 0 else S <$> find_crlf (b :: l)) in Hi.
  destruct ((a =? 13) && (b =? 10))%Z%bool eqn:E.
  - injection Hi as <-. done.
  - apply fmap_Some in Hi as (k & Hk & ->). specialize (IH k Hk). destruct k as [|k].
    + destruct (find_crlf_split _ _ Hk) as [Hs _]. injection Hs as -> _. cbn. by rewrite andb_false_r.
    + change (take (S (S k)) (a :: b :: l) ++ CRLF) with (a :: b :: (take k l ++ CRLF)).
      change (take (S k) (b :: l) ++ CRLF) with (b :: (take k l ++ CRLF)) in IH.
      change (length (take (S (S k)) (a :: b :: l))) with (S (length (take (S k) (b :: l)))).
      change (find_crlf (a :: b :: (take k l ++ CRLF))) with
        (if ((a =? 13) && (b =? 10))%Z%bool then Some 0 else S <$> find_crlf (b :: (take k l ++ CRLF))).
      by rewrite E, IH.
Qed.

(** *** The grammar decides the body and its end *)

Lemma line_unique l1 x l2 y : is_line l1 -> is_line l2 -> l1 ++ CRLF ++ x = l2 ++ CRLF ++ y -> l1 = l2 /\ x = y.
Proof.
  unfold is_line. intros H1 H2 He. apply (find_crlf_app _ x) in H1. apply (find_crlf_app _ y) in H2. rewrite <- !app_assoc in H1, H2.
  rewrite He, H2 in H1. injection H1 as Hl. apply app_inj_1 in He as [-> He]; [|done]. by apply app_inj_1 in He as [_ ->].
Qed.

Lemma nil_line : is_line [].
Proof. done. Qed.

Lemma trailer_unique t1 r1 t2 r2 : trailer_part t1 -> trailer_part t2 -> t1 ++ r1 = t2 ++ r2 -> r1 = r2.
Proof.
  intros H1. revert t2. induction H1 as [|l t Hl Hne _ IH]; intros t2 H2 He; destruct H2 as [|l2 t2 Hl2 Hne2 H2].
  - by apply app_inj_1 in He as [_ ->].
  - rewrite <- !app_assoc in He. destruct (line_unique [] r1 l2 (t2 ++ r2)) as [E _]; try done; by subst.
  - rewrite <- !app_assoc in He. destruct (line_unique l (t ++ r1) [] r2) as [E _]; try done; by subst.
  - rewrite <- !app_assoc in He. destruct (line_unique l (t ++ r1) l2 (t2 ++ r2)) as [_ E]; try done. by eapply IH.
Qed.

Lemma chunked_coding_det text d1 r1 d2 r2 : chunked_coding text d1 r1 -> chunked_coding text d2 r2 -> d1 = d2 /\ r1 = r2.
Proof.
  intros H1. revert d2 r2. induction H1 as [line t rest Hl Hs Ht|line d more data rest Hl Hne Hs _ IH]; intros d2 r2 H2;
    inversion H2 as [line2 t2 rest2 Hl2 Hs2 Ht2 E|line2 d' more2 data2 rest2 Hl2 Hne2 Hs2 Hmore E].
  - subst. destruct (line_unique _ _ _ _ Hl2 Hl E) as [_ Et]. split; [done|]. symmetry. exact (trailer_unique _ _ _ _ Ht2 Ht Et).
  - subst. destruct (line_unique _ _ _ _ Hl2 Hl E) as [-> _]. rewrite Hs in Hs2. injection Hs2 as Hs2. by destruct d'.
  - subst. destruct (line_unique _ _ _ _ Hl2 Hl E) as [-> _]. rewrite Hs in Hs2. injection Hs2 as Hs2. by destruct d.
  - subst. destruct (line_unique _ _ _ _ Hl2 Hl E) as [-> Et]. rewrite Hs in Hs2. injection Hs2 as Hs2.
    apply app_inj_1 in Et as [-> Et]; [|lia]. injection Et as ->. destruct (IH _ _ Hmore) as [-> ->]. done.
Qed.

(** *** The chunks of a reply are in the grammar *)

Lemma line_without_cr l : ch "013" ∉ l -> is_line l.
Proof.
  unfold is_line. change (ch "013") with 13%Z. induction l as [|a l IH]; intros Hn; [done|]. apply not_elem_of_cons in Hn as [Ha Hn]. specialize (IH Hn).
  assert (Hc : forall y, find_crlf (a :: y) = if y is [] then None else S <$> find_crlf y).
  { intros [|b y]; [done|]. change (find_crlf (a :: b :: y)) with (if ((a =? 13) && (b =? 10))%Z%bool then Some 0 else S <$> find_crlf (b :: y)).
    by destruct (Z.eqb_spec a 13). }
  cbn [app]. rewrite Hc. destruct (l ++ CRLF) eqn:E; [by destruct l|]. by rewrite IH.
Qed.

Lemma hexval_digit k : (0 <= k < 16)%Z -> ioxd__http_hexval (nth (Z.to_nat k) digits 0%Z) = k /\ nth (Z.to_nat k) digits 0%Z <> 13%Z.
Proof.
  intros Hk. assert (Hc : forall n, n < 16 -> ioxd__http_hexval (nth n digits 0%Z) = Z.of_nat n /\ nth n digits 0%Z <> 13%Z).
  { intros n Hn. do 16 (destruct n as [|n]; [by vm_compute|]). lia. }
  destruct (Hc (Z.to_nat k)) as [E ?]; [lia|]. split; [rewrite E; lia|done].
Qed.

Lemma size_loop_snoc l c i size v : size_loop l i size = Some (i + length l, v) -> (v <= Z.shiftr SIZE_MAX 4)%Z -> (0 <= ioxd__http_hexval c)%Z ->
  size_loop (l ++ [c]) i size = Some (i + length l + 1, Z.lor (wrap64 (Z.shiftl v 4)) (ioxd__http_hexval c)).
Proof.
  revert i size. induction l as [|a l IH]; intros i size Hl Hv Hc; cbn [size_loop app] in *.
  - assert (size = v) as -> by congruence. destruct (Z.ltb_spec (ioxd__http_hexval c) 0); [lia|]. destruct (Z.ltb_spec (Z.shiftr SIZE_MAX 4) v); [lia|].
    cbn [length]. do 2 f_equal. lia.
  - destruct (ioxd__http_hexval a <? 0)%Z; [injection Hl as ? ?; cbn [length] in *; lia|]. destruct (_ <? size)%Z; [done|].
    cbn [length] in *. replace (i + S (length l) + 1) with (S i + length l + 1) by lia. apply IH; try done. rewrite Hl. f_equal. f_equal. lia.
Qed.

Lemma lor_shift a d : (0 <= a -> 0 <= d < 16 -> Z.lor (Z.shiftl a 4) d = a * 16 + d)%Z.
Proof. intros. by apply (lor_shiftl 4). Qed.

Lemma hex_tmp_size fuel v : (0 <= v < 16 ^ Z.of_nat fuel)%Z -> (v <= SIZE_MAX)%Z -> 0 < fuel ->
  size_loop (rev (hex_tmp fuel v)) 0 0 = Some (length (hex_tmp fuel v), v) /\ 0 < length (hex_tmp fuel v) /\ ch "013" ∉ hex_tmp fuel v.
Proof.
  revert v. induction fuel as [|fuel IH]; intros v Hv Hm Hf; [lia|]. cbn [hex_tmp].
  assert (Hland : Z.land v 15 = (v mod 16)%Z) by (change 15%Z with (Z.ones 4); by rewrite Z.land_ones).
  assert (Hshr : Z.shiftr v 4 = (v / 16)%Z) by (by rewrite Z.shiftr_div_pow2). rewrite Hland, Hshr.
  pose proof (Z.div_mod v 16 ltac:(lia)) as Hdm. pose proof (Z.mod_pos_bound v 16 ltac:(lia)) as Hmod.
  destruct (hexval_digit (v mod 16) Hmod) as [Hd Hcr]. set (c := nth (Z.to_nat (v mod 16)) digits 0%Z) in *.
  destruct (Z.eqb_spec (v / 16) 0) as [Hz|Hz].
  - split_and!; [|cbn; lia|]. 
    + cbn [rev app size_loop]. rewrite Hd. destruct (Z.ltb_spec (v mod 16) 0); [lia|].
      change (Z.shiftr SIZE_MAX 4 <? 0)%Z with false. change (wrap64 (Z.shiftl 0 4)) with 0%Z. rewrite Z.lor_0_l. cbn [size_loop length]. do 2 f_equal. lia.
    + change (ch "013") with 13%Z. intros Hin%list_elem_of_singleton. congruence.
  - destruct fuel as [|fuel]; [cbn in Hv; rewrite Z.div_small in Hz; lia|].
    assert (Hq : (0 <= v / 16 < 16 ^ Z.of_nat (S fuel))%Z).
    { split; [apply Z.div_pos; lia|]. apply Z.div_lt_upper_bound; [lia|]. replace (Z.of_nat (S (S fuel))) with (Z.succ (Z.of_nat (S fuel))) in Hv by lia.
      rewrite Z.pow_succ_r in Hv; lia. }
    assert (Hsm : (v / 16 <= Z.shiftr SIZE_MAX 4)%Z) by (rewrite Z.shiftr_div_pow2 by lia; apply Z.div_le_mono; [done|done]).
    destruct (IH (v / 16)%Z Hq) as (H1 & H2 & H3); [unfold SIZE_MAX, UINT64_MAX in *; lia|lia|]. split_and!; [|cbn [length]; lia|].
    + cbn [rev]. rewrite <- length_rev in H1. rewrite (size_loop_snoc _ _ 0 0 _ H1 Hsm) by (rewrite Hd; lia). rewrite Hd, length_rev. f_equal.
      f_equal; [cbn [length]; lia|]. assert (Hw : wrap64 (Z.shiftl (v / 16) 4) = Z.shiftl (v / 16) 4).
      { apply Z.mod_small. rewrite Z.shiftl_mul_pow2 by lia. unfold SIZE_MAX, UINT64_MAX in *. change (2 ^ 4)%Z with 16%Z. lia. }
      rewrite Hw, lor_shift; lia.
    + intros Hin%elem_of_cons. destruct Hin as [Hin|Hin]; [by apply Hcr|done].
Qed.

Lemma chunk_size_put_hex v : (0 <= v <= SIZE_MAX)%Z -> chunk_size (put_hex v) = Some v /\ is_line (put_hex v).
Proof.
  intros Hv. destruct (hex_tmp_size 16 v) as (H1 & H2 & H3); [change (16 ^ Z.of_nat 16)%Z with (2 ^ 64)%Z; unfold SIZE_MAX, UINT64_MAX in *; lia|lia|lia|].
  unfold put_hex. split.
  - unfold chunk_size. rewrite H1, length_rev, <- length_rev at 1. rewrite drop_ge by (rewrite length_rev; lia). cbn [blanks].
    rewrite Nat.add_0_r, length_rev, !Nat.eqb_refl. cbn [andb orb negb]. rewrite orb_false_r. destruct (Nat.eqb_spec (length (hex_tmp 16 v)) 0); [lia|done].
  - apply line_without_cr. intros Hin. apply H3. apply list_elem_of_In. apply list_elem_of_In in Hin. by apply in_rev.
Qed.

Lemma lor_below a b n : (0 < n -> 0 <= a < 2 ^ n -> 0 <= b < 2 ^ n -> 0 <= Z.lor a b < 2 ^ n)%Z.
Proof.
  intros Hn Ha Hb. split; [apply Z.lor_nonneg; lia|].
  assert (Hl : forall x, (0 <= x < 2 ^ n -> Z.log2 x < n)%Z).
  { intros x Hx. destruct (Z.eq_dec x 0) as [->|]; [done|]. apply Z.log2_lt_pow2; lia. }
  destruct (Z.eq_dec (Z.lor a b) 0) as [->|Hz]; [lia|].
  assert (0 <= Z.lor a b)%Z by (apply Z.lor_nonneg; lia). apply Z.log2_lt_pow2; [lia|].
  rewrite Z.log2_lor by lia. apply Z.max_lub_lt; by apply Hl.
Qed.

Lemma size_loop_range l i size n v : (0 <= size < 2 ^ 64)%Z -> size_loop l i size = Some (n, v) -> (0 <= v < 2 ^ 64)%Z.
Proof.
  revert i size. induction l as [|a l IH]; intros i size Hs; cbn [size_loop]; [by intros [= _ <-]|].
  destruct (Z.ltb_spec (ioxd__http_hexval a) 0) as [|Hd]; [by intros [= _ <-]|]. pose proof (hexval_range a) as Hr.
  destruct (Z.ltb_spec (Z.shiftr SIZE_MAX 4) size); [done|]. apply IH. apply lor_below; [lia| |lia].
  unfold wrap64. apply Z.mod_pos_bound. done.
Qed.

Lemma chunk_size_range l v : chunk_size l = Some v -> (0 <= v < 2 ^ 64)%Z.
Proof.
  unfold chunk_size. destruct (size_loop l 0 0) as [[i size]|] eqn:E; [|done]. destruct (_ || _); [done|]. intros [= <-].
  by eapply size_loop_range.
Qed.

Section Reading.
Context {W : Type} `{Sender W} `{Hooks}.
Implicit Types (c : ctx W).

(** The bytes not read yet. *)
Definition stream c : bytes := live_bytes (inp c) (kern c) ++ coming (kern c).

(** A reader in order. *)
Record reading c : Prop := {
  rd_ok : reader_ok 0 (inp c) (kern c);
  rd_error : error (inp c) = 0%Z
}.

Lemma reading_of c c' : reading c -> inp c' = inp c -> kern c' = kern c -> reading c'.
Proof. intros [] E1 E2. split; by rewrite ?E1, ?E2. Qed.

(** Only the reader moved. *)
Definition moved c c' : Prop := c' = set_in c (inp c') (kern c').

Lemma moved_refl c : moved c c.
Proof. unfold moved. by destruct c. Qed.

Lemma moved_trans c1 c2 c3 : moved c1 c2 -> moved c2 c3 -> moved c1 c3.
Proof. unfold moved. intros -> ->. done. Qed.

(** A step of the reader that consumed [d], keeping it at the end of the run or not. *)
Record ate c (d : bytes) (kept : bytes) c' : Prop := {
  at_reading : reading c';
  at_moved : moved c c';
  at_stream : stream c = d ++ stream c';
  at_run : run_bytes (inp c') (kern c') = run_bytes (inp c) (kern c) ++ kept
}.

Lemma ate_refl c : reading c -> ate c [] [] c.
Proof. intros Hr. split; try done; [apply moved_refl|by rewrite app_nil_r]. Qed.

Lemma ate_trans c d1 k1 c1 d2 k2 c2 : ate c d1 k1 c1 -> ate c1 d2 k2 c2 -> ate c (d1 ++ d2) (k1 ++ k2) c2.
Proof.
  intros [] []. split; try done; [by eapply moved_trans|by rewrite at_stream0, at_stream1, app_assoc|by rewrite at_run1, at_run0, app_assoc].
Qed.

Lemma body_bytes_spec c live c' : reading c -> body_bytes c = (live, c') ->
  match live with
  | Some l => ate c [] [] c' /\ l = live_bytes (inp c') (kern c') /\ examined (inp c) < length l /\
      items_left (kern c') <= items_left (kern c) /\
      (length (live_bytes (inp c) (kern c)) <= examined (inp c) -> items_left (kern c') < items_left (kern c))
  | None => body_err c' <> 0%Z
  end.
Proof.
  intros [Hok He] Hb. unfold body_bytes in Hb. destruct (ioxd__pipereader_read (inp c) (kern c)) as [[[rc l] pr] k] eqn:Er.
  destruct (Z.ltb_spec 0 rc) as [Hrc|Hrc].
  - injection Hb as <- <-. assert (rc = 1%Z) as ->.
    { unfold ioxd__pipereader_read in Er. rewrite He in Er. cbn [Z.eqb negb] in Er. exact (read_loop_one _ _ _ _ _ _ _ Er Hrc). }
    pose proof Er as Er'. apply read_spec in Er as [[F1 F2 F3 F4 F5 F6 F7] Hc]; [|done].
    apply read_items in Er' as (_ & E1 & E2 & E3); [|done|lia]. pose proof (length_live _ _ _ F1) as Hl1. pose proof (length_live _ _ _ Hok) as Hl2.
    destruct Hc as [(_ & -> & Hex)|[(? & _)|(_ & ?)]]; [|done|congruence]. fold (live_bytes pr k).
    split_and!; cbn.
    + split; [done|done| |cbn; by rewrite app_nil_r]. unfold stream. cbn. destruct F5 as [F5|F5]; [by rewrite F5|by rewrite E1 in F5].
    + done.
    + by rewrite Hl1, <- F7.
    + done.
    + by rewrite Hl2.
  - destruct (rc =? IOXD_PIPE_FULL)%Z; injection Hb as <- <-; done.
Qed.

Lemma examine_ate c n : reading c -> ate c [] [] (examine c n).
Proof. intros [[] ?]. split; [split; [split|]| | |]; try done. by rewrite app_nil_r. Qed.

Lemma drop_ate c n : reading c -> n <= length (live_bytes (inp c) (kern c)) ->
  ate c (take n (live_bytes (inp c) (kern c))) [] (drop_live c n).
Proof.
  intros [Hok He] Hn. unfold drop_live, ioxd__pipereader_drop. destruct (consume (inp c) (kern c) n) as [pr k] eqn:Ec.
  apply (consume_spec 0) in Ec as [C1 C2 C3 C4 _ _ (_ & C5 & _)]; [|done|lia..]. split; try done.
  - split; cbn; [done|congruence].
  - unfold stream. cbn. by rewrite C3, C4, app_assoc, take_drop.
  - cbn. by rewrite C2, app_nil_r.
Qed.

(** A line taken: the live bytes start with it, and nothing was consumed yet. *)
Lemma body_line_loop_spec fuel c r c' : reading c -> items_left (kern c) + (if decide (length (live_bytes (inp c) (kern c)) <= examined (inp c)) then 0 else 1) <= fuel ->
  body_line_loop fuel c = (r, c') ->
  match r with
  | Some (i, l) => ate c [] [] c' /\ l = live_bytes (inp c') (kern c') /\ find_crlf l = Some i
  | None => body_err c' <> 0%Z
  end.
Proof.
  revert c. induction fuel as [|fuel IH]; intros c Hr Hf Hb; cbn [body_line_loop] in Hb; destruct (body_bytes c) as [[l|] c1] eqn:Eb;
    pose proof (body_bytes_spec _ _ _ Hr Eb) as Hs; try (by injection Hb as <- <-); destruct Hs as (Ha & Hl & Hex & Hi & Hi').
  - exfalso. destruct (decide _); lia.
  - destruct (find_crlf l) as [i|] eqn:Ei; [injection Hb as <- <-; done|].
    pose proof (examine_ate c1 (length l) (at_reading _ _ _ _ Ha)) as Hx. apply IH in Hb.
    + destruct r as [[i l']|]; [|done]. destruct Hb as (Ha' & ? & ?). split; [|done]. apply (ate_trans _ [] [] c1 [] []); [done|].
      by apply (ate_trans _ [] [] (examine c1 (length l)) [] []).
    + apply Hx.
    + rewrite decide_True by (rewrite Hl; exact (le_n _)). cbn. destruct (decide _); lia.
Qed.

Lemma body_line_spec c r c' : reading c -> body_line c = (r, c') ->
  match r with
  | Some (i, l) => ate c [] [] c' /\ l = live_bytes (inp c') (kern c') /\ find_crlf l = Some i
  | None => body_err c' <> 0%Z
  end.
Proof. intros Hr. apply body_line_loop_spec; [done|]. destruct (decide _); lia. Qed.

(** A body whose fields make sense. *)
Record body_ok c : Prop := {
  bo_reading : reading c;
  bo_chunk : (0 <= chunk_left c < 2 ^ 64)%Z;
  bo_length : Headers.chunked (req c) = false ->
    (0 <= body_read c <= req_content_length (req c))%Z /\ (req_content_length (req c) < 2 ^ 64)%Z /\
    (body_done c = true <-> body_read c = req_content_length (req c))%Z
}.

(** What is left of the body: data still to hand out, then what follows the body. *)
Inductive left c : bytes -> bytes -> Prop :=
| lf_done : body_done c = true -> left c [] (stream c)
| lf_length data rest : body_done c = false -> Headers.chunked (req c) = false ->
    stream c = data ++ rest -> Z.of_nat (length data) = (req_content_length (req c) - body_read c)%Z -> left c data rest
| lf_size data rest : body_done c = false -> Headers.chunked (req c) = true -> chunk_left c = 0%Z ->
    chunked_coding (stream c) data rest -> left c data rest
| lf_data d more data rest : body_done c = false -> Headers.chunked (req c) = true -> d <> [] ->
    chunk_left c = Z.of_nat (length d) -> stream c = d ++ CRLF ++ more -> chunked_coding more data rest ->
    left c (d ++ data) rest.

Lemma left_of c c' data rest : inp c' = inp c -> kern c' = kern c -> req c' = req c -> body_done c' = body_done c ->
  chunk_left c' = chunk_left c -> body_read c' = body_read c -> left c' data rest -> left c data rest.
Proof.
  intros E1 E2 E3 E4 E5 E6 Hl. assert (Es : stream c' = stream c) by (unfold stream; by rewrite E1, E2).
  inversion Hl; subst; rewrite ?E3, ?E4, ?E5, ?E6, ?Es in *; [by apply lf_done|by apply lf_length|by apply lf_size|by eapply lf_data].
Qed.

(** One step over the body: [d] was handed out, [kept] joined the run. *)
Record stepped c (d kept : bytes) c' : Prop := {
  st_ok : body_ok c';
  st_req : req c' = req c;
  st_err : body_err c' = body_err c;
  st_run : run_bytes (inp c') (kern c') = run_bytes (inp c) (kern c) ++ kept;
  st_left : forall data rest, left c' data rest -> left c (d ++ data) rest
}.

Lemma ate_ok c d k c' : body_ok c -> ate c d k c' -> body_ok c'.
Proof. intros [] [? Hm _ _]. rewrite Hm in *. by split. Qed.

(** Errors stay, and the reader stays in order. *)
Definition alive c : Prop := reader_ok 0 (inp c) (kern c) /\ (error (inp c) <= 0)%Z.
Definition sticky c c' : Prop := alive c -> alive c' /\ (body_err c <> 0%Z -> body_err c' <> 0%Z).

Lemma sticky_of c c' : inp c' = inp c -> kern c' = kern c -> (body_err c <> 0%Z -> body_err c' <> 0%Z) -> sticky c c'.
Proof. intros E1 E2 He Hr. unfold alive in *. by rewrite E1, E2. Qed.

Lemma sticky_trans c1 c2 c3 : sticky c1 c2 -> sticky c2 c3 -> sticky c1 c3.
Proof. intros A B Hr. destruct (A Hr) as [Hr2 He2], (B Hr2) as [Hr3 He3]. auto. Qed.

Lemma body_bytes_sticky c : sticky c (body_bytes c).2.
Proof.
  intros [Hr He]. unfold body_bytes. destruct (ioxd__pipereader_read _ _) as [[[rc l] pr] k] eqn:E. pose proof (read_nonpos _ _ _ _ _ _ Hr E He).
  apply read_spec in E as [[F1 _ _ _ _ _ _] _]; [|done]. by repeat case_match.
Qed.

Lemma examine_sticky c n : sticky c (examine c n).
Proof. intros [[] ?]. by split. Qed.

Lemma drop_live_sticky c n : sticky c (drop_live c n).
Proof.
  intros [Hr He]. unfold drop_live. destruct (ioxd__pipereader_drop (inp c) (kern c) n) as [pr k] eqn:E. split; [|done].
  apply (consume_spec 0) in E as [C1 _ _ _ _ _ (_ & C2 & _)]; [|done|lia..]. split; cbn; [done|by rewrite C2].
Qed.

Lemma body_line_loop_sticky fuel c : sticky c (body_line_loop fuel c).2.
Proof.
  revert c. induction fuel as [|fuel IH]; intros c; cbn [body_line_loop]; pose proof (body_bytes_sticky c) as Hb;
    destruct (body_bytes c) as [[l|] c1]; try done; destruct (find_crlf l); try done.
  eapply sticky_trans; [exact Hb|]. eapply sticky_trans; [apply examine_sticky|apply IH].
Qed.

Lemma body_line_sticky c : sticky c (body_line c).2.
Proof. apply body_line_loop_sticky. Qed.

Lemma chunk_trailers_loop_sticky fuel taken c : sticky c (chunk_trailers_loop fuel taken c).2.
Proof.
  revert taken c. induction fuel as [|fuel IH]; intros taken c; cbn [chunk_trailers_loop]; pose proof (body_line_sticky c) as Hb;
    destruct (body_line c) as [[[i l]|] c1]; try done; cbn zeta; (eapply sticky_trans; [exact Hb|]);
    (destruct (_ <? _); [by apply sticky_of|]); (eapply sticky_trans; [apply (drop_live_sticky _ (i + 2))|]);
    (destruct (_ =? _); [by apply sticky_of|]).
  - by apply sticky_of.
  - apply IH.
Qed.

Lemma chunk_header_sticky c : sticky c (chunk_header c).2.
Proof.
  unfold chunk_header. pose proof (body_line_sticky c) as Hb. destruct (body_line c) as [[[i l]|] c1]; (eapply sticky_trans; [exact Hb|]).
  - destruct (chunk_size _); [|by apply sticky_of]. cbn zeta. eapply sticky_trans; [apply (drop_live_sticky _ (i + 2))|].
    destruct (_ =? _)%Z; [apply chunk_trailers_loop_sticky|by apply sticky_of].
  - cbn [snd]. by destruct (_ =? _)%Z; apply sticky_of.
Qed.

Lemma chunk_end_loop_sticky fuel c : sticky c (chunk_end_loop fuel c).2.
Proof.
  revert c. induction fuel as [|fuel IH]; intros c; cbn [chunk_end_loop]; pose proof (body_bytes_sticky c) as Hb;
    destruct (body_bytes c) as [[l|] c1]; try done; (eapply sticky_trans; [exact Hb|]);
    (destruct (_ <=? _); [destruct (negb _); [by apply sticky_of|apply drop_live_sticky]|]).
  - by apply sticky_of.
  - eapply sticky_trans; [apply examine_sticky|apply IH].
Qed.

Lemma copy_sticky c n got d pr k : ioxd__pipereader_copy (inp c) (kern c) n = (got, d, pr, k) ->
  sticky c (set_in c pr k) /\ (alive c -> (0 < got)%Z -> got = Z.of_nat (length d) /\ length d <= n).
Proof.
  intros Hc. split.
  - intros [Hr He]. pose proof (copy_nonpos _ _ _ _ _ _ _ Hr Hc He). split; [|done]. split; [|done]. unfold ioxd__pipereader_copy in Hc.
    destruct (negb _); [by injection Hc as <- <- <- <-|]. apply copy_loop_spec in Hc as (R1 & _); [done|done|lia].
  - intros [Hr He] Hg. unfold ioxd__pipereader_copy in Hc. destruct (error (inp c) =? 0)%Z eqn:Hz; cbn [negb] in Hc.
    + apply copy_loop_spec in Hc as (_ & _ & _ & _ & R5 & _ & R7 & _); [auto|done|lia].
    + injection Hc as <- <- <- <-. lia.
Qed.

(** A call for data hands out nothing only when it fails. *)
Lemma chunk_data_sticky c n k d c' : chunk_data c n = (k, d, c') -> sticky c c' /\
  (alive c -> (0 <= k)%Z -> 0 < length d <= n).
Proof.
  unfold chunk_data. set (n' := if (chunk_left c <? _)%Z then _ else n). assert (n' <= n) by (unfold n'; destruct (Z.ltb_spec (chunk_left c) (Z.of_nat n)); lia).
  destruct (ioxd__pipereader_copy _ _ n') as [[[got d'] pr] w] eqn:E. destruct (copy_sticky _ _ _ _ _ _ E) as [Hs Hg].
  destruct (Z.leb_spec got 0) as [|Hpos].
  { intros [= <- <- <-]. split; [|lia]. eapply sticky_trans; [exact Hs|by apply sticky_of]. }
  assert (Hl : alive c -> 0 < length d' <= n) by (intros Hr; destruct (Hg Hr Hpos); lia).
  set (c1 := set_body_read _ _). assert (Hs1 : sticky c c1) by (eapply sticky_trans; [exact Hs|by apply sticky_of]).
  destruct (_ =? _)%Z; [|intros [= <- <- <-]; split; [exact Hs1|auto]]. pose proof (chunk_end_loop_sticky 2 c1) as He. fold (chunk_end c1) in He.
  destruct (chunk_end c1) as [b c2]. intros [= <- <- <-]. split; [by eapply sticky_trans|auto].
Qed.

Lemma fixed_data_sticky c n k d c' : fixed_data c n = (k, d, c') -> sticky c c' /\
  (alive c -> (0 <= k)%Z -> 0 < length d <= n).
Proof.
  unfold fixed_data. set (n' := if (_ <? Z.of_nat n)%Z then _ else n).
  assert (n' <= n) by (unfold n'; destruct (Z.ltb_spec (wrap64 (req_content_length (req c) - body_read c)) (Z.of_nat n)); lia).
  destruct (ioxd__pipereader_copy _ _ n') as [[[got d'] pr] w] eqn:E. destruct (copy_sticky _ _ _ _ _ _ E) as [Hs Hg].
  destruct (Z.leb_spec got 0) as [|Hpos]; intros [= <- <- <-].
  { split; [|lia]. eapply sticky_trans; [exact Hs|by apply sticky_of]. }
  split; [|intros Hr; destruct (Hg Hr Hpos); lia]. eapply sticky_trans; [exact Hs|]. by destruct (_ =? _)%Z; apply sticky_of.
Qed.

(** *** Lines and chunks *)

Lemma line_taken c i l c' : ate c [] [] c' -> l = live_bytes (inp c') (kern c') -> find_crlf l = Some i ->
  is_line (take i l) /\ i <= length l /\ ate c (take i l ++ CRLF) [] (drop_live c' (i + 2)).
Proof.
  intros Ha Hl Hi. destruct (find_crlf_split _ _ Hi) as [Hs Hlen]. split_and!; [by apply find_crlf_line|lia|].
  eapply (ate_trans _ [] [] c' _ []) in Ha; [exact Ha|].
  replace (take i l ++ CRLF) with (take (i + 2) (live_bytes (inp c') (kern c'))).
  - apply drop_ate; [by destruct Ha|]. by rewrite <- Hl.
  - rewrite <- Hl. clear -Hs Hlen. replace (i + 2) with (length (take i l ++ CRLF)) at 1 by (rewrite length_app, length_take; cbn; lia).
    rewrite Hs at 2. by rewrite app_assoc, take_app_length.
Qed.

Lemma chunk_trailers_loop_spec fuel taken c b c' : reading c -> taken <= IOXD_TRAILER_MAX ->
  IOXD_TRAILER_MAX < taken + 3 * (fuel + 1) ->
  chunk_trailers_loop fuel taken c = (b, c') ->
  if b then exists t c1, trailer_part t /\ ate c t [] c1 /\ c' = set_body_done c1 else body_err c' <> 0%Z.
Proof.
  revert taken c. induction fuel as [|fuel IH]; intros taken c Hr Ht Hf Hb; cbn [chunk_trailers_loop] in Hb;
    destruct (body_line c) as [[[i l]|] c1] eqn:El; pose proof (body_line_spec _ _ _ Hr El) as Hs; try (by injection Hb as <- <-);
    destruct Hs as (Ha & Hl & Hi); destruct (line_taken _ _ _ _ Ha Hl Hi) as (Hline & Hlen & Hd);
    (destruct (Nat.ltb_spec IOXD_TRAILER_MAX (taken + i + 2)) as [|Hm]; [by injection Hb as <- <-|]);
    (destruct (Nat.eqb_spec i 0) as [->|Hi0]; [injection Hb as <- <-; exists CRLF, (drop_live c1 2); split_and!; [constructor|exact Hd|done]|]).
  - lia.
  - apply IH in Hb; [|apply Hd|lia..]. destruct b; [|done]. destruct Hb as (t & c2 & Ht2 & Ha2 & ->).
    exists (take i l ++ CRLF ++ t), c2. split_and!; [|rewrite app_assoc; by apply (ate_trans _ _ [] (drop_live c1 (i + 2)) _ [])|done].
    constructor; try done. intros He. apply (f_equal length) in He. rewrite length_take in He. cbn in He. lia.
Qed.

Lemma chunk_trailers_spec c b c' : reading c -> chunk_trailers c = (b, c') ->
  if b then exists t c1, trailer_part t /\ ate c t [] c1 /\ c' = set_body_done c1 else body_err c' <> 0%Z.
Proof.
  unfold chunk_trailers. intros Hr. apply chunk_trailers_loop_spec; [done| |]; generalize IOXD_TRAILER_MAX; intros m; clear; lia.
Qed.

Lemma chunk_header_spec c b c' : reading c -> chunk_header c = (b, c') ->
  if b then exists line size c1, is_line line /\ chunk_size line = Some size /\
    (size = 0%Z /\ (exists t, trailer_part t /\ ate c (line ++ CRLF ++ t) [] c1) /\ c' = set_body_done c1 \/
     size <> 0%Z /\ ate c (line ++ CRLF) [] c1 /\ c' = set_chunk_left c1 size)
  else body_err c' <> 0%Z.
Proof.
  intros Hr Hb. unfold chunk_header in Hb. destruct (body_line c) as [[[i l]|] c1] eqn:El; pose proof (body_line_spec _ _ _ Hr El) as Hs.
  2: { injection Hb as <- <-. by destruct (_ =? _)%Z. }
  destruct Hs as (Ha & Hl & Hi); destruct (line_taken _ _ _ _ Ha Hl Hi) as (Hline & Hlen & Hd).
  destruct (chunk_size (take i l)) as [size|] eqn:Ec; [|by injection Hb as <- <-]. cbn zeta in Hb.
  destruct (Z.eqb_spec size 0) as [->|Hz].
  - apply chunk_trailers_spec in Hb; [|apply Hd]. destruct b; [|done].
    destruct Hb as (t & c2 & Ht2 & Ha2 & ->). exists (take i l), 0%Z, c2. split_and!; try done. left. split_and!; try done.
    exists t. split; [done|]. rewrite app_assoc. by apply (ate_trans _ _ [] (drop_live c1 (i + 2)) _ []).
  - injection Hb as <- <-. exists (take i l), size, (drop_live c1 (i + 2)). split_and!; try done. by right.
Qed.

Lemma chunk_end_spec c b c' : reading c -> chunk_end c = (b, c') -> if b then ate c CRLF [] c' else body_err c' <> 0%Z.
Proof.
  assert (Hgo : forall c l c', reading c -> ate c [] [] c' -> l = live_bytes (inp c') (kern c') -> 2 <= length l -> take 2 l = CRLF -> ate c CRLF [] (drop_live c' 2)).
  { intros x l x' Hr Ha Hl H2 Ht. subst l. rewrite <- Ht. exact (ate_trans _ _ _ _ _ _ _ Ha (drop_ate x' 2 (at_reading _ _ _ _ Ha) H2)). }
  intros Hr Hb. unfold chunk_end in Hb. cbn [chunk_end_loop] in Hb.
  destruct (body_bytes c) as [[l|] c1] eqn:E1; pose proof (body_bytes_spec _ _ _ Hr E1) as Hs; [|by injection Hb as <- <-].
  destruct Hs as (Ha & Hl & Hex & _).
  destruct (Nat.leb_spec 2 (length l)) as [H2|H2].
  { destruct (beq (take 2 l) CRLF) eqn:Eb; injection Hb as <- <-; [|done]. apply beq_true in Eb. by eapply Hgo. }
  pose proof (examine_ate c1 (length l) (at_reading _ _ _ _ Ha)) as Hx. pose proof (ate_trans _ _ _ _ _ _ _ Ha Hx) as Hax.
  destruct (body_bytes (examine c1 (length l))) as [[l2|] c2] eqn:E2; pose proof (body_bytes_spec _ _ _ (at_reading _ _ _ _ Hx) E2) as Hs; [|by injection Hb as <- <-].
  destruct Hs as (Ha2 & Hl2 & Hex2 & _).
  destruct (Nat.leb_spec 2 (length l2)) as [H3|H3].
  { destruct (beq (take 2 l2) CRLF) eqn:Eb; injection Hb as <- <-; [|done]. apply beq_true in Eb. eapply Hgo; [done| |done..].
    exact (ate_trans _ _ _ _ _ _ _ Hax Ha2). }
  cbn in Hex2. lia.
Qed.

(** *** Steps over the body *)

Lemma stepped_refl c : body_ok c -> stepped c [] [] c.
Proof. intros. split; try done. by rewrite app_nil_r. Qed.

Lemma stepped_trans c1 d1 k1 c2 d2 k2 c3 : stepped c1 d1 k1 c2 -> stepped c2 d2 k2 c3 -> stepped c1 (d1 ++ d2) (k1 ++ k2) c3.
Proof.
  intros [? A2 A3 A4 A5] [? B2 B3 B4 B5]. split; [done|congruence|congruence|by rewrite B4, A4, app_assoc|].
  intros data rest Hl. rewrite <- app_assoc. by apply A5, B5.
Qed.

Lemma moved_fields c c' : moved c c' ->
  req c' = req c /\ body_done c' = body_done c /\ chunk_left c' = chunk_left c /\ body_read c' = body_read c /\ body_err c' = body_err c.
Proof. unfold moved. intros ->. done. Qed.

(** A size line, or the last one and the trailers. *)
Lemma chunk_header_step c b c' : body_ok c -> body_done c = false -> Headers.chunked (req c) = true -> chunk_left c = 0%Z ->
  chunk_header c = (b, c') -> if b then stepped c [] [] c' /\ (body_done c' = true \/ (0 < chunk_left c')%Z) else body_err c' <> 0%Z.
Proof.
  intros Hok Hd Hch Hc0 Hb. apply chunk_header_spec in Hb; [|apply Hok]. destruct b; [|done].
  destruct Hb as (line & size & c1 & Hl & Hs & [(-> & (t & Ht & Ha) & ->)|(Hz & Ha & ->)]);
    destruct (ate_ok _ _ _ _ Hok Ha) as [O1 O2 O3]; destruct (moved_fields _ _ (at_moved _ _ _ _ Ha)) as (F1 & F2 & F3 & F4 & F5);
    pose proof (at_stream _ _ _ _ Ha) as Hst.
  - split; [|by left]. split; try done; [split; [by eapply reading_of|done|cbn; congruence]|apply Ha|]. intros data rest Hleft. cbn [app].
    inversion Hleft as [Hd' E1 E2| ? ? Hd'|? ? Hd'|? ? ? ? Hd']; try (cbn in Hd'; congruence). subst.
    apply lf_size; try done. rewrite Hst. rewrite <- !app_assoc. by apply cc_last.
  - pose proof (chunk_size_range _ _ Hs). split; [|right; cbn; lia]. split; try done; [split; [by eapply reading_of|cbn; lia|done]|apply Ha|].
    intros data rest Hleft. cbn [app]. inversion Hleft as [Hd' E1 E2|? ? Hd' Hc'|? ? Hd' Hc' Hz0|d more dt ? Hd' Hc' Hne Hlen Hms Hmore]; cbn in *; try congruence.
    subst. apply lf_size; try done. rewrite Hst. change (stream c1 = d ++ CRLF ++ more) in Hms. rewrite Hms.
    rewrite <- app_assoc. by apply cc_chunk.
Qed.

Lemma copy_ate c n got d pr k : reading c -> ioxd__pipereader_copy (inp c) (kern c) n = (got, d, pr, k) -> (0 < got)%Z ->
  ate c d [] (set_in c pr k) /\ got = Z.of_nat (length d) /\ length d <= n.
Proof.
  intros [Hok He] Hc Hg. unfold ioxd__pipereader_copy in Hc. rewrite He in Hc. cbn [Z.eqb negb] in Hc.
  pose proof (copy_loop_error _ _ _ _ _ _ _ _ Hok Hc Hg) as Herr.
  apply copy_loop_spec in Hc as (R1 & R2 & _ & _ & R5 & [R6|R6] & R7 & _); [|rewrite Herr, He in R6; done|done|lia].
  split_and!; [|by apply R7|done]. split; cbn; [split; [done|cbn; congruence]|done|by unfold stream; cbn; rewrite <- R6|by rewrite app_nil_r].
Qed.

Lemma wrap64_id v : (0 <= v < 2 ^ 64)%Z -> wrap64 v = v.
Proof. apply Z.mod_small. Qed.

(** What one call for data did: it failed, or it handed out some bytes. *)
Definition handed_out c (n : nat) (k : Z) (d : bytes) c' : Prop :=
  (k = -1)%Z /\ d = [] /\ body_err c' <> 0%Z \/
  k = Z.of_nat (length d) /\ 0 < length d <= n /\ (body_err c' = 0%Z -> stepped c d [] c').

Lemma fixed_data_step c n k d c' : body_ok c -> body_done c = false -> Headers.chunked (req c) = false ->
  fixed_data c n = (k, d, c') -> handed_out c n k d c'.
Proof.
  intros Hok Hd Hch Hf. destruct Hok as [O1 O2 O3]. destruct (O3 Hch) as (O4 & O5 & O6). unfold fixed_data in Hf.
  assert (body_read c <> req_content_length (req c)) by (intros Hx; apply O6 in Hx; congruence).
  rewrite (wrap64_id (_ - _)) in Hf by lia. set (n' := if (_ <? Z.of_nat n)%Z then _ else n) in Hf.
  assert (Hn' : n' <= n /\ (Z.of_nat n' <= req_content_length (req c) - body_read c)%Z).
  { unfold n'. destruct (Z.ltb_spec (req_content_length (req c) - body_read c) (Z.of_nat n)); lia. } clearbody n'.
  destruct (ioxd__pipereader_copy (inp c) (kern c) n') as [[[got d'] pr] w] eqn:Ec. cbn zeta in Hf.
  destruct (Z.leb_spec got 0) as [|Hg]; [injection Hf as <- <- <-; by left|]. injection Hf as <- <- <-. right.
  destruct (copy_ate _ _ _ _ _ _ O1 Ec Hg) as ([A1 _ A3 A4] & -> & Hlen). split_and!; [done|lia|lia|].
  intros _. cbn [body_read set_in set_body_read set_body req]. rewrite wrap64_id by lia.
  destruct (Z.eqb_spec (body_read c + Z.of_nat (length d')) (req_content_length (req c))) as [He|He].
  - split; try done.
    + split; [by eapply reading_of|done|cbn; intros _; split_and!; try lia; done].
    + intros data rest Hl. inversion Hl as [? E1 E2|? ? Hd'|? ? Hd'|? ? ? ? Hd']; try done. subst. apply lf_length; try done; [|rewrite app_nil_r; lia].
      rewrite A3, app_nil_r. done.
  - split; try done.
    + split; [by eapply reading_of|done|cbn; intros _; split_and!; try lia; split; [congruence|lia]].
    + intros data rest Hl. inversion Hl as [Hd' E1 E2|? ? Hd' _ Hs Hlen'|? ? _ Hc'|? ? ? ? _ Hc']; cbn in *; try congruence.
      subst. apply lf_length; try done; [|rewrite length_app; lia].
      rewrite A3. change (stream (set_in c pr w) = data ++ rest) in Hs. by rewrite Hs, app_assoc.
Qed.

Lemma body_bytes_done c : body_done (body_bytes c).2 = body_done c /\ req (body_bytes c).2 = req c.
Proof. unfold body_bytes. destruct (ioxd__pipereader_read _ _) as [[[rc l] pr] k]. by repeat case_match. Qed.

Lemma chunk_end_done c : body_done (chunk_end c).2 = body_done c /\ req (chunk_end c).2 = req c.
Proof.
  unfold chunk_end. generalize 2. intros fuel. revert c. induction fuel as [|fuel IH]; intros c; cbn [chunk_end_loop]; pose proof (body_bytes_done c) as Hb;
    destruct (body_bytes c) as [[l|] c1]; cbn [snd] in *; try done; destruct (_ <=? _);
    try (destruct (negb _); cbn [snd]; [done|]; unfold drop_live; by destruct (ioxd__pipereader_drop _ _ _)).
  - done.
  - destruct (IH (examine c1 (length l))) as [-> ->]. done.
Qed.

Lemma chunk_data_done c n k d c' : chunk_data c n = (k, d, c') -> body_done c' = body_done c /\ req c' = req c.
Proof.
  unfold chunk_data. destruct (ioxd__pipereader_copy _ _ _) as [[[g d'] pr] w]. cbn zeta. destruct (g <=? 0)%Z; [by intros [= <- <- <-]|].
  destruct (_ =? _)%Z; [|by intros [= <- <- <-]].
  match goal with |- context [chunk_end ?x] => pose proof (chunk_end_done x) as He; destruct (chunk_end x) end. by intros [= <- <- <-].
Qed.

(** Some of a chunk was taken: its counters, and its end when that was the last of it. *)
Definition advanced c (n : nat) : ctx W :=
  set_body_read (set_chunk_left c (wrap64 (chunk_left c - Z.of_nat n))) (wrap64 (body_read c + Z.of_nat n)).

Lemma chunk_advance c d kept c1 : body_ok c -> body_done c = false -> Headers.chunked (req c) = true -> d <> [] ->
  (Z.of_nat (length d) <= chunk_left c)%Z -> ate c d kept c1 ->
  chunk_left (advanced c1 (length d)) = (chunk_left c - Z.of_nat (length d))%Z /\ body_err (advanced c1 (length d)) = body_err c /\
  (chunk_left (advanced c1 (length d)) <> 0%Z -> stepped c d kept (advanced c1 (length d))) /\
  (chunk_left (advanced c1 (length d)) = 0%Z ->
   match chunk_end (advanced c1 (length d)) with
   | (true, c2) => stepped c d kept c2 /\ chunk_left c2 = 0%Z /\ length (stream c2) < length (stream c)
   | (false, c2) => body_err c2 <> 0%Z
   end).
Proof.
  intros [O1 O2 O3] Hd Hch Hne Hle [A1 A2 A3 A4]. destruct (moved_fields _ _ A2) as (F1 & F2 & F3 & F4 & F5).
  assert (Hcl : chunk_left (advanced c1 (length d)) = (chunk_left c - Z.of_nat (length d))%Z) by (cbn; rewrite F3; apply wrap64_id; lia).
  set (c2 := advanced c1 (length d)) in *.
  assert (Hdc : body_done c2 = false /\ Headers.chunked (req c2) = true /\ req c2 = req c) by (cbn; rewrite F1, F2; done). destruct Hdc as (Hd2 & Hch2 & Hq2).
  assert (Hok2 : body_ok c2) by (split; [by eapply reading_of|lia|congruence]).
  assert (Hst : stream c = d ++ stream c2) by exact A3.
  assert (Hrun : run_bytes (inp c2) (kern c2) = run_bytes (inp c) (kern c) ++ kept) by exact A4.
  assert (He2 : body_err c2 = body_err c) by exact F5.
  clearbody c2. split_and!; [done|done| |].
  - intros Hnz. split; try done. intros data rest Hl.
    inversion Hl as [Hd' E1 E2|? ? Hd' Hc'|? ? Hd' _ Hc'|d2 more dt ? _ _ Hne2 Hlen2 Hs Hmore]; try congruence.
    subst. rewrite app_assoc. eapply lf_data; try done; [by destruct d|rewrite length_app; lia|]. by rewrite Hst, Hs, <- !app_assoc.
  - intros Hz. destruct (chunk_end c2) as [b c3] eqn:Ee. pose proof (chunk_end_spec _ _ _ (bo_reading _ Hok2) Ee) as Hs. destruct b; [|done].
    destruct (moved_fields _ _ (at_moved _ _ _ _ Hs)) as (G1 & G2 & G3 & G4 & G5). pose proof (at_stream _ _ _ _ Hs) as Hst2. split; [split|].
    + by eapply ate_ok.
    + congruence.
    + congruence.
    + by rewrite (at_run _ _ _ _ Hs), app_nil_r.
    + intros data rest Hl. inversion Hl as [Hd' E1 E2|? ? Hd' Hc'|? ? Hd' _ Hc' Hcc|d2 more dt ? _ _ Hne2 Hlen2 Hs2 Hmore]; subst; try congruence.
      * eapply lf_data; try done; [lia|]. by rewrite Hst, Hst2.
      * destruct d2; [done|cbn in Hlen2; lia].
    + split; [congruence|]. rewrite Hst, Hst2, !length_app. change (length CRLF) with 2. lia.
Qed.

Lemma chunk_data_step c n k d c' : body_ok c -> body_done c = false -> Headers.chunked (req c) = true -> (0 < chunk_left c)%Z ->
  chunk_data c n = (k, d, c') -> handed_out c n k d c' /\ body_done c' = false /\
    (body_err c' = 0%Z -> chunk_left c' = (chunk_left c - Z.of_nat (length d))%Z).
Proof.
  intros Hok Hd Hch Hc0 Hf. pose proof (proj1 (chunk_data_done _ _ _ _ _ Hf)) as Hdn. rewrite Hd in Hdn.
  unfold chunk_data in Hf. set (n' := if (chunk_left c <? _)%Z then _ else n) in Hf.
  assert (Hn' : n' <= n /\ (Z.of_nat n' <= chunk_left c)%Z).
  { unfold n'. destruct (Z.ltb_spec (chunk_left c) (Z.of_nat n)); lia. } clearbody n'.
  destruct (ioxd__pipereader_copy (inp c) (kern c) n') as [[[got d'] pr] w] eqn:Ec. cbn zeta in Hf.
  destruct (Z.leb_spec got 0) as [|Hg]; [injection Hf as <- <- <-; split; [by left|done]|].
  destruct (copy_ate _ _ _ _ _ _ (bo_reading _ Hok) Ec Hg) as (Ha & -> & Hlen).
  fold (advanced (set_in c pr w) (length d')) in Hf.
  destruct (chunk_advance c d' [] _ Hok Hd Hch ltac:(by destruct d') ltac:(lia) Ha) as (Hcl & He & Hmore & Hend).
  destruct (Z.eqb_spec (chunk_left (advanced (set_in c pr w) (length d'))) 0) as [Hz|Hz].
  - specialize (Hend Hz). destruct (chunk_end _) as [b c2]. injection Hf as <- <- <-. split; [|split; [done|]].
    + right. split; [done|]. split; [lia|]. intros Hze. destruct b; [apply Hend|done].
    + intros Hze. destruct b; [|done]. destruct Hend as (_ & -> & _). lia.
  - injection Hf as <- <- <-. split; [|done]. right. split; [done|]. split; [lia|]. intros _. by apply Hmore.
Qed.

(** *** Reading up to a number of bytes *)

Lemma body_begin_step c b c' : body_begin c = (b, c') -> sticky c c' /\
  if b then (body_ok c -> stepped c [] [] c') /\ body_done c' = body_done c /\ chunk_left c' = chunk_left c /\ req c' = req c
  else body_err c' <> 0%Z.
Proof.
  unfold body_begin. destruct (negb _ || _ || _).
  { intros [= <- <-]. split; [by apply sticky_of|]. split_and!; try done. apply stepped_refl. }
  cbn zeta. destruct (ioxd__pipewriter_through _ _ _) as [[[] pw] w]; intros [= <- <-]; (split; [by apply sticky_of|]); [|done].
  split_and!; try done. intros Hok. split; try done; [destruct Hok; split; try done; by eapply reading_of|by rewrite app_nil_r|].
  intros data rest. by apply left_of.
Qed.

Lemma chunk_trailers_loop_done fuel taken c c' : chunk_trailers_loop fuel taken c = (true, c') -> body_done c' = true.
Proof.
  revert taken c. induction fuel as [|fuel IH]; intros taken c; cbn [chunk_trailers_loop]; destruct (body_line c) as [[[i l]|] c1]; try done; cbn zeta;
    (destruct (_ <? _); [done|]); (destruct (i =? 0); [by intros [= <-]|]); [done|]. apply IH.
Qed.

Lemma chunk_trailers_done c c' : chunk_trailers c = (true, c') -> body_done c' = true.
Proof. apply chunk_trailers_loop_done. Qed.

Lemma chunk_header_progress c c' : chunk_header c = (true, c') -> body_done c' = true \/ (chunk_left c' =? 0)%Z = false.
Proof.
  unfold chunk_header. destruct (body_line c) as [[[i l]|] c1]; [|done]. destruct (chunk_size _) as [size|]; [|done]. cbn zeta.
  destruct (Z.eqb_spec size 0) as [|Hz]; [|intros [= <-]; right; by apply Z.eqb_neq].
  intros Ht. left. by apply chunk_trailers_done in Ht.
Qed.

(** The state a read starts from: in order, or failed already. *)
Definition readable c : Prop := alive c /\ (body_err c = 0%Z -> body_ok c).

Definition rounds c (n : nat) (got : bytes) : nat := 2 * (n - length got) + (if (chunk_left c =? 0)%Z then 1 else 0).

Lemma sticky_zero c c' : sticky c c' -> alive c -> body_err c' = 0%Z -> body_err c = 0%Z.
Proof. intros Hs Ha He. destruct (Hs Ha) as [_ Hse]. destruct (Z.eq_dec (body_err c) 0); [done|by destruct Hse]. Qed.

Lemma readable_step c d k c' : readable c -> sticky c c' -> (body_err c' = 0%Z -> stepped c d k c') -> readable c'.
Proof. intros [Ha Hok] Hs Hst. split; [by apply Hs|]. intros He. apply (st_ok _ _ _ _ (Hst He)). Qed.

(** What a round that did not fail did. *)
Record round_done c (n : nat) (got d : bytes) c' : Prop := {
  ro_length : length (got ++ d) <= n;
  ro_stepped : body_err c' = 0%Z -> stepped c d [] c';
  ro_rounds : body_done c' = true \/ rounds c' n (got ++ d) < rounds c n got
}.

Lemma header_round c n got b c' : readable c -> length got < n -> body_done c = false -> Headers.chunked (req c) = true -> chunk_left c = 0%Z ->
  chunk_header c = (b, c') -> if b then round_done c n got [] c' else body_err c' <> 0%Z.
Proof.
  intros [Ha Hok] Hn Hd Hch Hc0 Eh. pose proof (chunk_header_sticky c) as Hs. rewrite Eh in Hs. cbn [snd] in Hs.
  assert (Hstep : body_err c = 0%Z -> if b then stepped c [] [] c' else body_err c' <> 0%Z).
  { intros He. pose proof (chunk_header_step c b c' (Hok He) Hd Hch Hc0 Eh) as Hst. destruct b; [apply Hst|done]. }
  destruct b.
  - split; [rewrite app_nil_r; lia|intros He; by apply Hstep, (sticky_zero c c')|].
    destruct (chunk_header_progress _ _ Eh) as [?|Hp]; [by left|right]. unfold rounds. rewrite app_nil_r, Hp, Hc0. cbn [Z.eqb]. lia.
  - destruct (Z.eq_dec (body_err c) 0) as [He|He]; [by apply Hstep|]. by apply (Hs Ha).
Qed.

Lemma data_round c n got k d c' : alive c -> length got < n -> sticky c c' ->
  (alive c -> (0 <= k)%Z -> 0 < length d <= n - length got) -> (body_err c = 0%Z -> handed_out c (n - length got) k d c') ->
  Headers.chunked (req c) = true /\ (chunk_left c =? 0)%Z = false \/ chunk_left c' = chunk_left c ->
  if (k <? 0)%Z then body_err c' <> 0%Z else round_done c n got d c'.
Proof.
  intros Ha Hn Hs Hp Hst Hcl. destruct (Z.ltb_spec k 0) as [Hk|Hk].
  - destruct (Z.eq_dec (body_err c) 0) as [He|He]; [|by apply (Hs Ha)]. destruct (Hst He) as [(_ & _ & ?)|(? & _)]; [done|lia].
  - specialize (Hp Ha Hk). split; [rewrite length_app; lia| |].
    + intros He. destruct (Hst (sticky_zero _ _ Hs Ha He)) as [(_ & _ & ?)|(_ & _ & Hx)]; [done|auto].
    + right. unfold rounds. rewrite length_app. destruct Hcl as [[_ E] | E]; rewrite E; [destruct (chunk_left c' =? 0)%Z|]; lia.
Qed.

Lemma read_round c n got k d c' : readable c -> length got < n -> body_done c = false -> read_one c n got = (k, d, c') ->
  sticky c c' /\ if (k <? 0)%Z then body_err c' <> 0%Z else round_done c n got d c'.
Proof.
  intros Hr Hn Hd Ho. pose proof Hr as [Ha Hok]. unfold read_one in Ho. destruct (Headers.chunked (req c)) eqn:Hch; cbn [negb] in Ho.
  - destruct (Z.eqb_spec (chunk_left c) 0) as [Hc0|Hc0].
    + pose proof (chunk_header_sticky c) as Hs. destruct (chunk_header c) as [b c1] eqn:Eh. injection Ho as <- <- <-. split; [done|].
      pose proof (header_round c n got b c1 Hr Hn Hd Hch Hc0 Eh). by destruct b.
    + destruct (chunk_data_sticky _ _ _ _ _ Ho) as [Hs Hp]. split; [done|].
      apply data_round; try done; [|left; split; [done|by apply Z.eqb_neq]]. intros He. pose proof (Hok He) as Hok'.
      assert (0 < chunk_left c)%Z by (destruct Hok'; lia). by apply (chunk_data_step c _ _ _ _ Hok' Hd Hch).
  - destruct (fixed_data_sticky _ _ _ _ _ Ho) as [Hs Hp]. split; [done|].
    apply data_round; try done; [intros He; by apply (fixed_data_step c _ _ _ _ (Hok He))|]. right.
    unfold fixed_data in Ho. destruct (ioxd__pipereader_copy _ _ _) as [[[g d'] pr] w]. cbn zeta in Ho.
    destruct (g <=? 0)%Z; injection Ho as <- <- <-; [done|]. by destruct (_ =? _)%Z.
Qed.

(** The whole loop: it returns, and what it stored was the next bytes of the body. *)
Lemma read_until_loop_spec fuel c n got : readable c -> length got <= n ->
  body_done c = true /\ 0 < fuel \/ rounds c n got < fuel ->
  exists k d c', read_until_loop fuel c n got = Some (k, got ++ d, c') /\ sticky c c' /\ length (got ++ d) <= n /\
    if (k <? 0)%Z then body_err c' <> 0%Z
    else k = Z.of_nat (length (got ++ d)) /\ (body_done c' = true \/ length (got ++ d) = n) /\
         (body_err c' = 0%Z -> stepped c d [] c').
Proof.
  revert c got. induction fuel as [|fuel IH]; intros c got Hr Hn Hf; [lia|]. cbn [read_until_loop].
  destruct (Nat.ltb_spec (length got) n) as [Hlt|Hge]; [destruct (body_done c) eqn:Hd|]; cbn [andb negb].
  1,3: exists (Z.of_nat (length got)), [], c; rewrite app_nil_r; split_and!; [done|by apply sticky_of|lia|];
    (destruct (Z.ltb_spec (Z.of_nat (length got)) 0); [lia|]); split_and!; [done|auto with lia|intros He; apply stepped_refl; by apply Hr].
  destruct (read_one c n got) as [[k d] c1] eqn:Eo. destruct (read_round _ _ _ _ _ _ Hr Hlt Hd Eo) as [Hs Hrd].
  destruct (k <? 0)%Z eqn:Hk.
  { exists (-1)%Z, [], c1. rewrite app_nil_r. split_and!; try done; lia. }
  destruct Hrd as [Q1 Q2 Q3].
  destruct (IH c1 (got ++ d)) as (k2 & d2 & c2 & E & Hs2 & Hlen & Hres); [by eapply readable_step|done|destruct Q3; [left; split; [done|]; destruct Hf; [destruct_and!; congruence|unfold rounds in *; lia]|right; destruct Hf; [destruct_and!; congruence|lia]]|].
  exists k2, (d ++ d2), c2. rewrite app_assoc. split_and!; [done|by eapply sticky_trans|done|]. destruct (k2 <? 0)%Z; [done|].
  destruct Hres as (R1 & R3 & R4). split_and!; try done. intros He. apply (stepped_trans _ _ [] c1 _ []); [|by apply R4].
  apply Q2. eapply sticky_zero; [exact Hs2|by apply Hs, Hr|done].
Qed.

(** What a read did, whatever it was: it failed for good, or [d] is the next of the body. *)
Definition read_outcome c (k : Z) (d : bytes) c' : Prop :=
  sticky c c' /\ if (k <? 0)%Z then body_err c' <> 0%Z else k = Z.of_nat (length d) /\ (body_err c' = 0%Z -> stepped c d [] c').

Lemma outcome_failed c d c' : sticky c c' -> body_err c' <> 0%Z -> read_outcome c (-1) d c'.
Proof. by split. Qed.

Lemma outcome_none c : readable c -> body_err c = 0%Z -> read_outcome c 0 [] c.
Proof. intros Hr He. split; [by apply sticky_of|]. split; [done|]. intros _. apply stepped_refl. by apply Hr. Qed.

Lemma read_until_spec c n : readable c ->
  exists k d c', ioxd_body_read_until c n = Some (k, d, c') /\ read_outcome c k d c' /\
    ((0 <= k)%Z -> body_done c' = true \/ k = Z.min (Z.of_nat n) INT_MAX) /\ length d <= n.
Proof.
  intros Hr. unfold ioxd_body_read_until. destruct (Z.eqb_spec (body_err c) 0) as [He|He]; cbn [negb].
  2: { exists (-1)%Z, [], c. split; [done|]. split; [apply outcome_failed; [by apply sticky_of|done]|]. split; [done|cbn; lia]. }
  destruct (Nat.eqb_spec n 0) as [->|Hn]; cbn [orb].
  { exists 0%Z, [], c. split; [done|]. split; [by apply outcome_none|]. split; [|done]. intros _. by right. }
  destruct (body_done c) eqn:Hd.
  { exists 0%Z, [], c. split; [done|]. split; [by apply outcome_none|]. split; [|cbn; lia]. intros _. by left. }
  destruct (body_begin c) as [[] c1] eqn:Eb; destruct (body_begin_step _ _ _ Eb) as [Hs Hb].
  2: { exists (-1)%Z, [], c1. split; [done|]. split; [by apply outcome_failed|]. split; [done|cbn; lia]. }
  destruct Hb as (Hst & Hd1 & Hc1 & Hq1). specialize (Hst (proj2 Hr He)).
  assert (Hr1 : readable c1) by (eapply readable_step; [exact Hr|exact Hs|done]).
  set (n' := if (INT_MAX <? Z.of_nat n)%Z then _ else n).
  assert (Hn' : n' <= n /\ Z.of_nat n' = Z.min (Z.of_nat n) INT_MAX).
  { unfold n'. destruct (Z.ltb_spec INT_MAX (Z.of_nat n)); unfold INT_MAX in *; lia. } clearbody n'.
  destruct (read_until_loop_spec (2 * n' + 2) c1 n' [] Hr1) as (k & d & c2 & -> & Hs2 & Hlen & Hres); [cbn; lia| |].
  { right. unfold rounds. cbn [length]. destruct (_ =? _)%Z; lia. }
  exists k, d, c2. cbn [app] in Hres, Hlen. split; [done|]. split; [split; [by eapply sticky_trans|]|split; [|lia]].
  - destruct (k <? 0)%Z; [done|]. destruct Hres as (-> & _ & Hres). split; [done|]. intros Hz. apply (stepped_trans _ [] [] c1 d []); auto.
  - destruct (Z.ltb_spec k 0) as [Hk|Hk]; [lia|]. destruct Hres as (-> & [Hdn|Hdn] & _); intros _; [by left|right; lia].
Qed.

(** A chunk at a time. *)
Lemma next_chunk_loop_spec fuel c want got : readable c -> body_done c = false -> Headers.chunked (req c) = true -> length got <= want ->
  want - length got <= fuel -> (body_err c = 0%Z -> chunk_left c = Z.of_nat (want - length got)) ->
  exists k d c', next_chunk_loop fuel c want got = Some (k, got ++ d, c') /\ sticky c c' /\ length (got ++ d) <= want /\
    if (k <? 0)%Z then body_err c' <> 0%Z
    else k = Z.of_nat want /\ length (got ++ d) = want /\ (body_err c' = 0%Z -> stepped c d [] c').
Proof.
  revert c got. induction fuel as [|fuel IH]; intros c got Hr Hd Hch Hn Hf Hc; cbn [next_chunk_loop];
    (destruct (Nat.ltb_spec (length got) want) as [Hlt|Hge];
      [|exists (Z.of_nat (length got)), [], c; rewrite app_nil_r; split_and!; [done|by apply sticky_of|lia|];
        (destruct (Z.ltb_spec (Z.of_nat (length got)) 0); [lia|]); split_and!; [lia|lia|intros He; apply stepped_refl; by apply Hr]]); [lia|].
  destruct (chunk_data c (want - length got)) as [[k d] c1] eqn:Eo. destruct (chunk_data_sticky _ _ _ _ _ Eo) as [Hs Hp]. specialize (Hp (proj1 Hr)).
  assert (Hstep : body_err c = 0%Z -> handed_out c (want - length got) k d c1 /\ body_done c1 = false /\
    (body_err c1 = 0%Z -> chunk_left c1 = (chunk_left c - Z.of_nat (length d))%Z)).
  { intros He. apply chunk_data_step; try done; [by apply Hr|]. rewrite (Hc He). lia. }
  destruct (Z.ltb_spec k 0) as [Hk|Hk].
  { exists (-1)%Z, [], c1. rewrite app_nil_r. split_and!; [done|done|lia|]. cbn [Z.ltb Z.compare]. destruct (Z.eq_dec (body_err c) 0) as [He|He].
    - destruct (Hstep He) as [[(_ & _ & ?)|(? & _)] _]; [done|lia].
    - by apply (Hs (proj1 Hr)). }
  specialize (Hp Hk).
  assert (Hst : body_err c1 = 0%Z -> stepped c d [] c1).
  { intros He. destruct (Hstep (sticky_zero _ _ Hs (proj1 Hr) He)) as [[(_ & _ & ?)|(_ & _ & ?)] _]; [done|auto]. }
  destruct (IH c1 (got ++ d)) as (k2 & d2 & c2 & E & Hs2 & Hlen & Hres).
  - by eapply readable_step.
  - by rewrite (proj1 (chunk_data_done _ _ _ _ _ Eo)).
  - by rewrite (proj2 (chunk_data_done _ _ _ _ _ Eo)).
  - rewrite length_app. lia.
  - rewrite length_app. lia.
  - intros He. destruct (Hstep (sticky_zero _ _ Hs (proj1 Hr) He)) as (_ & _ & ->); [|done]. rewrite (Hc (sticky_zero _ _ Hs (proj1 Hr) He)), length_app. lia.
  - exists k2, (d ++ d2), c2. rewrite app_assoc. split_and!; [done|by eapply sticky_trans|done|]. destruct (k2 <? 0)%Z; [done|].
    destruct Hres as (R1 & R3 & R4). split_and!; try done. intros He. apply (stepped_trans _ _ [] c1 _ []); [|by apply R4].
    apply Hst. eapply sticky_zero; [exact Hs2|by apply Hs, Hr|done].
Qed.

Lemma outcome_after c c1 k d c' : readable c -> sticky c c1 -> (body_err c1 = 0%Z -> stepped c [] [] c1) -> read_outcome c1 k d c' -> read_outcome c k d c'.
Proof.
  intros Hr Hs Hst [Hs1 Ho]. split; [by eapply sticky_trans|]. destruct (k <? 0)%Z; [done|]. destruct Ho as [-> Ho]. split; [done|].
  intros He. apply (stepped_trans _ [] [] c1 d []); [|by apply Ho]. apply Hst. apply (sticky_zero _ _ Hs1); [|done]. by apply Hs, Hr.
Qed.

(** A chunk that is open, or the next one. *)
Lemma open_chunk c b c1 : readable c -> body_err c = 0%Z -> body_done c = false -> Headers.chunked (req c) = true ->
  (if (chunk_left c =? 0)%Z then chunk_header c else (true, c)) = (b, c1) ->
  sticky c c1 /\ if b then stepped c [] [] c1 /\ ((0 < chunk_left c1)%Z \/ body_done c1 = true) else body_err c1 <> 0%Z.
Proof.
  intros Hr He Hd Hch Hx. destruct (Z.eqb_spec (chunk_left c) 0) as [Hc0|Hc0].
  - pose proof (chunk_header_sticky c) as Hs. rewrite Hx in Hs. split; [done|].
    pose proof (chunk_header_step c b c1 (proj2 Hr He) Hd Hch Hc0 Hx) as Hst. destruct b; [|done]. destruct Hst as [Hst Ho].
    split; [done|]. destruct Ho; auto.
  - injection Hx as <- <-. split; [by apply sticky_of|]. split; [apply stepped_refl; by apply Hr|]. left. destruct (proj2 Hr He). lia.
Qed.

Lemma next_chunk_spec c n : readable c -> Headers.chunked (req c) = true ->
  exists k d c', ioxd_body_read_next_chunk c n = Some (k, d, c') /\ read_outcome c k d c' /\ length d <= n.
Proof.
  intros Hr Hch. unfold ioxd_body_read_next_chunk. rewrite Hch. cbn [negb]. rewrite orb_false_r.
  destruct (Z.eqb_spec (body_err c) 0) as [He|He]; cbn [negb].
  2: { exists (-1)%Z, [], c. split; [done|]. split; [apply outcome_failed; [by apply sticky_of|done]|cbn; lia]. }
  destruct (body_done c) eqn:Hd.
  { exists 0%Z, [], c. split; [done|]. split; [by apply outcome_none|cbn; lia]. }
  destruct (body_begin c) as [[] c1] eqn:Eb; destruct (body_begin_step _ _ _ Eb) as [Hs Hb].
  2: { exists (-1)%Z, [], c1. split; [done|]. split; [by apply outcome_failed|cbn; lia]. }
  destruct Hb as (Hst & Hd1 & Hc1 & Hq1). specialize (Hst (proj2 Hr He)).
  assert (Hr1 : readable c1) by (eapply readable_step; [exact Hr|exact Hs|done]).
  assert (He1 : body_err c1 = 0%Z) by (rewrite (st_err _ _ _ _ Hst); done). rewrite Hd in Hd1. rewrite <- Hq1 in Hch.
  destruct (if (chunk_left c1 =? 0)%Z then chunk_header c1 else (true, c1)) as [b c2] eqn:Eo.
  destruct (open_chunk _ _ _ Hr1 He1 Hd1 Hch Eo) as [Hs2 Ho]. pose proof (sticky_trans _ _ _ Hs Hs2) as Hs12.
  destruct b; cbn [negb]; [destruct Ho as [Hst2 Hleft]|exists (-1)%Z, [], c2; split; [done|]; split; [by apply outcome_failed|cbn; lia]].
  pose proof (stepped_trans _ _ _ _ _ _ _ Hst Hst2) as Hst12.
  assert (Hr2 : readable c2) by (eapply readable_step; [exact Hr|exact Hs12|done]).
  assert (He2 : body_err c2 = 0%Z) by (rewrite (st_err _ _ _ _ Hst2); done).
  destruct (body_done c2) eqn:Hd2.
  { exists 0%Z, [], c2. split; [done|]. split; [|cbn; lia]. split; [done|]. by split. }
  destruct Hleft as [Hleft|?]; [|congruence].
  destruct (Z.ltb_spec (Z.of_nat n) (chunk_left c2)) as [|Hcap]; cbn [orb].
  { exists (-1)%Z, [], (body_fail c2 413). split; [done|]. split; [|cbn; lia]. apply outcome_failed; [|done]. eapply sticky_trans; [exact Hs12|by apply sticky_of]. }
  destruct (INT_MAX <? Z.of_nat n)%Z.
  { exists (-1)%Z, [], (body_fail c2 413). split; [done|]. split; [|cbn; lia]. apply outcome_failed; [|done]. eapply sticky_trans; [exact Hs12|by apply sticky_of]. }
  destruct (next_chunk_loop_spec (Z.to_nat (chunk_left c2)) c2 (Z.to_nat (chunk_left c2)) [] Hr2 Hd2) as (k & d & c3 & -> & Hs3 & Hlen & Hres);
    [by rewrite (st_req _ _ _ _ Hst2)|cbn; lia..|].
  exists k, d, c3. cbn [app] in *. split; [done|]. split; [|lia]. apply (outcome_after _ c2); [done|done|done|]. split; [done|].
  destruct (k <? 0)%Z; [done|]. destruct Hres as (-> & Hl & Hx). split; [lia|done].
Qed.

(** ** Sequences of reads *)

Inductive body_op := ReadUntil (n : nat) | NextChunk (cap_ : nat).

Definition body_do (o : body_op) c : option (Z * bytes * ctx W) :=
  match o with ReadUntil n => ioxd_body_read_until c n | NextChunk n => ioxd_body_read_next_chunk c n end.

(** All of them, the bytes stored strung together, until one fails. *)
Fixpoint body_run (os : list body_op) c : option (bytes * ctx W) :=
  match os with
  | [] => Some ([], c)
  | o :: os =>
      match body_do o c with
      | None => None
      | Some (k, d, c1) =>
          if (k <? 0)%Z then Some (d, c1)
          else match body_run os c1 with None => None | Some (d2, c2) => Some (d ++ d2, c2) end
      end
  end.

Lemma body_do_spec o c : readable c ->
  exists k d c1, body_do o c = Some (k, d, c1) /\ (read_outcome c k d c1 \/ k = (-1)%Z /\ d = [] /\ c1 = c).
Proof.
  intros Hr. destruct o as [n|n]; cbn [body_do].
  - destruct (read_until_spec c n Hr) as (k & d & c1 & E & Hout & _). eauto 6.
  - destruct (Headers.chunked (req c)) eqn:Hch.
    + destruct (next_chunk_spec c n Hr Hch) as (k & d & c1 & E & Hout & _). eauto 6.
    + exists (-1)%Z, [], c. split; [|by right]. unfold ioxd_body_read_next_chunk. by rewrite Hch, orb_true_r.
Qed.

Lemma body_run_spec os c : readable c ->
  exists D c', body_run os c = Some (D, c') /\ sticky c c' /\ (body_err c' = 0%Z -> stepped c D [] c').
Proof.
  revert c. induction os as [|o os IH]; intros c Hr; cbn [body_run].
  { exists [], c. split; [done|]. split; [by apply sticky_of|]. intros He. apply stepped_refl. by apply Hr. }
  destruct (body_do_spec o c Hr) as (k & d & c1 & -> & [[Hs Hk]|(-> & -> & ->)]).
  2: { exists [], c. split; [done|]. split; [by apply sticky_of|]. intros He. apply stepped_refl. by apply Hr. }
  destruct (k <? 0)%Z; [by exists d, c1|]. destruct Hk as [-> Hst].
  destruct (IH c1) as (D & c2 & -> & Hs2 & Hst2); [by eapply readable_step|].
  exists (d ++ D), c2. split; [done|]. split; [by eapply sticky_trans|]. intros He2. apply (stepped_trans _ _ [] c1 _ []); [|auto].
  apply Hst. apply (sticky_zero _ _ Hs2); [by apply Hs, Hr|done].
Qed.

(** ** The whole body in place *)

Lemma keep_ate c n kept pr k : reading c -> 0 < n <= length (live_bytes (inp c) (kern c)) ->
  ioxd__pipereader_keep (inp c) (kern c) n = (kept, pr, k) ->
  match kept with
  | Some s => ate c (take n (live_bytes (inp c) (kern c))) (take n (live_bytes (inp c) (kern c))) (set_in c pr k) /\
      at_span pr k s = take n (live_bytes (inp c) (kern c))
  | None => True
  end.
Proof.
  intros [Hok He] Hn Hk. destruct kept as [s|]; [|done]. apply keep_spec in Hk as ([[_ Hs]|?] & K1 & K2 & _ & _ & _ & _ & K3 & K4 & K5); [|lia|done].
  split; [|done]. split; [split; cbn; [done|congruence]|done| |cbn; by rewrite K3]. unfold stream. cbn. by rewrite K2, K4, app_assoc, take_drop.
Qed.

Lemma chunk_header_shorter c c' : reading c -> chunk_header c = (true, c') -> length (stream c') < length (stream c).
Proof.
  intros Hr Hh. apply chunk_header_spec in Hh; [|done]. destruct Hh as (line & size & c1 & _ & _ & [(_ & (t & _ & Ha) & ->)|(_ & Ha & ->)]);
    rewrite (at_stream _ _ _ _ Ha), !length_app; change (length CRLF) with 2; unfold stream; cbn; lia.
Qed.

(** The loop over the chunks returns, with the body at the end of the run. *)
Lemma body_all_chunked_spec fuel c : body_ok c -> body_err c = 0%Z -> Headers.chunked (req c) = true -> length (stream c) < fuel ->
  exists b c', body_all_chunked fuel c = Some (b, c') /\
    if b then body_done c' = true /\ exists D, stepped c D D c' else body_err c' <> 0%Z.
Proof.
  revert c. induction fuel as [|fuel IH]; intros c Hok He Hch Hf; [lia|]. cbn [body_all_chunked].
  destruct (body_done c) eqn:Hd.
  { exists true, c. split; [done|]. split; [done|]. exists []. by apply stepped_refl. }
  assert (Hgo : forall d c1, stepped c d d c1 -> length (stream c1) < length (stream c) -> exists b c', body_all_chunked fuel c1 = Some (b, c') /\
    if b then body_done c' = true /\ exists D, stepped c D D c' else body_err c' <> 0%Z).
  { intros d c1 Hst Hlen. destruct (IH c1) as (b & c2 & -> & Hres); [apply Hst|by rewrite (st_err _ _ _ _ Hst)|by rewrite (st_req _ _ _ _ Hst)|lia|].
    exists b, c2. split; [done|]. destruct b; [|done]. destruct Hres as (? & D & Hst2). split; [done|]. exists (d ++ D). by eapply stepped_trans. }
  destruct (Z.eqb_spec (chunk_left c) 0) as [Hc0|Hc0].
  { destruct (chunk_header c) as [b c1] eqn:Eh. pose proof (chunk_header_step _ _ _ Hok Hd Hch Hc0 Eh) as Hst.
    destruct b; [|by exists false, c1]. apply (Hgo []); [apply Hst|]. apply chunk_header_shorter; [apply Hok|done]. }
  destruct (body_bytes c) as [[l|] c1] eqn:Eb; pose proof (body_bytes_spec _ _ _ (bo_reading _ Hok) Eb) as Hs; [|by exists false, c1].
  destruct Hs as (Ha & Hl & Hex & _). pose proof (ate_ok _ _ _ _ Hok Ha) as Hok1. destruct (moved_fields _ _ (at_moved _ _ _ _ Ha)) as (F1 & F2 & F3 & F4 & F5).
  rewrite F3. set (n := if (Z.of_nat (length l) <? chunk_left c)%Z then _ else _).
  assert (Hn : 0 < n <= length l /\ (Z.of_nat n <= chunk_left c)%Z).
  { destruct Hok. unfold n. destruct (Z.ltb_spec (Z.of_nat (length l)) (chunk_left c)); lia. } clearbody n.
  destruct (ioxd__pipereader_keep (inp c1) (kern c1) n) as [[kept pr] k] eqn:Ek. rewrite Hl in Hn.
  pose proof (keep_ate c1 n _ _ _ (bo_reading _ Hok1) ltac:(lia) Ek) as Hk. destruct kept as [s|]; [|by exists false, (body_fail (set_in c1 pr k) 413)].
  destruct Hk as [Hk _]. pose proof (ate_trans _ _ _ _ _ _ _ Ha Hk) as Hak. cbn [app] in Hak.
  assert (Hlt : length (take n (live_bytes (inp c1) (kern c1))) = n) by (rewrite length_take; lia).
  destruct (chunk_advance c _ _ _ Hok Hd Hch ltac:(intros Hx; rewrite Hx in Hlt; cbn in Hlt; lia) ltac:(lia) Hak) as (Hcl & He2 & Hmore & Hend). rewrite Hlt in *.
  fold (advanced (set_in c1 pr k) n).
  destruct (Z.eqb_spec (chunk_left (advanced (set_in c1 pr k) n)) 0) as [Hz|Hz].
  - specialize (Hend Hz). destruct (chunk_end _) as [[] c2]; [|by exists false, c2]. destruct Hend as (Hst & _ & Hlen). by eapply Hgo.
  - eapply Hgo; [by apply Hmore|]. rewrite (at_stream _ _ _ _ Hak), length_app, Hlt. change (stream (advanced (set_in c1 pr k) n)) with (stream (set_in c1 pr k)). lia.
Qed.

(** The loop for a body of known length: it waits until the bytes are live. *)
Definition waiting c (live : bytes) (fuel : nat) : Prop :=
  live = [] /\ items_left (kern c) < fuel \/
  live = live_bytes (inp c) (kern c) /\ 0 < length live /\ items_left (kern c) <= fuel.

Lemma waiting_round c live fuel l c2 : reading c -> waiting c live fuel ->
  body_bytes (if 0 <? length live then examine c (length live) else c) = (l, c2) ->
  match l with
  | Some l => ate c [] [] c2 /\ 0 < fuel /\ waiting c2 l (fuel - 1)
  | None => body_err c2 <> 0%Z
  end.
Proof.
  intros Hr Hw Hb. destruct Hw as [[-> Hi]|(-> & Hn & Hi)].
  - cbn in Hb. pose proof (body_bytes_spec _ _ _ Hr Hb) as Hs. destruct l as [l|]; [|done]. destruct Hs as (Ha & Hl & Hex & Hit & _).
    split; [done|]. split; [lia|]. right. split; [done|]. split; [lia|lia].
  - rewrite (proj2 (Nat.ltb_lt _ _) Hn) in Hb. pose proof (examine_ate c (length (live_bytes (inp c) (kern c))) Hr) as Hx.
    pose proof (body_bytes_spec _ _ _ (at_reading _ _ _ _ Hx) Hb) as Hs. destruct l as [l|]; [|done]. destruct Hs as (Ha & Hl & Hex & _ & Hit).
    specialize (Hit (le_n _)). cbn in Hit. split; [exact (ate_trans _ _ _ _ _ _ _ Hx Ha)|]. split; [lia|]. right. split; [done|]. split; [lia|lia].
Qed.

Lemma body_all_length_spec fuel c live n r c' : reading c -> waiting c live fuel -> body_all_length fuel c live n = (r, c') ->
  match r with
  | Some _ => ate c [] [] c' /\ n <= length (live_bytes (inp c') (kern c'))
  | None => body_err c' <> 0%Z
  end.
Proof.
  revert c live. induction fuel as [|fuel IH]; intros c live Hr Hw Hb; cbn [body_all_length] in Hb;
    (destruct ((0 <? n) && (length live <? n)) eqn:Eg;
      [|injection Hb as <- <-; split; [by apply ate_refl|]; apply andb_false_iff in Eg as [Eg|Eg]; apply Nat.ltb_ge in Eg; [lia|];
        destruct Hw as [[-> _]|[-> _]]; [cbn in *; lia|done]]);
    destruct (body_bytes _) as [[l|] c2] eqn:Eb; pose proof (waiting_round _ _ _ _ _ Hr Hw Eb) as Hs; try (by injection Hb as <- <-).
  - destruct Hs as (_ & ? & _). lia.
  - destruct Hs as (Ha & _ & Hw2). replace (S fuel - 1) with fuel in Hw2 by lia. apply IH in Hb; [|apply Ha|done].
    destruct r; [|done]. destruct Hb as [Hb ?]. split; [|done]. exact (ate_trans _ _ _ _ _ _ _ Ha Hb).
Qed.

Lemma keep_sticky c n r pr k : ioxd__pipereader_keep (inp c) (kern c) n = (r, pr, k) -> sticky c (set_in c pr k).
Proof.
  intros Hk [Hr He]. pose proof (keep_nonpos _ _ _ _ _ _ Hr Hk He). apply keep_spec in Hk as (_ & K1 & _); done.
Qed.

Lemma body_all_chunked_sticky fuel c b c' : body_all_chunked fuel c = Some (b, c') -> sticky c c'.
Proof.
  revert c. induction fuel as [|fuel IH]; intros c; cbn [body_all_chunked]; [done|].
  destruct (body_done c); [intros [= <- <-]; by apply sticky_of|]. destruct (_ =? 0)%Z.
  { pose proof (chunk_header_sticky c) as Hq. destruct (chunk_header c) as [[] c1]; [|by intros [= <- <-]]. intros Hr%IH. by eapply sticky_trans. }
  pose proof (body_bytes_sticky c) as Hq. destruct (body_bytes c) as [[l|] c1]; [|by intros [= <- <-]]. cbn zeta. cbn [snd] in Hq.
  destruct (ioxd__pipereader_keep _ _ _) as [[[s|] pr] k] eqn:Ek; apply keep_sticky in Ek; pose proof (sticky_trans _ _ _ Hq Ek) as H1;
    [|intros [= <- <-]; eapply sticky_trans; [exact H1|by apply sticky_of]].
  set (c2 := set_body_read _ _). assert (H2 : sticky c c2) by (eapply sticky_trans; [exact H1|by apply sticky_of]).
  destruct (_ =? 0)%Z; [|intros Hr%IH; by eapply sticky_trans].
  pose proof (chunk_end_loop_sticky 2 c2) as He. fold (chunk_end c2) in He. destruct (chunk_end c2) as [[] c3]; cbn [snd] in He.
  - intros Hr%IH. eapply sticky_trans; [exact H2|]. by eapply sticky_trans.
  - intros [= <- <-]. by eapply sticky_trans.
Qed.

Lemma body_all_length_sticky fuel c live n r c' : body_all_length fuel c live n = (r, c') -> sticky c c'.
Proof.
  revert c live. induction fuel as [|fuel IH]; intros c live; cbn [body_all_length]; (destruct (_ && _); [|intros [= <- <-]; by apply sticky_of]);
    (set (c1 := if 0 <? length live then examine c (length live) else c));
    (assert (H1 : sticky c c1) by (unfold c1; destruct (_ <? _); [apply examine_sticky|by apply sticky_of]));
    pose proof (body_bytes_sticky c1) as Hq; destruct (body_bytes c1) as [[l|] c2]; cbn [snd] in Hq.
  1,2,4: intros [= <- <-]; by eapply sticky_trans.
  intros Hr%IH. eapply sticky_trans; [|exact Hr]. by eapply sticky_trans.
Qed.

Lemma body_all_sticky fuel c r c' : ioxd_body_all fuel c = Some (r, c') -> sticky c c'.
Proof.
  assert (Hrefl : sticky c c) by by apply sticky_of.
  unfold ioxd_body_all. destruct (body_whole c); [by intros [= <- <-]|]. destruct (_ || _); [by intros [= <- <-]|].
  destruct (if negb (body_done c) then body_begin c else (true, c)) as [ok c1] eqn:E.
  assert (H1 : sticky c c1) by (destruct (negb (body_done c)); [exact (proj1 (body_begin_step _ _ _ E))|by injection E as <- <-]). clear Hrefl.
  destruct (negb ok); [by intros [= <- <-]|]. destruct (Headers.chunked (req c1)).
  { destruct (body_all_chunked fuel c1) as [[[] c2]|] eqn:E2; [| |done]; apply body_all_chunked_sticky in E2; intros [= <- <-];
      (eapply sticky_trans; [exact H1|]); [|exact E2]. eapply sticky_trans; [exact E2|by apply sticky_of]. }
  cbn zeta. destruct (_ <? _)%Z; [intros [= <- <-]; eapply sticky_trans; [exact H1|by apply sticky_of]|].
  destruct (body_all_length _ c1 [] _) as [[l|] c2] eqn:E2; apply body_all_length_sticky in E2; pose proof (sticky_trans _ _ _ H1 E2) as H2;
    [|by intros [= <- <-]].
  destruct (if (_ =? 0)%Z then _ else _) as [[kept pr] k] eqn:Ek.
  assert (Hk : sticky c2 (set_in c2 pr k)) by (destruct (_ =? 0)%Z; [injection Ek as <- <- <-; by apply sticky_of|by eapply keep_sticky]).
  pose proof (sticky_trans _ _ _ H2 Hk) as H3. destruct kept as [s|]; intros [= <- <-]; (eapply sticky_trans; [exact H3|by apply sticky_of]).
Qed.

(** What the whole-body read did before its loops. *)
Lemma body_entry c : readable c -> body_err c = 0%Z -> exists ok c1,
  (if negb (body_done c) then body_begin c else (true, c)) = (ok, c1) /\
  if ok then stepped c [] [] c1 /\ stream c1 = stream c /\ body_read c1 = body_read c /\ kern c1 = kern c else body_err c1 <> 0%Z.
Proof.
  intros Hr He. destruct (body_done c); cbn [negb].
  { exists true, c. split; [done|]. split; [|done]. apply stepped_refl. by apply Hr. }
  destruct (body_begin c) as [b c1] eqn:Eb. destruct (body_begin_step _ _ _ Eb) as [Hs Hb]. exists b, c1. split; [done|].
  destruct b; [|done]. split; [apply Hb; by apply Hr|]. unfold body_begin in Eb. destruct (_ || _); [by injection Eb as <-|].
  cbn zeta in Eb. destruct (ioxd__pipewriter_through _ _ _) as [[[] pw] w]; by simplify_eq.
Qed.

(** The whole body kept: [s] is where it is. *)
Definition whole c (s : where_) (D : bytes) c' : Prop :=
  body_done c' = true /\ body_whole c' = true /\ body c' = s /\
  (run_bytes (inp c) (kern c) = [] -> at_span (inp c') (kern c') s = D) /\ stepped c D D c'.

Lemma whole_after c c1 s D c' : stepped c [] [] c1 -> whole c1 s D c' -> whole c s D c'.
Proof.
  intros Hst (? & ? & ? & Hs & ?). repeat (split; [done|]). split; [|by apply (stepped_trans _ [] [] c1 D D)].
  intros Hr. apply Hs. by rewrite (st_run _ _ _ _ Hst), Hr.
Qed.

Lemma whole_chunked c c' D : body_done c' = true -> stepped c D D c' ->
  whole c (ioxd__pipereader_run (inp c')) D (set_body_whole (set_body_slice c' (ioxd__pipereader_run (inp c')))).
Proof.
  intros Hd Hst. unfold whole. cbn [body_done body_whole body set_body_whole set_body_slice set_body inp kern]. repeat (split; [done|]). split.
  - intros Hrun. pose proof (st_run _ _ _ _ Hst) as Hr. rewrite Hrun in Hr. cbn [app] in Hr. rewrite <- Hr. unfold run_bytes.
    destruct (Nat.ltb_spec 0 (run_len (inp c'))); [done|]. unfold ioxd__pipereader_run. assert (run_len (inp c') = 0) as -> by lia. by destruct (run_in_cur _).
  - destruct Hst as [[[] ? ?] ? ? ? Hl]. split; try done. intros data rest Hx. apply Hl. by eapply left_of in Hx.
Qed.

Lemma whole_length c c1 D s n : body_ok c -> body_err c = 0%Z -> Headers.chunked (req c) = false -> body_read c = 0%Z ->
  n = req_content_length (req c) -> Z.of_nat (length D) = n -> ate c D D c1 -> at_span (inp c1) (kern c1) s = D ->
  whole c s D (set_body c1 s n true true (body_err c1) (chunk_left c1)).
Proof.
  intros [O1 O2 O3] He Hch Hbr -> Hn [A1 A2 A3 A4] Hs. destruct (moved_fields _ _ A2) as (F1 & F2 & F3 & F4 & F5).
  destruct (O3 Hch) as (O4 & O5 & O6).
  do 3 (split; [done|]). split; [intros _; exact Hs|]. split; [|done|done|done|].
  - split; [by eapply reading_of|cbn; by rewrite F3|cbn; rewrite F1; intros _; split_and!; try lia; done].
  - intros data rest Hl. inversion Hl as [? E1 E2|? ? Hd'|? ? Hd'|? ? ? ? Hd']; try done. rewrite app_nil_r. clear Hs.
    destruct (body_done c) eqn:Hd.
    + pose proof (proj1 O6 eq_refl). destruct D; [|cbn in Hn; lia]. change (left c [] (stream c1)). rewrite app_nil_l in A3. rewrite <- A3. by apply lf_done.
    + apply lf_length; try done. lia.
Qed.

(** [ioxd_body_all] returns: the slice it gives holds what was left of the body, or it failed. *)
Lemma body_all_spec fuel c : readable c -> body_err c = 0%Z -> body_whole c = false -> body_read c = 0%Z ->
  length (stream c) < fuel ->
  exists r c', ioxd_body_all fuel c = Some (r, c') /\
    match r with Some s => exists D, whole c s D c' | None => body_err c' <> 0%Z end.
Proof.
  intros Hr He Hw Hbr Hf. unfold ioxd_body_all. rewrite Hw, Hbr, He. cbn [Z.eqb negb orb].
  destruct (body_entry c Hr He) as ([] & c1 & -> & Hb); cbn [negb]; [|by exists None, c1]. destruct Hb as (Hst & Hs1 & Hb1 & Hk1).
  pose proof (st_ok _ _ _ _ Hst) as Hok1.
  assert (He1 : body_err c1 = 0%Z) by (rewrite (st_err _ _ _ _ Hst); done).
  destruct (Headers.chunked (req c1)) eqn:Hch.
  - destruct (body_all_chunked_spec fuel c1) as (b & c2 & -> & Hres); [done|done|done|by rewrite Hs1|].
    destruct b; [|by exists None, c2]. destruct Hres as (Hd2 & D & Hst2). eexists _, _. split; [done|]. exists D.
    apply (whole_after _ c1); [done|]. by apply whole_chunked.
  - destruct (bo_length _ Hok1 Hch) as (Hl1 & Hl2 & _). set (n := req_content_length (req c1)) in *.
    destruct (Z.of_nat (cap (inp c1)) <? n)%Z; [by exists None, (body_fail c1 413)|].
    destruct (body_all_length (S (items_left (kern c1))) c1 [] (Z.to_nat n)) as [r c2] eqn:El.
    apply body_all_length_spec in El; [|apply Hok1|left; split; [done|lia]]. destruct r as [l|]; [|by exists None, c2]. destruct El as [Ha Hlen].
    destruct (Z.eqb_spec n 0) as [Hn|Hn].
    + eexists _, _. split; [done|]. exists []. apply (whole_after _ c1); [done|]. apply whole_length; try done; [congruence|by destruct c2; destruct Ha].
    + destruct (ioxd__pipereader_keep (inp c2) (kern c2) (Z.to_nat n)) as [[kept pr] k] eqn:Ek.
      pose proof (keep_ate c2 (Z.to_nat n) _ _ _ (at_reading _ _ _ _ Ha) ltac:(lia) Ek) as Hk.
      destruct kept as [s|]; [|by exists None, (body_fail (set_in c2 pr k) 413)]. destruct Hk as [Hk Hs].
      eexists _, _. split; [done|]. exists (take (Z.to_nat n) (live_bytes (inp c2) (kern c2))). apply (whole_after _ c1); [done|].
      apply whole_length; try done; [congruence|rewrite length_take; lia|]. exact (ate_trans _ _ _ _ _ _ _ Ha Hk).
Qed.

(** ** Draining *)

Lemma closing_step c : body_ok c -> stepped c [] [] (set_res c (set_close (res c) true)).
Proof.
  intros Hok. pose proof (stepped_refl c Hok) as [[[] ? ?] ? ? ? Hl]. split; try done. intros data rest Hx. apply Hl. by eapply left_of in Hx.
Qed.

Definition drained_ok c c' : Prop :=
  sticky c c' /\ (body_err c' = 0%Z -> exists d, stepped c d [] c' /\ (body_done c' = true \/ close (res c') = true)).

Lemma drain_loop_spec fuel c drained : readable c -> (0 <= drained <= IOXD_DRAIN_MAX + 4096)%Z ->
  (IOXD_DRAIN_MAX - drained < Z.of_nat fuel)%Z -> 0 < fuel ->
  exists c', drain_loop fuel c drained = Some c' /\ drained_ok c c'.
Proof.
  assert (Hm : (IOXD_DRAIN_MAX + 8192 < 2 ^ 64)%Z) by reflexivity.
  revert c drained. induction fuel as [|fuel IH]; intros c drained Hr Hrange Hf Hf0; [lia|]. cbn [drain_loop].
  destruct (Z.eqb_spec (body_err c) 0) as [He|He]; [|rewrite andb_false_r; exists c; split; [done|split; [by apply sticky_of|done]]].
  rewrite andb_true_r. assert (Hst0 : stepped c [] [] c) by (apply stepped_refl; by apply Hr). destruct (body_done c) eqn:Hd; cbn [negb].
  { exists c. split; [done|]. split; [by apply sticky_of|]. intros _. exists []. split; [done|by left]. }
  destruct (Z.leb_spec IOXD_DRAIN_MAX drained) as [Hle|Hlt].
  { eexists. split; [done|]. split; [by apply sticky_of|]. intros _. exists []. split; [by apply closing_step, Hr|by right]. }
  destruct (read_until_spec c drain_buffer Hr) as (k & d & c1 & -> & [Hs Hk] & Hend & Hlen).
  assert (Hb : (Z.of_nat drain_buffer = 4096)%Z) by reflexivity.
  destruct (Z.leb_spec k 0) as [Hk0|Hk0].
  { exists c1. split; [done|]. split; [done|]. intros He1. destruct (Z.ltb_spec k 0); [done|]. assert (k = 0%Z) as -> by lia.
    destruct Hk as [_ Hst]. exists d. split; [auto|]. destruct Hend as [?|Hx]; [done|by left|]. rewrite Hb in Hx. discriminate Hx. }
  destruct (Z.ltb_spec k 0); [lia|]. destruct Hk as [Hkd Hst]. rewrite wrap64_id by lia.
  destruct (IH c1 (drained + k)%Z) as (c2 & -> & Hs2 & Hres); [by eapply readable_step|lia..|].
  exists c2. split; [done|]. split; [by eapply sticky_trans|]. intros He2. destruct (Hres He2) as (d2 & Hst2 & Hx).
  exists (d ++ d2). split; [|done]. apply (stepped_trans _ _ [] c1 _ []); [|done]. apply Hst. apply (sticky_zero _ _ Hs2); [by apply Hs, Hr|done].
Qed.
End Reading.

(** ** The properties *)

Section Properties.
Context {W : Type} `{Sender W} `{Hooks}.

(** The body as it stands right after the head. *)
Record unread (c : ctx W) : Prop := {
  fr_readable : readable c;
  fr_err : body_err c = 0%Z;
  fr_done : body_done c = false;
  fr_left : chunk_left c = 0%Z;
  fr_read : body_read c = 0%Z
}.

(** The body's text [t], its data [D] and what follows it. *)
Definition body_text (c : ctx W) (D rest : bytes) : Prop :=
  if Headers.chunked (req c) then chunked_coding (stream c) D rest
  else stream c = D ++ rest /\ Z.of_nat (length D) = req_content_length (req c).

Lemma unread_left (c : ctx W) D rest : unread c -> left c D rest -> body_text c D rest.
Proof.
  intros [_ _ Hd Hc Hb] Hl. unfold body_text. inversion Hl as [Hd'|? ? _ -> Hs Hn|? ? _ -> _ Hcc|d ? ? ? _ _ Hne Hn]; subst; try done; [congruence|split; [done|lia]|].
  rewrite Hc in Hn. destruct d; [done|cbn in Hn; lia].
Qed.

(** C3. Reading a body: any sequence of [ioxd_body_read_until] and [ioxd_body_read_next_chunk] on an unread
body returns; and when it reached the end of the body without an error, the bytes it stored are exactly the
body's data and the reader stands at the first byte after the body - for a chunked body as the grammar has
it, for one of known length after that many bytes. *)
Theorem body_reads_exact (os : list body_op) (c : ctx W) : unread c ->
  exists D c', body_run os c = Some (D, c') /\ (body_err c' = 0%Z -> body_done c' = true -> body_text c D (stream c')).
Proof.
  intros Hc. destruct (body_run_spec os c (fr_readable _ Hc)) as (D & c' & E & Hs & Hst). exists D, c'. split; [done|].
  intros He Hd. apply unread_left; [done|]. rewrite <- (app_nil_r D). apply (Hst He). by apply lf_done.
Qed.

(** The whole body in place: [ioxd_body_all] returns, with a slice whose bytes are exactly the body's data
and the reader at the first byte after the body, or with an error recorded. *)
Theorem body_all_exact (fuel : nat) (c : ctx W) : unread c -> body_whole c = false -> run_bytes (inp c) (kern c) = [] -> length (stream c) < fuel ->
  exists r c', ioxd_body_all fuel c = Some (r, c') /\
    match r with
    | Some s => body_done c' = true /\ body c' = s /\ body_text c (at_span (inp c') (kern c') s) (stream c')
    | None => body_err c' <> 0%Z
    end.
Proof.
  intros Hc Hw Hrun Hf. destruct (body_all_spec fuel c) as (r & c' & E & Hr); try apply Hc; try done. exists r, c'. split; [done|].
  destruct r as [s|]; [|done]. destruct Hr as (D & Hd & _ & Hb & Hs & Hst). split; [done|]. split; [done|]. apply unread_left; [done|].
  rewrite (Hs Hrun), <- (app_nil_r D). apply (st_left _ _ _ _ Hst). by apply lf_done.
Qed.

(** Draining ends: [drain_body] returns, and then the body is done, or an error is recorded, or the
connection is to be closed; what it drained was the rest of the body and nothing more. *)
Theorem drain_body_ends (c : ctx W) : readable c ->
  exists c', drain_body c = Some c' /\
    (body_err c' <> 0%Z \/ (body_done c' = true \/ close (res c') = true) /\
     (exists d, forall data rest, left c' data rest -> left c (d ++ data) rest)).
Proof.
  intros Hr. destruct (drain_loop_spec (Z.to_nat IOXD_DRAIN_MAX + 1) c 0 Hr) as (c' & E & Hs & Hd).
  - split; [lia|]. by vm_compute.
  - rewrite Nat2Z.inj_add, Z2Nat.id by done. lia.
  - lia.
  - exists c'. split; [exact E|]. destruct (Z.eq_dec (body_err c') 0) as [He|He]; [right|by left].
    destruct (Hd He) as (d & Hst & Hx). split; [done|]. exists d. apply Hst.
Qed.
End Properties.

(** The chunked coding decides: a text is the coding of one body only, and that body ends at one place -
the boundary between a request and the next does not depend on how the bytes came or were asked for. *)
Theorem chunked_coding_unique text d1 r1 d2 r2 : chunked_coding text d1 r1 -> chunked_coding text d2 r2 -> d1 = d2 /\ r1 = r2.
Proof. apply chunked_coding_det. Qed.

Lemma last_chunk rest : chunked_coding (put_terminator ++ rest) [] rest.
Proof. apply (cc_last (lit "0") CRLF rest); [done|done|constructor]. Qed.

(** What the reply side writes the body side reads: the chunks of [frame_chunk] and the terminator, for any
nonempty pieces, are a chunked body that carries the pieces strung together, and nothing past it. *)
Theorem reply_chunks_decoded (ds : list bytes) (rest : bytes) :
  Forall (fun d => d <> [] /\ (Z.of_nat (length d) <= SIZE_MAX)%Z) ds ->
  chunked_coding (concat (map chunk_text ds) ++ put_terminator ++ rest) (concat ds) rest.
Proof.
  induction 1 as [|d ds [Hne Hlen] _ IH]; cbn [map concat app]; [apply last_chunk|].
  destruct (chunk_size_put_hex (Z.of_nat (length d))) as [Hs Hl]; [lia|]. unfold chunk_text. rewrite <- !app_assoc. by apply cc_chunk.
Qed.

(** *** On concrete bodies *)

(** A chunked request body, received in the given pieces into a slab of 64 bytes. *)
Definition piece_items (ps : list bytes) : list (Z * bytes) := imap (fun i b => (Z.of_nat i, b)) ps.
Definition pieces (ps : list bytes) : Reader.rworld :=
  {| mem := list_to_map (piece_items ps); now := [];
     later := map (fun '(i, b) => {| Bufring.ptr := 0; Bufring.len := Z.of_nat (length b); Bufring.buf_id := i |}) (piece_items ps);
     end_rc := 0; back := [] |}.

Definition request_body (chk : bool) (n : Z) (ps : list bytes) : ctx socket :=
  let c := fresh false 1 in
  let c := set_req c (set_framing (req c) [] chk n true false) in
  let c := set_in c (ioxd__pipereader_init (replicate 64 0%Z) 64) (pieces ps) in
  set_body c Nowhere 0 false false 0 0.

Definition body_shows (os : list body_op) (c : ctx socket) : option (bytes * Z * bool * bytes) :=
  match body_run (H := calm) os c with Some (D, c) => Some (D, body_err c, body_done c, stream c) | None => None end.

Definition coded_hello : list bytes := [lit "5;x=1" ++ CRLF ++ lit "he"; lit "llo" ++ CRLF ++ lit "1" ++ CRLF; lit "!" ++ CRLF ++ lit "0" ++ CRLF ++ CRLF ++ lit "GET"].

Example body_chunks : body_shows [NextChunk 64; ReadUntil 7] (request_body true 0 coded_hello) = Some (lit "hello!", 0%Z, true, lit "GET").
Proof. vm_compute. reflexivity. Qed.
Example body_fixed : body_shows [ReadUntil 7; ReadUntil 7] (request_body false 9 [lit "hello w"; lit "orldGET"]) = Some (lit "hello wor", 0%Z, true, lit "ldGET").
Proof. vm_compute. reflexivity. Qed.

(** Bytes past a bad chunk end are taken for the next size line: after a chunk that is not followed by
CRLF, one call of [ioxd_body_read_until] with room left goes on, hands out the data of what it then parses as
chunks and reports the body complete; only the recorded error, which the call does not return, tells. *)
Theorem bad_chunk_end_read_past :
  match ioxd_body_read_until (H := calm) (request_body true 0 [lit "3" ++ CRLF ++ lit "abc5" ++ CRLF ++ lit "hello" ++ CRLF ++ lit "0" ++ CRLF ++ CRLF]) 64 with
  | Some (k, d, c) => k = 8%Z /\ d = lit "abchello" /\ body_done c = true /\ body_err c = 400%Z
  | None => False
  end.
Proof. vm_compute. split_and!; reflexivity. Qed.

Lemma hello_unread : unread (request_body true 0 coded_hello).
Proof.
  split; [|reflexivity..]. split.
  - split; [|reflexivity || (cbn; lia)]. apply (reader_ok_init (replicate 64 0%Z)). split; [|  |reflexivity].
    + cbn. repeat constructor; set_solver.
    + intros i Hi. cbn in Hi. repeat (apply elem_of_cons in Hi as [->|Hi]); [vm_compute; lia..|set_solver].
  - intros _. split; [split; [|reflexivity]|cbn; lia|discriminate].
    apply (reader_ok_init (replicate 64 0%Z)). split; [|  |reflexivity].
    + cbn. repeat constructor; set_solver.
    + intros i Hi. cbn in Hi. repeat (apply elem_of_cons in Hi as [->|Hi]); [vm_compute; lia..|set_solver].
Qed.

Lemma body_reads_exact_witness :
  exists D c', body_run (H := calm) [NextChunk 64; ReadUntil 7] (request_body true 0 coded_hello) = Some (D, c') /\
    (body_err c' = 0%Z -> body_done c' = true -> body_text (request_body true 0 coded_hello) D (stream c')).
Proof. exact (body_reads_exact (H := calm) [NextChunk 64; ReadUntil 7] _ hello_unread). Defined.

Lemma body_all_exact_witness :
  exists r c', ioxd_body_all (H := calm) 99 (request_body true 0 coded_hello) = Some (r, c') /\
    match r with Some s => at_span (inp c') (kern c') s = lit "hello!" | None => False end.
Proof.
  destruct (body_all_exact (H := calm) 99 (request_body true 0 coded_hello) hello_unread eq_refl eq_refl ltac:(vm_compute; lia)) as (r & c' & E & Hr).
  exists r, c'. split; [exact E|].
  assert (Hx : match ioxd_body_all (H := calm) 99 (request_body true 0 coded_hello) with
               | Some (Some s, c') => at_span (inp c') (kern c') s = lit "hello!" | _ => False end) by (vm_compute; reflexivity).
  rewrite E in Hx. exact Hx.
Defined.

Lemma drain_body_ends_witness : exists c', drain_body (H := calm) (request_body true 0 coded_hello) = Some c' /\
  (body_err c' <> 0%Z \/ (body_done c' = true \/ close (res c') = true) /\
     (exists d, forall data rest, left c' data rest -> left (request_body true 0 coded_hello) (d ++ data) rest)).
Proof. exact (drain_body_ends (H := calm) _ (fr_readable _ hello_unread)). Defined.

Lemma chunked_coding_unique_witness : [] = @nil Z /\ lit "GET" = lit "GET".
Proof. exact (chunked_coding_unique _ _ _ _ _ (last_chunk (lit "GET")) (last_chunk (lit "GET"))). Defined.

Lemma reply_chunks_decoded_witness :
  chunked_coding (concat (map chunk_text [lit "hello"; lit "!"]) ++ put_terminator ++ lit "GET") (lit "hello!") (lit "GET").
Proof. apply (reply_chunks_decoded [lit "hello"; lit "!"] (lit "GET")). repeat constructor; vm_compute; discriminate. Defined.
