(* ===== verification/Engine.v ===== *)
(** The engine's loop of lib/http/engine.c: the head read in front of a request, the request it becomes,
    the handler run on it, what is left of the body drained, the end of the reply, and the next request
    on the same connection. The parser of the head is code outside the repository; a handler is a program
    over the operations the library gives it. *)
From S2P Require Import Prelude Slices Writer Headers Response Context Reply.
From S2P Require Import Reader Body.

#[local] Arguments Nat.ltb : simpl never.
#[local] Arguments Nat.leb : simpl never.
#[local] Arguments lit : simpl never.

(** [phr_parse_request] (picohttpparser): the live bytes and how many of them were seen before, to the
length of the head, -1 for a bad one or -2 for one that is not complete, and the fields of the head. *)
Record parsed_head := { p_method : bytes; p_target : bytes; p_minor : Z; p_headers : list header }.

Class Parser := { phr_parse_request : bytes -> nat -> Z * parsed_head }.

(** What a handler does, one call at a time, each continuing on the result the call gave it. *)
Inductive prog :=
| PDone
| PReply (o : reply_op) (k : bool -> prog)
| PBody (o : body_op) (k : Z -> bytes -> prog)
| PAll (k : option bytes -> prog).

Section Engine.
Context {W : Type} `{Sender W} `{Hooks} `{Parser}.
Implicit Types (c : ctx W).

(** *** The head *)

(** The parser stores the fields through the request. *)
Definition set_parsed (r : ioxd_request) (p : parsed_head) : ioxd_request :=
  {| Headers.method := p_method p; target := p_target p; path := path r; query := query r; minor_version := p_minor p;
     Headers.headers := p_headers p; params := params r; params_arena := params_arena r; route_params := route_params r;
     req_content_length := req_content_length r; Headers.chunked := Headers.chunked r; req_keep_alive := req_keep_alive r;
     req_expect_continue := req_expect_continue r; route_arena := route_arena r |}.

Definition refuse_with c (code : Z) : ctx W := let '(pw, w) := send_status (out c) code (net c) in set_out c pw (coded c) w.

(** Every round but the last takes an item. *)
Fixpoint read_head_loop (fuel : nat) c (already : nat) : option Z * ctx W :=
  let '(rc, live, pr, k) := ioxd__pipereader_read (inp c) (kern c) in
  let c := set_in c pr k in
  if (rc =? 0)%Z then (None, c)
  else if (rc =? IOXD_PIPE_FULL)%Z then (None, refuse_with c 431)
  else if (rc <? 0)%Z then (None, c)
  else
    let '(parsed, p) := phr_parse_request (at_span pr k live) already in
    let c := set_req c (set_parsed (req c) p) in
    if (0 <=? parsed)%Z then
      let '(kept, pr, k) := ioxd__pipereader_keep (inp c) (kern c) (Z.to_nat parsed) in
      let c := set_in c pr k in
      match kept with
      | None => (None, refuse_with c 431)
      | Some _ => let '(pr, k) := ioxd__pipereader_run_begin (inp c) (kern c) in (Some parsed, set_in c pr k)
      end
    else if (parsed =? -1)%Z then (None, refuse_with c 400)
    else
      let c := set_in c (ioxd__pipereader_examine (inp c) (wlen live)) (kern c) in
      match fuel with
      | 0 => (None, c)
      | S fuel' => read_head_loop fuel' c (wlen live)
      end.
Definition read_head c : option Z * ctx W := read_head_loop (S (items_left (kern c))) c 0.

(** *** One request *)

(** [struct serve_state state = { .pipe = pipe }]. *)
Definition blank_state c : ctx W :=
  set_flags (set_body c Nowhere 0 false false 0 0) false false false None None.
Definition init_body_state c : ctx W :=
  let c := blank_state c in
  set_body c Nowhere 0 (negb (Headers.chunked (req c)) && (req_content_length (req c) =? 0)%Z) false 0 0.

Definition CODED_SLACK : nat := Z.to_nat 256.
Definition IOXD_PIPE_LEAD : nat := Z.to_nat 512.
Definition IOXD_PIPE_CAP : nat := Z.to_nat 16384.
Definition IOXD_PIPE_SLACK : nat := 8.

(** [init_response] also empties the slab. *)
Definition begin_response c : ctx W :=
  set_res (set_out c (ioxd__pipewriter_reset (out c)) (coded c) (net c)) (init_response (Response.head (res c))).

Definition is_head (r : ioxd_request) : bool := beq (Headers.method r) (lit "HEAD").
Definition set_head_only c : ctx W := set_flags c (is_head (req c)) (no_body c) (continue_sent c) (on_head c) (filter c).

(** The filter's [end] lets go of what the coder holds. *)
Definition filter_end c : ctx W := set_hooks c (on_head c) None.

(** After the handler: whether the connection goes on. *)
Definition after_dispatch (fuel : nat) c : option (bool * ctx W) :=
  if negb (body_err c =? 0)%Z then
    Some (false, if (0 <? body_err c)%Z && negb (head_sent (res c)) then refuse_with c (body_err c) else c)
  else
    match (if req_expect_continue (req c) && negb (continue_sent c) && negb (body_done c)
           then Some (set_res c (set_close (res c) true)) else drain_body c) with
    | None => None
    | Some c =>
        if negb (body_err c =? 0)%Z then Some (false, c)
        else
          match finish fuel c with
          | None => None
          | Some (false, c) => Some (false, c)
          | Some (true, c) => Some (req_keep_alive (req c) && negb (close (res c)), c)
          end
    end.

(** *** The handler *)

(** The program run: each call does what the library's function does. *)
Fixpoint run_prog (fuel : nat) (p : prog) c : option (ctx W) :=
  match p with
  | PDone => Some c
  | PReply o k => match reply_do fuel o c with None => None | Some (ok, c) => run_prog fuel (k ok) c end
  | PBody o k => match body_do o c with None => None | Some (rc, d, c) => run_prog fuel (k rc d) c end
  | PAll k =>
      match ioxd_body_all (S (length (stream c))) c with
      | None => None
      | Some (s, c) => run_prog fuel (k (match s with Some s => Some (at_span (inp c) (kern c) s) | None => None end)) c
      end
  end.

(** The state a request starts with once its head is in, and the answer [fill_request] gives. *)
Definition begin_request (arena coded_buf : bytes) c : option (Z * ctx W) :=
  match fill_request (req c) arena with
  | None => None
  | Some (refused, r) =>
      let c := init_body_state (set_req c r) in
      let c := set_out c (out c) (ioxd__pipewriter_init coded_buf IOXD_PIPE_LEAD (IOXD_PIPE_CAP + CODED_SLACK) IOXD_PIPE_SLACK) (net c) in
      Some (refused, begin_response c)
  end.

(** One round of the loop of [ioxd__engine_serve]: whether it goes on, and the request it served. *)
Definition serve_one (fuel : nat) (arena coded_buf : bytes) (dispatch : ioxd_request -> prog) c : option (bool * option ioxd_request * ctx W) :=
  match read_head (blank_state c) with
  | (None, c) => Some (false, None, c)
  | (Some _, c) =>
      match begin_request arena coded_buf c with
      | None => None
      | Some (refused, c) =>
          if negb (refused =? 0)%Z then Some (false, None, refuse_with c refused)
          else
            let c := set_head_only c in
            let r := req c in
            match run_prog fuel (dispatch r) c with
            | None => None
            | Some c =>
                match after_dispatch fuel c with
                | None => None
                | Some (go, c) =>
                    let c := filter_end c in
                    if negb go then Some (false, Some r, c)
                    else let '(pr, k) := ioxd__pipereader_release (inp c) (kern c) in Some (true, Some r, set_in c pr k)
                end
            end
      end
  end.

(** [ioxd__engine_serve]: the requests served, in order, each with the state it left. *)
Fixpoint ioxd__engine_serve (rounds fuel : nat) (arena coded_buf : bytes) (dispatch : ioxd_request -> prog) c : option (list (ioxd_request * ctx W) * ctx W) :=
  match rounds with
  | 0 => None
  | S rounds =>
      match serve_one fuel arena coded_buf dispatch c with
      | None => None
      | Some (go, r, c) =>
          let rs := match r with Some r => [(r, c)] | None => [] end in
          if go then match ioxd__engine_serve rounds fuel arena coded_buf dispatch c with Some (rs', c) => Some (rs ++ rs', c) | None => None end
          else Some (rs, c)
      end
  end.
End Engine.

(** ** What the reply side leaves alone *)

Section Input.
Context {W : Type} `{Sender W} `{Hooks}.
Implicit Types (c : ctx W).

(** The request, the reader and the state of the body. *)
Definition input c :=
  (req c, inp c, kern c, (body c, body_read c, body_done c, body_whole c, body_err c, chunk_left c), continue_sent c).

Ltac inv_pair :=
  repeat match goal with
  | H : Some _ = Some _ |- _ => injection H; clear H; intros
  | H : (_, _) = (_, _) |- _ => injection H; clear H; intros
  end; subst; try discriminate.
Ltac split_result Hr :=
  repeat match type of Hr with
  | context [match ?x with _ => _ end] => lazymatch x with context [match _ with _ => _ end] => fail | _ => destruct x eqn:? end
  end.

Lemma send_coded_input c h ok h' c' : send_coded c h = (ok, h', c') -> input c' = input c.
Proof. unfold send_coded. intros Hr. split_result Hr; by inv_pair. Qed.

Lemma encode_loop_input fuel c f op i h r h' c' : encode_loop fuel c f op i h = Some (r, h', c') -> input c' = input c.
Proof.
  revert c f i h. induction fuel as [|fuel IH]; intros c f i h Hr; cbn [encode_loop] in Hr; [done|].
  destruct (filter_run f i _ op) as [[[rc n] o] f']. destruct (_ || _); [by inv_pair|]. destruct (_ && _); [by inv_pair|].
  destruct (_ =? 0); [|destruct (_ && _); [by inv_pair|by apply IH in Hr]]. destruct h as [h|]; [|by inv_pair].
  destruct (send_coded _ h) as [[[] h2] c2] eqn:Es; apply send_coded_input in Es; [apply IH in Hr; exact (eq_trans Hr Es)|inv_pair; exact Es].
Qed.

Lemma encode_input fuel c op h r h' c' : encode fuel c op h = Some (r, h', c') -> input c' = input c.
Proof.
  unfold encode. destruct (filter c); [|by intros; inv_pair]. destruct (encode_loop _ _ _ _ _ _) as [[[[] h2] c2]|] eqn:E; [| |done];
    apply encode_loop_input in E; intros Hr; inv_pair; exact E.
Qed.

Lemma run_delegate_input c final : input (run_delegate c final) = input c.
Proof. unfold run_delegate. destruct (on_head c); [|done]. destruct (_ && _); [|done]. by destruct (head_call _ _ _ _ _). Qed.

Lemma decide_framing_input c coding final f n c' : decide_framing c coding final = (f, n, c') -> input c' = input c.
Proof. unfold decide_framing. intros Hr. split_result Hr; by inv_pair. Qed.

Lemma close_if_unread_input c : input (close_if_unread c) = input c.
Proof. unfold close_if_unread. destruct (_ && _); [|done]. by destruct (_ || _). Qed.

Lemma settle_head_input c coding final ok h c' : settle_head c coding final = (ok, h, c') -> input c' = input c.
Proof.
  unfold settle_head. destruct (head_sent _); [by intros; inv_pair|]. destruct (decide_framing c coding final) as [[f n] c1] eqn:E.
  apply decide_framing_input in E. pose proof (close_if_unread_input c1) as Hc. destruct (build_head _ _ _ _ _ _).
  - intros; inv_pair. etrans; [|exact E]. etrans; [|exact Hc]. done.
  - destruct (send_status _ _ _). intros; inv_pair. etrans; [|exact E]. etrans; [|exact Hc]. done.
Qed.

Lemma clamp_input c coding extra o e c' : clamp c coding extra = (o, e, c') -> input c' = input c.
Proof. unfold clamp. destruct (has_length _); intros; inv_pair; [|done]. unfold set_sw. by destruct coding. Qed.

Lemma set_sw_input c coding pw w : input (set_sw coding c pw w) = input c.
Proof. by destruct coding. Qed.

Lemma send_framed_input c coding final h extra ok c' : send_framed c coding final h extra = (ok, c') -> input c' = input c.
Proof. unfold send_framed. intros Hr. split_result Hr; inv_pair; try done; by destruct coding. Qed.

Lemma flush_body_input fuel c kind coding whole h extra ok c' : flush_body fuel c kind coding whole h extra = Some (ok, c') -> input c' = input c.
Proof.
  unfold flush_body. destruct (no_body c).
  { intros Hr. split_result Hr; by inv_pair. }
  destruct (if coding && negb whole then _ else _) as [[[ok1 h1] c1]|] eqn:E; [|done].
  assert (H1 : input c1 = input c).
  { destruct (coding && negb whole); [by apply encode_input in E|by inv_pair]. }
  destruct ok1; [|by intros; inv_pair]. destruct (clamp c1 coding extra) as [[over e] c2] eqn:Ec. apply clamp_input in Ec. cbn zeta.
  destruct (send_framed _ _ _ _ _) as [[] c3] eqn:Es; apply send_framed_input in Es; intros Hr;
    assert (Hc3 : input c3 = input c) by (etrans; [exact Es|]; etrans; [|exact H1]; etrans; [|exact Ec]; done).
  - destruct over; by inv_pair.
  - by inv_pair.
Qed.

Lemma flush_with_input fuel c kind extra ok c' : flush_with fuel c kind extra = Some (ok, c') -> input c' = input c.
Proof.
  unfold flush_with. destruct (failed _); [by intros; inv_pair|]. cbn zeta. rewrite <- (run_delegate_input c (is_final kind)).
  generalize (run_delegate c (is_final kind)). clear c. intros c. set (c1 := if _ && _ && _ then _ else c).
  assert (H1 : input c1 = input c) by (unfold c1; by destruct (_ && _ && _)). rewrite <- H1. clearbody c1.
  match goal with |- match ?m with _ => _ end = _ -> _ => destruct m as [[[ok1 h1] c2]|] eqn:E end; [|done].
  assert (H2 : input c2 = input c1).
  { match type of E with (if ?b then _ else _) = _ => destruct b end; [by apply encode_input in E|by inv_pair]. }
  destruct ok1; [|by intros; inv_pair]. destruct (settle_head _ _ _) as [[[] h3] c3] eqn:Es; apply settle_head_input in Es.
  - intros Hr%flush_body_input. congruence.
  - intros; inv_pair. congruence.
Qed.

Lemma write_loop_input fuel efuel c src ok c' : write_loop fuel efuel c src = Some (ok, c') -> input c' = input c.
Proof.
  revert c src. induction fuel as [|fuel IH]; intros c src Hr; cbn [write_loop] in Hr; (destruct (length src =? 0); [by inv_pair|]); [done|].
  destruct (_ =? 0).
  - destruct (flush efuel c FLUSH_FULL) as [[[] c1]|] eqn:E; [| |done]; apply flush_with_input in E; [apply IH in Hr; congruence|by inv_pair].
  - apply IH in Hr. done.
Qed.

Lemma write_input efuel c d ok c' : ioxd_write efuel c d = Some (ok, c') -> input c' = input c.
Proof.
  unfold ioxd_write. destruct (failed _); [by intros; inv_pair|]. destruct (_ && _); [by intros ?%flush_with_input|by intros ?%write_loop_input].
Qed.

Lemma printf_input efuel c t heap ok c' : ioxd_printf efuel c t heap = Some (ok, c') -> input c' = input c.
Proof.
  unfold ioxd_printf. destruct (failed _); [by intros; inv_pair|]. destruct t as [t|]; [|by intros; inv_pair]. cbn zeta.
  destruct (_ <? _); [by intros; inv_pair|]. destruct (_ <=? _).
  - destruct heap; [|by intros; inv_pair]. by intros ->%write_input.
  - destruct (flush _ _ _) as [[[] c1]|] eqn:E; [| |done]; apply flush_with_input in E; intros; inv_pair; exact E.
Qed.

Lemma reply_do_input fuel o c ok c' : reply_do fuel o c = Some (ok, c') -> input c' = input c.
Proof.
  destruct o as [o|d|t heap| |n d]; cbn [reply_do].
  - by intros; inv_pair.
  - apply write_input.
  - apply printf_input.
  - apply flush_with_input.
  - unfold ioxd_reserve. destruct (_ || _); [by intros; inv_pair|]. destruct (_ <? n); [|by intros; inv_pair].
    destruct (flush _ _ _) as [[[] c1]|] eqn:E; [| |done]; apply flush_with_input in E; intros; inv_pair; exact E.
Qed.

Lemma finish_input fuel c ok c' : finish fuel c = Some (ok, c') -> input c' = input c.
Proof.
  unfold finish, finish_send. destruct (failed _); [by intros; inv_pair|]. destruct (_ || _).
  - destruct (flush _ _ _) as [[[] c1]|] eqn:E; [| |done]; apply flush_with_input in E; intros; inv_pair; [|exact E].
    unfold close_if_short. by destruct (_ && _ && _).
  - destruct (chunked _); [|intros; inv_pair; unfold close_if_short; by destruct (_ && _ && _)].
    destruct (ioxd__pipewriter_back _ _) as [[b|] pw]; [|by intros; inv_pair].
    destruct (ioxd__pipewriter_flush _ _) as [[[] pw2] w]; intros; inv_pair; [|done].
    unfold close_if_short. by destruct (_ && _ && _).
Qed.

(** ** Without a filter or a delegate every call returns *)

Record plain c (k : nat) : Prop := {
  pn_hooks : on_head c = None /\ filter c = None;
  pn_cap : Writer.cap (out c) = k
}.

Lemma pw_flush_with_cap pw d w ok pw' w' : ioxd__pipewriter_flush_with pw d w = (ok, pw', w') -> Writer.cap pw' = Writer.cap pw /\ (ok = true -> len pw' = 0).
Proof.
  unfold ioxd__pipewriter_flush_with. destruct (Writer.failed pw); [by intros; inv_pair|]. cbn zeta.
  match goal with |- context [if ?b then conn_sendv _ _ else _] => destruct (if b then conn_sendv _ _ else _) as [rc w1] end.
  destruct (rc <? 0)%Z; by intros; inv_pair.
Qed.

Lemma through_cap pw d w ok pw' w' : ioxd__pipewriter_through pw d w = (ok, pw', w') -> Writer.cap pw' = Writer.cap pw /\ len pw' = len pw.
Proof. unfold ioxd__pipewriter_through. intros Hr. split_result Hr; by inv_pair. Qed.

Lemma put_in_front_cap pw h w ok pw' w' : put_in_front pw h w = (ok, pw', w') -> Writer.cap pw' = Writer.cap pw.
Proof.
  unfold put_in_front, ioxd__pipewriter_front. destruct (_ <? _); [by intros [? _]%through_cap|]. by intros; inv_pair.
Qed.

Lemma frame_chunk_cap pw ok pw' : frame_chunk pw = (ok, pw') -> Writer.cap pw' = Writer.cap pw.
Proof. unfold frame_chunk, ioxd__pipewriter_front, ioxd__pipewriter_back. intros Hr. split_result Hr; by inv_pair. Qed.

Lemma send_cap pw d w ok pw' w' : ioxd__pipewriter_send pw d w = (ok, pw', w') -> Writer.cap pw' = Writer.cap pw.
Proof.
  unfold ioxd__pipewriter_send. destruct (ioxd__pipewriter_write pw d w) as [[ok1 pw1] w1] eqn:E.
  assert (H1 : Writer.cap pw1 = Writer.cap pw).
  { unfold ioxd__pipewriter_write in E. destruct (Writer.failed pw); [by inv_pair|]. cbn zeta in E. destruct (_ <? _).
    - destruct (ioxd__pipewriter_flush pw w) as [[ok2 pw2] w2] eqn:E2. apply pw_flush_with_cap in E2 as [E2 _].
      destruct ok2; [apply through_cap in E as [E _]; congruence|by inv_pair].
    - unfold ioxd__pipewriter_reserve in E. destruct (_ || _); [by inv_pair|]. destruct (_ <? _); [|by inv_pair].
      destruct (ioxd__pipewriter_flush pw w) as [[ok2 pw2] w2] eqn:E2. apply pw_flush_with_cap in E2 as [E2 _]. destruct ok2; by inv_pair. }
  destruct ok1; [intros [E2 _]%pw_flush_with_cap; congruence|by intros; inv_pair].
Qed.

Lemma send_framed_plain c k final h extra ok c' : plain c k -> send_framed c false final h extra = (ok, c') -> plain c' k /\ (ok = true -> len (out c') = 0).
Proof.
  intros [Hh Hc] Hr. unfold send_framed in Hr.
  destruct (if chunked (res c) && _ then _ else _) as [ok1 pw1] eqn:E1.
  assert (H1 : Writer.cap pw1 = k) by (destruct (chunked (res c) && _); [apply frame_chunk_cap in E1; cbn in *; congruence|inv_pair; done]).
  destruct ok1; cbn [negb] in Hr; [|inv_pair; by split].
  destruct (if final && _ then _ else _) as [ok2 pw2] eqn:E2.
  assert (H2 : Writer.cap pw2 = k).
  { destruct (final && _); [|by inv_pair]. unfold ioxd__pipewriter_back in E2. split_result E2; by inv_pair. }
  destruct ok2; cbn [negb] in Hr; [|inv_pair; by split].
  destruct (if 0 <? length h then _ else _) as [[ok3 pw3] w3] eqn:E3.
  assert (H3 : Writer.cap pw3 = k) by (destruct (0 <? length h); [apply put_in_front_cap in E3; congruence|inv_pair; done]).
  destruct ok3; cbn [negb] in Hr; [|inv_pair; by split].
  destruct (ioxd__pipewriter_flush_with pw3 extra w3) as [[ok4 pw4] w4] eqn:E4. apply pw_flush_with_cap in E4 as [H4 H5].
  destruct ok4; inv_pair; (split; [split; [done|cbn; congruence]|]); [intros _; by apply H5|done].
Qed.

Lemma clamp_plain c k extra o e c' : plain c k -> clamp c false extra = (o, e, c') -> plain c' k.
Proof. intros [Hh Hc]. unfold clamp. destruct (has_length _); intros; inv_pair; [|done]. split; [done|]. cbn. by destruct (_ <? _)%Z. Qed.

Lemma flush_plain fuel c k kind extra ok c' : plain c k -> flush_with fuel c kind extra = Some (ok, c') -> plain c' k /\ (ok = true -> len (out c') = 0).
Proof.
  intros Hp Hr. pose proof Hp as [[Hh Hf] Hc]. unfold flush_with in Hr. destruct (failed _); [by inv_pair|].
  unfold run_delegate, has_filter in Hr. rewrite Hh, Hf in Hr. cbn [andb] in Hr. cbn zeta in Hr.
  destruct (settle_head c false _) as [[ok1 h] c1] eqn:Es.
  assert (H1 : plain c1 k).
  { unfold settle_head in Es. destruct (head_sent _); [by inv_pair|]. destruct (decide_framing c false _) as [[f n] c2] eqn:E2.
    assert (Hp2 : plain c2 k) by (unfold decide_framing in E2; split_result E2; by inv_pair).
    assert (Hp3 : plain (close_if_unread c2) k) by (unfold close_if_unread; destruct (_ && _); [|done]; destruct (_ || _); [destruct Hp2; by split|done]).
    destruct (build_head _ _ _ _ _ _); [inv_pair; destruct Hp3; by split|]. unfold send_status in Es.
    destruct (ioxd__pipewriter_send _ _ _) as [[o3 pw3] w3] eqn:E3. inv_pair. destruct Hp3 as [? <-]. split; [done|]. cbn.
    by apply send_cap in E3. }
  destruct ok1; [|by inv_pair]. unfold flush_body in Hr. destruct (no_body c1).
  - destruct (0 <? length h); [|inv_pair; destruct H1; by split].
    destruct (ioxd__pipewriter_through _ h _) as [[[] pw] w] eqn:E; apply through_cap in E as [E1 E2]; inv_pair; destruct H1 as [? <-];
      (split; [split; [done|exact E1]|]); [intros _; exact E2|done].
  - cbn [andb] in Hr. destruct (clamp c1 false extra) as [[over e] c2] eqn:Ec. apply (clamp_plain _ k) in Ec; [|done].
    cbn zeta in Hr. destruct (send_framed _ _ _ _ _) as [ok3 c3] eqn:E3. apply (send_framed_plain _ k) in E3 as [H3 Hl3]; [|destruct Ec; by split].
    destruct ok3; [destruct over|]; inv_pair; destruct H3; (split; [by split|]); try done.
Qed.

(** Every call returns, the hooks still absent. *)
Definition plain_call c (k : nat) (r : option (bool * ctx W)) : Prop := exists ok c', r = Some (ok, c') /\ plain c' k.

Lemma flush_with_call fuel c k kind extra : plain c k -> plain_call c k (flush_with fuel c kind extra).
Proof.
  intros Hp. destruct (flush_with_total fuel c kind extra) as (ok & c' & E); [split; [|left]; apply Hp|]. exists ok, c'. split; [done|]. by eapply flush_plain.
Qed.

Lemma write_loop_call fuel efuel c k src : plain c k -> 0 < k ->
  2 * length src + (if ioxd__pipewriter_room (out c) =? 0 then 1 else 0) <= fuel -> plain_call c k (write_loop fuel efuel c src).
Proof.
  intros Hp Hk. revert c src Hp. induction fuel as [|fuel IH]; intros c src Hp Hf; cbn [write_loop];
    (destruct (Nat.eqb_spec (length src) 0) as [|Hn]; [by exists true, c|]); [lia|].
  destruct (Nat.eqb_spec (ioxd__pipewriter_room (out c)) 0) as [Hz|Hz].
  - destruct (flush_with_call efuel c k FLUSH_FULL [] Hp) as (ok & c1 & E & Hp1). unfold flush. rewrite E.
    destruct ok; [|by exists false, c1]. destruct (flush_plain _ _ _ _ _ _ _ Hp E) as [_ Hl]. specialize (Hl eq_refl).
    apply IH; [done|]. unfold ioxd__pipewriter_room. rewrite Hl, (pn_cap _ _ Hp1). destruct (Nat.eqb_spec (k - 0) 0); lia.
  - set (n := if length src <? _ then _ else _). assert (1 <= n <= length src) by (unfold n; destruct (Nat.ltb_spec (length src) (ioxd__pipewriter_room (out c))); lia).
    apply IH; [destruct Hp; by split|]. rewrite length_drop. destruct (_ =? 0); lia.
Qed.

Lemma write_call efuel c k d : plain c k -> 0 < k -> plain_call c k (ioxd_write efuel c d).
Proof.
  intros Hp Hk. unfold ioxd_write. destruct (failed _); [by exists false, c|]. destruct (_ && _); [by apply flush_with_call|].
  apply write_loop_call; [done|done|]. destruct (_ =? 0); lia.
Qed.

Lemma reply_do_call fuel o c k : plain c k -> 0 < k -> plain_call c k (reply_do fuel o c).
Proof.
  intros Hp Hk. assert (Hout : forall pw, Writer.cap pw = Writer.cap (out c) -> plain (set_out c pw (coded c) (net c)) k) by (intros pw E; destruct Hp; split; [done|cbn; congruence]).
  destruct o as [o|d|t heap| |n d]; cbn [reply_do].
  - eexists _, _. split; [done|]. destruct Hp. by split.
  - by apply write_call.
  - unfold ioxd_printf. destruct (failed _); [by exists false, c|]. destruct t as [t|]; [|by exists false, c]. cbn zeta.
    assert (Hp1 : plain (set_out c (format_at (out c) (ioxd__pipewriter_room (out c)) t) (coded c) (net c)) k).
    { apply Hout. unfold format_at. by destruct (_ =? 0). }
    destruct (_ <? _); [eexists _, _; split; [done|]; destruct Hp1; by split|]. destruct (_ <=? _).
    + destruct heap; [by apply write_call|]. eexists _, _. split; [done|]. destruct Hp1. by split.
    + destruct (flush_with_call fuel _ k FLUSH_FULL [] Hp1) as (ok & c1 & E & H1). unfold flush. rewrite E. destruct ok; [|by exists false, c1].
      eexists _, _. split; [done|]. destruct H1 as [? <-]. split; [done|]. cbn. unfold format_at. by destruct (_ =? 0).
  - by apply flush_with_call.
  - unfold ioxd_reserve. destruct (_ || _); [by eexists _, _|]. destruct (_ <? n).
    + destruct (flush_with_call fuel c k FLUSH_FULL [] Hp) as (ok & c1 & E & H1). unfold flush. rewrite E. destruct ok; [|by exists false, c1].
      eexists _, _. split; [done|]. destruct H1. by split.
    + eexists _, _. split; [done|]. destruct Hp. by split.
Qed.

Lemma finish_call fuel c k : plain c k -> plain_call c k (finish fuel c).
Proof.
  intros Hp. unfold finish. destruct (failed _); [by exists false, c|].
  assert (H1 : plain_call c k (finish_send fuel c)).
  { unfold finish_send. destruct (_ || _); [by apply flush_with_call|]. destruct (chunked _); [|by exists true, c].
    unfold ioxd__pipewriter_back. destruct (_ <? _); [eexists _, _; split; [done|]; destruct Hp; by split|].
    destruct (ioxd__pipewriter_flush _ _) as [[ok pw] w] eqn:E. apply pw_flush_with_cap in E as [E _].
    destruct ok; (eexists _, _; split; [done|]); destruct Hp; (split; [done|cbn; cbn in E; congruence]). }
  destruct H1 as (ok & c1 & -> & H1). destruct ok; [|by exists false, c1]. eexists _, _. split; [done|].
  unfold close_if_short. destruct (_ && _ && _); [destruct H1; by split|done].
Qed.
End Input.

(** ** What the body side leaves alone *)

Section Output.
Context {W : Type} `{Sender W} `{Hooks}.
Implicit Types (c : ctx W).

(** The writers, the wire, the flags and the hooks; the status is all a failed body read sets of the reply. *)
Definition output c := (out c, coded c, net c, (head_only c, no_body c, continue_sent c, on_head c, filter c), req c).

Record quiet c c' : Prop := {
  qt_output : output c' = output c;
  qt_res : exists s, res c' = set_status (res c) s;
  qt_err : body_err c <> 0%Z -> body_err c' <> 0%Z
}.

Lemma set_status_same r : set_status r (status r) = r.
Proof. by destruct r. Qed.

Lemma quiet_of c c' : output c' = output c -> res c' = res c -> (body_err c <> 0%Z -> body_err c' <> 0%Z) -> quiet c c'.
Proof. intros E1 E2 E3. split; [done| |done]. exists (status (res c)). by rewrite E2, set_status_same. Qed.

Lemma quiet_trans c1 c2 c3 : quiet c1 c2 -> quiet c2 c3 -> quiet c1 c3.
Proof. intros [A1 [s A2] A3] [B1 [t B2] B3]. split; [congruence| |auto]. exists t. by rewrite B2, A2. Qed.

Lemma quiet_fail c s : s <> 0%Z -> quiet c (body_fail c s).
Proof. intros Hs. split; [done| |done]. by exists s. Qed.

Lemma body_bytes_quiet c : quiet c (body_bytes c).2.
Proof.
  unfold body_bytes. destruct (ioxd__pipereader_read _ _) as [[[rc l] pr] k]. cbn zeta.
  destruct (_ <? _)%Z; [by apply quiet_of|]. destruct (_ =? _)%Z; [|by apply quiet_of]. eapply quiet_trans; [|by apply quiet_fail]. by apply quiet_of.
Qed.

Lemma drop_live_quiet c n : quiet c (drop_live c n).
Proof. unfold drop_live. destruct (ioxd__pipereader_drop _ _ _). by apply quiet_of. Qed.

Lemma body_line_loop_quiet fuel c : quiet c (body_line_loop fuel c).2.
Proof.
  revert c. induction fuel as [|fuel IH]; intros c; cbn [body_line_loop]; pose proof (body_bytes_quiet c) as Hb;
    destruct (body_bytes c) as [[l|] c1]; try done; destruct (find_crlf l); try done.
  eapply quiet_trans; [exact Hb|]. eapply quiet_trans; [|apply IH]. by apply quiet_of.
Qed.

Lemma chunk_trailers_loop_quiet fuel taken c : quiet c (chunk_trailers_loop fuel taken c).2.
Proof.
  revert taken c. induction fuel as [|fuel IH]; intros taken c; cbn [chunk_trailers_loop]; pose proof (body_line_loop_quiet (S (items_left (kern c))) c) as Hb;
    fold (body_line c) in Hb; destruct (body_line c) as [[[i l]|] c1]; try done; cbn zeta; (eapply quiet_trans; [exact Hb|]);
    (destruct (_ <? _); [by apply quiet_fail|]); (eapply quiet_trans; [apply (drop_live_quiet _ (i + 2))|]);
    (destruct (_ =? _); [by apply quiet_of|]).
  - by apply quiet_of.
  - apply IH.
Qed.

Lemma chunk_header_quiet c : quiet c (chunk_header c).2.
Proof.
  unfold chunk_header. pose proof (body_line_loop_quiet (S (items_left (kern c))) c) as Hb; fold (body_line c) in Hb.
  destruct (body_line c) as [[[i l]|] c1]; (eapply quiet_trans; [exact Hb|]).
  - destruct (chunk_size _); [|by apply quiet_fail]. cbn zeta. eapply quiet_trans; [apply (drop_live_quiet _ (i + 2))|].
    destruct (_ =? _)%Z; [apply chunk_trailers_loop_quiet|by apply quiet_of].
  - cbn [snd]. destruct (_ =? _)%Z; [by apply quiet_fail|by apply quiet_of].
Qed.

Lemma chunk_end_loop_quiet fuel c : quiet c (chunk_end_loop fuel c).2.
Proof.
  revert c. induction fuel as [|fuel IH]; intros c; cbn [chunk_end_loop]; pose proof (body_bytes_quiet c) as Hb;
    destruct (body_bytes c) as [[l|] c1]; try done; (eapply quiet_trans; [exact Hb|]);
    (destruct (_ <=? _); [destruct (negb _); [by apply quiet_fail|apply drop_live_quiet]|]).
  - by apply quiet_of.
  - eapply quiet_trans; [|apply IH]. by apply quiet_of.
Qed.

Lemma chunk_data_quiet c n k d c' : chunk_data c n = (k, d, c') -> quiet c c'.
Proof.
  unfold chunk_data. destruct (ioxd__pipereader_copy _ _ _) as [[[got d'] pr] w]. cbn zeta.
  destruct (_ <=? 0)%Z; [intros [= <- <- <-]; by apply quiet_of|]. destruct (_ =? 0)%Z; [|intros [= <- <- <-]; by apply quiet_of].
  match goal with |- context [chunk_end ?x] => pose proof (chunk_end_loop_quiet 2 x) as He; fold (chunk_end x) in He; destruct (chunk_end x) end.
  intros [= <- <- <-]. eapply quiet_trans; [|exact He]. by apply quiet_of.
Qed.

Lemma fixed_data_quiet c n k d c' : fixed_data c n = (k, d, c') -> quiet c c'.
Proof.
  unfold fixed_data. destruct (ioxd__pipereader_copy _ _ _) as [[[got d'] pr] w]. cbn zeta.
  destruct (_ <=? 0)%Z; intros [= <- <- <-]; [by apply quiet_of|]. by destruct (_ =? _)%Z; apply quiet_of.
Qed.

Lemma read_one_quiet c n got k d c' : read_one c n got = (k, d, c') -> quiet c c'.
Proof.
  unfold read_one. destruct (negb _); [apply fixed_data_quiet|]. destruct (_ =? _)%Z; [|apply chunk_data_quiet].
  pose proof (chunk_header_quiet c) as Hq. destruct (chunk_header c) as [ok c1]. by intros [= <- <- <-].
Qed.

Lemma read_until_loop_quiet fuel c n got k d c' : read_until_loop fuel c n got = Some (k, d, c') -> quiet c c'.
Proof.
  revert c got. induction fuel as [|fuel IH]; intros c got; cbn [read_until_loop]; [done|].
  destruct (_ && _); [|intros [= <- <- <-]; by apply quiet_of]. destruct (read_one c n got) as [[k1 d1] c1] eqn:E. apply read_one_quiet in E.
  destruct (_ <? _)%Z; [by intros [= <- <- <-]|]. intros Hr. eapply quiet_trans; [exact E|by eapply IH].
Qed.

Lemma next_chunk_loop_quiet fuel c want got k d c' : next_chunk_loop fuel c want got = Some (k, d, c') -> quiet c c'.
Proof.
  revert c got. induction fuel as [|fuel IH]; intros c got; cbn [next_chunk_loop]; (destruct (_ <? want); [|intros [= <- <- <-]; by apply quiet_of]); [done|].
  destruct (chunk_data c _) as [[k1 d1] c1] eqn:E. apply chunk_data_quiet in E.
  destruct (_ <? _)%Z; [by intros [= <- <- <-]|]. intros Hr. eapply quiet_trans; [exact E|by eapply IH].
Qed.

(** The interim reply at most, and a status: nothing else of the reply. *)
Definition due c : bool := req_expect_continue (req c) && negb (continue_sent c) && negb (head_sent (res c)).
Definition interim : bytes := lit "HTTP/1.1 100 Continue" ++ CRLF ++ CRLF.
Definition told c pw w : ctx W := set_out (set_continue_sent c) pw (coded c) w.

Record begun c c' : Prop := {
  bg_output : output c' = output c \/
    due c = true /\ exists ok pw w, ioxd__pipewriter_through (out c) interim (net c) = (ok, pw, w) /\
      output c' = output (told c pw w) /\ (ok = false -> body_err c' <> 0%Z);
  bg_res : exists s, res c' = set_status (res c) s;
  bg_err : body_err c <> 0%Z -> body_err c' <> 0%Z
}.

Lemma begun_quiet c c' : quiet c c' -> begun c c'.
Proof. intros [? ? ?]. split; [by left|done|done]. Qed.

Lemma output_due c c' : output c' = output c -> (exists s, res c' = set_status (res c) s) -> due c' = due c.
Proof. unfold output, due. intros E [s ->]. by injection E as _ _ _ _ _ -> _ _ ->. Qed.

Lemma begun_trans c1 c2 c3 : begun c1 c2 -> begun c2 c3 -> begun c1 c3.
Proof.
  intros [A [s As] Ae] [B [t Bt] Be]. assert (Hs : exists s, res c3 = set_status (res c1) s) by (exists t; by rewrite Bt, As). split; [|done|auto].
  destruct A as [A|(Hd & ok & pw & w & A1 & A2 & A3)].
  - destruct B as [B|(Hd & ok & pw & w & B1 & B2 & B3)]; [left; congruence|]. right. rewrite (output_due c1 c2) in Hd by eauto. split; [done|].
    exists ok, pw, w. unfold output in A. injection A as E1 E2 E3 E4 E5 E6 E7 E8 E9. rewrite E1, E3 in B1. split; [done|]. split; [|done].
    rewrite B2. unfold told, output. cbn. congruence.
  - right. split; [done|]. exists ok, pw, w. split; [done|]. split; [|auto]. destruct B as [B|(Hd2 & _)]; [congruence|].
    exfalso. unfold due in Hd2. unfold output in A2. injection A2 as _ _ _ _ _ E _ _ _. rewrite E in Hd2. cbn in Hd2. by rewrite andb_false_r in Hd2.
Qed.

Lemma begun_trans_quiet c c1 c2 : begun c c1 -> quiet c1 c2 -> begun c c2.
Proof. intros H1 H2. eapply begun_trans; [exact H1|by apply begun_quiet]. Qed.

Lemma body_begin_begun c b c1 : body_begin c = (b, c1) -> begun c c1.
Proof.
  unfold body_begin. fold interim. destruct (negb _ || _ || _) eqn:E; [intros [= <- <-]; apply begun_quiet; by apply quiet_of|]. cbn zeta.
  assert (Hd : due c = true) by (unfold due; destruct (req_expect_continue (req c)), (continue_sent c), (head_sent (res c)); done).
  destruct (ioxd__pipewriter_through _ _ _) as [[ok pw] w] eqn:Et. intros Hr. split.
  - right. split; [done|]. exists ok, pw, w. split; [done|]. by destruct ok; injection Hr as <- <-.
  - exists (status (res c)). rewrite set_status_same. by destruct ok; injection Hr as <- <-.
  - by destruct ok; injection Hr as <- <-.
Qed.

Lemma body_do_begun o c k d c' : body_do o c = Some (k, d, c') -> begun c c'.
Proof.
  assert (Hrefl : quiet c c) by (by apply quiet_of).
  destruct o as [n|n]; cbn [body_do].
  - unfold ioxd_body_read_until. destruct (negb _); [intros [= <- <- <-]; by apply begun_quiet|].
    destruct (_ || _); [intros [= <- <- <-]; by apply begun_quiet|]. destruct (body_begin c) as [[] c1] eqn:E; apply body_begin_begun in E.
    + intros Hr%read_until_loop_quiet. by eapply begun_trans_quiet.
    + by intros [= <- <- <-].
  - unfold ioxd_body_read_next_chunk. destruct (_ || _); [intros [= <- <- <-]; by apply begun_quiet|].
    destruct (body_done c); [intros [= <- <- <-]; by apply begun_quiet|]. destruct (body_begin c) as [[] c1] eqn:E; apply body_begin_begun in E;
      [|by intros [= <- <- <-]].
    destruct (if (chunk_left c1 =? 0)%Z then _ else _) as [ok c2] eqn:E2.
    assert (Hq : quiet c1 c2).
    { destruct (_ =? _)%Z; [|injection E2 as <- <-; by apply quiet_of]. pose proof (chunk_header_quiet c1) as Hq. by rewrite E2 in Hq. }
    pose proof (begun_trans_quiet _ _ _ E Hq) as Hb. destruct (negb ok); [by intros [= <- <- <-]|]. destruct (body_done c2); [by intros [= <- <- <-]|].
    destruct (_ || _); [intros [= <- <- <-]; eapply begun_trans_quiet; [exact Hb|by apply quiet_fail]|].
    intros Hr%next_chunk_loop_quiet. by eapply begun_trans_quiet.
Qed.

Lemma body_all_chunked_quiet fuel c b c' : body_all_chunked fuel c = Some (b, c') -> quiet c c'.
Proof.
  revert c. induction fuel as [|fuel IH]; intros c; cbn [body_all_chunked]; [done|].
  destruct (body_done c); [intros [= <- <-]; by apply quiet_of|]. destruct (_ =? 0)%Z.
  { pose proof (chunk_header_quiet c) as Hq. destruct (chunk_header c) as [[] c1]; [|by intros [= <- <-]]. intros Hr%IH. by eapply quiet_trans. }
  pose proof (body_bytes_quiet c) as Hq. destruct (body_bytes c) as [[l|] c1]; [|by intros [= <- <-]]. cbn zeta. cbn [snd] in Hq.
  destruct (ioxd__pipereader_keep _ _ _) as [[[s|] pr] k]; [|intros [= <- <-]; eapply quiet_trans; [exact Hq|]; eapply quiet_trans; [|by apply quiet_fail]; by apply quiet_of].
  set (c2 := set_body_read _ _). assert (H2 : quiet c c2) by (eapply quiet_trans; [exact Hq|by apply quiet_of]).
  destruct (_ =? 0)%Z; [|intros Hr%IH; by eapply quiet_trans].
  pose proof (chunk_end_loop_quiet 2 c2) as He. fold (chunk_end c2) in He. destruct (chunk_end c2) as [[] c3]; cbn [snd] in He.
  - intros Hr%IH. eapply quiet_trans; [exact H2|]. by eapply quiet_trans.
  - intros [= <- <-]. by eapply quiet_trans.
Qed.

Lemma body_all_length_quiet fuel c live n r c' : body_all_length fuel c live n = (r, c') -> quiet c c'.
Proof.
  revert c live. induction fuel as [|fuel IH]; intros c live; cbn [body_all_length]; (destruct (_ && _); [|intros [= <- <-]; by apply quiet_of]);
    (set (c1 := if 0 <? length live then examine c (length live) else c)); (assert (H1 : quiet c c1) by (unfold c1; by destruct (_ <? _); apply quiet_of));
    pose proof (body_bytes_quiet c1) as Hq; destruct (body_bytes c1) as [[l|] c2]; cbn [snd] in Hq.
  1,2,4: intros [= <- <-]; by eapply quiet_trans.
  intros Hr%IH. eapply quiet_trans; [|exact Hr]. by eapply quiet_trans.
Qed.

Lemma body_all_begun fuel c r c' : ioxd_body_all fuel c = Some (r, c') -> begun c c'.
Proof.
  assert (Hrefl : begun c c) by (apply begun_quiet; by apply quiet_of).
  unfold ioxd_body_all. destruct (body_whole c); [by intros [= <- <-]|]. destruct (_ || _); [by intros [= <- <-]|].
  destruct (if negb (body_done c) then body_begin c else (true, c)) as [ok c1] eqn:E.
  assert (H1 : begun c c1) by (destruct (negb (body_done c)); [by apply body_begin_begun in E|by injection E as <- <-]). clear Hrefl.
  destruct (negb ok); [by intros [= <- <-]|]. destruct (Headers.chunked (req c1)).
  { destruct (body_all_chunked fuel c1) as [[[] c2]|] eqn:E2; [| |done]; apply body_all_chunked_quiet in E2; intros [= <- <-];
      eapply begun_trans_quiet; [exact H1| |exact H1|exact E2]. eapply quiet_trans; [exact E2|by apply quiet_of]. }
  cbn zeta. destruct (_ <? _)%Z; [intros [= <- <-]; eapply begun_trans_quiet; [exact H1|by apply quiet_fail]|].
  destruct (body_all_length _ c1 [] _) as [[l|] c2] eqn:E2; apply body_all_length_quiet in E2; pose proof (begun_trans_quiet _ _ _ H1 E2) as H2;
    [|by intros [= <- <-]].
  destruct (if (_ =? 0)%Z then _ else _) as [[[s|] pr] k]; intros [= <- <-]; (eapply begun_trans_quiet; [exact H2|]); [by apply quiet_of|].
  eapply quiet_trans; [|by apply quiet_fail]. by apply quiet_of.
Qed.

(** Draining, then at most closing. *)
Lemma drain_loop_begun fuel c drained c' : drain_loop fuel c drained = Some c' ->
  exists c1, begun c c1 /\ (c' = c1 \/ c' = set_res c1 (set_close (res c1) true)).
Proof.
  revert c drained. induction fuel as [|fuel IH]; intros c drained; cbn [drain_loop]; [done|].
  assert (Hrefl : begun c c) by (apply begun_quiet; by apply quiet_of).
  destruct (_ && _); [|intros [= <-]; exists c; auto]. destruct (_ <=? drained)%Z; [intros [= <-]; exists c; auto|].
  destruct (ioxd_body_read_until c drain_buffer) as [[[n d] c1]|] eqn:E; [|done]. apply (body_do_begun (ReadUntil _)) in E.
  destruct (_ <=? 0)%Z; [intros [= <-]; eauto|]. intros Hr%IH. destruct Hr as (c2 & H2 & H3). exists c2. split; [by eapply begun_trans|done].
Qed.

Lemma drain_body_begun c c' : drain_body c = Some c' -> exists c1, begun c c1 /\ (c' = c1 \/ c' = set_res c1 (set_close (res c1) true)).
Proof. unfold drain_body. apply drain_loop_begun. Qed.

Lemma begun_plain c c' k : plain c k -> begun c c' -> plain c' k.
Proof.
  intros [Hh Hc] [Ho _ _]. unfold output in Ho. destruct Ho as [Ho|(_ & ok & pw & w & Ht & Ho & _)]; injection Ho as E1 E2 E3 E4 E5 E6 E7 E8 E9.
  - split; [by rewrite E7, E8|by rewrite E1].
  - apply through_cap in Ht as [Ht _]. split; [by rewrite E7, E8|rewrite E1; cbn; congruence].
Qed.
End Output.

(** ** Serving a connection *)

(** What the engine relies on of the parser: a head it accepts is a nonempty front of the live bytes, and it
accepts the same head whatever follows it and whatever was seen before; names it stores are ASCII, values
are bytes of the input. *)
Class ParserLaws `{Parser} : Prop := {
  parser_front live already n p : phr_parse_request live already = (n, p) -> (0 <= n)%Z ->
    0 < Z.to_nat n <= length live /\ forall x, phr_parse_request (take (Z.to_nat n) live ++ x) 0 = (n, p);
  parser_clean live already n p : phr_parse_request live already = (n, p) -> (0 <= n)%Z -> all_bytes live ->
    ascii_names (p_headers p) /\ Forall (fun h => all_bytes h.2) (p_headers p)
}.

(** The body of an accepted request at the front of a text. *)
Definition body_is (r : ioxd_request) (text D rest : bytes) : Prop :=
  if Headers.chunked r then chunked_coding text D rest
  else text = D ++ rest /\ Z.of_nat (length D) = req_content_length r.

(** A request the parser and [fill_request] make of the front of a text. *)
Definition request_at `{Parser} (text : bytes) (r : ioxd_request) (after : bytes) : Prop :=
  exists n p r0 arena, phr_parse_request text 0 = (n, p) /\ 0 < Z.to_nat n <= length text /\ after = drop (Z.to_nat n) text /\
    fill_request (set_parsed r0 p) arena = Some (0%Z, r).

(** The requests of a text, cut at the ends of their bodies; the last one served may end the connection. *)
Inductive served_from `{Parser} : bytes -> list ioxd_request -> Prop :=
| sf_none text : served_from text []
| sf_last text r after : request_at text r after -> served_from text [r]
| sf_next text r after D rest rs : request_at text r after -> body_is r after D rest -> served_from rest rs -> served_from text (r :: rs).

Section Serve.
Context {W : Type} `{Sender W} `{Hooks} `{ParserLaws}.
Implicit Types (c : ctx W).

(** A connection between two requests. *)
Record at_rest c (k : nat) : Prop := {
  ar_reading : reading c;
  ar_run : no_run (inp c);
  ar_cap : Writer.cap (out c) = k /\ 0 < k;
  ar_bytes : all_bytes (stream c)
}.

Lemma stream_front c : exists x, stream c = live_bytes (inp c) (kern c) ++ x.
Proof. by eexists. Qed.

Definition outs c := (out c, net c, (head_only c, no_body c, continue_sent c, on_head c, filter c)).

(** The head read: the parser's own cut of the stream, the reader after it, the head kept aside. *)
Record head_taken c (p : parsed_head) (n : Z) c' : Prop := {
  ht_reading : reading c';
  ht_run : run_bytes (inp c') (kern c') = [];
  ht_cut : 0 < Z.to_nat n <= length (stream c) /\ stream c' = drop (Z.to_nat n) (stream c);
  ht_parse : phr_parse_request (stream c) 0 = (n, p);
  ht_clean : ascii_names (p_headers p) /\ Forall (fun h => all_bytes h.2) (p_headers p);
  ht_req : exists r0, req c' = set_parsed r0 p;
  ht_same : outs c' = outs c
}.

(** A read that gave live bytes, between requests. *)
Lemma rest_read c k rc l pr w r ex : at_rest c k -> ioxd__pipereader_read (inp c) (kern c) = (rc, l, pr, w) -> (0 < rc)%Z ->
  at_span pr w l = live_bytes pr w /\ live_bytes pr w ++ coming w = stream c /\ at_rest (set_in (set_req (set_in c pr w) r) (ioxd__pipereader_examine pr ex) w) k /\
  reading (set_in c pr w) /\ no_run pr.
Proof.
  intros [[Hok He] Hrun Hcap Hb] Er Hrc. assert (rc = 1%Z) as ->.
  { unfold ioxd__pipereader_read in Er. rewrite He in Er. cbn [Z.eqb negb] in Er. exact (read_loop_one _ _ _ _ _ _ _ Er Hrc). }
  pose proof (read_no_run _ _ _ _ _ _ Hrun Er) as Hrun'. pose proof Er as Er'.
  apply read_items in Er' as (_ & He' & _); [|done|lia]. apply read_spec in Er as [[F1 _ _ _ F5 _ _] Hc]; [|done].
  destruct Hc as [(_ & -> & _)|[(? & _)|(_ & ?)]]; [|done|congruence].
  assert (Hs : live_bytes pr w ++ coming w = stream c) by (destruct F5 as [F5|F5]; [done|by rewrite He' in F5]).
  split; [done|]. split; [done|]. assert (Hrd : reading (set_in c pr w)) by by split. split; [|done].
  split; [destruct F1; split; [split|]; done|exact Hrun'|exact Hcap|]. change (all_bytes (live_bytes pr w ++ coming w)). by rewrite Hs.
Qed.

Lemma head_round c k pr w already n p s pr2 w2 pr3 w3 r0 : at_rest c k -> reading (set_in c pr w) -> no_run pr ->
  live_bytes pr w ++ coming w = stream c -> phr_parse_request (live_bytes pr w) already = (n, p) -> (0 <= n)%Z ->
  ioxd__pipereader_keep pr w (Z.to_nat n) = (Some s, pr2, w2) -> ioxd__pipereader_run_begin pr2 w2 = (pr3, w3) ->
  head_taken c p n (set_in (set_in (set_req (set_in c pr w) (set_parsed r0 p)) pr2 w2) pr3 w3).
Proof.
  intros [_ _ _ Hb] [Hok He] Hrun Hs Hp Hn Hk Hr. cbn in Hok, He. destruct (parser_front _ _ _ _ Hp Hn) as [Hlen Hfront].
  assert (Hbl : all_bytes (live_bytes pr w)) by (rewrite <- Hs in Hb; by apply all_bytes_app in Hb as [? _]).
  pose proof (keep_no_pin _ _ _ _ _ _ Hrun Hk) as Hpin.
  apply keep_spec in Hk as (_ & K1 & K2 & _ & _ & _ & _ & K3 & K4 & K5); [|done].
  assert (Hrl : 0 < run_len pr2).
  { destruct (Nat.ltb_spec 0 (run_len pr2)) as [|Hz]; [done|].
    assert (Hr1 : run_bytes pr w = []) by (unfold run_bytes; destruct Hrun as [-> _]; done).
    assert (Hr2 : run_bytes pr2 w2 = []) by (unfold run_bytes; by rewrite (proj2 (Nat.ltb_ge _ _) Hz)).
    rewrite Hr1, Hr2 in K3. apply (f_equal length) in K3. rewrite length_app, length_take in K3. cbn in K3. lia. }
  apply run_begin_spec in Hr as (R1 & R2 & R3 & R4 & _ & _ & _ & R5); [|done]. destruct (R5 Hrl) as (R6 & _ & _); [by rewrite Hpin|].
  split.
  - split; [exact R1|cbn; congruence].
  - exact R2.
  - split; [rewrite <- Hs, length_app; lia|]. change (live_bytes pr3 w3 ++ coming w3 = drop (Z.to_nat n) (stream c)).
    rewrite R3, R4, K2, K4, <- Hs, drop_app_le by lia. done.
  - rewrite <- Hs, <- (take_drop (Z.to_nat n) (live_bytes pr w)), <- app_assoc. apply Hfront.
  - by eapply parser_clean.
  - by exists r0.
  - done.
Qed.

Lemma read_head_loop_spec fuel c already k n c' : at_rest c k -> read_head_loop fuel c already = (Some n, c') ->
  exists p, head_taken c p n c'.
Proof.
  revert c already. induction fuel as [|fuel IH]; intros c already Hrest Hr; cbn [read_head_loop] in Hr;
    destruct (ioxd__pipereader_read (inp c) (kern c)) as [[[rc l] pr] w] eqn:Er; cbn zeta in Hr;
    (destruct (rc =? 0)%Z eqn:Hrc0; [done|]); (destruct (rc =? IOXD_PIPE_FULL)%Z; [done|]); (destruct (Z.ltb_spec rc 0) as [|Hrc]; [done|]);
    destruct (phr_parse_request (at_span pr w l) already) as [parsed p] eqn:Ep;
    destruct (rest_read c k rc l pr w (set_parsed (req c) p) (wlen l) Hrest Er) as (Hl & Hs & Hrest2 & Hrd & Hnr); try (apply Z.eqb_neq in Hrc0; lia);
    (destruct (Z.leb_spec 0 parsed) as [Hpos|Hneg];
      [cbn [inp kern set_in set_req] in Hr; destruct (ioxd__pipereader_keep pr w (Z.to_nat parsed)) as [[[s|] pr2] w2] eqn:Ek; [|done];
       destruct (ioxd__pipereader_run_begin pr2 w2) as [pr3 w3] eqn:Eb; injection Hr as <- <-; exists p; rewrite Hl in Ep; by eapply head_round|]);
    (destruct (parsed =? -1)%Z; [done|]); [done|].
  apply IH in Hr as (q & []); [|exact Hrest2]. exists q. 
  assert (Hst : stream (set_in (set_req (set_in c pr w) (set_parsed (req c) p)) (ioxd__pipereader_examine pr (wlen l)) w) = stream c) by exact Hs.
  split; try done.
  - by rewrite <- Hst.
  - by rewrite <- Hst.
Qed.

(** *** The request begins *)

Lemma accepted_length r0 p arena r : ascii_names (p_headers p) -> Forall (fun h => all_bytes h.2) (p_headers p) ->
  fill_request (set_parsed r0 p) arena = Some (0%Z, r) -> (0 <= req_content_length r < 2 ^ 64)%Z.
Proof.
  intros Ha Hb Hf. destruct (fill_request_inv (set_parsed r0 p) arena) as (ps & lost & a' & pth & q & _ & _ & _ & E). rewrite E in Hf. injection Hf as Hf.
  apply settle_framing_spec in Hf as (_ & Hf & _); [|done|done]. destruct (Hf eq_refl) as [_ [_ _ [(_ & _ & _ & ->)|[(_ & _ & v & _ & (_ & Hd & ->) & Hm)|(_ & _ & -> & _)]]]]; [lia| |lia].
  unfold SIZE_MAX, UINT64_MAX in Hm. split; [by apply dec_value_nonneg|lia].
Qed.

(** A request open for its handler. *)
Record opened c (k : nat) : Prop := {
  op_readable : readable c;
  op_err : body_err c = 0%Z;
  op_plain : plain c k;
  op_left : forall D rest, left c D rest -> body_is (req c) (stream c) D rest
}.

Lemma begin_opened arena cb c k p n c0 : head_taken c0 p n c -> outs c = (out c0, net c0, (false, false, false, None, None)) ->
  Writer.cap (out c0) = k -> exists rc c', begin_request arena cb c = Some (rc, c') /\
    (rc = 0%Z -> request_at (stream c0) (req c') (stream c') /\ opened (set_head_only c') k /\ stream (set_head_only c') = stream c).
Proof.
  intros [T1 T2 T3 T4 [T5 T5'] [r0 T6] T7] Ho Hk. destruct (fill_request_inv (req c) arena) as (ps & lost & a' & pth & q & _ & _ & _ & E).
  unfold begin_request. rewrite E. destruct (settle_framing _ lost) as [rc r] eqn:Es. eexists rc, _. split; [done|]. intros ->. cbn zeta.
  rewrite T6 in E. pose proof (accepted_length _ _ _ _ T5 T5' E) as Hcl. split; [|split].
  - exists n, p, r0, arena. cbn. split; [done|]. split; [apply T3|]. split; [apply T3|done].
  - set (c' := set_head_only _).
    assert (Hb : body_ok c').
    { split; [by eapply reading_of|cbn; lia|]. cbn. intros Hch. rewrite Hch. cbn. split; [lia|]. split; [lia|].
      destruct (Z.eqb_spec (req_content_length r) 0); split; try done; lia. }
    split.
    + split; [split; [apply Hb|destruct Hb as [[_ ->] _ _]; done]|done].
    + done.
    + split; [done|]. cbn. unfold outs in Ho. injection Ho as -> _. done.
    + intros D rest Hl. unfold body_is. inversion Hl as [Hd E1 E2|? ? Hd Hch Hs Hn|? ? Hd Hch _ Hcc|d ? ? ? _ _ Hne Hn]; subst.
      * cbn in Hd. apply andb_true_iff in Hd as [Hd1 Hd2]. apply negb_true_iff in Hd1. cbn. rewrite Hd1. split; [done|]. by apply Z.eqb_eq in Hd2.
      * rewrite Hch. split; [done|]. cbn in Hn. cbn. lia.
      * by rewrite Hch.
      * cbn in Hn. destruct d; [done|cbn in Hn; lia].
  - done.
Qed.

(** *** The handler runs *)

(** What a handler's calls did so far, of the body [D] read. *)
Record went c c' : Prop := {
  wn_sticky : sticky c c';
  wn_step : body_err c' = 0%Z -> exists D kept, stepped c D kept c';
  wn_req : req c' = req c
}.

Lemma went_refl c : readable c -> went c c.
Proof. intros [Ha Hok]. split; [by apply sticky_of| |done]. intros He. exists [], []. apply stepped_refl. auto. Qed.

Lemma went_trans c1 c2 c3 : alive c1 -> went c1 c2 -> went c2 c3 -> went c1 c3.
Proof.
  intros Ha [A1 A2 A3] [B1 B2 B3]. split; [by eapply sticky_trans| |congruence]. intros He.
  destruct (B2 He) as (D2 & k2 & S2). destruct (A2 (sticky_zero _ _ B1 (proj1 (A1 Ha)) He)) as (D1 & k1 & S1).
  exists (D1 ++ D2), (k1 ++ k2). by eapply stepped_trans.
Qed.

Lemma went_readable c c' : readable c -> went c c' -> readable c'.
Proof.
  intros Hr [A1 A2 _]. split; [by apply A1, Hr|]. intros He. destruct (A2 He) as (D & k & S). apply S.
Qed.

Lemma same_input_went c c' : readable c -> input c' = input c -> went c c'.
Proof.
  intros [Ha Hok] E. unfold input in E. injection E as E1 E2 E3 E4 E5 E6 E7 E8 E9 E10. split; [by apply sticky_of; rewrite ?E8| |done].
  intros He. rewrite E8 in He. destruct (Hok He) as [B1 B2 B3]. exists [], []. split; try done.
  - split; [by eapply reading_of|by rewrite E9|by rewrite E1, E5, E6].
  - by rewrite E2, E3, app_nil_r.
  - intros data rest. by apply left_of.
Qed.

Lemma begun_req c c' : begun c c' -> req c' = req c.
Proof. intros [[Ho|(_ & ok & pw & w & _ & Ho & _)] _ _]; unfold output in Ho; by injection Ho. Qed.

Lemma body_all_went c : readable c -> exists s c', ioxd_body_all (S (length (stream c))) c = Some (s, c') /\ went c c'.
Proof.
  intros Hr. destruct (body_whole c) eqn:Hw.
  { eexists _, c. unfold ioxd_body_all. rewrite Hw. split; [done|by apply went_refl]. }
  destruct (negb (body_read c =? 0)%Z || negb (body_err c =? 0)%Z) eqn:Eg.
  { eexists _, c. unfold ioxd_body_all. rewrite Hw, Eg. split; [done|by apply went_refl]. }
  apply orb_false_iff in Eg as [E1 E2]. apply negb_false_iff, Z.eqb_eq in E1, E2.
  destruct (body_all_spec (S (length (stream c))) c Hr E2 Hw E1 (le_n _)) as (s & c' & E & Hs). exists s, c'. split; [done|].
  split; [by apply body_all_sticky in E| |by apply begun_req, (body_all_begun _ _ _ _ E)].
  intros He. destruct s as [s|]; [|done]. destruct Hs as (D & _ & _ & _ & _ & Hst). by exists D, D.
Qed.

(** A program run to its end: it always gets there, and what it read is the next of the body. *)
Lemma run_prog_went fuel p c k : readable c -> plain c k -> 0 < k -> exists c', run_prog fuel p c = Some c' /\ went c c' /\ plain c' k.
Proof.
  revert c. induction p as [|o f IH|o f IH|f IH]; intros c Hr Hp Hk; cbn [run_prog].
  - exists c. split; [done|]. split; [by apply went_refl|done].
  - destruct (reply_do_call fuel o c k Hp Hk) as (ok & c1 & E & Hp1). rewrite E. apply reply_do_input in E.
    pose proof (same_input_went _ _ Hr E) as Hw. destruct (IH ok c1) as (c2 & -> & Hw2 & Hp2); [by eapply went_readable|done..|].
    exists c2. split; [done|]. split; [|done]. eapply went_trans; [apply Hr|exact Hw|exact Hw2].
  - destruct (body_do_spec o c Hr) as (rc & d & c1 & E & Ho). rewrite E. pose proof (body_do_begun _ _ _ _ _ E) as Hb.
    assert (Hw : went c c1).
    { destruct Ho as [[Hs Ho]|(-> & -> & ->)]; [|by apply went_refl]. split; [done| |by apply begun_req]. intros He.
      destruct (rc <? 0)%Z; [done|]. destruct Ho as [_ Ho]. exists d, []. auto. }
    destruct (IH rc d c1) as (c2 & -> & Hw2 & Hp2); [by eapply went_readable|by eapply begun_plain|done|].
    exists c2. split; [done|]. split; [|done]. eapply went_trans; [apply Hr|exact Hw|exact Hw2].
  - destruct (body_all_went c Hr) as (s & c1 & E & Hw). rewrite E. pose proof (body_all_begun _ _ _ _ E) as Hb.
    match goal with |- context [f ?x] => destruct (IH x c1) as (c2 & -> & Hw2 & Hp2); [by eapply went_readable|by eapply begun_plain|done|] end.
    exists c2. split; [done|]. split; [|done]. eapply went_trans; [apply Hr|exact Hw|exact Hw2].
Qed.

(** *** The end of a request *)

Definition closes c c' : Prop := close (res c) = true -> close (res c') = true.

Lemma send_framed_closes c final h extra ok c' : send_framed c false final h extra = (ok, c') -> closes c c'.
Proof.
  unfold send_framed, closes. intros Hr Hc. destruct (if chunked (res c) && _ then _ else _) as [ok1 pw1]. destruct ok1; cbn [negb] in Hr; [|by injection Hr as _ <-].
  destruct (if final && _ then _ else _) as [ok2 pw2]. destruct ok2; cbn [negb] in Hr; [|by injection Hr as _ <-].
  destruct (if 0 <? length h then _ else _) as [[ok3 pw3] w3]. destruct ok3; cbn [negb] in Hr; [|by injection Hr as _ <-].
  destruct (ioxd__pipewriter_flush_with _ _ _) as [[[] pw4] w4]; by injection Hr as _ <-.
Qed.

Lemma settle_head_closes c final ok h c' : settle_head c false final = (ok, h, c') -> closes c c'.
Proof.
  unfold settle_head, closes. intros Hr Hc. destruct (head_sent (res c)); [by injection Hr as _ _ <-|].
  destruct (decide_framing c false final) as [[f n] c1] eqn:E.
  assert (Hcl1 : close (res c1) = true).
  { unfold decide_framing in E. repeat match type of E with context [if ?b then _ else _] => destruct b end; injection E as _ _ <-; done. }
  assert (Hcl2 : close (res (close_if_unread c1)) = true) by (unfold close_if_unread; destruct (_ && _); [destruct (_ || _)|]; done).
  destruct (build_head _ _ _ _ _ _); [|destruct (send_status _ _ _)]; by injection Hr as _ _ <-.
Qed.

Lemma flush_closes fuel c k kind ok c' : plain c k -> flush fuel c kind = Some (ok, c') -> closes c c'.
Proof.
  intros [[Hh Hf] _] Hr Hc. unfold flush, flush_with in Hr. destruct (failed (res c)); [by injection Hr as _ <-|].
  unfold run_delegate, has_filter in Hr. rewrite Hh, Hf in Hr. cbn [andb] in Hr. cbn zeta in Hr.
  destruct (settle_head c false _) as [[[] h] c1] eqn:Es; apply settle_head_closes in Es; specialize (Es Hc); [|by injection Hr as _ <-].
  unfold flush_body in Hr. destruct (no_body c1).
  - destruct (0 <? length h); [|by injection Hr as _ <-]. by destruct (ioxd__pipewriter_through _ _ _) as [[[] pw] w]; injection Hr as _ <-.
  - cbn [andb] in Hr. destruct (clamp c1 false []) as [[over e] c2] eqn:Ec.
    assert (Hcl2 : close (res c2) = true) by (unfold clamp in Ec; destruct (has_length (res c1)); by injection Ec as _ _ <-).
    cbn zeta in Hr. destruct (send_framed _ _ _ _ _) as [ok3 c3] eqn:E3. apply send_framed_closes in E3. specialize (E3 Hcl2).
    destruct ok3; [destruct over|]; by injection Hr as _ <-.
Qed.

Lemma finish_closes fuel c k ok c' : plain c k -> finish fuel c = Some (ok, c') -> closes c c'.
Proof.
  intros Hp Hr Hc. unfold finish in Hr. destruct (failed (res c)); [by injection Hr as _ <-|].
  assert (Hcs : forall x : ctx W, close (res x) = true -> close (res (close_if_short x)) = true) by (intros x Hx; unfold close_if_short; by destruct (_ && _ && _)).
  destruct (finish_send fuel c) as [[ok1 c1]|] eqn:E; [|done].
  assert (Hcl1 : close (res c1) = true).
  { unfold finish_send in E. destruct (_ || _); [by eapply flush_closes|]. destruct (chunked (res c)); [|by injection E as _ <-].
    destruct (ioxd__pipewriter_back _ _) as [[b|] pw]; [|by injection E as _ <-]. by destruct (ioxd__pipewriter_flush _ _) as [[[] pw2] w2]; injection E as _ <-. }
  destruct ok1; injection Hr as _ <-; auto.
Qed.

(** After the handler: it goes on only from the end of the body. *)
Lemma after_dispatch_spec fuel c k : readable c -> plain c k -> exists go c', after_dispatch fuel c = Some (go, c') /\
  (go = true -> plain c' k /\ body_done c' = true /\ body_err c' = 0%Z /\ exists D kept, stepped c D kept c').
Proof.
  intros Hr Hp. unfold after_dispatch. destruct (Z.eqb_spec (body_err c) 0) as [He|He]; cbn [negb]; [|by eexists _, _].
  assert (exists c1, (if req_expect_continue (req c) && negb (continue_sent c) && negb (body_done c) then Some (set_res c (set_close (res c) true)) else drain_body c) = Some c1 /\
    plain c1 k /\ drained_ok c c1) as (c1 & -> & Hp1 & [Hs1 Hd1]).
  { destruct (_ && _ && _).
    - eexists. split; [done|]. split; [destruct Hp; by split|]. split; [by apply sticky_of|]. intros _. exists []. split; [by apply closing_step, Hr|by right].
    - destruct (drain_loop_spec (Z.to_nat IOXD_DRAIN_MAX + 1) c 0 Hr) as (c1 & E & Hd).
      { split; [lia|]. by vm_compute. } { rewrite Nat2Z.inj_add, Z2Nat.id by done. lia. } { lia. }
      exists c1. split; [exact E|]. split; [|done]. apply drain_loop_begun in E as (c2 & Hb & Hx). apply (begun_plain _ _ k) in Hb; [|done].
      destruct Hx as [->| ->]; [done|destruct Hb; by split]. }
  destruct (Z.eqb_spec (body_err c1) 0) as [He1|He1]; cbn [negb]; [|by eexists _, _].
  destruct (Hd1 He1) as (D & Hst & Hend). destruct (finish_call fuel c1 k Hp1) as (ok & c2 & E & Hp2). rewrite E. destruct ok; [|by eexists _, _].
  eexists _, _. split; [done|]. intros Hgo. apply andb_true_iff in Hgo as [_ Hgo]. apply negb_true_iff in Hgo.
  pose proof (finish_closes _ _ _ _ _ Hp1 E) as Hcl. apply finish_input in E.
  assert (Hr1 : readable c1) by (split; [by apply Hs1, Hr|intros _; apply Hst]).
  destruct (same_input_went _ _ Hr1 E) as [Ws Wst _]. unfold input in E. injection E as E1 E2 E3 E4 E5 E6 E7 E8 E9 E10.
  split; [done|]. split; [|split].
  - rewrite E6. destruct Hend as [|Hc]; [done|]. unfold closes in Hcl. rewrite (Hcl Hc) in Hgo. done.
  - congruence.
  - destruct Wst as (D2 & k2 & Hst2); [congruence|]. exists (D ++ D2), ([] ++ k2). by eapply stepped_trans.
Qed.

(** *** The loop *)

Lemma blank_rest c k : at_rest c k -> at_rest (blank_state c) k.
Proof. intros [[] ? ? ?]. split; [by split|done..]. Qed.

Lemma serve_one_spec fuel arena cb dispatch c k : at_rest c k ->
  exists go r c', serve_one fuel arena cb dispatch c = Some (go, r, c') /\
    match r with
    | None => go = false
    | Some r => exists after, request_at (stream c) r after /\ (go = true ->
        at_rest c' k /\ length (stream c') < length (stream c) /\ exists D, body_is r after D (stream c'))
    end.
Proof.
  intros Hrest. unfold serve_one. pose proof (blank_rest _ _ Hrest) as Hrest0. set (c0 := blank_state c) in *.
  assert (Hs0 : stream c0 = stream c) by done.
  destruct (read_head c0) as [[n|] c1] eqn:Eh; [|by eexists _, None, _]. apply (read_head_loop_spec _ _ _ k) in Eh as (p & Ht); [|done].
  destruct (begin_opened arena cb c1 k p n c0 Ht (ht_same _ _ _ _ Ht) (proj1 (ar_cap _ _ Hrest))) as (rc & c2 & -> & Hopen).
  destruct (Z.eqb_spec rc 0) as [->|Hrc]; cbn [negb]; [|by eexists _, None, _]. destruct (Hopen eq_refl) as (Hreq & [O1 O2 O3 O4] & Hs2). clear Hopen.
  set (c3 := set_head_only c2) in *. destruct (run_prog_went fuel (dispatch (req c3)) c3 k O1 O3 (proj2 (ar_cap _ _ Hrest))) as (c4 & -> & Hw & Hp4).
  pose proof (went_readable _ _ O1 Hw) as Hr4. destruct (after_dispatch_spec fuel c4 k Hr4 Hp4) as (go & c5 & -> & Hgo).
  assert (Hreq3 : request_at (stream c) (req c3) (stream c3)) by (rewrite <- Hs0; exact Hreq).
  destruct go; cbn [negb].
  2: { eexists _, (Some (req c3)), _. split; [done|]. exists (stream c3). split; [exact Hreq3|done]. }
  destruct (Hgo eq_refl) as (Hp5 & Hd5 & He5 & D5 & k5 & Hst5).
  destruct (ioxd__pipereader_release (inp (filter_end c5)) (kern (filter_end c5))) as [pr w] eqn:Er.
  eexists true, (Some (req c3)), _. split; [done|]. exists (stream c3). split; [exact Hreq3|]. intros _.
  pose proof (st_ok _ _ _ _ Hst5) as [[B1 B2] _ _]. pose proof (release_no_run _ _ _ _ Er) as Hnr.
  apply release_spec in Er as (R1 & _ & R3 & R4 & _ & R6); [|exact B1].
  assert (Hs6 : stream (set_in (filter_end c5) pr w) = stream c5) by (unfold stream; cbn; by rewrite R3, R4).
  assert (He4 : body_err c4 = 0%Z) by (rewrite <- (st_err _ _ _ _ Hst5); exact He5).
  destruct Hw as [_ Hw _]. destruct (Hw He4) as (D4 & k4 & Hst4).
  assert (Hbody : body_is (req c3) (stream c3) (D4 ++ D5) (stream c5)).
  { apply O4. rewrite <- (app_nil_r D5). apply (st_left _ _ _ _ Hst4), (st_left _ _ _ _ Hst5). by apply lf_done. }
  assert (Hlen : exists x, stream c3 = x ++ stream c5).
  { unfold body_is in Hbody. destruct (Headers.chunked (req c3)); [|destruct Hbody as [-> _]; by eexists].
    clear -Hbody. induction Hbody as [line t rest _ _ _|line d more data rest _ _ _ _ [x ->]]; [exists (line ++ CRLF ++ t); by rewrite <- !app_assoc|].
    exists (line ++ CRLF ++ d ++ CRLF ++ x). by rewrite <- !app_assoc. }
  destruct Hlen as [x Hx]. destruct Hreq3 as (n3 & p3 & r3 & a3 & _ & Hn3 & Hcut & _). pose proof (ar_bytes _ _ Hrest) as Hb.
  split; [|split; [|exists (D4 ++ D5); by rewrite Hs6]].
  - split; [split; [exact R1|exact (eq_trans R6 B2)]|exact Hnr|split; [exact (pn_cap _ _ Hp5)|apply (ar_cap _ _ Hrest)]|].
    rewrite Hs6. apply (all_bytes_drop (Z.to_nat n3)) in Hb. rewrite <- Hcut, Hx in Hb. by apply all_bytes_app in Hb as [_ ?].
  - rewrite Hs6. apply (f_equal length) in Hcut. rewrite Hx, length_app, length_drop in Hcut. lia.
Qed.

Lemma serve_served rounds fuel arena cb dispatch c k : at_rest c k -> length (stream c) < rounds ->
  exists rs c', ioxd__engine_serve rounds fuel arena cb dispatch c = Some (rs, c') /\ served_from (stream c) (map fst rs).
Proof.
  revert c. induction rounds as [|rounds IH]; intros c Hrest Hlen; [lia|]. cbn [ioxd__engine_serve].
  destruct (serve_one_spec fuel arena cb dispatch c k Hrest) as (go & r & c1 & -> & Hr). destruct r as [r|].
  - destruct Hr as (after & Hreq & Hgo). destruct go; [|eexists _, _; split; [done|by eapply sf_last]].
    destruct (Hgo eq_refl) as (Hrest1 & Hl1 & D & Hb). destruct (IH c1 Hrest1) as (rs & c2 & -> & Hs); [lia|].
    eexists _, _. split; [done|]. by eapply sf_next.
  - subst go. eexists _, _. split; [done|]. constructor.
Qed.

(** C1. Request boundaries. On any connection in order, whatever the handlers read or leave of a body, the loop
returns, and the requests the handlers were given are those of the byte stream cut where the parser ends
each head and the framing ends each body: no handler's byte of one request is ever parsed as part of
another, and a connection goes on only from the exact end of a body. *)
Theorem serve_boundaries rounds fuel arena cb dispatch c k : at_rest c k -> length (stream c) < rounds ->
  exists rs c', ioxd__engine_serve rounds fuel arena cb dispatch c = Some (rs, c') /\ served_from (stream c) (map fst rs).
Proof. apply serve_served. Qed.
End Serve.

(** ** The replies *)

(** A handler's calls within their documented arguments. *)
Inductive prog_ok : prog -> Prop :=
| pk_done : prog_ok PDone
| pk_reply o k : reply_op_ok o -> (forall b, prog_ok (k b)) -> prog_ok (PReply o k)
| pk_body o k : (forall rc d, prog_ok (k rc d)) -> prog_ok (PBody o k)
| pk_all k : (forall s, prog_ok (k s)) -> prog_ok (PAll k).

Section Replied.
Context {W : Type} `{SenderLaws W} `{Hooks}.
Implicit Types (c : ctx W).

(** Doomed: an error of the body or of the reply, after which the connection closes; else the wire holds
[base], perhaps the interim reply, and the reply so far. *)
Definition replying (kp : bool) (mv : Z) (ho : bool) (base : bytes) c (D : bytes) : Prop :=
  body_err c <> 0%Z \/ failed (res c) = true \/
  exists pre, (pre = [] \/ pre = interim /\ continue_sent c = true) /\ reply_inv kp mv ho (base ++ pre) c D.

Lemma output_inv kp mv ho base c c' D : reply_inv kp mv ho base c D -> output c' = output c -> (exists s, res c' = set_status (res c) s) ->
  reply_inv kp mv ho base c' D.
Proof.
  intros [Hst Hsh] Ho [s Hs]. unfold output in Ho. injection Ho as E1 E2 E3 E4 E5 E6 E7 E8 E9. split.
  - destruct Hst. split; rewrite ?E1, ?E4, ?E7, ?E8, ?E9, ?Hs; done.
  - destruct Hsh as [(U1 & U2 & U3 & U4 & U5)|(h & f & n & Hb & Hw)].
    + left. unfold unstarted. rewrite Hs, E1, E3. done.
    + right. exists h, f, n. split.
      * destruct Hb as (r0 & B1 & B2 & B3 & B4). exists r0. rewrite Hs, E5. done.
      * rewrite E5, E3. destruct (no_body c); [done|]. destruct Hw as (S & b & W1 & W2 & W3). exists S, b. split; [done|]. split; [|by rewrite E1].
        eapply so_far_ext; [..|exact W2]; by rewrite Hs.
Qed.

(** The interim reply leaves the reply as it was. *)
Lemma told_inv kp mv ho base c D pw w : reply_inv kp mv ho base c D -> due c = true ->
  ioxd__pipewriter_through (out c) interim (net c) = (true, pw, w) -> reply_inv kp mv ho (base ++ interim) (told c pw w) D.
Proof.
  intros [Hst Hsh] Hd Ht. destruct Hst as [S1 S2 S3 S4 S5 S6]. destruct S3 as [I1 I2 I3 I4].
  assert (Hpw : pw = out c) by (unfold ioxd__pipewriter_through in Ht; rewrite I4 in Ht; destruct (conn_send _ _) as [rc w1]; destruct (rc <? 0)%Z; by simplify_eq).
  apply through_spec in Ht as (_ & _ & _ & _ & Hw); [|done]. rewrite I4 in Hw. destruct Hw as [_ Hw]. apply sent_some_true in Hw. subst pw.
  split; [by split|]. left. destruct Hsh as [(U1 & U2 & U3 & U4 & U5)|(h & f & n & (r0 & _ & B2 & _) & _)].
  - unfold unstarted. cbn. by rewrite Hw, U2.
  - unfold due in Hd. rewrite B2 in Hd. by rewrite andb_false_r in Hd.
Qed.

Lemma begun_replying kp mv ho base c c' D : replying kp mv ho base c D -> begun c c' -> replying kp mv ho base c' D.
Proof.
  intros Hr [Ho [s Hs] He]. destruct Hr as [Hr|[Hr|(pre & Hp & Hinv)]]; [left; auto|right; left; by rewrite Hs|].
  destruct Ho as [Ho|(Hd & ok & pw & w & Ht & Ho & Hok)].
  - right; right. exists pre. split; [|eapply output_inv; eauto]. unfold output in Ho. injection Ho as _ _ _ _ _ -> _ _ _. done.
  - destruct ok; [|left; auto]. right; right. exists interim. assert (pre = []) as ->.
    { destruct Hp as [|[_ Hc]]; [done|]. unfold due in Hd. rewrite Hc in Hd. cbn in Hd. by rewrite andb_false_r in Hd. }
    split.
    + right. split; [done|]. unfold output in Ho. by injection Ho.
    + rewrite app_nil_r in Hinv. eapply output_inv; [by eapply told_inv|exact Ho|by exists s].
Qed.

Lemma replying_cont kp mv ho base c c' D D' : input c' = input c ->
  (forall b, failed (res c) = true \/ reply_inv kp mv ho b c D -> failed (res c') = true \/ reply_inv kp mv ho b c' D') ->
  replying kp mv ho base c D -> replying kp mv ho base c' D'.
Proof.
  intros Hi Hf [Hr|[Hr|(pre & Hp & Hinv)]].
  - left. unfold input in Hi. injection Hi as _ _ _ _ _ _ _ E _ _. by rewrite E.
  - destruct (Hf base (or_introl Hr)) as [Hx|Hx]; [right; by left|]. right; right. exists []. rewrite app_nil_r. split; [by left|done].
  - destruct (Hf _ (or_intror Hinv)) as [Hx|Hx]; [right; by left|]. right; right. exists pre. split; [|done].
    unfold input in Hi. injection Hi as _ _ _ _ _ _ _ _ _ E. by rewrite E.
Qed.

Lemma run_prog_replying kp mv ho base fuel p c c' D : prog_ok p -> run_prog fuel p c = Some c' -> replying kp mv ho base c D ->
  exists D', replying kp mv ho base c' D'.
Proof.
  intros Hp. revert c D. induction Hp as [|o k Ho Hk IH|o k Hk IH|k Hk IH]; intros c D Hr Hc; cbn [run_prog] in Hr.
  - injection Hr as <-. eauto.
  - destruct (reply_do fuel o c) as [[ok c1]|] eqn:E; [|done]. apply (IH ok c1 (D ++ reply_data o ok)); [done|].
    eapply replying_cont; [by apply reply_do_input in E| |exact Hc]. intros b Hb.
    destruct (reply_do_spec kp mv ho b fuel c D o Ho Hb) as (ok2 & c2 & E2 & H2). rewrite E in E2. by injection E2 as <- <-.
  - destruct (body_do o c) as [[[rc d] c1]|] eqn:E; [|done]. apply body_do_begun in E. apply (IH rc d c1 D); [done|]. by eapply begun_replying.
  - destruct (ioxd_body_all _ c) as [[s c1]|] eqn:E; [|done]. apply body_all_begun in E. eapply (IH _ c1 D); [exact Hr|]. by eapply begun_replying.
Qed.

(** *** A round's reply *)

(** The reply to [r] on the wire after [base]: perhaps the interim reply, then one head and the body it
announces ([finished] of the reply component). *)
Definition framed_reply (r : ioxd_request) (base : bytes) c : Prop :=
  exists pre D, (pre = [] \/ pre = interim) /\ finished (req_keep_alive r) (Headers.minor_version r) (is_head r) (base ++ pre) c D.

Definition ready (pw : pipewriter) : Prop := writer_ok pw /\ Writer.failed pw = false /\ (Z.of_nat (Writer.cap pw) <= SIZE_MAX)%Z.

Lemma begin_replying arena cb c rc c' k : begin_request arena cb c = Some (rc, c') -> ready (out c) -> Writer.cap (out c) = k -> 0 < k ->
  replying (req_keep_alive (req c')) (Headers.minor_version (req c')) (is_head (req c')) (Writer.wire (net c)) (set_head_only c') [].
Proof.
  unfold begin_request. intros Hb (R1 & R2 & R3) Hk H0k. destruct (fill_request _ _) as [[rc' r]|]; [|done]. injection Hb as _ <-.
  right; right. exists []. split; [by left|]. rewrite app_nil_r. split.
  - destruct R1. split; cbn; try done; [by split; [|left]| |lia]. split; [|done..]. split; cbn; try done; lia.
  - left. by split_and!.
Qed.

Lemma finished_ext kp mv ho base c c' D : res c' = res c -> no_body c' = no_body c -> net c' = net c -> finished kp mv ho base c D -> finished kp mv ho base c' D.
Proof.
  intros E1 E2 E3 (h & f & n & b & Hb & Hw & Hf). exists h, f, n, b. rewrite E1, E2, E3. split; [|done].
  destruct Hb as (r0 & B1 & B2 & B3 & B4). exists r0. by rewrite E1, E2.
Qed.

Lemma after_dispatch_replying kp mv ho base fuel c D go c' : replying kp mv ho base c D -> after_dispatch fuel c = Some (go, c') ->
  go = false /\ (body_err c' <> 0%Z \/ failed (res c') = true) \/
  (go = req_keep_alive (req c') && negb (close (res c')) /\ steady kp mv ho c' /\
   exists pre D', (pre = [] \/ pre = interim) /\ finished kp mv ho (base ++ pre) c' D').
Proof.
  intros Hr Ha. unfold after_dispatch in Ha. destruct (Z.eqb_spec (body_err c) 0) as [He|He]; cbn [negb] in Ha.
  2: { injection Ha as <- <-. left. split; [done|]. left. destruct (_ && _); [|done]. unfold refuse_with. by destruct (send_status _ _ _). }
  destruct (if _ && _ && _ then _ else _) as [c1|] eqn:E1; [|done].
  assert (Hr1 : replying kp mv ho base c1 D).
  { assert (Hclose : forall x, replying kp mv ho base x D -> replying kp mv ho base (set_res x (set_close (res x) true)) D).
    { intros x [Hx|[Hx|(pre & Hp & Hinv)]]; [by left|right; by left|]. right; right. exists pre. split; [done|].
      exact (reply_inv_head kp mv ho (base ++ pre) x D (OClose true) eq_refl Hinv). }
    destruct (_ && _ && _); [injection E1 as <-; by apply Hclose|]. apply drain_body_begun in E1 as (c2 & Hb & Hx).
    pose proof (begun_replying _ _ _ _ _ _ _ Hr Hb). destruct Hx as [->| ->]; [done|by apply Hclose]. }
  destruct (Z.eqb_spec (body_err c1) 0) as [He1|He1]; cbn [negb] in Ha; [|injection Ha as <- <-; left; by auto].
  destruct Hr1 as [Hx|[Hx|(pre & Hp & Hinv)]]; [done| |].
  - unfold finish in Ha. rewrite Hx in Ha. injection Ha as <- <-. left; by auto.
  - destruct (finish_spec kp mv ho (base ++ pre) fuel c1 D (or_intror Hinv)) as (ok & c2 & E2 & Hfin). rewrite E2 in Ha.
    destruct ok; injection Ha as <- <-; [|left; by auto]. destruct Hfin as [Hfin Hst]. right. split; [done|]. split; [done|].
    exists pre, D. split; [|done]. destruct Hp as [|[? _]]; auto.
Qed.

(** One reply per request, in order: each after the one before it on the wire, and framed so that a client
reads it to its end and no further; the last one may be cut short, with the connection. *)
Inductive conversation : bytes -> list (ioxd_request * ctx W) -> Prop :=
| cv_none base : conversation base []
| cv_last base r c : body_err c <> 0%Z \/ failed (res c) = true \/ framed_reply r base c -> conversation base [(r, c)]
| cv_next base r c rs : framed_reply r base c -> req_keep_alive r = true -> close (res c) = false ->
    conversation (Writer.wire (net c)) rs -> conversation base ((r, c) :: rs).
End Replied.

Section Conversation.
Context {W : Type} `{SenderLaws W} `{Hooks} `{ParserLaws}.
Implicit Types (c : ctx W).

Lemma serve_one_reply fuel arena cb dispatch c k go r c' : at_rest c k -> ready (out c) -> (forall r, prog_ok (dispatch r)) ->
  serve_one fuel arena cb dispatch c = Some (go, Some r, c') ->
  (body_err c' <> 0%Z \/ failed (res c') = true \/ framed_reply r (Writer.wire (net c)) c') /\
  (go = true -> framed_reply r (Writer.wire (net c)) c' /\ req_keep_alive r = true /\ close (res c') = false /\ ready (out c')).
Proof.
  intros Hrest Hready Hok Hs. unfold serve_one in Hs. pose proof (blank_rest _ _ Hrest) as Hrest0.
  destruct (read_head (blank_state c)) as [[n|] c1] eqn:Eh; [|done]. apply (read_head_loop_spec _ _ _ k) in Eh as (p & Ht); [|done].
  pose proof (ht_same _ _ _ _ Ht) as Ho. unfold outs in Ho. injection Ho as Eo En _ _ _ _ _.
  destruct (begin_request arena cb c1) as [[rc c2]|] eqn:Eb; [|done]. destruct (negb (rc =? 0)%Z); [done|].
  pose proof (begin_replying arena cb c1 rc c2 k Eb) as Hr. rewrite Eo in Hr. specialize (Hr Hready (proj1 (ar_cap _ _ Hrest)) (proj2 (ar_cap _ _ Hrest))).
  rewrite En in Hr. change (net (blank_state c)) with (net c) in Hr.
  set (c3 := set_head_only c2) in *. destruct (run_prog fuel (dispatch (req c3)) c3) as [c4|] eqn:Er; [|done].
  destruct (run_prog_replying _ _ _ _ _ _ _ _ _ (Hok _) Er Hr) as [D4 Hr4].
  destruct (after_dispatch fuel c4) as [[go5 c5]|] eqn:Ea; [|done].
  pose proof (after_dispatch_replying _ _ _ _ _ _ _ _ _ Hr4 Ea) as Hend. cbn zeta in Hs.
  assert (Hres : go = go5 /\ r = req c3 /\ res c' = res c5 /\ no_body c' = no_body c5 /\ net c' = net c5 /\ body_err c' = body_err c5 /\ out c' = out c5).
  { destruct go5; cbn [negb] in Hs; [destruct (ioxd__pipereader_release _ _) as [pr w]|]; injection Hs as <- <- <-; done. }
  destruct Hres as (-> & -> & E1 & E2 & E3 & E4 & E5). rewrite E1, E4, E5.
  assert (Hfr : forall pre D, finished (req_keep_alive (req c3)) (Headers.minor_version (req c3)) (is_head (req c3)) (Writer.wire (net c) ++ pre) c5 D ->
    pre = [] \/ pre = interim -> framed_reply (req c3) (Writer.wire (net c)) c').
  { intros pre D Hf Hp. exists pre, D. split; [done|]. by eapply finished_ext. }
  destruct Hend as [[-> Hx]|(-> & Hst & pre & D & Hp & Hf)].
  - split; [|done]. destruct Hx; auto.
  - split; [right; right; by eapply Hfr|]. intros Hgo. apply andb_true_iff in Hgo as [Hg1 Hg2]. apply negb_true_iff in Hg2.
    split; [by eapply Hfr|]. split; [|split; [done|]].
    + exact (eq_trans (eq_sym (proj1 (Reply.st_req _ _ _ _ Hst))) Hg1).
    + destruct (Reply.st_out _ _ _ _ Hst). split; [done|]. split; [done|]. apply (Reply.st_cap _ _ _ _ Hst).
Qed.

Lemma serve_replied rounds fuel arena cb dispatch c k rs c' : at_rest c k -> ready (out c) -> (forall r, prog_ok (dispatch r)) ->
  ioxd__engine_serve rounds fuel arena cb dispatch c = Some (rs, c') -> conversation (Writer.wire (net c)) rs.
Proof.
  revert c rs. induction rounds as [|rounds IH]; intros c rs Hrest Hready Hok Hs; cbn [ioxd__engine_serve] in Hs; [done|].
  destruct (serve_one_spec fuel arena cb dispatch c k Hrest) as (go & r & c1 & E & Hr). rewrite E in Hs. destruct r as [r|].
  - destruct (serve_one_reply _ _ _ _ _ _ _ _ _ Hrest Hready Hok E) as [Hlast Hnext]. destruct Hr as (after & _ & Hgo).
    destruct go; [|injection Hs as <- _; by apply cv_last]. destruct (Hnext eq_refl) as (Hf & Hka & Hcl & Hready1). destruct (Hgo eq_refl) as (Hrest1 & _).
    destruct (ioxd__engine_serve rounds fuel arena cb dispatch c1) as [[rs1 c2]|] eqn:E2; [|done]. injection Hs as <- <-.
    apply cv_next; try done. by apply (IH c1).
  - subst go. injection Hs as <- _. constructor.
Qed.

End Conversation.


(** *** On a concrete connection *)

(** A parser of one-line heads: the line is the length of a body. *)
Definition line_head (v : bytes) : parsed_head :=
  {| p_method := lit "POST"; p_target := lit "/"; p_minor := 1; p_headers := [(Some (lit "Host"), lit "x"); (Some (lit "Content-Length"), v)] |}.
#[local] Instance line_parser : Parser :=
  {| phr_parse_request live _ := match memchr 10 live with Some i => (Z.of_nat (i + 1), line_head (take i live)) | None => ((-2)%Z, line_head []) end |}.

Lemma line_parser_laws : ParserLaws.
Proof.
  split; intros live already n p; cbn [phr_parse_request line_parser]; (destruct (memchr 10 live) as [i|] eqn:E; [|intros [= <- <-]; lia]); intros [= <- <-] _.
  - pose proof (memchr_lt _ _ _ E). split; [lia|]. intros x. rewrite Nat2Z.id. pose proof (memchr_split _ _ _ E) as [Hs Hn].
    assert (Hm : memchr 10 (take (i + 1) live) = Some i).
    { apply memchr_Some. apply memchr_Some in E as (E1 & E2). split; [rewrite lookup_take, decide_True by lia; exact E1|].
      intros j Hj. rewrite lookup_take, decide_True by lia. by apply E2. }
    rewrite (memchr_app_l _ _ _ _ Hm). do 2 f_equal. rewrite take_app_le by (rewrite length_take; lia). rewrite take_take. f_equal. lia.
  - intros Hb. split; [repeat (constructor; [by repeat constructor|]); constructor|].
    constructor; [apply lit_bytes|constructor; [by apply all_bytes_take|constructor]].
Qed.

#[local] Existing Instance line_parser_laws.

Definition connection (ps : list bytes) : ctx socket :=
  set_in (fresh false 1) (ioxd__pipereader_init (replicate 64 0%Z) 64) (pieces ps).

Definition echo_two : ioxd_request -> prog := fun _ => PBody (ReadUntil 2) (fun _ d => PReply (RWrite d) (fun _ => PDone)).

Definition two_requests : list bytes := [lit "3" ++ [10%Z] ++ lit "ab"; lit "c2" ++ [10%Z] ++ lit "xy"].

Lemma two_requests_rest : at_rest (connection two_requests) 10.
Proof.
  split; [|done|split; [done|lia]|].
  - split; [|done]. apply (reader_ok_init (replicate 64 0%Z)). split; [|  |reflexivity].
    + cbn. repeat constructor; set_solver.
    + intros i Hi. cbn in Hi. repeat (apply elem_of_cons in Hi as [->|Hi]); [vm_compute; lia..|set_solver].
  - vm_compute. repeat constructor; discriminate.
Qed.

Example serve_two :
  match ioxd__engine_serve (H := calm) 20 9 (replicate 64 0%Z) [] echo_two (connection two_requests) with
  | Some (rs, c) => (map (fun r => req_content_length r.1) rs, sent (net c))
  | None => ([], [])
  end = ([3; 2]%Z, head_of [lit "HTTP/1.1 200 OK"; lit "content-type: text/plain"; lit "content-length: 2"] ++ lit "ab" ++
                   head_of [lit "HTTP/1.1 200 OK"; lit "content-type: text/plain"; lit "content-length: 2"] ++ lit "xy").
Proof. vm_compute. reflexivity. Qed.

Lemma serve_boundaries_witness :
  exists rs c', ioxd__engine_serve (H := calm) 99 9 (replicate 64 0%Z) [] echo_two (connection two_requests) = Some (rs, c') /\
    served_from (stream (connection two_requests)) (map fst rs).
Proof.
  exact (serve_boundaries (H := calm) (H2 := line_parser_laws) 99 9 (replicate 64 0%Z) [] echo_two (connection two_requests) 10 two_requests_rest ltac:(vm_compute; lia)).
Defined.

Lemma echo_two_ok r : prog_ok (echo_two r).
Proof. apply pk_body. intros rc d. apply pk_reply; [exact I|]. intros b. apply pk_done. Qed.

