(* ===== verification/Router.v ===== *)
(** The router of lib/http/router.c: what is registered (groups, endpoints, their middleware), the segment
    tree and the flat chains it resolves into once, a request's walk down the tree, the captured segments
    decoded, the methods of a 405, and the chain run with its shared cursor. Groups are numbered in the
    order they are made, the root 0; an endpoint stands in the tree with its chain already flat, which the
    code fills in right after inserting it. *)
From S2P Require Import Prelude Slices Headers Response Reply Body Engine.
From stdpp Require Import sorting.

#[local] Arguments Nat.ltb : simpl never.
#[local] Arguments Nat.leb : simpl never.
#[local] Arguments lit : simpl never.

Definition IOXD_MAX_MW : nat := 16.
Definition IOXD_MAX_ROUTE_PARAMS : nat := 8.
Definition IOXD_ROUTE_ARENA : nat := Z.to_nat 256.
Definition SEEN_MAX : nat := 8.
Definition ALLOW_MAX : nat := 16.

(** ** Paths *)

(** The loop that passes slashes. *)
Fixpoint skip_slashes (at_ : bytes) : bytes :=
  match at_ with c :: at' => if (c =? ch "/")%Z then skip_slashes at' else at_ | [] => [] end.

(** The next segment of what is left of a path, and what is left after it. *)
Definition next_segment (at_ : bytes) : option (bytes * bytes) :=
  let p := skip_slashes at_ in
  if length p =? 0 then None
  else
    let n := match memchr (ch "/") p with Some i => i | None => length p end in
    Some (take n p, drop n p).

(** All of them: what the loops of [insert] and [walk] see. *)
Fixpoint segments_loop (fuel : nat) (at_ : bytes) : list bytes :=
  match fuel with
  | 0 => []
  | S fuel => match next_segment at_ with Some (seg, rest) => seg :: segments_loop fuel rest | None => [] end
  end.
Definition segments (path : bytes) : list bytes := segments_loop (S (length path)) path.

(** [buf + *at] before and after: the text so far, with [part] in front. *)
Definition prepend (part text : bytes) : bytes :=
  if negb (length part =? 0) && negb (nth 0 text 0 =? 0)%Z && negb (nth (length part - 1) part 0 =? ch "/")%Z && negb (nth 0 text 0 =? ch "/")%Z
  then part ++ ch "/" :: text else part ++ text.

Section Router.
Context {Mw Handler : Type}.

(** ** Registration *)

Record ioxd_group := { parent : option nat; prefix : bytes; mws : list Mw }.

Record ioxd_endpoint := {
  group : nat; method : bytes; ep_path : bytes; seq : nat; fn : Handler; own : list Mw;
  full : bytes; names : list bytes; chain : list Mw
}.

Inductive node := Node (seg : bytes) (kids : list node) (param : option node) (eps : list ioxd_endpoint).
Definition node_seg (n : node) : bytes := let '(Node s _ _ _) := n in s.
Definition node_kids (n : node) : list node := let '(Node _ k _ _) := n in k.
Definition node_param (n : node) : option node := let '(Node _ _ p _) := n in p.
Definition node_eps (n : node) : list ioxd_endpoint := let '(Node _ _ _ e) := n in e.
Definition empty_node (s : bytes) : node := Node s [] None [].

Record registry := {
  groups : list ioxd_group; g_current : nat;
  g_first : list ioxd_endpoint; g_n_eps : nat;
  g_tree : node; g_fallback : Handler; g_built : bool
}.

Definition g_root : ioxd_group := {| parent := None; prefix := []; mws := [] |}.
Definition registry0 (not_found : Handler) : registry :=
  {| groups := [g_root]; g_current := 0; g_first := []; g_n_eps := 0; g_tree := empty_node []; g_fallback := not_found; g_built := false |}.

Definition set_groups (g : registry) (gs : list ioxd_group) : registry :=
  {| groups := gs; g_current := g_current g; g_first := g_first g; g_n_eps := g_n_eps g; g_tree := g_tree g; g_fallback := g_fallback g; g_built := g_built g |}.
Definition set_current (g : registry) (n : nat) : registry :=
  {| groups := groups g; g_current := n; g_first := g_first g; g_n_eps := g_n_eps g; g_tree := g_tree g; g_fallback := g_fallback g; g_built := g_built g |}.
Definition set_eps (g : registry) (es : list ioxd_endpoint) (n : nat) : registry :=
  {| groups := groups g; g_current := g_current g; g_first := es; g_n_eps := n; g_tree := g_tree g; g_fallback := g_fallback g; g_built := g_built g |}.

Definition add_mw (m : Mw) (gr : ioxd_group) : ioxd_group := {| parent := parent gr; prefix := prefix gr; mws := mws gr ++ [m] |}.
Definition add_own (m : Mw) (ep : ioxd_endpoint) : ioxd_endpoint :=
  {| group := group ep; method := method ep; ep_path := ep_path ep; seq := seq ep; fn := fn ep; own := own ep ++ [m];
     full := full ep; names := names ep; chain := chain ep |}.

(** Each pointer to a group or an endpoint is the number of it; a null one is [None]. *)
Definition ioxd_group_new (g : registry) (parent_ : option nat) (prefix_ : bytes) : nat * registry :=
  (length (groups g), set_groups g (groups g ++ [{| parent := Some (match parent_ with Some p => p | None => 0 end); prefix := prefix_; mws := [] |}])).

Definition ioxd_group_use (g : registry) (group_ : option nat) (m : Mw) : registry :=
  let i := match group_ with Some i => i | None => 0 end in
  if g_built g then g
  else match groups g !! i with
       | None => g
       | Some gr => if length (mws gr) =? IOXD_MAX_MW then g else set_groups g (alter (add_mw m) i (groups g))
       end.

Definition ioxd_use (g : registry) (m : Mw) : registry := if g_built g then g else ioxd_group_use g (Some 0) m.

Definition ioxd_route (g : registry) (group_ : option nat) (method_ path_ : bytes) (fn_ : Handler) : option nat * registry :=
  if g_built g then (None, g)
  else
    let ep := {| group := match group_ with Some i => i | None => 0 end; method := method_; ep_path := path_; seq := g_n_eps g;
                 fn := fn_; own := []; full := []; names := []; chain := [] |} in
    (Some (length (g_first g)), set_eps g (g_first g ++ [ep]) (S (g_n_eps g))).

Definition ioxd_endpoint_use (g : registry) (endpoint : option nat) (m : Mw) : registry :=
  match endpoint with
  | None => g
  | Some i =>
      if g_built g then g
      else match g_first g !! i with
           | None => g
           | Some ep => if length (own ep) =? IOXD_MAX_MW then g else set_eps g (alter (add_own m) i (g_first g)) (g_n_eps g)
           end
  end.

(** A middleware list is what comes before its null; the loops stop at [IOXD_MAX_MW] of them. *)
Definition ioxd__router_group_begin (g : registry) (prefix_ : bytes) (ms : list Mw) : nat * registry :=
  let '(i, g) := ioxd_group_new g (Some (g_current g)) prefix_ in
  (i, set_current (fold_left (fun g m => ioxd_group_use g (Some i) m) (take IOXD_MAX_MW ms) g) i).

Definition ioxd__router_group_end (g : registry) : registry :=
  match groups g !! g_current g with
  | Some gr => match parent gr with Some p => set_current g p | None => g end
  | None => g
  end.

Definition ioxd__router_group_pop (g : registry) (open : option nat) : registry :=
  match open with Some _ => ioxd__router_group_end g | None => g end.

Definition ioxd__router_group_current (g : registry) : nat := g_current g.

Definition ioxd__router_endpoint (g : registry) (method_ path_ : bytes) (fn_ : Handler) (ms : list Mw) : option nat * registry :=
  let '(ep, g) := ioxd_route g (Some (g_current g)) method_ path_ fn_ in
  (ep, fold_left (fun g m => ioxd_endpoint_use g ep m) (take IOXD_MAX_MW ms) g).

Definition ioxd_default (g : registry) (fn_ : Handler) : registry :=
  if g_built g then g
  else {| groups := groups g; g_current := g_current g; g_first := g_first g; g_n_eps := g_n_eps g; g_tree := g_tree g; g_fallback := fn_; g_built := g_built g |}.

(** ** Resolution *)

(** [for (g = ...; g; g = g->parent)]: the groups from one up to the root. *)
Fixpoint up (fuel : nat) (gs : list ioxd_group) (i : nat) : list ioxd_group :=
  match fuel with
  | 0 => []
  | S fuel => match gs !! i with Some gr => gr :: (match parent gr with Some p => up fuel gs p | None => [] end) | None => [] end
  end.
Definition groups_up (gs : list ioxd_group) (i : nat) : list ioxd_group := up (S i) gs i.

Definition full_path (gs : list ioxd_group) (ep : ioxd_endpoint) : bytes :=
  fold_left (fun text gr => prepend (prefix gr) text) (groups_up gs (group ep)) (prepend (ep_path ep) []).

Definition flatten_chain (gs : list ioxd_group) (ep : ioxd_endpoint) : list Mw :=
  fold_left (fun chain_ gr => mws gr ++ chain_) (groups_up gs (group ep)) (own ep).

Definition group_depth (g : registry) : nat := length (groups_up (groups g) (g_current g)) - 1.

(** [ep->full = full_path(ep); ... flatten_chain(ep)]. *)
Definition resolved (gs : list ioxd_group) (ep : ioxd_endpoint) : ioxd_endpoint :=
  {| group := group ep; method := method ep; ep_path := ep_path ep; seq := seq ep; fn := fn ep; own := own ep;
     full := full_path gs ep; names := names ep; chain := flatten_chain gs ep |}.

Definition add_name (ep : ioxd_endpoint) (name : bytes) : ioxd_endpoint :=
  {| group := group ep; method := method ep; ep_path := ep_path ep; seq := seq ep; fn := fn ep; own := own ep;
     full := full ep; names := names ep ++ [name]; chain := chain ep |}.

(** The child for a segment, made at the end if missing, with what the rest of the insertion does to it. *)
Fixpoint child (kids : list node) (seg : bytes) (f : node -> node) : list node :=
  match kids with
  | [] => [f (empty_node seg)]
  | k :: kids => if beq (node_seg k) seg then f k :: kids else k :: child kids seg f
  end.

Definition is_capture (seg : bytes) : bool := (nth 0 seg 0 =? ch ":")%Z.

Definition same_method (m : bytes) (ep : ioxd_endpoint) : bool := beq (method ep) m.

Definition add_ep (ep : ioxd_endpoint) (es : list ioxd_endpoint) : list ioxd_endpoint :=
  if existsb (same_method (method ep)) es then es else es ++ [ep].

Fixpoint insert (segs : list bytes) (ep : ioxd_endpoint) (n : node) : node :=
  let '(Node s kids param es) := n in
  match segs with
  | [] => Node s kids param (add_ep ep es)
  | seg :: segs =>
      if is_capture seg then
        if length (names ep) =? IOXD_MAX_ROUTE_PARAMS then n
        else Node s kids (Some (insert segs (add_name ep (drop 1 seg)) (match param with Some p => p | None => empty_node [] end))) es
      else Node s (child kids seg (insert segs ep)) param es
  end.

Definition insert_ep (gs : list ioxd_group) (t : node) (ep : ioxd_endpoint) : node :=
  let ep := resolved gs ep in insert (segments (full ep)) ep t.

Definition ioxd__router_build (g : registry) : registry :=
  if g_built g then g
  else {| groups := groups g; g_current := g_current g; g_first := g_first g; g_n_eps := g_n_eps g;
          g_tree := fold_left (insert_ep (groups g)) (g_first g) (g_tree g); g_fallback := g_fallback g; g_built := true |}.

(** ** A request *)

Fixpoint endpoint_for_loop (es : list ioxd_endpoint) (m : bytes) (get : option ioxd_endpoint) : option ioxd_endpoint :=
  match es with
  | [] => if beq m (lit "HEAD") then get else None
  | ep :: es => if same_method m ep then Some ep else endpoint_for_loop es m (if same_method (lit "GET") ep then Some ep else get)
  end.
Definition endpoint_for (n : node) (m : bytes) : option ioxd_endpoint := endpoint_for_loop (node_eps n) m None.

(** The child of a segment: [for ... if (same(...)) { ...; break; }]. *)
Fixpoint kid (kids : list node) (seg : bytes) : option node :=
  match kids with [] => None | k :: kids => if beq (node_seg k) seg then Some k else kid kids seg end.

(** The values captured so far and the end-of-path nodes seen go through the walk. *)
Fixpoint walk (segs : list bytes) (n : node) (m : bytes) (caps : list bytes) (seen : list node) : option ioxd_endpoint * list bytes * list node :=
  match segs with
  | [] =>
      let seen := if negb (length (node_eps n) =? 0) && (length seen <? SEEN_MAX) then seen ++ [n] else seen in
      (endpoint_for n m, caps, seen)
  | seg :: segs =>
      let '(ep, caps, seen) :=
        match kid (node_kids n) seg with Some k => walk segs k m caps seen | None => (None, caps, seen) end in
      match ep with
      | Some ep => (Some ep, caps, seen)
      | None =>
          match node_param n with
          | Some p =>
              if length caps <? IOXD_MAX_ROUTE_PARAMS then
                let '(ep, caps', seen) := walk segs p m (caps ++ [seg]) seen in
                match ep with Some ep => (Some ep, caps', seen) | None => (None, caps, seen) end
              else (None, caps, seen)
          | None => (None, caps, seen)
          end
      end
  end.

Definition listed (out : list ioxd_endpoint) (ep : ioxd_endpoint) : bool := existsb (same_method (method ep)) out.

(** [while (at < n && out[at]->seq < ep->seq) at++], then [ep] there. *)
Fixpoint insert_seq (out : list ioxd_endpoint) (ep : ioxd_endpoint) : list ioxd_endpoint :=
  match out with
  | o :: out' => if seq o <? seq ep then o :: insert_seq out' ep else ep :: out
  | [] => [ep]
  end.

Fixpoint allow_node (es : list ioxd_endpoint) (out : list ioxd_endpoint) : list ioxd_endpoint :=
  match es with
  | [] => out
  | ep :: es => if length out <? ALLOW_MAX then allow_node es (if listed out ep then out else insert_seq out ep) else out
  end.
Definition allowed_endpoints (seen : list node) : list ioxd_endpoint := fold_left (fun out n => allow_node (node_eps n) out) seen [].

Definition allow_item (add_head : bool) (ep : ioxd_endpoint) : bytes :=
  method ep ++ (if add_head && same_method (lit "GET") ep then lit ", HEAD" else []).

Fixpoint allow_text (add_head first : bool) (es : list ioxd_endpoint) : bytes :=
  match es with
  | [] => []
  | ep :: es => (if first then [] else lit ", ") ++ allow_item add_head ep ++ allow_text add_head false es
  end.

(** The text is built in the arena, with its ending null; [None] when there is nothing or it would not fit. *)
Definition allow_value (seen : list node) : option bytes :=
  let es := allowed_endpoints seen in
  let get := existsb (same_method (lit "GET")) es in
  let head := existsb (same_method (lit "HEAD")) es in
  let len := (if length es =? 0 then 0 else (length es - 1) * 2 + 1) + list_sum (map (fun ep => length (method ep)) es) in
  let add_head := get && negb head in
  if (length es =? 0) || (IOXD_ROUTE_ARENA <? len + (if add_head then 6 else 0)) then None
  else Some (allow_text add_head true es).
End Router.
Arguments ioxd_group : clear implicits.
Arguments ioxd_endpoint : clear implicits.
Arguments node : clear implicits.
Arguments registry : clear implicits.

(** ** The captured values *)

(** The loop of [decoded]: a hex escape is its byte, everything else is itself. *)
Fixpoint route_decode (raw : bytes) : bytes :=
  match raw with
  | [] => []
  | c :: rest =>
      match rest with
      | h :: l :: rest' =>
          if (c =? ch "%")%Z && (0 <=? ioxd__http_hexval h)%Z && (0 <=? ioxd__http_hexval l)%Z
          then (ioxd__http_hexval h * 16 + ioxd__http_hexval l)%Z :: route_decode rest'
          else c :: route_decode rest
      | _ => c :: route_decode rest
      end
  end.

(** [decoded]: the value, the arena with it and how much of it is used. *)
Definition decoded (raw arena : bytes) (used : nat) : bytes * bytes * nat :=
  if negb (existsb (Z.eqb (ch "%")) raw) || (IOXD_ROUTE_ARENA <? used + length raw) then (raw, arena, used)
  else let v := route_decode raw in (v, blit arena used v, used + length v).

(** The loop over the captures: each with the endpoint's name for it. *)
Fixpoint decode_params (names_ caps : list bytes) (arena : bytes) (used : nat) : list (bytes * bytes) * bytes :=
  match names_, caps with
  | n :: names_, c :: caps =>
      let '(v, arena, used) := decoded c arena used in
      let '(ps, arena) := decode_params names_ caps arena used in ((n, v) :: ps, arena)
  | _, _ => ([], arena)
  end.

(** ** The chain *)

(** What a middleware does: a handler's calls, and [ioxd_next_run]. *)
Inductive mprog :=
| MDone
| MReply (o : reply_op) (k : bool -> mprog)
| MBody (o : body_op) (k : Z -> bytes -> mprog)
| MAll (k : option bytes -> mprog)
| MNext (k : mprog).

(** The program a chain comes to, with a mark where a middleware, by its place, or the handler, the place after
the last, is entered. *)
Inductive cprog :=
| CDone
| CReply (o : reply_op) (k : bool -> cprog)
| CBody (o : body_op) (k : Z -> bytes -> cprog)
| CAll (k : option bytes -> cprog)
| CEnter (at_ : nat) (k : cprog).

(** A handler's calls, and then what comes after it returns. *)
Fixpoint then_ (p : prog) (k : cprog) : cprog :=
  match p with
  | PDone => k
  | PReply o f => CReply o (fun b => then_ (f b) k)
  | PBody o f => CBody o (fun rc d => then_ (f rc d) k)
  | PAll f => CAll (fun s => then_ (f s) k)
  end.

(** A middleware's calls from the cursor [i]: [next] runs the rest and hands back the cursor. *)
Fixpoint run_mw (next : nat -> (nat -> cprog) -> cprog) (m : mprog) (i : nat) (k : nat -> cprog) : cprog :=
  match m with
  | MDone => k i
  | MReply o f => CReply o (fun b => run_mw next (f b) i k)
  | MBody o f => CBody o (fun rc d => run_mw next (f rc d) i k)
  | MAll f => CAll (fun s => run_mw next (f s) i k)
  | MNext f => next i (fun i => run_mw next f i k)
  end.

(** [ioxd_next_run] with the cursor at [i]; [k] goes on with the cursor as it is at its return. The cursor
moves at every call that runs something, so [n + 1] levels of them are all there can be. *)
Fixpoint ioxd_next_run (fuel : nat) (ms : list mprog) (handler : prog) (i : nat) (k : nat -> cprog) : cprog :=
  if length ms <? i then k i
  else
    match fuel with
    | 0 => k i
    | S fuel =>
        CEnter i (match ms !! i with
                  | Some m => run_mw (ioxd_next_run fuel ms handler) m (S i) k
                  | None => then_ handler (k (S i))
                  end)
    end.

(** A handler behind a chain, called directly when there is none. *)
Definition run (ms : list mprog) (handler : prog) : cprog :=
  if length ms =? 0 then CEnter 0 (then_ handler CDone) else ioxd_next_run (S (length ms)) ms handler 0 (fun _ => CDone).

(** The calls alone. *)
Fixpoint calls (p : cprog) : prog :=
  match p with
  | CDone => PDone
  | CReply o k => PReply o (fun b => calls (k b))
  | CBody o k => PBody o (fun rc d => calls (k rc d))
  | CAll k => PAll (fun s => calls (k s))
  | CEnter _ k => calls k
  end.

(** ** The dispatch *)

Definition set_route_params (r : ioxd_request) (ps : list (bytes * bytes)) (arena : bytes) : ioxd_request :=
  {| Headers.method := Headers.method r; target := target r; path := path r; query := query r; minor_version := minor_version r;
     Headers.headers := Headers.headers r; params := params r; params_arena := params_arena r; route_params := ps;
     req_content_length := req_content_length r; Headers.chunked := Headers.chunked r; req_keep_alive := req_keep_alive r;
     req_expect_continue := req_expect_continue r; route_arena := arena |}.

(** A handler and a middleware see the request as the router left it. *)
Abbreviation ioxd_handler := (ioxd_request -> prog).
Abbreviation ioxd_mw := (ioxd_request -> mprog).

(** [ioxd_text]: a null text writes nothing; these are literals. *)
Definition not_found : ioxd_handler := fun _ =>
  PReply (RHead (OStatus 404)) (fun _ => PReply (RWrite (lit "404 Not Found" ++ [10%Z])) (fun _ => PDone)).
Definition not_allowed : ioxd_handler := fun _ =>
  PReply (RWrite (lit "405 Method Not Allowed" ++ [10%Z])) (fun _ => PDone).

Definition root_mws {M X} (g : registry M X) : list M := match groups g !! 0 with Some gr => mws gr | None => [] end.

(** What it does to the reply first, then the chain: the endpoint's, or the root's around a fallback. *)
Definition ioxd__router_dispatch (g : registry ioxd_mw ioxd_handler) (r : ioxd_request) : prog :=
  let '(ep, caps, seen) := walk (segments (path r)) (g_tree g) (Headers.method r) [] [] in
  match ep with
  | Some ep =>
      let '(ps, arena) := decode_params (names ep) caps (route_arena r) 0 in
      let r := set_route_params r ps arena in
      calls (run (map (fun m => m r) (chain ep)) (fn ep r))
  | None =>
      if negb (length seen =? 0) then
        let allow := allow_value seen in
        let r := set_route_params r [] (match allow with Some t => blit (route_arena r) 0 (t ++ [0%Z]) | None => route_arena r end) in
        let chain_ := calls (run (map (fun m => m r) (root_mws g)) (not_allowed r)) in
        PReply (RHead (OStatus 405))
          (fun _ => match allow with Some t => PReply (RHead (OHeader (Some (lit "allow")) (Some t))) (fun _ => chain_) | None => chain_ end)
      else
        let r := set_route_params r [] (route_arena r) in
        calls (run (map (fun m => m r) (root_mws g)) (g_fallback g r))
  end.

(** ** Segments *)

(** The pieces between slashes; the segments are the ones that are not empty. *)
Fixpoint pieces (p : bytes) : list bytes :=
  match p with
  | [] => [[]]
  | c :: p => if (c =? ch "/")%Z then [] :: pieces p else match pieces p with f :: fs => (c :: f) :: fs | [] => [[c]] end
  end.
Definition is_seg (s : bytes) : bool := negb (length s =? 0).

Lemma pieces_cons p : exists f fs, pieces p = f :: fs.
Proof. destruct p as [|c p]; cbn [pieces]; [eauto|]. destruct (c =? ch "/")%Z; [eauto|]. destruct (pieces p); eauto. Qed.

Lemma pieces_slash a b : pieces (a ++ ch "/" :: b) = pieces a ++ pieces b.
Proof.
  induction a as [|c a IH]; [done|]. cbn [pieces app]. destruct (c =? ch "/")%Z; [by rewrite IH|].
  rewrite IH. destruct (pieces_cons a) as (f & fs & ->). done.
Qed.

Lemma pieces_one w : ch "/" ∉ w -> pieces w = [w].
Proof.
  induction w as [|c w IH]; intros Hw; [done|]. cbn [pieces]. destruct (Z.eqb_spec c (ch "/")) as [->|]; [set_solver|]. rewrite IH; [done|set_solver].
Qed.

Lemma skip_slashes_pieces p : List.filter is_seg (pieces (skip_slashes p)) = List.filter is_seg (pieces p).
Proof.
  induction p as [|c p IH]; [done|]. cbn [skip_slashes pieces]. destruct (Z.eqb_spec c (ch "/")) as [->|Hc]; [exact IH|].
  cbn [pieces]. by destruct (Z.eqb_spec c (ch "/")).
Qed.

Lemma skip_slashes_length p : length (skip_slashes p) <= length p.
Proof. induction p as [|c p IH]; [done|]. cbn [skip_slashes length]. destruct (_ =? _)%Z; cbn [length]; lia. Qed.

Lemma skip_slashes_head p c p' : skip_slashes p = c :: p' -> c <> ch "/".
Proof.
  induction p as [|d p IH]; [done|]. cbn [skip_slashes]. destruct (Z.eqb_spec d (ch "/")); [exact IH|]. by intros [= -> _].
Qed.

Lemma next_segment_pieces p :
  match next_segment p with
  | None => List.filter is_seg (pieces p) = []
  | Some (s, rest) => List.filter is_seg (pieces p) = s :: List.filter is_seg (pieces rest) /\ length rest < length p /\ s <> [] /\ ch "/" ∉ s
  end.
Proof.
  unfold next_segment. rewrite <- skip_slashes_pieces. pose proof (skip_slashes_length p) as Hl. pose proof (skip_slashes_head p) as Hh.
  destruct (skip_slashes p) as [|c q]; [done|]. cbn [length Nat.eqb]. specialize (Hh c q eq_refl). destruct (memchr (ch "/") (c :: q)) as [i|] eqn:E.
  - apply memchr_split in E as [E Hn]. destruct i as [|i]; [cbn in E; injection E as E; congruence|].
    assert (Hp : pieces (c :: q) = [take (S i) (c :: q)] ++ pieces (drop (S (S i)) (c :: q))).
    { rewrite E at 1. rewrite pieces_slash, pieces_one by done. done. }
    assert (Hd : drop (S i) (c :: q) = ch "/" :: drop (S (S i)) (c :: q)).
    { rewrite E at 1. rewrite drop_app_length'; [done|]. apply (f_equal length) in E. list_lia. }
    rewrite Hp, Hd. split; [done|]. split; [|done]. rewrite <- Hd. rewrite length_drop. cbn [length] in *. lia.
  - apply memchr_None in E. rewrite pieces_one by done. cbn [List.filter]. cbn [is_seg length Nat.eqb negb]. split; [|split; [|split; [done|]]].
    + change (S (length q)) with (length (c :: q)). by rewrite firstn_all, drop_all.
    + list_lia.
    + change (S (length q)) with (length (c :: q)). by rewrite firstn_all.
Qed.

Lemma segments_pieces p : segments p = List.filter is_seg (pieces p).
Proof.
  unfold segments. assert (Hf : length p < S (length p)) by lia. revert Hf. generalize (S (length p)) as fuel. intros fuel. revert p.
  induction fuel as [|fuel IH]; intros p Hf; [lia|]. cbn [segments_loop]. pose proof (next_segment_pieces p) as Hn.
  destruct (next_segment p) as [[s rest]|]; [|done]. destruct Hn as (-> & Hl & _). f_equal. apply IH. lia.
Qed.

Lemma segments_slash a b : segments (a ++ ch "/" :: b) = segments a ++ segments b.
Proof. rewrite !segments_pieces, pieces_slash. apply List.filter_app. Qed.

Lemma segments_join a b : a = [] \/ b = [] \/ nth (length a - 1) a 0%Z = ch "/" \/ nth 0 b 0%Z = ch "/" -> segments (a ++ b) = segments a ++ segments b.
Proof.
  intros [-> | [-> | [Ha | Hb]]]; [done|by rewrite !app_nil_r| |].
  - destruct a as [|x a _] using rev_ind; [done|]. rewrite length_app in Ha. cbn [length] in Ha. rewrite app_nth2 in Ha by lia.
    replace (length a + 1 - 1 - length a) with 0 in Ha by lia. cbn in Ha. subst x. rewrite <- app_assoc. cbn [app].
    rewrite !segments_slash. cbn. by rewrite app_nil_r.
  - destruct b as [|x b]; [done|]. cbn in Hb. subst x. rewrite segments_slash. f_equal. exact (eq_sym (segments_slash [] b)).
Qed.

(** *** The whole path *)

Definition no_nul (s : bytes) : Prop := 0%Z ∉ s.

Lemma prepend_segments part text : no_nul text -> segments (prepend part text) = segments part ++ segments text.
Proof.
  intros Ht. unfold prepend. destruct (negb _ && negb _ && negb _ && negb _) eqn:E; [apply segments_slash|]. apply segments_join.
  rewrite !andb_false_iff, !negb_false_iff, !Z.eqb_eq, Nat.eqb_eq in E. destruct E as [[[E | E] | E] | E]; [|destruct text as [|d text]|by right; right; left|by right; right; right].
  - left. by apply length_zero_iff_nil.
  - by right; left.
  - destruct Ht. cbn in E. rewrite E. constructor.
Qed.

Lemma prepend_nul part text : no_nul part -> no_nul text -> no_nul (prepend part text).
Proof. intros Hp Ht. unfold prepend, no_nul in *. assert (0%Z <> ch "/") by done. destruct (_ && _); set_solver. Qed.

Lemma prepend_length part text : length part + length text <= length (prepend part text) <= length part + length text + 1.
Proof. unfold prepend. destruct (_ && _); list_lia. Qed.

Section Tables.
Context {Mw Handler : Type}.
Implicit Types (g : registry Mw Handler) (n : node Mw Handler) (ep e : ioxd_endpoint Mw Handler) (es : list (ioxd_endpoint Mw Handler)).

(** ** The registry *)

(** A parent comes before its groups, the root alone has none, no list is over its array, every endpoint is in a
group that exists and is numbered by its place, no text holds a null; nothing stands in the tree before the build. *)
Record registry_wf g : Prop := {
  rw_root : exists ms, groups g !! 0 = Some {| parent := None; prefix := []; mws := ms |};
  rw_parent : forall i gr, groups g !! i = Some gr -> i <> 0 -> exists p, parent gr = Some p /\ p < i;
  rw_mws : Forall (fun gr => length (mws gr) <= IOXD_MAX_MW /\ no_nul (prefix gr)) (groups g);
  rw_current : g_current g < length (groups g);
  rw_count : g_n_eps g = length (g_first g);
  rw_ep : forall i ep, g_first g !! i = Some ep ->
    seq ep = i /\ group ep < length (groups g) /\ length (own ep) <= IOXD_MAX_MW /\ names ep = [] /\ no_nul (ep_path ep);
  rw_tree : g_built g = false -> g_tree g = empty_node []
}.

(** The calls of registration; a group or an endpoint is one that an earlier call returned. *)
Inductive reg_op :=
| GroupNew (parent_ : option nat) (prefix_ : bytes)
| GroupUse (group_ : option nat) (m : Mw)
| Use (m : Mw)
| Route (group_ : option nat) (method_ path_ : bytes) (fn_ : Handler)
| EndpointUse (endpoint : option nat) (m : Mw)
| GroupBegin (prefix_ : bytes) (ms : list Mw)
| GroupEnd
| GroupPop (open : option nat)
| Endpoint (method_ path_ : bytes) (fn_ : Handler) (ms : list Mw)
| Default (fn_ : Handler)
| Build.

Definition reg_do g (o : reg_op) : registry Mw Handler :=
  match o with
  | GroupNew p s => (ioxd_group_new g p s).2
  | GroupUse i m => ioxd_group_use g i m
  | Use m => ioxd_use g m
  | Route i m p f => (ioxd_route g i m p f).2
  | EndpointUse e m => ioxd_endpoint_use g e m
  | GroupBegin s ms => (ioxd__router_group_begin g s ms).2
  | GroupEnd => ioxd__router_group_end g
  | GroupPop o => ioxd__router_group_pop g o
  | Endpoint m p f ms => (ioxd__router_endpoint g m p f ms).2
  | Default f => ioxd_default g f
  | Build => ioxd__router_build g
  end.

(** What the calls take: pointers that earlier calls returned, C strings. *)
Definition known g (i : option nat) : Prop := match i with Some i => i < length (groups g) | None => True end.
Definition op_known g (o : reg_op) : Prop :=
  match o with
  | GroupNew i s => known g i /\ no_nul s
  | GroupUse i _ => known g i
  | Route i _ p _ => known g i /\ no_nul p
  | GroupBegin s _ => no_nul s
  | Endpoint _ p _ _ => no_nul p
  | _ => True
  end.

(** Program order: each call on what the calls before it left. *)
Inductive registered : registry Mw Handler -> list reg_op -> registry Mw Handler -> Prop :=
| reg_nil g : registered g [] g
| reg_cons g o os g' : op_known g o -> registered (reg_do g o) os g' -> registered g (o :: os) g'.

Lemma registry0_wf f : registry_wf (registry0 f).
Proof.
  split; cbn; try done.
  - by exists [].
  - intros [|i] gr Hi; done.
  - constructor; [split; [cbn; lia|done || apply not_elem_of_nil]|constructor].
  - lia.
Qed.

Lemma group_new_wf g p s : registry_wf g -> known g p -> no_nul s -> registry_wf (ioxd_group_new g p s).2 /\ (ioxd_group_new g p s).1 < length (groups (ioxd_group_new g p s).2).
Proof.
  intros [Hr Hp Hm Hc Hn He Ht] Hk Hs. split; [|cbn; list_lia]. destruct Hr as (ms0 & Hr). pose proof (lookup_lt_Some _ _ _ Hr) as Hl.
  split; cbn [ioxd_group_new snd set_groups groups g_current g_n_eps g_first g_built g_tree]; try done.
  - exists ms0. by rewrite lookup_app_l by lia.
  - intros i gr Hi Hi0. destruct (decide (i < length (groups g))); [rewrite lookup_app_l in Hi by done; eauto|].
    rewrite lookup_app_r in Hi by lia. apply list_lookup_singleton_Some in Hi as [Hi <-]. cbn. eexists. split; [done|]. destruct p; cbn in Hk; lia.
  - apply Forall_app. split; [done|]. constructor; [split; [cbn; lia|done || apply not_elem_of_nil]|constructor].
  - list_lia.
  - intros i ep Hi. specialize (He i ep Hi). rewrite length_app. cbn. naive_solver lia.
Qed.

Lemma set_current_wf g i : registry_wf g -> i < length (groups g) -> registry_wf (set_current g i).
Proof. intros [] Hi. by split. Qed.

Lemma group_use_wf g i m : registry_wf g -> registry_wf (ioxd_group_use g i m) /\ length (groups (ioxd_group_use g i m)) = length (groups g).
Proof.
  intros Hw. unfold ioxd_group_use. destruct (g_built g) eqn:Eb; [done|]. set (j := match i with Some i => i | None => 0 end).
  destruct (groups g !! j) as [gr|] eqn:E; [|done]. destruct (Nat.eqb_spec (length (mws gr)) IOXD_MAX_MW); [done|].
  destruct Hw as [Hr Hp Hm Hc Hn He Ht]. cbn. rewrite length_alter. split; [|done].
  split; cbn [set_groups groups g_current g_n_eps g_first g_built g_tree]; rewrite ?length_alter; try done.
  - destruct Hr as (ms & Hr). destruct (decide (j = 0)) as [->|].
    + rewrite list_lookup_alter_eq, Hr. cbn. eauto.
    + rewrite list_lookup_alter_ne by done. eauto.
  - intros k gk Hk Hk0. destruct (decide (j = k)) as [->|].
    + rewrite list_lookup_alter_eq, E in Hk. cbn in Hk. injection Hk as <-. cbn. eauto.
    + rewrite list_lookup_alter_ne in Hk by done. eauto.
  - apply Forall_alter; [done|]. intros gr' Hg' [Hl ?]. rewrite E in Hg'. injection Hg' as <-. cbn. split; [list_lia|done].
Qed.

Lemma group_uses_wf g i ms : registry_wf g ->
  registry_wf (fold_left (fun g m => ioxd_group_use g i m) ms g) /\ length (groups (fold_left (fun g m => ioxd_group_use g i m) ms g)) = length (groups g).
Proof.
  revert g. induction ms as [|m ms IH]; intros g Hw; [done|]. cbn. destruct (group_use_wf g i m Hw) as [Hw' Hl].
  destruct (IH _ Hw') as [? Hl']. split; [done|]. by rewrite Hl'.
Qed.

Lemma endpoint_use_wf g (e : option nat) m : registry_wf g -> registry_wf (ioxd_endpoint_use g e m).
Proof.
  intros Hw. unfold ioxd_endpoint_use. destruct e as [i|]; [|done]. destruct (g_built g) eqn:Eb; [done|].
  destruct (g_first g !! i) as [ep|] eqn:E; [|done]. destruct (Nat.eqb_spec (length (own ep)) IOXD_MAX_MW); [done|].
  destruct Hw as [Hr Hp Hm Hc Hn He Ht]. split; cbn [set_eps groups g_current g_n_eps g_first g_built g_tree]; rewrite ?length_alter; try done.
  intros k ek Hk. destruct (decide (i = k)) as [->|].
  - rewrite list_lookup_alter_eq, E in Hk. cbn in Hk. injection Hk as <-. cbn. specialize (He k ep E). rewrite length_app. cbn. naive_solver lia.
  - rewrite list_lookup_alter_ne in Hk by done. eauto.
Qed.

Lemma endpoint_uses_wf g (e : option nat) ms : registry_wf g -> registry_wf (fold_left (fun g m => ioxd_endpoint_use g e m) ms g).
Proof. revert g. induction ms as [|m ms IH]; intros g Hw; [done|]. cbn. apply IH. by apply endpoint_use_wf. Qed.

Lemma route_wf g i m p f : registry_wf g -> known g i -> no_nul p -> registry_wf (ioxd_route g i m p f).2.
Proof.
  intros Hw Hk Hs. unfold ioxd_route. destruct (g_built g) eqn:Eb; [done|]. destruct Hw as [Hr Hp Hm Hc Hn He Ht].
  split; cbn [snd set_eps groups g_current g_n_eps g_first g_built g_tree]; try done; [list_lia|].
  intros k ek Hki. destruct (decide (k < length (g_first g))); [rewrite lookup_app_l in Hki by done; eauto|].
  rewrite lookup_app_r in Hki by lia. apply list_lookup_singleton_Some in Hki as [Hki <-]. cbn. split; [lia|]. split; [|split; [lia|split; done]].
  destruct i; cbn in Hk; lia.
Qed.

Lemma group_end_wf g : registry_wf g -> registry_wf (ioxd__router_group_end g).
Proof.
  intros Hw. unfold ioxd__router_group_end. destruct (groups g !! g_current g) as [gr|] eqn:E; [|done]. destruct (parent gr) as [p|] eqn:Ep; [|done].
  apply set_current_wf; [done|]. destruct (decide (g_current g = 0)) as [H0|H0].
  - destruct (rw_root g Hw) as (ms & Hr). rewrite H0, Hr in E. injection E as <-. done.
  - destruct (rw_parent g Hw _ _ E H0) as (q & Hq & ?). rewrite Ep in Hq. injection Hq as ->. apply lookup_lt_Some in E. lia.
Qed.

Lemma build_wf g : registry_wf g -> registry_wf (ioxd__router_build g).
Proof. intros Hw. unfold ioxd__router_build. destruct (g_built g); [done|]. by destruct Hw; split. Qed.

Lemma reg_do_wf g o : registry_wf g -> op_known g o -> registry_wf (reg_do g o).
Proof.
  intros Hw Hk. destruct o as [p s|i m|m|i m p f|e m|s ms| |o|m p f ms|f|]; cbn [reg_do].
  - destruct Hk. by apply group_new_wf.
  - by apply group_use_wf.
  - unfold ioxd_use. destruct (g_built g); [done|]. by apply group_use_wf.
  - destruct Hk. by apply route_wf.
  - by apply endpoint_use_wf.
  - unfold ioxd__router_group_begin. destruct (group_new_wf g (Some (g_current g)) s Hw (rw_current g Hw) Hk) as [Hw1 Hi].
    destruct (ioxd_group_new _ _ _) as [i g1]. cbn in *. destruct (group_uses_wf g1 (Some i) (take IOXD_MAX_MW ms) Hw1) as [Hw2 Hl].
    apply set_current_wf; [done|]. exact (eq_ind_r (fun m => i < m) Hi Hl).
  - by apply group_end_wf.
  - destruct o; [by apply group_end_wf|done].
  - unfold ioxd__router_endpoint. pose proof (route_wf g (Some (g_current g)) m p f Hw (rw_current g Hw) Hk) as Hw1.
    destruct (ioxd_route _ _ _ _ _) as [e g1]. by apply endpoint_uses_wf.
  - unfold ioxd_default. destruct (g_built g) eqn:Eb; [done|]. destruct Hw; split; auto.
  - by apply build_wf.
Qed.

Lemma registered_wf g os g' : registered g os g' -> registry_wf g -> registry_wf g'.
Proof. induction 1; [done|]. auto using reg_do_wf. Qed.

(** *** Where an endpoint stands *)

(** The groups from the root down to one. *)
Inductive under (gs : list (ioxd_group Mw)) : nat -> list (ioxd_group Mw) -> Prop :=
| under_root gr : gs !! 0 = Some gr -> under gs 0 [gr]
| under_group i gr p path : gs !! i = Some gr -> parent gr = Some p -> under gs p path -> under gs i (path ++ [gr]).

Lemma groups_up_under g i : registry_wf g -> i < length (groups g) -> under (groups g) i (rev (groups_up (groups g) i)).
Proof.
  intros Hw. unfold groups_up. cut (forall fuel i, i < fuel -> i < length (groups g) -> under (groups g) i (rev (up fuel (groups g) i))).
  { intros Hc Hi. apply Hc; [lia|done]. }
  clear i. induction fuel as [|fuel IH]; intros i Hf Hi; [lia|]. cbn [up]. destruct (lookup_lt_is_Some_2 _ _ Hi) as (gr & Hgr). rewrite Hgr.
  destruct (decide (i = 0)) as [->|H0].
  - destruct (rw_root g Hw) as (ms & Hr). rewrite Hr in Hgr. injection Hgr as <-. cbn. by constructor.
  - destruct (rw_parent g Hw _ _ Hgr H0) as (p & Hp & Hlt). rewrite Hp. cbn [rev]. apply under_group with p; [done..|]. apply IH; lia.
Qed.

Lemma up_groups fuel gs i : Forall (fun gr => gr ∈ gs) (@up Mw fuel gs i).
Proof.
  revert i. induction fuel as [|fuel IH]; intros i; cbn [up]; [constructor|]. destruct (gs !! i) as [gr|] eqn:E; [|constructor].
  constructor; [by eapply list_elem_of_lookup_2|]. destruct (parent gr); [apply IH|constructor].
Qed.

Lemma fold_prepend l text : Forall (fun gr => no_nul (@prefix Mw gr)) l -> no_nul text ->
  segments (fold_left (fun text gr => prepend (prefix gr) text) l text) = concat (map (fun gr => segments (prefix gr)) (rev l)) ++ segments text.
Proof.
  revert text. induction l as [|gr l IH]; intros text Hl Ht; [done|]. inversion Hl as [|? ? Hg Hl']; subst. cbn [fold_left rev].
  rewrite IH by auto using prepend_nul. rewrite map_app, concat_app, prepend_segments by done. cbn. by rewrite app_nil_r, <- app_assoc.
Qed.

Lemma fold_chain (l : list (ioxd_group Mw)) c : fold_left (fun chain_ gr => mws gr ++ chain_) l c = concat (map mws (rev l)) ++ c.
Proof.
  revert c. induction l as [|gr l IH]; intros c; [done|]. cbn [fold_left rev]. rewrite IH, map_app, concat_app. cbn. by rewrite app_nil_r, <- app_assoc.
Qed.

Lemma endpoint_place g ep : registry_wf g -> ep ∈ g_first g -> exists path,
  under (groups g) (group ep) path /\
  segments (full_path (groups g) ep) = concat (map (fun gr => segments (prefix gr)) path) ++ segments (ep_path ep) /\
  flatten_chain (groups g) ep = concat (map mws path) ++ own ep.
Proof.
  intros Hw [i Hi]%list_elem_of_lookup. destruct (rw_ep g Hw i ep Hi) as (_ & Hg & _ & _ & Ht).
  exists (rev (groups_up (groups g) (group ep))). split; [by apply groups_up_under|]. unfold full_path, flatten_chain. rewrite fold_chain. split; [|done].
  assert (Hn : no_nul []) by apply not_elem_of_nil. rewrite fold_prepend, prepend_segments; [|done| |by apply prepend_nul].
  - by rewrite app_nil_r.
  - eapply Forall_impl; [apply up_groups|]. intros gr Hgr. pose proof (rw_mws g Hw) as Hm. rewrite Forall_forall in Hm. by apply Hm.
Qed.

(** ** The tree *)

(** A route's shape: a static segment, or a capture of any. *)
Abbreviation shape := (list (option bytes)).
Definition seg_shape (seg : bytes) : option bytes := if is_capture seg then None else Some seg.
Definition shape_of (segs : list bytes) : shape := map seg_shape segs.
Definition capture_names (segs : list bytes) : list bytes := map (drop 1) (List.filter is_capture segs).

(** The endpoints at a shape. *)
Fixpoint at_ (sh : shape) n : list (ioxd_endpoint Mw Handler) :=
  match sh with
  | [] => node_eps n
  | Some s :: sh => match kid (node_kids n) s with Some k => at_ sh k | None => [] end
  | None :: sh => match node_param n with Some p => at_ sh p | None => [] end
  end.

Definition named ep (l : list bytes) : ioxd_endpoint Mw Handler :=
  {| group := group ep; method := method ep; ep_path := ep_path ep; seq := seq ep; fn := fn ep; own := own ep;
     full := full ep; names := names ep ++ l; chain := chain ep |}.

Lemma named_nil ep : named ep [] = ep.
Proof. destruct ep. unfold named. cbn. by rewrite app_nil_r. Qed.

Lemma add_name_named ep s l : named (add_name ep s) l = named ep (s :: l).
Proof. unfold named. cbn. by rewrite <- app_assoc. Qed.

Lemma at_empty s sh : at_ sh (empty_node s) = [].
Proof. by destruct sh as [|[|] sh]. Qed.

Lemma insert_seg segs ep n : node_seg (insert segs ep n) = node_seg n.
Proof. destruct segs, n; cbn; [done|]. destruct (is_capture _); [|done]. by destruct (_ =? _). Qed.

Lemma kid_child (kids : list (node Mw Handler)) seg f s : (forall n, node_seg (f n) = node_seg n) ->
  kid (child kids seg f) s =
  if beq seg s then Some (f (match kid kids seg with Some k => k | None => empty_node seg end)) else kid kids s.
Proof.
  intros Hf. induction kids as [|k kids IH]; cbn [child kid].
  - rewrite Hf. cbn [empty_node node_seg]. by destruct (beq seg s).
  - destruct (beq (node_seg k) seg) eqn:E; cbn [kid].
    + rewrite Hf. apply beq_true in E. rewrite E. by destruct (beq seg s).
    + destruct (beq (node_seg k) s) eqn:Es; [|exact IH]. destruct (beq seg s) eqn:Eq; [|done].
      apply beq_true in Es, Eq. apply beq_false in E. congruence.
Qed.

Lemma at_insert segs ep n sh : length (names ep) <= IOXD_MAX_ROUTE_PARAMS ->
  at_ sh (insert segs ep n) =
  if bool_decide (shape_of segs = sh) && (length (names ep) + length (capture_names segs) <=? IOXD_MAX_ROUTE_PARAMS)
  then add_ep (named ep (capture_names segs)) (at_ sh n) else at_ sh n.
Proof.
  revert ep n sh. induction segs as [|seg segs IH]; intros ep [s kids param es] sh Hn; cbn [insert].
  - destruct sh as [|o sh].
    + cbn. rewrite Nat.add_0_r, named_nil. destruct (Nat.leb_spec (length (names ep)) IOXD_MAX_ROUTE_PARAMS); [done|lia].
    + by destruct o.
  - unfold shape_of, capture_names. cbn [map List.filter]. fold (shape_of segs). unfold seg_shape. destruct (is_capture seg) eqn:Ec.
    + destruct (Nat.eqb_spec (length (names ep)) IOXD_MAX_ROUTE_PARAMS) as [Hm|Hm].
      { destruct (Nat.leb_spec (length (names ep) + length (map (drop 1) (seg :: List.filter is_capture segs))) IOXD_MAX_ROUTE_PARAMS); [cbn [map length] in *; lia|].
        by rewrite andb_false_r. }
      destruct sh as [|[s'|] sh]; [done|done|]. cbn [at_ node_param]. rewrite IH by (cbn; list_lia).
      assert (Ha : at_ sh (match param with Some p => p | None => empty_node [] end) = match param with Some p => at_ sh p | None => [] end)
        by (destruct param; [done|apply at_empty]).
      rewrite Ha, add_name_named. fold (capture_names segs). cbn [map length]. fold (capture_names segs).
      replace (length (names (add_name ep (drop 1 seg))) + length (capture_names segs)) with (length (names ep) + S (length (capture_names segs))) by (cbn; list_lia).
      by rewrite (bool_decide_ext (None :: shape_of segs = None :: sh) (shape_of segs = sh)) by (split; [by intros [= ->]|by intros ->]).
    + fold (capture_names segs). destruct sh as [|[s'|] sh]; [done| |done]. cbn [at_ node_kids]. rewrite kid_child by (intros; apply insert_seg).
      destruct (beq seg s') eqn:Eb.
      * apply beq_true in Eb as ->. rewrite IH by done.
        assert (Ha : at_ sh (match kid kids s' with Some k => k | None => empty_node s' end) = match kid kids s' with Some k => at_ sh k | None => [] end)
          by (destruct (kid kids s'); [done|apply at_empty]).
        rewrite Ha. by rewrite (bool_decide_ext (Some s' :: shape_of segs = Some s' :: sh) (shape_of segs = sh)) by (split; [by intros [= ->]|by intros ->]).
      * apply beq_false in Eb. rewrite (bool_decide_false (Some seg :: shape_of segs = Some s' :: sh)) by (by intros [= ? ?]). done.
Qed.

(** *** What the table holds *)

(** The endpoints the build takes: resolved, their captures named, no more of them than a request has room for. *)
Definition served (gs : list (ioxd_group Mw)) ep : ioxd_endpoint Mw Handler := named (resolved gs ep) (capture_names (segments (full_path gs ep))).
Definition fits ep : bool := length (capture_names (segments (full ep))) <=? IOXD_MAX_ROUTE_PARAMS.
Definition table g : list (ioxd_endpoint Mw Handler) := List.filter fits (map (served (groups g)) (g_first g)).
Definition ep_shape ep : shape := shape_of (segments (full ep)).
Definition at_shape (sh : shape) es : list (ioxd_endpoint Mw Handler) :=
  List.filter (fun ep => bool_decide (ep_shape ep = sh)) es.

Lemma at_tree gs eps t sh : (Forall (fun ep => names ep = []) eps) ->
  at_ sh (fold_left (insert_ep gs) eps t) = fold_left (fun es ep => add_ep ep es) (at_shape sh (List.filter fits (map (served gs) eps))) (at_ sh t).
Proof.
  revert t. induction eps as [|ep eps IH]; intros t Hf; [done|]. inversion Hf as [|? ? Hn Hf']; subst. cbn [fold_left map List.filter].
  rewrite IH by done. unfold insert_ep. change (full (resolved gs ep)) with (full_path gs ep).
  rewrite at_insert by (change (length (names ep) <= IOXD_MAX_ROUTE_PARAMS); rewrite Hn; cbn; lia).
  change (names (resolved gs ep)) with (names ep). rewrite Hn. cbn [length Nat.add].
  change (fits (served gs ep)) with (length (capture_names (segments (full_path gs ep))) <=? IOXD_MAX_ROUTE_PARAMS).
  destruct (_ <=? IOXD_MAX_ROUTE_PARAMS); [|by rewrite andb_false_r]. rewrite andb_true_r. unfold at_shape at 2. cbn [List.filter].
  change (ep_shape (served gs ep)) with (shape_of (segments (full_path gs ep))). by destruct (bool_decide _).
Qed.

(** The first endpoint of each method. *)
Lemma add_ep_elem ep es e : e ∈ add_ep ep es -> e ∈ es \/ e = ep.
Proof. unfold add_ep. destruct (existsb _ es); [by left|]. set_solver. Qed.

Lemma existsb_method m es : existsb (same_method m) es = true <-> exists e, e ∈ es /\ method e = m.
Proof. rewrite existsb_exists. unfold same_method. by setoid_rewrite beq_true; setoid_rewrite list_elem_of_In. Qed.

Definition firsts es := fold_left (fun es ep => add_ep ep es) es [].

Lemma firsts_snoc es ep : firsts (es ++ [ep]) = add_ep ep (firsts es).
Proof. unfold firsts. by rewrite fold_left_app. Qed.

Lemma firsts_method es m : (exists e, e ∈ firsts es /\ method e = m) <-> (exists e, e ∈ es /\ method e = m).
Proof.
  induction es as [|ep es IH] using rev_ind; [done|]. rewrite firsts_snoc. unfold add_ep.
  destruct (existsb _ (firsts es)) eqn:E.
  - rewrite IH. split; [intros (e & ? & ?); exists e; set_solver|]. intros (e & [He | ->%list_elem_of_singleton]%elem_of_app & Hm); [eauto|].
    apply existsb_method in E. rewrite <- IH. destruct E as (e' & ? & ?). exists e'. by rewrite <- Hm.
  - split.
    + intros (e & [He | ->%list_elem_of_singleton]%elem_of_app & Hm); [|exists ep; set_solver]. destruct (proj1 IH) as (e' & ? & ?); [eauto|].
      exists e'. set_solver.
    + intros (e & [He | ->%list_elem_of_singleton]%elem_of_app & Hm); [|exists ep; set_solver]. destruct (proj2 IH) as (e' & ? & ?); [eauto|].
      exists e'. set_solver.
Qed.

Lemma firsts_elem es e : e ∈ firsts es <-> exists l1 l2, es = l1 ++ e :: l2 /\ forall e', e' ∈ l1 -> method e' <> method e.
Proof.
  induction es as [|ep es IH] using rev_ind.
  - split; [set_solver|]. by intros ([|] & l2 & ? & _).
  - rewrite firsts_snoc. unfold add_ep. pose proof (existsb_method (method ep) (firsts es)) as Hx. rewrite firsts_method in Hx. split.
    + destruct (existsb _ (firsts es)) eqn:E.
      * intros (l1 & l2 & -> & ?)%IH. exists l1, (l2 ++ [ep]). by rewrite <- app_assoc.
      * intros [(l1 & l2 & -> & ?)%IH | ->%list_elem_of_singleton]%elem_of_app; [exists l1, (l2 ++ [ep]); by rewrite <- app_assoc|].
        exists es, []. split; [done|]. intros e' He' Hm. by discriminate (proj2 Hx (ex_intro _ e' (conj He' Hm))).
    + intros (l1 & l2 & Hes & Hm). destruct l2 as [|x l2 _] using rev_ind.
      * apply app_inj_tail in Hes as [-> ->]. destruct (existsb _ (firsts l1)) eqn:E; [|set_solver]. destruct (proj1 Hx eq_refl) as (e' & He & Hme).
        by destruct (Hm e' He).
      * rewrite app_comm_cons, app_assoc in Hes. apply app_inj_tail in Hes as [Hes ->]. assert (e ∈ firsts es) by (apply IH; eauto).
        destruct (existsb _ _); set_solver.
Qed.

(** *** The endpoint of a node *)

Definition answers (m : bytes) ep : Prop := method ep = m \/ m = lit "HEAD" /\ method ep = lit "GET".

Lemma same_method_true m ep : same_method m ep = true <-> method ep = m.
Proof. apply beq_true. Qed.

Lemma endpoint_for_Some es m get e : endpoint_for_loop es m get = Some e ->
  e ∈ es /\ method e = m \/
  m = lit "HEAD" /\ (forall e', e' ∈ es -> method e' <> m) /\ (e ∈ es /\ method e = lit "GET" \/ get = Some e).
Proof.
  revert get. induction es as [|ep es IH]; intros get; cbn [endpoint_for_loop].
  - destruct (beq m (lit "HEAD")) eqn:E; [|done]. apply beq_true in E. intros ->. right. set_solver.
  - destruct (same_method m ep) eqn:Em.
    + apply same_method_true in Em. intros [= ->]. set_solver.
    + apply beq_false in Em. destruct (same_method (lit "GET") ep) eqn:Eg.
      * apply same_method_true in Eg. intros [[? ?] | (? & ? & [[? ?] | [= ->]])]%IH; set_solver.
      * intros [[? ?] | (? & ? & [[? ?] | ->])]%IH; set_solver.
Qed.

Lemma endpoint_for_None es m get : endpoint_for_loop es m get = None ->
  (forall e', e' ∈ es -> method e' <> m) /\ (m = lit "HEAD" -> get = None /\ forall e', e' ∈ es -> method e' <> lit "GET").
Proof.
  revert get. induction es as [|ep es IH]; intros get; cbn [endpoint_for_loop].
  - destruct (beq m (lit "HEAD")) eqn:E; [intros ->; set_solver|]. apply beq_false in E. set_solver.
  - destruct (same_method m ep) eqn:Em; [done|]. apply beq_false in Em. destruct (same_method (lit "GET") ep) eqn:Eg.
    + intros [? Hh]%IH. split; [set_solver|]. intros [? _]%Hh. done.
    + apply beq_false in Eg. intros [? Hh]%IH. split; [set_solver|]. intros [? ?]%Hh. set_solver.
Qed.

Lemma endpoint_for_None_answers es m e : endpoint_for_loop es m None = None -> e ∈ es -> answers m e -> False.
Proof. intros [H1 H2]%endpoint_for_None He [Hm | [Hm Hg]]; [by eapply H1|]. by eapply (proj2 (H2 Hm)). Qed.

(** *** The walk *)

(** A path takes a route's segments, each static one as it is. *)
Inductive takes : shape -> list bytes -> list bytes -> Prop :=
| takes_end : takes [] [] []
| takes_static s sh segs caps : takes sh segs caps -> takes (Some s :: sh) (s :: segs) caps
| takes_capture s sh segs caps : takes sh segs caps -> takes (None :: sh) (s :: segs) (s :: caps).

(** The first difference of two shapes is a static segment of the first. *)
Definition static_first (a b : shape) : Prop := exists pre s a' b', a = pre ++ Some s :: a' /\ b = pre ++ None :: b'.

(** Every way to take a path with at most so many captures, static segments first. *)
Fixpoint ways (segs : list bytes) (room : nat) : list (shape * list bytes) :=
  match segs with
  | [] => [([], [])]
  | seg :: segs =>
      map (fun w => (Some seg :: w.1, w.2)) (ways segs room) ++
      match room with 0 => [] | S room => map (fun w => (None :: w.1, seg :: w.2)) (ways segs room) end
  end.

Lemma ways_elem segs room sh caps : (sh, caps) ∈ ways segs room <-> takes sh segs caps /\ length caps <= room.
Proof.
  revert room sh caps. induction segs as [|seg segs IH]; intros room sh caps; cbn [ways].
  - rewrite list_elem_of_singleton. split; [intros [= -> ->]; split; [constructor|cbn; lia]|]. intros [Ht _]. by inversion Ht.
  - rewrite elem_of_app, list_elem_of_fmap. split.
    + intros [([sh' caps'] & [= -> ->] & [? ?]%IH) | Hin]; [split; [by constructor|done]|]. destruct room as [|room]; [set_solver|].
      apply list_elem_of_fmap in Hin as ([sh' caps'] & [= -> ->] & [? ?]%IH). split; [by constructor|cbn; lia].
    + intros [Ht Hl]. inversion Ht as [|s sh' segs' caps' Ht'|s sh' segs' caps' Ht']; subst.
      * left. exists (sh', caps). split; [done|]. by apply IH.
      * right. cbn in Hl. destruct room as [|room]; [lia|]. apply list_elem_of_fmap. exists (sh', caps'). split; [done|]. apply IH. split; [done|lia].
Qed.

Lemma ways_order segs room l1 sh caps l2 w : ways segs room = l1 ++ (sh, caps) :: l2 -> w ∈ l2 -> static_first sh w.1.
Proof.
  revert room l1 sh caps l2 w. induction segs as [|seg segs IH]; intros room l1 sh caps l2 w Hw Hin; cbn [ways] in Hw.
  - destruct l1 as [|? [|]]; [injection Hw as _ _ <-; set_solver|done|done].
  - assert (Hcons : forall o, static_first sh w.1 -> static_first (o :: sh) (o :: w.1)).
    { intros o (pre & s & a & b & -> & Hb). exists (o :: pre), s, a, b. by rewrite Hb. }
    assert (Hpush : forall (f : shape * list bytes -> shape * list bytes) o room l1 sh caps l2 w, (forall w, (f w).1 = o :: w.1) ->
      map f (ways segs room) = l1 ++ (sh, caps) :: l2 -> w ∈ l2 -> static_first sh w.1).
    { clear - IH. intros f o room l1 sh caps l2 w Hf Hm Hin. change (map f (ways segs room)) with (f <$> ways segs room) in Hm.
      apply fmap_app_inv in Hm as (k1 & k2 & -> & Hk & Hw). destruct k2 as [|[sh' caps'] k2]; [done|]. cbn in Hk. injection Hk as Hs ->.
      apply list_elem_of_fmap in Hin as (w' & -> & Hin). rewrite Hf. pose proof (Hf (sh', caps')) as Hf'. rewrite <- Hs in Hf'. cbn in Hf'. subst sh.
      destruct (IH _ _ _ _ _ w' Hw Hin) as (pre & s & a & b & -> & Hb). exists (o :: pre), s, a, b. by rewrite Hb. }
    apply app_eq_inv in Hw as [(k & E1 & E2) | (k & E1 & E2)].
    + destruct k as [|x k].
      * cbn in E2. destruct room as [|room]; [done|]. eapply (Hpush (fun w => (None :: w.1, seg :: w.2)) None room []); [done|exact (eq_sym E2)|done].
      * cbn in E2. injection E2 as <- ->. apply elem_of_app in Hin as [Hin|Hin].
        -- eapply (Hpush (fun w => (Some seg :: w.1, w.2)) (Some seg) room l1); [done|exact E1|done].
        -- assert (Hx : (sh, caps) ∈ map (fun w : shape * list bytes => (Some seg :: w.1, w.2)) (ways segs room)) by (rewrite E1; set_solver).
           apply list_elem_of_fmap in Hx as ([sh' caps'] & [= -> ->] & _). destruct room as [|room]; [set_solver|].
           apply list_elem_of_fmap in Hin as ([sh2 caps2] & -> & _). by exists [], seg, sh', sh2.
    + destruct room as [|room]; [by destruct k|]. eapply (Hpush (fun w => (None :: w.1, seg :: w.2)) None room k); [done|exact E2|done].
Qed.

(** The first way whose endpoints answer, and the endpoints of the ways tried, as many as are remembered. *)
Definition see (es : list (ioxd_endpoint Mw Handler)) (seen : list (list (ioxd_endpoint Mw Handler))) :=
  if negb (length es =? 0) && (length seen <? SEEN_MAX) then seen ++ [es] else seen.
Fixpoint search (ws : list (shape * list bytes)) (look : shape -> list (ioxd_endpoint Mw Handler)) (m : bytes) (seen : list (list (ioxd_endpoint Mw Handler))) :
  option (ioxd_endpoint Mw Handler * shape * list bytes) * list (list (ioxd_endpoint Mw Handler)) :=
  match ws with
  | [] => (None, seen)
  | (sh, caps) :: ws =>
      match endpoint_for_loop (look sh) m None with
      | Some ep => (Some (ep, sh, caps), see (look sh) seen)
      | None => search ws look m (see (look sh) seen)
      end
  end.

Lemma search_app ws1 ws2 look m seen : search (ws1 ++ ws2) look m seen =
  match search ws1 look m seen with (Some r, seen) => (Some r, seen) | (None, seen) => search ws2 look m seen end.
Proof. revert seen. induction ws1 as [|[sh caps] ws1 IH]; intros seen; cbn [search app]; [done|]. by destruct (endpoint_for_loop _ _ _). Qed.

Lemma search_map f (fs : shape -> shape) (fc : list bytes -> list bytes) ws look m seen : (forall w, f w = (fs w.1, fc w.2)) ->
  search (map f ws) look m seen =
  let '(r, seen) := search ws (fun sh => look (fs sh)) m seen in (match r with Some (ep, sh, caps) => Some (ep, fs sh, fc caps) | None => None end, seen).
Proof.
  intros Hf. revert seen. induction ws as [|[sh caps] ws IH]; intros seen; cbn [map search]; [done|]. rewrite Hf. cbn [fst snd].
  by destruct (endpoint_for_loop _ _ _).
Qed.

Lemma search_none ws m seen : search ws (fun _ => []) m seen = (None, seen).
Proof. induction ws as [|[sh caps] ws IH]; [done|]. cbn. by destruct (beq m _). Qed.

Lemma search_ext ws look look' m seen : (forall sh, look sh = look' sh) -> search ws look m seen = search ws look' m seen.
Proof. intros Hl. revert seen. induction ws as [|[sh caps] ws IH]; intros seen; [done|]. cbn [search]. rewrite Hl. by destruct (endpoint_for_loop _ _ _). Qed.

Lemma see_nodes n (seen : list (node Mw Handler)) :
  map node_eps (if negb (length (node_eps n) =? 0) && (length seen <? SEEN_MAX) then seen ++ [n] else seen) = see (node_eps n) (map node_eps seen).
Proof. unfold see. rewrite length_map. destruct (_ && _); [by rewrite map_app|done]. Qed.

Lemma walk_search segs n m caps seen r cs seen' : length caps <= IOXD_MAX_ROUTE_PARAMS -> walk segs n m caps seen = (r, cs, seen') ->
  match search (ways segs (IOXD_MAX_ROUTE_PARAMS - length caps)) (fun sh => at_ sh n) m (map node_eps seen) with
  | (Some (ep, sh, c), s) => r = Some ep /\ cs = caps ++ c /\ map node_eps seen' = s
  | (None, s) => r = None /\ cs = caps /\ map node_eps seen' = s
  end.
Proof.
  revert n caps seen r cs seen'. induction segs as [|seg segs IH]; intros n caps seen r cs seen' Hc Hw; cbn [walk ways] in *.
  - injection Hw as <- <- <-. cbn [search at_]. rewrite see_nodes. unfold endpoint_for. destruct (endpoint_for_loop _ _ _); [|done]. by rewrite app_nil_r.
  - rewrite search_app, (search_map _ (cons (Some seg)) (fun c => c)) by done. cbn [at_].
    destruct (match kid (node_kids n) seg with Some k => walk segs k m caps seen | None => (None, caps, seen) end) as [[e1 c1] s1] eqn:E1.
    assert (H1 : match search (ways segs (IOXD_MAX_ROUTE_PARAMS - length caps)) (fun sh => match kid (node_kids n) seg with Some k => at_ sh k | None => [] end) m (map node_eps seen) with
      | (Some (ep, sh, c), s) => e1 = Some ep /\ c1 = caps ++ c /\ map node_eps s1 = s
      | (None, s) => e1 = None /\ c1 = caps /\ map node_eps s1 = s end).
    { destruct (kid (node_kids n) seg) as [k|]; [by apply IH|]. rewrite search_none. by injection E1 as <- <- <-. }
    clear E1. destruct (search _ _ m (map node_eps seen)) as [[[[ep sh] c]|] s]; destruct H1 as (-> & -> & <-).
    + by injection Hw as <- <- <-.
    + destruct (IOXD_MAX_ROUTE_PARAMS - length caps) as [|room] eqn:Er.
      * replace (length caps <? IOXD_MAX_ROUTE_PARAMS) with false in Hw by (symmetry; apply Nat.ltb_ge; lia).
        destruct (node_param n); injection Hw as <- <- <-; done.
      * replace (length caps <? IOXD_MAX_ROUTE_PARAMS) with true in Hw by (symmetry; apply Nat.ltb_lt; lia).
        rewrite (search_map _ (cons None) (cons seg)) by done. cbn [at_]. destruct (node_param n) as [p|].
        -- destruct (walk segs p m (caps ++ [seg]) s1) as [[e2 c2] s2] eqn:E2. apply IH in E2; [|list_lia].
           replace (IOXD_MAX_ROUTE_PARAMS - length (caps ++ [seg])) with room in E2 by list_lia.
           destruct (search _ _ m (map node_eps s1)) as [[[[ep sh] c]|] s]; destruct E2 as (-> & -> & <-); injection Hw as <- <- <-; [|done].
           by rewrite <- app_assoc.
        -- rewrite search_none. by injection Hw as <- <- <-.
Qed.

(** What the search found, or that nothing answers; what was seen on the way. *)
Lemma search_spec ws look m seen r s : search ws look m seen = (r, s) ->
  match r with
  | Some (ep, sh, caps) => exists l1 l2, ws = l1 ++ (sh, caps) :: l2 /\ endpoint_for_loop (look sh) m None = Some ep /\
      forall w, w ∈ l1 -> endpoint_for_loop (look w.1) m None = None
  | None => (forall w, w ∈ ws -> endpoint_for_loop (look w.1) m None = None) /\ s = fold_left (fun seen w => see (look w.1) seen) ws seen
  end.
Proof.
  revert seen. induction ws as [|[sh caps] ws IH]; intros seen; cbn [search].
  - intros [= <- <-]. split; [set_solver|done].
  - destruct (endpoint_for_loop (look sh) m None) as [ep|] eqn:E.
    + intros [= <- <-]. exists [], ws. split; [done|]. split; [done|set_solver].
    + intros Hr%IH. destruct r as [[[ep sh'] caps']|].
      * destruct Hr as (l1 & l2 & -> & ? & Hl). exists ((sh, caps) :: l1), l2. split; [done|]. split; [done|]. intros w [-> | ?]%elem_of_cons; [done|by apply Hl].
      * destruct Hr as [Hl ->]. split; [|done]. intros w [-> | ?]%elem_of_cons; [done|by apply Hl].
Qed.

(** *** The table and the tree built from it *)

Lemma at_build g sh : registry_wf g -> g_built g = false -> at_ sh (g_tree (ioxd__router_build g)) = firsts (at_shape sh (table g)).
Proof.
  intros Hw Hb. unfold ioxd__router_build. rewrite Hb. cbn [g_tree]. rewrite (rw_tree g Hw Hb), at_tree, at_empty; [done|].
  apply Forall_forall. intros ep [i Hi]%list_elem_of_lookup. by apply (rw_ep g Hw i ep Hi).
Qed.

Lemma at_shape_elem sh es e : e ∈ at_shape sh es <-> e ∈ es /\ ep_shape e = sh.
Proof. unfold at_shape. rewrite !list_elem_of_In, filter_In. by rewrite bool_decide_eq_true. Qed.

(** One route before another: a shape that is static first; of the same shape, the method as it is before GET for HEAD, and the first registered. *)
Definition preferred (m : bytes) (a b : ioxd_endpoint Mw Handler) : Prop :=
  static_first (ep_shape a) (ep_shape b) \/
  ep_shape a = ep_shape b /\ (method b = m -> method a = m) /\ (method a = method b -> seq a <= seq b).

Definition takes_path ep (p : bytes) (caps : list bytes) : Prop := takes (ep_shape ep) (segments p) caps.

Definition is_hole (o : option bytes) : bool := match o with None => true | Some _ => false end.

Lemma captures_shape segs : length (capture_names segs) = length (List.filter is_hole (shape_of segs)).
Proof.
  induction segs as [|s segs IH]; [done|]. unfold capture_names, shape_of in *. cbn [map List.filter]. unfold seg_shape at 1.
  destruct (is_capture s); cbn [map List.filter length is_hole]; [by rewrite IH|exact IH].
Qed.

Lemma takes_caps sh segs caps : takes sh segs caps -> length caps = length (List.filter is_hole sh).
Proof.
  induction 1 as [|s sh segs caps _ IH|s sh segs caps _ IH]; cbn [List.filter is_hole length]; [done|done|by rewrite IH].
Qed.

Lemma table_fits g ep : ep ∈ table g -> length (capture_names (segments (full ep))) <= IOXD_MAX_ROUTE_PARAMS.
Proof. unfold table. rewrite list_elem_of_In, filter_In. intros [_ Hf]. by apply Nat.leb_le. Qed.

Lemma table_way g ep p caps : ep ∈ table g -> takes_path ep p caps -> (ep_shape ep, caps) ∈ ways (segments p) IOXD_MAX_ROUTE_PARAMS.
Proof. intros Ht%table_fits Hp. apply ways_elem. split; [done|]. rewrite (takes_caps _ _ _ Hp). unfold ep_shape. by rewrite <- captures_shape. Qed.

Abbreviation ordered := (StronglySorted (fun a b : ioxd_endpoint Mw Handler => seq a < seq b)).

Lemma ordered_filter f es : ordered es -> ordered (List.filter f es).
Proof.
  induction 1 as [|ep es Hs IH Hf]; cbn [List.filter]; [constructor|]. destruct (f ep); [|done]. constructor; [done|].
  apply Forall_forall. intros x [Hx _]%list_elem_of_In%filter_In. rewrite Forall_forall in Hf. by apply Hf, list_elem_of_In.
Qed.

Lemma ordered_table g : registry_wf g -> ordered (table g).
Proof.
  intros Hw. apply ordered_filter. pose proof (fun i ep Hi => proj1 (rw_ep g Hw i ep Hi)) as Hs. revert Hs.
  generalize (g_first g) as es. induction es as [|ep es IH] using rev_ind; intros Hs; [constructor|]. rewrite map_app. apply StronglySorted_app. split; [|split].
  - intros a b [x [-> [i Hi]%list_elem_of_lookup]]%list_elem_of_fmap ->%list_elem_of_singleton. change (seq x < seq ep).
    rewrite (Hs (length es) ep) by apply list_lookup_middle, eq_refl. rewrite (Hs i x) by (by apply lookup_app_l_Some). by eapply lookup_lt_Some.
  - apply IH. intros i x Hi. apply Hs. by apply lookup_app_l_Some.
  - constructor; constructor.
Qed.

Lemma ordered_before es l1 e l2 e' : ordered es -> es = l1 ++ e :: l2 -> e' ∈ l2 -> seq e < seq e'.
Proof. intros Ho -> Hin. apply StronglySorted_app in Ho as (_ & _ & Ho). inversion Ho as [|? ? _ Hf]; subst. rewrite Forall_forall in Hf. by apply Hf. Qed.

Lemma lookup_spec g p m r caps seen : registry_wf g -> g_built g = false ->
  walk (segments p) (g_tree (ioxd__router_build g)) m [] [] = (r, caps, seen) ->
  match r with
  | Some ep => ep ∈ table g /\ takes_path ep p caps /\ answers m ep /\
      forall ep' caps', ep' ∈ table g -> takes_path ep' p caps' -> answers m ep' -> preferred m ep ep'
  | None => (forall ep' caps', ep' ∈ table g -> takes_path ep' p caps' -> ~ answers m ep') /\
      map node_eps seen = fold_left (fun seen w => see (firsts (at_shape w.1 (table g))) seen) (ways (segments p) IOXD_MAX_ROUTE_PARAMS) []
  end.
Proof.
  intros Hw Hb Hwalk. apply walk_search in Hwalk; [|cbn; lia]. cbn [length map Nat.sub app] in Hwalk.
  rewrite (search_ext _ _ (fun sh => firsts (at_shape sh (table g)))) in Hwalk by (intros; by apply at_build). rewrite Nat.sub_0_r in Hwalk.
  destruct (search _ _ m []) as [[[[ep sh] c]|] s] eqn:E; destruct Hwalk as (-> & -> & Hs); apply search_spec in E.
  - destruct E as (l1 & l2 & Hws & He & Hl1). assert (Hin : ep ∈ firsts (at_shape sh (table g)) /\ (method ep = m \/ m = lit "HEAD" /\ method ep = lit "GET" /\
      forall e', e' ∈ firsts (at_shape sh (table g)) -> method e' <> m)).
    { apply endpoint_for_Some in He as [[? ?] | (? & ? & [[? ?] | ?])]; naive_solver. }
    destruct Hin as (Hin & Hans). pose proof Hin as (k1 & k2 & Hk & Hfirst)%firsts_elem.
    assert (Ht : ep ∈ at_shape sh (table g)) by (rewrite Hk; set_solver). apply at_shape_elem in Ht as [Ht Hsh].
    assert (Hway : takes sh (segments p) c /\ length c <= IOXD_MAX_ROUTE_PARAMS) by (apply ways_elem; rewrite Hws; set_solver).
    split; [done|]. split; [unfold takes_path; rewrite Hsh; exact (proj1 Hway)|]. split; [unfold answers; naive_solver|].
    intros ep' caps' Ht' Hp' Ha'. pose proof (table_way g ep' p caps' Ht' Hp') as Hw'. rewrite Hws in Hw'. apply elem_of_app in Hw' as [Hw' | [Hw' | Hw']%elem_of_cons].
    + exfalso. specialize (Hl1 _ Hw'). cbn [fst] in Hl1. destruct Ha' as [Hm | [Hm Hg]].
      * destruct (proj2 (firsts_method (at_shape (ep_shape ep') (table g)) (method ep'))) as (x & Hx & Hxm); [exists ep'; by rewrite at_shape_elem|].
        eapply endpoint_for_None_answers; [exact Hl1|exact Hx|]. left. congruence.
      * destruct (proj2 (firsts_method (at_shape (ep_shape ep') (table g)) (method ep'))) as (x & Hx & Hxm); [exists ep'; by rewrite at_shape_elem|].
        eapply endpoint_for_None_answers; [exact Hl1|exact Hx|]. right. split; [done|congruence].
    + injection Hw' as Hsh' _. right. rewrite Hsh. split; [done|]. assert (Hin' : ep' ∈ at_shape sh (table g)) by (by rewrite at_shape_elem). split.
      * intros Hm. destruct Hans as [? | (_ & _ & Hno)]; [done|]. destruct (proj2 (firsts_method (at_shape sh (table g)) m)) as (x & Hx & Hxm); [eauto|].
        by destruct (Hno x Hx).
      * intros Hm. rewrite Hk in Hin'. apply elem_of_app in Hin' as [Hin' | [-> | Hin']%elem_of_cons]; [by destruct (Hfirst ep' Hin')|done|].
        apply Nat.lt_le_incl. eapply ordered_before; [|exact Hk|exact Hin']. by apply ordered_filter, ordered_table.
    + left. rewrite Hsh. exact (ways_order _ _ _ _ _ _ _ Hws Hw').
  - destruct E as [Hno ->]. split; [|exact Hs]. intros ep' caps' Ht' Hp' Ha'. pose proof (Hno _ (table_way g ep' p caps' Ht' Hp')) as Hn. cbn [fst] in Hn.
    destruct (proj2 (firsts_method (at_shape (ep_shape ep') (table g)) (method ep'))) as (x & Hx & Hxm); [exists ep'; by rewrite at_shape_elem|].
    eapply endpoint_for_None_answers; [exact Hn|exact Hx|]. unfold answers in *. by rewrite Hxm.
Qed.

(** *** The methods of a 405 *)

Lemma insert_seq_elem out ep e : e ∈ insert_seq out ep <-> e = ep \/ e ∈ out.
Proof.
  induction out as [|o out IH]; cbn [insert_seq]; [set_solver|]. destruct (seq o <? seq ep); [|set_solver]. rewrite !elem_of_cons, IH. naive_solver.
Qed.

Lemma insert_seq_ordered out ep : ordered out -> (forall o, o ∈ out -> seq o <> seq ep) -> ordered (insert_seq out ep).
Proof.
  induction 1 as [|o out Ho IH Hf]; intros Hne; cbn [insert_seq]; [constructor; constructor|]. destruct (Nat.ltb_spec (seq o) (seq ep)) as [Hlt|Hge].
  - constructor; [apply IH; set_solver|]. apply Forall_forall. intros x [-> | Hx]%insert_seq_elem; [done|]. rewrite Forall_forall in Hf. by apply Hf.
  - assert (seq ep < seq o) by (specialize (Hne o ltac:(set_solver)); lia). constructor; [by constructor|]. constructor; [done|].
    eapply Forall_impl; [exact Hf|]. cbn. lia.
Qed.

Lemma insert_seq_perm out ep : insert_seq out ep ≡ₚ ep :: out.
Proof. induction out as [|o out IH]; cbn [insert_seq]; [done|]. destruct (seq o <? seq ep); [|done]. rewrite IH. apply Permutation_swap. Qed.

Lemma ordered_same es a b : ordered es -> a ∈ es -> b ∈ es -> seq a = seq b -> a = b.
Proof.
  induction 1 as [|x es Hs IH Hf]; [set_solver|]. rewrite Forall_forall in Hf. intros [-> | Ha]%elem_of_cons [-> | Hb]%elem_of_cons He; [done| | |by apply IH].
  - specialize (Hf b Hb). lia.
  - specialize (Hf a Ha). lia.
Qed.

(** A list under way: routes of the table, in registration order, each method once. *)
Record allow_list g (out : list (ioxd_endpoint Mw Handler)) : Prop := {
  al_order : ordered out; al_methods : NoDup (map method out); al_table : forall e, e ∈ out -> e ∈ table g; al_length : length out <= ALLOW_MAX
}.

Lemma listed_true out ep : listed out ep = true <-> method ep ∈ map method out.
Proof. unfold listed. rewrite existsb_method. rewrite list_elem_of_fmap. naive_solver. Qed.

Lemma allow_one g out ep : registry_wf g -> allow_list g out -> ep ∈ table g -> length out < ALLOW_MAX ->
  allow_list g (if listed out ep then out else insert_seq out ep).
Proof.
  intros Hw [Ho Hm Ht Hl] Hep Hlt. destruct (listed out ep) eqn:E; [done|]. split.
  - apply insert_seq_ordered; [done|]. intros o Hin Hs. assert (o = ep) as -> by (eapply ordered_same; [apply (ordered_table g Hw)|by apply Ht|done|done]).
    assert (listed out ep = true) by (apply listed_true, list_elem_of_fmap; eauto). congruence.
  - change (NoDup (method <$> insert_seq out ep)). rewrite insert_seq_perm. cbn. constructor; [|done]. intros Hin%listed_true. congruence.
  - intros x [-> | ?]%insert_seq_elem; [done|by apply Ht].
  - rewrite insert_seq_perm. cbn. lia.
Qed.

Lemma allow_node_spec g es out : registry_wf g -> allow_list g out -> (forall e, e ∈ es -> e ∈ table g) ->
  allow_list g (allow_node es out) /\ (forall e, e ∈ out -> e ∈ allow_node es out) /\ (forall e, e ∈ allow_node es out -> e ∈ out \/ e ∈ es) /\
  length out <= length (allow_node es out) /\
  (length (allow_node es out) < ALLOW_MAX -> forall e, e ∈ es -> method e ∈ map method (allow_node es out)).
Proof.
  intros Hw. revert out. induction es as [|ep es IH]; intros out Hal Hes; cbn [allow_node]; [set_solver|].
  destruct (Nat.ltb_spec (length out) ALLOW_MAX) as [Hlt|Hge]; [|split; [done|]; split; [done|]; split; [set_solver|]; split; [done|lia]].
  pose proof (allow_one g out ep Hw Hal (Hes ep ltac:(set_solver)) Hlt) as Hal1. destruct (IH _ Hal1) as (H1 & Hsub & Hin & Hlen & Hc); [set_solver|].
  set (out1 := if listed out ep then out else insert_seq out ep) in *.
  assert (Hout : forall e, e ∈ out -> e ∈ out1) by (unfold out1; destruct (listed out ep); intros e He; [done|apply insert_seq_elem; by right]).
  assert (Hout1 : forall e, e ∈ out1 -> e ∈ out \/ e = ep) by (unfold out1; destruct (listed out ep); intros e He; [by left|apply insert_seq_elem in He; naive_solver]).
  assert (Hl1 : length out <= length out1) by (unfold out1; destruct (listed out ep); [done|rewrite insert_seq_perm; cbn; lia]).
  split; [done|]. split; [auto|]. split; [|split; [lia|]].
  - intros e [He | He]%Hin; [|set_solver]. apply Hout1 in He. set_solver.
  - intros Hn e [-> | He]%elem_of_cons; [|by apply Hc]. assert (Hm : method ep ∈ map method out1).
    { unfold out1. destruct (listed out ep) eqn:E; [by apply listed_true|]. apply list_elem_of_fmap. exists ep. split; [done|]. apply insert_seq_elem. by left. }
    apply list_elem_of_fmap in Hm as (x & -> & Hx). apply list_elem_of_fmap. exists x. auto.
Qed.

Lemma allow_nodes_spec g (seen : list (node Mw Handler)) out : registry_wf g -> allow_list g out -> (forall n e, n ∈ seen -> e ∈ node_eps n -> e ∈ table g) ->
  let r := fold_left (fun out n => allow_node (node_eps n) out) seen out in
  allow_list g r /\ (forall e, e ∈ out -> e ∈ r) /\ (forall e, e ∈ r -> e ∈ out \/ exists n, n ∈ seen /\ e ∈ node_eps n) /\ length out <= length r /\
  (length r < ALLOW_MAX -> forall n e, n ∈ seen -> e ∈ node_eps n -> method e ∈ map method r).
Proof.
  intros Hw. revert out. induction seen as [|n seen IH]; intros out Hal Hs; cbn [fold_left]; [set_solver|].
  destruct (allow_node_spec g (node_eps n) out Hw Hal) as (Hal1 & Hsub & Hin & Hlen & Hc); [set_solver|].
  destruct (IH _ Hal1) as (Hr & Hsubr & Hinr & Hlenr & Hcr); [set_solver|]. cbn zeta. split; [done|]. split; [auto|]. split; [|split; [lia|]].
  - intros e [[?|?]%Hin | (n' & ? & ?)]%Hinr; [by left|right; exists n; set_solver|right; exists n'; set_solver].
  - intros Hl n' e [-> | Hn]%elem_of_cons He; [|by eapply Hcr]. assert (Hm : method e ∈ map method (allow_node (node_eps n) out)) by (apply Hc; [lia|done]).
    apply list_elem_of_fmap in Hm as (x & -> & Hx). apply list_elem_of_fmap. exists x. auto.
Qed.

(** *** The nodes seen *)

Lemma see_all ws look seen :
  let r := fold_left (fun seen w => see (look (w : shape * list bytes).1) seen) ws seen in
  (forall es, es ∈ seen -> es ∈ r) /\ (forall es, es ∈ r -> es ∈ seen \/ es <> [] /\ exists w, w ∈ ws /\ es = look w.1) /\ length seen <= length r /\
  (forall w, w ∈ ws -> look w.1 <> [] -> 0 < length r) /\
  (length r < SEEN_MAX -> forall w, w ∈ ws -> look w.1 <> [] -> look w.1 ∈ r).
Proof.
  revert seen. induction ws as [|w ws IH]; intros seen; cbn [fold_left]; [set_solver|]. specialize (IH (see (look w.1) seen)). cbn zeta in *.
  set (r := fold_left _ ws _) in *. destruct IH as (Hsub & Hin & Hlen & Hpos & Hc).
  assert (Hs : see (look w.1) seen = seen /\ (look w.1 = [] \/ SEEN_MAX <= length seen) \/ look w.1 <> [] /\ see (look w.1) seen = seen ++ [look w.1]).
  { unfold see. destruct (look w.1) as [|e es]; [left; auto|]. cbn [length Nat.eqb negb andb]. destruct (Nat.ltb_spec (length seen) SEEN_MAX); auto. }
  destruct Hs as [(E & Hs) | (Hne & E)]; rewrite E in *.
  - split; [done|]. split; [set_solver|]. split; [done|]. split.
    + intros w' [-> | Hw']%elem_of_cons Hl; [|by eapply Hpos]. destruct Hs as [? | Hs]; [done|]. unfold SEEN_MAX in Hs. lia.
    + intros Hlt w' [-> | Hw']%elem_of_cons Hl; [|by eapply Hc]. destruct Hs as [? | Hs]; [done|lia].
  - rewrite length_app in Hlen. cbn in Hlen. split; [set_solver|]. split; [|split; [lia|split; [lia|]]].
    + intros es [[?| ->%list_elem_of_singleton]%elem_of_app | ?]%Hin; [by left|right; split; [done|]; exists w; set_solver|right; set_solver].
    + intros Hlt w' [-> | Hw']%elem_of_cons Hl; [|by apply Hc]. apply Hsub. set_solver.
Qed.

Lemma firsts_sub es e : e ∈ firsts es -> e ∈ es.
Proof. intros (l1 & l2 & -> & _)%firsts_elem. set_solver. Qed.

Lemma firsts_nil es : firsts es = [] -> es = [].
Proof.
  destruct es as [|e es]; [done|]. intros Hf. exfalso. assert (He : e ∈ firsts (e :: es)) by (apply firsts_elem; exists [], es; split; [done|set_solver]).
  rewrite Hf in He. set_solver.
Qed.

Lemma seen_spec g p m caps seen : registry_wf g -> g_built g = false ->
  walk (segments p) (g_tree (ioxd__router_build g)) m [] [] = (None, caps, seen) ->
  allow_list g (allowed_endpoints seen) /\ (forall e, e ∈ allowed_endpoints seen -> exists caps, takes_path e p caps) /\
  (seen = [] -> forall e caps, e ∈ table g -> ~ takes_path e p caps) /\ (seen <> [] -> exists e caps, e ∈ table g /\ takes_path e p caps) /\
  (length seen < SEEN_MAX -> length (allowed_endpoints seen) < ALLOW_MAX ->
    forall e caps, e ∈ table g -> takes_path e p caps -> method e ∈ map method (allowed_endpoints seen)).
Proof.
  intros Hw Hb [_ Hs]%lookup_spec; [|done..]. pose proof (see_all (ways (segments p) IOXD_MAX_ROUTE_PARAMS) (fun sh => firsts (at_shape sh (table g))) []) as Ha.
  cbv beta zeta in Ha. rewrite <- Hs in Ha. destruct Ha as (_ & Hin & _ & Hpos & Hc). rewrite length_map in Hpos, Hc.
  assert (Hnode : forall n e, n ∈ seen -> e ∈ node_eps n -> e ∈ table g /\ exists caps, takes_path e p caps).
  { intros n e Hn He. destruct (Hin (node_eps n)) as [? | (_ & [sh c] & Hwy & Heq)]; [by apply list_elem_of_fmap_2|set_solver|]. cbn in Heq.
    rewrite Heq in He. apply firsts_sub, at_shape_elem in He as [He Hsh]. split; [done|]. exists c. unfold takes_path. rewrite Hsh. by apply ways_elem in Hwy as [? _]. }
  assert (Hlook : forall e caps, e ∈ table g -> takes_path e p caps -> firsts (at_shape (ep_shape e) (table g)) <> []).
  { intros e c He _ Hf%firsts_nil. assert (Hx : e ∈ at_shape (ep_shape e) (table g)) by (by apply at_shape_elem). rewrite Hf in Hx. set_solver. }
  destruct (allow_nodes_spec g seen [] Hw) as (Hal & _ & Hout & _ & Hall); [split; [constructor|constructor|set_solver|cbn; lia]|by intros; eapply Hnode|].
  fold (allowed_endpoints seen) in *. split; [done|]. split; [|split; [|split]].
  - intros e [? | (n & Hn & He)]%Hout; [set_solver|]. by destruct (Hnode n e Hn He).
  - intros -> e c He Ht. specialize (Hpos _ (table_way g e p c He Ht) (Hlook e c He Ht)). cbn in Hpos. lia.
  - intros Hne. destruct seen as [|n seen]; [done|]. destruct (Hin (node_eps n)) as [? | (Hnn & [sh c] & Hwy & Heq)]; [set_solver|set_solver|].
    destruct (node_eps n) as [|e es] eqn:En; [done|]. exists e. destruct (Hnode n e) as (? & c' & ?); [set_solver|rewrite En; set_solver|]. by exists c'.
  - intros Hl Hlo e c He Ht. pose proof (Hc Hl _ (table_way g e p c He Ht) (Hlook e c He Ht)) as Hn. cbn [fst] in Hn. apply list_elem_of_fmap in Hn as (n & Hn & Hin').
    destruct (proj2 (firsts_method (at_shape (ep_shape e) (table g)) (method e))) as (x & Hx & Hxm); [exists e; by rewrite at_shape_elem|].
    rewrite <- Hxm. apply (Hall Hlo n x Hin'). by rewrite <- Hn.
Qed.

(** *** The text of the header *)

(** The methods, with HEAD after a GET that no HEAD stands beside. *)
Definition with_head (ms : list bytes) : list bytes :=
  if existsb (beq (lit "HEAD")) ms then ms else concat (map (fun m => if beq m (lit "GET") then [m; lit "HEAD"] else [m]) ms).

Lemma allow_text_join add es : allow_text add true es = join_with (lit ", ") (concat (map (fun e => if add && same_method (lit "GET") e then [method e; lit "HEAD"] else [method e]) es)).
Proof.
  assert (Hrest : forall es, allow_text add false es = concat (map (app (lit ", ")) (concat (map (fun e => if add && same_method (lit "GET") e then [method e; lit "HEAD"] else [method e]) es)))).
  { clear es. induction es as [|e es IH]; [done|]. cbn [allow_text map concat]. unfold allow_item. rewrite IH, map_app, concat_app.
    destruct (add && same_method (lit "GET") e); cbn [map concat]; by rewrite ?app_nil_r, <- ?app_assoc. }
  destruct es as [|e es]; [done|]. cbn [allow_text map concat]. unfold allow_item. rewrite Hrest.
  destruct (add && same_method (lit "GET") e); cbn [map concat join_with app]; rewrite ?app_nil_r, <- ?app_assoc; done.
Qed.

Lemma allow_text_length add es : es <> [] -> NoDup (map method es) ->
  length (allow_text add true es) <= (length es - 1) * 2 + list_sum (map (fun e => length (method e)) es) + (if add then 6 else 0).
Proof.
  intros Hne Hnd. assert (Hrest : forall es, NoDup (map method es) ->
    length (allow_text add false es) <= length es * 2 + list_sum (map (fun e => length (method e)) es) + (if add && existsb (same_method (lit "GET")) es then 6 else 0)).
  { clear es Hne Hnd. induction es as [|e es IH]; intros Hnd; [cbn; lia|]. cbn [map] in Hnd. apply NoDup_cons in Hnd as [Hni Hnd]. specialize (IH Hnd).
    cbn [allow_text map list_sum fold_right existsb]. unfold allow_item. rewrite !length_app. change (length (lit ", ")) with 2. fold (list_sum (map (fun e => length (method e)) es)).
    destruct (same_method (lit "GET") e) eqn:E; cbn [orb].
    - assert (existsb (same_method (lit "GET")) es = false) as Hf.
      { destruct (existsb _ es) eqn:Ex; [|done]. apply existsb_method in Ex as (x & Hx & Hm). apply same_method_true in E. destruct Hni. apply list_elem_of_fmap. exists x. by rewrite E. }
      rewrite Hf in IH. rewrite !andb_true_r. rewrite andb_false_r in IH. destruct add; cbn [length] in *; change (length (lit ", HEAD")) with 6; lia.
    - rewrite andb_false_r. cbn [length]. lia. }
  destruct es as [|e es]; [done|]. cbn [map] in Hnd. apply NoDup_cons in Hnd as [Hni Hnd]. specialize (Hrest es Hnd).
  cbn [allow_text map list_sum fold_right]. unfold allow_item. rewrite !length_app. fold (list_sum (map (fun e => length (method e)) es)). cbn [length].
  destruct (same_method (lit "GET") e) eqn:E.
  - assert (existsb (same_method (lit "GET")) es = false) as Hf.
    { destruct (existsb _ es) eqn:Ex; [|done]. apply existsb_method in Ex as (x & Hx & Hm). apply same_method_true in E. destruct Hni. apply list_elem_of_fmap. exists x. by rewrite E. }
    rewrite Hf, andb_false_r in Hrest. rewrite andb_true_r. destruct add; cbn [length]; change (length (lit ", HEAD")) with 6; lia.
  - rewrite andb_false_r. cbn [length]. destruct add; cbn [andb] in *; [destruct (existsb _ es)|]; lia.
Qed.

Lemma allow_value_spec g (seen : list (node Mw Handler)) t : allow_list g (allowed_endpoints seen) -> allow_value seen = Some t ->
  t = join_with (lit ", ") (with_head (map method (allowed_endpoints seen))) /\ length t < IOXD_ROUTE_ARENA.
Proof.
  intros Hal. unfold allow_value. set (es := allowed_endpoints seen) in *. destruct (Nat.eqb_spec (length es) 0) as [|Hne]; [done|]. cbn [orb].
  set (add := existsb (same_method (lit "GET")) es && negb (existsb (same_method (lit "HEAD")) es)).
  destruct (Nat.ltb_spec IOXD_ROUTE_ARENA ((length es - 1) * 2 + 1 + list_sum (map (fun ep => length (method ep)) es) + (if add then 6 else 0))) as [|Hfit]; [done|].
  intros [= <-]. assert (Hes : es <> []) by (by destruct es). pose proof (allow_text_length add es Hes (al_methods _ _ Hal)) as Hl. split; [|lia].
  rewrite allow_text_join. f_equal. unfold with_head. assert (Hhead : existsb (beq (lit "HEAD")) (map method es) = existsb (same_method (lit "HEAD")) es).
  { clear. induction es as [|e es IH]; [done|]. cbn [map existsb]. rewrite IH. f_equal. unfold same_method. destruct (beq (method e) _) eqn:E; [apply beq_true in E as ->; apply beq_refl|].
    apply beq_false in E. apply beq_false. congruence. }
  rewrite Hhead. unfold add. destruct (existsb (same_method (lit "HEAD")) es).
  - rewrite andb_false_r. cbn [andb]. clear. induction es as [|e es IH]; [done|]. cbn [map concat app]. by rewrite IH.
  - rewrite andb_true_r. rewrite map_map. f_equal. destruct (existsb (same_method (lit "GET")) es) eqn:Eg; [done|]. apply map_ext_in. intros e He.
    destruct (beq (method e) (lit "GET")) eqn:E; [|done]. apply beq_true in E. cbn [andb]. exfalso.
    assert (existsb (same_method (lit "GET")) es = true) by (apply existsb_method; exists e; by rewrite list_elem_of_In). congruence.
Qed.

Lemma see_sub ws look seen : exists ws', sublist ws' ws /\
  fold_left (fun seen w => see (look (w : shape * list bytes).1) seen) ws seen = seen ++ map (fun w => look w.1) ws' /\ forall w, w ∈ ws' -> look w.1 <> [].
Proof.
  revert seen. induction ws as [|w ws IH]; intros seen; [exists []; rewrite app_nil_r; split; [constructor|split; [done|set_solver]]|]. cbn [fold_left].
  destruct (IH (see (look w.1) seen)) as (ws' & Hsub & -> & Hne). unfold see. destruct (look w.1) as [|e es] eqn:E; cbn [length Nat.eqb negb andb].
  - exists ws'. split; [by constructor|]. done.
  - destruct (length seen <? SEEN_MAX).
    + exists (w :: ws'). split; [by constructor|]. cbn [map]. rewrite E, <- app_assoc. split; [done|]. intros w' [-> | ?]%elem_of_cons; [by rewrite E|auto].
    + exists ws'. split; [by constructor|]. done.
Qed.

Lemma ways_NoDup segs room : NoDup (map fst (ways segs room)).
Proof.
  assert (Ho : forall l : list (shape * list bytes), (forall l1 w l2 w', l = l1 ++ w :: l2 -> w' ∈ l2 -> w.1 <> w'.1) -> NoDup (map fst l)).
  { induction l as [|w l IH]; intros Hl; [constructor|]. cbn [map]. constructor.
    - intros (w' & Hw & Hin)%list_elem_of_fmap. by eapply (Hl [] w l w').
    - apply IH. intros l1 w1 l2 w' -> Hin. by apply (Hl (w :: l1) w1 l2). }
  apply Ho. intros l1 [sh c] l2 w' Hw Hin Heq. destruct (ways_order _ _ _ _ _ _ _ Hw Hin) as (pre & s & a & b & Ha & Hb). cbn in Heq. rewrite <- Heq, Ha in Hb.
  by apply app_inv_head in Hb.
Qed.
End Tables.

(** ** The captured values, decoded *)

Lemma route_decode_none raw : existsb (Z.eqb (ch "%")) raw = false -> route_decode raw = raw.
Proof.
  induction raw as [|c raw IH]; [done|]. cbn [existsb]. intros [Hc Hr]%orb_false_iff. cbn [route_decode]. rewrite (IH Hr).
  destruct raw as [|h [|l raw]]; [done|done|]. by rewrite Z.eqb_sym, Hc.
Qed.

Lemma route_decode_length raw : length (route_decode raw) <= length raw.
Proof.
  assert (Hs : forall k raw, length raw <= k -> length (route_decode raw) <= length raw); [|by eapply Hs].
  clear. induction k as [|k IH]; intros raw Hk; [by destruct raw; [|cbn in Hk; lia]|]. destruct raw as [|c [|h [|l raw]]]; [done|done|done|].
  assert (H1 : length (route_decode (h :: l :: raw)) <= length (h :: l :: raw)) by (apply IH; cbn [length] in *; lia).
  assert (H2 : length (route_decode raw) <= length raw) by (apply IH; cbn [length] in *; lia).
  change (route_decode (c :: h :: l :: raw)) with (if (c =? ch "%")%Z && (0 <=? ioxd__http_hexval h)%Z && (0 <=? ioxd__http_hexval l)%Z
    then (ioxd__http_hexval h * 16 + ioxd__http_hexval l)%Z :: route_decode raw else c :: route_decode (h :: l :: raw)).
  destruct (_ && _ && _); cbn [length] in *; lia.
Qed.

Lemma decoded_spec raw arena used v arena' used' : length arena = IOXD_ROUTE_ARENA -> used <= IOXD_ROUTE_ARENA -> decoded raw arena used = (v, arena', used') ->
  length arena' = IOXD_ROUTE_ARENA /\ used <= used' <= used + length raw /\ used' <= IOXD_ROUTE_ARENA /\ (v = raw \/ v = route_decode raw) /\
  (used + length raw <= IOXD_ROUTE_ARENA -> v = route_decode raw).
Proof.
  intros Ha Hu. unfold decoded. destruct (existsb (Z.eqb (ch "%")) raw) eqn:E; cbn [negb orb].
  - pose proof (route_decode_length raw). destruct (Nat.ltb_spec IOXD_ROUTE_ARENA (used + length raw)); intros [= <- <- <-].
    + repeat split; try lia; auto.
    + rewrite length_blit by lia. repeat split; try lia; auto.
  - intros [= <- <- <-]. rewrite (route_decode_none raw E). repeat split; try lia; auto.
Qed.

Lemma decode_params_spec ns caps arena used ps arena' : length ns = length caps -> length arena = IOXD_ROUTE_ARENA -> used <= IOXD_ROUTE_ARENA ->
  decode_params ns caps arena used = (ps, arena') ->
  map fst ps = ns /\ Forall2 (fun c v => v = c \/ v = route_decode c) caps (map snd ps) /\ length arena' = IOXD_ROUTE_ARENA /\
  (used + list_sum (map length caps) <= IOXD_ROUTE_ARENA -> map snd ps = map route_decode caps).
Proof.
  revert caps arena used ps. induction ns as [|n ns IH]; intros [|c caps] arena used ps Hl Ha Hu Hd; [|done|done|].
  - injection Hd as <- <-. by repeat split.
  - cbn [decode_params] in Hd. destruct (decoded c arena used) as [[v a1] u1] eqn:Ed. apply decoded_spec in Ed as (Ha1 & Hu1 & Hu1' & Hv & Hfit); [|done..].
    destruct (decode_params ns caps a1 u1) as [ps1 a2] eqn:Ep. injection Hd as <- <-. apply IH in Ep as (Hf & Hs & Ha2 & Hall); [|by injection Hl|done|done].
    cbn [map list_sum fold_right fst snd]. fold (list_sum (map length caps)). split; [by rewrite Hf|]. split; [by constructor|]. split; [done|]. intros Hsum.
    rewrite Hfit by lia. f_equal. apply Hall. lia.
Qed.

(** ** The chain *)

(** The marks a run passes, whatever the calls give back. *)
Inductive passes : cprog -> list nat -> Prop :=
| ps_done : passes CDone []
| ps_reply o k b tr : passes (k b) tr -> passes (CReply o k) tr
| ps_body o k rc d tr : passes (k rc d) tr -> passes (CBody o k) tr
| ps_all k s tr : passes (k s) tr -> passes (CAll k) tr
| ps_enter i k tr : passes k tr -> passes (CEnter i k) (i :: tr).

Lemma passes_then p k tr : passes (then_ p k) tr -> passes k tr.
Proof. revert tr. induction p as [|o f IH|o f IH|f IH]; intros tr Hp; cbn [then_] in Hp; [done|inversion Hp; subst; eauto..]. Qed.

(** Marks [i], [i + 1], ... one after the other, then the rest, with the cursor past them. *)
Definition steps_on (n i : nat) (k : nat -> cprog) (tr : list nat) : Prop :=
  exists j tr', i <= j /\ (i <= S n -> j <= S n) /\ tr = List.seq i (j - i) ++ tr' /\ passes (k j) tr'.

Lemma steps_here n i k tr : passes (k i) tr -> steps_on n i k tr.
Proof. intros Hp. exists i, tr. rewrite Nat.sub_diag. by repeat split. Qed.

Lemma steps_trans n i k k' tr : steps_on n i k tr -> (forall j tr', i <= j -> passes (k j) tr' -> steps_on n j k' tr') -> steps_on n i k' tr.
Proof.
  intros (j & t1 & Hj & Hjn & -> & Hp) Hk. destruct (Hk j t1 Hj Hp) as (j' & t2 & Hj' & Hjn' & -> & Hp'). exists j', t2. split; [lia|]. split; [auto|]. split; [|done].
  rewrite app_assoc. f_equal. replace (j' - i) with ((j - i) + (j' - j)) by lia. rewrite seq_app. by replace (i + (j - i)) with j by lia.
Qed.

Lemma run_mw_steps n next m i k tr : (forall i k tr, passes (next i k) tr -> steps_on n i k tr) -> passes (run_mw next m i k) tr -> steps_on n i k tr.
Proof.
  intros Hn. revert i tr. induction m as [|o f IH|o f IH|f IH|f IH]; intros i tr Hp; cbn [run_mw] in Hp; [by apply steps_here|inversion Hp; subst; eauto..|].
  apply Hn in Hp. eapply steps_trans; [exact Hp|]. auto.
Qed.

Lemma next_run_steps fuel ms h i k tr : passes (ioxd_next_run fuel ms h i k) tr -> steps_on (length ms) i k tr.
Proof.
  revert i k tr. induction fuel as [|fuel IH]; intros i k tr Hp; cbn [ioxd_next_run] in Hp; (destruct (Nat.ltb_spec (length ms) i); [by apply steps_here|]);
    [by apply steps_here|]. inversion Hp as [| | | |i' k' tr' Hp']; subst.
  assert (Hs : steps_on (length ms) (S i) k tr').
  { destruct (ms !! i) as [m|]; [by eapply run_mw_steps|]. apply passes_then in Hp'. by apply steps_here. }
  destruct Hs as (j & t & Hj & Hjn & -> & Hk). exists j, t. split; [lia|]. split; [lia|]. split; [|done].
  replace (j - i) with (S (j - S i)) by lia. done.
Qed.

(** A middleware that calls [next] at most once on any way through it. *)
Inductive quiet : mprog -> Prop :=
| qt_done : quiet MDone
| qt_reply o k : (forall b, quiet (k b)) -> quiet (MReply o k)
| qt_body o k : (forall rc d, quiet (k rc d)) -> quiet (MBody o k)
| qt_all k : (forall s, quiet (k s)) -> quiet (MAll k).
Inductive once : mprog -> Prop :=
| oc_done : once MDone
| oc_reply o k : (forall b, once (k b)) -> once (MReply o k)
| oc_body o k : (forall rc d, once (k rc d)) -> once (MBody o k)
| oc_all k : (forall s, once (k s)) -> once (MAll k)
| oc_next k : quiet k -> once (MNext k).

(** One program before another. *)
Fixpoint seqp (p q : prog) : prog :=
  match p with
  | PDone => q
  | PReply o k => PReply o (fun b => seqp (k b) q)
  | PBody o k => PBody o (fun rc d => seqp (k rc d) q)
  | PAll k => PAll (fun s => seqp (k s) q)
  end.

(** A middleware around a program: [next] is that program. *)
Fixpoint around (m : mprog) (inner : prog) : prog :=
  match m with
  | MDone => PDone
  | MReply o k => PReply o (fun b => around (k b) inner)
  | MBody o k => PBody o (fun rc d => around (k rc d) inner)
  | MAll k => PAll (fun s => around (k s) inner)
  | MNext k => seqp inner (around k inner)
  end.
Definition onion (ms : list mprog) (h : prog) : prog := fold_right around h ms.

(** The same calls with the same arguments, whatever they give back. *)
Inductive peq : prog -> prog -> Prop :=
| pq_done : peq PDone PDone
| pq_reply o k k' : (forall b, peq (k b) (k' b)) -> peq (PReply o k) (PReply o k')
| pq_body o k k' : (forall rc d, peq (k rc d) (k' rc d)) -> peq (PBody o k) (PBody o k')
| pq_all k k' : (forall s, peq (k s) (k' s)) -> peq (PAll k) (PAll k').

Lemma peq_refl p : peq p p.
Proof. induction p; by constructor. Qed.
Lemma peq_trans p q r : peq p q -> peq q r -> peq p r.
Proof. intros Hp. revert r. induction Hp; intros r Hr; inversion Hr; subst; constructor; auto. Qed.
Lemma seqp_peq p q q' : peq q q' -> peq (seqp p q) (seqp p q').
Proof. intros Hq. induction p; cbn [seqp]; [done|constructor; auto..]. Qed.
Lemma seqp_assoc p q r : peq (seqp p (seqp q r)) (seqp (seqp p q) r).
Proof. induction p; cbn [seqp]; [apply peq_refl|constructor; auto..]. Qed.

Lemma calls_then p k : peq (calls (then_ p k)) (seqp p (calls k)).
Proof. induction p; cbn [then_ calls seqp]; [apply peq_refl|constructor; auto..]. Qed.

Lemma quiet_calls next m i k K inner : quiet m -> (forall j, peq (calls (k j)) K) -> peq (calls (run_mw next m i k)) (seqp (around m inner) K).
Proof. intros Hq Hk. induction Hq; cbn [run_mw calls around seqp]; [apply Hk|constructor; auto..]. Qed.

Lemma once_calls next m i k K inner : once m -> (forall j, peq (calls (k j)) K) ->
  (forall k' K', (forall j, peq (calls (k' j)) K') -> peq (calls (next i k')) (seqp inner K')) ->
  peq (calls (run_mw next m i k)) (seqp (around m inner) K).
Proof.
  intros Ho Hk Hn. induction Ho as [|o f _ IH|o f _ IH|f _ IH|f Hq]; cbn [run_mw calls around seqp]; [apply Hk|constructor; auto..|].
  eapply peq_trans; [apply Hn|]; [by intros j; apply quiet_calls|]. apply seqp_assoc.
Qed.

Lemma next_run_onion fuel ms h i k K : Forall once ms -> length ms < fuel + i -> i <= length ms -> (forall j, peq (calls (k j)) K) ->
  peq (calls (ioxd_next_run fuel ms h i k)) (seqp (onion (drop i ms) h) K).
Proof.
  intros Ho. revert i k K. induction fuel as [|fuel IH]; intros i k K Hf Hi Hk; [lia|]. cbn [ioxd_next_run].
  destruct (Nat.ltb_spec (length ms) i); [lia|]. cbn [calls]. destruct (ms !! i) as [m|] eqn:E.
  - rewrite (drop_S _ _ _ E). cbn [onion fold_right]. apply once_calls; [|done|].
    + rewrite Forall_forall in Ho. apply Ho. by eapply list_elem_of_lookup_2.
    + intros k' K' Hk'. apply IH; [lia| |done]. apply lookup_lt_Some in E. lia.
  - apply lookup_ge_None in E. rewrite drop_ge by lia. cbn [onion fold_right]. eapply peq_trans; [apply calls_then|]. apply seqp_peq, Hk.
Qed.

Lemma seqp_done p : peq (seqp p PDone) p.
Proof. induction p; cbn [seqp]; constructor; auto. Qed.

(** ** What a registration comes to *)

Abbreviation router := (registry ioxd_mw ioxd_handler).

(** What a dispatch reads: the tree, the fallback and the root's middleware. *)
Definition dispatched_by (g : router) := (g_tree g, g_fallback g, root_mws g).

Lemma dispatch_reads g g' r : dispatched_by g = dispatched_by g' -> ioxd__router_dispatch g r = ioxd__router_dispatch g' r.
Proof. unfold dispatched_by. intros [= H1 H2 H3]. unfold ioxd__router_dispatch. by rewrite H1, H2, H3. Qed.

Lemma built_fixed (g : router) o : registry_wf g -> g_built g = true -> g_built (reg_do g o) = true /\ dispatched_by (reg_do g o) = dispatched_by g.
Proof.
  intros Hw Hb. assert (Hroot : forall gr, root_mws (set_groups g (groups g ++ [gr])) = root_mws g).
  { intros gr. unfold root_mws. cbn. destruct (rw_root g Hw) as (ms & Hr). pose proof (lookup_lt_Some _ _ _ Hr). by rewrite lookup_app_l. }
  assert (Huse : forall (h : router) i ms, g_built h = true -> fold_left (fun g m => ioxd_group_use g i m) ms h = h).
  { intros h i ms Hh. induction ms as [|m ms IH]; [done|]. cbn. unfold ioxd_group_use at 2. by rewrite Hh. }
  assert (Heuse : forall (h : router) i ms, g_built h = true -> fold_left (fun g m => ioxd_endpoint_use g i m) ms h = h).
  { intros h i ms Hh. induction ms as [|m ms IH]; [done|]. cbn. unfold ioxd_endpoint_use at 2. rewrite Hh. by destruct i. }
  assert (Hend : g_built (ioxd__router_group_end g) = true /\ dispatched_by (ioxd__router_group_end g) = dispatched_by g).
  { unfold ioxd__router_group_end. destruct (groups g !! _) as [gr|]; [|done]. by destruct (parent gr). }
  destruct o as [p s|i m|m|i m p f|e m|s ms| |o|m p f ms|f|]; cbn [reg_do].
  - split; [done|]. unfold dispatched_by. cbn. by rewrite Hroot.
  - unfold ioxd_group_use. by rewrite Hb.
  - unfold ioxd_use. by rewrite Hb.
  - unfold ioxd_route. by rewrite Hb.
  - unfold ioxd_endpoint_use. destruct e; by rewrite ?Hb.
  - unfold ioxd__router_group_begin. cbn. rewrite Huse by done. split; [done|]. unfold dispatched_by. cbn. by rewrite <- (Hroot {| parent := Some (g_current g); prefix := s; mws := [] |}).
  - exact Hend.
  - destruct o; [exact Hend|done].
  - unfold ioxd__router_endpoint, ioxd_route. rewrite Hb. by rewrite Heuse.
  - unfold ioxd_default. by rewrite Hb.
  - unfold ioxd__router_build. by rewrite Hb.
Qed.

Lemma built_stays (g : router) os g' : registered g os g' -> registry_wf g -> g_built g = true -> dispatched_by g' = dispatched_by g.
Proof.
  induction 1 as [|g o os g' Hk _ IH]; intros Hw Hb; [done|]. destruct (built_fixed g o Hw Hb) as [Hb' Hd]. rewrite <- Hd. apply IH; [by apply reg_do_wf|done].
Qed.

(** C15. Whatever the program registers, in any order, the registry stays well formed; every endpoint's path is the prefixes of its groups from the root down and then its own, segment by segment, and its chain is their middleware in that order and then its own; and once the table is built nothing registered later changes what any request gets. *)
Theorem registration_resolves (f : ioxd_handler) os (g : router) : registered (registry0 f) os g ->
  registry_wf g /\
  (forall ep, ep ∈ g_first g -> exists path_, under (groups g) (group ep) path_ /\
    segments (full_path (groups g) ep) = concat (map (fun gr => segments (prefix gr)) path_) ++ segments (ep_path ep) /\
    flatten_chain (groups g) ep = concat (map mws path_) ++ own ep) /\
  (forall os' g' r, registered (ioxd__router_build g) os' g' -> ioxd__router_dispatch g' r = ioxd__router_dispatch (ioxd__router_build g) r).
Proof.
  intros Hr. pose proof (registered_wf _ _ _ Hr (registry0_wf f)) as Hw. split; [done|]. split; [by intros; apply endpoint_place|].
  intros os' g' r Hr'. apply dispatch_reads. eapply built_stays; [exact Hr'|by apply build_wf|]. unfold ioxd__router_build. by destruct (g_built g) eqn:E.
Qed.

(** ** A request's endpoint *)

Definition answered (g : router) (r : ioxd_request) (ep : ioxd_endpoint ioxd_mw ioxd_handler) (caps : list bytes) : Prop :=
  ep ∈ table g /\ takes_path ep (path r) caps /\ answers (Headers.method r) ep.

Lemma table_names (g : router) ep : registry_wf g -> ep ∈ table g -> names ep = capture_names (segments (full ep)).
Proof.
  intros Hw [Ht _]%list_elem_of_In%filter_In. apply list_elem_of_In, list_elem_of_fmap in Ht as (e & -> & [i Hi]%list_elem_of_lookup).
  change (names (served (groups g) e)) with (names e ++ capture_names (segments (full_path (groups g) e))).
  destruct (rw_ep g Hw i e Hi) as (_ & _ & _ & -> & _). done.
Qed.

(** C13. A request that some registered route answers runs a route that answers it, behind its chain, and no route is to be preferred to it: at the first segment where they differ it is static, and among those of one shape it has the method itself rather than GET for HEAD and is the first registered. The handler sees the captured segments under the route's names, percent-decoded when they fit the arena together, and each raw or decoded otherwise. *)
Theorem dispatch_finds (f : ioxd_handler) os (g : router) r : registered (registry0 f) os g -> g_built g = false -> length (route_arena r) = IOXD_ROUTE_ARENA ->
  (exists ep caps, answered g r ep caps) ->
  exists ep caps r' ps, answered g r ep caps /\ (forall ep' caps', answered g r ep' caps' -> preferred (Headers.method r) ep ep') /\
    r' = set_route_params r ps (route_arena r') /\ length (route_arena r') = IOXD_ROUTE_ARENA /\
    map fst ps = capture_names (segments (full ep)) /\ Forall2 (fun c v => v = c \/ v = route_decode c) caps (map snd ps) /\
    (list_sum (map length caps) <= IOXD_ROUTE_ARENA -> map snd ps = map route_decode caps) /\
    ioxd__router_dispatch (ioxd__router_build g) r = calls (run (map (fun m => m r') (chain ep)) (fn ep r')).
Proof.
  intros Hr Hb Har Hex. pose proof (registered_wf _ _ _ Hr (registry0_wf f)) as Hw. unfold ioxd__router_dispatch.
  destruct (walk (segments (path r)) (g_tree (ioxd__router_build g)) (Headers.method r) [] []) as [[[ep|] caps] seen] eqn:E;
    pose proof (lookup_spec _ _ _ _ _ _ Hw Hb E) as Hl.
  - destruct Hl as (Ht & Hp & Ha & Hbest). pose proof (table_names g ep Hw Ht) as Hn. assert (Hlen : length (names ep) = length caps).
    { rewrite Hn, captures_shape. symmetry. by apply takes_caps in Hp. }
    destruct (decode_params (names ep) caps (route_arena r) 0) as [ps arena] eqn:Ed. pose proof (decode_params_spec _ _ _ _ _ _ Hlen Har (Nat.le_0_l _) Ed) as (Hf & Hs & Hal & Hall).
    exists ep, caps, (set_route_params r ps arena), ps. rewrite <- Hn. repeat (split; [done|]). split; [|split; [done|]]; [|by repeat split].
    intros ep' caps' (? & ? & ?). by eapply Hbest.
  - destruct Hex as (ep & caps' & Ht & Hp & Ha). by destruct (proj1 Hl ep caps' Ht Hp).
Qed.

(** No more end-of-path places for the path than a walk remembers. *)
Definition few_places (g : router) (p : bytes) : Prop :=
  forall shs : list (list (option bytes)), NoDup shs -> (forall sh, sh ∈ shs -> exists ep caps, ep ∈ table g /\ takes_path ep p caps /\ ep_shape ep = sh) -> length shs < SEEN_MAX.

Lemma few_seen (g : router) p m caps seen : registry_wf g -> g_built g = false -> few_places g p ->
  walk (segments p) (g_tree (ioxd__router_build g)) m [] [] = (None, caps, seen) -> length seen < SEEN_MAX.
Proof.
  intros Hw Hb Hfew [_ Hs]%lookup_spec; [|done..]. rewrite <- (length_map node_eps seen), Hs.
  destruct (see_sub (ways (segments p) IOXD_MAX_ROUTE_PARAMS) (fun sh => firsts (at_shape sh (table g))) []) as (ws & Hsub & -> & Hne). cbn [app]. rewrite length_map.
  rewrite <- (length_map fst). apply Hfew.
  - eapply sublist_NoDup; [apply ways_NoDup|]. exact (fmap_sublist fst _ _ Hsub).
  - intros sh ([sh' c] & -> & Hin)%list_elem_of_fmap. specialize (Hne _ Hin). cbn [fst] in *. destruct (at_shape sh' (table g)) as [|e es] eqn:E; [done|].
    assert (He : e ∈ at_shape sh' (table g)) by (rewrite E; set_solver). apply at_shape_elem in He as [He Hsh]. exists e, c. split; [done|]. split; [|done].
    unfold takes_path. rewrite Hsh. eapply elem_of_sublist in Hin; [|exact Hsub]. by apply ways_elem in Hin as [? _].
Qed.


(** ** The chain *)

(** On any run of a chain its middleware and then its handler are entered in the order of the chain, each at most once, however often any of them calls for the next. *)
Theorem chain_in_order ms h tr : passes (run ms h) tr -> exists m, m <= S (length ms) /\ tr = List.seq 0 m.
Proof.
  unfold run. destruct (Nat.eqb_spec (length ms) 0) as [H0|H0]; intros Hp.
  - inversion Hp as [| | | |i k t Hp']; subst. apply passes_then in Hp'. inversion Hp'. exists 1. split; [lia|done].
  - apply next_run_steps in Hp as (j & t & _ & Hj & -> & Hp). inversion Hp. exists j. split; [lia|]. by rewrite app_nil_r, Nat.sub_0_r.
Qed.

(** When each middleware calls for the next at most once, a chain is the middleware as nested layers around the handler: what comes before the call, the rest of the chain, what comes after it; and one that does not call ends the chain there. *)
Theorem chain_onion ms h : Forall once ms -> peq (calls (run ms h)) (onion ms h).
Proof.
  intros Ho. unfold run. destruct (Nat.eqb_spec (length ms) 0) as [H0|H0].
  - apply length_zero_iff_nil in H0 as ->. cbn [calls onion fold_right]. eapply peq_trans; [apply calls_then|]. apply seqp_done.
  - eapply peq_trans; [apply (next_run_onion _ _ _ _ _ PDone); [done|lia|lia|intros; apply peq_refl]|]. rewrite drop_0. apply seqp_done.
Qed.

(** The cursor is shared: a middleware that calls [next] twice runs, the second time, what lies behind one that
returned without calling it. *)
Lemma second_next_passes_short_circuit h : passes (run [MNext (MNext MDone); MDone; MNext MDone] h) [0; 1; 2; 3] <-> exists tr, passes (then_ h CDone) tr.
Proof.
  change (run [MNext (MNext MDone); MDone; MNext MDone] h) with (CEnter 0 (CEnter 1 (CEnter 2 (CEnter 3 (then_ h CDone))))). split.
  - intros Hp. repeat (inversion Hp as [| | | |? ? ? Hp']; subst; clear Hp; rename Hp' into Hp). eauto.
  - intros (tr & Hp). repeat constructor. pose proof (passes_then _ _ _ Hp) as Hd. inversion Hd; subst. done.
Qed.

(** ** On a small table *)

Definition demo_log : ioxd_mw := fun _ => MReply (RHead (OHeader (Some (lit "x-log")) (Some (lit "1")))) (fun _ => MNext MDone).
Definition demo_user : ioxd_handler := fun r => PReply (RWrite (concat (map snd (route_params r)))) (fun _ => PDone).
Definition demo_new : ioxd_handler := fun _ => PReply (RWrite (lit "new")) (fun _ => PDone).
Definition demo_ops : list (@reg_op ioxd_mw ioxd_handler) :=
  [Use demo_log; GroupBegin (lit "/api") []; Endpoint (lit "GET") (lit "users/:id") demo_user [demo_log];
   Endpoint (lit "POST") (lit "/users/new") demo_new []; GroupEnd].
Definition demo : router := fold_left reg_do demo_ops (registry0 not_found).
Definition demo_request (m p : String.string) : ioxd_request :=
  {| Headers.method := lit m; target := lit p; path := lit p; query := []; minor_version := 1; Headers.headers := []; params := []; params_arena := [];
     route_params := []; req_content_length := 0; Headers.chunked := false; req_keep_alive := true; req_expect_continue := false;
     route_arena := replicate 256 0%Z |}.

Arguments demo_request (_ _)%_string_scope.

Lemma demo_registered : registered (registry0 not_found) demo_ops demo.
Proof.
  unfold demo, demo_ops. repeat (apply reg_cons; [first [exact I | apply (bool_decide_unpack _); vm_compute; exact I]|]). apply reg_nil.
Qed.

Lemma registration_resolves_witness : registry_wf demo /\ exists ep, ep ∈ g_first demo /\ exists path_, under (groups demo) (group ep) path_ /\
  segments (full_path (groups demo) ep) = concat (map (fun gr => segments (prefix gr)) path_) ++ segments (ep_path ep) /\
  flatten_chain (groups demo) ep = concat (map mws path_) ++ own ep.
Proof.
  destruct (registration_resolves not_found demo_ops demo demo_registered) as (Hw & Hp & _). split; [exact Hw|].
  destruct (g_first demo) as [|ep es] eqn:E; [discriminate E|]. exists ep. split; [constructor|]. apply Hp. constructor.
Defined.

(** "/api/users/new" is the static route's for POST, the capture's for GET; the escape in a captured segment is decoded. *)
Lemma demo_get_new : exists ep caps, answered demo (demo_request "GET" "/api/users/new") ep caps.
Proof.
  destruct (table demo) as [|ep es] eqn:E; [discriminate E|]. exists ep, [lit "new"]. unfold answered. rewrite E. vm_compute in E. injection E as <- <-.
  split; [constructor|]. split; [vm_compute; repeat constructor|left; reflexivity].
Qed.

Lemma dispatch_finds_witness : exists ep caps, answered demo (demo_request "GET" "/api/users/new") ep caps /\
  (forall ep' caps', answered demo (demo_request "GET" "/api/users/new") ep' caps' -> preferred (lit "GET") ep ep') /\
  exists r', ioxd__router_dispatch (ioxd__router_build demo) (demo_request "GET" "/api/users/new") = calls (run (map (fun m => m r') (chain ep)) (fn ep r')).
Proof.
  destruct (dispatch_finds not_found demo_ops demo (demo_request "GET" "/api/users/new") demo_registered eq_refl eq_refl demo_get_new)
    as (ep & caps & r' & ps & Ha & Hbest & _ & _ & _ & _ & _ & Hd).
  exists ep, caps. split; [exact Ha|]. split; [exact Hbest|]. exists r'. exact Hd.
Defined.

Example demo_new_user : ioxd__router_dispatch (ioxd__router_build demo) (demo_request "GET" "//api/users/a%2Fb/") =
  PReply (RHead (OHeader (Some (lit "x-log")) (Some (lit "1")))) (fun _ => PReply (RHead (OHeader (Some (lit "x-log")) (Some (lit "1"))))
    (fun _ => PReply (RWrite (lit "a/b")) (fun _ => PDone))).
Proof. reflexivity. Qed.

Lemma demo_put_unanswered ep caps : ~ answered demo (demo_request "PUT" "/api/users/new") ep caps.
Proof.
  intros (Ht & _ & Ha). revert Ht Ha. unfold table. assert (Hl : Forall (fun ep => ~ answers (lit "PUT") ep) (map (served (groups demo)) (g_first demo))).
  { repeat constructor; intros [Hm | [Hm _]]; vm_compute in Hm; discriminate Hm. }
  rewrite list_elem_of_In, filter_In, <- list_elem_of_In. intros [Ht _] Ha. rewrite Forall_forall in Hl. by apply (Hl ep Ht).
Qed.


Example demo_405 : exists r', ioxd__router_dispatch (ioxd__router_build demo) (demo_request "PUT" "/api/users/new") =
  PReply (RHead (OStatus 405)) (fun _ => PReply (RHead (OHeader (Some (lit "allow")) (Some (lit "GET, HEAD, POST"))))
    (fun _ => PReply (RHead (OHeader (Some (lit "x-log")) (Some (lit "1")))) (fun _ => not_allowed r'))).
Proof. exists (demo_request "PUT" "/"). reflexivity. Qed.

Lemma chain_in_order_witness : exists m, m <= 2 /\ [0; 1] = List.seq 0 m.
Proof. apply (chain_in_order [MNext MDone] PDone [0; 1]). repeat constructor. Defined.

Lemma chain_onion_witness : peq (calls (run [MReply RFlush (fun _ => MNext MDone)] PDone)) (onion [MReply RFlush (fun _ => MNext MDone)] PDone).
Proof. apply chain_onion. constructor; [|constructor]. apply oc_reply. intros b. apply oc_next, qt_done. Defined.

(** ** Calls within their arguments

    What the engine asks of a handler, of everything a router runs. *)
Inductive mprog_ok : mprog -> Prop :=
| mk_done : mprog_ok MDone
| mk_reply o k : reply_op_ok o -> (forall b, mprog_ok (k b)) -> mprog_ok (MReply o k)
| mk_body o k : (forall rc d, mprog_ok (k rc d)) -> mprog_ok (MBody o k)
| mk_all k : (forall s, mprog_ok (k s)) -> mprog_ok (MAll k)
| mk_next k : mprog_ok k -> mprog_ok (MNext k).

Lemma then_ok p k : prog_ok p -> prog_ok (calls k) -> prog_ok (calls (then_ p k)).
Proof. intros Hp Hk. induction Hp; cbn [then_ calls]; [done|constructor; auto..]. Qed.

Lemma run_mw_ok next m i k : mprog_ok m -> (forall j k', (forall j', prog_ok (calls (k' j'))) -> prog_ok (calls (next j k'))) -> (forall j, prog_ok (calls (k j))) -> prog_ok (calls (run_mw next m i k)).
Proof. intros Hm Hn Hk. revert i. induction Hm as [|o f Ho _ IH|o f _ IH|f _ IH|m _ IH]; intros i; cbn [run_mw calls]; [done|constructor; auto..|]. by apply Hn. Qed.

Lemma next_run_ok fuel ms h : Forall mprog_ok ms -> prog_ok h -> forall i k, (forall j, prog_ok (calls (k j))) -> prog_ok (calls (ioxd_next_run fuel ms h i k)).
Proof.
  intros Hms Hh. induction fuel as [|fuel IH]; intros i k Hk; cbn [ioxd_next_run]; (destruct (length ms <? i); [done|]); [done|]. cbn [calls]. destruct (ms !! i) as [m|] eqn:E; [|by apply then_ok].
  apply run_mw_ok; [by eapply Forall_lookup_1|by intros j k' Hk'; apply IH|done].
Qed.

Lemma run_ok ms h : Forall mprog_ok ms -> prog_ok h -> prog_ok (calls (run ms h)).
Proof.
  intros Hms Hh. unfold run. destruct (length ms =? 0); [by apply then_ok; [|constructor]|]. apply next_run_ok; [done..|]. intros j. constructor.
Qed.

Definition mw_ok (m : ioxd_mw) : Prop := forall r, mprog_ok (m r).
Definition handler_ok (h : ioxd_handler) : Prop := forall r, prog_ok (h r).

Definition reg_op_ok (o : reg_op) : Prop :=
  match o with
  | GroupUse _ m | Use m | EndpointUse _ m => mw_ok m
  | Route _ _ _ f => handler_ok f
  | GroupBegin _ ms => Forall mw_ok ms
  | Endpoint _ _ f ms => handler_ok f /\ Forall mw_ok ms
  | Default f => handler_ok f
  | _ => True
  end.

(** Everything a registry holds. *)
Record holds (g : router) : Prop := {
  h_groups : Forall (fun gr => Forall mw_ok (mws gr)) (groups g);
  h_eps : Forall (fun ep => handler_ok (fn ep) /\ Forall mw_ok (own ep)) (g_first g);
  h_fallback : handler_ok (g_fallback g)
}.

Lemma group_use_holds g i m : holds g -> mw_ok m -> holds (ioxd_group_use g i m).
Proof.
  intros [H1 H2 H3] Hm. unfold ioxd_group_use. destruct (g_built g); [done|]. set (n := match i with Some i => i | None => 0 end). destruct (groups g !! n) as [gr|] eqn:E; [|done].
  destruct (length (mws gr) =? IOXD_MAX_MW); [done|]. split; cbn; try done. apply Forall_alter; [done|]. intros x _ Hx. cbn. apply Forall_app. split; [done|by constructor].
Qed.

Lemma endpoint_use_holds g e m : holds g -> mw_ok m -> holds (ioxd_endpoint_use g e m).
Proof.
  intros [H1 H2 H3] Hm. unfold ioxd_endpoint_use. destruct e as [i|]; [|done]. destruct (g_built g); [done|]. destruct (g_first g !! i) as [ep|] eqn:E; [|done].
  destruct (length (own ep) =? IOXD_MAX_MW); [done|]. split; cbn; try done. apply Forall_alter; [done|]. intros x _ [Hf Hx]. cbn. split; [done|]. apply Forall_app. split; [done|by constructor].
Qed.

Lemma uses_hold {X} (use : router -> X -> router) xs (P : X -> Prop) g : (forall g x, holds g -> P x -> holds (use g x)) -> holds g -> Forall P xs -> holds (fold_left use xs g).
Proof. intros Hu Hg Hxs. revert g Hg. induction Hxs as [|x xs Hx _ IH]; intros g Hg; cbn; [done|]. apply IH. by apply Hu. Qed.

Lemma group_new_holds (g : router) p s : holds g -> holds (ioxd_group_new g p s).2.
Proof. intros [H1 H2 H3]. split; cbn; try done. apply Forall_app. split; [done|]. by repeat constructor. Qed.

Lemma route_holds (g : router) i m p f : holds g -> handler_ok f -> holds (ioxd_route g i m p f).2.
Proof.
  intros [H1 H2 H3] Hf. unfold ioxd_route. destruct (g_built g); [done|]. split; cbn; try done. apply Forall_app. split; [done|]. repeat constructor; done.
Qed.

Lemma reg_do_holds (g : router) o : holds g -> reg_op_ok o -> holds (reg_do g o).
Proof.
  intros Hg Ho. assert (Hend : holds (ioxd__router_group_end g)) by (unfold ioxd__router_group_end; destruct (groups g !! g_current g) as [gr|]; [destruct (parent gr)|]; done || by destruct Hg).
  destruct o as [p s|i m|m|i m p f|e m|s ms| |o|m p f ms|f|]; cbn [reg_do reg_op_ok] in *.
  - by apply group_new_holds.
  - by apply group_use_holds.
  - unfold ioxd_use. destruct (g_built g); [done|by apply group_use_holds].
  - by apply route_holds.
  - by apply endpoint_use_holds.
  - unfold ioxd__router_group_begin. destruct (ioxd_group_new g (Some (g_current g)) s) as [i g1] eqn:E. cbn [snd]. pose proof (group_new_holds g (Some (g_current g)) s Hg) as H1. rewrite E in H1. cbn [snd] in H1.
    pose proof (uses_hold (fun g m => ioxd_group_use g (Some i) m) (take IOXD_MAX_MW ms) mw_ok g1 ltac:(intros; by apply group_use_holds) H1 (Forall_take _ _ _ Ho)) as [A1 A2 A3]. by split.
  - exact Hend.
  - unfold ioxd__router_group_pop. by destruct o.
  - unfold ioxd__router_endpoint. destruct (ioxd_route g (Some (g_current g)) m p f) as [e g1] eqn:E. cbn [snd]. pose proof (route_holds g (Some (g_current g)) m p f Hg (proj1 Ho)) as H1. rewrite E in H1. cbn [snd] in H1.
    apply (uses_hold _ _ mw_ok); [intros; by apply endpoint_use_holds|done|apply Forall_take, Ho].
  - unfold ioxd_default. destruct (g_built g); [done|]. destruct Hg. by split.
  - unfold ioxd__router_build. destruct (g_built g); [done|]. destruct Hg. by split.
Qed.

Lemma registered_holds (g : router) os g' : registered g os g' -> Forall reg_op_ok os -> holds g -> holds g'.
Proof. induction 1 as [|g o os g' _ _ IH]; intros Ho Hg; [done|]. inversion_clear Ho. apply IH; [done|]. by apply reg_do_holds. Qed.

Lemma chain_holds (g : router) ep : holds g -> registry_wf g -> ep ∈ g_first g -> Forall mw_ok (flatten_chain (groups g) ep).
Proof.
  intros [H1 H2 _] Hw Hin. unfold flatten_chain. rewrite Forall_forall in H2. destruct (H2 ep Hin) as [_ Ho]. pose proof (up_groups (S (group ep)) (groups g) (group ep)) as Hu. fold (groups_up (groups g) (group ep)) in Hu.
  revert Ho. generalize (own ep) as c. induction Hu as [|gr l Hgr _ IH]; intros c Hc; cbn; [done|]. apply IH. apply Forall_app. split; [|done]. rewrite Forall_forall in H1. by apply H1.
Qed.

(** What a built router runs for any request is within its arguments if all that was registered is. *)
Lemma routed_ok (f : ioxd_handler) os (g : router) r : registered (registry0 f) os g -> g_built g = false -> Forall reg_op_ok os -> handler_ok f -> prog_ok (ioxd__router_dispatch (ioxd__router_build g) r).
Proof.
  intros Hr Hb Ho Hf. pose proof (registered_wf _ _ _ Hr (registry0_wf f)) as Hw. assert (H0 : holds (registry0 f)) by (split; [by repeat constructor|constructor|done]).
  pose proof (registered_holds _ _ _ Hr Ho H0) as Hh. assert (Hroot : forall r, Forall mprog_ok (map (fun m => m r) (root_mws (ioxd__router_build g)))).
  { intros r'. unfold ioxd__router_build, root_mws. rewrite Hb. cbn [groups]. destruct (groups g !! 0) as [gr|] eqn:E; [|constructor]. apply Forall_fmap. eapply Forall_impl; [eapply (Forall_lookup_1 _ _ _ _ (h_groups _ Hh) E)|]. intros m Hm. apply Hm. }
  unfold ioxd__router_dispatch. destruct (walk (segments (path r)) (g_tree (ioxd__router_build g)) (Headers.method r) [] []) as [[[ep|] caps] seen] eqn:E; pose proof (lookup_spec _ _ _ _ _ _ Hw Hb E) as Hl.
  - destruct Hl as ([Ht _]%list_elem_of_In%filter_In & _). apply list_elem_of_In, list_elem_of_fmap in Ht as (e & -> & He). destruct (decode_params _ caps (route_arena r) 0) as [ps arena].
    apply run_ok; [|apply (proj1 (Forall_forall _ _) (h_eps _ Hh) e He)]. apply Forall_fmap. change (chain (served (groups g) e)) with (flatten_chain (groups g) e). eapply Forall_impl; [by apply chain_holds|]. intros m Hm. apply Hm.
  - destruct (negb (length seen =? 0)).
    + assert (Hna : forall r', prog_ok (calls (run (map (fun m => m r') (root_mws (ioxd__router_build g))) (not_allowed r')))) by (intros r'; apply run_ok; [done|]; constructor; [exact I|]; intros; constructor).
      apply pk_reply; [exact I|]. intros _. destruct (allow_value seen); [apply pk_reply; [|intros _; apply Hna]|apply Hna]. exact I.
    + apply run_ok; [done|]. change (g_fallback (ioxd__router_build g)) with (g_fallback (ioxd__router_build g)). unfold ioxd__router_build. rewrite Hb. apply (h_fallback _ Hh).
Qed.
