(* ===== verification/Json.v ===== *)
(** The JSON writer of lib/json/json.c: a document written call by call straight into the tail of a reply's
    slab, a pipe's or a buffer, its nesting and commas kept in one bit a level. The writer is defined
    against the [Sink] class; the three kinds of sink of the code are its instance. The number of digits of
    a double is printf's and strtod's affair: they are parameters. *)
From S2P Require Import Prelude Slices Writer Headers Response Context Reply.

#[local] Arguments Nat.ltb : simpl never.
#[local] Arguments Nat.leb : simpl never.
#[local] Arguments lit : simpl never.

(** The double quote. *)
Definition QUOTE : Z := 34.

Definition RUN_MAX : nat := Z.to_nat 1024.
Definition IOXD_JSON_DEPTH : nat := 63.

(** ** Where the bytes land *)

(** What the writer asks of a sink: the room at its tail, whether it failed, room made for so many bytes ([None]:
a flush that does not end), bytes stored at the tail and counted. *)
Class Sink (T : Type) := {
  room : T -> nat;
  sink_failed : T -> bool;
  make_room : T -> nat -> option (bool * T);
  commit : T -> bytes -> T
}.

(** The three kinds: [j->kind] and [j->to]. *)
Inductive json_sink (W : Type) `{Hooks} :=
| IOXD_JSON_TO_REPLY (c : ctx W)
| IOXD_JSON_TO_PIPE (pw : pipewriter) (w : W)
| IOXD_JSON_TO_MEM (p : option bytes) (cap len : nat).
Arguments IOXD_JSON_TO_REPLY {W _} _.
Arguments IOXD_JSON_TO_PIPE {W _} _ _.
Arguments IOXD_JSON_TO_MEM {W _} _ _ _.

Section Sinks.
Context {W : Type} `{Sender W} `{Hooks} (efuel : nat).

Definition tail_room (s : json_sink W) : nat :=
  match s with
  | IOXD_JSON_TO_MEM None _ _ => 0
  | IOXD_JSON_TO_MEM (Some _) cap len => cap - len
  | IOXD_JSON_TO_REPLY c => cap (out c) - len (out c)
  | IOXD_JSON_TO_PIPE pw _ => cap pw - len pw
  end.

Definition json_sink_failed (s : json_sink W) : bool :=
  match s with
  | IOXD_JSON_TO_REPLY c => Writer.failed (out c) || Response.failed (res c)
  | IOXD_JSON_TO_PIPE pw _ => Writer.failed pw
  | IOXD_JSON_TO_MEM _ _ _ => false
  end.

Definition json_make_room (s : json_sink W) (n : nat) : option (bool * json_sink W) :=
  match s with
  | IOXD_JSON_TO_REPLY c =>
      match ioxd_reserve efuel c n with
      | Some (at_, c) => Some (match at_ with Some _ => true | None => false end, IOXD_JSON_TO_REPLY c)
      | None => None
      end
  | IOXD_JSON_TO_PIPE pw w =>
      let '(at_, pw, w) := ioxd__pipewriter_reserve pw n w in
      Some (match at_ with Some _ => true | None => false end, IOXD_JSON_TO_PIPE pw w)
  | IOXD_JSON_TO_MEM _ _ _ => Some (false, s)
  end.

(** [d] copied to the tail, then [len += n]. *)
Definition fill (pw : pipewriter) (d : bytes) : pipewriter :=
  set_spans (set_buf pw (blit (buf pw) (lead pw + len pw) d)) (Writer.head pw) (len pw + length d) (tail pw).
Definition json_commit (s : json_sink W) (d : bytes) : json_sink W :=
  match s with
  | IOXD_JSON_TO_REPLY c => IOXD_JSON_TO_REPLY (set_out c (fill (out c) d) (coded c) (net c))
  | IOXD_JSON_TO_PIPE pw w => IOXD_JSON_TO_PIPE (fill pw d) w
  | IOXD_JSON_TO_MEM p cap len => IOXD_JSON_TO_MEM (match p with Some b => Some (blit b len d) | None => None end) cap (len + length d)
  end.

#[export] Instance json_sinks : Sink (json_sink W) :=
  {| room := tail_room; sink_failed := json_sink_failed; make_room := json_make_room; commit := json_commit |}.
End Sinks.

(** ** Floating point *)

(** The C library's: a double, whether it is finite, [snprintf("%.*g")] of it in the C locale ([None]: it failed), and
whether a text reads back as the same number, as a float or a double. *)
Class Floats := {
  double : Type; float : Type;
  to_double : float -> double;
  isfinite : double -> bool;
  print_g : nat -> double -> option bytes;
  reads_back : bool -> bytes -> double -> bool;
  c_locale : bool                       (* [newlocale] and [uselocale] gave one *)
}.

Section Json.
Context {T : Type} `{Sink T} `{Floats}.

(** ** The writer's state *)

Record ioxd_json := { sink : T; has_value : Z; is_object : Z; depth : nat; after_key : bool; failed : bool }.
Implicit Types j : ioxd_json.

Definition set_sink j (s : T) : ioxd_json :=
  {| sink := s; has_value := has_value j; is_object := is_object j; depth := depth j; after_key := after_key j; failed := failed j |}.
Definition set_failed j : ioxd_json :=
  {| sink := sink j; has_value := has_value j; is_object := is_object j; depth := depth j; after_key := after_key j; failed := true |}.
Definition set_levels j (hv io : Z) (d : nat) : ioxd_json :=
  {| sink := sink j; has_value := hv; is_object := io; depth := d; after_key := after_key j; failed := failed j |}.
Definition set_after_key j (b : bool) : ioxd_json :=
  {| sink := sink j; has_value := has_value j; is_object := is_object j; depth := depth j; after_key := b; failed := failed j |}.

Definition ioxd_json_init (s : T) : ioxd_json := {| sink := s; has_value := 0; is_object := 0; depth := 0; after_key := false; failed := false |}.

(** A call's answer and the state after it; one step of [a && b] goes on when the first one said true. *)
Abbreviation answer := (option (bool * ioxd_json)).
Definition and_then (a : answer) (k : ioxd_json -> answer) : answer :=
  match a with Some (true, j) => k j | Some (false, j) => Some (false, j) | None => None end.
Notation "'let*' j := a 'in' k" := (and_then a (fun j => k)) (at level 200, j name, a at level 100, k at level 200).

Definition j_make_room j (n : nat) : answer :=
  match make_room (sink j) n with
  | Some (true, s) => Some (true, set_sink j s)
  | Some (false, s) => Some (false, set_failed (set_sink j s))
  | None => None
  end.

Definition want j (n : nat) : answer :=
  if (n <=? room (sink j)) && negb (sink_failed (sink j)) then Some (true, j) else j_make_room j n.

Fixpoint put_loop (fuel : nat) j (p : bytes) : answer :=
  match p with
  | [] => Some (true, j)
  | _ :: _ =>
      match fuel with
      | 0 => None
      | S fuel =>
          let* j := (if (room (sink j) =? 0) || sink_failed (sink j) then j_make_room j (if length p <? RUN_MAX then length p else RUN_MAX) else Some (true, j)) in
          let k := if length p <? room (sink j) then length p else room (sink j) in
          put_loop fuel (set_sink j (commit (sink j) (take k p))) (drop k p)
      end
  end.
Definition put j (p : bytes) : answer := put_loop (length p) j p.

(** *** Strings *)

Definition needs_escape (c : Z) : bool := (c <? 32)%Z || (c =? QUOTE)%Z || (c =? ch "\")%Z.

Fixpoint clean_run (p : bytes) : nat :=
  match p with c :: p => if needs_escape c then 0 else S (clean_run p) | [] => 0 end.

Definition escape (c : Z) : bytes :=
  if (c =? QUOTE)%Z then lit "\" ++ [QUOTE]
  else if (c =? ch "\")%Z then lit "\\"
  else if (c =? 10)%Z then lit "\n"
  else if (c =? 13)%Z then lit "\r"
  else if (c =? 9)%Z then lit "\t"
  else if (c =? 8)%Z then lit "\b"
  else if (c =? 12)%Z then lit "\f"
  else lit "\u00" ++ [nth (Z.to_nat (Z.shiftr c 4)) Headers.digits 0%Z; nth (Z.to_nat (Z.land c 15)) Headers.digits 0%Z].

Fixpoint put_escaped_loop (fuel : nat) j (p : bytes) : answer :=
  match fuel with
  | 0 => None
  | S fuel =>
      match p with
      | [] => Some (true, j)
      | _ :: _ =>
          let run := clean_run p in
          let* j := (if negb (run =? 0) then put j (take run p) else Some (true, j)) in
          match drop run p with
          | [] => Some (true, j)
          | c :: p => let* j := put j (escape c) in put_escaped_loop fuel j p
          end
      end
  end.
Definition put_escaped j (p : bytes) : answer := put_escaped_loop (S (length p)) j p.

(** [comma] is 0 or 1; [after] a byte to follow, or 0. *)
Definition put_string j (comma : bool) (p : bytes) (after : Z) : answer :=
  let need := (if comma then 1 else 0) + length p + 2 + (if (after =? 0)%Z then 0 else 1) in
  let lead := if comma then lit "," else [] in
  let q := [QUOTE] in
  let behind := if (after =? 0)%Z then [] else [after] in
  if ((need <=? RUN_MAX) && (clean_run p =? length p)) && ((need <=? room (sink j)) && negb (sink_failed (sink j)))
  then Some (true, set_sink j (commit (sink j) (lead ++ q ++ p ++ q ++ behind)))
  else
    let* j := (if comma then put j (lit ",") else Some (true, j)) in let* j := put j q in let* j := put_escaped j p in let* j := put j q in
    if (after =? 0)%Z then Some (true, j) else put j [after].

(** *** Places *)

Definition bit (j : ioxd_json) : Z := Z.shiftl 1 (Z.of_nat (depth j)).
Definition has (m b : Z) : bool := negb (Z.land m b =? 0)%Z.

(** Whether a comma is due before the value, or -1. *)
Definition value_lead j : option bool * ioxd_json :=
  if failed j then (None, j)
  else if after_key j then (Some false, set_after_key j false)
  else if has (is_object j) (bit j) then (None, set_failed j)
  else if has (has_value j) (bit j) then (Some true, j)
  else (Some false, set_levels j (Z.lor (has_value j) (bit j)) (is_object j) (depth j)).

(** What [value_lead] and its callers do with -1. *)
Definition with_lead j (k : bool -> ioxd_json -> answer) : answer :=
  let '(comma, j) := value_lead j in match comma with None => Some (false, j) | Some comma => k comma j end.

Definition put_value j (p : bytes) : answer :=
  with_lead j (fun comma j =>
    let d := (if comma then lit "," else []) ++ p in
    let* j := want j (length d) in Some (true, set_sink j (commit (sink j) d))).

Definition open_level j (bracket : Z) : answer :=
  if failed j then Some (false, j)
  else if depth j =? IOXD_JSON_DEPTH then Some (false, set_failed j)
  else
    with_lead j (fun comma j =>
      let j := set_levels j (has_value j) (is_object j) (S (depth j)) in
      let b := bit j in
      let j := set_levels j (Z.land (has_value j) (Z.lnot b))
                 (if (bracket =? ch "{")%Z then Z.lor (is_object j) b else Z.land (is_object j) (Z.lnot b)) (depth j) in
      let d := (if comma then lit "," else []) ++ [bracket] in
      let* j := want j (length d) in Some (true, set_sink j (commit (sink j) d))).

(** ** The calls *)

Definition ioxd_json_object j : answer := open_level j (ch "{").
Definition ioxd_json_array j : answer := open_level j (ch "[").

Definition ioxd_json_end j : answer :=
  if failed j then Some (false, j)
  else if (depth j =? 0) || after_key j then Some (false, set_failed j)
  else
    let object := has (is_object j) (bit j) in
    let j := set_levels j (has_value j) (is_object j) (depth j - 1) in
    let* j := want j 1 in Some (true, set_sink j (commit (sink j) (if object then lit "}" else lit "]"))).

Definition ioxd_json_done j : bool := negb (failed j) && (depth j =? 0).

Definition ioxd__json_key_n j (name : bytes) : answer :=
  if failed j then Some (false, j)
  else if negb (has (is_object j) (bit j)) || after_key j then Some (false, set_failed j)
  else
    let comma := has (has_value j) (bit j) in
    let j := set_levels j (Z.lor (has_value j) (bit j)) (is_object j) (depth j) in
    let* j := put_string j comma name (ch ":") in Some (true, set_after_key j true).
Definition ioxd_json_key j (name : bytes) : answer := ioxd__json_key_n j name.

Definition ioxd_json_string j (s : bytes) : answer := with_lead j (fun comma j => put_string j comma s 0).

Definition digits (v : Z) : bytes := rev (uint_tmp 24 v).
Definition ioxd_json_uint j (v : Z) : answer := put_value j (digits v).
Definition json_int_text (v : Z) : bytes :=
  let magnitude := if (v <? 0)%Z then wrap64 (wrap64 (- (v + 1)) + 1) else v in
  (if (v <? 0)%Z then lit "-" else []) ++ digits magnitude.
Definition ioxd_json_int j (v : Z) : answer := put_value j (json_int_text v).

Definition ioxd_json_bool j (v : bool) : answer := if v then put_value j (lit "true") else put_value j (lit "false").
Definition ioxd_json_null j : answer := put_value j (lit "null").
Definition ioxd_json_cstr j (s : option bytes) : answer := match s with None => ioxd_json_null j | Some s => ioxd_json_string j s end.

(** [for (precision = first; precision <= last; precision++)]: the text, as soon as it reads back. *)
Fixpoint shortest_loop (n precision cap : nat) (v : double) (as_float : bool) (last : option bytes) : option bytes :=
  match n with
  | 0 => last
  | S n =>
      match print_g precision v with
      | None => None
      | Some t => if (cap <=? length t) || reads_back as_float t v then Some t else shortest_loop n (S precision) cap v as_float (Some t)
      end
  end.
Definition shortest (cap : nat) (v : double) (first last : nat) (as_float : bool) : option bytes :=
  if negb c_locale then None
  else match shortest_loop (S last - first) first cap v as_float None with
       | Some t => if cap <=? length t then None else Some t
       | None => None
       end.

Definition json_number j (t : option bytes) : answer := match t with Some t => put_value j t | None => Some (false, set_failed j) end.
Definition ioxd_json_double j (v : double) : answer :=
  if negb (isfinite v) then ioxd_json_null j else json_number j (shortest 32 v 15 17 false).
Definition ioxd_json_float j (v : float) : answer :=
  if negb (isfinite (to_double v)) then ioxd_json_null j else json_number j (shortest 32 (to_double v) 6 9 true).

Definition ioxd_json_raw j (json : bytes) : answer :=
  if length json =? 0 then Some (false, set_failed j)
  else with_lead j (fun comma j => let* j := (if comma then put j (lit ",") else Some (true, j)) in put j json).
End Json.
Arguments ioxd_json : clear implicits.

(** [ioxd_json_reply], [ioxd_json_pipe] and [ioxd_json_mem]. *)
Section Starts.
Context {W : Type} `{Sender W} `{Hooks}.
Definition ioxd_json_reply (c : ctx W) : ioxd_json (json_sink W) :=
  ioxd_json_init (IOXD_JSON_TO_REPLY (set_res c (ioxd_content_type (res c) (Some (lit "application/json"))).2)).
Definition ioxd_json_pipe (pw : pipewriter) (w : W) : ioxd_json (json_sink W) := ioxd_json_init (IOXD_JSON_TO_PIPE pw w).
Definition ioxd_json_mem (buf : option bytes) (cap : nat) : ioxd_json (json_sink W) := ioxd_json_init (IOXD_JSON_TO_MEM buf cap 0).
End Starts.

(** ** The document the calls describe *)

Inductive jvalue :=
| VNull
| VBool (b : bool)
| VNum (t : bytes)
| VStr (s : bytes)
| VRaw (t : bytes)
| VArr (l : list jvalue)
| VObj (l : list (bytes * jvalue)).

Definition quoted (s : bytes) : bytes := QUOTE :: concat (map (fun c => if needs_escape c then escape c else [c]) s) ++ [QUOTE].

Fixpoint render (v : jvalue) : bytes :=
  match v with
  | VNull => lit "null"
  | VBool b => if b then lit "true" else lit "false"
  | VNum t | VRaw t => t
  | VStr s => quoted s
  | VArr l => lit "[" ++ join_with (lit ",") (map render l) ++ lit "]"
  | VObj l => lit "{" ++ join_with (lit ",") (map (fun kv => quoted kv.1 ++ lit ":" ++ render kv.2) l) ++ lit "}"
  end.
Definition render_member (kv : bytes * jvalue) : bytes := quoted kv.1 ++ lit ":" ++ render kv.2.

(** What is open: the values at the root, and inside them an array's values or an object's members and perhaps
a key that waits for its value; the innermost first. *)
Inductive frame := FRoot (vs : list jvalue) | FArr (vs : list jvalue) | FObj (ms : list (bytes * jvalue)) (key : option bytes).

Definition add (v : jvalue) (f : frame) : option frame :=
  match f with
  | FRoot vs => Some (FRoot (vs ++ [v]))
  | FArr vs => Some (FArr (vs ++ [v]))
  | FObj ms (Some k) => Some (FObj (ms ++ [(k, v)]) None)
  | FObj _ None => None
  end.
Definition close_frame (f : frame) : option jvalue :=
  match f with FArr vs => Some (VArr vs) | FObj ms None => Some (VObj ms) | _ => None end.

Inductive jop := OpValue (v : jvalue) | OpKey (k : bytes) | OpOpen (object : bool) | OpEnd.

(** Where a call has its place, what it makes of the document. *)
Definition place (st : list frame) (o : jop) : option (list frame) :=
  match o, st with
  | OpValue v, f :: st => match add v f with Some f => Some (f :: st) | None => None end
  | OpKey k, FObj ms None :: st => Some (FObj ms (Some k) :: st)
  | OpOpen object, f :: st =>
      if length st =? IOXD_JSON_DEPTH then None
      else match add VNull f with Some _ => Some ((if object then FObj [] None else FArr []) :: f :: st) | None => None end
  | OpEnd, f :: g :: st =>
      match close_frame f with Some v => match add v g with Some g => Some (g :: st) | None => None end | None => None end
  | _, _ => None
  end.

(** *** Its text *)

Definition items (f : frame) : list bytes :=
  match f with FRoot vs | FArr vs => map render vs | FObj ms _ => map render_member ms end.
Definition pending_key (f : frame) : option bytes := match f with FObj _ k => k | _ => None end.
Definition comma_text (f : frame) : bytes := if bool_decide (items f = []) then [] else lit ",".
Definition lead_text (f : frame) : bytes := match pending_key f with Some _ => [] | None => comma_text f end.
Definition frame_text (f : frame) : bytes :=
  (match f with FRoot _ => [] | FArr _ => lit "[" | FObj _ _ => lit "{" end) ++ join_with (lit ",") (items f) ++
  match pending_key f with Some k => comma_text f ++ quoted k ++ lit ":" | None => [] end.
Definition closer (f : frame) : bytes := match f with FObj _ _ => lit "}" | _ => lit "]" end.
Fixpoint doc_text (st : list frame) : bytes :=
  match st with [] => [] | f :: st => doc_text st ++ (match st with g :: _ => lead_text g | [] => [] end) ++ frame_text f end.

Lemma map_snoc {A B} (g : A -> B) l x : map g (l ++ [x]) = map g l ++ [g x].
Proof. by rewrite map_app. Qed.

Lemma add_text v f f' : add v f = Some f' -> frame_text f' = frame_text f ++ lead_text f ++ render v.
Proof.
  destruct f as [vs|vs|ms [k|]]; cbn [add]; intros [= <-]; unfold frame_text, lead_text, comma_text; cbn [items pending_key].
  - by rewrite map_snoc, join_snoc, !app_nil_r.
  - rewrite map_snoc, join_snoc, !app_nil_r. by rewrite <- !app_assoc.
  - rewrite map_snoc, join_snoc, !app_nil_r. unfold render_member at 3. cbn [fst snd app]. by rewrite <- !app_assoc.
Qed.

Lemma close_text f v : close_frame f = Some v -> render v = frame_text f ++ closer f.
Proof.
  destruct f as [vs|vs|ms [k|]]; cbn [close_frame]; intros [= <-]; unfold frame_text; cbn [items pending_key render closer]; by rewrite <- app_assoc, app_nil_r.
Qed.

(** ** What the writer relies on *)

(** [takes s D]: the sink stands, and [D] is all the text it was given. *)
Class SinkLaws (T : Type) `{Sink T} := {
  takes : T -> bytes -> Prop;
  commit_law : forall s D d, takes s D -> length d <= room s ->
    takes (commit s d) (D ++ d) /\ room (commit s d) = room s - length d /\ sink_failed (commit s d) = sink_failed s;
  make_room_law : forall s D n s', takes s D -> make_room s n = Some (true, s') -> takes s' D /\ n <= room s' /\ sink_failed s' = false;
  make_room_ends : forall s D n, takes s D -> make_room s n <> None
}.

Section Writes.
Context {T : Type} `{SinkLaws T} `{Floats}.
Implicit Types j : ioxd_json T.
Notation "'let*' j := a 'in' k" := (and_then a (fun j => k)) (at level 200, j name, a at level 100, k at level 200).

(** The same place in the document. *)
Definition same_place j j' : Prop :=
  has_value j' = has_value j /\ is_object j' = is_object j /\ depth j' = depth j /\ after_key j' = after_key j /\ failed j' = false.

(** What writing [d] comes to: it is in, or the writer failed; and it is in when the tail has the room. *)
Definition wrote j (D d : bytes) (a : option (bool * ioxd_json T)) : Prop :=
  exists ok j', a = Some (ok, j') /\ (if ok then takes (sink j') (D ++ d) /\ same_place j j' else failed j' = true) /\
    (length d <= room (sink j) -> sink_failed (sink j) = false ->
      ok = true /\ room (sink j') = room (sink j) - length d /\ sink_failed (sink j') = false).

Lemma same_place_trans j1 j2 j3 : same_place j1 j2 -> same_place j2 j3 -> same_place j1 j3.
Proof. unfold same_place. intuition congruence. Qed.

Lemma wrote_nil j D : takes (sink j) D -> failed j = false -> wrote j D [] (Some (true, j)).
Proof.
  intros Ht Hf. exists true, j. rewrite app_nil_r. split; [done|]. split; [by repeat split|]. intros _ Hs. cbn. by rewrite Nat.sub_0_r.
Qed.

Lemma wrote_then j D d1 d2 a k : wrote j D d1 a -> (forall j', takes (sink j') (D ++ d1) -> same_place j j' -> wrote j' (D ++ d1) d2 (k j')) ->
  wrote j D (d1 ++ d2) (and_then a k).
Proof.
  intros (ok & j1 & -> & K1 & R1) Hk. destruct ok; cbn [and_then].
  - destruct K1 as [Ht Hs]. destruct (Hk j1 Ht Hs) as (ok2 & j2 & -> & K2 & R2). exists ok2, j2. split; [done|]. split.
    + destruct ok2; [|done]. destruct K2 as [Ht2 Hs2]. rewrite app_assoc. split; [done|]. by eapply same_place_trans.
    + rewrite length_app. intros Hl Hf. destruct R1 as (_ & R1 & F1); [lia|done|]. destruct R2 as (-> & R2 & F2); [lia|done|]. repeat split; [lia|done].
  - exists false, j1. split; [done|]. split; [done|]. rewrite length_app. intros Hl Hf. destruct R1 as (? & _); [lia|done|done].
Qed.

Lemma wrote_eq j D d d' a : wrote j D d a -> d = d' -> wrote j D d' a.
Proof. by intros ? <-. Qed.

(** Writing after something that left the place and the text alone, and did nothing where the room was there. *)
Lemma wrote_from j j1 D d a : same_place j j1 -> (length d <= room (sink j) -> sink_failed (sink j) = false -> j1 = j) -> wrote j1 D d a -> wrote j D d a.
Proof.
  intros Hs He (ok & j2 & -> & K2 & R2). exists ok, j2. split; [done|]. split.
  - destruct ok; [|done]. destruct K2. split; [done|]. by eapply same_place_trans.
  - intros Hl Hf. specialize (He Hl Hf). subst j1. by apply R2.
Qed.

Lemma wrote_failed j D d j1 : failed j1 = true -> (length d <= room (sink j) -> sink_failed (sink j) = true) -> wrote j D d (Some (false, j1)).
Proof. intros Hf Hl. exists false, j1. split; [done|]. split; [done|]. intros Hr Hs. rewrite Hl in Hs; done. Qed.

Lemma commit_wrote j D d : takes (sink j) D -> failed j = false -> length d <= room (sink j) -> wrote j D d (Some (true, set_sink j (commit (sink j) d))).
Proof.
  intros Ht Hf Hl. destruct (commit_law _ _ _ Ht Hl) as (K1 & K2 & K3). exists true, (set_sink j (commit (sink j) d)). split; [done|].
  split; [split; [done|by repeat split]|]. cbn. intros _ Hs. by rewrite K2, K3.
Qed.

Lemma j_make_room_spec j D n : takes (sink j) D -> failed j = false ->
  exists ok j', j_make_room j n = Some (ok, j') /\
    if ok then takes (sink j') D /\ same_place j j' /\ n <= room (sink j') /\ sink_failed (sink j') = false else failed j' = true.
Proof.
  intros Ht Hf. unfold j_make_room. pose proof (make_room_ends _ _ n Ht) as He. destruct (make_room (sink j) n) as [[[] s]|] eqn:E; [| |done].
  - destruct (make_room_law _ _ _ _ Ht E) as (? & ? & ?). eexists true, _. split; [done|]. cbn. by repeat split.
  - by eexists false, _.
Qed.

(** Room made only when it is short or the sink failed, then something written from there. *)
Lemma make_room_wrote j D d n (b : bool) k : takes (sink j) D -> failed j = false -> (b = true -> length d <= room (sink j) -> sink_failed (sink j) = true) ->
  (forall j', takes (sink j') D -> failed j' = false -> (b = true -> n <= room (sink j')) -> (b = false -> j' = j) -> wrote j' D d (k j')) ->
  wrote j D d (and_then (if b then j_make_room j n else Some (true, j)) k).
Proof.
  intros Ht Hf Hb Hk. destruct b; [|cbn [and_then]; by apply Hk]. destruct (j_make_room_spec j D n Ht Hf) as (ok & j1 & -> & Hok). destruct ok; cbn [and_then].
  - destruct Hok as (Ht1 & Hs1 & Hr1 & _). apply (wrote_from j j1); [done| |].
    + intros Hl Hs. rewrite Hb in Hs; done.
    + apply Hk; [done|apply Hs1|done|done].
  - by apply wrote_failed; [|apply Hb].
Qed.

Lemma want_wrote j D d : takes (sink j) D -> failed j = false ->
  wrote j D d (let* j := want j (length d) in Some (true, set_sink j (commit (sink j) d))).
Proof.
  intros Ht Hf. unfold want. rewrite <- if_negb. apply make_room_wrote; [done|done| |].
  - intros Hb Hl. apply negb_true_iff, andb_false_iff in Hb as [Hb|Hb]; [apply Nat.leb_gt in Hb; lia|by apply negb_false_iff in Hb].
  - intros j' Ht' Hf' Hr He. apply commit_wrote; [done|done|]. destruct (_ && _) eqn:E; cbn [negb] in *; [|by apply Hr].
    rewrite He by done. apply andb_true_iff in E as [E _]. by apply Nat.leb_le.
Qed.

Lemma put_loop_wrote fuel j D p : length p <= fuel -> takes (sink j) D -> failed j = false -> wrote j D p (put_loop fuel j p).
Proof.
  revert j D p. induction fuel as [|fuel IH]; intros j D p Hl Ht Hf; [destruct p; [by apply wrote_nil|cbn in Hl; lia]|].
  destruct p as [|x p]; [by apply wrote_nil|]. cbn [put_loop]. set (q := x :: p) in *. assert (Hq : 0 < length q) by (cbn; lia).
  apply make_room_wrote; [done|done| |].
  - intros Hb Hr. apply orb_true_iff in Hb as [Hb|Hb]; [apply Nat.eqb_eq in Hb; lia|done].
  - intros j' Ht' Hf' Hr He. assert (Hroom : 0 < room (sink j')).
    { destruct (_ || _) eqn:E; [specialize (Hr eq_refl); destruct (length q <? RUN_MAX); unfold RUN_MAX in *; lia|].
      rewrite He by done. apply orb_false_iff in E as [E _]. apply Nat.eqb_neq in E. lia. }
    set (k := if length q <? room (sink j') then length q else room (sink j')).
    assert (Hk : 0 < k <= length q /\ k <= room (sink j')) by (unfold k; destruct (Nat.ltb_spec (length q) (room (sink j'))); lia).
    eapply wrote_eq; [|apply (take_drop k)].
    apply (wrote_then j' D (take k q) (drop k q) (Some (true, set_sink j' (commit (sink j') (take k q)))) (fun j => put_loop fuel j (drop k q))).
    + apply commit_wrote; [done|done|]. rewrite length_take. lia.
    + intros j2 Ht2 Hs2. apply IH; [rewrite length_drop; lia|done|apply Hs2].
Qed.

Lemma put_wrote j D p : takes (sink j) D -> failed j = false -> wrote j D p (put j p).
Proof. by apply put_loop_wrote. Qed.

(** *** A string *)

Definition esc1 (c : Z) : bytes := if needs_escape c then escape c else [c].

Lemma clean_run_esc p : concat (map esc1 p) = take (clean_run p) p ++ concat (map esc1 (drop (clean_run p) p)).
Proof. induction p as [|c p IH]; [done|]. cbn [clean_run]. destruct (needs_escape c) eqn:E; [done|]. cbn [map concat take drop]. unfold esc1 at 1. rewrite E, IH. done. Qed.

Lemma clean_run_all p : clean_run p = length p -> concat (map esc1 p) = p.
Proof. intros Hc. rewrite clean_run_esc, Hc, firstn_all, drop_all. by rewrite app_nil_r. Qed.

Lemma clean_run_next p c p' : drop (clean_run p) p = c :: p' -> needs_escape c = true.
Proof. induction p as [|x p IH]; [done|]. cbn [clean_run]. destruct (needs_escape x) eqn:E; [by intros [= <- _]|exact IH]. Qed.

Lemma put_escaped_wrote j D p : takes (sink j) D -> failed j = false -> wrote j D (concat (map esc1 p)) (put_escaped j p).
Proof.
  unfold put_escaped. assert (Hl : length p < S (length p)) by lia. revert Hl. generalize (S (length p)) as fuel. intros fuel. revert j D p.
  induction fuel as [|fuel IH]; intros j D p Hl Ht Hf; [lia|]. cbn [put_escaped_loop]. destruct p as [|x p]; [by apply wrote_nil|]. set (q := x :: p) in *.
  rewrite clean_run_esc. pose proof (clean_run_next q) as Hn. assert (Hq : length (drop (clean_run q) q) <= length q) by (rewrite length_drop; lia). apply wrote_then.
  - destruct (Nat.eqb_spec (clean_run q) 0) as [->|Hr]; cbn [negb]; [by apply wrote_nil|by apply put_wrote].
  - intros j1 Ht1 Hs1. destruct (drop (clean_run q) q) as [|c p'] eqn:E; [apply wrote_nil; [done|apply Hs1]|]. cbn [map concat].
    unfold esc1 at 1. rewrite (Hn c p' eq_refl). apply wrote_then; [apply put_wrote; [done|apply Hs1]|].
    intros j2 Ht2 Hs2. apply IH; [cbn in *; lia|done|apply Hs2].
Qed.

Lemma put_string_wrote j D (comma : bool) p after : takes (sink j) D -> failed j = false ->
  wrote j D ((if comma then lit "," else []) ++ quoted p ++ (if (after =? 0)%Z then [] else [after])) (put_string j comma p after).
Proof.
  intros Ht Hf. unfold put_string. destruct (_ && _) eqn:E.
  - apply andb_true_iff in E as [Ec Er]. apply andb_true_iff in Ec as [_ Ec]. apply andb_true_iff in Er as [Er _]. apply Nat.eqb_eq in Ec. apply Nat.leb_le in Er.
    eapply wrote_eq; [apply commit_wrote; [done|done|]|].
    + rewrite !length_app. assert (length (lit ",") = 1) by done. destruct comma, (after =? 0)%Z; cbn [length] in *; lia.
    + unfold quoted. change (map (fun c => if needs_escape c then escape c else [c]) p) with (map esc1 p). rewrite clean_run_all by done.
      cbn [app]. by rewrite <- !app_assoc.
  - apply wrote_then; [destruct comma; [by apply put_wrote|by apply wrote_nil]|]. intros j1 Ht1 Hs1. unfold quoted. cbn [app].
    change (QUOTE :: (concat (map (fun c => if needs_escape c then escape c else [c]) p) ++ [QUOTE]) ++ (if (after =? 0)%Z then [] else [after]))
      with ([QUOTE] ++ (concat (map esc1 p) ++ [QUOTE]) ++ (if (after =? 0)%Z then [] else [after])). rewrite <- app_assoc.
    apply wrote_then; [apply put_wrote; [done|apply Hs1]|]. intros j2 Ht2 Hs2. apply wrote_then; [apply put_escaped_wrote; [done|apply Hs2]|]. intros j3 Ht3 Hs3.
    apply wrote_then; [apply put_wrote; [done|apply Hs3]|]. intros j4 Ht4 Hs4. destruct (after =? 0)%Z; [apply wrote_nil; [done|apply Hs4]|apply put_wrote; [done|apply Hs4]].
Qed.
End Writes.

(** ** The masks and the places *)

Lemma bit_spec d n : Z.testbit (Z.shiftl 1 (Z.of_nat d)) (Z.of_nat n) = (n =? d).
Proof.
  rewrite Z.shiftl_1_l, Z.pow2_bits_eqb by lia. destruct (Nat.eqb_spec n d) as [->|]; [by rewrite Z.eqb_refl|]. apply Z.eqb_neq. lia.
Qed.

Lemma has_bit m d : has m (Z.shiftl 1 (Z.of_nat d)) = Z.testbit m (Z.of_nat d).
Proof.
  unfold has. destruct (Z.testbit m (Z.of_nat d)) eqn:E.
  - apply negb_true_iff, Z.eqb_neq. intros Hz. assert (Hb : Z.testbit (Z.land m (Z.shiftl 1 (Z.of_nat d))) (Z.of_nat d) = true)
      by (by rewrite Z.land_spec, E, bit_spec, Nat.eqb_refl). rewrite Hz, Z.bits_0 in Hb. done.
  - apply negb_false_iff, Z.eqb_eq, Z.bits_inj'. intros n Hn. rewrite Z.land_spec, Z.bits_0. replace n with (Z.of_nat (Z.to_nat n)) by lia. rewrite bit_spec.
    destruct (Nat.eqb_spec (Z.to_nat n) d) as [->|]; [by rewrite E|by rewrite andb_false_r].
Qed.

Lemma set_bit m d n : Z.testbit (Z.lor m (Z.shiftl 1 (Z.of_nat d))) (Z.of_nat n) = Z.testbit m (Z.of_nat n) || (n =? d).
Proof. by rewrite Z.lor_spec, bit_spec. Qed.

Lemma clear_bit m d n : Z.testbit (Z.land m (Z.lnot (Z.shiftl 1 (Z.of_nat d)))) (Z.of_nat n) = Z.testbit m (Z.of_nat n) && negb (n =? d).
Proof. by rewrite Z.land_spec, Z.lnot_spec, bit_spec by lia. Qed.

Definition is_obj (f : frame) : bool := match f with FObj _ _ => true | _ => false end.
Definition is_root (f : frame) : bool := match f with FRoot _ => true | _ => false end.
Definition has_key (f : frame) : bool := match pending_key f with Some _ => true | None => false end.
Definition occupied (f : frame) : bool := negb (bool_decide (items f = [])) || has_key f.

Definition can_take (f : frame) : bool := match f with FObj _ None => false | _ => true end.

Lemma can_take_add f : can_take f = true <-> exists f', add VNull f = Some f'.
Proof. destruct f as [vs|vs|ms [k|]]; cbn; naive_solver. Qed.

(** One bit a level: a value is there, and it is an object; what is under the top waits for the value the top is. *)
Record levels {T} (j : ioxd_json T) (f : frame) (st : list frame) : Prop := {
  lv_depth : length st = depth j;
  lv_max : depth j <= IOXD_JSON_DEPTH;
  lv_key : after_key j = has_key f;
  lv_top : Z.testbit (has_value j) (Z.of_nat (depth j)) = occupied f;
  lv_below : forall i, i < depth j -> Z.testbit (has_value j) (Z.of_nat i) = true;
  lv_objs : forall i g, (f :: st) !! i = Some g -> Z.testbit (is_object j) (Z.of_nat (depth j - i)) = is_obj g;
  lv_root : forall i g, (f :: st) !! i = Some g -> is_root g = (i =? depth j);
  lv_under : Forall (fun g => can_take g = true) st
}.

Lemma levels_same {T} (j j' : ioxd_json T) f st : same_place j j' -> levels j f st -> levels j' f st.
Proof. intros (E1 & E2 & E3 & E4 & _) []. split; rewrite ?E1, ?E2, ?E3, ?E4; auto. Qed.

Lemma add_frame v f f' : add v f = Some f' -> is_obj f' = is_obj f /\ is_root f' = is_root f /\ has_key f' = false /\ occupied f' = true.
Proof.
  assert (Hs : forall {A B} (g : A -> B) l x, bool_decide (map g (l ++ [x]) = []) = false) by (intros; apply bool_decide_false; destruct l; done).
  destruct f as [vs|vs|ms [k|]]; cbn [add]; intros [= <-]; unfold occupied; cbn [items is_obj is_root has_key pending_key]; by rewrite Hs.
Qed.

Lemma add_any v v' f f' : add v f = Some f' -> exists f2, add v' f = Some f2.
Proof. destruct f as [vs|vs|ms [k|]]; cbn; eauto. Qed.

(** The top frame changed, the masks with it. *)
Lemma levels_top {T} (j j' : ioxd_json T) f f' st : levels j f st -> is_obj f' = is_obj f -> is_root f' = is_root f ->
  depth j' = depth j -> is_object j' = is_object j -> after_key j' = has_key f' ->
  (forall i, i < depth j -> Z.testbit (has_value j') (Z.of_nat i) = Z.testbit (has_value j) (Z.of_nat i)) ->
  Z.testbit (has_value j') (Z.of_nat (depth j)) = occupied f' -> levels j' f' st.
Proof.
  intros [] Ho Hr Hd Hio Hk Hlow Htop. split; rewrite ?Hd, ?Hio; try done.
  - intros i Hi. rewrite Hlow by done. by apply lv_below0.
  - intros [|i] g Hg; [injection Hg as <-; rewrite Ho; by apply (lv_objs0 0)|by apply (lv_objs0 (S i))].
  - intros [|i] g Hg; [injection Hg as <-; rewrite Hr; by apply (lv_root0 0)|by apply (lv_root0 (S i))].
Qed.

Section Calls.
Context {T : Type} `{SinkLaws T} `{Floats}.
Implicit Types j : ioxd_json T.

Definition doc_ok (D : bytes) j (st : list frame) : Prop :=
  exists f rest, st = f :: rest /\ takes (sink j) (D ++ doc_text st) /\ failed j = false /\ levels j f rest.

(** What a call comes to: its place is there and the document has it, or the writer failed; and it is in when it
has a place and the tail has the room for its text. *)
Definition called (D : bytes) j (st : list frame) (o : option jop) (a : option (bool * ioxd_json T)) : Prop :=
  exists ok j', a = Some (ok, j') /\
    (if ok then exists o' st', o = Some o' /\ place st o' = Some st' /\ doc_ok D j' st' else failed j' = true) /\
    (forall o' st', o = Some o' -> place st o' = Some st' -> sink_failed (sink j) = false ->
      length (doc_text st') <= length (doc_text st) + room (sink j) ->
      ok = true /\ length (doc_text st') + room (sink j') = length (doc_text st) + room (sink j) /\ sink_failed (sink j') = false).

Lemma called_refused D j st o j' : failed j' = true -> (forall o', o = Some o' -> place st o' = None) -> called D j st o (Some (false, j')).
Proof. intros Hf Hp. exists false, j'. split; [done|]. split; [done|]. intros o' st' Ho Hst. rewrite Hp in Hst; done. Qed.

(** The text written, with the place it goes to. *)
Lemma called_wrote D j j1 st o st' d a : place st o = Some st' -> sink j1 = sink j -> doc_text st' = doc_text st ++ d ->
  wrote j1 (D ++ doc_text st) d a -> (forall j2, takes (sink j2) (D ++ doc_text st') -> same_place j1 j2 -> doc_ok D j2 st') -> called D j st (Some o) a.
Proof.
  intros Hp Hs Hd (ok & j2 & -> & K & R) Hok. exists ok, j2. split; [done|]. split.
  - destruct ok; [|done]. destruct K as [Ht Hsame]. exists o, st'. split; [done|]. split; [done|]. apply Hok; [|done]. by rewrite Hd, app_assoc.
  - intros o' st2 [= <-] Hst Hf Hl. rewrite Hp in Hst. injection Hst as <-. rewrite Hs in R. rewrite Hd, length_app in *. destruct R as (-> & R & R2); [lia|done|].
    split; [done|]. split; [lia|done].
Qed.

(** A value's lead: whether a comma is due, and the level marked; or the frame takes no value now. *)
Lemma lead_spec j f rest : failed j = false -> levels j f rest ->
  match value_lead j with
  | (None, j1) => failed j1 = true /\ forall v, add v f = None
  | (Some comma, j1) => (forall v, exists f', add v f = Some f') /\ lead_text f = (if comma then lit "," else []) /\ sink j1 = sink j /\ failed j1 = false /\
      depth j1 = depth j /\ is_object j1 = is_object j /\ after_key j1 = false /\
      (forall i, i < depth j -> Z.testbit (has_value j1) (Z.of_nat i) = Z.testbit (has_value j) (Z.of_nat i)) /\
      Z.testbit (has_value j1) (Z.of_nat (depth j)) = true
  end.
Proof.
  intros Hf [Hd Hm Hkey Htop Hlow Hobj Hroot]. unfold value_lead. rewrite Hf. unfold bit. rewrite !has_bit. pose proof (Hobj 0 f eq_refl) as Ho0. rewrite Nat.sub_0_r in Ho0.
  assert (Hmark : forall i, i < depth j -> Z.testbit (Z.lor (has_value j) (Z.shiftl 1 (Z.of_nat (depth j)))) (Z.of_nat i) = Z.testbit (has_value j) (Z.of_nat i)).
  { intros i Hi. rewrite set_bit. destruct (Nat.eqb_spec i (depth j)); [lia|by rewrite orb_false_r]. }
  assert (Hmarked : Z.testbit (Z.lor (has_value j) (Z.shiftl 1 (Z.of_nat (depth j)))) (Z.of_nat (depth j)) = true) by (by rewrite set_bit, Nat.eqb_refl, orb_true_r).
  assert (Hplain : pending_key f = None -> is_obj f = false -> (forall v, exists f', add v f = Some f') ->
    match (if Z.testbit (has_value j) (Z.of_nat (depth j)) then (Some true, j)
           else (Some false, set_levels j (Z.lor (has_value j) (Z.shiftl 1 (Z.of_nat (depth j)))) (is_object j) (depth j))) with
    | (None, j1) => failed j1 = true /\ forall v, add v f = None
    | (Some comma, j1) => (forall v, exists f', add v f = Some f') /\ lead_text f = (if comma then lit "," else []) /\ sink j1 = sink j /\ failed j1 = false /\
        depth j1 = depth j /\ is_object j1 = is_object j /\ after_key j1 = false /\
        (forall i, i < depth j -> Z.testbit (has_value j1) (Z.of_nat i) = Z.testbit (has_value j) (Z.of_nat i)) /\
        Z.testbit (has_value j1) (Z.of_nat (depth j)) = true end).
  { intros Hp Ho Ha. assert (Hak : after_key j = false) by (unfold has_key in Hkey; by rewrite Hkey, Hp). assert (Hl : lead_text f = if Z.testbit (has_value j) (Z.of_nat (depth j)) then lit "," else []).
    { rewrite Htop. unfold lead_text, occupied, has_key, comma_text. rewrite Hp, orb_false_r. by destruct (bool_decide _). }
    destruct (Z.testbit _ _) eqn:E; by split_and!. }
  rewrite Hkey, Ho0. destruct f as [vs|vs|ms [key|]]; cbn [is_obj has_key pending_key].
  - apply Hplain; try done. cbn; eauto.
  - apply Hplain; try done. cbn; eauto.
  - split_and!; try done; [cbn; eauto|]. cbn [has_value set_after_key]. rewrite Htop. unfold occupied. cbn. apply orb_true_r.
  - done.
Qed.

Lemma value_called D j st v k : doc_ok D j st ->
  (forall (comma : bool) j1, sink j1 = sink j -> failed j1 = false -> wrote j1 (D ++ doc_text st) ((if comma then lit "," else []) ++ render v) (k comma j1)) ->
  called D j st (Some (OpValue v)) (with_lead j k).
Proof.
  intros (f & rest & -> & Ht & Hf & Hlv) Hk. unfold with_lead. pose proof (lead_spec j f rest Hf Hlv) as Hl. destruct (value_lead j) as [[comma|] j1].
  - destruct Hl as (Ha & Hlead & Es & Ef & E1 & E2 & E3 & E4 & E5). destruct (Ha v) as (f' & Hadd). destruct (add_frame v f f' Hadd) as (A1 & A2 & A3 & A4).
    eapply (called_wrote D j j1 _ _ (f' :: rest)); [cbn [place]; by rewrite Hadd|done| |by apply Hk|].
    + cbn [doc_text]. rewrite (add_text v f f' Hadd), Hlead. by rewrite <- !app_assoc.
    + intros j2 Ht2 Hs2. exists f', rest. split; [done|]. split; [done|]. split; [apply Hs2|]. eapply levels_same; [exact Hs2|].
      eapply levels_top; [exact Hlv|done..| |done|by rewrite A4]. by rewrite E3, A3.
  - destruct Hl as [Hf1 Hno]. apply called_refused; [done|]. intros o' [= <-]. cbn [place]. by rewrite Hno.
Qed.

Lemma put_value_called D j st v p : doc_ok D j st -> p = render v -> called D j st (Some (OpValue v)) (put_value j p).
Proof. intros Hd ->. unfold put_value. pose proof Hd as (f & rest & -> & Ht & _). apply value_called; [done|]. intros comma j1 Hs Hf. apply want_wrote; [by rewrite Hs|done]. Qed.

Lemma string_called D j st s : doc_ok D j st -> called D j st (Some (OpValue (VStr s))) (ioxd_json_string j s).
Proof.
  intros Hd. pose proof Hd as (f & rest & -> & Ht & _). apply value_called; [done|]. intros comma j1 Hs Hf.
  eapply wrote_eq; [apply put_string_wrote; [by rewrite Hs|done]|]. cbn. by rewrite app_nil_r.
Qed.

Lemma raw_called D j st t : doc_ok D j st -> called D j st (if length t =? 0 then None else Some (OpValue (VRaw t))) (ioxd_json_raw j t).
Proof.
  intros Hd. unfold ioxd_json_raw. destruct (length t =? 0); [by apply called_refused|]. pose proof Hd as (f & rest & -> & Ht & _).
  apply value_called; [done|]. intros comma j1 Hs Hf. apply wrote_then.
  - destruct comma; [apply put_wrote|apply wrote_nil]; by rewrite ?Hs.
  - intros j2 Ht2 Hs2. apply put_wrote; [done|apply Hs2].
Qed.

Lemma key_called D j st k : doc_ok D j st -> called D j st (Some (OpKey k)) (ioxd__json_key_n j k).
Proof.
  intros (f & rest & -> & Ht & Hf & Hlv). unfold ioxd__json_key_n. rewrite Hf. pose proof Hlv as [Hd Hm Hkey Htop Hlow Hobj Hroot Hund].
  unfold bit. rewrite !has_bit. pose proof (Hobj 0 f eq_refl) as Ho0. rewrite Nat.sub_0_r in Ho0. rewrite Ho0, Hkey, Htop.
  destruct f as [vs|vs|ms [key|]]; cbn [is_obj has_key pending_key negb orb]; [by apply called_refused; [|intros o' [= <-]]..|].
  set (j1 := set_levels j _ _ _). set (comma := occupied _).
  assert (Hc : (if comma then lit "," else []) = comma_text (FObj ms None)).
  { unfold comma, occupied, comma_text. cbn [items has_key pending_key]. rewrite orb_false_r. by destruct (bool_decide _). }
  pose proof (put_string_wrote j1 (D ++ doc_text (FObj ms None :: rest)) comma k (ch ":") Ht Hf) as Hw. rewrite Hc in Hw.
  assert (Hlv1 : forall j2, same_place j1 j2 -> levels (set_after_key j2 true) (FObj ms (Some k)) rest).
  { intros j2 (E1 & E2 & E3 & E4 & E5). eapply levels_top; [exact Hlv|done|done|exact E3|exact E2|done| |]; cbn [has_value set_after_key]; rewrite E1; cbn [has_value set_levels j1].
    - intros i Hi. rewrite set_bit. destruct (Nat.eqb_spec i (depth j)); [lia|by rewrite orb_false_r].
    - rewrite set_bit, Nat.eqb_refl, orb_true_r. unfold occupied. cbn. by rewrite orb_true_r. }
  assert (Htext : doc_text (FObj ms (Some k) :: rest) = doc_text (FObj ms None :: rest) ++ (comma_text (FObj ms None) ++ quoted k ++ lit ":")).
  { cbn [doc_text]. unfold frame_text. cbn [items pending_key]. rewrite app_nil_r. by rewrite <- !app_assoc. }
  destruct Hw as (ok & j2 & -> & K & R). cbn [and_then]. change (room (sink j1)) with (room (sink j)) in R. change (sink_failed (sink j1)) with (sink_failed (sink j)) in R. change (if (ch ":" =? 0)%Z then [] else [ch ":"]) with (lit ":") in *.
  set (d := comma_text (FObj ms None) ++ quoted k ++ lit ":") in *. destruct ok.
  - destruct K as [Ht2 Hs2]. exists true, (set_after_key j2 true). split; [done|]. split.
    + exists (OpKey k), (FObj ms (Some k) :: rest). split; [done|]. split; [done|]. exists (FObj ms (Some k)), rest. split; [done|]. split; [by rewrite Htext, app_assoc|].
      split; [apply Hs2|]. by apply Hlv1.
    + intros o' st' [= <-] [= <-] Hsf Hl. rewrite Htext, length_app in *. destruct R as (_ & R1 & R2); [lia|done|]. split; [done|]. split; [cbn [sink set_after_key]; lia|exact R2].
  - exists false, j2. split; [done|]. split; [done|]. intros o' st' [= <-] [= <-] Hsf Hl. rewrite Htext, length_app in Hl. destruct R as (? & _); [lia|done|done].
Qed.

Lemma open_called D j st (object : bool) : doc_ok D j st -> called D j st (Some (OpOpen object)) (open_level j (if object then ch "{" else ch "[")).
Proof.
  intros Hdoc. pose proof Hdoc as (f & rest & -> & Ht & Hf & Hlv). unfold open_level. rewrite Hf. pose proof Hlv as [Hd Hm Hkey Htop Hlow Hobj Hroot Hund].
  destruct (Nat.eqb_spec (depth j) IOXD_JSON_DEPTH) as [He|He].
  { apply called_refused; [done|]. intros o' [= <-]. cbn [place]. by rewrite Hd, He, Nat.eqb_refl. }
  unfold with_lead. pose proof (lead_spec j f rest Hf Hlv) as Hl. destruct (value_lead j) as [[comma|] j1].
  2: { destruct Hl as [Hf1 Hno]. apply called_refused; [done|]. intros o' [= <-]. cbn [place]. rewrite Hno. by destruct (_ =? _). }
  destruct Hl as (Ha & Hlead & Es & Ef & E1 & E2 & E3 & E4 & E5). set (j2 := set_levels (set_levels j1 _ _ _) _ _ _). destruct (Ha VNull) as (f' & Hadd).
  set (new := if object then FObj [] None else FArr []). assert (Hb : ((if object then ch "{" else ch "[") =? ch "{")%Z = object) by (by destruct object).
  eapply (called_wrote D j j2 _ _ (new :: f :: rest)); [|exact Es| |apply want_wrote; [by change (sink j2) with (sink j1); rewrite Es|done]|].
  - cbn [place]. rewrite Hadd, Hd. destruct (Nat.eqb_spec (depth j) IOXD_JSON_DEPTH); [done|]. done.
  - cbn [doc_text]. rewrite Hlead. unfold new. by destruct object.
  - intros j3 Ht3 Hs3. exists new, (f :: rest). split; [done|]. split; [done|]. split; [apply Hs3|]. eapply levels_same; [exact Hs3|].
    assert (Hdep : depth j2 = S (depth j)) by (cbn; by rewrite E1). assert (Hbit : bit (set_levels j1 (has_value j1) (is_object j1) (S (depth j1))) = Z.shiftl 1 (Z.of_nat (S (depth j)))) by (unfold bit; cbn [depth set_levels]; by rewrite E1).
    assert (Hvals : has_value j2 = Z.land (has_value j1) (Z.lnot (Z.shiftl 1 (Z.of_nat (S (depth j)))))) by (rewrite <- Hbit; done).
    assert (Hobjs : is_object j2 = if object then Z.lor (is_object j) (Z.shiftl 1 (Z.of_nat (S (depth j)))) else Z.land (is_object j) (Z.lnot (Z.shiftl 1 (Z.of_nat (S (depth j)))))).
    { rewrite <- Hbit, <- E2. change (is_object j2) with (if ((if object then ch "{" else ch "[") =? ch "{")%Z then Z.lor (is_object j1) (bit (set_levels j1 (has_value j1) (is_object j1) (S (depth j1)))) else Z.land (is_object j1) (Z.lnot (bit (set_levels j1 (has_value j1) (is_object j1) (S (depth j1)))))). by rewrite Hb. }
    split; rewrite ?Hdep.
    + cbn. by rewrite Hd.
    + lia.
    + change (after_key j2) with (after_key j1). rewrite E3. unfold new. by destruct object.
    + rewrite Hvals, clear_bit, Nat.eqb_refl, andb_false_r. unfold new. by destruct object.
    + intros i Hi. rewrite Hvals, clear_bit. destruct (Nat.eqb_spec i (S (depth j))); [lia|]. rewrite andb_true_r. destruct (decide (i = depth j)) as [->|]; [done|].
      rewrite E4 by lia. apply Hlow. lia.
    + intros [|i] g Hg.
      * injection Hg as <-. rewrite Nat.sub_0_r, Hobjs. unfold new. destruct object; [by rewrite set_bit, Nat.eqb_refl, orb_true_r|by rewrite clear_bit, Nat.eqb_refl, andb_false_r].
      * cbn [Nat.sub]. rewrite <- (Hobj i g Hg), Hobjs. assert (Hne : (depth j - i =? S (depth j)) = false) by (apply Nat.eqb_neq; lia).
        destruct object; rewrite ?set_bit, ?clear_bit, Hne; [apply orb_false_r|apply andb_true_r].
    + intros [|i] g Hg; [injection Hg as <-; unfold new; by destruct object|]. rewrite (Hroot i g Hg). done.
    + constructor; [|done]. apply can_take_add. eauto.
Qed.

Lemma end_called D j st : doc_ok D j st -> called D j st (Some OpEnd) (ioxd_json_end j).
Proof.
  intros (f & rest & -> & Ht & Hf & Hlv). unfold ioxd_json_end. rewrite Hf. pose proof Hlv as [Hd Hm Hkey Htop Hlow Hobj Hroot Hund].
  pose proof (Hobj 0 f eq_refl) as Ho0. rewrite Nat.sub_0_r in Ho0. unfold bit. rewrite has_bit, Ho0, Hkey.
  destruct rest as [|g rest]; [cbn in Hd; rewrite <- Hd; by apply called_refused; [|intros o' [= <-]; cbn; by destruct (close_frame f)]|].
  destruct (Nat.eqb_spec (depth j) 0) as [Hz|Hz]; [by rewrite Hz in Hd|]. cbn [orb]. destruct (has_key f) eqn:Hhk.
  { apply called_refused; [done|]. intros o' [= <-]. cbn [place]. destruct f as [vs|vs|ms [key|]]; try done. }
  pose proof (Hroot 0 f eq_refl) as Hr0. assert (Hrf : is_root f = false) by (rewrite Hr0; apply Nat.eqb_neq; lia).
  destruct (close_frame f) as [v|] eqn:Ec; [|by destruct f as [vs|vs|ms [key|]]]. inversion Hund as [|? ? Hg Hund']; subst.
  apply can_take_add in Hg as (g0 & Hg). destruct (add_any VNull v g g0 Hg) as (g' & Hadd). destruct (add_frame v g g' Hadd) as (A1 & A2 & A3 & A4).
  set (j1 := set_levels j _ _ _). cbn [length] in Hd. assert (Hcl : closer f = if is_obj f then lit "}" else lit "]") by (by destruct f). rewrite <- Hcl.
  assert (Hlen : length (closer f) = 1) by (by destruct f). rewrite <- Hlen.
  eapply (called_wrote D j j1 _ _ (g' :: rest)); [cbn [place]; by rewrite Ec, Hadd|done| |by apply want_wrote|].
  - cbn [doc_text]. rewrite (add_text v g g' Hadd), (close_text f v Ec). by rewrite <- !app_assoc.
  - intros j3 Ht3 Hs3. exists g', rest. split; [done|]. split; [done|]. split; [apply Hs3|]. eapply levels_same; [exact Hs3|].
    assert (Hdep : depth j1 = depth j - 1) by done. split; rewrite ?Hdep; cbn [has_value is_object after_key j1 set_levels].
    + lia.
    + lia.
    + by rewrite Hkey, A3.
    + rewrite Hlow by lia. by rewrite A4.
    + intros i Hi. apply Hlow. lia.
    + intros i h Hh. destruct i as [|i].
      * injection Hh as <-. rewrite A1. rewrite <- (Hobj 1 g eq_refl). do 2 f_equal. lia.
      * rewrite <- (Hobj (S (S i)) h Hh). do 2 f_equal. lia.
    + intros i h Hh. destruct i as [|i].
      * injection Hh as <-. rewrite A2, (Hroot 1 g eq_refl). destruct (depth j) as [|[|]]; [done|done|done].
      * rewrite (Hroot (S (S i)) h Hh). destruct (depth j) as [|k] eqn:Ek; [lia|]. cbn [Nat.eqb Nat.sub]. by rewrite Nat.sub_0_r.
    + done.
Qed.

(** *** Any sequence of calls *)

Inductive jcall :=
| CObject | CArray | CEnd
| CKey (name : bytes) | CString (s : bytes) | CCstr (s : option bytes)
| CUint (v : Z) | CInt (v : Z) | CDouble (v : double) | CFloat (v : float)
| CBool (v : bool) | CNull | CRaw (t : bytes).

Definition call (c : jcall) j : option (bool * ioxd_json T) :=
  match c with
  | CObject => ioxd_json_object j
  | CArray => ioxd_json_array j
  | CEnd => ioxd_json_end j
  | CKey k => ioxd_json_key j k
  | CString s => ioxd_json_string j s
  | CCstr s => ioxd_json_cstr j s
  | CUint v => ioxd_json_uint j v
  | CInt v => ioxd_json_int j v
  | CDouble v => ioxd_json_double j v
  | CFloat v => ioxd_json_float j v
  | CBool b => ioxd_json_bool j b
  | CNull => ioxd_json_null j
  | CRaw t => ioxd_json_raw j t
  end.

(** What each means; a number that could not be printed and an empty raw text mean nothing. *)
Definition number_op (finite : bool) (t : option bytes) : option jop :=
  if negb finite then Some (OpValue VNull) else match t with Some t => Some (OpValue (VNum t)) | None => None end.
Definition meaning (c : jcall) : option jop :=
  match c with
  | CObject => Some (OpOpen true)
  | CArray => Some (OpOpen false)
  | CEnd => Some OpEnd
  | CKey k => Some (OpKey k)
  | CString s => Some (OpValue (VStr s))
  | CCstr s => Some (OpValue (match s with Some s => VStr s | None => VNull end))
  | CUint v => Some (OpValue (VNum (digits v)))
  | CInt v => Some (OpValue (VNum (json_int_text v)))
  | CDouble v => number_op (isfinite v) (shortest 32 v 15 17 false)
  | CFloat v => number_op (isfinite (to_double v)) (shortest 32 (to_double v) 6 9 true)
  | CBool b => Some (OpValue (VBool b))
  | CNull => Some (OpValue VNull)
  | CRaw t => if length t =? 0 then None else Some (OpValue (VRaw t))
  end.

(** The document the calls make, as long as each has a place in it. *)
Fixpoint document (st : list frame) (cs : list jcall) : option (list frame) :=
  match cs with
  | [] => Some st
  | c :: cs => match meaning c with
               | Some o => match place st o with Some st => document st cs | None => None end
               | None => None
               end
  end.

(** The answers, and the writer after the last call. *)
Fixpoint calls (cs : list jcall) j : option (list bool * ioxd_json T) :=
  match cs with
  | [] => Some ([], j)
  | c :: cs =>
      match call c j with
      | Some (ok, j) => match calls cs j with Some (oks, j) => Some (ok :: oks, j) | None => None end
      | None => None
      end
  end.

Lemma number_called D j st finite t : doc_ok D j st ->
  called D j st (number_op finite t) (if negb finite then ioxd_json_null j else json_number j t).
Proof.
  intros Hd. unfold number_op, json_number. destruct finite; cbn [negb]; [|by apply put_value_called]. destruct t as [t|]; [by apply put_value_called|by apply called_refused].
Qed.

Lemma call_spec D j st c : doc_ok D j st -> called D j st (meaning c) (call c j).
Proof.
  intros Hd. destruct c as [| | |k|s|[s|]|v|v|v|v|[]| |t]; cbn [call meaning].
  - by apply (open_called D j st true).
  - by apply (open_called D j st false).
  - by apply end_called.
  - by apply key_called.
  - by apply string_called.
  - by apply string_called.
  - by apply put_value_called.
  - by apply put_value_called.
  - by apply put_value_called.
  - by apply number_called.
  - by apply number_called.
  - by apply put_value_called.
  - by apply put_value_called.
  - by apply put_value_called.
  - by apply raw_called.
Qed.

(** A writer that failed stays as it is. *)
Lemma call_failed c j : failed j = true -> exists j', call c j = Some (false, j') /\ failed j' = true.
Proof.
  intros Hf. assert (Hl : forall k, with_lead j k = Some (false, j)) by (intros; unfold with_lead, value_lead; by rewrite Hf).
  destruct c as [| | |k|s|[s|]|v|v|v|v|[]| |t]; cbn [call]; unfold ioxd_json_object, ioxd_json_array, open_level, ioxd_json_end, ioxd_json_key, ioxd__json_key_n,
    ioxd_json_cstr, ioxd_json_string, ioxd_json_uint, ioxd_json_int, ioxd_json_double, ioxd_json_float, ioxd_json_bool, ioxd_json_null, ioxd_json_raw, json_number, put_value;
    rewrite ?Hf, ?Hl; eauto.
  - destruct (negb _); [eauto|]. destruct (shortest _ _ _ _ _); rewrite ?Hl; eauto.
  - destruct (negb _); [eauto|]. destruct (shortest _ _ _ _ _); rewrite ?Hl; eauto.
  - destruct (_ =? 0); eauto.
Qed.

Lemma calls_failed cs j : failed j = true -> exists j', calls cs j = Some (repeat false (length cs), j') /\ failed j' = true.
Proof.
  revert j. induction cs as [|c cs IH]; intros j Hf; cbn [calls length repeat]; [eauto|]. destruct (call_failed c j Hf) as (j1 & -> & Hf1).
  destruct (IH j1 Hf1) as (j2 & -> & Hf2). eauto.
Qed.

Lemma place_grows st o st' : place st o = Some st' -> length (doc_text st) <= length (doc_text st').
Proof.
  destruct o as [v|k|object|], st as [|f st]; cbn [place]; try done.
  - destruct (add v f) as [f'|] eqn:E; intros [= <-]. cbn [doc_text]. rewrite (add_text v f f' E). rewrite !length_app. lia.
  - destruct f as [vs|vs|ms [|]]; intros [= <-]. cbn [doc_text]. unfold frame_text. cbn [pending_key items]. rewrite !length_app. cbn [length]. lia.
  - destruct (_ =? _); [done|]. destruct (add VNull f); intros [= <-]. cbn [doc_text]. rewrite !length_app. lia.
  - destruct st as [|g st]; [done|]. destruct (close_frame f) as [v|] eqn:Ec; [|done]. destruct (add v g) as [g'|] eqn:E; intros [= <-].
    cbn [doc_text]. rewrite (add_text v g g' E), (close_text f v Ec). rewrite !length_app. lia.
Qed.

Lemma document_grows st cs st' : document st cs = Some st' -> length (doc_text st) <= length (doc_text st').
Proof.
  revert st. induction cs as [|c cs IH]; intros st; cbn [document]; [by intros [= <-]|]. destruct (meaning c); [|done]. destruct (place st j) as [st1|] eqn:E; [|done].
  intros Hd%IH. apply place_grows in E. lia.
Qed.

Lemma calls_spec D j st cs : doc_ok D j st ->
  exists oks j', calls cs j = Some (oks, j') /\
    (if failed j' then exists n, n < length cs /\ oks = repeat true n ++ repeat false (length cs - n)
     else oks = repeat true (length cs) /\ exists st', document st cs = Some st' /\ doc_ok D j' st') /\
    (forall st', document st cs = Some st' -> sink_failed (sink j) = false -> length (doc_text st') <= length (doc_text st) + room (sink j) -> failed j' = false).
Proof.
  revert j st. induction cs as [|c cs IH]; intros j st Hd; cbn [calls document].
  { exists [], j. split; [done|]. destruct Hd as (f & rest & -> & Ht & Hf & Hlv). rewrite Hf. split; [split; [done|]; eexists; split; [done|]; by exists f, rest|done]. }
  destruct (call_spec D j st c Hd) as (ok & j1 & -> & K & R). destruct ok.
  - destruct K as (o & st1 & Eo & Ep & Hd1). destruct (IH j1 st1 Hd1) as (oks & j2 & -> & K2 & R2). exists (true :: oks), j2. split; [done|]. rewrite Eo, Ep. split.
    + destruct (failed j2); [|destruct K2 as (-> & K2); by split]. destruct K2 as (n & Hn & ->). exists (S n). cbn [length repeat]. split; [lia|done].
    + intros st' Hst Hs Hl. pose proof (document_grows _ _ _ Hst). destruct (R o st1 Eo Ep Hs) as (_ & Hr & Hs1); [lia|]. apply (R2 st'); [done|done|lia].
  - destruct (calls_failed cs j1 K) as (j2 & -> & Hf2). exists (false :: repeat false (length cs)), j2. split; [done|]. rewrite Hf2. split.
    + exists 0. split; [cbn; lia|done].
    + intros st' Hst Hs Hl. destruct (meaning c) as [o|] eqn:Eo; [|done]. destruct (place st o) as [st1|] eqn:Ep; [|done].
      pose proof (document_grows _ _ _ Hst). destruct (R o st1 eq_refl Ep Hs) as (? & _); [lia|done].
Qed.

Lemma init_ok D s : takes s D -> doc_ok D (ioxd_json_init s) [FRoot []].
Proof.
  intros Ht. exists (FRoot []), []. split; [done|]. split; [cbn; by rewrite app_nil_r|]. split; [done|]. split; try done.
  - cbn. lia.
  - cbn. lia.
  - intros [|i] g Hg; [by injection Hg as <-|done].
  - intros [|i] g Hg; [by injection Hg as <-|done].
Qed.

(** C23. The writer prints the document its calls describe. Over any sink that keeps the class's laws - the reply, the pipe and memory do - any sequence of calls returns. As long as none was refused every one answered true and had its place in the document, and the sink holds exactly that document's text after what it held before; when [ioxd_json_done] says so it is the values at the root, rendered and joined by commas. The first call without a place, past the depth or past the sink makes it and every later one answer false, and calls that all have their place are taken whole when the tail has room for their text. *)
Theorem json_document D s cs : takes s D -> 
  exists oks j', calls cs (ioxd_json_init s) = Some (oks, j') /\
    (if failed j' then exists n, n < length cs /\ oks = repeat true n ++ repeat false (length cs - n)
     else oks = repeat true (length cs) /\ exists st, document [FRoot []] cs = Some st /\ takes (sink j') (D ++ doc_text st) /\
       (ioxd_json_done j' = true -> exists vs, st = [FRoot vs] /\ doc_text st = join_with (lit ",") (map render vs))) /\
    (forall st, document [FRoot []] cs = Some st -> sink_failed s = false -> length (doc_text st) <= room s -> failed j' = false).
Proof.
  intros Ht. destruct (calls_spec D _ _ cs (init_ok D s Ht)) as (oks & j' & E & K & R). exists oks, j'. split; [done|]. split; [|intros; by eapply R].
  destruct (failed j') eqn:Ef; [done|]. destruct K as [-> (st & Hdoc & Hok)]. split; [done|]. exists st. split; [done|].
  destruct Hok as (f & rest & -> & Ht' & _ & Hlv). split; [done|]. unfold ioxd_json_done. rewrite Ef. cbn [negb andb]. intros Hz%Nat.eqb_eq.
  pose proof (lv_depth _ _ _ Hlv) as Hd. rewrite Hz in Hd. apply length_zero_iff_nil in Hd as ->. pose proof (lv_root _ _ _ Hlv 0 f eq_refl) as Hr. rewrite Hz in Hr.
  destruct f as [vs|vs|ms k]; try done. exists vs. split; [done|]. cbn. unfold frame_text. cbn. by rewrite !app_nil_r.
Qed.
End Calls.

(** ** The three kinds of sink keep the laws *)

Lemma fill_advance pw d : length d <= ioxd__pipewriter_room pw ->
  fill pw d = ioxd__pipewriter_advance (store pw (ioxd__pipewriter_at pw) d) (length d).
Proof.
  intros Hl. unfold fill, ioxd__pipewriter_advance, store, ioxd__pipewriter_at, set_spans, set_buf, ioxd__pipewriter_room in *. cbn [lead cap slack buf Writer.head len tail Writer.failed].
  destruct (Nat.ltb_spec (length d) (cap pw - len pw)); [done|]. by replace (cap pw - len pw) with (length d) by lia.
Qed.

Section Laws.
Context {W : Type} `{Sender W, !SenderLaws W} `{Hooks} (efuel : nat) (kp : bool) (mv : Z) (ho : bool) (base : bytes).

Definition sink_takes (s : json_sink W) (D : bytes) : Prop :=
  match s with
  | IOXD_JSON_TO_REPLY c => reply_inv kp mv ho base c D
  | IOXD_JSON_TO_PIPE pw w => carries base D pw w /\ Writer.failed pw = false
  | IOXD_JSON_TO_MEM (Some b) cap len => length b = cap /\ len <= cap /\ take len b = D
  | IOXD_JSON_TO_MEM None _ _ => D = []
  end.

Lemma sink_commit (s : json_sink W) D d : sink_takes s D -> length d <= tail_room s ->
  sink_takes (json_commit s d) (D ++ d) /\ tail_room (json_commit s d) = tail_room s - length d /\ json_sink_failed (json_commit s d) = json_sink_failed s.
Proof.
  destruct s as [c|pw w|[b|] cap len]; cbn [sink_takes json_commit tail_room json_sink_failed]; intros Ht Hl.
  - rewrite fill_advance by done. destruct (reply_inv_fill kp mv ho base c D d Ht Hl) as (K1 & K2 & K3). split; [exact K1|].
    cbn [out set_out res] in *. rewrite K2, K3. split; [lia|]. done.
  - destruct Ht as [Hc Hf]. pose proof Hc as (Hok & Ht & _). split; [split; [|done]|split; [cbn; lia|done]].
    eapply (carries_step _ _ _ _ _ true); [exact Hc|exact Hf| |exact Ht|exact Hf| |done].
    + destruct Hok. split; cbn; try lia. rewrite length_blit; lia.
    + intros _. split; [|done]. pose proof (ok_len _ Hok). rewrite <- (pending_append pw d) by (done || lia). done.
  - destruct Ht as (Hb & Hlen & <-). split; [|split; [lia|done]]. split; [rewrite length_blit; lia|]. split; [lia|].
    unfold blit. rewrite app_assoc. rewrite take_app_length'; [done|]. rewrite length_app, length_take. lia.
  - cbn in Hl. assert (d = []) as -> by (apply length_zero_iff_nil; lia). by rewrite app_nil_r.
Qed.

Lemma sink_make_room (s : json_sink W) D n : sink_takes s D -> exists ok s', json_make_room efuel s n = Some (ok, s') /\
  (ok = true -> sink_takes s' D /\ n <= tail_room s' /\ json_sink_failed s' = false).
Proof.
  destruct s as [c|pw w|p cap len]; cbn [sink_takes json_make_room]; intros Ht.
  - unfold ioxd_reserve. pose proof (st_live _ _ _ _ (proj1 Ht)) as Hlive. rewrite Hlive. cbn [orb].
    assert (Hno : forall c2, reply_inv kp mv ho base c2 D -> json_sink_failed (IOXD_JSON_TO_REPLY c2) = false).
    { intros c2 Hi. cbn [json_sink_failed]. rewrite (id_failed _ (st_out _ _ _ _ (proj1 Hi))), (st_live _ _ _ _ (proj1 Hi)). done. }
    destruct (Nat.ltb_spec (cap (out c)) n) as [Hn|Hn]; [eexists _, _; by split|]. destruct (Nat.ltb_spec (ioxd__pipewriter_room (out c)) n) as [Hr|Hr].
    + unfold flush. destruct (flush_with_total efuel c FLUSH_FULL []) as (ok1 & c1 & E1); [apply Ht..|]. rewrite E1.
      apply (flush_with_spec' kp mv ho base _ _ D) in E1; [|done|by left]. destruct ok1; [|eexists _, _; by split].
      cbn [is_final] in E1. rewrite app_nil_r in E1. destruct E1 as (E1 & El & _ & Hcap & _). eexists true, _. split; [done|]. intros _.
      split; [exact E1|]. split; [cbn [tail_room]; lia|by apply Hno].
    + eexists true, _. split; [done|]. intros _. split; [done|]. split; [exact Hr|by apply Hno].
  - destruct Ht as [Hc Hf]. pose proof Hc as (Hok & Ht & _). destruct (ioxd__pipewriter_reserve pw n w) as [[at_ pw1] w1] eqn:Er.
    eexists _, _. split; [done|]. destruct at_ as [at_|]; [|done]. intros _. assert (Hc1 : carries base D pw1 w1).
    { unfold ioxd__pipewriter_reserve in Er. destruct (_ || _); [by simplify_eq|]. destruct (_ <? _); [|by simplify_eq].
      destruct (ioxd__pipewriter_flush pw w) as [[[] pw2] w2] eqn:Ef; simplify_eq; by eapply carries_flush. }
    apply reserve_spec in Er as (_ & _ & Hr); [|done]. destruct Hr as (_ & Hf1 & _ & Hroom & _). cbn [sink_takes tail_room json_sink_failed]. split; [done|]. split; [lia|done].
  - eexists _, _. by split.
Qed.

Lemma sink_room_law (s : json_sink W) D n s' : sink_takes s D -> json_make_room efuel s n = Some (true, s') -> sink_takes s' D /\ n <= tail_room s' /\ json_sink_failed s' = false.
Proof. intros Ht Hm. destruct (sink_make_room s D n Ht) as (ok & s2 & E & K). rewrite E in Hm. injection Hm as -> ->. by apply K. Qed.

Lemma sink_room_ends (s : json_sink W) D n : sink_takes s D -> json_make_room efuel s n <> None.
Proof. intros Ht Hm. destruct (sink_make_room s D n Ht) as (ok & s2 & E & K). congruence. Qed.

#[export] Instance json_laws : SinkLaws (H := json_sinks efuel) (json_sink W) :=
  @Build_SinkLaws (json_sink W) (json_sinks efuel) sink_takes sink_commit sink_room_law sink_room_ends.
End Laws.

(** ** Reading the text back

    A reader of JSON texts without blanks: what the writer writes, read by the grammar of RFC 8259. *)

Definition unescape (e : Z) : option Z :=
  if (e =? QUOTE)%Z then Some QUOTE
  else if (e =? ch "\")%Z then Some (ch "\")
  else if (e =? ch "/")%Z then Some (ch "/")
  else if (e =? ch "n")%Z then Some 10%Z
  else if (e =? ch "r")%Z then Some 13%Z
  else if (e =? ch "t")%Z then Some 9%Z
  else if (e =? ch "b")%Z then Some 8%Z
  else if (e =? ch "f")%Z then Some 12%Z
  else None.

Definition first_is (c : Z) (r : option (bytes * bytes)) : option (bytes * bytes) := match r with Some (s, t) => Some (c :: s, t) | None => None end.

(** A string's bytes up to its closing quote. *)
Fixpoint read_chars (t : bytes) : option (bytes * bytes) :=
  match t with
  | [] => None
  | c :: t =>
      if (c =? QUOTE)%Z then Some ([], t)
      else if (c =? ch "\")%Z then
        match t with
        | [] => None
        | e :: t =>
            if (e =? ch "u")%Z then
              match t with
              | a :: b :: h :: l :: t =>
                  if ((a =? ch "0") && (b =? ch "0") && (0 <=? ioxd__http_hexval h) && (0 <=? ioxd__http_hexval l))%Z
                  then first_is (ioxd__http_hexval h * 16 + ioxd__http_hexval l) (read_chars t) else None
              | _ => None
              end
            else match unescape e with Some x => first_is x (read_chars t) | None => None end
        end
      else if (c <? 32)%Z then None
      else first_is c (read_chars t)
  end.

Definition num_char (c : Z) : bool :=
  ((ch "0" <=? c) && (c <=? ch "9"))%Z || existsb (Z.eqb c) (lit "+-.eE").
Fixpoint num_run (t : bytes) : nat := match t with c :: t => if num_char c then S (num_run t) else 0 | [] => 0 end.
Definition strip (p t : bytes) : option bytes := if bool_decide (take (length p) t = p) then Some (drop (length p) t) else None.

Fixpoint read_value (fuel : nat) (t : bytes) : option (jvalue * bytes) :=
  match fuel, t with
  | S fuel, c :: t' =>
      if (c =? QUOTE)%Z then match read_chars t' with Some (s, r) => Some (VStr s, r) | None => None end
      else if (c =? ch "[")%Z then
        match strip (lit "]") t' with
        | Some r => Some (VArr [], r)
        | None => match read_items fuel t' with Some (vs, r) => Some (VArr vs, r) | None => None end
        end
      else if (c =? ch "{")%Z then
        match strip (lit "}") t' with
        | Some r => Some (VObj [], r)
        | None => match read_members fuel t' with Some (ms, r) => Some (VObj ms, r) | None => None end
        end
      else if num_char c then Some (VNum (take (num_run t) t), drop (num_run t) t)
      else match strip (lit "null") t with
           | Some r => Some (VNull, r)
           | None => match strip (lit "true") t with
                     | Some r => Some (VBool true, r)
                     | None => match strip (lit "false") t with Some r => Some (VBool false, r) | None => None end
                     end
           end
  | _, _ => None
  end
with read_items (fuel : nat) (t : bytes) : option (list jvalue * bytes) :=
  match fuel with
  | 0 => None
  | S fuel =>
      match read_value fuel t with
      | Some (v, r) =>
          match strip (lit "]") r with
          | Some r => Some ([v], r)
          | None => match strip (lit ",") r with
                    | Some r => match read_items fuel r with Some (vs, r) => Some (v :: vs, r) | None => None end
                    | None => None
                    end
          end
      | None => None
      end
  end
with read_members (fuel : nat) (t : bytes) : option (list (bytes * jvalue) * bytes) :=
  match fuel, t with
  | S fuel, q :: t =>
      if negb (q =? QUOTE)%Z then None
      else match read_chars t with
      | Some (k, r) =>
          match strip (lit ":") r with
          | None => None
          | Some r =>
              match read_value fuel r with
              | Some (v, r) =>
                  match strip (lit "}") r with
                  | Some r => Some ([(k, v)], r)
                  | None => match strip (lit ",") r with
                            | Some r => match read_members fuel r with Some (ms, r) => Some ((k, v) :: ms, r) | None => None end
                            | None => None
                            end
                  end
              | None => None
              end
          end
      | None => None
      end
  | _, _ => None
  end.

(** Values whose text is JSON's: no raw text, numbers as numbers, strings of bytes. *)
Definition number_text (t : bytes) : Prop := t <> [] /\ Forall (fun c => num_char c = true) t.
Inductive plain : jvalue -> Prop :=
| pl_null : plain VNull
| pl_bool b : plain (VBool b)
| pl_num t : number_text t -> plain (VNum t)
| pl_str s : all_bytes s -> plain (VStr s)
| pl_arr l : (forall v, In v l -> plain v) -> plain (VArr l)
| pl_obj l : (forall k v, In (k, v) l -> all_bytes k /\ plain v) -> plain (VObj l).

(** Fuel enough to read a value. *)
Fixpoint weight (v : jvalue) : nat :=
  match v with
  | VArr l => S (list_sum (map (fun v => S (weight v)) l))
  | VObj l => S (list_sum (map (fun kv => S (weight kv.2)) l))
  | _ => 1
  end.

Lemma strip_app p t : strip p (p ++ t) = Some t.
Proof. unfold strip. by rewrite take_app_length, bool_decide_true, drop_app_length. Qed.

Lemma strip_other c d t : c <> d -> strip [c] (d :: t) = None.
Proof. intros Hc. unfold strip. rewrite bool_decide_false; [done|]. cbn. congruence. Qed.

Lemma read_escape c rest : is_byte c -> needs_escape c = true -> read_chars (escape c ++ rest) = first_is c (read_chars rest).
Proof.
  intros Hb. unfold needs_escape. rewrite !orb_true_iff, Z.ltb_lt, !Z.eqb_eq. intros [[Hc | ->] | ->]; [|reflexivity|reflexivity].
  assert (Hall : Forall (fun c => forall rest, read_chars (escape c ++ rest) = first_is c (read_chars rest)) (seqZ 0 32)).
  { change (seqZ 0 32) with (map Z.of_nat (seq 0 32)). cbn [seq map]. repeat constructor. }
  rewrite Forall_forall in Hall. apply Hall. apply elem_of_seqZ. unfold is_byte in Hb. lia.
Qed.

Lemma read_quoted s rest : all_bytes s -> read_chars (concat (map esc1 s) ++ QUOTE :: rest) = Some (s, rest).
Proof.
  induction 1 as [|c s Hc _ IH]; [done|]. cbn [map concat]. rewrite <- app_assoc. unfold esc1 at 1. destruct (needs_escape c) eqn:E.
  - by rewrite read_escape, IH.
  - unfold needs_escape in E. rewrite !orb_false_iff in E. destruct E as [[E1 E2] E3]. cbn [app read_chars]. by rewrite E2, E3, E1, IH.
Qed.

(** What may follow a number. *)
Definition ends (t : bytes) : Prop := match t with c :: _ => num_char c = false | [] => True end.

Lemma num_run_app t rest : Forall (fun c => num_char c = true) t -> ends rest -> num_run (t ++ rest) = length t.
Proof.
  intros Ht He. induction Ht as [|c t Hc _ IH]; [|cbn [app num_run length]; by rewrite Hc, IH]. destruct rest as [|c rest]; [done|]. cbn in *. by rewrite He.
Qed.

Lemma join_cons sep x y l : join_with sep (x :: y :: l) = x ++ sep ++ join_with sep (y :: l).
Proof. cbn. by rewrite <- app_assoc. Qed.

Lemma not_num_char c d : num_char c = true -> num_char d = false -> (c =? d)%Z = false.
Proof. intros Hc Hd. apply Z.eqb_neq. congruence. Qed.

(** A plain value's text starts with none of the closing brackets. *)
Lemma render_head v : plain v -> exists c t, render v = c :: t /\ ch "]" <> c /\ ch "}" <> c.
Proof.
  intros [|[]|t [Hne Ht]|s _|l _|l _]; try (by eexists _, _; split; [reflexivity|]). destruct t as [|c t]; [done|]. inversion Ht as [|? ? Hc _]; subst.
  exists c, t. split; [done|]. split; intros <-; by vm_compute in Hc.
Qed.

Section Reading.
Context (n : nat) (IH : forall v fuel rest, weight v < n -> plain v -> weight v <= fuel -> ends rest -> read_value fuel (render v ++ rest) = Some (v, rest)).

Lemma read_items_render l fuel rest : l <> [] -> (forall v, In v l -> plain v) -> list_sum (map (fun v => S (weight v)) l) <= fuel ->
  (forall v, In v l -> weight v < n) -> read_items fuel (join_with (lit ",") (map render l) ++ lit "]" ++ rest) = Some (l, rest).
Proof.
  revert fuel. induction l as [|v l IHl]; intros fuel Hne Hp Hf Hw; [done|]. cbn [map list_sum fold_right] in Hf. fold (list_sum (map (fun v => S (weight v)) l)) in Hf.
  destruct fuel as [|fuel]; [lia|]. cbn [read_items]. destruct l as [|v2 l].
  - cbn [map join_with concat]. rewrite app_nil_r. rewrite (IH v fuel) by (try apply Hp; try apply Hw; try done; try lia; by left). by rewrite strip_app.
  - cbn [map]. rewrite join_cons, <- !app_assoc. rewrite (IH v fuel) by (try apply Hp; try apply Hw; try done; try lia; by left).
    change (strip (lit "]") (lit "," ++ join_with (lit ",") (render v2 :: map render l) ++ lit "]" ++ rest)) with (@None bytes). rewrite strip_app.
    change (render v2 :: map render l) with (map render (v2 :: l)). rewrite IHl; [done|done|intros; apply Hp; by right|lia|intros; apply Hw; by right].
Qed.

Lemma read_members_render l fuel rest : l <> [] -> (forall k v, In (k, v) l -> all_bytes k /\ plain v) -> list_sum (map (fun kv => S (weight kv.2)) l) <= fuel ->
  (forall k v, In (k, v) l -> weight v < n) -> read_members fuel (join_with (lit ",") (map render_member l) ++ lit "}" ++ rest) = Some (l, rest).
Proof.
  revert fuel. induction l as [|[k v] l IHl]; intros fuel Hne Hp Hf Hw; [done|]. cbn [map list_sum fold_right snd] in Hf. fold (list_sum (map (fun kv : bytes * jvalue => S (weight kv.2)) l)) in Hf.
  destruct fuel as [|fuel]; [lia|]. destruct (Hp k v ltac:(by left)) as [Hk Hv]. pose proof (Hw k v ltac:(by left)) as Hwv.
  assert (Hone : forall r, read_members (S fuel) (render_member (k, v) ++ r) =
    match read_value fuel (render v ++ r) with
    | Some (v, r) => match strip (lit "}") r with
        | Some r => Some ([(k, v)], r)
        | None => match strip (lit ",") r with
                  | Some r => match read_members fuel r with Some (ms, r) => Some ((k, v) :: ms, r) | None => None end
                  | None => None end end
    | None => None end).
  { intros r. unfold render_member, quoted. cbn [fst snd app]. rewrite <- !app_assoc. cbn [read_members app].
    change (map (fun c => if needs_escape c then escape c else [c]) k) with (map esc1 k). rewrite read_quoted by done. cbn [negb Z.eqb QUOTE Pos.eqb]. by rewrite strip_app. }
  destruct l as [|kv2 l].
  - cbn [map join_with concat]. rewrite app_nil_r, Hone, (IH v fuel) by (done || lia). by rewrite strip_app.
  - cbn [map]. rewrite join_cons, <- !app_assoc, Hone, (IH v fuel) by (done || lia).
    change (strip (lit "}") (lit "," ++ join_with (lit ",") (render_member kv2 :: map render_member l) ++ lit "}" ++ rest)) with (@None bytes). rewrite strip_app.
    change (render_member kv2 :: map render_member l) with (map render_member (kv2 :: l)). rewrite IHl; [done|done|intros; apply Hp; by right|lia|intros; eapply Hw; by right].
Qed.
End Reading.

Lemma sum_in {A} (f : A -> nat) l x : In x l -> f x <= list_sum (map f l).
Proof. induction l as [|y l IH]; [done|]. cbn [map list_sum fold_right]. fold (list_sum (map f l)). intros [-> | Hx]; [lia|]. specialize (IH Hx). lia. Qed.

Lemma read_array fuel t : read_value (S fuel) (lit "[" ++ t) =
  match strip (lit "]") t with
  | Some r => Some (VArr [], r)
  | None => match read_items fuel t with Some (vs, r) => Some (VArr vs, r) | None => None end
  end.
Proof. reflexivity. Qed.

Lemma read_object fuel t : read_value (S fuel) (lit "{" ++ t) =
  match strip (lit "}") t with
  | Some r => Some (VObj [], r)
  | None => match read_members fuel t with Some (ms, r) => Some (VObj ms, r) | None => None end
  end.
Proof. reflexivity. Qed.

Lemma read_render n v fuel rest : weight v < n -> plain v -> weight v <= fuel -> ends rest -> read_value fuel (render v ++ rest) = Some (v, rest).
Proof.
  revert v fuel rest. induction n as [|n IH]; intros v fuel rest Hn Hp Hf He; [lia|]. destruct fuel as [|fuel]; [destruct v; cbn in Hf; lia|].
  destruct Hp as [|b|t [Hne Ht]|s Hs|l Hl|l Hl]; cbn [render].
  - reflexivity.
  - by destruct b.
  - destruct t as [|c t]; [done|]. inversion Ht as [|? ? Hc Ht']; subst. cbn [app read_value].
    rewrite !(not_num_char c) by (done || by vm_compute). rewrite Hc. change (c :: t ++ rest) with ((c :: t) ++ rest). rewrite num_run_app by done.
    by rewrite take_app_length, drop_app_length.
  - unfold quoted. cbn [app read_value]. rewrite <- app_assoc. cbn [app]. change (map (fun c => if needs_escape c then escape c else [c]) s) with (map esc1 s).
    rewrite read_quoted by done. done.
  - cbn [weight] in Hn, Hf. destruct l as [|v l]; [reflexivity|]. rewrite <- !app_assoc, read_array.
    destruct (render_head v (Hl v ltac:(by left))) as (c & t & Hr & Hc & _).
    assert (Hno : strip (lit "]") (join_with (lit ",") (map render (v :: l)) ++ lit "]" ++ rest) = None).
    { cbn [map join_with]. rewrite Hr. cbn [app]. by apply (strip_other (ch "]") c). }
    assert (Hi : read_items fuel (join_with (lit ",") (map render (v :: l)) ++ lit "]" ++ rest) = Some (v :: l, rest)).
    { apply (read_items_render n); [exact IH|done|done|lia|]. intros w Hw. pose proof (sum_in (fun v => S (weight v)) _ _ Hw). cbn beta in *. lia. }
    rewrite Hno, Hi. done.
  - cbn [weight] in Hn, Hf. destruct l as [|[k v] l]; [reflexivity|]. rewrite <- !app_assoc, read_object.
    change (fun kv : bytes * jvalue => quoted kv.1 ++ lit ":" ++ render kv.2) with render_member.
    assert (Hno : strip (lit "}") (join_with (lit ",") (map render_member ((k, v) :: l)) ++ lit "}" ++ rest) = None) by (by apply (strip_other (ch "}") QUOTE)).
    assert (Hi : read_members fuel (join_with (lit ",") (map render_member ((k, v) :: l)) ++ lit "}" ++ rest) = Some ((k, v) :: l, rest)).
    { apply (read_members_render n); [exact IH|done|done|lia|]. intros k' w Hw. pose proof (sum_in (fun kv : bytes * jvalue => S (weight kv.2)) _ _ Hw). cbn [snd] in *. lia. }
    rewrite Hno, Hi. done.
Qed.

(** *** What the calls say is plain *)

Class FloatsLaws `{Floats} := {
  print_number : forall p v t, isfinite v = true -> print_g p v = Some t -> number_text t
}.

Section Plain.
Context {T : Type} `{SinkLaws T} `{FloatsLaws}.

Definition plain_call (c : jcall) : Prop :=
  match c with CKey k => all_bytes k | CString s => all_bytes s | CCstr (Some s) => all_bytes s | CRaw _ => False | _ => True end.

Definition plain_frame (f : frame) : Prop :=
  match f with
  | FRoot vs | FArr vs => forall v, In v vs -> plain v
  | FObj ms k => (forall k v, In (k, v) ms -> all_bytes k /\ plain v) /\ (forall k', k = Some k' -> all_bytes k')
  end.

Lemma digits_number v : number_text (digits v).
Proof.
  unfold digits, number_text. split.
  - cbn [uint_tmp rev]. destruct (rev _); done.
  - apply Forall_rev. generalize 24 as n. intros n. revert v. induction n as [|n IH]; intros v; cbn [uint_tmp]; [constructor|]. constructor.
    + unfold num_char. apply orb_true_iff. left. apply andb_true_iff. change (ch "0") with 48%Z. change (ch "9") with 57%Z.
      pose proof (Z.mod_pos_bound v 10 ltac:(lia)). split; apply Z.leb_le; lia.
    + destruct (_ =? 0)%Z; [constructor|apply IH].
Qed.

Lemma int_text_number v : number_text (json_int_text v).
Proof.
  unfold json_int_text. destruct (v <? 0)%Z; [|apply digits_number]. destruct (digits_number (wrap64 (wrap64 (- (v + 1)) + 1))) as [? ?].
  split; [done|]. cbn [app lit]. by constructor.
Qed.

Lemma shortest_prints cap v first last as_float t : shortest cap v first last as_float = Some t -> exists p, print_g p v = Some t.
Proof.
  unfold shortest. destruct (negb c_locale); [done|]. assert (Hl : forall k p prev r, shortest_loop k p cap v as_float prev = Some r -> prev = Some r \/ exists p, print_g p v = Some r).
  { induction k as [|k IH]; intros p prev r; cbn [shortest_loop]; [by left|]. destruct (print_g p v) as [t'|] eqn:E; [|done].
    destruct (_ || _); [intros [= <-]; eauto|]. intros [[= <-]|]%IH; eauto. }
  destruct (shortest_loop _ _ _ _ _ _) as [t'|] eqn:E; [|done]. destruct (_ <=? _); [done|]. intros [= <-]. apply Hl in E as [|]; [done|done].
Qed.

Lemma number_op_plain v cap first last as_float o : number_op (isfinite v) (shortest cap v first last as_float) = Some o -> exists x, o = OpValue x /\ plain x.
Proof.
  unfold number_op. destruct (isfinite v) eqn:Ef; cbn [negb]; [|intros [= <-]; eexists; split; [done|constructor]].
  destruct (shortest _ _ _ _ _) as [t|] eqn:E; [|done]. intros [= <-]. eexists. split; [done|]. apply shortest_prints in E as (p & E). constructor. by eapply print_number.
Qed.

Lemma meaning_plain c o : plain_call c -> meaning c = Some o -> match o with OpValue v => plain v | OpKey k => all_bytes k | _ => True end.
Proof.
  destruct c as [| | |k|s|[s|]|v|v|v|v|b| |t]; cbn [plain_call meaning]; intros Hp Hm; try (injection Hm as <-; by try constructor).
  - injection Hm as <-. constructor. apply digits_number.
  - injection Hm as <-. constructor. apply int_text_number.
  - by apply number_op_plain in Hm as (x & -> & ?).
  - by apply number_op_plain in Hm as (x & -> & ?).
  - done.
Qed.

Lemma add_plain v f f' : plain v -> plain_frame f -> add v f = Some f' -> plain_frame f'.
Proof.
  intros Hv. destruct f as [vs|vs|ms [k|]]; cbn [add]; intros Hf [= <-]; cbn [plain_frame] in *.
  - intros w [Hw|[<-|[]]]%in_app_iff; auto.
  - intros w [Hw|[<-|[]]]%in_app_iff; auto.
  - destruct Hf as [Hf Hk]. split; [|done]. intros k' w [Hw|[[= <- <-]|[]]]%in_app_iff; [by apply Hf|]. split; [by apply Hk|done].
Qed.

Lemma place_plain st o st' : match o with OpValue v => plain v | OpKey k => all_bytes k | _ => True end -> Forall plain_frame st -> place st o = Some st' -> Forall plain_frame st'.
Proof.
  intros Ho Hs. destruct o as [v|k|object|], Hs as [|f st Hf Hs]; cbn [place]; try done.
  - destruct (add v f) as [f'|] eqn:E; intros [= <-]. constructor; [by eapply add_plain|done].
  - destruct f as [vs|vs|ms [|]]; intros [= <-]. constructor; [|done]. split; [apply Hf|]. by intros ? [= <-].
  - destruct (_ =? _); [done|]. destruct (add VNull f); intros [= <-]. constructor; [destruct object; cbn; [split|]; done|by constructor].
  - destruct Hs as [|g st Hg Hs]; [done|]. destruct (close_frame f) as [v|] eqn:Ec; [|done]. destruct (add v g) as [g'|] eqn:E; intros [= <-].
    constructor; [|done]. eapply add_plain; [|exact Hg|exact E]. destruct f as [vs|vs|ms [|]]; try done; injection Ec as <-; constructor; apply Hf.
Qed.

Lemma document_plain st cs st' : Forall plain_call cs -> Forall plain_frame st -> document st cs = Some st' -> Forall plain_frame st'.
Proof.
  intros Hcs. revert st. induction Hcs as [|c cs Hc _ IH]; intros st Hs; cbn [document]; [by intros [= <-]|]. destruct (meaning c) as [o|] eqn:Eo; [|done].
  destruct (place st o) as [st1|] eqn:E; [|done]. apply IH. eapply place_plain; [|exact Hs|exact E]. by eapply meaning_plain.
Qed.

End Plain.

(** ** Into memory, on concrete calls *)

(** Whole numbers for doubles. *)
#[local] Instance whole_floats : Floats :=
  {| double := Z; float := Z; to_double := fun v => v; isfinite := fun _ => true; print_g := fun _ v => Some (json_int_text v);
     reads_back := fun _ _ _ => true; c_locale := true |}.
#[local] Instance whole_floats_laws : FloatsLaws.
Proof. split. intros p v t _ [= <-]. apply int_text_number. Qed.

#[local] Existing Instance calm.
#[local] Instance memory_sink : Sink (json_sink socket) := json_sinks (H := calm) 9.
#[local] Instance memory_laws : SinkLaws (json_sink socket) := json_laws (H := calm) 9 true 1 false [].

Definition memory (n : nat) : json_sink socket := IOXD_JSON_TO_MEM (Some (replicate n 0%Z)) n 0.
Definition user_calls : list jcall :=
  [CObject; CKey (lit "name"); CString (lit "a" ++ [QUOTE; 10%Z]); CKey (lit "tags"); CArray; CUint 12; CInt (-5); CNull; CEnd; CKey (lit "x"); CDouble 3%Z; CEnd].

Lemma memory_takes n : takes (memory n) [].
Proof. change (length (replicate n 0%Z) = n /\ 0 <= n /\ take 0 (replicate n 0%Z) = []). rewrite length_replicate. repeat split; lia. Qed.

Example user_json : match calls user_calls (ioxd_json_init (memory 64)) with
  | Some (_, j) => match sink j with IOXD_JSON_TO_MEM (Some b) _ len => Some (take len b, ioxd_json_done j) | _ => None end
  | None => None
  end = Some ([123; 34; 110; 97; 109; 101; 34; 58; 34; 97; 92; 34; 92; 110; 34; 44; 34; 116; 97; 103; 115; 34; 58; 91; 49; 50; 44; 45; 53; 44; 110; 117; 108; 108; 93; 44; 34; 120; 34; 58; 51; 125]%Z, true).
Proof. vm_compute. reflexivity. Qed.

(** A buffer too small refuses, and everything after is refused. *)
Example small_json : match calls user_calls (ioxd_json_init (memory 20)) with Some (oks, j) => Some (oks, ioxd_json_done j) | None => None end =
  Some ([true; true; true; false; false; false; false; false; false; false; false; false], false).
Proof. vm_compute. reflexivity. Qed.

(** A second value at the root is taken, and no value at all is a whole document. *)
Lemma second_root_value : match calls [CNull; CNull] (ioxd_json_init (memory 20)) with
  | Some (oks, j) => match sink j with IOXD_JSON_TO_MEM (Some b) _ len => Some (oks, take len b, ioxd_json_done j) | _ => None end
  | None => None
  end = Some ([true; true], lit "null,null", true) /\ ioxd_json_done (ioxd_json_init (memory 20)) = true.
Proof. split; vm_compute; reflexivity. Qed.

Lemma json_document_witness : exists oks j' st, calls user_calls (ioxd_json_init (memory 64)) = Some (oks, j') /\
  oks = repeat true 12 /\ document [FRoot []] user_calls = Some st /\ takes (sink j') ([] ++ doc_text st).
Proof.
  destruct (json_document [] (memory 64) user_calls (memory_takes 64)) as (oks & j' & E & K & R). exists oks, j'.
  assert (Hf : failed j' = false).
  { destruct (document [FRoot []] user_calls) as [st|] eqn:Ed; [|discriminate Ed]. apply (R st); [reflexivity|reflexivity|].
    vm_compute in Ed. injection Ed as <-. vm_compute. repeat constructor. }
  rewrite Hf in K. destruct K as [-> (st & Hd & Ht & _)]. exists st. split; [exact E|]. split; [reflexivity|]. split; [exact Hd|exact Ht].
Defined.

