(* ===== verification/Cache.v ===== *)
(** A worker's table of files, of lib/http/static.c: entries on the heap, chained in hash buckets and
    linked newest to oldest through them, dropped from the old end to keep the bytes within the budget,
    and freed when no reply reads from them any more. An entry's address is a number; an access to one
    that is not there - freed, or null - has no meaning ([None]), and the main theorem says there is none. *)
From S2P Require Import Prelude.

#[local] Arguments Nat.ltb : simpl never.
#[local] Arguments Nat.leb : simpl never.

(** ** Entries and tables *)

(** What [load] fills in once and nothing changes. *)
Record file := {
  f_name : bytes; f_hash : Z; f_dev : Z; f_ino : Z; f_size : Z; f_mtime : Z * Z; f_type : bytes;
  f_v : list (option bytes);         (* by variant: plain, br, gzip *)
  f_bytes : Z; f_etag : bytes; f_modified : bytes
}.

Record entry := { chain : option nat; newer : option nat; older : option nat; checked_at : Z; refs : nat; dropped : bool; what : file }.

Record cache := {
  heap : gmap nat entry;
  buckets : list (option nat); n_buckets : nat; count : nat;
  newest : option nat; oldest : option nat;
  held : Z; budget : Z                (* c->bytes and c->budget *)
}.

Definition set_chain (p : option nat) (e : entry) : entry :=
  {| chain := p; newer := newer e; older := older e; checked_at := checked_at e; refs := refs e; dropped := dropped e; what := what e |}.
Definition set_newer (p : option nat) (e : entry) : entry :=
  {| chain := chain e; newer := p; older := older e; checked_at := checked_at e; refs := refs e; dropped := dropped e; what := what e |}.
Definition set_older (p : option nat) (e : entry) : entry :=
  {| chain := chain e; newer := newer e; older := p; checked_at := checked_at e; refs := refs e; dropped := dropped e; what := what e |}.
Definition set_checked (t : Z) (e : entry) : entry :=
  {| chain := chain e; newer := newer e; older := older e; checked_at := t; refs := refs e; dropped := dropped e; what := what e |}.
Definition set_refs (n : nat) (e : entry) : entry :=
  {| chain := chain e; newer := newer e; older := older e; checked_at := checked_at e; refs := n; dropped := dropped e; what := what e |}.
Definition set_dropped (e : entry) : entry :=
  {| chain := chain e; newer := newer e; older := older e; checked_at := checked_at e; refs := refs e; dropped := true; what := what e |}.

Definition set_heap (c : cache) (h : gmap nat entry) : cache :=
  {| heap := h; buckets := buckets c; n_buckets := n_buckets c; count := count c; newest := newest c; oldest := oldest c; held := held c; budget := budget c |}.
Definition set_ends (c : cache) (n o : option nat) : cache :=
  {| heap := heap c; buckets := buckets c; n_buckets := n_buckets c; count := count c; newest := n; oldest := o; held := held c; budget := budget c |}.
Definition set_buckets (c : cache) (b : list (option nat)) (n : nat) : cache :=
  {| heap := heap c; buckets := b; n_buckets := n; count := count c; newest := newest c; oldest := oldest c; held := held c; budget := budget c |}.
Definition set_held (c : cache) (b : Z) (n : nat) : cache :=
  {| heap := heap c; buckets := buckets c; n_buckets := n_buckets c; count := n; newest := newest c; oldest := oldest c; held := b; budget := budget c |}.

(** A store through a pointer. *)
Definition poke (h : gmap nat entry) (x : nat) (f : entry -> entry) : option (gmap nat entry) :=
  e ← h !! x; Some (<[x := f e]> h).

(** FNV-1a. *)
Definition hash_of (name : bytes) : Z := fold_left (fun h b => wrap32 (Z.lxor h b * 16777619)) name 2166136261%Z.

Definition slot_of (n : nat) (hash : Z) : nat := Z.to_nat (Z.land hash (Z.of_nat n - 1)).

(** [cache_of], when the table is new: 64 empty buckets. *)
Definition new_cache (budget_ : Z) : cache :=
  {| heap := ∅; buckets := replicate 64 None; n_buckets := 64; count := 0; newest := None; oldest := None; held := 0; budget := budget_ |}.

Fixpoint lookup_loop (fuel : nat) (h : gmap nat entry) (e : option nat) (name : bytes) (hash : Z) : option (option nat) :=
  match e with
  | None => Some None
  | Some x =>
      match fuel with
      | 0 => None
      | S fuel =>
          e ← h !! x;
          if ((f_hash (what e) =? hash)%Z && beq (f_name (what e)) name) then Some (Some x) else lookup_loop fuel h (chain e) name hash
      end
  end.
(** No chain is longer than the heap. *)
Definition lookup (c : cache) (name : bytes) (hash : Z) : option (option nat) :=
  e ← buckets c !! slot_of (n_buckets c) hash; lookup_loop (size (heap c)) (heap c) e name hash.

Definition recency_out (c : cache) (x : nat) : option cache :=
  e ← heap c !! x;
  '(h, n) ← match newer e with Some y => h ← poke (heap c) y (set_older (older e)); Some (h, newest c) | None => Some (heap c, older e) end;
  e ← h !! x;
  '(h, o) ← match older e with Some y => h ← poke h y (set_newer (newer e)); Some (h, oldest c) | None => Some (h, newer e) end;
  h ← poke h x (fun e => set_newer None (set_older None e));
  Some (set_ends (set_heap c h) n o).

Definition recency_in (c : cache) (x : nat) : option cache :=
  h ← poke (heap c) x (fun e => set_newer None (set_older (newest c) e));
  h ← match newest c with Some y => poke h y (set_newer (Some x)) | None => Some h end;
  Some (set_ends (set_heap c h) (Some x) (match oldest c with None => Some x | o => o end)).

Definition touch (c : cache) (x : nat) : option cache :=
  if bool_decide (newest c = Some x) then Some c else c ← recency_out c x; recency_in c x.

Definition entry_free (h : gmap nat entry) (x : nat) : option (gmap nat entry) := _ ← h !! x; Some (delete x h).

(** [while ( *at != e) at = &( *at)->chain; *at = e->chain]: what the slot holds then, and the heap. *)
Fixpoint unchain (fuel : nat) (h : gmap nat entry) (at_ : option nat) (x : nat) : option (option nat * gmap nat entry) :=
  match fuel, at_ with
  | S fuel, Some y =>
      e ← h !! y;
      if y =? x then Some (chain e, h)
      else '(s, h) ← unchain fuel h (chain e) x; h ← poke h y (set_chain s); Some (Some y, h)
  | _, _ => None
  end.

Definition unlink_entry (c : cache) (x : nat) : option cache :=
  e ← heap c !! x;
  let i := slot_of (n_buckets c) (f_hash (what e)) in
  s ← buckets c !! i;
  '(s, h) ← unchain (size (heap c)) (heap c) s x;
  c ← recency_out (set_buckets (set_heap c h) (<[i := s]> (buckets c)) (n_buckets c)) x;
  Some (set_held c (held c - f_bytes (what e)) (count c - 1)).

Definition drop (c : cache) (x : nat) : option cache :=
  c ← unlink_entry c x;
  h ← poke (heap c) x set_dropped;
  e ← h !! x;
  h ← (if refs e =? 0 then entry_free h x else Some h);
  Some (set_heap c h).

(** A reply holds the entry while it reads from it. *)
Definition hold (c : cache) (x : nat) : option cache := h ← poke (heap c) x (fun e => set_refs (S (refs e)) e); Some (set_heap c h).
Definition release (c : cache) (x : nat) : option cache :=
  h ← poke (heap c) x (fun e => set_refs (refs e - 1) e);
  e ← h !! x;
  h ← (if (refs e =? 0) && dropped e then entry_free h x else Some h);
  Some (set_heap c h).

(** Each round drops one. *)
Fixpoint make_room_loop (fuel : nat) (c : cache) (need : Z) : option cache :=
  match oldest c with
  | None => Some c
  | Some x =>
      if (held c + need <=? budget c)%Z then Some c
      else match fuel with 0 => None | S fuel => c ← drop c x; make_room_loop fuel c need end
  end.
Definition make_room (c : cache) (need : Z) : option cache := make_room_loop (count c) c need.

(** One bucket's entries to the new table. *)
Fixpoint grow_chain (fuel : nat) (h : gmap nat entry) (b : list (option nat)) (n : nat) (e : option nat) : option (gmap nat entry * list (option nat)) :=
  match e with
  | None => Some (h, b)
  | Some x =>
      match fuel with
      | 0 => None
      | S fuel =>
          e ← h !! x;
          let i := slot_of n (f_hash (what e)) in
          s ← b !! i;
          h ← poke h x (set_chain s);
          grow_chain fuel h (<[i := Some x]> b) n (chain e)
      end
  end.
Fixpoint grow_all (old : list (option nat)) (h : gmap nat entry) (b : list (option nat)) (n : nat) : option (gmap nat entry * list (option nat)) :=
  match old with [] => Some (h, b) | e :: old => '(h, b) ← grow_chain (size h) h b n e; grow_all old h b n end.
(** The table stays as it is without the memory for a larger one. *)
Definition grow (c : cache) (alloc : bool) : option cache :=
  if negb alloc then Some c
  else
    let n := n_buckets c * 2 in
    '(h, b) ← grow_all (buckets c) (heap c) (replicate n None) n;
    Some (set_buckets (set_heap c h) b n).

Definition insert (c : cache) (x : nat) (alloc : bool) : option cache :=
  c ← (if n_buckets c <=? count c then grow c alloc else Some c);
  e ← heap c !! x;
  let i := slot_of (n_buckets c) (f_hash (what e)) in
  s ← buckets c !! i;
  h ← poke (heap c) x (set_chain s);
  c ← recency_in (set_buckets (set_heap c h) (<[i := Some x]> (buckets c)) (n_buckets c)) x;
  Some (set_held c (held c + f_bytes (what e)) (S (count c))).

(** The end of [load]: the entry made, and in the table when it fits the budget at all. *)
Definition fresh_entry (f : file) (now : Z) : entry :=
  {| chain := None; newer := None; older := None; checked_at := now; refs := 0; dropped := false; what := f |}.
Definition keep (c : cache) (x : nat) (f : file) (now : Z) (alloc : bool) : option cache :=
  let c := set_heap c (<[x := fresh_entry f now]> (heap c)) in
  if (f_bytes f <=? budget c)%Z then c ← make_room c (f_bytes f); insert c x alloc
  else h ← poke (heap c) x set_dropped; Some (set_heap c h).

(** ** The shapes of a table *)

(** The entries a bucket's chain goes through. *)
Fixpoint chained (h : gmap nat entry) (s : option nat) (l : list nat) : Prop :=
  match l with
  | [] => s = None
  | x :: l => s = Some x /\ exists e, h !! x = Some e /\ chained h (chain e) l
  end.

(** The recency list: its two ends, and each entry between its neighbours. *)
Definition linked (h : gmap nat entry) (n o : option nat) (l : list nat) : Prop :=
  n = head l /\ o = last l /\ forall l1 x l2, l = l1 ++ x :: l2 -> exists e, h !! x = Some e /\ newer e = last l1 /\ older e = head l2.

Definition in_slot (h : gmap nat entry) (n i x : nat) : Prop := exists e, h !! x = Some e /\ slot_of n (f_hash (what e)) = i.

(** The buckets hold the entries of [D], each where its hash says. *)
Definition chains (h : gmap nat entry) (b : list (option nat)) (n : nat) (D : list nat) : Prop :=
  length b = n /\ forall i s, b !! i = Some s -> exists l, chained h s l /\ NoDup l /\ forall x, x ∈ l <-> x ∈ D /\ in_slot h n i x.

(** What the links are not: everything but [newer] and [older], everything but [chain]. *)
Definition unlinked (e : entry) : entry := set_newer None (set_older None e).
Definition same_but_links (h h' : gmap nat entry) : Prop := forall x, unlinked <$> h' !! x = unlinked <$> h !! x.
Definition same_but_chain (h h' : gmap nat entry) : Prop := forall x, set_chain None <$> h' !! x = set_chain None <$> h !! x.

Lemma same_but_links_at h h' x e : same_but_links h h' -> h !! x = Some e -> exists e', h' !! x = Some e' /\
  chain e' = chain e /\ checked_at e' = checked_at e /\ refs e' = refs e /\ dropped e' = dropped e /\ what e' = what e.
Proof.
  intros Hs He. specialize (Hs x). rewrite He in Hs. destruct (h' !! x) as [e'|]; [|done]. exists e'. split; [done|].
  cbn in Hs. injection Hs as -> -> -> -> ->. done.
Qed.

Lemma same_but_chain_at h h' x e : same_but_chain h h' -> h !! x = Some e -> exists e', h' !! x = Some e' /\
  newer e' = newer e /\ older e' = older e /\ checked_at e' = checked_at e /\ refs e' = refs e /\ dropped e' = dropped e /\ what e' = what e.
Proof.
  intros Hs He. specialize (Hs x). rewrite He in Hs. destruct (h' !! x) as [e'|]; [|done]. exists e'. split; [done|].
  cbn in Hs. injection Hs as -> -> -> -> -> ->. done.
Qed.

Lemma same_but_links_sym h h' : same_but_links h h' -> same_but_links h' h.
Proof. intros Hs x. by rewrite Hs. Qed.
Lemma same_but_chain_sym h h' : same_but_chain h h' -> same_but_chain h' h.
Proof. intros Hs x. by rewrite Hs. Qed.
Lemma same_but_links_trans h1 h2 h3 : same_but_links h1 h2 -> same_but_links h2 h3 -> same_but_links h1 h3.
Proof. intros K1 K2 x. by rewrite K2. Qed.
Lemma same_but_chain_trans h1 h2 h3 : same_but_chain h1 h2 -> same_but_chain h2 h3 -> same_but_chain h1 h3.
Proof. intros K1 K2 x. by rewrite K2. Qed.

Lemma same_but_links_insert h x e e' : h !! x = Some e -> unlinked e' = unlinked e -> same_but_links h (<[x := e']> h).
Proof. intros He Hu y. destruct (decide (x = y)) as [->|]; [by rewrite lookup_insert_eq, He; cbn; rewrite Hu|by rewrite lookup_insert_ne]. Qed.
Lemma same_but_chain_insert h x e s : h !! x = Some e -> same_but_chain h (<[x := set_chain s e]> h).
Proof. intros He y. destruct (decide (x = y)) as [->|]; [by rewrite lookup_insert_eq, He|by rewrite lookup_insert_ne]. Qed.

(** *** Frames *)

Lemma chained_ext h h' s l : (forall x e, x ∈ l -> h !! x = Some e -> exists e', h' !! x = Some e' /\ chain e' = chain e) -> chained h s l -> chained h' s l.
Proof.
  revert s. induction l as [|x l IH]; intros s Hx; [done|]. cbn [chained]. intros (-> & e & He & Hc). split; [done|].
  destruct (Hx x e ltac:(set_solver) He) as (e' & He' & Hch). exists e'. split; [done|]. rewrite Hch. apply IH; [|done]. intros y ey Hy. apply Hx. set_solver.
Qed.

Lemma chained_in h s l x : chained h s l -> x ∈ l -> exists e, h !! x = Some e.
Proof. revert s. induction l as [|y l IH]; intros s; [set_solver|]. cbn. intros (-> & e & He & Hc) [-> | Hx]%elem_of_cons; eauto. Qed.

Lemma linked_ext h h' n o l : (forall x e, x ∈ l -> h !! x = Some e -> exists e', h' !! x = Some e' /\ newer e' = newer e /\ older e' = older e) -> linked h n o l -> linked h' n o l.
Proof.
  intros Hx (-> & -> & Hl). split; [done|]. split; [done|]. intros l1 x l2 ->. destruct (Hl l1 x l2 eq_refl) as (e & He & Hn & Ho).
  destruct (Hx x e ltac:(set_solver) He) as (e' & He' & Hn' & Ho'). exists e'. split; [done|]. by rewrite Hn', Ho'.
Qed.

Lemma linked_in h n o l x : linked h n o l -> x ∈ l -> exists e, h !! x = Some e.
Proof. intros (_ & _ & Hl) (l1 & l2 & ->)%list_elem_of_split. destruct (Hl l1 x l2 eq_refl) as (e & ? & _). eauto. Qed.

Lemma chains_links h h' b n D : same_but_links h h' -> chains h b n D -> chains h' b n D.
Proof.
  intros Hs [Hl Hc]. split; [done|]. intros i s Hi. destruct (Hc i s Hi) as (l & Hch & Hnd & Hin). exists l. split; [|split; [done|]].
  - eapply chained_ext; [|exact Hch]. intros x e _ He. destruct (same_but_links_at _ _ _ _ Hs He) as (e' & ? & ? & _). eauto.
  - intros x. rewrite Hin. split; intros (Hd & e & He & Hsl); (split; [done|]).
    + destruct (same_but_links_at _ _ _ _ Hs He) as (e' & ? & _ & _ & _ & _ & Hw). exists e'. by rewrite Hw.
    + destruct (same_but_links_at _ _ _ _ (same_but_links_sym _ _ Hs) He) as (e' & ? & _ & _ & _ & _ & Hw). exists e'. by rewrite Hw.
Qed.

Lemma linked_chain h h' n o l : same_but_chain h h' -> linked h n o l -> linked h' n o l.
Proof. intros Hs. apply linked_ext. intros x e _ He. destruct (same_but_chain_at _ _ _ _ Hs He) as (e' & ? & ? & ? & _). eauto. Qed.

(** ** The recency list *)

(** The neighbours of one that left, changed. *)
Definition mended (pn po : option nat) (y : nat) (e : entry) : entry :=
  set_newer (if decide (po = Some y) then pn else newer e) (set_older (if decide (pn = Some y) then po else older e) e).

Lemma poke_some h x e f : h !! x = Some e -> poke h x f = Some (<[x := f e]> h).
Proof. unfold poke. by intros ->. Qed.

Lemma mended_other pn po y e : pn <> Some y -> po <> Some y -> mended pn po y e = e.
Proof. intros Hn Ho. unfold mended. rewrite !decide_False by done. by destruct e. Qed.

Lemma recency_out_step c x e : heap c !! x = Some e ->
  (forall a, newer e = Some a -> a <> x /\ exists ea, heap c !! a = Some ea) ->
  (forall b, older e = Some b -> b <> x /\ newer e <> Some b /\ exists eb, heap c !! b = Some eb) ->
  exists h', recency_out c x = Some (set_ends (set_heap c h') (match newer e with Some _ => newest c | None => older e end) (match older e with Some _ => oldest c | None => newer e end)) /\
    same_but_links (heap c) h' /\ h' !! x = Some (unlinked e) /\
    (forall y ey, y <> x -> heap c !! y = Some ey -> h' !! y = Some (mended (newer e) (older e) y ey)).
Proof.
  intros He Ha Hb. unfold recency_out. rewrite He. cbn [mbind option_bind].
  destruct (newer e) as [a|] eqn:En.
  - destruct (Ha a eq_refl) as (Hax & ea & Hea). rewrite (poke_some _ _ _ _ Hea). cbn [mbind option_bind]. rewrite lookup_insert_ne by done. rewrite He. cbn [mbind option_bind].
    pose proof (same_but_links_insert (heap c) a ea (set_older (older e) ea) Hea eq_refl) as Hs1. set (h1 := <[a := _]> (heap c)) in *. rewrite En.
    assert (Hx1 : h1 !! x = Some e) by (unfold h1; by rewrite lookup_insert_ne).
    destruct (older e) as [b|] eqn:Eo.
    + destruct (Hb b eq_refl) as (Hbx & Hab & eb & Heb). assert (Hba : a <> b) by congruence. assert (Hb1 : h1 !! b = Some eb) by (unfold h1; by rewrite lookup_insert_ne).
      rewrite (poke_some _ _ _ _ Hb1). cbn [mbind option_bind]. pose proof (same_but_links_insert h1 b eb (set_newer (Some a) eb) Hb1 eq_refl) as Hs2. set (h2 := <[b := _]> h1) in *.
      assert (Hx2 : h2 !! x = Some e) by (unfold h2; by rewrite lookup_insert_ne). rewrite (poke_some _ _ _ _ Hx2). cbn [mbind option_bind].
      pose proof (same_but_links_insert h2 x e (unlinked e) Hx2 eq_refl) as Hs3. eexists. split; [reflexivity|].
      split; [eapply same_but_links_trans; [exact Hs1|eapply same_but_links_trans; [exact Hs2|exact Hs3]]|]. split; [by rewrite lookup_insert_eq|].
      intros y ey Hy Hey. rewrite lookup_insert_ne by done. unfold h2, h1, mended. destruct (decide (b = y)) as [->|Hby].
      * rewrite lookup_insert_eq. rewrite (decide_True _ _ (eq_refl (Some y))), decide_False by congruence. assert (ey = eb) as -> by congruence. by destruct eb.
      * rewrite lookup_insert_ne by done. rewrite (decide_False (P := Some b = Some y)) by congruence. destruct (decide (a = y)) as [->|Hay].
        -- rewrite lookup_insert_eq, decide_True by done. assert (ey = ea) as -> by congruence. by destruct ea.
        -- rewrite lookup_insert_ne, decide_False by congruence. rewrite Hey. by destruct ey.
    + cbn [mbind option_bind]. rewrite (poke_some _ _ _ _ Hx1). cbn [mbind option_bind]. pose proof (same_but_links_insert h1 x e (unlinked e) Hx1 eq_refl) as Hs3.
      eexists. split; [reflexivity|]. split; [eapply same_but_links_trans; [exact Hs1|exact Hs3]|]. split; [by rewrite lookup_insert_eq|].
      intros y ey Hy Hey. rewrite lookup_insert_ne by done. unfold h1, mended. rewrite (decide_False (P := None = Some y)) by done. destruct (decide (a = y)) as [->|Hay].
      * rewrite lookup_insert_eq, decide_True by done. assert (ey = ea) as -> by congruence. by destruct ea.
      * rewrite lookup_insert_ne, decide_False by congruence. rewrite Hey. by destruct ey.
  - cbn [mbind option_bind]. rewrite He. cbn [mbind option_bind]. rewrite En. destruct (older e) as [b|] eqn:Eo.
    + destruct (Hb b eq_refl) as (Hbx & _ & eb & Heb). rewrite (poke_some _ _ _ _ Heb). cbn [mbind option_bind].
      pose proof (same_but_links_insert (heap c) b eb (set_newer None eb) Heb eq_refl) as Hs2. set (h2 := <[b := _]> (heap c)) in *.
      assert (Hx2 : h2 !! x = Some e) by (unfold h2; by rewrite lookup_insert_ne). rewrite (poke_some _ _ _ _ Hx2). cbn [mbind option_bind].
      pose proof (same_but_links_insert h2 x e (unlinked e) Hx2 eq_refl) as Hs3. eexists. split; [reflexivity|].
      split; [eapply same_but_links_trans; [exact Hs2|exact Hs3]|]. split; [by rewrite lookup_insert_eq|].
      intros y ey Hy Hey. rewrite lookup_insert_ne by done. unfold h2, mended. rewrite (decide_False (P := None = Some y)) by done. destruct (decide (b = y)) as [->|Hby].
      * rewrite lookup_insert_eq, decide_True by done. assert (ey = eb) as -> by congruence. by destruct eb.
      * rewrite lookup_insert_ne, decide_False by congruence. rewrite Hey. by destruct ey.
    + cbn [mbind option_bind]. rewrite (poke_some _ _ _ _ He). cbn [mbind option_bind]. eexists. split; [reflexivity|].
      split; [by apply (same_but_links_insert (heap c) x e (unlinked e))|]. split; [by rewrite lookup_insert_eq|].
      intros y ey Hy Hey. rewrite lookup_insert_ne by done. by rewrite mended_other.
Qed.

Lemma NoDup_mid (l1 l2 : list nat) x : NoDup (l1 ++ x :: l2) -> x ∉ l1 /\ x ∉ l2 /\ (forall y, y ∈ l1 -> y ∉ l2) /\ NoDup (l1 ++ l2).
Proof.
  intros Hnd. apply NoDup_app in Hnd as (N1 & Hd & Hnd). apply NoDup_cons in Hnd as [Hx N2].
  split; [intros Hx'; apply (Hd x Hx'); set_solver|]. split; [done|]. split; [intros y Hy; specialize (Hd y Hy); set_solver|].
  apply NoDup_app. split; [done|]. split; [|done]. intros y Hy. specialize (Hd y Hy). set_solver.
Qed.

Lemma last_in (l : list nat) x : last l = Some x -> x ∈ l.
Proof. apply last_Some_elem_of. Qed.
Lemma head_in (l : list nat) x : head l = Some x -> x ∈ l.
Proof. apply head_Some_elem_of. Qed.

Lemma split_around (k1 k2 l1 l2 : list nat) y : k1 ++ y :: k2 = l1 ++ l2 ->
  (exists k, l1 = k1 ++ y :: k /\ k2 = k ++ l2) \/ (exists k, k1 = l1 ++ k /\ l2 = k ++ y :: k2).
Proof.
  intros Hk. apply app_eq_inv in Hk as [(k & E1 & E2) | (k & E1 & E2)].
  - right. by exists k.
  - destruct k as [|z k]; cbn in E2.
    + right. exists []. rewrite app_nil_r in E1. by rewrite app_nil_r.
    + injection E2 as -> ->. left. by exists k.
Qed.

(** Between the entries that stay, nothing but the neighbours' links changes. *)
Lemma mended_between l1 x l2 k1 y k2 ey : NoDup (l1 ++ x :: l2) -> k1 ++ y :: k2 = l1 ++ l2 ->
  (forall j1 j2, l1 ++ x :: l2 = j1 ++ y :: j2 -> newer ey = last j1 /\ older ey = head j2) ->
  newer (mended (last l1) (head l2) y ey) = last k1 /\ older (mended (last l1) (head l2) y ey) = head k2.
Proof.
  intros Hnd Hk Hl. destruct (NoDup_mid _ _ _ Hnd) as (_ & _ & Hdis & _). unfold mended. cbn [newer older set_newer set_older].
  apply split_around in Hk as [(k & -> & ->) | (k & -> & ->)].
  - destruct (Hl k1 (k ++ x :: l2)) as [-> ->]; [by rewrite <- app_assoc|].
    rewrite decide_False by (intros Hh%head_in; apply (Hdis y); set_solver). split; [done|]. destruct k as [|z k].
    + by rewrite last_snoc, decide_True.
    + rewrite decide_False; [done|]. rewrite last_app_cons, last_cons_cons. intros Hla%last_in.
      apply NoDup_app in Hnd as (Hnd & _). apply NoDup_app in Hnd as (_ & _ & Hnd). apply NoDup_cons in Hnd as [? _]. done.
  - destruct (Hl (l1 ++ x :: k) k2) as [-> ->]; [by rewrite <- app_assoc|].
    rewrite (decide_False (P := last l1 = Some y)) by (intros Hla%last_in; apply (Hdis y); set_solver). split; [|done]. destruct k as [|z k].
    + cbn [head app]. by rewrite decide_True, app_nil_r.
    + rewrite decide_False; [by rewrite !last_app_cons, last_cons_cons|]. cbn [head app]. intros [= ->].
      apply NoDup_app in Hnd as (_ & _ & Hnd). apply NoDup_cons in Hnd as [_ Hnd]. cbn in Hnd. apply NoDup_cons in Hnd as [? _]. set_solver.
Qed.

Lemma linked_out c l1 x l2 : NoDup (l1 ++ x :: l2) -> linked (heap c) (newest c) (oldest c) (l1 ++ x :: l2) ->
  exists c', recency_out c x = Some c' /\ linked (heap c') (newest c') (oldest c') (l1 ++ l2) /\ same_but_links (heap c) (heap c') /\
    c' = set_ends (set_heap c (heap c')) (newest c') (oldest c').
Proof.
  intros Hnd (Hn & Ho & Hl). destruct (NoDup_mid _ _ _ Hnd) as (Hx1 & Hx2 & Hdis & Hnd'). destruct (Hl l1 x l2 eq_refl) as (e & He & Hne & Hol).
  assert (Hat : forall y, y ∈ l1 ++ x :: l2 -> exists ey, heap c !! y = Some ey) by (intros y Hy; eapply (linked_in _ _ _ _ y); [split; [exact Hn|split; [exact Ho|exact Hl]]|done]).
  destruct (recency_out_step c x e He) as (h' & E & Hs & Hxe & Hmend).
  { intros a Ha. rewrite Hne in Ha. apply last_in in Ha. split; [by intros ->|]. apply Hat. set_solver. }
  { intros b Hb. rewrite Hol in Hb. apply head_in in Hb. split; [by intros ->|]. split; [|apply Hat; set_solver]. rewrite Hne. intros Hla%last_in. by apply (Hdis b). }
  eexists. split; [exact E|]. cbn [heap newest oldest set_ends set_heap]. split; [|by split]. rewrite Hne, Hol in *. split; [|split].
  - rewrite Hn. destruct l1 as [|a l1]; [done|]. destruct (last (a :: l1)) eqn:El; [done|]. by apply last_None in El.
  - rewrite Ho. destruct l2 as [|b l2]; [by rewrite app_nil_r|]. cbn [head]. rewrite !last_app_cons. by rewrite last_cons_cons.
  - intros k1 y k2 Hk. assert (Hy : y ∈ l1 ++ l2) by (rewrite Hk; set_solver). assert (Hyx : y <> x) by (intros ->; set_solver).
    destruct (Hat y ltac:(set_solver)) as (ey & Hey). exists (mended (last l1) (head l2) y ey). split; [by apply Hmend|].
    eapply mended_between; [exact Hnd|done|]. intros j1 j2 Hj. destruct (Hl j1 y j2 Hj) as (ey' & Hey' & ?). by assert (ey' = ey) as -> by congruence.
Qed.

Lemma linked_front c x e l : heap c !! x = Some e -> NoDup (x :: l) -> linked (heap c) (newest c) (oldest c) l ->
  exists c', recency_in c x = Some c' /\ linked (heap c') (newest c') (oldest c') (x :: l) /\ same_but_links (heap c) (heap c') /\
    c' = set_ends (set_heap c (heap c')) (newest c') (oldest c').
Proof.
  intros He Hnd (Hn & Ho & Hl). apply NoDup_cons in Hnd as [Hx Hnd]. unfold recency_in. rewrite (poke_some _ _ _ _ He). cbn [mbind option_bind].
  pose proof (same_but_links_insert (heap c) x e (set_newer None (set_older (newest c) e)) He eq_refl) as Hs1. set (h1 := <[x := _]> (heap c)) in *.
  assert (Hx1 : h1 !! x = Some (set_newer None (set_older (newest c) e))) by (unfold h1; by rewrite lookup_insert_eq).
  destruct l as [|y l].
  - rewrite Hn, Ho. cbn [head last mbind option_bind]. eexists. split; [reflexivity|]. cbn [heap newest oldest set_ends set_heap]. split; [|by split].
    split; [done|]. split; [done|]. intros l1 z l2 Hz. destruct l1 as [|? [|]]; [|done|done]. injection Hz as <- <-. eexists. split; [exact Hx1|]. cbn. by rewrite Hn.
  - rewrite Hn. cbn [head]. assert (Hyx : y <> x) by set_solver. destruct (Hl [] y l eq_refl) as (ey & Hey & Hny & Hoy).
    assert (Hy1 : h1 !! y = Some ey) by (unfold h1; by rewrite lookup_insert_ne). rewrite (poke_some _ _ _ _ Hy1). cbn [mbind option_bind].
    pose proof (same_but_links_insert h1 y ey (set_newer (Some x) ey) Hy1 eq_refl) as Hs2. eexists. split; [reflexivity|]. cbn [heap newest oldest set_ends set_heap].
    split; [|split; [by eapply same_but_links_trans|done]]. split; [done|]. split; [rewrite Ho; destruct (last (y :: l)) eqn:E; [by rewrite last_cons, E|by apply last_None in E]|].
    intros l1 z l2 Hz. destruct l1 as [|? l1].
    + injection Hz as <- <-. eexists. rewrite lookup_insert_ne by done. split; [exact Hx1|]. cbn. by rewrite Hn.
    + injection Hz as <- Hz. destruct l1 as [|w l1].
      * injection Hz as <- <-. eexists. rewrite lookup_insert_eq. split; [done|]. cbn. by rewrite Hoy.
      * injection Hz as <- ->. destruct (Hl (y :: l1) z l2 eq_refl) as (ez & Hez & Hnz & Hoz).
        apply NoDup_cons in Hnd as [Hy _]. exists ez. rewrite lookup_insert_ne by set_solver. unfold h1. rewrite lookup_insert_ne by set_solver.
        split; [done|]. rewrite Hnz, Hoz. by rewrite last_cons_cons.
Qed.

(** ** The buckets *)

Lemma bucket_lt k hash : slot_of (2 ^ k) hash < 2 ^ k.
Proof.
  unfold slot_of. pose proof (Nat.pow_nonzero 2 k). assert (E : (Z.of_nat (2 ^ k) - 1 = Z.ones (Z.of_nat k))%Z) by (rewrite Z.ones_equiv, Nat2Z.inj_pow; lia).
  rewrite E, Z.land_ones by lia. pose proof (Z.mod_pos_bound hash (2 ^ Z.of_nat k) ltac:(apply Z.pow_pos_nonneg; lia)).
  apply Nat2Z.inj_lt. rewrite Z2Nat.id by lia. rewrite Nat2Z.inj_pow. lia.
Qed.

Lemma chained_size h s l : chained h s l -> NoDup l -> length l <= size h.
Proof.
  intros Hc Hnd. rewrite <- (size_list_to_set (C := gset nat) l Hnd), <- size_dom. apply subseteq_size. intros x Hx. apply elem_of_list_to_set in Hx.
  destruct (chained_in _ _ _ _ Hc Hx) as [e He]. by apply elem_of_dom.
Qed.

Lemma unchain_out fuel h s l1 x l2 : chained h s (l1 ++ x :: l2) -> NoDup (l1 ++ x :: l2) -> length l1 < fuel ->
  exists s' h', unchain fuel h s x = Some (s', h') /\ chained h' s' (l1 ++ l2) /\ same_but_chain h h' /\ forall y, y ∉ l1 -> h' !! y = h !! y.
Proof.
  revert fuel s. induction l1 as [|a l1 IH]; intros fuel s Hc Hnd Hf; (destruct fuel as [|fuel]; [cbn in Hf; lia|]); cbn [app chained] in Hc; destruct Hc as (-> & e & He & Hc); cbn [unchain]; rewrite He; cbn [mbind option_bind].
  - rewrite Nat.eqb_refl. exists (chain e), h. by split; [|split; [|split; [intros ?|]]].
  - cbn [app] in Hnd. apply NoDup_cons in Hnd as [Ha Hnd]. rewrite (proj2 (Nat.eqb_neq a x)) by set_solver.
    destruct (IH fuel (chain e) Hc Hnd ltac:(cbn in Hf; lia)) as (s' & h' & E & Hc' & Hs & Hy). rewrite E. cbn [mbind option_bind].
    assert (Ha' : h' !! a = Some e) by (rewrite Hy by set_solver; done). rewrite (poke_some _ _ _ _ Ha'). cbn [mbind option_bind].
    do 2 eexists. split; [reflexivity|]. split; [|split].
    + cbn [app chained]. split; [done|]. eexists. rewrite lookup_insert_eq. split; [done|]. cbn [chain set_chain].
      eapply chained_ext; [|exact Hc']. intros y ey Hin Hey. exists ey. split; [|done]. rewrite lookup_insert_ne; [done|]. intros ->. set_solver.
    + eapply same_but_chain_trans; [exact Hs|]. by apply same_but_chain_insert.
    + intros y Hin. rewrite lookup_insert_ne by set_solver. apply Hy. set_solver.
Qed.

Lemma in_slot_chain h h' n i x : same_but_chain h h' -> in_slot h n i x <-> in_slot h' n i x.
Proof.
  intros Hs. split; intros (e & He & Hi); [destruct (same_but_chain_at _ _ _ _ Hs He) as (e' & ? & _ & _ & _ & _ & _ & Hw)
    |destruct (same_but_chain_at _ _ _ _ (same_but_chain_sym _ _ Hs) He) as (e' & ? & _ & _ & _ & _ & _ & Hw)]; exists e'; by rewrite Hw.
Qed.

Lemma in_slot_inj h n i j x : in_slot h n i x -> in_slot h n j x -> i = j.
Proof. intros (e & He & <-) (e' & He' & <-). congruence. Qed.

Lemma chains_out c l1 x l2 e : NoDup (l1 ++ x :: l2) -> chains (heap c) (buckets c) (n_buckets c) (l1 ++ x :: l2) -> heap c !! x = Some e ->
  slot_of (n_buckets c) (f_hash (what e)) < n_buckets c ->
  exists s s' h', let i := slot_of (n_buckets c) (f_hash (what e)) in
    buckets c !! i = Some s /\ unchain (size (heap c)) (heap c) s x = Some (s', h') /\ same_but_chain (heap c) h' /\
    chains h' (<[i := s']> (buckets c)) (n_buckets c) (l1 ++ l2).
Proof.
  intros Hnd [Hl Hc] He Hi. set (i := slot_of _ _) in *. destruct (lookup_lt_is_Some_2 (buckets c) i ltac:(lia)) as [s Hs].
  destruct (NoDup_mid _ _ _ Hnd) as (Hx1 & Hx2 & _ & _). destruct (Hc i s Hs) as (l & Hch & Hndl & Hin).
  assert (Hxl : x ∈ l) by (apply Hin; split; [set_solver|by exists e]). apply list_elem_of_split in Hxl as (k1 & k2 & ->).
  pose proof (chained_size _ _ _ Hch Hndl) as Hsz. destruct (unchain_out (size (heap c)) _ _ _ _ _ Hch Hndl ltac:(list_lia)) as (s' & h' & E & Hch' & Hsb & Hy).
  exists s, s', h'. split; [done|]. split; [done|]. split; [done|]. split; [by rewrite length_insert|]. destruct (NoDup_mid _ _ _ Hndl) as (Hxk1 & Hxk2 & _ & Hndk).
  intros j t Ht. destruct (decide (i = j)) as [<-|Hij].
  - rewrite list_lookup_insert_eq in Ht by (by eapply lookup_lt_Some). injection Ht as <-. exists (k1 ++ k2). split; [done|]. split; [done|].
    intros y. rewrite <- (in_slot_chain _ h') by done. specialize (Hin y). split.
    + intros Hyk. assert (y <> x) by (intros ->; set_solver). destruct Hin as [Hin _]. destruct Hin as [? ?]; [set_solver|]. split; [set_solver|done].
    + intros [Hyd Hys]. assert (y <> x) by (intros ->; set_solver). assert (y ∈ k1 ++ x :: k2) by (apply Hin; split; [set_solver|done]). set_solver.
  - rewrite list_lookup_insert_ne in Ht by done. destruct (Hc j t Ht) as (m & Hm & Hndm & Hinm). exists m.
    assert (Hxm : x ∉ m) by (intros Hxm; apply Hinm in Hxm as [_ Hxs]; apply Hij; eapply (in_slot_inj (heap c) _ _ _ x); [by exists e|exact Hxs]).
    split; [|split; [done|]].
    + eapply chained_ext; [|exact Hm]. intros y ey Hym Hey. exists ey. split; [|done]. rewrite Hy; [done|]. intros Hyk.
      assert (Hyl : y ∈ k1 ++ x :: k2) by set_solver. apply Hin in Hyl as [_ Hyi]. apply Hinm in Hym as [_ Hyj]. apply Hij. by eapply in_slot_inj.
    + intros y. rewrite <- (in_slot_chain _ h') by done. rewrite Hinm. split; intros [Hyd Hys]; (split; [|done]).
      * assert (y <> x) by (intros ->; apply Hxm, Hinm; done). set_solver.
      * set_solver.
Qed.

(** An entry that is in no chain, at the front of the one its hash names. *)
Lemma chains_front h b n D x e : chains h b n D -> x ∉ D -> h !! x = Some e -> slot_of n (f_hash (what e)) < n ->
  exists s, let i := slot_of n (f_hash (what e)) in
    b !! i = Some s /\ chains (<[x := set_chain s e]> h) (<[i := Some x]> b) n (x :: D).
Proof.
  intros [Hl Hc] Hx He Hi. set (i := slot_of _ _) in *. destruct (lookup_lt_is_Some_2 b i ltac:(lia)) as [s Hs]. exists s. split; [done|]. split; [by rewrite length_insert|].
  pose proof (same_but_chain_insert h x e s He) as Hsb. set (h' := <[x := _]> h) in *.
  assert (Hext : forall l t, chained h t l -> (forall y, y ∈ l -> y ∈ D) -> chained h' t l).
  { intros l t Ht Hd. eapply chained_ext; [|exact Ht]. intros y ey Hy Hey. exists ey. split; [|done]. unfold h'. rewrite lookup_insert_ne; [done|]. intros <-. auto. }
  intros j t Ht. destruct (decide (i = j)) as [<-|Hij].
  - rewrite list_lookup_insert_eq in Ht by (by eapply lookup_lt_Some). injection Ht as <-. destruct (Hc i s Hs) as (l & Hch & Hndl & Hin). exists (x :: l).
    split; [|split].
    + cbn. split; [done|]. exists (set_chain s e). split; [unfold h'; by rewrite lookup_insert_eq|]. apply Hext; [done|]. intros y Hy. by apply Hin in Hy as [? _].
    + apply NoDup_cons. split; [|done]. intros Hxl. by apply Hin in Hxl as [? _].
    + intros y. rewrite <- (in_slot_chain _ h') by done. rewrite !elem_of_cons, Hin. split; [intros [-> | [? ?]]; (split; [auto|])|intros [[-> | ?] ?]; auto]; [by exists e|done].
  - rewrite list_lookup_insert_ne in Ht by done. destruct (Hc j t Ht) as (l & Hch & Hndl & Hin). exists l. split; [|split; [done|]].
    + apply Hext; [done|]. intros y Hy. by apply Hin in Hy as [? _].
    + intros y. rewrite <- (in_slot_chain _ h') by done. rewrite !elem_of_cons, Hin. split; [intros [? ?]; auto|]. intros [[-> | ?] Hys]; [|done].
      exfalso. apply Hij. eapply (in_slot_inj h _ _ _ x); [by exists e|exact Hys].
Qed.

Lemma chains_ext h b n D D' : (forall y, y ∈ D <-> y ∈ D') -> chains h b n D -> chains h b n D'.
Proof.
  intros HD [Hl Hc]. split; [done|]. intros i s Hi. destruct (Hc i s Hi) as (l & ? & ? & Hin). exists l. split; [done|]. split; [done|].
  intros x. by rewrite Hin, HD.
Qed.

Lemma chains_empty h n : chains h (replicate n None) n [].
Proof.
  split; [by rewrite length_replicate|]. intros i s [-> _]%lookup_replicate. exists []. split; [done|]. split; [constructor|]. set_solver.
Qed.

Lemma chained_frame h s l x e e' : chained h s l -> x ∉ l -> h !! x = Some e -> chained (<[x := e']> h) s l.
Proof. intros Hc Hx He. eapply chained_ext; [|exact Hc]. intros y ey Hy Hey. exists ey. split; [|done]. rewrite lookup_insert_ne; [done|]. by intros <-. Qed.

Lemma grow_chain_spec k fuel h b e l P : chained h e l -> NoDup l -> (forall y, y ∈ l -> y ∉ P) -> chains h b (2 ^ k) P -> length l <= fuel ->
  exists h' b', grow_chain fuel h b (2 ^ k) e = Some (h', b') /\ chains h' b' (2 ^ k) (rev l ++ P) /\ same_but_chain h h' /\ forall y, y ∉ l -> h' !! y = h !! y.
Proof.
  revert fuel h b e P. induction l as [|x l IH]; intros fuel h b e P Hc Hnd Hd Hch Hf; cbn [chained] in Hc.
  - subst e. exists h, b. split; [by destruct fuel|]. split; [done|]. split; [by intros ?|done].
  - destruct Hc as (-> & ex & Hx & Hc). destruct fuel as [|fuel]; [cbn in Hf; lia|]. cbn [grow_chain]. rewrite Hx. cbn [mbind option_bind].
    apply NoDup_cons in Hnd as [Hxl Hnd]. destruct (chains_front h b (2 ^ k) P x ex Hch ltac:(apply Hd; set_solver) Hx (bucket_lt _ _)) as (s & Hs & Hch').
    rewrite Hs. cbn [mbind option_bind]. rewrite (poke_some _ _ _ _ Hx). cbn [mbind option_bind].
    destruct (IH fuel _ (<[slot_of (2 ^ k) (f_hash (what ex)) := Some x]> b) (chain ex) (x :: P) (chained_frame _ _ _ _ _ (set_chain s ex) Hc Hxl Hx) Hnd) as (h' & b' & E & Hch2 & Hsb & Hy); [|exact Hch'|cbn in Hf; lia|].
    { intros y Hyl. specialize (Hd y). set_solver. }
    exists h', b'. split; [exact E|]. split; [cbn [rev]; by rewrite <- app_assoc|]. split.
    + eapply same_but_chain_trans; [|exact Hsb]. by apply same_but_chain_insert.
    + intros y Hyn. rewrite Hy by set_solver. apply lookup_insert_ne. set_solver.
Qed.

Lemma grow_all_spec k n0 (D : list nat) old : forall off h b P,
  (forall i s, old !! i = Some s -> exists l, chained h s l /\ NoDup l /\ forall y, y ∈ l <-> y ∈ D /\ in_slot h n0 (off + i) y) ->
  (forall y, y ∈ P <-> y ∈ D /\ exists i, i < off /\ in_slot h n0 i y) -> chains h b (2 ^ k) P ->
  exists h' b' P', grow_all old h b (2 ^ k) = Some (h', b') /\ chains h' b' (2 ^ k) P' /\ same_but_chain h h' /\
    forall y, y ∈ P' <-> y ∈ D /\ exists i, i < off + length old /\ in_slot h n0 i y.
Proof.
  induction old as [|s old IH]; intros off h b P Hold HP Hch.
  - exists h, b, P. split; [done|]. split; [done|]. split; [by intros ?|]. intros y. rewrite HP. cbn. by rewrite Nat.add_0_r.
  - destruct (Hold 0 s eq_refl) as (l & Hl & Hnd & Hin). rewrite Nat.add_0_r in Hin. cbn [grow_all].
    destruct (grow_chain_spec k (size h) h b s l P Hl Hnd) as (h1 & b1 & E & Hch1 & Hs1 & Hy1); [|done|by eapply chained_size|].
    { intros y [_ Hyo]%Hin [_ (i & Hi & Hyi)]%HP. pose proof (in_slot_inj _ _ _ _ _ Hyo Hyi). lia. }
    rewrite E. cbn [mbind option_bind]. destruct (IH (S off) h1 b1 (rev l ++ P)) as (h' & b' & P' & E' & Hch' & Hs' & HP'); [| |done|].
    + intros i t Ht. destruct (Hold (S i) t Ht) as (m & Hm & Hndm & Hinm). exists m. split; [|split; [done|]].
      * eapply chained_ext; [|exact Hm]. intros y ey Hym Hey. exists ey. split; [|done]. rewrite Hy1; [done|]. intros [_ Hyo]%Hin.
        apply Hinm in Hym as [_ Hyi]. pose proof (in_slot_inj _ _ _ _ _ Hyo Hyi). lia.
      * intros y. rewrite Hinm, (in_slot_chain _ h1) by done. by replace (off + S i) with (S off + i) by lia.
    + intros y. rewrite elem_of_app, (list_elem_of_In (rev l)), <- in_rev, <- list_elem_of_In, Hin, HP. split.
      * intros [[Hd Hs] | (Hd & i & Hi & Hs)]; (split; [done|]); [exists off|exists i]; (split; [lia|]); by apply (in_slot_chain h h1).
      * intros (Hd & i & Hi & Hs). apply (in_slot_chain h h1) in Hs; [|done]. destruct (decide (i = off)) as [->|]; [by left|]. right. split; [done|]. exists i. split; [lia|done].
    + exists h', b', P'. split; [done|]. split; [done|]. split; [by eapply same_but_chain_trans|]. intros y. rewrite HP'. cbn [length].
      split; intros (Hd & i & Hi & Hs); (split; [done|]); exists i; (split; [lia|]); by apply (in_slot_chain h h1).
Qed.

(** ** The specification: an order, and what is in memory

    [order]: the entries of the table, newest first; [alive]: every entry that has not been freed, with
    the replies that read from it; [cap]: the budget. *)
Record lru := { order : list nat; alive : gmap nat (file * nat); cap : Z }.

Definition bytes_of (m : gmap nat (file * nat)) (x : nat) : Z := match m !! x with Some (f, _) => f_bytes f | None => 0 end.
Definition weight (m : gmap nat (file * nat)) (l : list nat) : Z := foldr (fun x s => bytes_of m x + s)%Z 0%Z l.

(** The newest that fit in [room]. *)
Fixpoint newest_within (m : gmap nat (file * nat)) (room : Z) (l : list nat) : list nat :=
  match l with [] => [] | x :: l => if (bytes_of m x <=? room)%Z then x :: newest_within m (room - bytes_of m x)%Z l else [] end.

(** Out of the table: out of memory too when nothing reads from it. *)
Definition forget (x : nat) (m : gmap nat (file * nat)) : gmap nat (file * nat) :=
  match m !! x with Some (_, 0) => delete x m | _ => m end.

Inductive op :=
  | Keep (x : nat) (f : file) (now : Z) (alloc : bool)   (* a file read from the disk, at a new address *)
  | Touch (x : nat)
  | Mark (x : nat) (now : Z)                             (* checked against the disk *)
  | Drop (x : nat)
  | Hold (x : nat)
  | Release (x : nat).

Definition allowed (a : lru) (o : op) : Prop :=
  match o with
  | Keep x f _ _ => alive a !! x = None /\ (0 <= f_bytes f)%Z /\ f_hash f = hash_of (f_name f)
  | Touch x | Mark x _ | Drop x => x ∈ order a
  | Hold x => is_Some (alive a !! x)
  | Release x => exists f n, alive a !! x = Some (f, S n)
  end.

Definition others (x : nat) (l : list nat) : list nat := filter (fun y => y <> x) l.

Definition effect (a : lru) (o : op) : lru :=
  match o with
  | Keep x f _ _ =>
      let m := <[x := (f, 0)]> (alive a) in
      if (f_bytes f <=? cap a)%Z then
        let l := newest_within m (cap a - f_bytes f) (order a) in
        {| order := x :: l; alive := foldr forget m (list.drop (length l) (order a)); cap := cap a |}
      else {| order := order a; alive := m; cap := cap a |}
  | Touch x => {| order := x :: others x (order a); alive := alive a; cap := cap a |}
  | Mark _ _ => a
  | Drop x => {| order := others x (order a); alive := forget x (alive a); cap := cap a |}
  | Hold x => {| order := order a; alive := alter (fun '(f, n) => (f, S n)) x (alive a); cap := cap a |}
  | Release x =>
      let m := alter (fun '(f, n) => (f, n - 1)) x (alive a) in
      {| order := order a; alive := if bool_decide (x ∈ order a) then m else forget x m; cap := cap a |}
  end.

Definition start (budget_ : Z) : lru := {| order := []; alive := ∅; cap := budget_ |}.

Fixpoint allowed_all (a : lru) (l : list op) : Prop :=
  match l with [] => True | o :: l => allowed a o /\ allowed_all (effect a o) l end.

(** The code's functions. *)
Definition do_op (c : cache) (o : op) : option cache :=
  match o with
  | Keep x f now alloc => keep c x f now alloc
  | Touch x => touch c x
  | Mark x now => h ← poke (heap c) x (set_checked now); Some (set_heap c h)
  | Drop x => drop c x
  | Hold x => hold c x
  | Release x => release c x
  end.
Definition do_ops (c : cache) (l : list op) : option cache := foldl (fun c o => c ← c; do_op c o) (Some c) l.

(** What a table of the code must be to stand for the order [l]. *)
Record shape (c : cache) (l : list nat) (m : gmap nat (file * nat)) : Prop := {
  sh_nodup : NoDup l;
  sh_linked : linked (heap c) (newest c) (oldest c) l;
  sh_slots : exists k, n_buckets c = 2 ^ k;
  sh_chains : chains (heap c) (buckets c) (n_buckets c) l;
  sh_count : count c = length l;
  sh_held : held c = weight m l
}.

(** A table of the code and one of the specification; [pending] is the entry made and not yet in the table. *)
Definition seen (e : entry) : file * nat := (what e, refs e).
Record is_lru (c : cache) (a : lru) (pending : option nat) : Prop := {
  il_shape : shape c (order a) (alive a);
  il_alive : forall x, seen <$> heap c !! x = alive a !! x;
  il_dropped : forall x e, heap c !! x = Some e -> dropped e = negb (bool_decide (x ∈ order a \/ pending = Some x));
  il_pending : forall x, pending = Some x -> x ∉ order a;
  il_cap : budget c = cap a
}.

(** What holds of the specification's states. *)
Record lru_ok (a : lru) : Prop := {
  ok_within : (weight (alive a) (order a) <= cap a)%Z;
  ok_files : forall x f n, alive a !! x = Some (f, n) -> (0 <= f_bytes f)%Z /\ f_hash f = hash_of (f_name f);
  ok_here : forall x, x ∈ order a -> is_Some (alive a !! x)
}.

(** *** Frames of the shape *)

Definition agree (h h' : gmap nat entry) (D : list nat) : Prop := forall x, x ∈ D -> exists e e', h !! x = Some e /\ h' !! x = Some e' /\
  chain e' = chain e /\ newer e' = newer e /\ older e' = older e /\ what e' = what e.

Lemma chains_agree h h' b n D : agree h h' D -> chains h b n D -> chains h' b n D.
Proof.
  intros Ha [Hl Hc]. split; [done|]. intros i s Hi. destruct (Hc i s Hi) as (l & Hch & Hnd & Hin). exists l. split; [|split; [done|]].
  - eapply chained_ext; [|exact Hch]. intros x e [Hx _]%Hin He. destruct (Ha x Hx) as (e0 & e' & ? & ? & ? & _). exists e'. by assert (e0 = e) as -> by congruence.
  - intros x. rewrite Hin. split; intros (Hd & e & He & Hsl); (split; [done|]); destruct (Ha x Hd) as (e0 & e' & Ke & Ke' & _ & _ & _ & Hw).
    + exists e'. split; [done|]. rewrite Hw. congruence.
    + exists e0. split; [done|]. congruence.
Qed.

Lemma weight_ext m m' l : (forall x, x ∈ l -> bytes_of m' x = bytes_of m x) -> weight m' l = weight m l.
Proof. induction l as [|x l IH]; [done|]. intros Hx. cbn [weight foldr]. rewrite Hx by set_solver. fold (weight m' l) (weight m l). rewrite IH; [done|]. intros y Hy. apply Hx. set_solver. Qed.

Lemma shape_agree c h' l m m' : agree (heap c) h' l -> (forall x, x ∈ l -> bytes_of m' x = bytes_of m x) -> shape c l m -> shape (set_heap c h') l m'.
Proof.
  intros Ha Hm []. split; cbn [heap newest oldest n_buckets buckets count held set_heap]; [done| |done|by eapply chains_agree|done|by rewrite (weight_ext m m')].
  eapply linked_ext; [|done]. intros x e Hx He. destruct (Ha x Hx) as (e0 & e' & ? & ? & _ & ? & ? & _). exists e'. by assert (e0 = e) as -> by congruence.
Qed.

Lemma shape_in c l m x : shape c l m -> x ∈ l -> exists e, heap c !! x = Some e.
Proof. intros [] Hx. by eapply linked_in. Qed.

(** A change to one entry that leaves its links and its file alone. *)
Lemma agree_poke c l m x f : shape c l m -> (forall e, chain (f e) = chain e /\ newer (f e) = newer e /\ older (f e) = older e /\ what (f e) = what e) ->
  agree (heap c) (alter f x (heap c)) l.
Proof.
  intros Hs Hf y Hy. destruct (shape_in _ _ _ _ Hs Hy) as [e He]. destruct (decide (x = y)) as [->|Hxy].
  - exists e, (f e). rewrite lookup_alter_eq, He. destruct (Hf e) as (? & ? & ? & ?). done.
  - exists e, e. by rewrite lookup_alter_ne.
Qed.

Lemma agree_delete c l m x : shape c l m -> x ∉ l -> agree (heap c) (delete x (heap c)) l.
Proof. intros Hs Hx y Hy. destruct (shape_in _ _ _ _ Hs Hy) as [e He]. exists e, e. rewrite lookup_delete_ne by (by intros ->). done. Qed.

Lemma agree_new c l m x e : shape c l m -> x ∉ l -> agree (heap c) (<[x := e]> (heap c)) l.
Proof. intros Hs Hx y Hy. destruct (shape_in _ _ _ _ Hs Hy) as [e' He]. exists e', e'. rewrite lookup_insert_ne by (by intros ->). done. Qed.

(** Links and chains aside. *)
Definition bare (e : entry) : entry := set_chain None (unlinked e).
Definition same_files (h h' : gmap nat entry) : Prop := forall x, bare <$> h' !! x = bare <$> h !! x.

Lemma same_files_links h h' : same_but_links h h' -> same_files h h'.
Proof. intros Hs x. pose proof (f_equal (fmap (set_chain None)) (Hs x)) as E. by rewrite <- !option_fmap_compose in E. Qed.
Lemma same_files_chain h h' : same_but_chain h h' -> same_files h h'.
Proof. intros Hs x. pose proof (f_equal (fmap unlinked) (Hs x)) as E. by rewrite <- !option_fmap_compose in E. Qed.
Lemma same_files_trans h1 h2 h3 : same_files h1 h2 -> same_files h2 h3 -> same_files h1 h3.
Proof. intros K1 K2 x. by rewrite K2. Qed.

Lemma same_files_seen h h' x : same_files h h' -> seen <$> h' !! x = seen <$> h !! x.
Proof. intros Hs. pose proof (f_equal (fmap seen) (Hs x)) as E. by rewrite <- !option_fmap_compose in E. Qed.

Lemma same_files_at h h' x e : same_files h h' -> h' !! x = Some e -> exists e0, h !! x = Some e0 /\ dropped e = dropped e0.
Proof. intros Hs He. specialize (Hs x). rewrite He in Hs. destruct (h !! x) as [e0|]; [|done]. exists e0. split; [done|]. cbn in Hs. by injection Hs. Qed.

(** *** The weight *)

Lemma weight_app m l1 l2 : weight m (l1 ++ l2) = (weight m l1 + weight m l2)%Z.
Proof. induction l1 as [|x l1 IH]; [done|]. cbn [app weight foldr]. fold (weight m (l1 ++ l2)) (weight m l1). rewrite IH. lia. Qed.

Lemma bytes_of_seen (h : gmap nat entry) m x e : (forall x, seen <$> h !! x = m !! x) -> h !! x = Some e -> bytes_of m x = f_bytes (what e).
Proof. intros Hm He. unfold bytes_of. by rewrite <- Hm, He. Qed.

Lemma others_id x l : x ∉ l -> others x l = l.
Proof. induction l as [|y l IH]; [done|]. intros Hx. unfold others in *. rewrite filter_cons_True by set_solver. by rewrite IH by set_solver. Qed.
Lemma others_mid l1 x l2 : x ∉ l1 -> x ∉ l2 -> others x (l1 ++ x :: l2) = l1 ++ l2.
Proof. intros K1 K2. unfold others. rewrite filter_app, filter_cons_False by auto. fold (others x l1) (others x l2). by rewrite !others_id. Qed.
Lemma elem_of_others x y l : y ∈ others x l <-> y <> x /\ y ∈ l.
Proof. unfold others. by rewrite list_elem_of_filter. Qed.

(** ** Every operation of the code is one of the specification *)

Lemma unlink_shape c l m x e : shape c l m -> x ∈ l -> heap c !! x = Some e -> bytes_of m x = f_bytes (what e) ->
  exists c', unlink_entry c x = Some c' /\ shape c' (others x l) m /\ same_files (heap c) (heap c') /\ budget c' = budget c.
Proof.
  intros [Hnd Hl (k & Hk) Hch Hco Hh] Hx He Hb. apply list_elem_of_split in Hx as (l1 & l2 & ->). destruct (NoDup_mid _ _ _ Hnd) as (Hx1 & Hx2 & _ & Hnd').
  rewrite others_mid by done. destruct (chains_out c l1 x l2 e Hnd Hch He) as (s & s' & h' & Hs & Hu & Hsb & Hch'); [rewrite Hk; apply bucket_lt|].
  unfold unlink_entry. rewrite He. cbn [mbind option_bind]. rewrite Hs. cbn [mbind option_bind]. rewrite Hu. cbn [mbind option_bind].
  set (c1 := set_buckets _ _ _). destruct (linked_out c1 l1 x l2 Hnd) as (c2 & Eo & Hl2 & Hsl & Ec2); [by eapply linked_chain|].
  rewrite Eo. cbn [mbind option_bind]. eexists. split; [reflexivity|]. rewrite Ec2. cbn [set_held set_ends set_heap heap newest oldest buckets n_buckets count held budget] in *. unfold c1. cbn [set_buckets set_heap buckets n_buckets count held budget].
  split; [|split; [|done]].
  - split; cbn [set_held set_ends set_buckets set_heap heap newest oldest buckets n_buckets count held]; [done|done|by exists k| | |].
    + eapply chains_links; [exact Hsl|done].
    + rewrite Hco. list_lia.
    + rewrite Hh, !weight_app. cbn [weight foldr]. rewrite Hb. fold (weight m l2). lia.
  - eapply same_files_trans; [apply same_files_chain; exact Hsb|apply same_files_links; exact Hsl].
Qed.

Lemma insert_shape c l m x e alloc : shape c l m -> x ∉ l -> heap c !! x = Some e -> bytes_of m x = f_bytes (what e) ->
  exists c', insert c x alloc = Some c' /\ shape c' (x :: l) m /\ same_files (heap c) (heap c') /\ budget c' = budget c.
Proof.
  intros Hsh Hx He Hb. unfold insert.
  assert (exists c1, (if n_buckets c <=? count c then grow c alloc else Some c) = Some c1 /\ shape c1 l m /\ same_but_chain (heap c) (heap c1) /\ budget c1 = budget c) as (c1 & -> & Hsh1 & Hsb1 & Hbu1).
  { case_test; [|exists c; split; [done|]; split; [done|]; split; [by intros ?|done]]. unfold grow. destruct alloc; cbn [negb]; [|exists c; split; [done|]; split; [done|]; split; [by intros ?|done]].
    destruct Hsh as [Hnd Hl (k & Hk) [Hlen Hch] Hco Hh]. rewrite Hk. replace (2 ^ k * 2) with (2 ^ S k) by (cbn; lia).
    destruct (grow_all_spec (S k) (2 ^ k) l (buckets c) 0 (heap c) (replicate (2 ^ S k) None) []) as (h' & b' & P' & Eg & Hch' & Hsb & HP).
    { intros i s Hi. rewrite Hk in Hch. exact (Hch i s Hi). } { intros y. split; [set_solver|]. intros (_ & i & Hi & _). lia. } { apply chains_empty. }
    rewrite Eg. cbn [mbind option_bind]. eexists. split; [reflexivity|]. cbn [set_buckets set_heap heap budget]. split; [|by split]. split; cbn [set_buckets set_heap heap newest oldest buckets n_buckets count held]; [done|by eapply linked_chain|by exists (S k)| |done|done].
    eapply chains_ext; [|exact Hch']. intros y. rewrite HP. split; [by intros [? _]|]. intros Hy. split; [done|]. destruct (linked_in _ _ _ _ _ Hl Hy) as [ey Hey].
    exists (slot_of (2 ^ k) (f_hash (what ey))). split; [rewrite Hlen, Hk; apply bucket_lt|by exists ey]. }
  cbn [mbind option_bind]. destruct (same_but_chain_at _ _ _ _ Hsb1 He) as (e1 & He1 & _ & _ & _ & _ & _ & Hw). rewrite He1. cbn [mbind option_bind].
  destruct Hsh1 as [Hnd Hl (k & Hk) Hch Hco Hh]. destruct (chains_front _ _ _ _ _ _ Hch Hx He1) as (s & Hs & Hch'); [rewrite Hk; apply bucket_lt|].
  rewrite Hs. cbn [mbind option_bind]. rewrite (poke_some _ _ _ _ He1). cbn [mbind option_bind]. set (c2 := set_buckets _ _ _).
  pose proof (same_but_chain_insert _ _ _ s He1) as Hsb2. destruct (linked_front c2 x (set_chain s e1) l) as (c3 & E3 & Hl3 & Hsl & Ec3); [cbn; by rewrite lookup_insert_eq|by apply NoDup_cons|by eapply linked_chain|].
  rewrite E3. cbn [mbind option_bind]. eexists. split; [reflexivity|]. rewrite Ec3. cbn [set_held set_ends set_heap heap newest oldest buckets n_buckets count held budget] in *. unfold c2. cbn [set_buckets set_heap buckets n_buckets count held budget].
  split; [|split; [|done]].
  - split; cbn [set_held set_ends set_buckets set_heap heap newest oldest buckets n_buckets count held]; [by apply NoDup_cons|done|by exists k| | |].
    + eapply chains_links; [exact Hsl|done].
    + rewrite Hco. list_lia.
    + rewrite Hh. cbn [weight foldr]. rewrite Hb, Hw. fold (weight m l). lia.
  - eapply same_files_trans; [apply same_files_chain, Hsb1|]. eapply same_files_trans; [apply same_files_chain, Hsb2|apply same_files_links; exact Hsl].
Qed.

Lemma poke_alter h x f : is_Some (h !! x) -> poke h x f = Some (alter f x h).
Proof. intros [e He]. rewrite (poke_some _ _ _ _ He). f_equal. apply map_eq. intros y. destruct (decide (x = y)) as [->|]; [by rewrite lookup_insert_eq, lookup_alter_eq, He|by rewrite lookup_insert_ne, lookup_alter_ne]. Qed.

Lemma bytes_forget m x y : y <> x -> bytes_of (forget x m) y = bytes_of m y.
Proof. intros Hy. unfold forget, bytes_of. destruct (m !! x) as [[f [|n]]|]; [by rewrite lookup_delete_ne|done|done]. Qed.

(** A new mark on an entry of the heap: links and files are what they were. *)
Lemma shape_alter c l m m' x f : shape c l m -> (forall e, chain (f e) = chain e /\ newer (f e) = newer e /\ older (f e) = older e /\ what (f e) = what e) ->
  (forall y, y ∈ l -> bytes_of m' y = bytes_of m y) -> shape (set_heap c (alter f x (heap c))) l m'.
Proof. intros Hs Hf Hm. eapply shape_agree; [by eapply agree_poke|done|done]. Qed.

(** Out of the heap when no reply reads from it, in [drop] and in [release]. *)
Lemma shape_free c l m x : shape c l m -> x ∉ l -> shape (set_heap c (delete x (heap c))) l (forget x m).
Proof. intros Hs Hx. eapply shape_agree; [by eapply agree_delete| |done]. intros y Hy. apply bytes_forget. by intros ->. Qed.

Lemma free_lru c a p x f : is_lru c a p -> x ∉ order a -> alive a !! x = Some (f, 0) ->
  entry_free (heap c) x = Some (delete x (heap c)) /\ is_lru (set_heap c (delete x (heap c))) {| order := order a; alive := forget x (alive a); cap := cap a |} p.
Proof.
  intros [Hsh Hal Hdr Hpe Hca] Hx Hf. pose proof (Hal x) as He. rewrite Hf in He. destruct (heap c !! x) as [e|] eqn:Hxe; [|done].
  split; [unfold entry_free; by rewrite Hxe|]. assert (Hfo : forget x (alive a) = delete x (alive a)) by (unfold forget; by rewrite Hf).
  split; cbn [order alive cap heap set_heap budget]; [by apply shape_free| | |done|done].
  - intros y. rewrite Hfo. destruct (decide (x = y)) as [->|]; [by rewrite !lookup_delete_eq|]. by rewrite !lookup_delete_ne.
  - intros y ey Hy. destruct (decide (x = y)) as [->|]; [by rewrite lookup_delete_eq in Hy|]. rewrite lookup_delete_ne in Hy by done. auto.
Qed.

(** The count of the replies that read from an entry. *)
Definition recount (g : nat -> nat) (x : nat) (m : gmap nat (file * nat)) : gmap nat (file * nat) := alter (fun '(f, n) => (f, g n)) x m.

Lemma recount_id x m : recount (fun n => n) x m = m.
Proof.
  apply map_eq. intros y. unfold recount. destruct (decide (x = y)) as [->|]; [|by rewrite lookup_alter_ne]. rewrite lookup_alter_eq. by destruct (m !! y) as [[]|].
Qed.

Lemma mark_lru c a p x f g : is_lru c a p -> is_Some (alive a !! x) ->
  (forall e, chain (f e) = chain e /\ newer (f e) = newer e /\ older (f e) = older e /\ what (f e) = what e /\ dropped (f e) = dropped e /\ refs (f e) = g (refs e)) ->
  poke (heap c) x f = Some (alter f x (heap c)) /\
  is_lru (set_heap c (alter f x (heap c))) {| order := order a; alive := recount g x (alive a); cap := cap a |} p.
Proof.
  intros [Hsh Hal Hdr Hpe Hca] Hx Hf. split; [apply poke_alter; rewrite <- Hal in Hx; by destruct (heap c !! x); [eauto|destruct Hx]|].
  split; cbn [order alive cap heap set_heap budget]; [| | |done|done].
  - eapply shape_alter; [done|intros e; destruct (Hf e) as (? & ? & ? & ? & _); done|]. intros y _. unfold bytes_of, recount.
    destruct (decide (x = y)) as [->|]; [rewrite lookup_alter_eq|by rewrite lookup_alter_ne]. by destruct (alive a !! y) as [[]|].
  - intros y. unfold recount. destruct (decide (x = y)) as [->|]; [|by rewrite !lookup_alter_ne]. rewrite !lookup_alter_eq, <- Hal. destruct (heap c !! y) as [e|]; [|done].
    cbn. unfold seen. destruct (Hf e) as (_ & _ & _ & -> & _ & ->). done.
  - intros y ey Hy. destruct (decide (x = y)) as [->|]; [|rewrite lookup_alter_ne in Hy by done; auto]. rewrite lookup_alter_eq in Hy. destruct (heap c !! y) as [e|] eqn:He; [|done].
    injection Hy as <-. destruct (Hf e) as (_ & _ & _ & _ & -> & _). auto.
Qed.

Lemma drop_lru c a p x : is_lru c a p -> x ∈ order a ->
  exists c', drop c x = Some c' /\ is_lru c' {| order := others x (order a); alive := forget x (alive a); cap := cap a |} p.
Proof.
  intros [Hsh Hal Hdr Hpe Hca] Hx. destruct (shape_in _ _ _ _ Hsh Hx) as [e He]. unfold drop.
  destruct (unlink_shape c _ _ x e Hsh Hx He (bytes_of_seen _ _ _ _ Hal He)) as (c1 & E & Hsh1 & Hsf & Hb). rewrite E. cbn [mbind option_bind].
  assert (Hal1 : forall y, seen <$> heap c1 !! y = alive a !! y) by (intros y; rewrite <- Hal; by apply same_files_seen).
  pose proof (Hal1 x) as Hax. rewrite <- Hal, He in Hax. destruct (heap c1 !! x) as [e1|] eqn:He1; [|done]. injection Hax as Hw Hr.
  assert (Hmx : alive a !! x = Some (what e, refs e)) by (rewrite <- Hal, He; done). assert (Hnx : x ∉ others x (order a)) by (intros [? _]%elem_of_others; done).
  rewrite poke_alter by eauto. cbn [mbind option_bind]. rewrite lookup_alter_eq, He1. cbn [fmap option_fmap option_map mbind option_bind refs set_dropped]. rewrite Hr.
  assert (Hmid : is_lru (set_heap c1 (alter set_dropped x (heap c1))) {| order := others x (order a); alive := alive a; cap := cap a |} p).
  { split; cbn [order alive cap heap set_heap budget]; [by eapply shape_alter| | |intros y Hy [_ Hyo]%elem_of_others; by apply (Hpe y)|congruence].
    - intros y. destruct (decide (x = y)) as [->|]; [rewrite lookup_alter_eq, He1, <- Hal1, He1; done|]. rewrite lookup_alter_ne by done. apply Hal1.
    - intros y ey Hy. destruct (decide (x = y)) as [->|].
      + rewrite lookup_alter_eq, He1 in Hy. injection Hy as <-. cbn [dropped set_dropped]. rewrite bool_decide_false; [done|]. intros [?|Hp]; [done|]. by apply (Hpe y).
      + rewrite lookup_alter_ne in Hy by done. destruct (same_files_at _ _ _ _ Hsf Hy) as (e0 & He0 & ->). rewrite (Hdr y e0 He0). f_equal. apply bool_decide_ext. rewrite elem_of_others. naive_solver. }
  destruct (refs e) as [|n] eqn:Hre.
  - rewrite Nat.eqb_refl. destruct (free_lru _ _ _ x _ Hmid Hnx Hmx) as [E2 Hend]. cbn [heap set_heap] in E2. rewrite E2. cbn [mbind option_bind]. eexists. split; [reflexivity|exact Hend].
  - rewrite (proj2 (Nat.eqb_neq (S n) 0)) by lia. cbn [mbind option_bind]. eexists. split; [reflexivity|].
    assert (forget x (alive a) = alive a) as -> by (unfold forget; by rewrite Hmx). exact Hmid.
Qed.

Lemma touch_lru c a x : is_lru c a None -> x ∈ order a ->
  exists c', touch c x = Some c' /\ is_lru c' {| order := x :: others x (order a); alive := alive a; cap := cap a |} None.
Proof.
  intros Hi Hx. pose proof Hi as [Hsh Hal Hdr Hpe Hca]. pose proof Hsh as [Hnd Hl (k & Hk) Hch Hco Hh]. unfold touch. case_test.
  - exists c. split; [done|]. destruct (order a) as [|y l] eqn:Eo; [set_solver|]. destruct Hl as (Hn & _). rewrite E in Hn. injection Hn as <-.
    apply NoDup_cons in Hnd as [Hnx _]. change (x :: l) with ([] ++ x :: l). rewrite others_mid by set_solver. cbn [app]. rewrite <- Eo. by destruct a.
  - destruct (shape_in _ _ _ _ Hsh Hx) as [e He]. apply list_elem_of_split in Hx as (l1 & l2 & Eo). rewrite Eo in *. destruct (NoDup_mid _ _ _ Hnd) as (Hx1 & Hx2 & _ & Hnd').
    rewrite others_mid by done. destruct (linked_out c l1 x l2 Hnd Hl) as (c1 & E1 & Hl1 & Hs1 & Ec1). rewrite E1. cbn [mbind option_bind].
    destruct (same_but_links_at _ _ _ _ Hs1 He) as (e1 & He1 & _). assert (Hnd2 : NoDup (x :: l1 ++ l2)) by (apply NoDup_cons; set_solver).
    destruct (linked_front c1 x e1 (l1 ++ l2) He1 Hnd2 Hl1) as (c2 & E2 & Hl2 & Hs2 & Ec2). exists c2. split; [done|].
    assert (Hs : same_but_links (heap c) (heap c2)) by (by eapply same_but_links_trans). assert (Hsf := same_files_links _ _ Hs).
    rewrite Ec2, Ec1. cbn [set_ends set_heap heap newest oldest buckets n_buckets count held budget].
    split; cbn [order alive cap heap set_heap set_ends budget]; [| | |done|done].
    + split; cbn [heap newest oldest buckets n_buckets count held set_heap set_ends]; [done|done|by exists k| | |].
      * eapply chains_ext; [|eapply chains_links; [exact Hs|exact Hch]]. intros y. set_solver.
      * rewrite Hco. list_lia.
      * rewrite Hh. cbn [weight foldr]. rewrite weight_app. fold (weight (alive a) (l1 ++ l2)). rewrite weight_app. cbn [weight foldr]. fold (weight (alive a) l2). lia.
    + intros y. rewrite <- Hal. by apply same_files_seen.
    + intros y ey Hy. destruct (same_files_at _ _ _ _ Hsf Hy) as (e0 & He0 & ->). rewrite (Hdr y e0 He0). f_equal. apply bool_decide_ext. set_solver.
Qed.

Lemma insert_lru c a x alloc : is_lru c a (Some x) -> is_Some (alive a !! x) ->
  exists c', insert c x alloc = Some c' /\ is_lru c' {| order := x :: order a; alive := alive a; cap := cap a |} None.
Proof.
  intros [Hsh Hal Hdr Hpe Hca] Hx. rewrite <- Hal in Hx. destruct (heap c !! x) as [e|] eqn:He; [|by destruct Hx].
  destruct (insert_shape c _ _ x e alloc Hsh (Hpe x eq_refl) He (bytes_of_seen _ _ _ _ Hal He)) as (c' & E & Hsh' & Hsf & Hb). exists c'. split; [done|].
  split; cbn [order alive cap]; [done| | |done|congruence].
  - intros y. rewrite <- Hal. by apply same_files_seen.
  - intros y ey Hy. destruct (same_files_at _ _ _ _ Hsf Hy) as (e0 & He0 & ->). rewrite (Hdr y e0 He0). f_equal. apply bool_decide_ext. rewrite elem_of_cons. naive_solver.
Qed.

Lemma weight_nonneg m l : (forall x, x ∈ l -> (0 <= bytes_of m x)%Z) -> (0 <= weight m l)%Z.
Proof. intros Hn. induction l as [|x l IH]; [done|]. cbn [weight foldr]. fold (weight m l). pose proof (Hn x ltac:(set_solver)). specialize (IH ltac:(intros; apply Hn; set_solver)). lia. Qed.

Lemma newest_within_all m l : forall room, (forall x, x ∈ l -> (0 <= bytes_of m x)%Z) -> (weight m l <= room)%Z -> newest_within m room l = l.
Proof.
  induction l as [|x l IH]; intros room Hn Hw; [done|]. cbn [weight foldr] in Hw. fold (weight m l) in Hw. pose proof (weight_nonneg m l ltac:(intros; apply Hn; set_solver)).
  cbn [newest_within]. rewrite (proj2 (Z.leb_le _ _)) by lia. f_equal. apply IH; [intros; apply Hn; set_solver|lia].
Qed.

Lemma newest_within_snoc m l x : forall room, (room < weight m (l ++ [x]))%Z -> newest_within m room (l ++ [x]) = newest_within m room l.
Proof.
  induction l as [|y l IH]; intros room Hw; cbn [app weight foldr newest_within] in *.
  - by rewrite (proj2 (Z.leb_gt _ _)) by lia.
  - fold (weight m (l ++ [x])) in Hw. case_test; [|done]. f_equal. apply IH. lia.
Qed.

Lemma newest_within_ext m m' l : (forall x, x ∈ l -> bytes_of m' x = bytes_of m x) -> forall room, newest_within m' room l = newest_within m room l.
Proof. induction l as [|x l IH]; intros Hx room; [done|]. cbn [newest_within]. rewrite Hx by set_solver. case_test; [|done]. f_equal. apply IH. intros y Hy. apply Hx. set_solver. Qed.

Lemma newest_within_prefix m l : forall room, exists l', l = newest_within m room l ++ l'.
Proof. induction l as [|x l IH]; intros room; [by exists []|]. cbn [newest_within]. case_test; [|by exists (x :: l)]. destruct (IH (room - bytes_of m x)%Z) as [l' Hl]. exists l'. cbn. by rewrite <- Hl. Qed.

Lemma newest_within_fits m l : forall room, (0 <= room)%Z -> (weight m (newest_within m room l) <= room)%Z.
Proof. induction l as [|x l IH]; intros room Hr; cbn [newest_within]; [done|]. case_test; [|done]. cbn [weight foldr]. fold (weight m (newest_within m (room - bytes_of m x) l)). specialize (IH (room - bytes_of m x)%Z ltac:(lia)). lia. Qed.

Lemma make_room_lru need p : forall l c a, order a = l -> is_lru c a p -> (forall x, x ∈ l -> (0 <= bytes_of (alive a) x)%Z) -> (need <= cap a)%Z ->
  let kept := newest_within (alive a) (cap a - need) l in
  exists c', make_room_loop (length l) c need = Some c' /\ is_lru c' {| order := kept; alive := foldr forget (alive a) (list.drop (length kept) l); cap := cap a |} p.
Proof.
  induction l as [|x l IH] using rev_ind; intros c a Eo Hi Hn Hc; cbn zeta.
  - exists c. cbn. pose proof Hi as [[_ (_ & Ho & _) _ _ _ _] _ _ _ _]. rewrite Eo in Ho. cbn in Ho. rewrite Ho. split; [done|]. by destruct a; cbn in Eo; subst.
  - pose proof Hi as [[Hnd (_ & Ho & _) _ _ _ Hh] _ _ Hpe Hca]. rewrite Eo in *. rewrite length_app. cbn [length]. rewrite Nat.add_1_r. cbn [make_room_loop]. rewrite Ho, last_snoc, Hh, Hca. case_test.
    + rewrite newest_within_all by (done || lia). exists c. split; [done|]. rewrite drop_ge by list_lia. cbn [foldr]. rewrite <- Eo. by destruct a.
    + destruct (NoDup_mid _ _ _ Hnd) as (Hxl & _). destruct (drop_lru c a p x Hi) as (c1 & E1 & Hi1); [rewrite Eo; set_solver|]. rewrite E1. cbn [mbind option_bind].
      rewrite Eo, others_mid, app_nil_r in Hi1 by (done || set_solver). assert (Hbx : forall y, y ∈ l -> bytes_of (forget x (alive a)) y = bytes_of (alive a) y) by (intros y Hy; apply bytes_forget; by intros ->).
      destruct (IH c1 {| order := l; alive := forget x (alive a); cap := cap a |} eq_refl Hi1) as (c' & E' & Hi'); [intros y Hy; cbn; rewrite Hbx by done; apply Hn; set_solver|done|]. exists c'. split; [done|]. cbn [alive cap] in Hi'.
      rewrite (newest_within_ext (alive a)) in Hi' by done. rewrite newest_within_snoc by lia. destruct (newest_within_prefix (alive a) l (cap a - need)) as [l' Hl'].
      rewrite drop_app_le by (rewrite Hl' at 2; list_lia). by rewrite foldr_app.
Qed.

Lemma foldr_forget l m x : x ∉ l -> foldr forget m l !! x = m !! x.
Proof.
  induction l as [|y l IH]; intros Hx; [done|]. cbn [foldr]. rewrite <- IH by set_solver. unfold forget.
  destruct (foldr _ m l !! y) as [[f [|n]]|]; [|done|done]. apply lookup_delete_ne. set_solver.
Qed.

Lemma keep_lru c a x f now alloc : is_lru c a None -> lru_ok a -> allowed a (Keep x f now alloc) ->
  exists c', keep c x f now alloc = Some c' /\ is_lru c' (effect a (Keep x f now alloc)) None.
Proof.
  intros Hi [Hw Hfi Hhe] (Hx & Hb & _). pose proof Hi as [Hsh Hal Hdr _ Hca]. unfold keep. cbn [effect]. set (m := <[x := (f, 0)]> (alive a)).
  assert (Hxo : x ∉ order a) by (intros Hxo; destruct (Hhe x Hxo); congruence). set (c1 := set_heap c _).
  assert (Hb' : forall y, y ∈ order a -> bytes_of m y = bytes_of (alive a) y) by (intros y Hy; unfold bytes_of, m; rewrite lookup_insert_ne; [done|by intros ->]).
  assert (Hi1 : is_lru c1 {| order := order a; alive := m; cap := cap a |} (Some x)).
  { split; cbn [order alive cap heap set_heap budget c1]; [eapply shape_agree; [by eapply agree_new|done|done]| | |intros ? [= <-]; done|done].
    - intros y. unfold m. destruct (decide (x = y)) as [->|]; [by rewrite !lookup_insert_eq|]. by rewrite !lookup_insert_ne.
    - intros y ey Hy. destruct (decide (x = y)) as [->|]; [rewrite lookup_insert_eq in Hy; injection Hy as <-; rewrite bool_decide_true; [done|by right]|].
      rewrite lookup_insert_ne in Hy by done. rewrite (Hdr y ey Hy). f_equal. apply bool_decide_ext. naive_solver. }
  rewrite <- Hca. change (budget c1) with (budget c). case_test.
  - unfold make_room. assert (count c1 = length (order a)) as -> by (destruct Hsh; done). rewrite Hca.
    destruct (make_room_lru (f_bytes f) (Some x) (order a) c1 {| order := order a; alive := m; cap := cap a |} eq_refl Hi1) as (c2 & E2 & Hi2); [|cbn; lia|].
    { intros y Hy. cbn [alive]. rewrite Hb' by done. unfold bytes_of. destruct (alive a !! y) as [[fy n]|] eqn:Ey; [|done]. by destruct (Hfi y fy n Ey). }
    cbn [order alive cap] in *. rewrite E2. cbn [mbind option_bind]. apply (insert_lru _ _ x alloc Hi2). cbn [alive]. rewrite foldr_forget; [unfold m; rewrite lookup_insert_eq; eauto|].
    intros Hd. apply Hxo. destruct (newest_within_prefix m (order a) (cap a - f_bytes f)) as [l' Hl']. rewrite Hl'. rewrite Hl' in Hd at 2. rewrite drop_app_length in Hd. set_solver.
  - pose proof Hi1 as [Hsh1 Hal1 Hdr1 Hpe1 _]. assert (Ehc : heap c1 = <[x := fresh_entry f now]> (heap c)) by done. rewrite Ehc in *. rewrite poke_alter by (rewrite lookup_insert_eq; eauto). cbn [mbind option_bind]. eexists. split; [reflexivity|].
    split; cbn [order alive cap heap set_heap budget]; [by rewrite <- Ehc in *; eapply (shape_alter c1)| | |done|done].
    + intros y. cbn [alive] in *. rewrite <- Hal1. destruct (decide (x = y)) as [->|]; [by rewrite lookup_alter_eq, lookup_insert_eq|by rewrite lookup_alter_ne].
    + intros y ey Hy. destruct (decide (x = y)) as [->|].
      * rewrite lookup_alter_eq, lookup_insert_eq in Hy. injection Hy as <-. cbn [dropped set_dropped]. rewrite bool_decide_false; [done|naive_solver].
      * rewrite lookup_alter_ne, lookup_insert_ne in Hy by done. apply Hdr; done.
Qed.

Lemma release_lru c a x f n : is_lru c a None -> alive a !! x = Some (f, S n) -> exists c', release c x = Some c' /\ is_lru c' (effect a (Release x)) None.
Proof.
  intros Hi Hx. unfold release. destruct (mark_lru c a None x (fun e => set_refs (refs e - 1) e) (fun n => n - 1) Hi) as [E Hi1]; [eauto|done|].
  rewrite E. cbn [mbind option_bind]. pose proof (il_alive _ _ _ Hi x) as Hax. rewrite Hx in Hax. destruct (heap c !! x) as [e|] eqn:He; [|done]. injection Hax as Hw Hr.
  rewrite lookup_alter_eq, He. cbn [fmap option_fmap option_map mbind option_bind refs dropped set_refs]. rewrite Hr. replace (S n - 1) with n by lia.
  assert (Hd : dropped e = negb (bool_decide (x ∈ order a))) by (rewrite (il_dropped _ _ _ Hi x e He); f_equal; apply bool_decide_ext; naive_solver). rewrite Hd.
  assert (Hm : recount (fun n => n - 1) x (alive a) !! x = Some (f, n)) by (unfold recount; rewrite lookup_alter_eq, Hx; cbn; do 2 f_equal; lia).
  cbn [effect]. fold (recount (fun n => n - 1) x (alive a)). destruct (bool_decide (x ∈ order a)) eqn:Eb; cbn [negb].
  - rewrite andb_false_r. cbn [mbind option_bind]. eexists. split; [reflexivity|exact Hi1].
  - rewrite andb_true_r. bool_to_prop. destruct n as [|n].
    + rewrite Nat.eqb_refl. destruct (free_lru _ _ _ x f Hi1 Eb Hm) as [E2 Hi2]. cbn [heap set_heap] in E2. rewrite E2. cbn [mbind option_bind]. eexists. split; [reflexivity|exact Hi2].
    + rewrite (proj2 (Nat.eqb_neq (S n) 0)) by lia. cbn [mbind option_bind]. eexists. split; [reflexivity|]. unfold forget. rewrite Hm. exact Hi1.
Qed.

Lemma hold_lru c a x : is_lru c a None -> is_Some (alive a !! x) -> exists c', hold c x = Some c' /\ is_lru c' (effect a (Hold x)) None.
Proof. intros Hi Hx. unfold hold. destruct (mark_lru c a None x (fun e => set_refs (S (refs e)) e) S Hi Hx) as [-> Hi1]; [done|]. cbn [mbind option_bind]. eauto. Qed.

Lemma do_op_lru c a o : is_lru c a None -> lru_ok a -> allowed a o -> exists c', do_op c o = Some c' /\ is_lru c' (effect a o) None.
Proof.
  intros Hi Hok Ha. destruct o as [x f now alloc|x|x now|x|x|x]; cbn [do_op].
  - by apply keep_lru.
  - by apply touch_lru.
  - destruct (mark_lru c a None x (set_checked now) (fun n => n) Hi) as [-> Hi1]; [by apply ok_here|done|]. cbn [mbind option_bind]. eexists. split; [reflexivity|].
    rewrite recount_id in Hi1. by destruct a.
  - by apply drop_lru.
  - by apply hold_lru.
  - destruct Ha as (f & n & Hx). by eapply release_lru.
Qed.

(** *** The specification's states stay within the budget *)

Lemma alive_forget m x y v : forget x m !! y = Some v -> m !! y = Some v.
Proof. unfold forget. destruct (m !! x) as [[f [|n]]|]; [|done|done]. intros [_ ?]%lookup_delete_Some. done. Qed.
Lemma alive_foldr l m y v : foldr forget m l !! y = Some v -> m !! y = Some v.
Proof. induction l as [|x l IH]; [done|]. intros Hy%alive_forget. auto. Qed.

Lemma recount_some g x m y f n : recount g x m !! y = Some (f, n) -> exists n0, m !! y = Some (f, n0).
Proof. unfold recount. destruct (decide (x = y)) as [->|]; [rewrite lookup_alter_eq|rewrite lookup_alter_ne by done; eauto]. destruct (m !! y) as [[f0 n0]|]; [|done]. intros [= -> _]. eauto. Qed.
Lemma recount_is_some g x m y : is_Some (m !! y) -> is_Some (recount g x m !! y).
Proof. unfold recount. destruct (decide (x = y)) as [->|]; [rewrite lookup_alter_eq|by rewrite lookup_alter_ne]. by intros [v ->]; eauto. Qed.
Lemma bytes_recount g x m y : bytes_of (recount g x m) y = bytes_of m y.
Proof. unfold bytes_of, recount. destruct (decide (x = y)) as [->|]; [rewrite lookup_alter_eq|by rewrite lookup_alter_ne]. by destruct (m !! y) as [[]|]. Qed.
Lemma forget_other x m y : y <> x -> forget x m !! y = m !! y.
Proof. unfold forget. destruct (m !! x) as [[f [|n]]|]; intros ?; [by apply lookup_delete_ne|done|done]. Qed.

Lemma weight_others m x l : (forall y, (0 <= bytes_of m y)%Z) -> (weight m (others x l) <= weight m l)%Z.
Proof.
  intros Hn. induction l as [|y l IH]; [done|]. cbn [weight foldr]. fold (weight m l). unfold others. rewrite filter_cons. pose proof (Hn y).
  case_decide; cbn [weight foldr]; fold (others x l) (weight m (others x l)); lia.
Qed.

Lemma weight_move m x l : NoDup l -> x ∈ l -> weight m (x :: others x l) = weight m l.
Proof. intros Hnd (l1 & l2 & ->)%list_elem_of_split. destruct (NoDup_mid _ _ _ Hnd) as (? & ? & _). rewrite others_mid by done. cbn [weight foldr]. fold (weight m (l1 ++ l2)). rewrite !weight_app. cbn [weight foldr]. fold (weight m l2). lia. Qed.

Lemma ok_bytes a x : lru_ok a -> (0 <= bytes_of (alive a) x)%Z.
Proof. intros [_ Hf _]. unfold bytes_of. destruct (alive a !! x) as [[f n]|] eqn:E; [|done]. by destruct (Hf x f n E). Qed.

Lemma effect_ok a o : lru_ok a -> NoDup (order a) -> allowed a o -> lru_ok (effect a o).
Proof.
  intros Hok Hnd Ha. pose proof (ok_bytes a) as Hby. pose proof Hok as [Hw Hf Hh]. destruct o as [x f now alloc|x|x now|x|x|x]; cbn [effect allowed] in *.
  - destruct Ha as (Hx & Hb & Hha). set (m := <[x := (f, 0)]> (alive a)).
    assert (Hfm : forall y fy n, m !! y = Some (fy, n) -> (0 <= f_bytes fy)%Z /\ f_hash fy = hash_of (f_name fy)).
    { intros y fy n. unfold m. destruct (decide (x = y)) as [->|]; [rewrite lookup_insert_eq; by intros [= -> _]|rewrite lookup_insert_ne by done; apply Hf]. }
    assert (Hxo : x ∉ order a) by (intros Hxo; destruct (Hh x Hxo); congruence).
    assert (Hmo : forall y, y ∈ order a -> m !! y = alive a !! y) by (intros y Hy; unfold m; rewrite lookup_insert_ne; [done|by intros ->]).
    case_test.
    + destruct (newest_within_prefix m (order a) (cap a - f_bytes f)) as [l' Hl']. set (k := newest_within _ _ _) in *. rewrite Hl', drop_app_length. rewrite Hl' in Hnd, Hxo.
      assert (Hin : forall y, y ∈ x :: k -> foldr forget m l' !! y = m !! y).
      { intros y Hy. apply foldr_forget. apply NoDup_app in Hnd as (_ & Hd & _). apply elem_of_cons in Hy as [-> | Hy]; [set_solver|auto]. }
      split; cbn [order alive cap].
      * rewrite (weight_ext m); [|intros y Hy; unfold bytes_of; by rewrite Hin]. cbn [weight foldr]. fold (weight m k).
        assert (bytes_of m x = f_bytes f) as -> by (unfold bytes_of, m; by rewrite lookup_insert_eq). pose proof (newest_within_fits m (order a) (cap a - f_bytes f) ltac:(lia)). fold k in H. lia.
      * intros y fy n Hy%alive_foldr. by eapply Hfm.
      * intros y Hy. rewrite Hin by done. unfold m. destruct (decide (x = y)) as [->|]; [rewrite lookup_insert_eq; eauto|]. rewrite lookup_insert_ne by done. apply Hh. rewrite Hl'. set_solver.
    + split; cbn [order alive cap]; [|done|].
      * rewrite (weight_ext (alive a)); [done|]. intros y Hy. unfold bytes_of. by rewrite Hmo.
      * intros y Hy. rewrite Hmo by done. auto.
  - split; cbn [order alive cap]; [by rewrite weight_move|done|]. intros y [-> | [_ Hy]%elem_of_others]%elem_of_cons; auto.
  - done.
  - split; cbn [order alive cap].
    + rewrite (weight_ext (alive a)); [pose proof (weight_others (alive a) x (order a) ltac:(auto)); lia|]. intros y [? _]%elem_of_others. by apply bytes_forget.
    + intros y fy n Hy%alive_forget. by eapply Hf.
    + intros y [? ?]%elem_of_others. rewrite forget_other by done. auto.
  - fold (recount S x (alive a)). split; cbn [order alive cap].
    + rewrite (weight_ext (alive a)); [done|]. intros y _. apply bytes_recount.
    + intros y fy n (n0 & Hy)%recount_some. by eapply Hf.
    + intros y Hy. apply recount_is_some. auto.
  - fold (recount (fun n => n - 1) x (alive a)). case_test; (split; cbn [order alive cap]).
    + rewrite (weight_ext (alive a)); [done|]. intros y _. apply bytes_recount.
    + intros y fy n (n0 & Hy)%recount_some. by eapply Hf.
    + intros y Hy. apply recount_is_some. auto.
    + rewrite (weight_ext (alive a)); [done|]. intros y Hy. rewrite bytes_forget by (by intros ->). apply bytes_recount.
    + intros y fy n (n0 & Hy)%alive_forget%recount_some. by eapply Hf.
    + intros y Hy. rewrite forget_other by (by intros ->). apply recount_is_some. auto.
Qed.

(** *** Lookup *)

Definition named (a : lru) (x : nat) (name : bytes) : Prop := exists f n, alive a !! x = Some (f, n) /\ f_name f = name.

Lemma lookup_loop_spec h name hash l : forall fuel s, chained h s l -> length l <= fuel ->
  exists r, lookup_loop fuel h s name hash = Some r /\
    match r with
    | Some x => x ∈ l /\ exists e, h !! x = Some e /\ f_name (what e) = name
    | None => forall x e, x ∈ l -> h !! x = Some e -> f_hash (what e) = hash -> f_name (what e) <> name
    end.
Proof.
  induction l as [|x l IH]; intros fuel s Hc Hf; cbn [chained] in Hc.
  - subst s. exists None. split; [by destruct fuel|]. set_solver.
  - destruct Hc as (-> & e & He & Hc). destruct fuel as [|fuel]; [cbn in Hf; lia|]. cbn [lookup_loop]. rewrite He. cbn [mbind option_bind]. case_test.
    + exists (Some x). split; [done|]. split; [set_solver|]. exists e. split; [done|]. by apply beq_true.
    + destruct (IH fuel (chain e) Hc ltac:(cbn in Hf; lia)) as (r & Er & Hr). exists r. split; [done|]. destruct r as [y|].
      * destruct Hr as [? ?]. split; [set_solver|done].
      * intros y ey [-> | Hy]%elem_of_cons Hey Hh; [|by eapply Hr]. assert (ey = e) as -> by congruence. rewrite Hh, Z.eqb_refl in E. cbn in E. by apply beq_false in E.
Qed.

Lemma lookup_lru c a name : is_lru c a None -> lru_ok a ->
  exists r, lookup c name (hash_of name) = Some r /\
    match r with Some x => x ∈ order a /\ named a x name | None => forall x, x ∈ order a -> ~ named a x name end.
Proof.
  intros [Hsh Hal _ _ _] [_ Hf _]. pose proof Hsh as [_ _ (k & Hk) [Hlen Hch] _ _]. unfold lookup.
  destruct (lookup_lt_is_Some_2 (buckets c) (slot_of (n_buckets c) (hash_of name))) as [s Hs]; [rewrite Hlen, Hk; apply bucket_lt|]. rewrite Hs. cbn [mbind option_bind].
  destruct (Hch _ s Hs) as (l & Hl & Hnd & Hin). destruct (lookup_loop_spec _ name (hash_of name) l (size (heap c)) s Hl ltac:(by eapply chained_size)) as (r & Er & Hr).
  exists r. split; [done|]. destruct r as [x|].
  - destruct Hr as (Hx & e & He & Hn). apply Hin in Hx as [Hx _]. split; [done|]. exists (what e), (refs e). by rewrite <- Hal, He.
  - intros x Hx (f & n & Hxf & Hn). rewrite <- Hal in Hxf. destruct (heap c !! x) as [e|] eqn:He; [|done]. injection Hxf as Hw Hrf. destruct (Hf x f n) as [_ Hha]; [rewrite <- Hal, He; cbn; unfold seen; congruence|].
    rewrite <- Hw in Hn, Hha. apply (Hr x e); [|done|congruence|done]. apply Hin. split; [done|]. exists e. split; [done|]. congruence.
Qed.

Lemma start_lru budget_ : is_lru (new_cache budget_) (start budget_) None.
Proof.
  split; cbn; [|intros x; by rewrite !lookup_empty|done|done|done]. split; cbn [start new_cache order alive heap newest oldest buckets n_buckets count held]; [apply NoDup_nil; exact I| |by exists 6|apply chains_empty|done|done].
  split; [done|]. split; [done|]. by intros [] ??.
Qed.

Lemma start_ok budget_ : (0 <= budget_)%Z -> lru_ok (start budget_).
Proof. intros Hb. split; cbn; [done|intros ???; by rewrite lookup_empty|set_solver]. Qed.

Lemma do_ops_cons c o l : do_ops c (o :: l) = c' ← do_op c o; do_ops c' l.
Proof. unfold do_ops. cbn. destruct (do_op c o) as [c'|]; [done|]. induction l; done. Qed.

Lemma do_ops_lru l : forall c a, is_lru c a None -> lru_ok a -> allowed_all a l ->
  exists c', do_ops c l = Some c' /\ is_lru c' (foldl effect a l) None /\ lru_ok (foldl effect a l).
Proof.
  induction l as [|o l IH]; intros c a Hi Hok Hal; [eauto|]. destruct Hal as [Ho Hal]. destruct (do_op_lru c a o Hi Hok Ho) as (c1 & E1 & Hi1).
  destruct (IH c1 (effect a o) Hi1) as (c' & E' & Hi' & Hok'); [apply effect_ok; [done|apply Hi|done]|done|]. exists c'. by rewrite do_ops_cons, E1.
Qed.

(** No operation changes a file: what is in memory afterwards was there, or is the one loaded. *)
Lemma effect_files a o x f n : alive (effect a o) !! x = Some (f, n) -> (exists n0, alive a !! x = Some (f, n0)) \/ exists now alloc, o = Keep x f now alloc.
Proof.
  destruct o as [y g now alloc|y|y now|y|y|y]; cbn [effect].
  - intros Hx. assert (Hin : <[y := (g, 0)]> (alive a) !! x = Some (f, n)) by (case_test; cbn [alive] in Hx; [by apply alive_foldr in Hx|done]).
    destruct (decide (y = x)) as [->|]; [rewrite lookup_insert_eq in Hin; injection Hin as <- <-; eauto|]. rewrite lookup_insert_ne in Hin by done. eauto.
  - eauto.
  - eauto.
  - cbn [alive]. intros Hx%alive_forget. eauto.
  - cbn [alive]. intros (n0 & Hx)%(recount_some S). eauto.
  - cbn [alive]. intros Hx. left. assert (Hr : recount (fun n => n - 1) y (alive a) !! x = Some (f, n)) by (unfold recount; destruct (bool_decide (y ∈ order a)); [done|by apply alive_forget in Hx]).
    by apply recount_some in Hr.
Qed.

(** A file loaded is in memory, whether or not the table has room for it. *)
Lemma kept_alive a x f now alloc : lru_ok a -> alive a !! x = None -> alive (effect a (Keep x f now alloc)) !! x = Some (f, 0).
Proof.
  intros Hok Hx. cbn [effect]. case_test; cbn [alive]; [|by rewrite lookup_insert_eq]. rewrite foldr_forget; [by rewrite lookup_insert_eq|].
  intros Hin. destruct (ok_here _ Hok x) as [? ?]; [|congruence]. set (k := length _) in Hin. rewrite <- (take_drop k (order a)). apply elem_of_app. by right.
Qed.

(** What nothing reads from is in the table, but for a file larger than the whole budget. *)
Definition reclaimed (a : lru) : Prop := forall x f, alive a !! x = Some (f, 0) -> x ∈ order a \/ (cap a < f_bytes f)%Z.

Lemma forget_unread x m f : forget x m !! x <> Some (f, 0).
Proof. unfold forget. destruct (m !! x) as [[g [|n]]|] eqn:E; [by rewrite lookup_delete_eq|congruence|congruence]. Qed.

Lemma foldr_unread m l y f : foldr forget m l !! y = Some (f, 0) -> y ∉ l.
Proof.
  induction l as [|x l IH]; cbn [foldr]; intros Hy; [set_solver|]. apply not_elem_of_cons. destruct (decide (y = x)) as [->|Hyx]; [by apply forget_unread in Hy|].
  split; [done|]. apply IH. by rewrite forget_other in Hy.
Qed.

Lemma effect_reclaimed a o : reclaimed a -> reclaimed (effect a o).
Proof.
  intros Hr y fy. destruct o as [x g now alloc|x|x now|x|x|x]; cbn [effect].
  - assert (Hm : forall n, <[x := (g, 0)]> (alive a) !! y = Some (fy, n) -> y = x /\ fy = g \/ alive a !! y = Some (fy, n)).
    { intros n. destruct (decide (x = y)) as [->|]; [rewrite lookup_insert_eq; intros [= -> _]; by left|rewrite lookup_insert_ne by done; by right]. }
    case_test; cbn [alive order cap].
    + intros Hy. pose proof (foldr_unread _ _ _ _ Hy) as Hn. apply alive_foldr, Hm in Hy as [[-> ->]|Hy]; [left; set_solver|]. destruct (Hr y fy Hy) as [Ho|]; [|by right]. left.
      destruct (newest_within_prefix (<[x := (g, 0)]> (alive a)) (order a) (cap a - f_bytes g)) as [l' Hl']. set (k := newest_within _ _ _) in *. rewrite Hl', drop_app_length in Hn. rewrite Hl' in Ho. set_solver.
    + intros [[-> ->]|Hy]%Hm; [right; lia|auto].
  - cbn [alive order cap]. intros Hy. destruct (Hr y fy Hy); [left|by right]. destruct (decide (y = x)) as [->|]; [set_solver|]. apply elem_of_cons. right. by apply elem_of_others.
  - auto.
  - cbn [alive order cap]. intros Hy. assert (Hyx : y <> x) by (intros ->; by apply forget_unread in Hy). rewrite forget_other in Hy by done. destruct (Hr y fy Hy); [left; by apply elem_of_others|by right].
  - cbn [alive order cap]. intros Hy. apply (Hr y fy). destruct (decide (x = y)) as [->|]; [rewrite lookup_alter_eq in Hy; by destruct (alive a !! y) as [[]|]|by rewrite lookup_alter_ne in Hy].
  - cbn [alive order cap]. case_test; intros Hy.
    + destruct (decide (x = y)) as [->|]; [by left|]. rewrite lookup_alter_ne in Hy by done. auto.
    + assert (Hyx : y <> x) by (intros ->; by apply forget_unread in Hy). rewrite forget_other, lookup_alter_ne in Hy by done. auto.
Qed.

Lemma cap_effect a o : cap (effect a o) = cap a.
Proof. destruct o; cbn; try done. by case_test. Qed.

(** C18. Whatever sequence of loads, touches, drops, holds and releases a worker goes through from a new
    table, the code's pointer structure is the least-recently-served table of the specification: no
    operation reaches an entry that was freed; what is in memory is in the table or read by a reply, but for
    files larger than the whole budget; the entries of the table weigh what the code counted and no more than
    the budget; and a lookup finds an entry of the table with that name exactly when there is one. *)
Theorem table_is_lru budget_ ops : (0 <= budget_)%Z -> allowed_all (start budget_) ops ->
  exists c, do_ops (new_cache budget_) ops = Some c /\
    let a := foldl effect (start budget_) ops in
    (forall x, seen <$> heap c !! x = alive a !! x) /\ count c = length (order a) /\ held c = weight (alive a) (order a) /\ (held c <= budget_)%Z /\
    newest c = head (order a) /\ oldest c = last (order a) /\ reclaimed a /\
    forall name, exists r, lookup c name (hash_of name) = Some r /\
      match r with Some x => x ∈ order a /\ named a x name | None => forall x, x ∈ order a -> ~ named a x name end.
Proof.
  intros Hb Hal. destruct (do_ops_lru ops _ _ (start_lru budget_) (start_ok _ Hb) Hal) as (c & E & Hi & Hok). exists c. split; [done|]. cbn zeta.
  pose proof Hi as [[_ (Hn & Ho & _) _ _ Hco Hh] Hal' _ _ Hca]. split; [done|]. split; [done|]. split; [done|]. split; [|split; [done|split; [done|split]]].
  - rewrite Hh. destruct Hok as [Hw _ _]. enough (cap (foldl effect (start budget_) ops) = budget_) by lia.
    clear. change budget_ with (cap (start budget_)) at 2. generalize (start budget_). induction ops as [|o l IH]; intros a; [done|]. cbn [foldl]. by rewrite IH, cap_effect.
  - assert (Hs : reclaimed (start budget_)) by (intros x f; cbn; by rewrite lookup_empty). clear -Hs. revert Hs. generalize (start budget_).
    induction ops as [|o l IH]; intros a Ha; [done|]. cbn [foldl]. by apply IH, effect_reclaimed.
  - intros name. by apply lookup_lru.
Qed.

Definition a_file (name : bytes) (size : Z) : file :=
  {| f_name := name; f_hash := hash_of name; f_dev := 1; f_ino := 2; f_size := size; f_mtime := (0, 0)%Z; f_type := []; f_v := []; f_bytes := size; f_etag := []; f_modified := [] |}.
Definition busy_day : list op :=
  [Keep 0 (a_file (lit "a") 40) 0 true; Keep 1 (a_file (lit "b") 40) 0 true; Hold 0; Touch 0; Keep 2 (a_file (lit "c") 50) 0 true;
   Keep 3 (a_file (lit "d") 90) 0 true; Release 0; Mark 3 7; Drop 3].

Lemma table_is_lru_witness : (0 <= 100)%Z /\ allowed_all (start 100) busy_day /\ exists c, do_ops (new_cache 100) busy_day = Some c /\ (held c <= 100)%Z.
Proof.
  assert (allowed_all (start 100) busy_day) as Hal.
  { cbn [allowed_all busy_day]. split; [by split; [|split]|]. split; [by split; [|split]|]. split; [by eexists|]. split; [cbn [allowed]; apply (bool_decide_unpack _); vm_compute; exact I|].
    split; [by split; [|split]|]. split; [by split; [|split]|]. split; [by do 2 eexists|]. split; [cbn [allowed]; apply (bool_decide_unpack _); vm_compute; exact I|].
    split; [cbn [allowed]; apply (bool_decide_unpack _); vm_compute; exact I|exact I]. }
  split; [done|]. split; [done|]. destruct (table_is_lru 100 busy_day ltac:(done) Hal) as (c & E & _ & _ & _ & Hh & _). exists c. by split.
Defined.

(** *** A file larger than the whole budget

    Out of the table from the start and read by no reply: only the release of a hold frees it, so a reply
    that ends before it holds the entry (a HEAD request, a 304, a 416) leaves it in memory for good. *)
Lemma over_budget_stays a x f l : allowed_all a l -> (forall o, o ∈ l -> o <> Hold x) -> x ∉ order a -> alive a !! x = Some (f, 0) ->
  alive (foldl effect a l) !! x = Some (f, 0).
Proof.
  revert a. induction l as [|o l IH]; intros a Hal Hno Hx Hf; [done|]. destruct Hal as [Ho Hal]. cbn [foldl].
  assert (x ∉ order (effect a o) /\ alive (effect a o) !! x = Some (f, 0)) as [? ?]; [|apply IH; [done|set_solver|done|done]].
  specialize (Hno o ltac:(set_solver)). destruct o as [y g now alloc|y|y now|y|y|y]; cbn [effect allowed] in *.
  - destruct Ho as (Hy & _). assert (y <> x) by (intros ->; congruence). case_test; cbn [order alive]; [|by rewrite lookup_insert_ne].
    destruct (newest_within_prefix (<[y := (g, 0)]> (alive a)) (order a) (cap a - f_bytes g)) as [l' Hl']. set (k := newest_within _ _ _) in *. rewrite Hl', drop_app_length.
    rewrite Hl' in Hx. split; [set_solver|]. rewrite foldr_forget by set_solver. by rewrite lookup_insert_ne.
  - split; [|done]. cbn [order]. rewrite elem_of_cons, elem_of_others. naive_solver.
  - done.
  - cbn [order alive]. rewrite elem_of_others, forget_other by (by intros ->). naive_solver.
  - split; [done|]. cbn [alive]. by rewrite lookup_alter_ne by congruence.
  - destruct Ho as (g & n & Hy). assert (y <> x) by (intros ->; congruence). split; [done|]. cbn [alive]. case_test; [|rewrite forget_other by done]; by rewrite lookup_alter_ne.
Qed.
