(* ===== verification/Accept.v ===== *)
(** What a request's headers say: lookup by name, decimal numbers and the Accept-Encoding of lib/http/api.c.
    Doubles and [strtod_l] are the C library's: a parameter, with what the code asks of them. *)
From S2P Require Import Prelude Find Slices Headers.

#[local] Arguments lit : simpl never.
#[local] Arguments Nat.ltb : simpl never.
#[local] Arguments Nat.leb : simpl never.

(** [strtod] gives the value, the characters it read, and whether it overflowed to an infinity; [c_locale] is
    whether [newlocale] gave one. *)
Class Doubles := {
  dbl : Type; dzero : dbl; done_ : dbl;
  dgt : dbl -> dbl -> bool; dge : dbl -> dbl -> bool;
  strtod : bytes -> dbl * nat * bool;
  c_locale : bool
}.

(** ** Lookup *)

(** The first pair of that key; a header line's null name has no bytes. *)
Fixpoint lookup (pairs : list header) (name : bytes) : option bytes :=
  match pairs with
  | [] => None
  | (k, v) :: pairs => if beq (match k with Some k => k | None => [] end) name then Some v else lookup pairs name
  end.
Definition ioxd_req_header (r : ioxd_request) (name : bytes) : option bytes := lookup (headers r) name.

Section Accept.
Context `{Doubles}.

(** ** Decimal numbers *)

(** The characters a number may have; [prev] is the one before. *)
Fixpoint decimal_chars (prev : option Z) (s : bytes) : bool :=
  match s with
  | [] => true
  | c :: s' =>
      let after_e := match prev with Some p => (p =? ch "e")%Z || (p =? ch "E")%Z | None => false end in
      let sign := ((c =? ch "-")%Z && match prev with None => true | Some _ => false end) || (((c =? ch "-")%Z || (c =? ch "+")%Z) && after_e) in
      if negb ((ch "0" <=? c)%Z && (c <=? ch "9")%Z) && negb (c =? ch ".")%Z && negb (c =? ch "e")%Z && negb (c =? ch "E")%Z && negb sign then false
      else decimal_chars (Some c) s'
  end.

Definition ioxd_to_double (s : bytes) : option dbl :=
  if (length s =? 0) || (128 <=? length s) then None
  else if negb (decimal_chars None s) then None
  else if negb c_locale then None
  else let '(v, used, over) := strtod s in if negb (used =? length s) || over then None else Some v.

(** ** Accept-Encoding *)

(** Each round takes at least a byte of the list. *)
Fixpoint qvalue_loop (fuel : nat) (params : bytes) : dbl :=
  match fuel with
  | 0 => done_
  | S fuel =>
      match ioxd_slice_next params (ch ";") with
      | None => done_
      | Some (param, params) =>
          let '(cut, key, value) := ioxd_slice_cut param (ch "=") in
          if cut && ioxd_slice_eq_ci (ioxd_slice_trim key) (lit "q") then
            match ioxd_to_double (ioxd_slice_trim value) with Some q => q | None => dzero end
          else qvalue_loop fuel params
      end
  end.
Definition qvalue (params : bytes) : dbl := qvalue_loop (S (length params)) params.

Fixpoint accepts_loop (fuel : nat) (accept coding : bytes) (any : dbl) : dbl :=
  match fuel with
  | 0 => any
  | S fuel =>
      match ioxd_slice_next accept (ch ",") with
      | None => any
      | Some (item, accept) =>
          let '(_, name, params) := ioxd_slice_cut item (ch ";") in
          let name := ioxd_slice_trim name in
          if ioxd_slice_eq_ci name coding then qvalue params
          else accepts_loop fuel accept coding (if ioxd_slice_eq name (lit "*") then qvalue params else any)
      end
  end.
Definition ioxd_accepts_encoding (r : ioxd_request) (coding : bytes) : dbl :=
  match ioxd_req_header r (lit "accept-encoding") with
  | None => dzero
  | Some accept => accepts_loop (S (length accept)) accept coding dzero
  end.

(** ** Item by item *)

Definition item_name (item : bytes) : bytes := let '(_, name, _) := ioxd_slice_cut item (ch ";") in ioxd_slice_trim name.
Definition item_q (item : bytes) : dbl := let '(_, _, params) := ioxd_slice_cut item (ch ";") in qvalue params.

(** The specification: the first item of that coding, any case, else the last star, else no. *)
Definition accepted (items : list bytes) (coding : bytes) : dbl :=
  match List.find (fun i => ioxd_slice_eq_ci (item_name i) coding) items with
  | Some i => item_q i
  | None => match List.find (fun i => ioxd_slice_eq (item_name i) (lit "*")) (rev items) with Some i => item_q i | None => dzero end
  end.

Lemma find_app {A} (f : A -> bool) l1 l2 : List.find f (l1 ++ l2) = match List.find f l1 with Some x => Some x | None => List.find f l2 end.
Proof. induction l1 as [|x l1 IH]; [done|]. cbn. by destruct (f x). Qed.

Lemma accepts_loop_items fuel : forall l coding any, length l < fuel -> accepts_loop fuel l coding any =
  match List.find (fun i => ioxd_slice_eq_ci (item_name i) coding) (list_items l (ch ",")) with
  | Some i => item_q i
  | None => match List.find (fun i => ioxd_slice_eq (item_name i) (lit "*")) (rev (list_items l (ch ","))) with Some i => item_q i | None => any end
  end.
Proof.
  induction fuel as [|fuel IH]; intros l coding any Hl; [lia|]. cbn [accepts_loop]. pose proof (slice_next_loop_spec (length l) l (ch ",") ltac:(lia)) as Hn.
  unfold ioxd_slice_next. destruct (slice_next_loop (length l) l (ch ",")) as [[item rest]|]; [|by rewrite Hn]. destruct Hn as (_ & Hlt & ->). cbn [List.find rev].
  assert (Hrest : (if (length rest =? 0)%nat then [] else list_items rest (ch ",")) = list_items rest (ch ",")) by (destruct rest; reflexivity).
  rewrite Hrest. destruct (ioxd_slice_cut item (ch ";")) as [[b name] params] eqn:Ec.
  assert (En : item_name item = ioxd_slice_trim name) by (unfold item_name; by rewrite Ec). assert (Eq : item_q item = qvalue params) by (unfold item_q; by rewrite Ec).
  rewrite En. case_test; [by rewrite Eq|].
  rewrite IH by lia. destruct (List.find _ (list_items rest (ch ","))) as [i|]; [done|]. rewrite find_app. destruct (List.find _ (rev (list_items rest (ch ",")))) as [i|]; [done|].
  cbn [List.find]. rewrite En. case_test; [by rewrite Eq|done].
Qed.

(** The coding's own item answers for it wherever it is listed, a star only when it is not, and of several
    stars the last. *)
Lemma accepts_encoding_items r coding : ioxd_accepts_encoding r coding =
  match ioxd_req_header r (lit "accept-encoding") with None => dzero | Some accept => accepted (list_items accept (ch ",")) coding end.
Proof. unfold ioxd_accepts_encoding, accepted. destruct (ioxd_req_header r _) as [accept|]; [|done]. apply accepts_loop_items. lia. Qed.
End Accept.

(** Whole numbers for doubles, to run examples on. *)
Definition int_doubles : Doubles :=
  {| dbl := Z; dzero := 0%Z; done_ := 1%Z; dgt := Z.gtb; dge := Z.geb; strtod := fun s => (0%Z, length s, false); c_locale := true |}.
