(* ===== verification/Compress.v ===== *)
(** The compression middleware (lib/http/compress.c): the decision on a reply's head, the pools of coders,
    and the bump arena that serves a brotli encoder's memory. The encoders are brotli and zlib: a class,
    [Encoders], whose calls ask for memory and give it back through the coder ([mem]). *)
From S2P Require Import Prelude Slices Accept Writer Headers Response Context Reply Coding.

#[local] Arguments Nat.ltb : simpl never.
#[local] Arguments Nat.leb : simpl never.
#[local] Arguments lit : simpl never.

Definition ARENA_FIRST : Z := 1024 * 1024.
Definition ALIGN : Z := 16.

Inductive kind := KIND_BR | KIND_GZIP.

(** ** The encoders

    A brotli call is a run that may ask for memory (address 0 is none) and give it back. *)
Inductive mem (A : Type) :=
| MRet (a : A)
| MAlloc (size : Z) (k : Z -> mem A)
| MFree (address : Z) (k : mem A).
Arguments MRet {_}.
Arguments MAlloc {_}.
Arguments MFree {_}.

Inductive br_op := BROTLI_OPERATION_PROCESS | BROTLI_OPERATION_FLUSH | BROTLI_OPERATION_FINISH.
Inductive z_flush := Z_NO_FLUSH | Z_SYNC_FLUSH | Z_FINISH.
Definition Z_STREAM_END : Z := 1.
Definition Z_STREAM_ERROR : Z := -2.

(** [br_stream] and [z_deflate] give the input left and the output; [malloc] an address for a size, given the
blocks that are live, or 0. *)
Class Encoders := {
  BrState : Type; ZState : Type;
  br_create : mem (option BrState);
  br_params : BrState -> Z -> Z -> Z -> BrState;
  br_stream : BrState -> br_op -> bytes -> nat -> mem (bool * nat * bytes * BrState);
  br_more : BrState -> bool; br_finished : BrState -> bool;
  br_destroy : BrState -> mem unit;
  z_init : Z -> option ZState;
  z_reset : ZState -> ZState;
  z_deflate : ZState -> bytes -> nat -> z_flush -> Z * nat * bytes * ZState;
  malloc : list (Z * Z) -> Z -> Z
}.

(** What is built in, and the configuration. *)
Record build := { IOXD_BROTLI : bool; IOXD_ZLIB : bool }.
Record ioxd_compress_config := { brotli_quality : Z; brotli_window : Z; gzip_level : Z; min_bytes : Z }.
Definition g_cfg : ioxd_compress_config := {| brotli_quality := 1; brotli_window := 22; gzip_level := 1; min_bytes := 256 |}.

Definition ioxd_compress_configure (cfg config : ioxd_compress_config) : Z * ioxd_compress_config :=
  let or_ (v d : Z) := if (v =? 0)%Z then d else v in
  let new := {| brotli_quality := or_ (brotli_quality config) (brotli_quality cfg); brotli_window := or_ (brotli_window config) (brotli_window cfg);
                gzip_level := or_ (gzip_level config) (gzip_level cfg); min_bytes := or_ (min_bytes config) (min_bytes cfg) |} in
  if ((brotli_quality new <? 0) || (11 <? brotli_quality new))%Z then (-1, cfg)%Z
  else if ((brotli_window new <? 10) || (24 <? brotli_window new))%Z then (-1, cfg)%Z
  else if ((gzip_level new <? 1) || (9 <? gzip_level new))%Z then (-1, cfg)%Z
  else (0%Z, new).

Definition ioxd_compress_codings (b : build) : bytes :=
  if IOXD_BROTLI b && IOXD_ZLIB b then lit "br, gzip"
  else if IOXD_BROTLI b then lit "br" else if IOXD_ZLIB b then lit "gzip" else [].

(** ** Coders *)

Section Coders.
Context `{Encoders}.

(** [struct coder]; [held] are the blocks of the heap it holds besides the arena. *)
Record coder := {
  knd : kind;
  br : option BrState; arena : Z; arena_cap : Z; arena_used : Z; arena_peak : Z; held : list (Z * Z);
  zs : option ZState
}.

Definition set_br (c : coder) (st : option BrState) : coder :=
  {| knd := knd c; br := st; arena := arena c; arena_cap := arena_cap c; arena_used := arena_used c; arena_peak := arena_peak c; held := held c; zs := zs c |}.
Definition set_zs (c : coder) (st : ZState) : coder :=
  {| knd := knd c; br := br c; arena := arena c; arena_cap := arena_cap c; arena_used := arena_used c; arena_peak := arena_peak c; held := held c; zs := Some st |}.
Definition set_arena (c : coder) (a cap used peak : Z) (h : list (Z * Z)) : coder :=
  {| knd := knd c; br := br c; arena := a; arena_cap := cap; arena_used := used; arena_peak := peak; held := h; zs := zs c |}.

(** The blocks of the heap a coder holds. *)
Definition live (c : coder) : list (Z * Z) := (if (arena c =? 0)%Z then [] else [(arena c, arena_cap c)]) ++ held c.

(** *** The arena *)

Definition arena_alloc (c : coder) (size : Z) : Z * coder :=
  let need := Z.land (wrap64 (size + (ALIGN - 1))) (Z.lxor (ALIGN - 1) UINT64_MAX) in
  let c := set_arena c (arena c) (arena_cap c) (arena_used c) (wrap64 (arena_peak c + need)) (held c) in
  if negb (arena c =? 0)%Z && (wrap64 (arena_used c + need) <=? arena_cap c)%Z
  then ((arena c + arena_used c)%Z, set_arena c (arena c) (arena_cap c) (wrap64 (arena_used c + need)) (arena_peak c) (held c))
  else
    let at_ := malloc (live c) size in
    (at_, if (at_ =? 0)%Z then c else set_arena c (arena c) (arena_cap c) (arena_used c) (arena_peak c) ((at_, size) :: held c)).

(** [free] of what is not the start of a block the coder holds is [None]. *)
Fixpoint take_out (a : Z) (l : list (Z * Z)) : option (list (Z * Z)) :=
  match l with
  | [] => None
  | b :: l => if (b.1 =? a)%Z then Some l else match take_out a l with Some l => Some (b :: l) | None => None end
  end.

Definition arena_free (c : coder) (address : Z) : option coder :=
  if (address =? 0)%Z || (negb (arena c =? 0)%Z && (arena c <=? address)%Z && (address <? arena c + arena_cap c)%Z) then Some c
  else match take_out address (held c) with
       | Some h => Some (set_arena c (arena c) (arena_cap c) (arena_used c) (arena_peak c) h)
       | None => None
       end.

(** An encoder's run over its coder. *)
Fixpoint run_mem {A} (m : mem A) (c : coder) : option (A * coder) :=
  match m with
  | MRet a => Some (a, c)
  | MAlloc size k => let '(at_, c) := arena_alloc c size in run_mem (k at_) c
  | MFree a k => match arena_free c a with Some c => run_mem k c | None => None end
  end.

Definition br_make (cfg : ioxd_compress_config) (c : coder) (hint : Z) : option (bool * coder) :=
  let c := if (arena c =? 0)%Z then set_arena c (malloc (live c) ARENA_FIRST) ARENA_FIRST (arena_used c) (arena_peak c) (held c) else c in
  let c := set_arena c (arena c) (arena_cap c) 0 0 (held c) in
  match run_mem br_create c with
  | None => None
  | Some (None, c) => Some (false, set_br c None)
  | Some (Some st, c) =>
      Some (true, set_br c (Some (br_params st (wrap32 (brotli_quality cfg)) (wrap32 (brotli_window cfg)) (if (UINT32_MAX <? hint)%Z then UINT32_MAX else hint))))
  end.

Definition br_done (c : coder) : option coder :=
  match (match br c with Some st => run_mem (br_destroy st) c | None => Some (tt, c) end) with
  | None => None
  | Some (_, c) =>
      let c := set_br c None in
      let c :=
        if (arena_cap c <? arena_peak c)%Z then
          let cap := wrap64 (arena_peak c + arena_peak c / 4) in
          let more := malloc (held c) cap in
          if (more =? 0)%Z then c else set_arena c more cap (arena_used c) (arena_peak c) (held c)
        else c in
      Some (set_arena c (arena c) (arena_cap c) 0 (arena_peak c) (held c))
  end.

(** *** The pools of a thread

    [grants] says, of each [calloc] to come, whether it gives memory. *)
Record thread := { tl_free : kind -> list coder; grants : list bool }.

Definition set_free (t : thread) (k : kind) (l : list coder) : thread :=
  {| tl_free := fun k' => match k, k' with KIND_BR, KIND_BR | KIND_GZIP, KIND_GZIP => l | _, _ => tl_free t k' end; grants := grants t |}.
Definition calloc (t : thread) : bool * thread :=
  match grants t with [] => (false, t) | g :: gs => (g, {| tl_free := tl_free t; grants := gs |}) end.

Definition zeroed (k : kind) : coder :=
  {| knd := k; br := None; arena := 0; arena_cap := 0; arena_used := 0; arena_peak := 0; held := []; zs := None |}.

Definition coder_take (b : build) (cfg : ioxd_compress_config) (k : kind) (hint : Z) (t : thread) : option (option coder * thread) :=
  let '(c, t) :=
    match tl_free t k with
    | c :: rest => (Some c, set_free t k rest)
    | [] =>
        match calloc t with
        | (false, t) => (None, t)
        | (true, t) =>
            match k with
            | KIND_GZIP => if IOXD_ZLIB b then match z_init (gzip_level cfg) with Some st => (Some (set_zs (zeroed k) st), t) | None => (None, t) end
                           else (Some (zeroed k), t)
            | KIND_BR => (Some (zeroed k), t)
            end
        end
    end in
  match c with
  | None => Some (None, t)
  | Some c =>
      match k with
      | KIND_BR =>
          if IOXD_BROTLI b then
            match br_make cfg c hint with
            | None => None
            | Some (true, c) => Some (Some c, t)
            | Some (false, c) => Some (None, set_free t KIND_BR (c :: tl_free t KIND_BR))
            end
          else Some (Some c, t)
      | KIND_GZIP => Some (Some (if IOXD_ZLIB b then match zs c with Some st => set_zs c (z_reset st) | None => c end else c), t)
      end
  end.

Definition coder_give (b : build) (c : coder) (t : thread) : option thread :=
  match (match knd c with KIND_BR => if IOXD_BROTLI b then br_done c else Some c | KIND_GZIP => Some c end) with
  | None => None
  | Some c => Some (set_free t (knd c) (c :: tl_free t (knd c)))
  end.

(** *** Running them

    As a filter: the result, the input taken, the output and the coder; [None] is a free of what is not held. *)
Definition br_run (c : coder) (in_ : bytes) (room : nat) (op : ioxd_filter_op) : option (Z * nat * bytes * coder) :=
  match br c with
  | None => None
  | Some st =>
      let bop := match op with IOXD_FILTER_FINISH => BROTLI_OPERATION_FINISH | IOXD_FILTER_FLUSH => BROTLI_OPERATION_FLUSH | IOXD_FILTER_MORE => BROTLI_OPERATION_PROCESS end in
      match run_mem (br_stream st bop in_ room) c with
      | None => None
      | Some ((ok, avail_in, out, st), c) =>
          let c := set_br c (Some st) in
          if negb ok then Some (-1, length in_, out, c)%Z
          else
            let n := length in_ - avail_in in
            if br_more st then Some (1%Z, n, out, c)
            else if match op with IOXD_FILTER_FINISH => negb (br_finished st) | _ => false end then Some (1%Z, n, out, c)
            else Some (0%Z, n, out, c)
      end
  end.

(** The lengths go through a [uInt]; what [deflate] was not told of stays unwritten. *)
Definition uInt (n : nat) : nat := Z.to_nat (wrap32 (Z.of_nat n)).

Definition gzip_run (c : coder) (in_ : bytes) (room : nat) (op : ioxd_filter_op) : option (Z * nat * bytes * coder) :=
  match zs c with
  | None => None
  | Some st =>
      let flush := match op with IOXD_FILTER_FINISH => Z_FINISH | IOXD_FILTER_FLUSH => Z_SYNC_FLUSH | IOXD_FILTER_MORE => Z_NO_FLUSH end in
      let '(rc, avail_in, out, st) := z_deflate st (take (uInt (length in_)) in_) (uInt room) flush in
      let c := set_zs c st in
      if (rc =? Z_STREAM_ERROR)%Z then Some (-1, length in_, out, c)%Z
      else
        let avail_out := uInt room - length out in
        let n := length in_ - avail_in in
        let out := out ++ replicate (room - avail_out - length out) 0%Z in
        if (rc =? Z_STREAM_END)%Z then Some (0%Z, n, out, c)
        else if match op with IOXD_FILTER_FINISH => true | _ => avail_out =? 0 end then Some (1%Z, n, out, c)
        else Some (0%Z, n, out, c)
  end.
End Coders.

(** ** The decision *)

Definition types : list bytes :=
  [lit "application/json"; lit "application/javascript"; lit "application/x-javascript"; lit "application/xml"; lit "application/wasm"; lit "image/svg+xml"].

Definition compressible (type : bytes) : bool :=
  let '(_, type, _) := ioxd_slice_cut type (ch ";") in
  let type := ioxd_slice_trim type in
  if ioxd_slice_starts_with type (lit "text/") || ioxd_slice_ends_with type (lit "+json") || ioxd_slice_ends_with type (lit "+xml") then true
  else existsb (fun t => ioxd_slice_eq_ci type t) types.

(** A reply's fields have their names in its arena. *)
Definition has_header (r : ioxd_response) (name : bytes) : bool :=
  existsb (fun f => ioxd_slice_eq (bytes_at [] (Response.head r) (key f)) name) (Response.headers r).

Definition names (k : kind) : bytes := match k with KIND_BR => lit "br" | KIND_GZIP => lit "gzip" end.

Section Decide.
Context `{Encoders} `{Doubles}.

(** The coder the client's weights choose. *)
Definition pick (b : build) (cfg : ioxd_compress_config) (q : ioxd_request) (hint : Z) (t : thread) : option (option coder * thread) :=
  let gz := ioxd_accepts_encoding q (lit "gzip") in
  let br := ioxd_accepts_encoding q (lit "br") in
  match (if IOXD_BROTLI b && dgt br dzero && dge br gz then coder_take b cfg KIND_BR hint t else Some (None, t)) with
  | None => None
  | Some (Some c, t) => Some (Some c, t)
  | Some (None, t) => if IOXD_ZLIB b && dgt gz dzero then coder_take b cfg KIND_GZIP 0 t else Some (None, t)
  end.

(** [taken]: the reply has a filter already. The reply, the coder that filters it now, and the thread after. *)
Definition decide (b : build) (cfg : ioxd_compress_config) (taken : bool) (q : ioxd_request) (r : ioxd_response) (buffered : nat) (whole : bool) (t : thread)
  : option (ioxd_response * option coder * thread) :=
  if ((status r <? 200) || (300 <=? status r) || (status r =? 204))%Z || has_header r (lit "content-encoding") || negb (compressible (ct_bytes r))
  then Some (r, None, t)
  else
    let '(_, r) := ioxd_header r (Some (lit "vary")) (Some (lit "accept-encoding")) in
    if whole && (Z.of_nat buffered <? min_bytes cfg)%Z then Some (r, None, t)
    else if IOXD_BROTLI b || IOXD_ZLIB b then
      match pick b cfg q (if whole then Z.of_nat buffered else 0) t with
      | None => None
      | Some (None, t) => Some (r, None, t)
      | Some (Some c, t) =>
          if head_sent r || taken then match coder_give b c t with Some t => Some (r, None, t) | None => None end
          else Some ((ioxd_header r (Some (lit "content-encoding")) (Some (names (knd c)))).2, Some c, t)
      end
    else Some (r, None, t).

(** ** As the hooks of a reply

    The delegate is [decide] on the thread the reply is served by. A run that frees what is not held would be
    undefined; [run] gives it as a failure, and [coders_stay_sound] says it does not happen. *)
Context (b : build) (cfg : ioxd_compress_config).

Definition run (c : coder) (in_ : bytes) (room : nat) (op : ioxd_filter_op) : Z * nat * bytes * coder :=
  match (match knd c with KIND_BR => br_run c in_ room op | KIND_GZIP => gzip_run c in_ room op end) with
  | Some r => r
  | None => ((-1)%Z, 0, [], c)
  end.

Definition compress_hooks : Hooks :=
  {| Coder := coder; filter_run := run; Delegate := thread;
     head_call t q r buffered whole := match decide b cfg false q r buffered whole t with Some (r, c, _) => (r, c) | None => (r, None) end |}.

#[local] Existing Instance compress_hooks.

(** The middleware; [next] is the rest of the chain. *)
Definition ioxd_compress {W A} (t : thread) (next : ctx W -> A) (c : ctx W) : A :=
  let c := match ioxd_req_header (req c) (lit "accept-encoding") with Some _ => (ioxd_on_head c (Some t)).2 | None => c end in
  next c.
End Decide.

(** ** The memory of an encoder

    [behaves owned m Q]: run while the encoder holds the blocks [owned], [m] asks for memory of a positive size,
    takes a refusal as an answer, gives back only what it holds, and ends with [Q]. *)
Fixpoint behaves {A} (owned : list (Z * Z)) (m : mem A) (Q : A -> list (Z * Z) -> Prop) : Prop :=
  match m with
  | MRet a => Q a owned
  | MAlloc size k => (0 < size <= 2 ^ 62)%Z /\ behaves owned (k 0%Z) Q /\ (forall a, a <> 0%Z -> behaves ((a, size) :: owned) (k a) Q)
  | MFree a k => if (a =? 0)%Z then behaves owned k Q else match take_out a owned with Some owned => behaves owned k Q | None => False end
  end.

(** Giving memory back is all it does. *)
Fixpoint frees_only {A} (m : mem A) : Prop :=
  match m with MRet _ => True | MAlloc _ _ => False | MFree _ k => frees_only k end.

(** Blocks that do not overlap. *)
Definition apart (x y : Z * Z) : Prop := (x.1 + x.2 <= y.1 \/ y.1 + y.2 <= x.1)%Z.
Definition all_apart : list (Z * Z) -> Prop := ForallOrdPairs apart.

(** What the code relies on of the encoders and the allocator. [holds st owned]: the blocks the encoder holds in
    that state. *)
Class EncoderLaws `{Encoders} := {
  malloc_law l n a : malloc l n = a -> a <> 0%Z -> (0 < n)%Z -> (0 < a)%Z /\ (a + n <= 2 ^ 63)%Z /\ Forall (apart (a, n)) l;
  holds : BrState -> list (Z * Z) -> Prop;
  br_decodes : bytes -> bytes -> Prop;
  br_fed : BrState -> bytes -> bytes -> Prop;
  br_work : BrState -> br_op -> bytes -> nat;
  br_create_ok : behaves [] br_create (fun r owned => match r with
    | None => owned = []
    | Some st => forall q w h, holds (br_params st q w h) owned /\ br_fed (br_params st q w h) [] [] end);
  br_stream_ok st op i room owned : holds st owned ->
    behaves owned (br_stream st op i room) (fun r owned => let '(ok, avail_in, o, st') := r in
      holds st' owned /\ avail_in <= length i /\ length o <= room /\
      ((ok : bool) = true -> forall X E, br_fed st X E -> let n := length i - avail_in in
        br_fed st' (X ++ take n i) (E ++ o) /\ moved n o + br_work st' op (drop n i) <= br_work st op i /\
        (op = BROTLI_OPERATION_FINISH -> br_finished st' = true -> br_more st' = false -> avail_in = 0 -> br_decodes (E ++ o) (X ++ i))));
  br_destroy_ok st owned : holds st owned -> frees_only (br_destroy st) /\ behaves owned (br_destroy st) (fun _ owned => owned = []);
  z_decodes : bytes -> bytes -> Prop;
  z_fed : ZState -> bytes -> bytes -> Prop;
  z_work : ZState -> z_flush -> bytes -> nat;
  z_reset_ok st : z_fed (z_reset st) [] [];
  z_deflate_ok st i room fl rc avail_in o st' : z_deflate st i room fl = (rc, avail_in, o, st') ->
    avail_in <= length i /\ length o <= room /\
    (rc <> Z_STREAM_ERROR -> forall X E, z_fed st X E -> let n := length i - avail_in in
      z_fed st' (X ++ take n i) (E ++ o) /\ moved n o + z_work st' fl (drop n i) <= z_work st fl i /\
      (rc = Z_STREAM_END -> avail_in = 0 -> z_decodes (E ++ o) (X ++ i)))
}.

Lemma take_out_spec a l l' : take_out a l = Some l' -> exists l1 b l2, l = l1 ++ b :: l2 /\ l' = l1 ++ l2 /\ b.1 = a.
Proof.
  revert l'. induction l as [|b l IH]; intros l'; [done|]. cbn [take_out]. destruct (Z.eqb_spec b.1 a) as [E|E].
  - intros [= <-]. by exists [], b, l.
  - destruct (take_out a l) as [l0|]; [|done]. intros [= <-]. destruct (IH _ eq_refl) as (l1 & x & l2 & -> & -> & Hx). by exists (b :: l1), x, l2.
Qed.

(** Taking out of the blocks that satisfy a test on the address. *)
Lemma take_out_filter (f : Z -> bool) a l l' : take_out a l = Some l' -> let g := List.filter (fun b : Z * Z => f b.1) in
  if f a then take_out a (g l) = Some (g l') else g l' = g l.
Proof.
  cbn zeta. revert l'. induction l as [|b l IH]; intros l'; [done|]. cbn [take_out]. destruct (Z.eqb_spec b.1 a) as [E|E].
  - intros [= <-]. cbn [List.filter]. rewrite E. destruct (f a); [|done]. cbn [take_out]. by rewrite E, Z.eqb_refl.
  - destruct (take_out a l) as [l0|]; [|done]. intros [= <-]. specialize (IH _ eq_refl). cbn [List.filter]. destruct (f a), (f b.1); try done.
    + cbn [take_out]. rewrite IH. by destruct (Z.eqb_spec b.1 a).
    + by rewrite IH.
Qed.

Lemma all_apart_cons x l : all_apart (x :: l) <-> Forall (apart x) l /\ all_apart l.
Proof. split; [intros Hx; by inversion Hx|intros [? ?]; by constructor]. Qed.

Lemma all_apart_remove l1 x l2 : all_apart (l1 ++ x :: l2) -> all_apart (l1 ++ l2).
Proof.
  induction l1 as [|y l1 IH]; cbn [app]; rewrite !all_apart_cons; [tauto|]. intros [Hy Hl]. split; [|auto].
  apply Forall_app in Hy as [Hy1 Hy2]. inversion Hy2; subst. by apply Forall_app.
Qed.

Section Memory.
Context `{EncoderLaws}.

Definition in_arena (c : coder) (a : Z) : bool := negb (arena c =? 0)%Z && (arena c <=? a)%Z && (a <? arena c + arena_cap c)%Z.

(** A coder whose encoder holds [owned]: its blocks do not overlap, the ones in the arena are behind its mark,
    and the others are exactly what the coder holds of the heap, which does not overlap either. *)
Record coder_ok (c : coder) (owned : list (Z * Z)) : Prop := {
  co_arena : arena c <> 0%Z -> (0 < arena c /\ 0 < arena_cap c /\ arena c + arena_cap c <= 2 ^ 63 /\ arena_used c <= arena_cap c)%Z;
  co_used : (0 <= arena_used c)%Z;
  co_marks : (0 <= arena_peak c /\ 0 <= arena_cap c)%Z;
  co_owned : Forall (fun b => (0 < b.1 /\ 0 < b.2)%Z /\ (in_arena c b.1 = true -> (b.1 + b.2 <= arena c + arena_used c)%Z)) owned;
  co_held : held c = List.filter (fun b => negb (in_arena c b.1)) owned;
  co_apart : all_apart owned;
  co_live : all_apart (live c)
}.

Lemma round_up n : (0 < n <= 2 ^ 62)%Z -> let need := Z.land (wrap64 (n + (ALIGN - 1))) (Z.lxor (ALIGN - 1) UINT64_MAX) in (n <= need < n + 16)%Z.
Proof.
  intros Hn need. assert (E : need = (wrap64 (n + 15) - wrap64 (n + 15) mod 16)%Z).
  { unfold need, ALIGN, UINT64_MAX. change (16 - 1)%Z with 15%Z. rewrite wrap64_small by lia. set (x := (n + 15)%Z). assert (Hx : (0 <= x < 2 ^ 64)%Z) by lia. clearbody x.
    change (2 ^ 64 - 1)%Z with (Z.ones 64). change 15%Z with (Z.ones 4). transitivity (Z.ldiff x (Z.ones 4)).
    - apply Z.bits_inj'. intros i Hi. rewrite Z.land_spec, Z.lxor_spec, Z.ldiff_spec, !Z.testbit_ones_nonneg by lia.
      destruct (Z.ltb_spec i 64) as [|H64]; [by destruct (i <? 4)%Z|]. assert (Z.testbit x i = false) as ->; [|done].
      apply Z.testbit_false; [done|]. rewrite Z.div_small; [done|]. split; [lia|]. apply (Z.lt_le_trans _ (2 ^ 64)); [lia|]. apply Z.pow_le_mono_r; lia.
    - rewrite Z.ldiff_ones_r, Z.shiftl_mul_pow2, Z.shiftr_div_pow2 by lia. change (2 ^ 4)%Z with 16%Z. pose proof (Z.div_mod x 16). lia. }
  rewrite E. rewrite wrap64_small by lia. pose proof (Z.mod_pos_bound (n + 15) 16). lia.
Qed.

Definition same_shell (c c' : coder) : Prop := arena c' = arena c /\ arena_cap c' = arena_cap c /\ knd c' = knd c /\ br c' = br c /\ zs c' = zs c.

(** A block the encoder holds, against the arena and against the heap. *)
Lemma owned_place c owned b : coder_ok c owned -> In b owned ->
  if in_arena c b.1 then (arena c <= b.1 /\ b.1 + b.2 <= arena c + arena_used c)%Z else In b (held c).
Proof.
  intros Hok Hb. pose proof (co_owned _ _ Hok) as Ho. rewrite Forall_forall in Ho. destruct (Ho b) as [_ Hin]; [by apply list_elem_of_In|].
  destruct (in_arena c b.1) eqn:E; [|rewrite (co_held _ _ Hok); apply filter_In; by rewrite E].
  split; [|by apply Hin]. unfold in_arena in E. bool_to_prop. lia.
Qed.

Lemma arena_apart c owned b : coder_ok c owned -> arena c <> 0%Z -> In b (held c) -> apart (arena c, arena_cap c) b.
Proof.
  intros Hok Ha Hb. pose proof (co_live _ _ Hok) as Hl. unfold live in Hl. destruct (Z.eqb_spec (arena c) 0); [done|]. cbn [app] in Hl.
  apply all_apart_cons in Hl as [Hl _]. rewrite Forall_forall in Hl. apply Hl. by apply list_elem_of_In.
Qed.

(** From the arena: behind the mark. *)
Lemma bump_ok c owned n need : coder_ok c owned -> arena c <> 0%Z -> (0 < n <= need)%Z -> (arena_used c + need <= arena_cap c)%Z -> forall peak, (0 <= peak)%Z ->
  coder_ok (set_arena c (arena c) (arena_cap c) (arena_used c + need) peak (held c)) ((arena c + arena_used c, n)%Z :: owned).
Proof.
  intros Hok Ha Hn Hfit peak Hp. set (a := (arena c + arena_used c)%Z). destruct (co_arena _ _ Hok Ha) as (A1 & A2 & A3 & A4). pose proof (co_used _ _ Hok) as Hu.
  assert (Hin : in_arena c a = true) by (unfold in_arena, a; rewrite !andb_true_iff, negb_true_iff, Z.eqb_neq, Z.leb_le, Z.ltb_lt; lia).
  split; cbn.
  - intros _. lia.
  - lia.
  - split; [done|lia].
  - constructor; [cbn; split; [lia|intros _; unfold a; lia]|]. eapply Forall_impl; [apply (co_owned _ _ Hok)|]. intros b [Hb1 Hb2]. split; [done|].
    intros Hb. specialize (Hb2 Hb). lia.
  - change (in_arena (set_arena c _ _ _ _ _)) with (in_arena c). rewrite Hin. apply (co_held _ _ Hok).
  - apply all_apart_cons. split; [|apply (co_apart _ _ Hok)]. apply Forall_forall. intros b Hb. apply list_elem_of_In in Hb.
    pose proof (owned_place _ _ _ Hok Hb) as Hpl. unfold apart. cbn. destruct (in_arena c b.1); [right; unfold a; lia|].
    pose proof (arena_apart _ _ _ Hok Ha Hpl) as Hap. unfold apart in Hap. cbn in Hap. unfold a. lia.
  - apply (co_live _ _ Hok).
Qed.

(** From the heap: where nothing is live. *)
Lemma heap_ok c owned n a : coder_ok c owned -> (0 < n)%Z -> malloc (live c) n = a -> a <> 0%Z -> forall peak, (0 <= peak)%Z ->
  coder_ok (set_arena c (arena c) (arena_cap c) (arena_used c) peak ((a, n) :: held c)) ((a, n) :: owned).
Proof.
  intros Hok Hn Hm Ha peak Hp. destruct (malloc_law _ _ _ Hm Ha Hn) as (M1 & M2 & M3). rewrite Forall_forall in M3.
  assert (Hout : in_arena c a = false).
  { unfold in_arena. destruct (Z.eqb_spec (arena c) 0) as [|Hz]; [done|]. cbn [negb andb]. destruct (co_arena _ _ Hok Hz) as (A1 & A2 & A3 & A4).
    assert (Hap : apart (a, n) (arena c, arena_cap c)) by (apply M3; unfold live; destruct (Z.eqb_spec (arena c) 0); [done|left]). unfold apart in Hap. cbn in Hap.
    destruct (Z.leb_spec (arena c) a), (Z.ltb_spec a (arena c + arena_cap c)); try done; lia. }
  split; cbn; try apply Hok.
  - split; [done|]. apply Hok.
  - constructor; [cbn; split; [lia|]; change (in_arena (set_arena c _ _ _ _ _)) with (in_arena c); by rewrite Hout|]. apply (co_owned _ _ Hok).
  - change (in_arena (set_arena c _ _ _ _ _)) with (in_arena c). rewrite Hout. cbn. f_equal. apply (co_held _ _ Hok).
  - apply all_apart_cons. split; [|apply (co_apart _ _ Hok)]. apply Forall_forall. intros b Hb. apply list_elem_of_In in Hb.
    pose proof (owned_place _ _ _ Hok Hb) as Hpl. destruct (in_arena c b.1) eqn:Eb.
    + assert (Hz : arena c <> 0%Z) by (unfold in_arena in Eb; bool_to_prop; done). destruct (co_arena _ _ Hok Hz) as (A1 & A2 & A3 & A4).
      assert (Hap : apart (a, n) (arena c, arena_cap c)) by (apply M3; unfold live; destruct (Z.eqb_spec (arena c) 0); [done|left]). unfold apart in *. cbn in *. lia.
    + apply M3. apply list_elem_of_In. unfold live. apply in_app_iff. by right.
  - pose proof (co_live _ _ Hok) as Hl. unfold live in *. cbn. destruct (Z.eqb_spec (arena c) 0); cbn [app] in *.
    + apply all_apart_cons. split; [|done]. apply Forall_forall. exact M3.
    + apply all_apart_cons in Hl as [Hl1 Hl2]. apply all_apart_cons. split; [constructor; [|done]|apply all_apart_cons; split; [|done]].
      * assert (Hap : apart (a, n) (arena c, arena_cap c)) by (apply M3; left). unfold apart in *. cbn in *. lia.
      * apply Forall_forall. intros b Hb. apply M3. by right.
Qed.

Lemma set_peak_ok c owned peak : coder_ok c owned -> (0 <= peak)%Z -> coder_ok (set_arena c (arena c) (arena_cap c) (arena_used c) peak (held c)) owned.
Proof. intros [] ?. split; try done. cbn. split; [done|lia]. Qed.

Lemma arena_alloc_ok c owned n a c' : coder_ok c owned -> (0 < n <= 2 ^ 62)%Z -> arena_alloc c n = (a, c') ->
  same_shell c c' /\ coder_ok c' (if (a =? 0)%Z then owned else (a, n) :: owned).
Proof.
  intros Hok Hn. pose proof (round_up n Hn) as Hneed. unfold arena_alloc. set (need := Z.land _ _) in *. cbv zeta in Hneed.
  assert (Hp : (0 <= wrap64 (arena_peak c + need))%Z) by (apply Z.mod_pos_bound; lia).
  cbn [arena arena_cap arena_used arena_peak held set_arena]. destruct (negb (arena c =? 0)%Z && _) eqn:E.
  - bool_to_prop. destruct (co_arena _ _ Hok ltac:(done)) as (A1 & A2 & A3 & A4). pose proof (co_used _ _ Hok).
    pose proof (wrap64_small (arena_used c + need) ltac:(lia)) as Hw. rewrite Hw in *. intros [= <- <-]. split; [done|]. destruct (Z.eqb_spec (arena c + arena_used c) 0); [lia|].
    exact (bump_ok c owned n need Hok ltac:(done) ltac:(lia) ltac:(lia) _ Hp).
  - change (live (set_arena c _ _ _ _ _)) with (live c). intros [= <- <-]. destruct (Z.eqb_spec (malloc (live c) n) 0); (split; [done|]).
    + exact (set_peak_ok c owned _ Hok Hp).
    + exact (heap_ok c owned n _ Hok ltac:(lia) eq_refl ltac:(done) _ Hp).
Qed.

Lemma arena_free_ok c owned a owned' : coder_ok c owned -> a <> 0%Z -> take_out a owned = Some owned' ->
  exists c', arena_free c a = Some c' /\ same_shell c c' /\ coder_ok c' owned'.
Proof.
  intros Hok Ha Ht. pose proof (take_out_spec _ _ _ Ht) as (l1 & b & l2 & -> & -> & Hb). pose proof (take_out_filter (fun x => negb (in_arena c x)) _ _ _ Ht) as Hf.
  cbv beta zeta in Hf. rewrite <- (co_held _ _ Hok) in Hf. pose proof (co_owned _ _ Hok) as Ho. apply Forall_app in Ho as [Ho1 Ho2]. inversion Ho2 as [|? ? _ Ho3]; subst.
  pose proof (all_apart_remove _ _ _ (co_apart _ _ Hok)) as Hap. unfold arena_free. destruct (Z.eqb_spec b.1 0); [done|]. cbn [orb]. fold (in_arena c b.1).
  destruct (in_arena c b.1); cbn [negb] in Hf.
  - exists c. split; [done|]. split; [done|]. destruct Hok. split; try done. by apply Forall_app.
  - rewrite Hf. eexists. split; [done|]. split; [done|]. pose proof (co_live _ _ Hok) as Hl. destruct Hok. split; try done; cbn.
    + by apply Forall_app.
    + apply take_out_spec in Hf as (h1 & x & h2 & Hh & Hh' & _). unfold live in *. cbn. rewrite Hh in Hl. rewrite Hh'. destruct (arena c =? 0)%Z; cbn [app] in *.
      * by apply all_apart_remove in Hl.
      * apply all_apart_cons in Hl as [Hl1 Hl2]. apply all_apart_cons. split; [|by apply all_apart_remove in Hl2].
        apply Forall_app in Hl1 as [? Hl1]. inversion Hl1; subst. by apply Forall_app.
Qed.

Lemma same_shell_trans c1 c2 c3 : same_shell c1 c2 -> same_shell c2 c3 -> same_shell c1 c3.
Proof. unfold same_shell. intuition congruence. Qed.

(** A run of a well-behaved encoder is defined, and its blocks stay apart. *)
Lemma run_mem_ok {A} (m : mem A) : forall c owned Q, coder_ok c owned -> behaves owned m Q ->
  exists a c' owned', run_mem m c = Some (a, c') /\ same_shell c c' /\ coder_ok c' owned' /\ Q a owned'.
Proof.
  induction m as [a|size k IH|a k IH]; intros c owned Q Hok Hm; cbn [run_mem behaves] in *.
  - by exists a, c, owned.
  - destruct Hm as (Hs & H0m & Hm). destruct (arena_alloc c size) as [a c1] eqn:Ea. destruct (arena_alloc_ok _ _ _ _ _ Hok Hs Ea) as [Hsh Hok1].
    destruct (IH a c1 _ Q Hok1) as (r & c' & o' & E & Hsh' & Hok' & HQ).
    { destruct (Z.eqb_spec a 0) as [->|]; [done|by apply Hm]. }
    exists r, c', o'. split; [done|]. split; [by eapply same_shell_trans|done].
  - destruct (Z.eqb_spec a 0) as [->|Ha]; [by apply (IH c owned Q)|]. destruct (take_out a owned) as [o1|] eqn:Et; [|done].
    destruct (arena_free_ok _ _ _ _ Hok Ha Et) as (c1 & -> & Hsh & Hok1). destruct (IH c1 _ Q Hok1 Hm) as (r & c' & o' & E & Hsh' & Hok' & HQ).
    exists r, c', o'. split; [done|]. split; [by eapply same_shell_trans|done].
Qed.

(** *** A coder's life *)

(** In a pool; on a reply, whatever its encoder last answered; and on one after taking [X] and giving [E]. *)
Definition idle_coder (k : kind) (c : coder) : Prop :=
  knd c = k /\ coder_ok c [] /\ (k = KIND_GZIP -> exists st, zs c = Some st).
Definition sound (c : coder) : Prop :=
  match knd c with
  | KIND_BR => exists st owned, br c = Some st /\ holds st owned /\ coder_ok c owned
  | KIND_GZIP => coder_ok c [] /\ exists st, zs c = Some st
  end.
Definition coder_fed (c : coder) (X E : bytes) : Prop :=
  match knd c with KIND_BR => exists st, br c = Some st /\ br_fed st X E | KIND_GZIP => exists st, zs c = Some st /\ z_fed st X E end.
Definition ready (c : coder) (X E : bytes) : Prop := sound c /\ coder_fed c X E.

Lemma coder_ok_empty c : coder_ok c [] -> held c = [].
Proof. intros Hok. by rewrite (co_held _ _ Hok). Qed.

Lemma set_br_ok c owned st : coder_ok c owned -> coder_ok (set_br c st) owned.
Proof. intros []. by split. Qed.
Lemma set_zs_ok c owned st : coder_ok c owned -> coder_ok (set_zs c st) owned.
Proof. intros []. by split. Qed.

(** A new arena for a coder that holds nothing. *)
Lemma set_arena_ok c a cap peak : (0 <= peak)%Z -> (0 <= cap)%Z -> (a <> 0 -> 0 < a /\ 0 < cap /\ a + cap <= 2 ^ 63)%Z -> coder_ok (set_arena c a cap 0 peak []) [].
Proof.
  intros Hp Hc Ha. split; cbn; try done.
  - intros Hz. specialize (Ha Hz). lia.
  - constructor.
  - unfold live. cbn. destruct (a =? 0)%Z; cbn; repeat constructor.
Qed.

Lemma br_make_ok cfg c hint : idle_coder KIND_BR c ->
  exists ok c', br_make cfg c hint = Some (ok, c') /\ if ok then knd c' = KIND_BR /\ ready c' [] [] else idle_coder KIND_BR c'.
Proof.
  intros (Hk & Hok & _). pose proof (coder_ok_empty _ Hok) as Hh. unfold br_make. set (c1 := if (arena c =? 0)%Z then _ else c).
  assert (Hok1 : coder_ok (set_arena c1 (arena c1) (arena_cap c1) 0 0 (held c1)) [] /\ knd c1 = KIND_BR).
  { unfold c1. destruct (Z.eqb_spec (arena c) 0) as [Hz|Hz]; cbn; rewrite Hh; (split; [|done]).
    - apply set_arena_ok; [done|done|]. unfold live. rewrite Hz, Hh. cbn [app]. intros Hm. destruct (malloc_law _ _ _ eq_refl Hm) as (? & ? & _); [done|].
      unfold ARENA_FIRST in *. lia.
    - destruct (co_arena _ _ Hok Hz) as (A1 & A2 & A3 & A4). apply set_arena_ok; [done|lia|done]. }
  destruct Hok1 as [Hok1 Hk1]. destruct (run_mem_ok br_create _ [] _ Hok1 br_create_ok) as (r & c2 & owned & -> & (_ & _ & Hk2 & _) & Hok2 & Hr).
  destruct r as [st|].
  - eexists _, _. split; [done|]. cbn. split; [by rewrite Hk2|]. unfold ready, sound, coder_fed. cbn. rewrite Hk2. cbn. rewrite Hk1.
    destruct (Hr (wrap32 (brotli_quality cfg)) (wrap32 (brotli_window cfg)) (if (UINT32_MAX <? hint)%Z then UINT32_MAX else hint)) as [Hr1 Hr2].
    split; [eexists _, owned; split; [done|]; split; [done|]; by apply set_br_ok|]. by eexists.
  - subst owned. eexists _, _. split; [done|]. split; [cbn; by rewrite Hk2|]. split; [by apply set_br_ok|done].
Qed.

Lemma frees_only_peak {A} (m : mem A) : forall c r, frees_only m -> run_mem m c = Some r -> arena_peak r.2 = arena_peak c.
Proof.
  induction m as [a|size k IH|a k IH]; intros c r Hm Hr; cbn [run_mem frees_only] in *; [by injection Hr as <-|done|].
  destruct (arena_free c a) as [c1|] eqn:Ea; [|done]. rewrite (IH _ _ Hm Hr). unfold arena_free in Ea.
  destruct (_ || _); [by injection Ea as <-|]. destruct (take_out a (held c)); [by injection Ea as <-|done].
Qed.

(** The next coding has an arena as large as all this one asked for, when there is memory for it. *)
Lemma br_done_ok c : knd c = KIND_BR -> sound c -> (arena_peak c <= 2 ^ 62)%Z ->
  exists c', br_done c = Some c' /\ idle_coder KIND_BR c'.
Proof.
  intros Hk Hr Hp. unfold sound in Hr. rewrite Hk in Hr. destruct Hr as (st & owned & Hb & Hho & Hok). unfold br_done. rewrite Hb.
  destruct (br_destroy_ok _ _ Hho) as [Hfo Hde]. destruct (run_mem_ok _ _ _ _ Hok Hde) as ([] & c1 & o1 & E1 & (S1 & S2 & S3 & _) & Hok1 & ->). rewrite E1.
  pose proof (frees_only_peak _ _ _ Hfo E1) as Hp1. cbn in Hp1. rewrite <- Hp1 in Hp.
  pose proof (coder_ok_empty _ Hok1) as Hh. pose proof (co_marks _ _ Hok1) as [Hm1 Hm2]. eexists. split; [done|]. split; [|split; [|done]].
  - destruct (_ <? _)%Z; [destruct (malloc _ _ =? 0)%Z|]; cbn; congruence.
  - cbn [arena_cap arena_peak set_br held arena arena_used]. rewrite Hh. destruct (Z.ltb_spec (arena_cap c1) (arena_peak c1)) as [Hlt|Hlt]; cbn.
    + assert (Hq : (0 <= arena_peak c1 / 4 <= arena_peak c1)%Z) by (split; [apply Z.div_pos; lia|apply Z.div_le_upper_bound; lia]).
      assert (Hcap : wrap64 (arena_peak c1 + arena_peak c1 / 4) = (arena_peak c1 + arena_peak c1 / 4)%Z) by (apply wrap64_small; lia).
      destruct (Z.eqb_spec (malloc [] (wrap64 (arena_peak c1 + arena_peak c1 / 4))) 0) as [Hz|Hz]; cbn; rewrite ?Hh.
      * apply set_arena_ok; [done|done|]. intros Ha. destruct (co_arena _ _ Hok1 Ha). lia.
      * apply set_arena_ok; [done|lia|]. intros _. destruct (malloc_law _ _ _ eq_refl Hz) as (? & ? & _); lia.
    + rewrite ?Hh. apply set_arena_ok; [done|done|]. intros Ha. destruct (co_arena _ _ Hok1 Ha). lia.
Qed.

(** *** Its runs *)

Definition bop (op : ioxd_filter_op) : br_op :=
  match op with IOXD_FILTER_FINISH => BROTLI_OPERATION_FINISH | IOXD_FILTER_FLUSH => BROTLI_OPERATION_FLUSH | IOXD_FILTER_MORE => BROTLI_OPERATION_PROCESS end.
Definition zop (op : ioxd_filter_op) : z_flush :=
  match op with IOXD_FILTER_FINISH => Z_FINISH | IOXD_FILTER_FLUSH => Z_SYNC_FLUSH | IOXD_FILTER_MORE => Z_NO_FLUSH end.

Definition coder_work (c : coder) (op : ioxd_filter_op) (i : bytes) : nat :=
  match knd c with
  | KIND_BR => match br c with Some st => br_work st (bop op) i | None => 0 end
  | KIND_GZIP => match zs c with Some st => z_work st (zop op) i | None => 0 end
  end.
Definition coder_decodes (c : coder) (E D : bytes) : Prop := match knd c with KIND_BR => br_decodes E D | KIND_GZIP => z_decodes E D end.

Definition call (c : coder) (i : bytes) (room : nat) (op : ioxd_filter_op) : option (Z * nat * bytes * coder) :=
  match knd c with KIND_BR => br_run c i room op | KIND_GZIP => gzip_run c i room op end.

(** What a call does for a coder with a history. *)
Definition call_fed (c : coder) (i : bytes) (op : ioxd_filter_op) (rc : Z) (n : nat) (o : bytes) (c' : coder) : Prop :=
  (0 <= rc)%Z -> forall X E, coder_fed c X E ->
    coder_fed c' (X ++ take n i) (E ++ o) /\ moved n o + coder_work c' op (drop n i) <= coder_work c op i /\
    (op = IOXD_FILTER_FINISH -> rc = 0%Z -> n = length i -> coder_decodes c' (E ++ o) (X ++ i)).

Lemma br_run_ok c i room op : knd c = KIND_BR -> sound c ->
  exists rc n o c', br_run c i room op = Some (rc, n, o, c') /\ sound c' /\ knd c' = knd c /\ call_fed c i op rc n o c'.
Proof.
  intros Hk Hs. unfold sound in Hs. rewrite Hk in Hs. destruct Hs as (st & owned & Hb & Hho & Hok). unfold br_run. rewrite Hb. fold (bop op).
  destruct (run_mem_ok _ _ _ _ Hok (br_stream_ok _ (bop op) i room _ Hho)) as ([[[ok left] o] st'] & c1 & o1 & -> & (S1 & S2 & S3 & _) & Hok1 & Hho1 & Hl & Hroom & Hfed).
  set (c2 := set_br c1 (Some st')). assert (Hs2 : sound c2 /\ knd c2 = knd c).
  { split; [|done]. unfold sound. cbn. rewrite S3, Hk. exists st', o1. split; [done|]. split; [done|]. by apply set_br_ok. }
  destruct Hs2 as [Hs2 Hk2]. destruct ok; cbn [negb]; [|eexists _, _, _, _; split; [done|]; split; [done|]; split; [done|]; intros ?; lia].
  assert (Hcf : forall rc, (op = IOXD_FILTER_FINISH -> rc = 0%Z -> br_finished st' = true /\ br_more st' = false) -> call_fed c i op rc (length i - left) o c2).
  { intros rc Hfin _ X E Hx. unfold coder_fed, coder_work, coder_decodes in *. cbn in *. rewrite S3, Hk, Hb in *. destruct Hx as (st0 & [= <-] & Hx).
    destruct (Hfed eq_refl X E Hx) as (F1 & F2 & F3). split; [by exists st'|]. split; [done|]. intros -> Hz Hn. destruct (Hfin eq_refl Hz). apply F3; [done..|lia]. }
  destruct (br_more st') eqn:Em; [eexists _, _, _, _; split; [done|]; split; [done|]; split; [done|]; by apply Hcf|].
  destruct (match op with IOXD_FILTER_FINISH => negb (br_finished st') | _ => false end) eqn:Ef; (eexists _, _, _, _; split; [done|]; split; [done|]; split; [done|]; apply Hcf); [done|].
  intros -> _. by apply negb_false_iff in Ef.
Qed.

Lemma uInt_small n : (Z.of_nat n <= UINT32_MAX)%Z -> uInt n = n.
Proof. intros Hn. unfold uInt, wrap32, UINT32_MAX in *. rewrite Z.mod_small by lia. lia. Qed.

Lemma gzip_run_ok c i room op : knd c = KIND_GZIP -> sound c ->
  exists rc n o c', gzip_run c i room op = Some (rc, n, o, c') /\ sound c' /\ knd c' = knd c /\
    ((Z.of_nat (length i) <= UINT32_MAX)%Z -> (Z.of_nat room <= UINT32_MAX)%Z -> call_fed c i op rc n o c').
Proof.
  intros Hk Hs. unfold sound in Hs. rewrite Hk in Hs. destruct Hs as (Hok & st & Hz). unfold gzip_run. rewrite Hz. fold (zop op).
  destruct (z_deflate st (take (uInt (length i)) i) (uInt room) (zop op)) as [[[rc left] o] st'] eqn:Ez. set (c2 := set_zs c st').
  assert (Hs2 : sound c2) by (unfold sound; cbn; rewrite Hk; split; [by apply set_zs_ok|by exists st']).
  destruct (Z.eqb_spec rc Z_STREAM_ERROR) as [|Hne]; [eexists _, _, _, _; split; [done|]; split; [done|]; split; [done|]; intros _ _ ?; lia|].
  set (out := o ++ replicate _ _). assert (Hcf : forall rc', (op = IOXD_FILTER_FINISH -> rc' = 0%Z -> rc = Z_STREAM_END) ->
    (Z.of_nat (length i) <= UINT32_MAX)%Z -> (Z.of_nat room <= UINT32_MAX)%Z -> call_fed c i op rc' (length i - left) out c2).
  { intros rc' Hfin Hi Hr _ X E Hx. rewrite (uInt_small _ Hi), (uInt_small _ Hr), firstn_all in Ez. unfold out. rewrite (uInt_small _ Hr).
    destruct (z_deflate_ok _ _ _ _ _ _ _ _ Ez) as (L1 & L2 & Hd). replace (room - (room - length o) - length o) with 0 by lia. cbn [replicate]. rewrite app_nil_r.
    unfold coder_fed, coder_work, coder_decodes in *. cbn in *. rewrite Hk, Hz in *. destruct Hx as (st0 & [= <-] & Hx).
    destruct (Hd Hne X E Hx) as (F1 & F2 & F3). split; [by exists st'|]. split; [done|]. intros Hop Hz' Hn. apply F3; [by apply Hfin|lia]. }
  destruct (Z.eqb_spec rc Z_STREAM_END); [eexists _, _, _, _; split; [done|]; split; [done|]; split; [done|]; by apply Hcf|].
  destruct (match op with IOXD_FILTER_FINISH => true | _ => _ end) eqn:Ef; (eexists _, _, _, _; split; [done|]; split; [done|]; split; [done|]; apply Hcf); [done|].
  intros ->. done.
Qed.

Lemma call_ok c i room op : sound c ->
  exists rc n o c', call c i room op = Some (rc, n, o, c') /\ sound c' /\ knd c' = knd c /\
    ((Z.of_nat (length i) <= UINT32_MAX)%Z -> (Z.of_nat room <= UINT32_MAX)%Z -> call_fed c i op rc n o c').
Proof.
  intros Hs. unfold call. destruct (knd c) eqn:Hk.
  - destruct (br_run_ok c i room op Hk Hs) as (rc & n & o & c' & -> & ? & ? & ?). eexists _, _, _, _. split; [done|]. split; [done|]. split; [congruence|done].
  - destruct (gzip_run_ok c i room op Hk Hs) as (rc & n & o & c' & -> & ? & ? & ?). eexists _, _, _, _. split; [done|]. split; [done|]. split; [congruence|done].
Qed.
End Memory.

(** ** The pools *)

Section Pools.
Context `{EncoderLaws}.

Definition thread_ok (t : thread) : Prop := forall k, Forall (idle_coder k) (tl_free t k).
Definition built (b : build) (k : kind) : bool := match k with KIND_BR => IOXD_BROTLI b | KIND_GZIP => IOXD_ZLIB b end.

Lemma set_free_ok t k l : thread_ok t -> Forall (idle_coder k) l -> thread_ok (set_free t k l).
Proof. intros Ht Hl k'. destruct k, k'; cbn; done || apply Ht. Qed.

Lemma zeroed_ok k : coder_ok (zeroed k) [].
Proof. split; cbn; try done; constructor. Qed.

(** A coder taken is new: nothing fed, nothing given. *)
Lemma coder_take_ok b cfg k hint t : thread_ok t -> built b k = true ->
  exists oc t', coder_take b cfg k hint t = Some (oc, t') /\ thread_ok t' /\ (forall c, oc = Some c -> knd c = k /\ ready c [] []).
Proof.
  intros Ht Hb. unfold coder_take.
  set (first := match tl_free t k with [] => _ | _ => _ end).
  assert (Hfirst : let '(c, t) := first in thread_ok t /\ (forall c', c = Some c' -> idle_coder k c')).
  { unfold first. pose proof (Ht k) as Hk. destruct (tl_free t k) as [|c rest].
    - unfold calloc. destruct (grants t) as [|[] gs]; try (by split).
      assert (Ht' : thread_ok {| tl_free := tl_free t; grants := gs |}) by exact Ht. destruct k.
      + split; [done|]. intros c' [= <-]. split; [done|]. split; [apply zeroed_ok|done].
      + cbn [built] in Hb. rewrite Hb. destruct (z_init _) as [st|]; (split; [done|]); intros c' [= <-]. split; [done|]. split; [apply set_zs_ok, zeroed_ok|by exists st].
    - inversion Hk; subst. split; [by apply set_free_ok|]. by intros c' [= <-]. }
  destruct first as [[c|] t1]; destruct Hfirst as [Ht1 Hc]; [|by exists None, t1]. specialize (Hc c eq_refl). destruct k; cbn [built] in Hb; rewrite Hb.
  - destruct (br_make_ok cfg c hint Hc) as (ok & c' & -> & Hok). destruct ok.
    + exists (Some c'), t1. split; [done|]. split; [done|]. by intros c2 [= <-].
    + exists None, (set_free t1 KIND_BR (c' :: tl_free t1 KIND_BR)). split; [done|]. split; [|done]. apply set_free_ok; [done|]. constructor; [done|apply Ht1].
  - destruct Hc as (Hk & Hok & Hz). destruct (Hz eq_refl) as (st & Hst). rewrite Hst. eexists _, t1. split; [done|]. split; [done|].
    intros c2 [= <-]. split; [done|]. unfold ready, sound, coder_fed. cbn. rewrite Hk. split; [split; [by apply set_zs_ok|by eexists]|]. eexists. split; [done|apply z_reset_ok].
Qed.

(** A coder given back holds nothing but its arena. *)
Lemma coder_give_ok b c t : thread_ok t -> sound c -> built b (knd c) = true -> (arena_peak c <= 2 ^ 62)%Z ->
  exists t', coder_give b c t = Some t' /\ thread_ok t'.
Proof.
  intros Ht Hs Hb Hp. unfold coder_give. destruct (knd c) eqn:Hk; cbn [built] in Hb.
  - rewrite Hb. destruct (br_done_ok c Hk Hs Hp) as (c' & -> & Hi). eexists. split; [done|]. rewrite (proj1 Hi). apply set_free_ok; [done|]. constructor; [done|apply Ht].
  - eexists. split; [done|]. rewrite Hk. apply set_free_ok; [done|]. unfold sound in Hs. rewrite Hk in Hs. destruct Hs as [Hok Hz]. constructor; [|apply Ht]. done.
Qed.

(** *** A thread at work

    Its pools and the coders on its replies, as requests take them, run them and give them back in any order. *)
Inductive action := Take (k : kind) (hint : Z) | Run (j : nat) (i : bytes) (room : nat) (op : ioxd_filter_op) | Give (j : nat).

Definition act (b : build) (cfg : ioxd_compress_config) (a : action) (w : thread * list coder) : option (thread * list coder) :=
  let '(t, cs) := w in
  match a with
  | Take k hint => match coder_take b cfg k hint t with Some (Some c, t) => Some (t, cs ++ [c]) | Some (None, t) => Some (t, cs) | None => None end
  | Run j i room op => match cs !! j with Some c => match call c i room op with Some (_, _, _, c) => Some (t, <[j := c]> cs) | None => None end | None => Some w end
  | Give j => match cs !! j with Some c => match coder_give b c t with Some t => Some (t, delete j cs) | None => None end | None => Some w end
  end.

Definition work_ok (b : build) (w : thread * list coder) : Prop :=
  thread_ok w.1 /\ Forall (fun c => sound c /\ built b (knd c) = true) w.2.

(** What is built in is taken, and no coder given back has asked for 2^62 bytes. *)
Definition may (b : build) (a : action) (w : thread * list coder) : Prop :=
  match a with
  | Take k _ => built b k = true
  | Run _ _ _ _ => True
  | Give j => match w.2 !! j with Some c => (arena_peak c <= 2 ^ 62)%Z | None => True end
  end.

(** Coders share a thread soundly. Starting from sound pools, whatever the requests of a thread do - take
a coder of either kind, from the pool or new, run it with any input, room and operation, give it back - each
step is defined (no block is freed that is not held), and leaves every coder on a reply sound - the blocks its
encoder holds do not overlap, each one behind the arena's mark or a block of the heap the coder holds, and
the arena does not overlap those - and every coder in a pool holding its arena and nothing else: no block
leaks from one reply to the next. A coder given back must not have asked for 2^62 bytes. *)
Theorem coders_stay_sound b cfg a w : work_ok b w -> may b a w -> exists w', act b cfg a w = Some w' /\ work_ok b w'.
Proof.
  destruct w as [t cs]. intros [Ht Hcs] Hm. cbn [fst snd] in *. destruct a as [k hint|j i room op|j]; cbn [act may fst snd] in *.
  - destruct (coder_take_ok b cfg k hint t Ht Hm) as ([c|] & t' & -> & Ht' & Hc); eexists; (split; [done|]); (split; [done|]); [|done].
    destruct (Hc c eq_refl) as [Hk [Hs _]]. apply Forall_app. split; [done|]. constructor; [|done]. split; [done|by rewrite Hk].
  - destruct (cs !! j) as [c|] eqn:Ej; [|by eexists]. pose proof (Forall_lookup_1 _ _ _ _ Hcs Ej) as [Hs Hb].
    destruct (call_ok c i room op Hs) as (rc & n & o & c' & -> & Hs' & Hk & _). eexists. split; [done|]. split; [done|]. apply Forall_insert; [done|]. by rewrite Hk.
  - destruct (cs !! j) as [c|] eqn:Ej; [|by eexists]. pose proof (Forall_lookup_1 _ _ _ _ Hcs Ej) as [Hs Hb].
    destruct (coder_give_ok b c t Ht Hs Hb Hm) as (t' & -> & Ht'). eexists. split; [done|]. split; [done|]. by apply Forall_delete.
Qed.
End Pools.

(** ** What the decision says *)

(** A head with room takes a field. *)
Lemma header_added r n v : head_ok r -> head_sent r = false -> length (headers r) < IOXD_MAX_RESP_HEADERS -> n <> [] ->
  forallb is_tchar n = true -> valid_field_value v = true ->
  (length n =? 12) && eq_ci n (lit "content-type") = false ->
  (length n =? 14) && eq_ci n (lit "content-length") || (length n =? 17) && eq_ci n (lit "transfer-encoding") || (length n =? 10) && eq_ci n (lit "connection") = false ->
  head_len r + (length n + 2 + length v + 2) + content_type_reserved r <= IOXD_RESP_HEAD_CAP ->
  ioxd_header r (Some n) (Some v) = (true, add_line r (map lower n) v) /\ head_ok (add_line r (map lower n) v) /\
  fields (add_line r (map lower n) v) = fields r ++ [(map lower n, v)].
Proof.
  intros Hok Hs Hc Hn Ht Hv E1 E2 Hr. pose proof (not_engine _ Ht E1 E2) as Hne. split.
  - unfold ioxd_header. rewrite Hs, Ht, Hv, E1, E2. cbn [orb negb]. destruct (Nat.eqb_spec (length (headers r)) IOXD_MAX_RESP_HEADERS); [lia|].
    destruct (Nat.eqb_spec (length n) 0); [by destruct n|]. cbn [orb]. unfold head_room, IOXD_RESP_HEAD_CAP in *.
    rewrite (wrap64_small (Z.of_nat 3072 - _)) by lia. rewrite wrap64_small by lia.
    destruct (Z.ltb_spec (Z.of_nat 3072 - Z.of_nat (content_type_reserved r) - Z.of_nat (head_len r)) (Z.of_nat (length n + 2 + length v + 2))); [lia|].
    unfold add_line. by rewrite length_map.
  - apply add_line_ok; [done| |done|by rewrite length_map]. split; cbn; [split; [by destruct n|by exists n]|done|done].
Qed.

(** Two more fields fit. *)
Definition roomy (r : ioxd_response) : Prop :=
  head_ok r /\ head_sent r = false /\ length (headers r) + 2 <= IOXD_MAX_RESP_HEADERS /\ head_len r + content_type_reserved r + 64 <= IOXD_RESP_HEAD_CAP.

Definition vary_field : bytes * bytes := (lit "vary", lit "accept-encoding").
Definition coding_field (k : kind) : bytes * bytes := (lit "content-encoding", names k).

Lemma vary_added r : roomy r -> let r' := (ioxd_header r (Some (lit "vary")) (Some (lit "accept-encoding"))).2 in
  fields r' = fields r ++ [vary_field] /\
  forall k, fields (ioxd_header r' (Some (lit "content-encoding")) (Some (names k))).2 = fields r ++ [vary_field; coding_field k].
Proof.
  intros (Hok & Hs & Hc & Hr).
  destruct (header_added r (lit "vary") (lit "accept-encoding")) as (E & Hok1 & Hf1); try done; [lia|change (length (lit "vary")) with 4; change (length (lit "accept-encoding")) with 15; lia|]. rewrite E. cbn [snd].
  set (r1 := add_line _ _ _) in *. split; [exact Hf1|]. intros k.
  destruct (header_added r1 (lit "content-encoding") (names k)) as (E' & _ & Hf'); try done; try (by destruct k).
  - unfold r1. cbn. rewrite length_app. cbn. lia.
  - unfold r1. change (content_type_reserved (add_line r ?a ?b)) with (content_type_reserved r). cbn [add_line head_len set_head].
    assert (length (names k) <= 4) by (destruct k; vm_compute; lia). change (length (map lower (lit "vary"))) with 4. change (length (lit "accept-encoding")) with 15.
    change (length (lit "content-encoding")) with 16. lia.
  - rewrite E'. cbn [snd]. rewrite Hf', Hf1, <- app_assoc. done.
Qed.

Section Said.
Context `{EncoderLaws} `{Doubles}.
Context (b : build) (cfg : ioxd_compress_config).

(** Replies that are left alone. *)
Definition left_alone (r : ioxd_response) : bool :=
  ((status r <? 200) || (300 <=? status r) || (status r =? 204))%Z || has_header r (lit "content-encoding") || negb (compressible (ct_bytes r)).

(** The weights that choose a coder. *)
Definition wants (q : ioxd_request) (k : kind) : bool :=
  match k with
  | KIND_BR => dgt (ioxd_accepts_encoding q (lit "br")) dzero && dge (ioxd_accepts_encoding q (lit "br")) (ioxd_accepts_encoding q (lit "gzip"))
  | KIND_GZIP => dgt (ioxd_accepts_encoding q (lit "gzip")) dzero
  end.

Lemma pick_ok q hint t : thread_ok t -> exists oc t', pick b cfg q hint t = Some (oc, t') /\ thread_ok t' /\
  match oc with
  | Some c => ready c [] [] /\ wants q (knd c) = true /\ built b (knd c) = true
  | None => True
  end.
Proof.
  intros Ht. unfold pick. set (br1 := if IOXD_BROTLI b && _ && _ then _ else _).
  assert (Hbr : exists oc t', br1 = Some (oc, t') /\ thread_ok t' /\ (forall c, oc = Some c -> knd c = KIND_BR /\ ready c [] [] /\ wants q KIND_BR = true /\ IOXD_BROTLI b = true)).
  { unfold br1. destruct (IOXD_BROTLI b && _ && _) eqn:E; [|by exists None, t]. apply andb_true_iff in E as [[E1 E2]%andb_true_iff E3].
    destruct (coder_take_ok b cfg KIND_BR hint t Ht E1) as (oc & t' & -> & Ht' & Hc). exists oc, t'. split; [done|]. split; [done|]. intros c Hoc.
    destruct (Hc c Hoc). split_and!; try done. cbn. by rewrite E2, E3. }
  destruct Hbr as ([c|] & t1 & -> & Ht1 & Hc).
  - destruct (Hc c eq_refl) as (Hk & Hr & Hw & Hb). exists (Some c), t1. split; [done|]. split; [done|]. rewrite Hk. by split_and!.
  - destruct (IOXD_ZLIB b && _) eqn:E; [|by exists None, t1]. apply andb_true_iff in E as [E1 E2].
    destruct (coder_take_ok b cfg KIND_GZIP 0 t1 Ht1 E1) as ([c|] & t' & -> & Ht' & Hc'); [|by exists None, t']. destruct (Hc' c eq_refl) as [Hk Hr].
    exists (Some c), t'. split; [done|]. split; [done|]. rewrite Hk. by split_and!.
Qed.

End Said.

(** ** The middleware and the engine *)

Section Through.
Context `{EncoderLaws} `{Doubles}.
Context (b : build) (cfg : ioxd_compress_config).

Notation add_fields := (foldl (fun (r : ioxd_response) (nv : option bytes * option bytes) => (ioxd_header r nv.1 nv.2).2)).

Lemma decide_installs q r buffered whole t r' oc t' : thread_ok t -> decide b cfg false q r buffered whole t = Some (r', oc, t') ->
  (exists fs, r' = add_fields r fs) /\ (forall c, oc = Some c -> ready c [] []).
Proof.
  intros Ht. unfold decide. destruct (_ || _ || _); [intros [= <- <- <-]; split; [by exists []|done]|].
  destruct (ioxd_header r (Some (lit "vary")) (Some (lit "accept-encoding"))) as [ok r1] eqn:E1.
  assert (Hv : exists fs, r1 = add_fields r fs) by (exists [(Some (lit "vary"), Some (lit "accept-encoding"))]; cbn [foldl fst snd]; by rewrite E1).
  destruct (whole && _); [by intros [= <- <- <-]|]. destruct (IOXD_BROTLI b || IOXD_ZLIB b); [|by intros [= <- <- <-]].
  destruct (pick_ok b cfg q (if whole then Z.of_nat buffered else 0) t Ht) as ([c|] & t2 & -> & Ht2 & Hc); [|by intros [= <- <- <-]].
  destruct (head_sent r1 || false); [destruct (coder_give b c t2); [by intros [= <- <- <-]|done]|]. intros [= <- <- <-]. split; [|intros c2 [= <-]; apply Hc].
  destruct Hv as (fs & ->). exists (fs ++ [(Some (lit "content-encoding"), Some (names (knd c)))]). by rewrite foldl_app.
Qed.

#[local] Hint Extern 0 Hooks => exact (compress_hooks b cfg) : typeclass_instances.

Lemma run_call c i room op rc n o c' : sound c -> run c i room op = (rc, n, o, c') -> sound c' /\
  ((Z.of_nat (length i) <= UINT32_MAX)%Z -> (Z.of_nat room <= UINT32_MAX)%Z -> call_fed c i op rc n o c').
Proof.
  intros Hs. unfold run. fold (call c i room op). destruct (call_ok c i room op Hs) as (rc' & n' & o' & c2 & -> & Hs' & _ & Hcf). by intros [= <- <- <- <-].
Qed.

Lemma head_call_installs t q r n w r' fo : thread_ok t -> head_call (t : Delegate) q r n w = (r', fo) ->
  (exists fs, r' = add_fields r fs) /\ (forall f, fo = Some f -> ready f [] []).
Proof.
  intros Ht. cbn. destruct (decide b cfg false q r n w t) as [[[r2 oc] t']|] eqn:Ed.
  - intros [= <- <-]. by apply decide_installs in Ed.
  - intros [= <- <-]. split; [by exists []|done].
Qed.

#[local] Instance compress_laws : CoderLaws.
Proof.
  refine {| decodes := (coder_decodes : Coder -> _); fed := (ready : Coder -> _); work := (coder_work : Coder -> _); delegate_ok := (thread_ok : Delegate -> _);
            head_call_fields := head_call_installs |};
    intros c X E i room op rc n o c' [Hs Hf] Hi Hr Hrun Hrc Hn Ho; destruct (run_call c i room op rc n o c' Hs Hrun) as [Hs' Hcf]; destruct (Hcf Hi Hr Hrc X E Hf) as (F1 & F2 & F3).
  - by split.
  - done.
Defined.

(** The state of a request before its handler runs: no hook, empty slabs, nothing sent. *)
Definition fresh_request {W} `{Sender W} (kp : bool) (mv : Z) (ho : bool) (base : bytes) (c : ctx W) : Prop :=
  on_head c = None /\ filter c = None /\ steady kp mv ho c /\ (Z.of_nat (cap (out c)) <= UINT32_MAX)%Z /\
  slab_ok (coded c) /\ len (coded c) = 0 /\ unstarted base c [].

Lemma compress_going {W} `{Sender W} kp mv ho base (c : ctx W) t : fresh_request kp mv ho base c -> thread_ok t ->
  going kp mv ho base (ioxd_compress b cfg t id c) [].
Proof.
  intros (Hh & Hf & Hst & Ho & Hco & Hl & Hun) Ht. unfold ioxd_compress, ioxd_on_head, id. pose proof Hun as (Hs & _).
  destruct (ioxd_req_header (req c) (lit "accept-encoding")) as [v|]; [|left; split; [done|by left]]. rewrite Hs. cbn [snd].
  destruct ho eqn:Eho; [left|right].
  - split; [|by left]. destruct Hst as [T1 T2 T3 T4 T5 T6]. split; try done. split; [done|right]. apply T2.
  - split; [done|]. left. split; [exists t; by split|]. split; [done|]. split; [done|]. split; [done|]. split; [done|]. split; [|done].
    destruct Hst as [T1 T2 T3 T4 T5 T6]. split; try done. by split; [|left].
Qed.

(** C9. A client reads back what the handler wrote. For a request served behind the middleware, on a thread with
sound pools, and any sequence of a handler's calls, the calls and the end of the reply return once the fuel
is enough; unless the reply failed, the wire holds one head and the body it announces, and that body is the
data the handler wrote as it is, or - when a coder filters the reply - a whole brotli or gzip coding that
decodes to it, whatever was flushed in between and however small the slabs are. *)
Theorem compressed_reply_decodes {W} `{Sender W, !SenderLaws W} kp mv ho base (c : ctx W) t os :
  fresh_request kp mv ho base c -> thread_ok t -> Forall reply_op_ok os ->
  exists N, forall fuel, N <= fuel -> exists D c1 ok c2,
    ioxd_compress b cfg t (reply_run fuel os) c = Some (D, c1) /\ finish fuel c1 = Some (ok, c2) /\
    if ok then exists E, finished kp mv ho base c2 E /\
      match filter c2 with
      | None => E = D
      | Some f => no_body c2 = true \/ match knd f with KIND_BR => br_decodes E D | KIND_GZIP => z_decodes E D end
      end
    else failed (res c2) = true.
Proof.
  intros Hc Ht Hos. pose proof (compress_going _ _ _ _ c t Hc Ht) as Hg.
  destruct (reply_run_going kp mv ho base os _ [] Hos (or_intror Hg)) as ([D c1] & H1' & N & HN).
  destruct (finish_going kp mv ho base c1 D H1') as ([ok c2] & H2' & M & HM). exists (N + M). intros fuel Hf. exists D, c1, ok, c2.
  split; [apply HN; lia|]. split; [apply HM; lia|]. exact H2'.
Qed.
End Through.

(** ** On concrete encoders

    They copy; the first asks for a block of 100 bytes when made and gives it back at the end. *)
Definition copied (i : bytes) (room : nat) : nat := Nat.min (length i) room.
Definition above (l : list (Z * Z)) : Z := foldr (fun b m => Z.max (b.1 + b.2) m) 1%Z l.

Definition copiers : Encoders :=
  {| BrState := Z * bool; ZState := bool;
     br_create := MAlloc 100 (fun a => MRet (if (a =? 0)%Z then None else Some (a, false)));
     br_params st _ _ _ := st;
     br_stream st op i room := MRet (true, length i - copied i room, take room i, (st.1, match op with BROTLI_OPERATION_FINISH => length i <=? room | _ => false end));
     br_more _ := false; br_finished st := st.2;
     br_destroy st := MFree st.1 (MRet tt);
     z_init _ := Some false; z_reset _ := false;
     z_deflate st i room fl := (match fl with Z_FINISH => if length i <=? room then Z_STREAM_END else 0%Z | _ => 0%Z end, length i - copied i room, take room i, st);
     malloc l n := if (above l + n <=? 2 ^ 63)%Z then above l else 0%Z |}.

Lemma above_all l : (1 <= above l)%Z /\ Forall (fun b => (b.1 + b.2 <= above l)%Z) l.
Proof.
  induction l as [|b l [IH1 IH2]]; [by split|]. change (above (b :: l)) with (Z.max (b.1 + b.2) (above l)).
  split; [lia|]. constructor; [lia|]. eapply Forall_impl; [exact IH2|]. intros x Hx. cbn in Hx. lia.
Qed.

Lemma copied_moves i room : length i - (length i - copied i room) = copied i room /\ take (copied i room) i = take room i /\
  moved (copied i room) (take room i) + length (drop (copied i room) i) <= length i.
Proof.
  unfold copied. split; [lia|]. split; [apply take_min|]. unfold moved. rewrite length_take, length_drop.
  destruct (Nat.eqb_spec (Nat.min (length i) room) 0), (Nat.eqb_spec (Nat.min room (length i)) 0); cbn [andb]; lia.
Qed.

#[local] Instance copiers_laws : @EncoderLaws copiers.
Proof.
  refine (@Build_EncoderLaws copiers _ (fun st owned => st.1 <> 0%Z /\ owned = [(st.1, 100%Z)]) (fun E D => E = D) (fun _ X E => E = X) (fun _ _ i => length i)
    _ _ _ (fun E D => E = D) (fun _ X E => E = X) (fun _ _ i => length i) _ _).
  - intros l n a Hm Ha Hn. cbn in Hm. destruct (above_all l) as [A1 A2]. destruct (Z.leb_spec (above l + n) (2 ^ 63)); [|done]. subst a. split; [lia|]. split; [lia|].
    eapply Forall_impl; [exact A2|]. intros b Hb. unfold apart. cbn in *. lia.
  - cbn. split; [lia|]. split; [done|]. intros a Ha. by destruct (Z.eqb_spec a 0).
  - intros st op i room owned Hho. cbn. destruct (copied_moves i room) as (C1 & C2 & C3). split; [done|]. split; [lia|]. split; [rewrite length_take; lia|].
    intros _ X E ->. rewrite C1, C2. split; [done|]. split; [done|]. intros _ _ _ Hz. unfold copied in *. by rewrite take_ge by lia.
  - intros st owned [Ha ->]. split; [done|]. cbn. destruct (Z.eqb_spec st.1 0); [done|]. by rewrite Z.eqb_refl.
  - done.
  - intros st i room fl rc left o st' [= <- <- <- <-]. destruct (copied_moves i room) as (C1 & C2 & C3). split; [lia|]. split; [rewrite length_take; lia|].
    intros _ X E ->. cbv zeta. rewrite C1, C2. split; [done|]. split; [done|]. intros _ Hz. unfold copied in *. by rewrite take_ge by lia.
Defined.

#[local] Existing Instance copiers.
#[local] Existing Instance int_doubles.

Definition both : build := {| IOXD_BROTLI := true; IOXD_ZLIB := true |}.
Definition new_thread : thread := {| tl_free := fun _ => []; grants := [true; true; true] |}.
Definition takes_gzip : ioxd_request := get_request [(Some (lit "accept-encoding"), lit "br;q=0, gzip")].

Lemma new_thread_ok : thread_ok new_thread.
Proof. intros k. constructor. Qed.

(** Two coders on one thread: brotli is made, runs in its arena, and is pooled with its arena and nothing else. *)
Example coders_ex :
  match act both g_cfg (Take KIND_BR 0) (new_thread, []) with
  | Some w => match act both g_cfg (Run 0 (lit "some text") 4 IOXD_FILTER_FINISH) w with
    | Some w => match act both g_cfg (Give 0) w with
      | Some (t, []) => map (fun c : coder => (arena c, arena_cap c, arena_used c, arena_peak c, held c)) (tl_free t KIND_BR)
      | _ => [] end | None => [] end | None => [] end = [(1, 1048576, 0, 112, [])]%Z.
Proof. vm_compute. reflexivity. Qed.

Lemma coders_stay_sound_witness : exists w', act both g_cfg (Take KIND_BR 4096) (new_thread, []) = Some w' /\ work_ok both w'.
Proof. apply (coders_stay_sound both g_cfg (Take KIND_BR 4096) (new_thread, [])); [split; [exact new_thread_ok|constructor]|reflexivity]. Defined.

(** A page of three hundred bytes for a client that takes gzip. *)
Definition page : ioxd_response := (ioxd_content_type (init_response arena0) (Some (lit "text/html"))).2.

Lemma page_roomy : roomy page.
Proof.
  split; [|split; [reflexivity|split; vm_compute; lia]].
  destruct (ioxd_content_type (init_response arena0) (Some (lit "text/html"))) as [ok r] eqn:E. unfold page. rewrite E.
  apply (content_type_ok (init_response arena0) (Some (lit "text/html")) ok r); [by apply head_ok_init|exact E].
Qed.


(** A client that refuses br and takes gzip gets gzip, and the head says so. *)
Example gzip_ex :
  match decide both g_cfg false takes_gzip page 300 true new_thread with
  | Some (r, Some c, _) => Some (knd c, fields r)
  | _ => None end = Some (KIND_GZIP, [vary_field; coding_field KIND_GZIP]).
Proof. vm_compute. reflexivity. Qed.

(** A reply whose handler set fifteen fields: Vary takes the last place, the field that names the coding is
    refused and its refusal not looked at, and the body goes out coded all the same. *)
Definition fifteen : list head_op :=
  map (fun n => OHeader (Some [ch "x"; 97 + Z.of_nat n]%Z) (Some (lit "1"))) (seq 0 15).

Lemma coding_left_unnamed :
  match decide both g_cfg false takes_gzip (head_run fifteen page) 300 true new_thread with
  | Some (r, Some c, _) => Some (knd c, has_header r (lit "content-encoding"), length (fields r))
  | _ => None end = Some (KIND_GZIP, false, 16).
Proof. vm_compute. reflexivity. Qed.

Lemma compressed_reply_decodes_witness : exists N, forall fuel, N <= fuel -> exists D c1 ok c2,
  ioxd_compress both g_cfg new_thread (reply_run (H := calm) (H0 := compress_hooks both g_cfg) fuel [RWrite (lit "hello, there"); RFlush])
    (open_reply (H := compress_hooks both g_cfg) takes_gzip None) = Some (D, c1) /\
  finish (H := calm) fuel c1 = Some (ok, c2) /\
  if ok then exists E, finished (H := calm) true 1 false [] c2 E /\
    match filter c2 with
    | None => E = D
    | Some f => no_body c2 = true \/ match knd f with KIND_BR => br_decodes E D | KIND_GZIP => z_decodes E D end
    end
  else failed (res c2) = true.
Proof.
  apply (compressed_reply_decodes both g_cfg (H2 := calm) true 1 false []); [|exact new_thread_ok|repeat constructor].
  destruct (@open_steady (compress_hooks both g_cfg) [(Some (lit "accept-encoding"), lit "br;q=0, gzip")] None) as [Hs Hu].
  split; [reflexivity|]. split; [reflexivity|]. split; [exact Hs|]. split; [vm_compute; discriminate|]. split; [|split; [reflexivity|exact Hu]].
  split; [split; [split; [reflexivity|cbn; lia..]|reflexivity..]|]. split; [cbn; lia|vm_compute; discriminate].
Defined.
