(* ===== verification/Dates.v ===== *)
(** The dates of lib/http/static.c: a modification time as the IMF-fixdate of a header, and such a date
    read back. [gmtime_r] and [timegm] are the C library's: the proleptic Gregorian calendar. *)
From S2P Require Import Prelude Find Slices Headers.

#[local] Arguments lit : simpl never.
#[local] Open Scope Z_scope.

(** ** The calendar *)

Record tm := { tm_sec : Z; tm_min : Z; tm_hour : Z; tm_mday : Z; tm_mon : Z; tm_year : Z; tm_wday : Z }.

(** The day number of a date, 1970-01-01 being 0; [m] from 1. A year starts in March here, so that the leap
    day is its last. *)
Definition days_from_civil (y m d : Z) : Z :=
  let y := if m <=? 2 then y - 1 else y in
  let era := y / 400 in
  let yoe := y mod 400 in
  let doy := (153 * (if 2 <? m then m - 3 else m + 9) + 2) / 5 + d - 1 in
  era * 146097 + (yoe * 365 + yoe / 4 - yoe / 100 + doy) - 719468.

(** The date within an era of 400 years, from its day [doe]: year, month from 1, day. *)
Definition civil_of_doe (doe : Z) : Z * Z * Z :=
  let yoe := (doe - doe / 1460 + doe / 36524 - doe / 146096) / 365 in
  let doy := doe - (365 * yoe + yoe / 4 - yoe / 100) in
  let mp := (5 * doy + 2) / 153 in
  let m := if mp <? 10 then mp + 3 else mp - 9 in
  (if m <=? 2 then yoe + 1 else yoe, m, doy - (153 * mp + 2) / 5 + 1).

Definition gmtime (t : Z) : tm :=
  let days := t / 86400 in
  let rem := t mod 86400 in
  let '(y, m, d) := civil_of_doe ((days + 719468) mod 146097) in
  {| tm_sec := rem mod 60; tm_min := rem / 60 mod 60; tm_hour := rem / 3600; tm_mday := d; tm_mon := m - 1;
     tm_year := (days + 719468) / 146097 * 400 + y - 1900; tm_wday := (days + 4) mod 7 |}.

(** Fields out of their range carry over. *)
Definition timegm (b : tm) : Z :=
  (days_from_civil (tm_year b + 1900) (tm_mon b + 1) 1 + tm_mday b - 1) * 86400 + tm_hour b * 3600 + tm_min b * 60 + tm_sec b.

(** ** Written and read *)

Definition days : list bytes := [lit "Sun"; lit "Mon"; lit "Tue"; lit "Wed"; lit "Thu"; lit "Fri"; lit "Sat"].
Definition months : list bytes := [lit "Jan"; lit "Feb"; lit "Mar"; lit "Apr"; lit "May"; lit "Jun"; lit "Jul"; lit "Aug"; lit "Sep"; lit "Oct"; lit "Nov"; lit "Dec"].

(** printf's [%0wd]. *)
Definition zeros (w : nat) (d : bytes) : bytes := replicate (w - length d) (ch "0") ++ d.
Definition pad (w : nat) (v : Z) : bytes := if v <? 0 then ch "-" :: zeros (w - 1) (put_uint (- v)) else zeros w (put_uint v).

Definition date_text (b : tm) : bytes :=
  nth (Z.to_nat (tm_wday b)) days [] ++ lit ", " ++ pad 2 (tm_mday b) ++ lit " " ++ nth (Z.to_nat (tm_mon b)) months [] ++ lit " " ++
  pad 4 (tm_year b + 1900) ++ lit " " ++ pad 2 (tm_hour b) ++ lit ":" ++ pad 2 (tm_min b) ++ lit ":" ++ pad 2 (tm_sec b) ++ lit " GMT".

(** What [snprintf] leaves in [cap] bytes, the NUL apart. *)
Definition http_date (cap : nat) (t : Z) : bytes := take (cap - 1) (date_text (gmtime t)).

Fixpoint number_loop (p : bytes) (v : Z) : option Z :=
  match p with
  | [] => Some v
  | c :: p => if (c <? ch "0") || (ch "9" <? c) then None else number_loop p (v * 10 + (c - ch "0"))
  end.
Definition number (p : bytes) : option Z := number_loop p 0.

(** The last month of that name, or -1. *)
Fixpoint month_loop (name : bytes) (ms : list bytes) (i month : Z) : Z :=
  match ms with [] => month | m :: ms => month_loop name ms (i + 1) (if beq name m then i else month) end.

Definition parse_date (s : bytes) : option Z :=
  let s := ioxd_slice_trim s in
  let at_ i := nth i s 0 in
  if negb (length s =? 29)%nat || negb (at_ 3%nat =? ch ",") || negb (at_ 4%nat =? ch " ") || negb (at_ 7%nat =? ch " ") || negb (at_ 11%nat =? ch " ")
     || negb (at_ 16%nat =? ch " ") || negb (at_ 19%nat =? ch ":") || negb (at_ 22%nat =? ch ":") || negb (beq (span s 25 4) (lit " GMT")) then None
  else
    let month := month_loop (span s 8 3) months 0 (-1) in
    if month <? 0 then None
    else
      d ← number (span s 5 2); y ← number (span s 12 4); h ← number (span s 17 2); mi ← number (span s 20 2); sec ← number (span s 23 2);
      let t := timegm {| tm_sec := sec; tm_min := mi; tm_hour := h; tm_mday := d; tm_mon := month; tm_year := y - 1900; tm_wday := 0 |} in
      if t =? -1 then None else Some t.

(** The entity tag and the date of a file, by its size and modification time. *)
Definition stamp (size sec nsec : Z) (etag_cap modified_cap : nat) : bytes * bytes :=
  let mtime := wrap64 (wrap64 (wrap64 sec * 1000000000) + wrap64 nsec) in
  (take (etag_cap - 1) ([34] ++ put_hex (wrap64 size) ++ lit "-" ++ put_hex mtime ++ [34]), http_date modified_cap sec).

Example epoch : http_date 32 0 = lit "Thu, 01 Jan 1970 00:00:00 GMT".
Proof. reflexivity. Qed.
Example leap_day : (http_date 32 951782400, parse_date (lit "  Tue, 29 Feb 2000 00:00:00 GMT")) = (lit "Tue, 29 Feb 2000 00:00:00 GMT", Some 951782400).
Proof. reflexivity. Qed.

(** ** The calendar's two ways agree *)

Lemma year_of_era doe : 0 <= doe < 146097 -> let yoe := (doe - doe / 1460 + doe / 36524 - doe / 146096) / 365 in
  0 <= yoe < 400 /\ 0 <= doe - (365 * yoe + yoe / 4 - yoe / 100) < 366.
Proof. intros Hd. cbv zeta. Z.to_euclidean_division_equations. lia. Qed.

Lemma day_of_year doy : 0 <= doy < 366 -> let mp := (5 * doy + 2) / 153 in 0 <= mp < 12 /\ 0 <= doy - (153 * mp + 2) / 5 < 31.
Proof. intros Hd. cbv zeta. Z.to_euclidean_division_equations. lia. Qed.

Lemma era_day doe y m d : 0 <= doe < 146097 -> civil_of_doe doe = (y, m, d) -> 1 <= m <= 12 /\ 1 <= d <= 31 /\ 0 <= y <= 400 /\ days_from_civil y m d = doe - 719468.
Proof.
  intros Hd. unfold civil_of_doe, days_from_civil. cbv zeta. pose proof (year_of_era doe Hd) as [Hy Hdoy]. cbv zeta in Hdoy.
  set (yoe := (doe - doe / 1460 + doe / 36524 - doe / 146096) / 365) in *. set (doy := doe - (365 * yoe + yoe / 4 - yoe / 100)) in *.
  pose proof (day_of_year doy Hdoy) as [Hmp Hday]. cbv zeta in Hday. set (mp := (5 * doy + 2) / 153) in *. intros [= <- <- <-].
  destruct (Z.ltb_spec mp 10) as [Hm|Hm].
  - rewrite (proj2 (Z.leb_gt (mp + 3) 2)), (proj2 (Z.ltb_lt 2 (mp + 3))) by lia. rewrite (Z.div_small yoe 400), (Z.mod_small yoe 400) by lia. replace (mp + 3 - 3) with mp by lia.
    unfold doy at 2. repeat split; lia.
  - rewrite (proj2 (Z.leb_le (mp - 9) 2)), (proj2 (Z.ltb_ge 2 (mp - 9))) by lia. rewrite Z.add_simpl_r, (Z.div_small yoe 400), (Z.mod_small yoe 400) by lia.
    replace (mp - 9 + 9) with mp by lia. unfold doy at 2. repeat split; lia.
Qed.

Lemma days_shift era y m d : days_from_civil (era * 400 + y) m d = era * 146097 + days_from_civil y m d.
Proof.
  unfold days_from_civil. set (k := if m <=? 2 then y - 1 else y). replace (if m <=? 2 then era * 400 + y - 1 else era * 400 + y) with (k + era * 400) by (unfold k; destruct (m <=? 2); lia).
  rewrite Z.div_add, Z.mod_add by lia. lia.
Qed.

Lemma days_mday y m d : days_from_civil y m d = days_from_civil y m 1 + d - 1.
Proof. unfold days_from_civil. lia. Qed.

Record tm_ok (b : tm) : Prop := {
  sec_ok : 0 <= tm_sec b < 60; min_ok : 0 <= tm_min b < 60; hour_ok : 0 <= tm_hour b < 24; mday_ok : 1 <= tm_mday b <= 31;
  mon_ok : 0 <= tm_mon b < 12; wday_ok : 0 <= tm_wday b < 7
}.

Lemma gmtime_spec t : tm_ok (gmtime t) /\ timegm (gmtime t) = t.
Proof.
  unfold gmtime. set (dd := t / 86400). set (rem := t mod 86400). assert (Hr : 0 <= rem < 86400) by (apply Z.mod_pos_bound; lia).
  assert (Ht : t = 86400 * dd + rem) by (apply Z.div_mod; lia). set (era := (dd + 719468) / 146097). set (doe := (dd + 719468) mod 146097).
  assert (Hdoe : 0 <= doe < 146097) by (apply Z.mod_pos_bound; lia). assert (He : dd + 719468 = 146097 * era + doe) by (apply Z.div_mod; lia).
  destruct (civil_of_doe doe) as [[y m] d] eqn:E. destruct (era_day _ _ _ _ Hdoe E) as (Hm & Hd & Hy & Hdays).
  assert (Hh : 0 <= rem / 3600 < 24) by (split; [apply Z.div_pos; lia|apply Z.div_lt_upper_bound; lia]).
  split; [split; cbn; try lia; try (apply Z.mod_pos_bound; lia)|]. unfold timegm. cbn [tm_sec tm_min tm_hour tm_mday tm_mon tm_year].
  replace (era * 400 + y - 1900 + 1900) with (era * 400 + y) by lia. replace (m - 1 + 1) with m by lia. rewrite days_shift.
  rewrite (days_mday y m d) in Hdays. pose proof (Z.div_mod rem 60 ltac:(lia)). pose proof (Z.div_mod (rem / 60) 60 ltac:(lia)) as H60. rewrite Z.div_div in H60 by lia.
  change (60 * 60) with 3600 in H60. lia.
Qed.

(** The years a four-digit field holds. *)
Definition YEAR_0 : Z := -62167219200.
Definition YEAR_10000 : Z := 253402300800.


(** ** The text *)

Fixpoint all_from (f : Z -> bool) (n : nat) (z : Z) : bool := match n with O => true | S n => f z && all_from f n (z + 1) end.

Lemma all_from_spec f n z x : all_from f n z = true -> z <= x < z + Z.of_nat n -> f x = true.
Proof.
  revert z. induction n as [|n IH]; intros z Ha Hx; [lia|]. cbn [all_from] in Ha. apply andb_true_iff in Ha as [Hz Ha].
  destruct (Z.eq_dec x z) as [->|]; [done|]. apply (IH (z + 1)); [done|lia].
Qed.

Definition digits_ok (w : nat) (v : Z) : bool := (length (pad w v) =? w)%nat && match number (pad w v) with Some x => x =? v | None => false end.

Lemma two_digits : all_from (digits_ok 2) 100 0 = true.
Proof. vm_compute. reflexivity. Qed.
Lemma four_digits : all_from (digits_ok 4) (Z.to_nat 10000) 0 = true.
Proof. vm_compute. reflexivity. Qed.

Lemma digits_spec w v : digits_ok w v = true -> length (pad w v) = w /\ number (pad w v) = Some v.
Proof. unfold digits_ok. intros H. bool_to_prop. split; [done|]. destruct (number (pad w v)); [|done]. f_equal. by apply Z.eqb_eq. Qed.

Lemma trim_id s : no_outer_space s -> ioxd_slice_trim s = s.
Proof.
  intros [Hh Hl]. unfold ioxd_slice_trim. destruct s as [|c s]; [done|]. cbn [trim_front]. rewrite (Hh c eq_refl). change (length (c :: s)) with (S (length s)). cbn [trim_len].
  destruct (lookup_lt_is_Some_2 (c :: s) (length s)) as [x Hx]; [cbn; lia|]. rewrite Hx. rewrite (Hl x) by (by rewrite last_lookup). by apply take_ge.
Qed.

Definition day_ok (d : bytes) : bool := (length d =? 3)%nat && negb (is_space (nth 0 d 0)).
Lemma days_ok : forallb day_ok days = true.
Proof. reflexivity. Qed.

Lemma months_found : forallb (fun i => (length (nth i months []) =? 3)%nat && (month_loop (nth i months []) months 0 (-1) =? Z.of_nat i)) (List.seq 0 12) = true.
Proof. reflexivity. Qed.

Lemma month_of i : 0 <= i < 12 -> length (nth (Z.to_nat i) months []) = 3%nat /\ month_loop (nth (Z.to_nat i) months []) months 0 (-1) = i.
Proof.
  intros Hi. pose proof (proj1 (List.forallb_forall _ _) months_found (Z.to_nat i) (proj2 (in_seq 12 0 (Z.to_nat i)) ltac:(lia))) as Hm. cbv beta in Hm. bool_to_prop. lia.
Qed.

Lemma day_of i : 0 <= i < 7 -> day_ok (nth (Z.to_nat i) days []) = true.
Proof. intros Hi. apply (proj1 (List.forallb_forall _ _) days_ok), nth_In. change (length days) with 7%nat. lia. Qed.

(** A text of the fields, read back field by field. *)
Lemma parse_fields wd d2 mo y4 h2 mi2 s2 d y h mi s m :
  day_ok wd = true -> length d2 = 2%nat -> length mo = 3%nat -> length y4 = 4%nat -> length h2 = 2%nat -> length mi2 = 2%nat -> length s2 = 2%nat ->
  number d2 = Some d -> number y4 = Some y -> number h2 = Some h -> number mi2 = Some mi -> number s2 = Some s -> month_loop mo months 0 (-1) = m -> 0 <= m ->
  let t := timegm {| tm_sec := s; tm_min := mi; tm_hour := h; tm_mday := d; tm_mon := m; tm_year := y - 1900; tm_wday := 0 |} in
  let text := wd ++ lit ", " ++ d2 ++ lit " " ++ mo ++ lit " " ++ y4 ++ lit " " ++ h2 ++ lit ":" ++ mi2 ++ lit ":" ++ s2 ++ lit " GMT" in
  length text = 29%nat /\ parse_date text = if t =? -1 then None else Some t.
Proof.
  intros Hw Ld Lm Ly Lh Lmi Ls Nd Ny Nh Nmi Ns Hm Hm0 t text. unfold day_ok in Hw. apply andb_true_iff in Hw as [Lw Hw]. apply Nat.eqb_eq in Lw.
  destruct wd as [|w1 [|w2 [|w3 [|]]]]; try done. destruct d2 as [|d1' [|d2' [|]]]; try done. destruct mo as [|m1 [|m2 [|m3 [|]]]]; try done.
  destruct y4 as [|y1 [|y2 [|y3 [|y4 [|]]]]]; try done. destruct h2 as [|h1' [|h2' [|]]]; try done. destruct mi2 as [|mi1' [|mi2' [|]]]; try done. destruct s2 as [|s1' [|s2' [|]]]; try done.
  split; [done|]. unfold parse_date. rewrite trim_id by (split; [intros c [= <-]; by apply negb_true_iff|intros c [= <-]; done]).
  change (span text 8 3) with [m1; m2; m3]. change (span text 5 2) with [d1'; d2']. change (span text 12 4) with [y1; y2; y3; y4]. change (span text 17 2) with [h1'; h2'].
  change (span text 20 2) with [mi1'; mi2']. change (span text 23 2) with [s1'; s2']. change (span text 25 4) with (lit " GMT"). rewrite beq_refl.
  change (length text) with 29%nat. cbn [Nat.eqb negb orb nth text app]. rewrite Hm, (proj2 (Z.ltb_ge m 0)) by lia. rewrite Nd, Ny, Nh, Nmi, Ns. reflexivity.
Qed.

(** The last year of an era is its January and February, in the calendar's years. *)
Lemma era_year doe y m d : 0 <= doe < 146097 -> civil_of_doe doe = (y, m, d) -> y = 400 <-> 146037 <= doe.
Proof.
  intros Hd. unfold civil_of_doe. cbv zeta. pose proof (year_of_era doe Hd) as [Hy Hdoy]. cbv zeta in Hdoy.
  set (yoe := (doe - doe / 1460 + doe / 36524 - doe / 146096) / 365) in *. set (doy := doe - (365 * yoe + yoe / 4 - yoe / 100)) in *.
  pose proof (day_of_year doy Hdoy) as [Hmp _]. cbv zeta in Hmp. assert (Hmp' : (5 * doy + 2) / 153 < 10 <-> doy < 306) by (clearbody doy; Z.to_euclidean_division_equations; lia).
  set (mp := (5 * doy + 2) / 153) in *. intros [= <- _ _]. assert (Hdoe : doe = 365 * yoe + yoe / 4 - yoe / 100 + doy) by (unfold doy; lia). clearbody mp doy yoe.
  destruct (Z.ltb_spec mp 10) as [Hm|Hm].
  - rewrite (proj2 (Z.leb_gt (mp + 3) 2)) by lia. Z.to_euclidean_division_equations. lia.
  - rewrite (proj2 (Z.leb_le (mp - 9) 2)) by lia. Z.to_euclidean_division_equations. lia.
Qed.

Lemma days_year t : YEAR_0 <= t < YEAR_10000 -> 0 <= tm_year (gmtime t) + 1900 < 10000.
Proof.
  unfold YEAR_0, YEAR_10000. intros Ht. unfold gmtime. set (dd := t / 86400). assert (Hdd : -719528 <= dd < 2932897) by (unfold dd; Z.to_euclidean_division_equations; lia).
  set (era := (dd + 719468) / 146097). set (doe := (dd + 719468) mod 146097). assert (Hdoe : 0 <= doe < 146097) by (apply Z.mod_pos_bound; lia).
  assert (He : dd + 719468 = 146097 * era + doe) by (apply Z.div_mod; lia). destruct (civil_of_doe doe) as [[y m] d] eqn:E. cbn [tm_year].
  destruct (era_day _ _ _ _ Hdoe E) as (_ & _ & Hy & _). pose proof (era_year _ _ _ _ Hdoe E). lia.
Qed.

Lemma date_text_reads_back b : tm_ok b -> 0 <= tm_year b + 1900 < 10000 ->
  length (date_text b) = 29%nat /\ parse_date (date_text b) = if timegm b =? -1 then None else Some (timegm b).
Proof.
  intros [Hs Hm Hh Hd Ho Hw] Hy. assert (forall v, 0 <= v < 100 -> length (pad 2 v) = 2%nat /\ number (pad 2 v) = Some v) as H2 by (intros v Hv; apply digits_spec, (all_from_spec _ _ _ _ two_digits); lia).
  destruct (digits_spec 4 (tm_year b + 1900)) as [L4 N4]; [apply (all_from_spec _ _ _ _ four_digits); lia|].
  destruct (H2 (tm_mday b) ltac:(lia)) as [Ld Nd]. destruct (H2 (tm_hour b) ltac:(lia)) as [Lh Nh]. destruct (H2 (tm_min b) ltac:(lia)) as [Lm Nm]. destruct (H2 (tm_sec b) ltac:(lia)) as [Ls Ns].
  destruct (month_of _ Ho) as [Lo No]. destruct (parse_fields _ _ _ _ _ _ _ _ _ _ _ _ _ (day_of _ Hw) Ld Lo L4 Lh Lm Ls Nd N4 Nh Nm Ns No ltac:(lia)) as [Hl Hp].
  rewrite Z.add_simpl_r in Hp. split; [exact Hl|exact Hp].
Qed.

(** A modification time of the years 0 to 9999, written as a header's date and read back, is itself:
    29 characters that fit the buffer, and the calendar's conversions inverse to each other; the one
    exception is the second before 1970, whose value timegm also gives for a failure. *)
Theorem http_date_reads_back t : YEAR_0 <= t < YEAR_10000 ->
  length (http_date 32 t) = 29%nat /\ parse_date (http_date 32 t) = if t =? -1 then None else Some t.
Proof.
  intros Ht. destruct (gmtime_spec t) as [Hok Hg]. destruct (date_text_reads_back _ Hok (days_year t Ht)) as [Hl Hp].
  unfold http_date. rewrite take_ge by (rewrite Hl; lia). rewrite Hg in Hp. by split.
Qed.

Lemma http_date_reads_back_witness : (YEAR_0 <= 951868799 < YEAR_10000) /\ parse_date (http_date 32 951868799) = Some 951868799.
Proof. split; [done|]. apply (http_date_reads_back 951868799). done. Defined.
