(* ===== verification/Paths.v ===== *)
(** The names of lib/http/static.c: the request path under a mount as a relative name, the mount itself,
    and the content type a name has. *)
From S2P Require Import Prelude Find Slices.

#[local] Arguments lit : simpl never.
#[local] Arguments Nat.ltb : simpl never.
#[local] Arguments Nat.leb : simpl never.

Definition NAME_CAP : nat := Z.to_nat 1024.

(** ** Content types *)

Definition types : list (bytes * bytes) :=
  [(lit "html", lit "text/html; charset=utf-8"); (lit "htm", lit "text/html; charset=utf-8");
   (lit "css", lit "text/css"); (lit "js", lit "text/javascript");
   (lit "mjs", lit "text/javascript"); (lit "json", lit "application/json");
   (lit "map", lit "application/json"); (lit "webmanifest", lit "application/manifest+json");
   (lit "xml", lit "application/xml"); (lit "txt", lit "text/plain; charset=utf-8");
   (lit "md", lit "text/markdown; charset=utf-8"); (lit "csv", lit "text/csv; charset=utf-8");
   (lit "svg", lit "image/svg+xml"); (lit "png", lit "image/png");
   (lit "jpg", lit "image/jpeg"); (lit "jpeg", lit "image/jpeg");
   (lit "gif", lit "image/gif"); (lit "webp", lit "image/webp");
   (lit "avif", lit "image/avif"); (lit "ico", lit "image/x-icon");
   (lit "woff", lit "font/woff"); (lit "woff2", lit "font/woff2");
   (lit "ttf", lit "font/ttf"); (lit "otf", lit "font/otf");
   (lit "pdf", lit "application/pdf"); (lit "wasm", lit "application/wasm");
   (lit "mp4", lit "video/mp4"); (lit "webm", lit "video/webm");
   (lit "mp3", lit "audio/mpeg"); (lit "ogg", lit "audio/ogg");
   (lit "zip", lit "application/zip"); (lit "gz", lit "application/gzip")].

Fixpoint type_loop (ext : bytes) (ts : list (bytes * bytes)) : bytes :=
  match ts with
  | [] => lit "application/octet-stream"
  | (e, t) :: ts => if ioxd_slice_eq_ci ext e then t else type_loop ext ts
  end.

Definition type_of (name : bytes) : bytes :=
  let after_slash dot := match ioxd_slice_rfind_char name (ch "/") with Some slash => slash <? dot | None => true end in
  match ioxd_slice_rfind_char name (ch ".") with
  | Some dot => if after_slash dot then type_loop (ioxd_slice_from name (dot + 1)) types else lit "application/octet-stream"
  | None => lit "application/octet-stream"
  end.

(** ** A path as a relative name *)

(** The first loop: the path percent-decoded when asked, refused at a NUL. *)
Fixpoint raw_of (decode : bool) (path : bytes) : option bytes :=
  match path with
  | [] => Some []
  | c :: rest =>
      let plain := if (c =? 0)%Z then None else raw ← raw_of decode rest; Some (c :: raw) in
      if decode && (c =? ch "%")%Z then
        match rest with
        | h :: l :: rest' =>
            let hi := ioxd__http_hexval h in
            let lo := ioxd__http_hexval l in
            if (0 <=? hi)%Z && (0 <=? lo)%Z then if (hi * 16 + lo =? 0)%Z then None else raw ← raw_of decode rest'; Some ((hi * 16 + lo)%Z :: raw)
            else plain
        | _ => plain
        end
      else plain
  end.

(** A dot segment, and a hidden name unless those are served. *)
Definition refused (hidden : bool) (seg : bytes) : bool :=
  (nth 0 seg 0 =? ch ".")%Z && (negb hidden || ioxd_slice_eq seg (lit ".") || ioxd_slice_eq seg (lit "..")).

(** The second loop: the segments into [out], empty ones left out. Each round takes at least a byte. *)
Fixpoint segs_loop (fuel : nat) (hidden : bool) (rest out : bytes) : option bytes :=
  if (length rest =? 0)%nat then Some out
  else
    match fuel with
    | 0 => None
    | S fuel =>
        let '(_, seg, rest) := ioxd_slice_cut rest (ch "/") in
        if (length seg =? 0)%nat then segs_loop fuel hidden rest out
        else if refused hidden seg then None
        else segs_loop fuel hidden rest ((if (length out =? 0)%nat then out else out ++ [ch "/"]) ++ seg)
    end.

Definition resolve (hidden : bool) (index : bytes) (path : bytes) (decode : bool) : option bytes :=
  if NAME_CAP <=? length path then None
  else
    raw ← raw_of decode path;
    let dir := match last raw with None => true | Some c => (c =? ch "/")%Z end in
    out ← segs_loop (length raw) hidden raw [];
    out ← (if dir then
             if (length index =? 0) || (NAME_CAP <=? length out + 1 + length index) then None
             else Some ((if (length out =? 0)%nat then out else out ++ [ch "/"]) ++ index)
           else Some out);
    if 0 <? length out then Some out else None.

(** ** The mount *)

Fixpoint strip_front (s : bytes) : bytes :=
  match s with c :: s' => if (c =? ch "/")%Z then strip_front s' else s | [] => [] end.
Fixpoint strip_len (s : bytes) (len : nat) : nat :=
  match len with 0 => 0 | S k => if (nth k s 0 =? ch "/")%Z then strip_len s k else len end.

(** The store's copy of it: one slash in front and none behind, or nothing. *)
Definition mount_of (mount : option bytes) : bytes :=
  let s := match mount with Some m => m | None => [] end in
  let s := strip_front s in
  let s := take (strip_len s (length s)) s in
  if (length s =? 0)%nat then [] else ch "/" :: s.

(** The path below the mount, or none: not the store's. *)
Definition below (mount path : bytes) : option bytes :=
  if (length path <? length mount) || negb (beq (take (length mount) path) mount) then None
  else if (length mount <? length path) && negb (nth (length mount) path 0 =? ch "/")%Z then None
  else Some (ioxd_slice_from path (length mount)).

Example resolve_ex : (resolve false (lit "index.html") (lit "/a//b%20c/") true, resolve false (lit "index.html") (lit "/%2e%2e/passwd") true,
    resolve true (lit "index.html") (lit "/.well-known/x") true, resolve false [] (lit "/") true) =
  (Some (lit "a/b c/index.html"), None, Some (lit ".well-known/x"), None).
Proof. reflexivity. Qed.
Example mount_ex : (mount_of (Some (lit "//static/")), mount_of None, below (lit "/static") (lit "/static/x"), below (lit "/static") (lit "/statics")) =
  (lit "/static", [], Some (lit "/x"), None).
Proof. reflexivity. Qed.
Example type_ex : (type_of (lit "a.b/c"), type_of (lit "x/Page.HTML"), type_of (lit "a.tar.gz")) = (lit "application/octet-stream", lit "text/html; charset=utf-8", lit "application/gzip").
Proof. reflexivity. Qed.

(** ** What a resolved name is *)

(** A name of the directory served: not empty, of one level, no NUL, neither the directory itself nor its parent, and
    not hidden unless those are served. *)
Record safe_seg (hidden : bool) (seg : bytes) : Prop := {
  ss_some : seg <> []; ss_level : ch "/" ∉ seg; ss_nul : 0%Z ∉ seg; ss_dots : seg <> lit "." /\ seg <> lit "..";
  ss_hidden : hidden = false -> nth 0 seg 0%Z <> ch "."
}.

(** The specification: the decoded path's segments, the empty ones left out. *)
Definition path_segs (raw : bytes) : list bytes := List.filter nonempty (split_at (ch "/") raw).
Definition is_dir (raw : bytes) : bool := match last raw with None => true | Some c => (c =? ch "/")%Z end.

Lemma slice_eq_beq s t : ioxd_slice_eq s t = beq s t.
Proof.
  unfold ioxd_slice_eq. destruct (Nat.eqb_spec (length t) (length s)) as [Hl|Hl]; cbn [andb].
  - destruct (Nat.eqb_spec (length t) 0) as [H0|H0]; cbn [orb]; [|done]. destruct t; [|done]. destruct s; [|done]. done.
  - symmetry. apply beq_false. by intros ->.
Qed.

Lemma refused_spec hidden seg : seg <> [] -> ch "/" ∉ seg -> 0%Z ∉ seg -> refused hidden seg = false <-> safe_seg hidden seg.
Proof.
  intros Hs Hl Hn. unfold refused. rewrite !slice_eq_beq. split.
  - intros Hr. split; [done..| |].
    + split; intros ->; [change (nth 0 (lit ".") 0%Z) with (ch ".") in Hr|change (nth 0 (lit "..") 0%Z) with (ch ".") in Hr]; rewrite Z.eqb_refl, beq_refl, ?orb_true_r in Hr; discriminate Hr.
    + intros -> Hd. by rewrite Hd, Z.eqb_refl in Hr.
  - intros [_ _ _ [Hd Hdd] Hh]. apply andb_false_iff. destruct (Z.eqb_spec (nth 0 seg 0%Z) (ch ".")) as [Hdot|]; [|by left]. right.
    destruct hidden; [|by specialize (Hh eq_refl)]. cbn [negb orb]. apply orb_false_iff. by rewrite !beq_false.
Qed.

Lemma path_segs_cut raw : path_segs raw = let '(b, seg, rest) := ioxd_slice_cut raw (ch "/") in (if nonempty seg then [seg] else []) ++ (if b then path_segs rest else []).
Proof.
  pose proof (slice_cut_split raw (ch "/")) as Hs. destruct (ioxd_slice_cut raw (ch "/")) as [[[] seg] rest]; unfold path_segs; rewrite Hs; cbn [List.filter]; by destruct (nonempty seg).
Qed.

Lemma segs_loop_spec hidden : forall fuel rest out, 0%Z ∉ rest -> length rest <= fuel ->
  segs_loop fuel hidden rest out = if existsb (refused hidden) (path_segs rest) then None
    else Some (fold_left (fun out seg => (if (length out =? 0)%nat then out else out ++ [ch "/"]) ++ seg) (path_segs rest) out).
Proof.
  induction fuel as [|fuel IH]; intros rest out Hn Hf.
  - destruct rest; [|cbn in Hf; lia]. done.
  - cbn [segs_loop]. destruct (Nat.eqb_spec (length rest) 0) as [H0|H0]; [by destruct rest|]. rewrite (path_segs_cut rest). pose proof (slice_cut_spec rest (ch "/")) as Hc.
    destruct (ioxd_slice_cut rest (ch "/")) as [[b seg] rest'] eqn:E. assert (Hr : 0%Z ∉ rest' /\ length rest' <= fuel /\ (b = false -> rest' = [])).
    { destruct b; [destruct Hc as [-> _]; split; [set_solver|split; [list_lia|done]]|destruct Hc as (_ & -> & _); split; [set_solver|split; [cbn; lia|done]]]. }
    destruct Hr as (Hn' & Hl & Hb). assert (Hps : (if b then path_segs rest' else []) = path_segs rest') by (destruct b; [done|by rewrite Hb]). rewrite Hps.
    unfold nonempty. destruct (length seg =? 0)%nat; cbn [negb app existsb fold_left]; [by apply IH|]. destruct (refused hidden seg); cbn [orb]; [done|]. by apply IH.
Qed.

Lemma fold_segs segs : Forall (fun s => s <> []) segs -> forall out, out <> [] ->
  fold_left (fun out seg => (if (length out =? 0)%nat then out else out ++ [ch "/"]) ++ seg) segs out = out ++ concat (map (app [ch "/"]) segs).
Proof.
  induction 1 as [|seg segs Hs _ IH]; intros out Ho; cbn [fold_left map concat]; [by rewrite app_nil_r|].
  rewrite (proj2 (Nat.eqb_neq (length out) 0)) by (by destruct out). rewrite IH by (by destruct out). rewrite <- !app_assoc. done.
Qed.

Lemma join_segs segs : Forall (fun s => s <> []) segs ->
  fold_left (fun out seg => (if (length out =? 0)%nat then out else out ++ [ch "/"]) ++ seg) segs [] = join_with [ch "/"] segs.
Proof. intros Hs. destruct Hs as [|seg segs Hs Hss]; [done|]. cbn [fold_left]. change (length [] =? 0)%nat with true. cbn [app]. by rewrite fold_segs. Qed.

Lemma path_segs_nonempty raw : Forall (fun s => s <> []) (path_segs raw).
Proof. apply List.Forall_forall. intros s [_ Hs]%filter_In. unfold nonempty in Hs. by destruct s. Qed.

Lemma split_at_parts sep l : Forall (fun s => sep ∉ s /\ forall c, c ∈ s -> c ∈ l) (split_at sep l).
Proof.
  induction l as [|c l IH]; cbn [split_at]; [repeat constructor; set_solver|]. destruct (Z.eqb_spec c sep) as [->|Hc].
  - constructor; [set_solver|]. eapply List.Forall_impl; [|exact IH]. intros s [? ?]. split; [done|]. set_solver.
  - destruct (split_at sep l) as [|h t] eqn:E; [constructor; [set_solver|constructor]|]. inversion IH as [|?? [Hh Hin] Ht]; subst. constructor; [set_solver|].
    eapply List.Forall_impl; [|exact Ht]. intros s [? ?]. split; [done|]. set_solver.
Qed.

Lemma raw_of_nul decode path : forall raw, raw_of decode path = Some raw -> 0%Z ∉ raw /\ length raw <= length path.
Proof.
  assert (Hall : forall n path raw, length path <= n -> raw_of decode path = Some raw -> 0%Z ∉ raw /\ length raw <= length path); [|intros raw; by apply (Hall (length path))].
  induction n as [|n IH]; intros [|c rest] raw Hn Hr; [injection Hr as <-; split; [set_solver|done]|cbn in Hn; lia|injection Hr as <-; split; [set_solver|done]|].
  cbn [raw_of] in Hr. cbn [length] in Hn. assert (Hplain : (if (c =? 0)%Z then None else r ← raw_of decode rest; Some (c :: r)) = Some raw -> 0%Z ∉ raw /\ length raw <= length (c :: rest)).
  { destruct (Z.eqb_spec c 0) as [->|Hc]; [done|]. destruct (raw_of decode rest) as [r|] eqn:E; [|done]. intros [= <-]. destruct (IH rest r ltac:(lia) E). split; [set_solver|cbn; lia]. }
  destruct (decode && (c =? ch "%")%Z); [|auto]. destruct rest as [|h [|l rest']]; [auto..|]. destruct (_ && _)%bool; [|auto].
  destruct (Z.eqb_spec (ioxd__http_hexval h * 16 + ioxd__http_hexval l) 0) as [|Hne]; [done|]. destruct (raw_of decode rest') as [r|] eqn:E; [|done]. injection Hr as <-.
  destruct (IH rest' r ltac:(cbn in Hn; lia) E). split; [set_solver|cbn; lia].
Qed.

Lemma resolve_spec hidden index path decode : resolve hidden index path decode =
  if NAME_CAP <=? length path then None
  else match raw_of decode path with
       | None => None
       | Some raw =>
           if existsb (refused hidden) (path_segs raw) then None
           else if is_dir raw then if (length index =? 0) || (NAME_CAP <=? length (join_with [ch "/"] (path_segs raw)) + 1 + length index) then None
                                   else Some (join_with [ch "/"] (path_segs raw ++ [index]))
           else Some (join_with [ch "/"] (path_segs raw))
       end.
Proof.
  unfold resolve. case_test; [done|]. destruct (raw_of decode path) as [raw|] eqn:Er; [|done]. cbn [mbind option_bind]. destruct (raw_of_nul _ _ _ Er) as [Hn _].
  rewrite segs_loop_spec by done. destruct (existsb _ _); [done|]. cbn [mbind option_bind]. rewrite join_segs by apply path_segs_nonempty. fold (is_dir raw).
  assert (Hnil : forall l, Forall (fun s : bytes => s <> []) l -> length (join_with [ch "/"] l) = 0 <-> l = []).
  { intros l Hl. destruct Hl as [|s l Hs _]; [done|]. destruct s; done. }
  specialize (Hnil _ (path_segs_nonempty raw)). destruct (is_dir raw) eqn:Ed.
  - destruct ((length index =? 0) || _) eqn:Ei; [done|]. cbn [mbind option_bind]. apply orb_false_iff in Ei as [Hi _]. apply Nat.eqb_neq in Hi.
    rewrite (proj2 (Nat.ltb_lt 0 _)) by (rewrite length_app; lia). f_equal. rewrite join_snoc. destruct (Nat.eqb_spec (length (join_with [ch "/"] (path_segs raw))) 0) as [Hz|Hz].
    + apply Hnil in Hz. rewrite Hz. done.
    + rewrite bool_decide_false by tauto. by rewrite <- app_assoc.
  - cbn [mbind option_bind]. destruct (Nat.ltb_spec 0 (length (join_with [ch "/"] (path_segs raw)))) as [|Hz]; [done|]. exfalso.
    assert (Hz' : path_segs raw = []) by (apply Hnil; lia). clear - Hz' Ed. unfold is_dir in Ed. destruct (last raw) as [c|] eqn:El; [|done]. apply Z.eqb_neq in Ed.
    apply last_Some in El as [l ->]. assert (Hlast : exists s, last (split_at (ch "/") (l ++ [c])) = Some (s ++ [c])).
    { clear Hz'. induction l as [|x l [s IH]]; cbn [app split_at]; [rewrite (proj2 (Z.eqb_neq c (ch "/"))) by done; by exists []|].
      destruct (x =? ch "/")%Z; [exists s; by rewrite last_cons, IH|]. destruct (split_at (ch "/") (l ++ [c])) as [|h t] eqn:Es; [done|].
      destruct t as [|h2 t]; [injection IH as ->; by exists (x :: s)|]. exists s. by rewrite last_cons_cons in *. }
    destruct Hlast as [s Hlast]. apply last_Some in Hlast as [l' Hl']. unfold path_segs in Hz'. rewrite Hl', List.filter_app in Hz'. apply app_eq_nil in Hz' as [_ Hz']. cbn in Hz'. unfold nonempty in Hz'.
    rewrite length_app in Hz'. cbn [length] in Hz'. by rewrite Nat.add_1_r in Hz'.
Qed.

Definition total (l : list bytes) : nat := fold_right (fun s n => S (length s) + n) 0 l.

Lemma total_cons s l : total (s :: l) = S (length s) + total l.
Proof. done. Qed.

Lemma total_join l : length (join_with [ch "/"] l) <= total l - 1.
Proof.
  destruct l as [|s l]; [done|]. cbn [join_with]. rewrite length_app, total_cons. enough (length (concat (map (app [ch "/"]) l)) = total l) by lia.
  induction l as [|t l IH]; [done|]. cbn [map concat]. rewrite length_app, total_cons, IH. cbn. lia.
Qed.

Lemma total_split sep l : total (split_at sep l) = S (length l).
Proof.
  induction l as [|c l IH]; [done|]. cbn [split_at]. destruct (c =? sep)%Z; [change (S (total (split_at sep l)) = S (S (length l))); by rewrite IH|].
  destruct (split_at sep l) as [|h t]; [done|]. change (S (total (h :: t)) = S (S (length l))). by rewrite IH.
Qed.

Lemma total_filter f l : total (List.filter f l) <= total l.
Proof. induction l as [|s l IH]; [done|]. cbn [List.filter]. rewrite total_cons. destruct (f s); rewrite ?total_cons; lia. Qed.

Lemma join_path_length raw : length (join_with [ch "/"] (path_segs raw)) <= length raw.
Proof. pose proof (total_join (path_segs raw)). pose proof (total_filter nonempty (split_at (ch "/") raw)) as Hf. rewrite total_split in Hf. unfold path_segs in *. lia. Qed.

Lemma segs_safe hidden raw : 0%Z ∉ raw -> existsb (refused hidden) (path_segs raw) = false <-> Forall (safe_seg hidden) (path_segs raw).
Proof.
  intros Hn. assert (Hseg : forall seg, seg ∈ path_segs raw -> refused hidden seg = false <-> safe_seg hidden seg).
  { intros seg Hin. apply list_elem_of_In, filter_In in Hin as [Hin Hne]. pose proof (proj1 (List.Forall_forall _ _) (split_at_parts (ch "/") raw) seg Hin) as [Hl Hc].
    apply refused_spec; [by destruct seg|done|]. intros H0. by apply Hn, Hc. }
  rewrite <- not_true_iff_false, existsb_exists, Forall_forall. split.
  - intros Hno seg Hin. apply Hseg; [done|]. apply not_true_iff_false. intros Hr. apply Hno. exists seg. by split; [apply list_elem_of_In|].
  - intros Hs (seg & Hin & Hr). apply list_elem_of_In in Hin. specialize (Hs seg Hin). apply Hseg in Hs; [congruence|done].
Qed.

Lemma join_no_nul l : Forall (fun s => 0%Z ∉ s) l -> 0%Z ∉ join_with [ch "/"] l.
Proof.
  intros Hl. destruct Hl as [|s l Hs Hl]; [cbn; set_solver|]. cbn [join_with]. apply not_elem_of_app. split; [done|].
  induction Hl as [|t l Ht Hl IH]; cbn [map concat]; [set_solver|]. rewrite !not_elem_of_app. split; [split; [|done]|done]. intros [E|E]%elem_of_cons; [discriminate E|set_solver].
Qed.

Lemma resolve_some hidden index path decode name : resolve hidden index path decode = Some name -> 0 < length name.
Proof.
  unfold resolve. case_test; [done|]. destruct (raw_of decode path) as [raw|]; [|done]. cbn [mbind option_bind]. destruct (segs_loop _ _ _ _) as [out|]; [|done]. cbn [mbind option_bind].
  match goal with |- (?x ≫= _) = _ -> _ => destruct x as [o|]; [|done] end. cbn [mbind option_bind]. case_test; [|done]. by intros [= <-].
Qed.

Lemma resolve_length hidden index path decode name : resolve hidden index path decode = Some name -> length name < NAME_CAP.
Proof.
  rewrite resolve_spec. case_test; [done|]. destruct (raw_of decode path) as [raw|] eqn:Er; [|done]. destruct (raw_of_nul _ _ _ Er) as [_ Hl]. pose proof (join_path_length raw) as Hj.
  destruct (existsb _ _); [done|]. destruct (is_dir raw); [|intros [= <-]; lia]. destruct ((length index =? 0) || _) eqn:Ei; [done|]. apply orb_false_iff in Ei as [_ Ei]. bool_to_prop.
  intros [= <-]. rewrite join_snoc. destruct (bool_decide _); list_lia.
Qed.

(** C19. A resolved name stays below the directory: shorter than the buffer it is built in and than the calls
    that open it take, without a NUL, its segments joined by single slashes, none of them empty, [.] or [..],
    and none hidden unless those are served; the one segment not from the path is the store's own index, for a
    directory's path. And a path of such segments is never refused. *)
Theorem resolve_stays_below hidden index path decode : 0%Z ∉ index ->
  (forall name, resolve hidden index path decode = Some name ->
     0 < length name < NAME_CAP /\ 0%Z ∉ name /\
     exists segs, Forall (safe_seg hidden) segs /\ (name = join_with [ch "/"] segs \/ name = join_with [ch "/"] (segs ++ [index]) /\ index <> [])) /\
  (forall raw, length path < NAME_CAP -> raw_of decode path = Some raw -> Forall (safe_seg hidden) (path_segs raw) ->
     resolve hidden index path decode = None ->
     is_dir raw = true /\ (index = [] \/ NAME_CAP <= length (join_with [ch "/"] (path_segs raw)) + 1 + length index)).
Proof.
  intros Hi. split.
  - intros name Hr. pose proof (resolve_some _ _ _ _ _ Hr) as Hlen.
    rewrite resolve_spec in Hr. case_test; [done|]. destruct (raw_of decode path) as [raw|] eqn:Er; [|done]. destruct (raw_of_nul _ _ _ Er) as [Hn Hl]. pose proof (join_path_length raw) as Hj.
    destruct (existsb _ _) eqn:Ex; [done|]. apply segs_safe in Ex; [|done]. assert (Hnn : Forall (fun s => 0%Z ∉ s) (path_segs raw)) by (eapply List.Forall_impl; [|exact Ex]; by intros ? []).
    destruct (is_dir raw).
    + destruct ((length index =? 0) || _) eqn:Ei; [done|]. apply orb_false_iff in Ei as [E0 E1]. bool_to_prop. injection Hr as <-. split; [split; [done|]|split; [apply join_no_nul, Forall_app; split; [done|by repeat constructor]|]].
      * rewrite join_snoc. destruct (bool_decide _); list_lia.
      * exists (path_segs raw). split; [done|]. right. split; [done|]. by destruct index.
    + injection Hr as <-. split; [lia|]. split; [by apply join_no_nul|]. exists (path_segs raw). auto.
  - intros raw Hlen Er Hs Hr. rewrite resolve_spec in Hr. rewrite (proj2 (Nat.leb_gt _ _) Hlen), Er in Hr. destruct (raw_of_nul _ _ _ Er) as [Hn _].
    apply segs_safe in Hs; [|done]. rewrite Hs in Hr. destruct (is_dir raw); [|done]. split; [done|]. case_test; [|done]. apply orb_true_iff in E as [E|E]; bool_to_prop; [left; by destruct index|by right].
Qed.

Lemma resolve_stays_below_witness : (0%Z ∉ lit "index.html") /\ exists name, resolve false (lit "index.html") (lit "/a/b/") true = Some name /\ length name < NAME_CAP.
Proof.
  assert (Hi : 0%Z ∉ lit "index.html") by (apply (bool_decide_unpack _); vm_compute; exact I). split; [exact Hi|].
  destruct (resolve_stays_below false (lit "index.html") (lit "/a/b/") true Hi) as [Hs _]. exists (lit "a/b/index.html"). split; [reflexivity|]. by apply (Hs (lit "a/b/index.html") eq_refl).
Defined.
