(* ===== verification/Static.v ===== *)
(** The file server of lib/http/static.c: a resolved name answered from the worker's table or the disk. A
    request is a program of calls - to the reply, the disk, the clock, the allocator and the table - and a
    worker runs many, one at a time, from one suspension to the next: at a read from the disk, and where a
    write to the peer waits. *)
From S2P Require Import Prelude Find Slices Headers Response Reply Dates Paths Accept.
From S2P Require Cache.

#[local] Arguments lit : simpl never.
#[local] Arguments Nat.ltb : simpl never.
#[local] Arguments Nat.leb : simpl never.

Definition PIECE : nat := Z.to_nat 16384.
Definition SUFFIX_MAX : nat := 4.

(** ** Calls *)

Inductive kind := S_IFREG | S_IFDIR | S_IFOTHER.
Record stat := { st_mode : kind; st_dev : Z; st_ino : Z; st_size : Z; st_mtim : Z * Z }.
Definition is_reg (sb : stat) : bool := match st_mode sb with S_IFREG => true | _ => false end.
Definition is_dir_mode (sb : stat) : bool := match st_mode sb with S_IFDIR => true | _ => false end.

(** One call each, with its answer. A file descriptor and an address are numbers; a read that fails or is at
    the end of the file answers [None]. [EFault] is an access outside an object. *)
Inductive ev : Type -> Type :=
| EReply (o : reply_op) : ev bool
| EReserve (n : nat) : ev bool
| EAdvance (d : bytes) : ev unit                 (* what was read into the reserved room *)
| EOpen (name : bytes) : ev (option nat)
| EStat (fd : nat) : ev (option stat)
| EStatAt (name : bytes) : ev (option stat)
| ERead (fd n : nat) (off : Z) : ev (option bytes)
| EClose (fd : nat) : ev unit
| ENow : ev Z
| EAlloc : ev bool
| ECache : ev bool                               (* [cache_of] gave the table *)
| ELookup (name : bytes) : ev (option nat)
| EEntry (x : nat) : ev Cache.entry
| EMark (x : nat) (now : Z) : ev unit
| ETouch (x : nat) : ev unit
| EDrop (x : nat) : ev unit
| EHold (x : nat) : ev unit
| ERelease (x : nat) : ev unit
| EKeep (f : Cache.file) (now : Z) : ev nat      (* the end of [load] *)
| EFault : ev Empty_set.

Inductive io (A : Type) : Type :=
| Ret (a : A)
| Do {X : Type} (e : ev X) (k : X -> io A).
Arguments Ret {A} a.
Arguments Do {A X} e k.

Fixpoint io_bind {A B} (f : A -> io B) (p : io A) : io B :=
  match p with Ret a => f a | Do e k => Do e (fun x => io_bind f (k x)) end.
#[global] Instance io_mbind : MBind io := fun A B f p => io_bind f p.

Definition call {X} (e : ev X) : io X := Do e Ret.
Definition head_call (o : head_op) : io bool := call (EReply (RHead o)).
Definition ioxd_header_ (name value : bytes) : io bool := head_call (OHeader (Some name) (Some value)).
Definition set_status_ (s : Z) : io bool := head_call (OStatus s).

(** ** The store's settings *)

Record ioxd_static := {
  mount : bytes; index : bytes; cache_control : option bytes;
  file_max : Z; revalidate_ms : Z; precompressed : bool; hidden : bool
}.

(** The variants: plain, br, gzip. *)
Definition PLAIN := 0.
Definition BR := 1.
Definition GZIP := 2.
Definition suffix : list bytes := [[]; lit ".br"; lit ".gz"].
Definition coding : list bytes := [[]; lit "br"; lit "gzip"].
Definition variant (f : Cache.file) (v : nat) : option bytes := nth v (Cache.f_v f) None.

(** ** The disk *)

(** One read is never of more than 32 bits say. *)
Definition read_at (fd n : nat) (off : Z) : io (option bytes) :=
  call (ERead fd (if (UINT32_MAX <? Z.of_nat n)%Z then Z.to_nat UINT32_MAX else n) off).

Fixpoint read_loop (fuel fd : nat) (size : Z) (data : bytes) : io (option bytes) :=
  if (size <=? Z.of_nat (length data))%Z then Ret (Some data)
  else
    match fuel with
    | 0 => Ret None
    | S fuel =>
        r ← read_at fd (Z.to_nat (size - Z.of_nat (length data))) (Z.of_nat (length data));
        match r with None => Ret None | Some d => read_loop fuel fd size (data ++ d) end
    end.
Definition read_whole (fd : nat) (size : Z) : io (option bytes) :=
  ok ← call EAlloc;
  if negb ok then Ret None else read_loop (Z.to_nat size) fd size [].

Definition twin (st : ioxd_static) (name sfx : bytes) : io (option bytes) :=
  fd ← call (EOpen (name ++ sfx));
  match fd with
  | None => Ret None
  | Some fd =>
      sb ← call (EStat fd);
      v ← match sb with
          | Some sb => if is_reg sb && (st_size sb <=? file_max st)%Z then read_whole fd (st_size sb) else Ret None
          | None => Ret None
          end;
      _ ← call (EClose fd); Ret v
  end.

Definition len_of (v : option bytes) : Z := match v with Some d => Z.of_nat (length d) | None => 0 end.

Definition load (st : ioxd_static) (name : bytes) (fd : nat) (sb : stat) : io (option nat) :=
  ok ← call EAlloc;
  if negb ok then Ret None
  else
    ok ← call EAlloc;
    if negb ok then Ret None
    else
      now ← (if (revalidate_ms st =? 0)%Z then Ret 0%Z else call ENow);
      let '(etag, modified) := stamp (st_size sb) (st_mtim sb).1 (st_mtim sb).2 48 32 in
      plain ← read_whole fd (st_size sb);
      match plain with
      | None => Ret None
      | Some plain =>
          br ← (if precompressed st then twin st name (nth BR suffix []) else Ret None);
          gz ← (if precompressed st then twin st name (nth GZIP suffix []) else Ret None);
          x ← call (EKeep {| Cache.f_name := name; Cache.f_hash := Cache.hash_of name; Cache.f_dev := st_dev sb; Cache.f_ino := st_ino sb; Cache.f_size := st_size sb;
                             Cache.f_mtime := st_mtim sb; Cache.f_type := type_of name; Cache.f_v := [Some plain; br; gz];
                             Cache.f_bytes := len_of (Some plain) + len_of br + len_of gz; Cache.f_etag := etag; Cache.f_modified := modified |} now);
          Ret (Some x)
      end.

Definition current (st : ioxd_static) (x : nat) : io bool :=
  e ← call (EEntry x);
  now ← (if (revalidate_ms st =? 0)%Z then Ret None else now ← call ENow; Ret (Some now));
  if match now with Some now => (wrap64 (now - Cache.checked_at e) <? revalidate_ms st)%Z | None => false end then Ret true
  else
    _ ← match now with Some now => call (EMark x now) | None => Ret tt end;
    sb ← call (EStatAt (Cache.f_name (Cache.what e)));
    Ret match sb with
        | Some sb => is_reg sb && (st_ino sb =? Cache.f_ino (Cache.what e))%Z && (st_dev sb =? Cache.f_dev (Cache.what e))%Z && (st_size sb =? Cache.f_size (Cache.what e))%Z
                     && ((st_mtim sb).1 =? (Cache.f_mtime (Cache.what e)).1)%Z && ((st_mtim sb).2 =? (Cache.f_mtime (Cache.what e)).2)%Z
        | None => false
        end.

(** The descriptor, the name as it is then and what the file is. *)
Definition open_file (st : ioxd_static) (name : bytes) : io (option (nat * bytes * stat)) :=
  fd ← call (EOpen name);
  match fd with
  | None => Ret None
  | Some fd =>
      sb ← call (EStat fd);
      match sb with
      | None => _ ← call (EClose fd); Ret None
      | Some sb =>
          r ← (if is_dir_mode sb then
                 _ ← call (EClose fd);
                 if (length (index st) =? 0) || (NAME_CAP <=? length name + 1 + length (index st)) then Ret None
                 else
                   let name := name ++ [ch "/"] ++ index st in
                   fd ← call (EOpen name);
                   match fd with
                   | None => Ret None
                   | Some fd =>
                       sb ← call (EStat fd);
                       match sb with None => _ ← call (EClose fd); Ret None | Some sb => Ret (Some (fd, name, sb)) end
                   end
               else Ret (Some (fd, name, sb)));
          match r with
          | None => Ret None
          | Some (fd, name, sb) => if is_reg sb then Ret (Some (fd, name, sb)) else _ ← call (EClose fd); Ret None
          end
      end
  end.

(** ** The reply *)

Inductive range := RANGE_NONE | RANGE_ONE (first last : Z) | RANGE_BAD.

(** Any of the listed tags; each round takes at least a byte of the list. *)
Fixpoint tags_loop (fuel : nat) (tags etag : bytes) : bool :=
  match fuel with
  | 0 => false
  | S fuel =>
      match ioxd_slice_next tags (ch ",") with
      | None => false
      | Some (tag, tags) =>
          let tag := if ioxd_slice_starts_with tag (lit "W/") then ioxd_slice_from tag 2 else tag in
          if ioxd_slice_eq tag (lit "*") || ioxd_slice_eq tag etag then true else tags_loop fuel tags etag
      end
  end.

Definition not_modified (r : ioxd_request) (etag : bytes) (mtime : Z) : bool :=
  match ioxd_req_header r (lit "if-none-match") with
  | Some tags => tags_loop (S (length tags)) tags etag
  | None =>
      match ioxd_req_header r (lit "if-modified-since") with
      | Some since => match parse_date since with Some t => (mtime <=? t)%Z | None => false end
      | None => false
      end
  end.

Definition range_of (r : ioxd_request) (etag : bytes) (total : Z) : range :=
  match ioxd_req_header r (lit "range") with
  | None => RANGE_NONE
  | Some range_ =>
      if negb (ioxd_slice_starts_with range_ (lit "bytes=")) then RANGE_NONE
      else if match ioxd_req_header r (lit "if-range") with Some i => negb (ioxd_slice_eq (ioxd_slice_trim i) etag) | None => false end then RANGE_NONE
      else
        let spec := ioxd_slice_trim (ioxd_slice_from range_ 6) in
        let '(dash, lo, hi) := ioxd_slice_cut spec (ch "-") in
        if match ioxd_slice_find_char spec (ch ",") with Some _ => true | None => negb dash end then RANGE_NONE
        else
          let lo := ioxd_slice_trim lo in
          let hi := ioxd_slice_trim hi in
          if length lo =? 0 then
            match ioxd_to_u64 hi with
            | None => RANGE_NONE
            | Some b =>
                if (b =? 0)%Z || (total =? 0)%Z then RANGE_BAD
                else RANGE_ONE (total - (if (total <? b)%Z then total else b)) (total - 1)
            end
          else
            match ioxd_to_u64 lo with
            | None => RANGE_NONE
            | Some a =>
                match (if length hi =? 0 then Some UINT64_MAX else ioxd_to_u64 hi) with
                | None => RANGE_NONE
                | Some b => if (total <=? a)%Z || (b <? a)%Z then RANGE_BAD else RANGE_ONE a (if (total <=? b)%Z then total - 1 else b)
                end
            end
  end.

Definition content_range (span_ : bytes) (total : Z) : io bool :=
  ioxd_header_ (lit "content-range") (take 79 (lit "bytes " ++ span_ ++ lit "/" ++ put_uint total)).

Definition head_of (r : ioxd_request) (st : ioxd_static) (type etag modified : bytes) (mtime : Z) (twins : bool) : io bool :=
  _ ← head_call (OTypeLit type);
  _ ← ioxd_header_ (lit "etag") etag;
  _ ← ioxd_header_ (lit "last-modified") modified;
  _ ← match cache_control st with Some v => ioxd_header_ (lit "cache-control") v | None => Ret false end;
  _ ← (if twins then ioxd_header_ (lit "vary") (lit "accept-encoding") else Ret false);
  if not_modified r etag mtime then _ ← set_status_ 304; Ret false
  else _ ← ioxd_header_ (lit "accept-ranges") (lit "bytes"); Ret true.

(** The first byte and how many, or none: a 416. *)
Definition span_of (r : ioxd_request) (etag : bytes) (total : Z) : io (option (Z * Z)) :=
  match range_of r etag total with
  | RANGE_BAD => _ ← set_status_ 416; _ ← content_range (lit "*") total; Ret None
  | RANGE_ONE first last =>
      _ ← set_status_ 206;
      _ ← content_range (take 47 (put_uint first ++ lit "-" ++ put_uint last)) total;
      Ret (Some (first, wrap64 (last - first + 1))%Z)
  | RANGE_NONE => Ret (Some (0, total)%Z)
  end.

Section Serve.
Context `{Doubles}.

Definition pick (r : ioxd_request) (f : Cache.file) : nat :=
  let br := match variant f BR with Some _ => ioxd_accepts_encoding r (nth BR coding []) | None => dzero end in
  let gz := match variant f GZIP with Some _ => ioxd_accepts_encoding r (nth GZIP coding []) | None => dzero end in
  if dgt br dzero && dge br gz then BR else if dgt gz dzero then GZIP else PLAIN.

Definition reply (r : ioxd_request) (st : ioxd_static) (x : nat) (head_ : bool) : io unit :=
  e ← call (EEntry x);
  let f := Cache.what e in
  let twins := match variant f BR, variant f GZIP with None, None => false | _, _ => true end in
  let v := if twins then pick r f else PLAIN in
  go ← head_of r st (Cache.f_type f) (Cache.f_etag f) (Cache.f_modified f) (Cache.f_mtime f).1 twins;
  if negb go then Ret tt
  else
    _ ← (if v =? PLAIN then Ret false else ioxd_header_ (lit "content-encoding") (nth v coding []));
    s ← span_of r (Cache.f_etag f) (len_of (variant f v));
    match s with
    | None => Ret tt
    | Some (first, n) =>
        _ ← head_call (OLength n);
        if head_ then Ret tt
        else
          _ ← call (EHold x);
          match variant f v with
          | Some data =>
              match Prelude.load data (Z.to_nat first) (Z.to_nat n) with
              | Some d => _ ← call (EReply (RWrite d)); call (ERelease x)
              | None => _ ← call EFault; Ret tt
              end
          | None => _ ← call EFault; Ret tt
          end
    end.

Fixpoint stream_loop (fuel fd : nat) (off n : Z) : io unit :=
  if (n =? 0)%Z then Ret tt
  else
    match fuel with
    | 0 => Ret tt
    | S fuel =>
        let piece := if (n <? Z.of_nat PIECE)%Z then Z.to_nat n else PIECE in
        ok ← call (EReserve piece);
        if negb ok then Ret tt
        else
          got ← read_at fd piece off;
          match got with
          | None => Ret tt
          | Some d => _ ← call (EAdvance d); stream_loop fuel fd (off + Z.of_nat (length d)) (wrap64 (n - Z.of_nat (length d)))
          end
    end.

Definition stream (r : ioxd_request) (st : ioxd_static) (fd : nat) (sb : stat) (name : bytes) (head_ : bool) : io unit :=
  let '(etag, modified) := stamp (st_size sb) (st_mtim sb).1 (st_mtim sb).2 48 32 in
  go ← head_of r st (type_of name) etag modified (st_mtim sb).1 false;
  if negb go then Ret tt
  else
    s ← span_of r etag (st_size sb);
    match s with
    | None => Ret tt
    | Some (first, n) => _ ← head_call (OLength n); if head_ then Ret tt else stream_loop (Z.to_nat n) fd first n
    end.

(** From the disk: what [serve] does when the table had nothing current. *)
Definition serve_disk (r : ioxd_request) (st : ioxd_static) (asked : bytes) (head_ : bool) : io unit :=
  o ← open_file st asked;
  match o with
  | None => _ ← set_status_ 404; Ret tt
  | Some (fd, name, sb) =>
      e ← (if length name =? length asked then Ret None else call (ELookup name));
      served ← match e with
               | None => Ret false
               | Some x =>
                   ok ← current st x;
                   if (ok : bool) then _ ← call (EClose fd); _ ← call (ETouch x); _ ← reply r st x head_; Ret true
                   else _ ← call (EDrop x); Ret false
               end;
      if (served : bool) then Ret tt
      else if (file_max st <? st_size sb)%Z then _ ← stream r st fd sb name head_; _ ← call (EClose fd); Ret tt
      else
        x ← load st name fd sb;
        _ ← call (EClose fd);
        match x with None => _ ← set_status_ 500; Ret tt | Some x => reply r st x head_ end
  end.

Definition serve (r : ioxd_request) (st : ioxd_static) (name : bytes) : io unit :=
  let head_ := ioxd_slice_eq (method r) (lit "HEAD") in
  if negb head_ && negb (ioxd_slice_eq (method r) (lit "GET")) then
    _ ← set_status_ 405; _ ← ioxd_header_ (lit "allow") (lit "GET, HEAD"); Ret tt
  else
    ok ← call ECache;
    if negb ok then _ ← set_status_ 500; Ret tt
    else
      e ← call (ELookup name);
      match e with
      | None => serve_disk r st name head_
      | Some x =>
          ok ← current st x;
          if (ok : bool) then _ ← call (ETouch x); reply r st x head_
          else _ ← call (EDrop x); serve_disk r st name head_
      end.

(** The two ways in: below a mount, and a name the handler gives. *)
Definition ioxd_static_serve (r : ioxd_request) (st : ioxd_static) : io bool :=
  match below (mount st) (path r) with
  | None => Ret false
  | Some rest =>
      _ ← match resolve (hidden st) (index st) rest true with None => _ ← set_status_ 404; Ret tt | Some name => serve r st name end;
      Ret true
  end.
Definition ioxd_static_file (r : ioxd_request) (st : ioxd_static) (name : option bytes) : io unit :=
  match name with
  | None => _ ← set_status_ 404; Ret tt
  | Some name => match resolve (hidden st) (index st) name false with None => _ ← set_status_ 404; Ret tt | Some name => serve r st name end
  end.
End Serve.

(** ** A worker running many requests *)

(** What a call leaves of the table, and which answers the disk, the allocator and the table may give. *)
Definition answers (c : Cache.cache) {X} (e : ev X) : X -> Cache.cache -> Prop :=
  match e in ev X return X -> Cache.cache -> Prop with
  | EStat _ => fun sb c' => c' = c /\ match sb with Some sb => (0 <= st_size sb <= INT64_MAX)%Z | None => True end
  | ERead _ n _ => fun d c' => c' = c /\ match d with Some d => 0 < length d <= n | None => True end
  | ELookup name => fun r c' => c' = c /\ Cache.lookup c name (Cache.hash_of name) = Some r
  | EEntry x => fun en c' => c' = c /\ Cache.heap c !! x = Some en
  | EMark x now => fun _ c' => Cache.do_op c (Cache.Mark x now) = Some c'
  | ETouch x => fun _ c' => Cache.do_op c (Cache.Touch x) = Some c'
  | EDrop x => fun _ c' => Cache.do_op c (Cache.Drop x) = Some c'
  | EHold x => fun _ c' => Cache.do_op c (Cache.Hold x) = Some c'
  | ERelease x => fun _ c' => Cache.do_op c (Cache.Release x) = Some c'
  | EKeep f now => fun x c' => Cache.heap c !! x = None /\ exists alloc, Cache.do_op c (Cache.Keep x f now alloc) = Some c'
  | _ => fun _ c' => c' = c
  end.

(** The call reaches memory that is there: not freed, not null, inside its object; the longest object a name is
    built in is the twins' path. *)
Definition reaches (c : Cache.cache) {X} (e : ev X) : Prop :=
  match e with
  | EOpen name => length name < NAME_CAP + SUFFIX_MAX
  | ELookup name => is_Some (Cache.lookup c name (Cache.hash_of name))
  | EEntry x => is_Some (Cache.heap c !! x)
  | EMark x now => is_Some (Cache.do_op c (Cache.Mark x now))
  | ETouch x => is_Some (Cache.do_op c (Cache.Touch x))
  | EDrop x => is_Some (Cache.do_op c (Cache.Drop x))
  | EHold x => is_Some (Cache.do_op c (Cache.Hold x))
  | ERelease x => is_Some (Cache.do_op c (Cache.Release x))
  | EKeep f now => forall x alloc, Cache.heap c !! x = None -> is_Some (Cache.do_op c (Cache.Keep x f now alloc))
  | EFault => False
  | _ => True
  end.

(** Where a coroutine may be suspended: a read, and a write or a reservation that has to send. *)
Definition suspends {X} (e : ev X) : bool :=
  match e with ERead _ _ _ => true | EReserve _ => true | EReply (RHead _) => false | EReply _ => true | _ => false end.

Record worker := { table : Cache.cache; requests : list (io unit); turn : option nat }.

(** A request arrives; one that can run gets the turn; it makes a call, and keeps the turn unless it was
    suspended there, or finishes. *)
Inductive step (serves : io unit -> Prop) : worker -> worker -> Prop :=
| st_arrive c ps p : serves p -> step serves {| table := c; requests := ps; turn := None |} {| table := c; requests := ps ++ [p]; turn := None |}
| st_resume c ps i : i < length ps -> step serves {| table := c; requests := ps; turn := None |} {| table := c; requests := ps; turn := Some i |}
| st_call c ps i X (e : ev X) k x c' : ps !! i = Some (Do e k) -> answers c e x c' ->
    step serves {| table := c; requests := ps; turn := Some i |} {| table := c'; requests := <[i := k x]> ps; turn := if suspends e then None else Some i |}
| st_done c ps i : ps !! i = Some (Ret tt) -> step serves {| table := c; requests := ps; turn := Some i |} {| table := c; requests := ps; turn := None |}.

Definition new_worker (budget : Z) : worker := {| table := Cache.new_cache budget; requests := []; turn := None |}.

Inductive reachable (serves : io unit -> Prop) (budget : Z) : worker -> Prop :=
| re_new : reachable serves budget (new_worker budget)
| re_step w w' : reachable serves budget w -> step serves w w' -> reachable serves budget w'.

(** ** What a request may assume

    The table as the specification sees it, [a], and the entry the request holds, if any: the others may do
    anything to the table while the request is suspended, but free that entry. [needs] is what a call needs,
    [gives] what its answer says, and what the request holds then. *)
Definition file_ok (f : Cache.file) : Prop :=
  (exists plain br gz, Cache.f_v f = [Some plain; br; gz]) /\ forall v d, variant f v = Some d -> (Z.of_nat (length d) <= INT64_MAX)%Z.
Record good (a : Cache.lru) : Prop := {
  g_ok : Cache.lru_ok a; g_nodup : NoDup (Cache.order a);
  g_files : forall x f n, Cache.alive a !! x = Some (f, n) -> file_ok f;
  g_reclaimed : Cache.reclaimed a
}.

Definition needs (a : Cache.lru) (h : option nat) {X} (e : ev X) : Prop :=
  match e with
  | EOpen name => length name < NAME_CAP + SUFFIX_MAX
  | EEntry x => is_Some (Cache.alive a !! x)
  | EMark x _ => x ∈ Cache.order a
  | ETouch x => x ∈ Cache.order a
  | EDrop x => x ∈ Cache.order a
  | EHold x => is_Some (Cache.alive a !! x) /\ h = None
  | ERelease x => h = Some x
  | EKeep f _ => (0 <= Cache.f_bytes f)%Z /\ Cache.f_hash f = Cache.hash_of (Cache.f_name f) /\ file_ok f
  | EFault => False
  | _ => True
  end.

Definition gives (a : Cache.lru) {X} (e : ev X) : X -> Cache.lru -> Prop :=
  match e in ev X return X -> Cache.lru -> Prop with
  | ELookup name => fun r a' => a' = a /\ match r with Some x => x ∈ Cache.order a | None => True end
  | EEntry x => fun en a' => a' = a /\ exists n, Cache.alive a !! x = Some (Cache.what en, n)
  | EMark x now => fun _ a' => a' = Cache.effect a (Cache.Mark x now)
  | ETouch x => fun _ a' => a' = Cache.effect a (Cache.Touch x)
  | EDrop x => fun _ a' => a' = Cache.effect a (Cache.Drop x)
  | EHold x => fun _ a' => a' = Cache.effect a (Cache.Hold x)
  | ERelease x => fun _ a' => a' = Cache.effect a (Cache.Release x)
  | EKeep f now => fun x a' => Cache.alive a !! x = None /\ exists alloc, a' = Cache.effect a (Cache.Keep x f now alloc)
  | EStat _ => fun sb a' => a' = a /\ match sb with Some sb => (0 <= st_size sb <= INT64_MAX)%Z | None => True end
  | ERead _ n _ => fun d _ => match d with Some d => 0 < length d <= n | None => True end
  | e => fun _ a' => if suspends e then True else a' = a
  end.

Definition holds (h : option nat) {X} (e : ev X) : option nat :=
  match e with EHold x => Some x | ERelease _ => None | _ => h end.

(** A request that only ever does what it may, and ends holding nothing unless [Q] says so. *)
Fixpoint wp {A} (p : io A) (Q : A -> option nat -> Cache.lru -> Prop) (h : option nat) (a : Cache.lru) : Prop :=
  match p with
  | Ret x => Q x h a
  | Do e k => needs a h e /\ forall x a', good a' -> gives a e x a' -> wp (k x) Q (holds h e) a'
  end.

(** *** The counts of the holds *)

Fixpoint holders (x : nat) (hs : list (option nat)) : nat :=
  match hs with [] => 0 | h :: hs => (if bool_decide (h = Some x) then 1 else 0) + holders x hs end.
Definition counted (m : gmap nat (Cache.file * nat)) (hs : list (option nat)) : Prop :=
  forall x, match m !! x with Some (_, n) => n = holders x hs | None => holders x hs = 0 end.

Lemma holders_insert x hs i h h' : hs !! i = Some h ->
  holders x (<[i := h']> hs) + (if bool_decide (h = Some x) then 1 else 0) = holders x hs + (if bool_decide (h' = Some x) then 1 else 0).
Proof.
  revert i. induction hs as [|g hs IH]; intros [|i] Hi; [done..| |].
  - injection Hi as ->. change (<[0 := h']> (h :: hs)) with (h' :: hs). cbn [holders]. lia.
  - change (<[S i := h']> (g :: hs)) with (g :: <[i := h']> hs). cbn [holders]. specialize (IH i Hi). lia.
Qed.

Lemma holders_pos x hs i : hs !! i = Some (Some x) -> 0 < holders x hs.
Proof. revert i. induction hs as [|g hs IH]; intros [|i] Hi; [done..| |]; cbn in *; [injection Hi as ->; rewrite bool_decide_true by done; lia|]. specialize (IH i Hi). lia. Qed.

Lemma holders_app x hs : holders x (hs ++ [None]) = holders x hs.
Proof. induction hs as [|g hs IH]; [done|]. cbn. by rewrite IH. Qed.

Lemma holders_none x hs : Forall (fun h => h = None) hs -> holders x hs = 0.
Proof. induction 1 as [|h hs -> _ IH]; [done|]. cbn. by rewrite bool_decide_false. Qed.

Lemma counted_forget m hs x : counted m hs -> counted (Cache.forget x m) hs.
Proof.
  intros Hc y. unfold Cache.forget. destruct (m !! x) as [[f [|n]]|] eqn:E; [|apply Hc|apply Hc]. destruct (decide (x = y)) as [->|Hy].
  - rewrite lookup_delete_eq. specialize (Hc y). by rewrite E in Hc.
  - rewrite lookup_delete_ne by done. apply Hc.
Qed.

Lemma counted_foldr m hs l : counted m hs -> counted (foldr Cache.forget m l) hs.
Proof. intros Hc. induction l as [|x l IH]; [done|]. by apply counted_forget. Qed.

Lemma counted_new m hs x f : counted m hs -> m !! x = None -> counted (<[x := (f, 0)]> m) hs.
Proof. intros Hc Hx y. destruct (decide (x = y)) as [->|]; [rewrite lookup_insert_eq|rewrite lookup_insert_ne by done; apply Hc]. specialize (Hc y). by rewrite Hx in Hc. Qed.

Lemma counted_hold m hs i x : counted m hs -> hs !! i = Some None -> is_Some (m !! x) -> counted (alter (fun '(f, n) => (f, S n)) x m) (<[i := Some x]> hs).
Proof.
  intros Hc Hi [[f n] Hx] y. pose proof (holders_insert y hs i None (Some x) Hi) as Hh. rewrite (bool_decide_false (None = Some y)) in Hh by done. specialize (Hc y). destruct (decide (x = y)) as [->|Hy].
  - rewrite lookup_alter_eq, Hx. cbn. rewrite Hx in Hc. rewrite bool_decide_true in Hh by done. lia.
  - rewrite lookup_alter_ne by done. rewrite bool_decide_false in Hh by congruence. rewrite !Nat.add_0_r in Hh. by rewrite Hh.
Qed.

Lemma counted_release m hs i x : counted m hs -> hs !! i = Some (Some x) -> counted (alter (fun '(f, n) => (f, n - 1)) x m) (<[i := None]> hs).
Proof.
  intros Hc Hi y. pose proof (holders_insert y hs i (Some x) None Hi) as Hh. rewrite (bool_decide_false (None = Some y)) in Hh by done. specialize (Hc y). destruct (decide (x = y)) as [->|Hy].
  - rewrite lookup_alter_eq. rewrite bool_decide_true in Hh by done. destruct (m !! y) as [[f n]|]; cbn [fmap option_fmap option_map] in *; lia.
  - rewrite lookup_alter_ne by done. rewrite bool_decide_false in Hh by congruence. rewrite !Nat.add_0_r in Hh. by rewrite Hh.
Qed.

(** *** A call keeps the worker's invariant *)

Lemma counted_alive a hs i x : counted (Cache.alive a) hs -> hs !! i = Some (Some x) -> exists f n, Cache.alive a !! x = Some (f, S n).
Proof.
  intros Hc Hi. specialize (Hc x). pose proof (holders_pos _ _ _ Hi). destruct (Cache.alive a !! x) as [[f [|n]]|]; [lia|eauto|lia].
Qed.

(** The operation of the table a call is, when it is one. *)
Definition table_op {X} (e : ev X) : option Cache.op :=
  match e with
  | EMark x now => Some (Cache.Mark x now) | ETouch x => Some (Cache.Touch x) | EDrop x => Some (Cache.Drop x)
  | EHold x => Some (Cache.Hold x) | ERelease x => Some (Cache.Release x) | _ => None
  end.

Lemma needs_allowed a hs i h {X} (e : ev X) o : counted (Cache.alive a) hs -> hs !! i = Some h -> needs a h e -> table_op e = Some o -> Cache.allowed a o.
Proof. intros Hc Hi Hn Ho. destruct e; try discriminate Ho; injection Ho as <-; cbn in *; try done; [by destruct Hn|]. rewrite Hn in Hi. by eapply counted_alive. Qed.

Lemma needs_reaches c a hs i h {X} (e : ev X) : Cache.is_lru c a None -> good a -> counted (Cache.alive a) hs -> hs !! i = Some h -> needs a h e -> reaches c e.
Proof.
  intros Hl [Hok Hnd _ _] Hc Hi Hn. pose proof (needs_allowed a hs i h e) as Ha.
  destruct e; cbn [reaches]; try done; try (destruct (Cache.do_op_lru c a _ Hl Hok (Ha _ Hc Hi Hn eq_refl)) as (c' & -> & _); by eexists).
  - destruct (Cache.lookup_lru c a name Hl Hok) as (r & -> & _). by eexists.
  - cbn in Hn. rewrite <- (Cache.il_alive _ _ _ Hl) in Hn. by destruct (Cache.heap c !! x); [eexists|destruct Hn].
  - intros x alloc Hx. destruct (Cache.do_op_lru c a (Cache.Keep x f now alloc) Hl Hok) as (c' & -> & _); [|by eexists].
    cbn in *. destruct Hn as (? & ? & _). split; [|done]. rewrite <- (Cache.il_alive _ _ _ Hl). by rewrite Hx.
Qed.

Lemma do_op_good c a o c' : Cache.is_lru c a None -> good a -> Cache.allowed a o -> (forall x f now alloc, o = Cache.Keep x f now alloc -> file_ok f) ->
  Cache.do_op c o = Some c' -> Cache.is_lru c' (Cache.effect a o) None /\ good (Cache.effect a o).
Proof.
  intros Hl [Hok Hnd Hf Hre] Ha Hk Hd. destruct (Cache.do_op_lru c a o Hl Hok Ha) as (c2 & E & Hl2). assert (c2 = c') as -> by congruence.
  split; [done|]. split; [by apply Cache.effect_ok|by destruct Hl2 as [[] _ _ _ _]| |by apply Cache.effect_reclaimed]. intros x f n [[n0 Hx]|(now & alloc & Hx)]%Cache.effect_files; eauto.
Qed.

Lemma call_keeps c a hs i h {X} (e : ev X) x c' : Cache.is_lru c a None -> good a -> counted (Cache.alive a) hs -> hs !! i = Some h -> needs a h e -> answers c e x c' ->
  exists a', Cache.is_lru c' a' None /\ good a' /\ gives a e x a' /\ counted (Cache.alive a') (<[i := holds h e]> hs) /\ Cache.cap a' = Cache.cap a.
Proof.
  intros Hl Hg Hc Hi Hn Ha. pose proof (needs_allowed a hs i h e) as Hal.
  assert (Hid : c' = c -> holds h e = h -> gives a e x a -> exists a', Cache.is_lru c' a' None /\ good a' /\ gives a e x a' /\ counted (Cache.alive a') (<[i := holds h e]> hs) /\ Cache.cap a' = Cache.cap a).
  { intros -> -> Hgv. exists a. rewrite list_insert_id by done. done. }
  assert (Hop : forall o, table_op e = Some o -> Cache.do_op c o = Some c' -> gives a e x (Cache.effect a o) -> counted (Cache.alive (Cache.effect a o)) (<[i := holds h e]> hs) ->
    exists a', Cache.is_lru c' a' None /\ good a' /\ gives a e x a' /\ counted (Cache.alive a') (<[i := holds h e]> hs) /\ Cache.cap a' = Cache.cap a).
  { intros o Ho Hd Hgv Hcn. destruct (do_op_good c a o c' Hl Hg (Hal o Hc Hi Hn Ho)) as [? ?]; [intros ? ? ? ? ->; by destruct e|done|]. exists (Cache.effect a o). rewrite Cache.cap_effect. done. }
  destruct e; cbn [answers needs] in *; try (by apply Hid); try (by apply Hid; destruct Ha).
  - apply Hid; [done|done|]. cbn. by destruct o as [[]| | | |].
  - destruct Ha as [-> Hlk]. apply Hid; [done|done|]. split; [done|]. destruct Hg as [Hok _ _ _]. destruct (Cache.lookup_lru c a name Hl Hok) as (r & E & Hr). assert (r = x) as -> by congruence. destruct x; [by destruct Hr|done].
  - destruct Ha as [-> Hx]. apply Hid; [done|done|]. split; [done|]. exists (Cache.refs x). by rewrite <- (Cache.il_alive _ _ _ Hl), Hx.
  - eapply Hop; [done|exact Ha|done|]. cbn [holds Cache.effect]. by rewrite list_insert_id.
  - eapply Hop; [done|exact Ha|done|]. cbn [holds Cache.effect Cache.alive]. by rewrite list_insert_id.
  - eapply Hop; [done|exact Ha|done|]. cbn [holds Cache.effect Cache.alive]. rewrite list_insert_id by done. by apply counted_forget.
  - destruct Hn as [Hx ->]. eapply Hop; [done|exact Ha|done|]. cbn [holds Cache.effect Cache.alive]. by apply counted_hold.
  - subst h. eapply Hop; [done|exact Ha|done|]. cbn [holds Cache.effect Cache.alive]. pose proof (counted_release _ _ _ _ Hc Hi). case_test; [done|]. by apply counted_forget.
  - destruct Ha as [Hx [alloc Hd]]. assert (Hxa : Cache.alive a !! x = None) by (rewrite <- (Cache.il_alive _ _ _ Hl), Hx; done).
    assert (Hall : Cache.allowed a (Cache.Keep x f now alloc)) by (destruct Hn as (? & ? & _); by split). destruct (do_op_good c a _ c' Hl Hg Hall) as [? ?]; [intros ? ? ? ? [= _ <- _ _]; by destruct Hn as (_ & _ & ?)|done|].
    exists (Cache.effect a (Cache.Keep x f now alloc)). split; [done|]. split; [done|]. split; [split; [done|by exists alloc]|]. split; [|apply Cache.cap_effect].
    cbn [holds Cache.effect]. rewrite list_insert_id by done. pose proof (counted_new _ _ x f Hc Hxa). case_test; cbn [Cache.alive]; [by apply counted_foldr|done].
Qed.

Definition ends_free {A} (_ : A) (h : option nat) (_ : Cache.lru) : Prop := h = None.

Record worker_ok (budget : Z) (w : worker) (a : Cache.lru) (hs : list (option nat)) : Prop := {
  wo_lru : Cache.is_lru (table w) a None;
  wo_good : good a;
  wo_cap : Cache.cap a = budget;
  wo_length : length hs = length (requests w);
  wo_counted : counted (Cache.alive a) hs;
  wo_running : forall i p h, turn w = Some i -> requests w !! i = Some p -> hs !! i = Some h -> wp p ends_free h a;
  wo_waiting : forall i p h, turn w <> Some i -> requests w !! i = Some p -> hs !! i = Some h -> forall a', good a' -> wp p ends_free h a'
}.

Lemma gives_suspended a a' {X} (e : ev X) x a2 : suspends e = true -> gives a e x a' -> gives a e x a2.
Proof. intros Hs. destruct e; try discriminate Hs; cbn [gives]; try done. cbn [suspends] in Hs. by destruct o as [[]| | | |]. Qed.

Lemma step_keeps serves budget w w' a hs : (forall p, serves p -> forall a, good a -> wp p ends_free None a) ->
  worker_ok budget w a hs -> step serves w w' -> exists a' hs', worker_ok budget w' a' hs'.
Proof.
  intros Hsv [Hl Hg Hcap Hlen Hc Hr Hw] Hs. destruct Hs as [c ps p Hp|c ps i Hi|c ps i X e k x c' Hi Ha|c ps i Hi]; cbn [table requests turn] in *.
  - exists a, (hs ++ [None]). split; cbn [table requests turn]; [done|done|done|list_lia| |done|].
    + intros y. rewrite holders_app. apply Hc.
    + intros i q h _ Hq Hh a' Ha'. destruct (decide (i < length ps)) as [Hi|Hi].
      * rewrite lookup_app_l in Hq by lia. rewrite lookup_app_l in Hh by lia. by eapply Hw.
      * assert (i = length ps) as -> by (apply lookup_lt_Some in Hq; list_lia). rewrite list_lookup_middle in Hq by done. rewrite <- Hlen, list_lookup_middle in Hh by done.
        injection Hq as <-. injection Hh as <-. by apply Hsv.
  - exists a, hs. split; cbn [table requests turn]; try done.
    + intros j q h [= <-] Hq Hh. by eapply Hw.
    + intros j q h Hj Hq Hh. by eapply Hw.
  - destruct (lookup_lt_is_Some_2 hs i) as [h Hh]; [rewrite Hlen; by eapply lookup_lt_Some|]. destruct (Hr i _ h eq_refl Hi Hh) as [Hn Hk].
    destruct (call_keeps c a hs i h e x c' Hl Hg Hc Hh Hn Ha) as (a' & Hl' & Hg' & Hgv & Hc' & Hcap'). exists a', (<[i := holds h e]> hs).
    assert (Hii : i < length ps) by (by eapply lookup_lt_Some).
    split; cbn [table requests turn]; [done|done|congruence|by rewrite !length_insert|done| |].
    + intros j q g Ht Hq Hgj. destruct (suspends e) eqn:Es; [done|]. injection Ht as <-. rewrite list_lookup_insert_eq in Hq by lia. rewrite list_lookup_insert_eq in Hgj by lia. injection Hq as <-. injection Hgj as <-. by apply Hk.
    + intros j q g Ht Hq Hgj a2 Ha2. destruct (decide (i = j)) as [->|Hij].
      * rewrite list_lookup_insert_eq in Hq by lia. rewrite list_lookup_insert_eq in Hgj by lia. injection Hq as <-. injection Hgj as <-. destruct (suspends e) eqn:Es; [|done]. apply Hk; [done|]. by eapply gives_suspended.
      * rewrite list_lookup_insert_ne in Hq by done. rewrite list_lookup_insert_ne in Hgj by done. eapply (Hw j); [congruence|done|done|done].
  - exists a, hs. split; cbn [table requests turn]; try done.
    intros j q h _ Hq Hh a' Ha'. destruct (decide (i = j)) as [->|Hij]; [|eapply (Hw j); [congruence|done|done|done]].
    assert (q = Ret tt) as -> by congruence. apply (Hr j _ h eq_refl Hi Hh).
Qed.

(** ** What every request does *)

Lemma wp_bind {A B} (p : io A) (f : A -> io B) Q : forall h a, wp p (fun x h a => wp (f x) Q h a) h a -> wp (p ≫= f) Q h a.
Proof. induction p as [x|X e k IH]; intros h a Hp; [exact Hp|]. destruct Hp as [Hn Hk]. split; [exact Hn|]. intros x a' Ha Hgv. apply IH. by apply Hk. Qed.

Lemma wp_impl {A} (p : io A) (Q Q' : A -> option nat -> Cache.lru -> Prop) : (forall x h a, good a -> Q x h a -> Q' x h a) -> forall h a, good a -> wp p Q h a -> wp p Q' h a.
Proof. intros HQ. induction p as [x|X e k IH]; intros h a Hg Hp; [by apply HQ|]. destruct Hp as [Hn Hk]. split; [exact Hn|]. intros x a' Ha Hgv. apply IH; [done|]. by apply Hk. Qed.

Lemma wp_call {X} (e : ev X) Q h a : needs a h e -> (forall x a', good a' -> gives a e x a' -> Q x (holds h e) a') -> wp (call e) Q h a.
Proof. by split. Qed.

(** A part that leaves the table and the holds alone. *)
Definition still {A} (p : io A) : Prop := forall h a (Q : A -> option nat -> Cache.lru -> Prop), good a -> (forall x, Q x h a) -> wp p Q h a.
(** One that may be suspended: the table is then any. *)
Definition harmless {A} (p : io A) : Prop := forall h a (Q : A -> option nat -> Cache.lru -> Prop), good a -> (forall x a', good a' -> Q x h a') -> wp p Q h a.

Lemma still_harmless {A} (p : io A) : still p -> harmless p.
Proof. intros Hp h a Q Hg HQ. apply Hp; [done|]. intros x. by apply HQ. Qed.
Lemma still_ret {A} (x : A) : still (Ret x).
Proof. intros h a Q _ HQ. apply HQ. Qed.
Lemma still_bind {A B} (p : io A) (f : A -> io B) : still p -> (forall x, still (f x)) -> still (p ≫= f).
Proof. intros Hp Hf h a Q Hg HQ. apply wp_bind, Hp; [done|]. intros x. by apply Hf. Qed.
Lemma harmless_bind {A B} (p : io A) (f : A -> io B) : harmless p -> (forall x, harmless (f x)) -> harmless (p ≫= f).
Proof. intros Hp Hf h a Q Hg HQ. apply wp_bind, Hp; [done|]. intros x a' Hg'. by apply Hf. Qed.

(** Calls that touch neither the table nor an entry, nor a name's buffer. *)
Definition plain_ev {X} (e : ev X) : bool :=
  match e with
  | EReply _ | EReserve _ | EAdvance _ | EStat _ | EStatAt _ | ERead _ _ _ | EClose _ | ENow | EAlloc | ECache => true
  | _ => false
  end.

Lemma harmless_call {X} (e : ev X) : plain_ev e = true -> harmless (call e).
Proof. intros He h a Q Hg HQ. destruct e; try discriminate He; (apply wp_call; [done|]; intros x a' Ha' _; by apply HQ). Qed.
Lemma still_call {X} (e : ev X) : plain_ev e = true -> suspends e = false -> still (call e).
Proof.
  intros He Hs h a Q Hg HQ. destruct e; try discriminate He; try discriminate Hs; (apply wp_call; [done|]; cbn [gives suspends]; intros x a' Ha' Hgv); try (subst a'; apply HQ).
  - cbn [suspends] in Hs. destruct o as [[]| | | |]; try discriminate Hs; subst a'; apply HQ.
  - destruct Hgv as [-> _]. apply HQ.
Qed.

Ltac quiet := repeat first
  [ apply still_bind; [|intros ?] | apply harmless_bind; [|intros ?] | apply still_call; reflexivity | apply harmless_call; reflexivity
  | apply still_ret | apply still_harmless, still_ret | case_test | case_match ].

Lemma head_of_still r st type etag modified mtime twins : still (head_of r st type etag modified mtime twins).
Proof. unfold head_of, ioxd_header_, set_status_, head_call. quiet. Qed.

(** *** Ranges *)

Lemma digits_loop_range p limit : forall v w, (0 <= v <= UINT64_MAX)%Z -> digits_loop p limit v = Some w -> (0 <= w <= UINT64_MAX)%Z.
Proof.
  induction p as [|c p IH]; intros v w Hv; cbn [digits_loop]; [by intros [= <-]|]. case_test; [done|]. apply IH. unfold wrap64, UINT64_MAX.
  pose proof (Z.mod_pos_bound (v * 10 + wrap32 (c - ch "0")) (2 ^ 64) ltac:(lia)). lia.
Qed.

Lemma to_u64_range s v : ioxd_to_u64 s = Some v -> (0 <= v <= UINT64_MAX)%Z.
Proof. unfold ioxd_to_u64, digits_to_u64. case_test; [done|]. apply digits_loop_range. by unfold UINT64_MAX. Qed.

(** A range to send lies inside the representation. *)
Lemma range_inside r etag total first last : (0 <= total)%Z -> range_of r etag total = RANGE_ONE first last -> (0 <= first <= last /\ last < total)%Z.
Proof.
  intros Ht. unfold range_of. destruct (ioxd_req_header r (lit "range")) as [rg|]; [|done]. case_test; [done|]. case_test; [done|].
  destruct (ioxd_slice_cut _ _) as [[dash lo] hi]. case_test; [done|]. case_test.
  - destruct (ioxd_to_u64 (ioxd_slice_trim hi)) as [b|] eqn:Eb; [|done]. apply to_u64_range in Eb. destruct (Z.eqb_spec b 0); [done|]. destruct (Z.eqb_spec total 0); [done|]. cbn [orb].
    intros [= <- <-]. destruct (Z.ltb_spec total b); lia.
  - destruct (ioxd_to_u64 (ioxd_slice_trim lo)) as [x|] eqn:Ex; [|done]. apply to_u64_range in Ex. case_opt; [|done].
    destruct (Z.leb_spec total x); [done|]. destruct (Z.ltb_spec z x); [done|]. cbn [orb]. intros [= <- <-]. destruct (Z.leb_spec total z); lia.
Qed.

Lemma span_of_still r etag total h a (Q : option (Z * Z) -> option nat -> Cache.lru -> Prop) : (0 <= total <= INT64_MAX)%Z -> good a ->
  Q None h a -> (forall first n, (0 <= first)%Z -> (0 <= n)%Z -> (first + n <= total)%Z -> Q (Some (first, n)) h a) -> wp (span_of r etag total) Q h a.
Proof.
  intros Ht Hg Hn Hs. unfold span_of. destruct (range_of r etag total) as [|first last|] eqn:Er.
  - apply Hs; lia.
  - apply range_inside in Er; [|lia]. assert (Hst : still (_ ← set_status_ 206; content_range (take 47 (put_uint first ++ lit "-" ++ put_uint last)) total)) by (unfold set_status_, content_range, ioxd_header_, head_call; quiet).
    apply wp_bind. apply (wp_call (EReply (RHead (OStatus 206)))); [done|]. intros _ a1 _ [= ->]. apply wp_bind, (wp_call (EReply (RHead _))); [done|]. intros _ a2 _ [= ->].
    apply Hs; [lia|..]; unfold wrap64, INT64_MAX in *; rewrite Z.mod_small by lia; lia.
  - apply wp_bind, (wp_call (EReply (RHead _))); [done|]. intros _ a1 _ [= ->]. apply wp_bind, (wp_call (EReply (RHead _))); [done|]. by intros _ a2 _ [= ->].
Qed.

(** *** The disk *)

Lemma read_loop_harmless fuel fd size : forall data h a (Q : option bytes -> option nat -> Cache.lru -> Prop), (Z.of_nat (length data) <= size)%Z -> good a ->
  (forall r a', good a' -> (forall d, r = Some d -> Z.of_nat (length d) = size) -> Q r h a') -> wp (read_loop fuel fd size data) Q h a.
Proof.
  induction fuel as [|fuel IH]; intros data h a Q Hd Hg HQ; cbn [read_loop]; case_test; try (apply HQ; [done|]; intros d [= <-]; lia); try (by apply HQ).
  apply wp_bind. apply wp_call; [done|]. intros r a' Hg' Hr. cbn [gives] in Hr. destruct r as [d|]; [|by apply HQ]. apply IH; [|done|done]. rewrite length_app.
  destruct (Z.ltb_spec UINT32_MAX (Z.of_nat (Z.to_nat (size - Z.of_nat (length data))))) as [Hb|]; [|lia]. rewrite Z2Nat.id in Hb by lia. unfold UINT32_MAX in *. lia.
Qed.

Lemma read_whole_harmless fd size h a (Q : option bytes -> option nat -> Cache.lru -> Prop) : (0 <= size)%Z -> good a ->
  (forall r a', good a' -> (forall d, r = Some d -> Z.of_nat (length d) = size) -> Q r h a') -> wp (read_whole fd size) Q h a.
Proof.
  intros Hs Hg HQ. unfold read_whole. apply wp_bind, wp_call; [done|]. intros ok a' Hg' _. destruct ok; cbn [negb]; [|by apply HQ]. apply read_loop_harmless; [cbn; lia|done|done].
Qed.

Lemma twin_harmless st name sfx h a (Q : option bytes -> option nat -> Cache.lru -> Prop) : length name < NAME_CAP -> length sfx < SUFFIX_MAX -> good a ->
  (forall r a', good a' -> (forall d, r = Some d -> (Z.of_nat (length d) <= INT64_MAX)%Z) -> Q r h a') -> wp (twin st name sfx) Q h a.
Proof.
  intros Hn Hs Hg HQ. unfold twin. apply wp_bind, wp_call; [cbn; rewrite length_app; lia|]. intros fd a1 Hg1 [= ->]. destruct fd as [fd|]; [|by apply HQ].
  apply wp_bind, wp_call; [done|]. intros sb a2 Hg2 [-> Hsb]. apply wp_bind.
  assert (Hend : forall r a', good a' -> (forall d, r = Some d -> (Z.of_nat (length d) <= INT64_MAX)%Z) -> wp (_ ← call (EClose fd); Ret r) Q h a').
  { intros r a' Hg' Hr. apply wp_bind, wp_call; [done|]. intros _ a3 Hg3 _. by apply HQ. }
  destruct sb as [sb|]; [|by apply Hend]. case_test; [|by apply Hend]. apply read_whole_harmless; [lia|done|]. intros r a' Hg' Hr. apply Hend; [done|]. intros d Hd. specialize (Hr d Hd). lia.
Qed.

Lemma load_ok st name fd sb a (Q : option nat -> option nat -> Cache.lru -> Prop) h : length name < NAME_CAP -> (0 <= st_size sb <= INT64_MAX)%Z -> good a ->
  (forall r a', good a' -> (forall x, r = Some x -> is_Some (Cache.alive a' !! x)) -> Q r h a') -> wp (load st name fd sb) Q h a.
Proof.
  intros Hn Hs Hg HQ. unfold load. apply wp_bind, wp_call; [done|]. intros ok a1 Hg1 _. destruct ok; cbn [negb]; [|by apply HQ].
  apply wp_bind, wp_call; [done|]. intros ok a2 Hg2 _. destruct ok; cbn [negb]; [|by apply HQ]. apply wp_bind.
  assert (Hnow : harmless (if (revalidate_ms st =? 0)%Z then Ret 0%Z else call ENow)) by quiet. apply Hnow; [done|]. intros now a3 Hg3. destruct (stamp _ _ _ _ _) as [etag modified].
  apply wp_bind, read_whole_harmless; [lia|done|]. intros plain a4 Hg4 Hpl. destruct plain as [plain|]; [|by apply HQ]. specialize (Hpl plain eq_refl).
  assert (Htw : forall sfx, length sfx < SUFFIX_MAX -> forall a (Q : option bytes -> option nat -> Cache.lru -> Prop), good a ->
    (forall r a', good a' -> (forall d, r = Some d -> (Z.of_nat (length d) <= INT64_MAX)%Z) -> Q r h a') -> wp (if precompressed st then twin st name sfx else Ret None) Q h a).
  { intros sfx Hsf b P Hgb HP. destruct (precompressed st); [by apply twin_harmless|by apply HP]. }
  apply wp_bind, Htw; [cbv; lia|done|]. intros br a5 Hg5 Hbr. apply wp_bind, Htw; [cbv; lia|done|]. intros gz a6 Hg6 Hgz.
  apply wp_bind, wp_call.
  - assert (Hlen : forall v, (0 <= len_of v)%Z) by (intros [v|]; cbn; lia). pose proof (Hlen br). pose proof (Hlen gz). pose proof (Hlen (Some plain)). cbn [needs Cache.f_bytes Cache.f_hash Cache.f_name]. split; [lia|]. split; [done|]. split; [by exists plain, br, gz|].
    unfold variant. cbn [Cache.f_v]. intros [|[|[|v]]] d Hd; cbn in Hd; [injection Hd as ->; lia|by apply Hbr|by apply Hgz|by destruct v].
  - intros x a7 Hg7 [Hx [alloc ->]]. apply HQ; [done|]. intros y [= <-]. rewrite Cache.kept_alive; [eauto|apply Hg6|done].
Qed.

Lemma mark_still a x now : Cache.effect a (Cache.Mark x now) = a.
Proof. done. Qed.

Lemma current_still st x h a (Q : bool -> option nat -> Cache.lru -> Prop) : good a -> x ∈ Cache.order a -> (forall b, Q b h a) -> wp (current st x) Q h a.
Proof.
  intros Hg Hx HQ. unfold current. apply wp_bind, wp_call; [by apply Cache.ok_here; [apply Hg|]|]. intros en a1 _ [-> _]. apply wp_bind.
  assert (Hnow : still (if (revalidate_ms st =? 0)%Z then Ret None else now ← call ENow; Ret (Some now))) by quiet. apply Hnow; [done|]. intros now.
  match goal with |- wp (if ?b then _ else _) _ _ _ => destruct b; [apply HQ|] end. apply wp_bind. assert (Hst : wp (sb ← call (EStatAt (Cache.f_name (Cache.what en))); Ret match sb with
        | Some sb => is_reg sb && (st_ino sb =? Cache.f_ino (Cache.what en))%Z && (st_dev sb =? Cache.f_dev (Cache.what en))%Z && (st_size sb =? Cache.f_size (Cache.what en))%Z
                     && ((st_mtim sb).1 =? (Cache.f_mtime (Cache.what en)).1)%Z && ((st_mtim sb).2 =? (Cache.f_mtime (Cache.what en)).2)%Z
        | None => false
        end) Q h a) by (apply wp_bind, wp_call; [done|]; intros sb a2 _ [= ->]; apply HQ).
  destruct now as [now|]; [|exact Hst]. apply wp_call; [done|]. intros _ a2 _ ->. exact Hst.
Qed.

Lemma open_file_still st name h a (Q : option (nat * bytes * stat) -> option nat -> Cache.lru -> Prop) : good a -> length name < NAME_CAP ->
  Q None h a -> (forall fd name' sb, length name' < NAME_CAP -> (0 <= st_size sb <= INT64_MAX)%Z -> Q (Some (fd, name', sb)) h a) -> wp (open_file st name) Q h a.
Proof.
  intros Hg Hn HN HS. unfold open_file. apply wp_bind, wp_call; [cbn; lia|]. intros fd a1 _ [= ->]. destruct fd as [fd|]; [|done].
  apply wp_bind, wp_call; [done|]. intros sb a2 _ [-> Hsb]. destruct sb as [sb|]; [|apply wp_bind, wp_call; [done|]; by intros _ a3 _ [= ->]].
  apply wp_bind. assert (Hend : forall fd name' sb, length name' < NAME_CAP -> (0 <= st_size sb <= INT64_MAX)%Z ->
    wp (if is_reg sb then Ret (Some (fd, name', sb)) else _ ← call (EClose fd); Ret None) Q h a).
  { intros fd' name' sb' Hl Hs. destruct (is_reg sb'); [by apply HS|]. apply wp_bind, wp_call; [done|]. by intros _ a3 _ [= ->]. }
  destruct (is_dir_mode sb); [|by apply Hend]. apply wp_bind, wp_call; [done|]. intros _ a3 _ [= ->]. destruct ((length (index st) =? 0) || _) eqn:Ei; [done|]. apply orb_false_iff in Ei as [_ Ei]. bool_to_prop.
  assert (Hl : length (name ++ [ch "/"] ++ index st) < NAME_CAP) by list_lia. apply wp_bind, wp_call; [cbn [needs]; lia|]. intros fd2 a4 _ [= ->]. destruct fd2 as [fd2|]; [|done].
  apply wp_bind, wp_call; [done|]. intros sb2 a5 _ [-> Hsb2]. destruct sb2 as [sb2|]; [by apply Hend|]. apply wp_bind, wp_call; [done|]. by intros _ a6 _ [= ->].
Qed.

(** What the code relies on in a comparison of doubles. *)
Class DoublesLaws `{Doubles} := { dgt_zero : dgt dzero dzero = false }.

Section Served.
Context `{DoublesLaws}.

Lemma pick_variant r f : file_ok f -> exists d, variant f (match variant f BR, variant f GZIP with None, None => PLAIN | _, _ => pick r f end) = Some d /\ (Z.of_nat (length d) <= INT64_MAX)%Z.
Proof.
  intros [(plain & br & gz & Hv) Hl]. assert (Hp : variant f PLAIN = Some plain) by (unfold variant; by rewrite Hv).
  enough (Hex : exists d, variant f (match variant f BR, variant f GZIP with None, None => PLAIN | _, _ => pick r f end) = Some d) by (destruct Hex as [d Hd]; eauto).
  assert (Hpick : exists d, variant f (pick r f) = Some d).
  { unfold pick. destruct (variant f BR) as [b|] eqn:Eb, (variant f GZIP) as [g|] eqn:Eg; rewrite ?dgt_zero; cbn [andb]; repeat case_match; eauto. }
  destruct (variant f BR), (variant f GZIP); eauto.
Qed.

Lemma twins_if {A} (f : Cache.file) (a b : A) : (if match variant f BR, variant f GZIP with None, None => false | _, _ => true end then a else b) = match variant f BR, variant f GZIP with None, None => b | _, _ => a end.
Proof. by destruct (variant f BR), (variant f GZIP). Qed.

Lemma reply_ok r st x head_ a : good a -> is_Some (Cache.alive a !! x) -> wp (reply r st x head_) ends_free None a.
Proof.
  intros Hg Hx. unfold reply. apply wp_bind, wp_call; [done|]. intros en a1 _ [-> [n Hen]]. cbn zeta. set (f := Cache.what en) in *. pose proof (g_files _ Hg _ _ _ Hen) as Hf.
  set (twins := match variant f BR, variant f GZIP with None, None => false | _, _ => true end). set (v := if twins then pick r f else PLAIN).
  assert (Hv : exists d, variant f v = Some d /\ (Z.of_nat (length d) <= INT64_MAX)%Z) by (unfold v, twins; rewrite twins_if; by apply pick_variant). destruct Hv as (d & Hd & Hl).
  apply wp_bind, head_of_still; [done|]. intros go. destruct go; cbn [negb]; [|done]. apply wp_bind.
  assert (Hce : still (if v =? PLAIN then Ret false else ioxd_header_ (lit "content-encoding") (nth v coding []))) by (unfold ioxd_header_, head_call; quiet). apply Hce; [done|]. intros _.
  apply wp_bind. rewrite Hd. cbn [len_of]. apply span_of_still; [lia|done|done|]. intros first len Hfirst Hlen Hin. apply wp_bind, wp_call; [done|]. intros _ a2 _ [= ->]. destruct head_; [done|].
  apply wp_bind, wp_call; [done|]. intros _ a3 Hg3 ->. rewrite load_Some by lia. apply wp_bind, wp_call; [done|]. intros _ a4 Hg4 _. apply wp_call; [done|]. done.
Qed.

Lemma stream_harmless r st fd sb name head_ : (0 <= st_size sb <= INT64_MAX)%Z -> harmless (stream r st fd sb name head_).
Proof.
  intros Hs h a Q Hg HQ. unfold stream. destruct (stamp _ _ _ _ _) as [etag modified]. apply wp_bind, head_of_still; [done|]. intros go. destruct go; cbn [negb]; [|by apply HQ].
  apply wp_bind, span_of_still; [lia|done|by apply HQ|]. intros first n _ _ _. apply wp_bind, wp_call; [done|]. intros _ a1 Hg1 _. destruct head_; [by apply HQ|].
  assert (Hloop : forall fuel off n, harmless (stream_loop fuel fd off n)); [|by apply Hloop].
  clear. induction fuel as [|fuel IH]; intros off n; cbn [stream_loop]; quiet. apply IH.
Qed.

Lemma serve_disk_ok r st asked head_ a : good a -> length asked < NAME_CAP -> wp (serve_disk r st asked head_) ends_free None a.
Proof.
  intros Hg Hn. unfold serve_disk. apply wp_bind, open_file_still; [done|done| |].
  { apply wp_bind, (wp_call (EReply (RHead _))); [done|]. by intros _ a1 _ _. }
  intros fd name sb Hl Hs. apply wp_bind.
  assert (Hrest : forall a, good a -> wp (if (file_max st <? st_size sb)%Z then _ ← stream r st fd sb name head_; _ ← call (EClose fd); Ret tt
    else x ← load st name fd sb; _ ← call (EClose fd); match x with None => _ ← set_status_ 500; Ret tt | Some x => reply r st x head_ end) ends_free None a).
  { intros b Hb. case_test.
    - apply wp_bind, stream_harmless; [done|done|]. intros _ b1 Hb1. apply wp_bind, wp_call; [done|]. by intros _ b2 _ _.
    - apply wp_bind, load_ok; [done|done|done|]. intros x b1 Hb1 Hx. apply wp_bind, wp_call; [done|]. intros _ b2 Hb2 [= ->]. destruct x as [x|]; [by apply reply_ok; [|apply Hx]|].
      apply wp_bind, (wp_call (EReply (RHead _))); [done|]. by intros _ b3 _ _. }
  assert (Hnone : wp (served ← Ret false; if (served : bool) then Ret tt else if (file_max st <? st_size sb)%Z then _ ← stream r st fd sb name head_; _ ← call (EClose fd); Ret tt
    else x ← load st name fd sb; _ ← call (EClose fd); match x with None => _ ← set_status_ 500; Ret tt | Some x => reply r st x head_ end) ends_free None a) by (by apply Hrest).
  destruct (length name =? length asked); [exact Hnone|]. apply wp_call; [done|]. intros e a1 _ [-> He]. destruct e as [x|]; [|exact Hnone].
  apply wp_bind, wp_bind, current_still; [done|done|]. intros ok. destruct ok.
  - apply wp_bind, wp_call; [done|]. intros _ a2 _ [= ->]. apply wp_bind, wp_call; [done|]. intros _ a3 Hg3 ->. apply wp_bind.
    eapply wp_impl; [|done|apply reply_ok; [done|]]; [by intros ? h' a' ? ?|]. cbn [Cache.effect Cache.alive]. by apply Cache.ok_here; [apply Hg|].
  - apply wp_bind, wp_call; [done|]. intros _ a2 Hg2 _. by apply Hrest.
Qed.

Lemma serve_ok r st name a : good a -> length name < NAME_CAP -> wp (serve r st name) ends_free None a.
Proof.
  intros Hg Hn. unfold serve. case_test.
  - apply wp_bind, (wp_call (EReply (RHead _))); [done|]. intros _ a1 _ _. apply wp_bind, (wp_call (EReply (RHead _))); [done|]. by intros _ a2 _ _.
  - apply wp_bind, wp_call; [done|]. intros ok a1 Hg1 _. destruct ok; cbn [negb]; [|apply wp_bind, (wp_call (EReply (RHead _))); [done|]; by intros _ a2 _ _].
    apply wp_bind, wp_call; [done|]. intros e a2 _ [-> He]. destruct e as [x|]; [|by apply serve_disk_ok]. apply wp_bind, current_still; [done|done|]. intros ok. destruct ok.
    + apply wp_bind, wp_call; [done|]. intros _ a3 Hg3 ->. apply reply_ok; [done|]. cbn [Cache.effect Cache.alive]. by apply Cache.ok_here; [apply Hg1|].
    + apply wp_bind, wp_call; [done|]. intros _ a3 Hg3 _. by apply serve_disk_ok.
Qed.

(** What a request of the store runs: a path under the mount, or a name its handler gives. *)
Inductive served_by (st : ioxd_static) : io unit -> Prop :=
| sb_path r : served_by st (ioxd_static_serve r st ≫= fun _ => Ret tt)
| sb_file r name : served_by st (ioxd_static_file r st name).

Lemma served_ok st p a : 0%Z ∉ index st -> served_by st p -> good a -> wp p ends_free None a.
Proof.
  intros Hi Hp Hg. assert (Hst : forall s b, good b -> wp (_ ← set_status_ s; Ret tt) ends_free None b).
  { intros s b Hb. apply wp_bind, (wp_call (EReply (RHead _))); [done|]. by intros _ a1 _ _. }
  destruct Hp as [r|r name].
  - apply wp_bind. unfold ioxd_static_serve. destruct (below (mount st) (path r)) as [rest|]; [|done]. apply wp_bind.
    destruct (resolve (hidden st) (index st) rest true) as [name|] eqn:Er; [eapply wp_impl; [|done|]|apply wp_bind, (wp_call (EReply (RHead _))); [done|]; by intros _ a1 _ _].
    + intros ? h b ? Hh. exact Hh.
    + apply serve_ok; [done|]. by eapply resolve_length.
  - unfold ioxd_static_file. destruct name as [name|]; [|by apply Hst]. destruct (resolve (hidden st) (index st) name false) as [rel|] eqn:Er; [|by apply Hst].
    apply serve_ok; [done|]. by eapply resolve_length.
Qed.

Lemma new_worker_ok budget : (0 <= budget)%Z -> worker_ok budget (new_worker budget) (Cache.start budget) [].
Proof.
  intros Hb. split; cbn [table requests turn new_worker]; [apply Cache.start_lru| |done|done| |done|by intros i p h _ [=]].
  - split; [by apply Cache.start_ok|constructor|by intros x f n|by intros x f].
  - by intros x.
Qed.

Lemma reachable_ok st budget w : (0 <= budget)%Z -> 0%Z ∉ index st -> reachable (served_by st) budget w -> exists a hs, worker_ok budget w a hs.
Proof.
  intros Hb Hi Hr. induction Hr as [|w w' _ (a & hs & Hok) Hs]; [eauto using new_worker_ok|]. eapply step_keeps; [|exact Hok|exact Hs]. intros p Hp b Hg. by eapply served_ok.
Qed.

End Served.

(** ** What a reply from the table says

    The calls to the reply that a request makes, from an entry. *)
Fixpoint emitted {A} (en : Cache.entry) (p : io A) : list reply_op :=
  match p with
  | Ret _ => []
  | @Do _ X e k =>
      match e in ev X return (X -> list reply_op) -> list reply_op with
      | EReply o => fun k => o :: k true
      | EEntry _ => fun k => k en
      | EHold _ | ERelease _ => fun k => k tt
      | _ => fun _ => []
      end (fun x => emitted en (k x))
  end.

Definition statuses (l : list reply_op) : list Z := omap (fun o => match o with RHead (OStatus s) => Some s | _ => None end) l.
Definition lengths (l : list reply_op) : list Z := omap (fun o => match o with RHead (OLength n) => Some n | _ => None end) l.
Definition field (name : bytes) (l : list reply_op) : list bytes :=
  omap (fun o => match o with RHead (OHeader (Some n) (Some v)) => if bool_decide (n = name) then Some v else None | _ => None end) l.
Definition sent (l : list reply_op) : bytes := concat (omap (fun o => match o with RWrite d => Some d | _ => None end) l).

(** Literal names compared. *)
Ltac decide_names :=
  repeat match goal with |- context [bool_decide (@eq bytes ?a ?b)] => let v := eval vm_compute in (bool_decide (@eq bytes a b)) in change (bool_decide (@eq bytes a b)) with v end; cbn match.

Section Replied.
Context `{DoublesLaws}.

(** The variant a reply is of. *)
Definition chosen (r : ioxd_request) (f : Cache.file) : nat := match variant f BR, variant f GZIP with None, None => PLAIN | _, _ => pick r f end.

(** The fields of every reply for the file, whatever its status. *)
Definition validators (st : ioxd_static) (f : Cache.file) (l : list reply_op) : Prop :=
  field (lit "etag") l = [Cache.f_etag f] /\ field (lit "last-modified") l = [Cache.f_modified f] /\
  field (lit "cache-control") l = match cache_control st with Some v => [v] | None => [] end /\
  field (lit "vary") l = match variant f BR, variant f GZIP with None, None => [] | _, _ => [lit "accept-encoding"] end.

(** The calls, in order. *)
Definition hd_ (n v : bytes) : reply_op := RHead (OHeader (Some n) (Some v)).
Definition first_fields (st : ioxd_static) (f : Cache.file) : list reply_op :=
  [RHead (OTypeLit (Cache.f_type f)); hd_ (lit "etag") (Cache.f_etag f); hd_ (lit "last-modified") (Cache.f_modified f)] ++
  match cache_control st with Some v => [hd_ (lit "cache-control") v] | None => [] end ++
  match variant f BR, variant f GZIP with None, None => [] | _, _ => [hd_ (lit "vary") (lit "accept-encoding")] end.
Definition rest_fields (r : ioxd_request) (f : Cache.file) (data : bytes) (head_ : bool) : list reply_op :=
  let total := Z.of_nat (length data) in
  let place s := [hd_ (lit "content-range") (take 79 (lit "bytes " ++ s ++ lit "/" ++ put_uint total))] in
  let body first n := RHead (OLength n) :: (if head_ then [] else [RWrite (span data (Z.to_nat first) (Z.to_nat n))]) in
  if not_modified r (Cache.f_etag f) (Cache.f_mtime f).1 then [RHead (OStatus 304)]
  else hd_ (lit "accept-ranges") (lit "bytes") :: (if chosen r f =? PLAIN then [] else [hd_ (lit "content-encoding") (nth (chosen r f) coding [])]) ++
    match range_of r (Cache.f_etag f) total with
    | RANGE_BAD => RHead (OStatus 416) :: place (lit "*")
    | RANGE_ONE first last => RHead (OStatus 206) :: place (take 47 (put_uint first ++ lit "-" ++ put_uint last)) ++ body first (last - first + 1)%Z
    | RANGE_NONE => body 0%Z total
    end.

Lemma emitted_reply r st x head_ en data : variant (Cache.what en) (chosen r (Cache.what en)) = Some data -> (Z.of_nat (length data) <= INT64_MAX)%Z ->
  emitted en (reply r st x head_) = first_fields st (Cache.what en) ++ rest_fields r (Cache.what en) data head_.
Proof.
  intros Hd Hl. set (f := Cache.what en) in *. unfold reply, first_fields, rest_fields. cbn [io_mbind mbind io_bind call emitted]. fold f. cbn zeta. rewrite twins_if. fold (chosen r f). rewrite Hd. cbn [len_of].
  unfold head_of, span_of, content_range, ioxd_header_, set_status_, head_call.
  assert (Hone : forall a b, range_of r (Cache.f_etag f) (Z.of_nat (length data)) = RANGE_ONE a b -> wrap64 (b - a + 1) = (b - a + 1)%Z /\ Prelude.load data (Z.to_nat a) (Z.to_nat (b - a + 1)) = Some (span data (Z.to_nat a) (Z.to_nat (b - a + 1)))).
  { intros a b Hab. apply range_inside in Hab; [|lia]. unfold wrap64, INT64_MAX in *. split; [apply Z.mod_small; lia|apply load_Some; lia]. }
  assert (Hall : Prelude.load data (Z.to_nat 0) (Z.to_nat (Z.of_nat (length data))) = Some (span data (Z.to_nat 0) (Z.to_nat (Z.of_nat (length data))))) by (apply load_Some; lia).
  destruct (cache_control st), (variant f BR), (variant f GZIP), (not_modified r (Cache.f_etag f) (Cache.f_mtime f).1);
    try reflexivity; destruct (chosen r f =? PLAIN); destruct (range_of r (Cache.f_etag f) (Z.of_nat (length data))) as [|first last|]; try reflexivity;
    try (destruct (Hone first last eq_refl) as [-> Ho]); destruct head_; try reflexivity;
    cbv [mbind io_mbind call]; cbn [io_bind emitted negb app]; rewrite ?Hall, ?Ho; reflexivity.
Qed.

Lemma first_says st f : validators st f (first_fields st f) /\ field (lit "content-range") (first_fields st f) = [] /\
  statuses (first_fields st f) = [] /\ lengths (first_fields st f) = [] /\ omap (fun o => match o with RWrite d => Some d | _ => None end) (first_fields st f) = [].
Proof.
  unfold validators, first_fields, hd_, field, statuses, lengths.
  destruct (cache_control st), (variant f BR), (variant f GZIP); cbn [app omap list_omap]; decide_names; by split_and!.
Qed.

Lemma rest_says r f data head_ : let l := rest_fields r f data head_ in
  (forall n, n ∈ [lit "etag"; lit "last-modified"; lit "cache-control"; lit "vary"] -> field n l = []) /\
  let total := Z.of_nat (length data) in
  match not_modified r (Cache.f_etag f) (Cache.f_mtime f).1, range_of r (Cache.f_etag f) total with
  | true, _ => statuses l = [304%Z] /\ lengths l = [] /\ sent l = []
  | false, RANGE_BAD => statuses l = [416%Z] /\ field (lit "content-range") l = [take 79 (lit "bytes " ++ lit "*" ++ lit "/" ++ put_uint total)] /\ lengths l = [] /\ sent l = []
  | false, RANGE_ONE first last => statuses l = [206%Z] /\ lengths l = [(last - first + 1)%Z] /\
      field (lit "content-range") l = [take 79 (lit "bytes " ++ take 47 (put_uint first ++ lit "-" ++ put_uint last) ++ lit "/" ++ put_uint total)] /\
      sent l = if head_ then [] else span data (Z.to_nat first) (Z.to_nat (last - first + 1))
  | false, RANGE_NONE => statuses l = [] /\ lengths l = [total] /\ sent l = if head_ then [] else data
  end.
Proof.
  cbn zeta. assert (Hs : span data (Z.to_nat 0) (Z.to_nat (Z.of_nat (length data))) = data) by (rewrite Nat2Z.id; apply span_all).
  unfold rest_fields, hd_, field, statuses, lengths, sent. generalize (nth (chosen r f) coding []) as enc. intros enc. generalize (put_uint (Z.of_nat (length data))) as size. intros size.
  destruct (not_modified r _ _); [|destruct (range_of r _ _) as [|first last|]; [|generalize (put_uint first ++ lit "-" ++ put_uint last); intros place|]; destruct (chosen r f =? PLAIN), head_].
  all: cbn [app omap list_omap concat]; (split; [intros n Hn; repeat (apply elem_of_cons in Hn as [-> | Hn]; [decide_names; reflexivity|]); by apply not_elem_of_nil in Hn|]).
  all: decide_names; rewrite ?Hs, ?app_nil_r; by split_and!.
Qed.

End Replied.

(** ** A worker at work

    A disk of two files, five bytes each, and a budget for one: while the first is being sent the second is
    loaded, which drops the first; the release frees it. *)
Lemma int_doubles_laws : @DoublesLaws int_doubles.
Proof. constructor. reflexivity. Qed.

Definition five : stat := {| st_mode := S_IFREG; st_dev := 1; st_ino := 2; st_size := 5; st_mtim := (951868799, 0)%Z |}.
Definition on_disk (name : bytes) : bool := beq name (lit "a.txt") || beq name (lit "b.txt").

Definition sample (c : Cache.cache) {X} (e : ev X) : option (X * Cache.cache) :=
  match e in ev X return option (X * Cache.cache) with
  | EReply _ => Some (true, c) | EReserve _ => Some (true, c) | EAdvance _ => Some (tt, c)
  | EOpen name => Some (if on_disk name then Some 3 else None, c)
  | EStat _ => Some (Some five, c)
  | EStatAt name => Some (if on_disk name then Some five else None, c)
  | ERead _ n off => let d := take n (list.drop (Z.to_nat off) (lit "hello")) in Some (if length d =? 0 then None else Some d, c)
  | EClose _ => Some (tt, c) | ENow => Some (0%Z, c) | EAlloc => Some (true, c) | ECache => Some (true, c)
  | ELookup name => r ← Cache.lookup c name (Cache.hash_of name); Some (r, c)
  | EEntry x => e ← Cache.heap c !! x; Some (e, c)
  | EMark x now => c' ← Cache.do_op c (Cache.Mark x now); Some (tt, c')
  | ETouch x => c' ← Cache.do_op c (Cache.Touch x); Some (tt, c')
  | EDrop x => c' ← Cache.do_op c (Cache.Drop x); Some (tt, c')
  | EHold x => c' ← Cache.do_op c (Cache.Hold x); Some (tt, c')
  | ERelease x => c' ← Cache.do_op c (Cache.Release x); Some (tt, c')
  | EKeep f now =>
      let x := base.fresh (dom (Cache.heap c)) in
      match Cache.heap c !! x with Some _ => None | None => c' ← Cache.do_op c (Cache.Keep x f now true); Some (x, c') end
  | EFault => None
  end.

Lemma sample_answers c {X} (e : ev X) x c' : sample c e = Some (x, c') -> answers c e x c'.
Proof.
  intros Hs. destruct e; cbn [sample answers] in *; try (injection Hs as <- <-; done).
  - injection Hs as <- <-. split; [done|]. case_test; [done|]. list_lia.
  - destruct (Cache.lookup c name _); [|done]. by injection Hs as <- <-.
  - destruct (Cache.heap c !! x0); [|done]. by injection Hs as <- <-.
  - destruct (Cache.do_op c _); [|done]. by injection Hs as _ <-.
  - destruct (Cache.do_op c _); [|done]. by injection Hs as _ <-.
  - destruct (Cache.do_op c _); [|done]. by injection Hs as _ <-.
  - destruct (Cache.do_op c _); [|done]. by injection Hs as _ <-.
  - destruct (Cache.do_op c _); [|done]. by injection Hs as _ <-.
  - set (y := base.fresh _) in *. destruct (Cache.heap c !! y) eqn:Ey; [done|]. destruct (Cache.do_op c _) eqn:Ed; [|done]. injection Hs as <- <-. split; [done|]. by exists true.
  - done.
Qed.

(** The request whose turn it is, up to where it waits or ends. *)
Fixpoint run_turn (fuel : nat) (w : worker) : option worker :=
  match turn w, fuel with
  | None, _ => Some w
  | Some i, S fuel =>
      match requests w !! i with
      | Some (Do e k) =>
          match sample (table w) e with
          | Some (x, c') => run_turn fuel {| table := c'; requests := <[i := k x]> (requests w); turn := if suspends e then None else Some i |}
          | None => None
          end
      | Some (Ret _) => Some {| table := table w; requests := requests w; turn := None |}
      | None => None
      end
  | Some _, 0 => None
  end.
Fixpoint run_turns (sched : list nat) (w : worker) : option worker :=
  match sched with
  | [] => Some w
  | i :: sched => if i <? length (requests w) then w ← run_turn (Z.to_nat 100) {| table := table w; requests := requests w; turn := Some i |}; run_turns sched w else None
  end.

Lemma run_turn_reachable serves budget : forall fuel w w', reachable serves budget w -> run_turn fuel w = Some w' -> reachable serves budget w' /\ turn w' = None.
Proof.
  induction fuel as [|fuel IH]; intros [c ps [i|]] w' Hr Hw; cbn [run_turn table requests turn] in Hw; try done; try (injection Hw as <-; done).
  destruct (ps !! i) as [[[]|X e k]|] eqn:Hp; [injection Hw as <-; split; [eapply re_step; [exact Hr|by apply st_done]|done]| |done].
  destruct (sample c e) as [[x c']|] eqn:Es; [|done]. eapply IH; [|exact Hw]. eapply re_step; [exact Hr|]. apply (st_call serves c ps i X e k); [done|by apply sample_answers].
Qed.

Lemma run_turns_reachable serves budget sched : forall w w', reachable serves budget w -> turn w = None -> run_turns sched w = Some w' -> reachable serves budget w'.
Proof.
  induction sched as [|i sched IH]; intros w w' Hr Ht Hw; cbn [run_turns] in Hw; [by injection Hw as <-|]. case_test; [|done].
  destruct (run_turn _ _) as [w1|] eqn:E1; [|done]. cbn [mbind option_bind] in Hw. apply run_turn_reachable with (serves := serves) (budget := budget) in E1 as [Hr1 Ht1]; [by eapply IH|].
  destruct w as [c ps t]. cbn in Ht. subst t. eapply re_step; [exact Hr|]. by apply st_resume.
Qed.

Definition get (p : String.string) : ioxd_request :=
  {| Headers.method := lit "GET"; target := lit p; path := lit p; query := []; minor_version := 1; Headers.headers := []; params := []; params_arena := [];
     route_params := []; req_content_length := 0; Headers.chunked := false; req_keep_alive := true; req_expect_continue := false; route_arena := [] |}.
Arguments get _%_string_scope.
Definition files : ioxd_static :=
  {| mount := lit "/files"; index := lit "index.html"; cache_control := None; file_max := 1000; revalidate_ms := 0; precompressed := false; hidden := false |}.

#[local] Existing Instance int_doubles.
#[local] Existing Instance int_doubles_laws.

Definition two_gets : worker :=
  {| table := Cache.new_cache 6; requests := [ioxd_static_serve (get "/files/a.txt") files ≫= fun _ => Ret tt; ioxd_static_serve (get "/files//b.txt") files ≫= fun _ => Ret tt]; turn := None |}.

Lemma two_gets_reachable : reachable (served_by files) 6 two_gets.
Proof. eapply re_step; [eapply re_step; [apply re_new|apply st_arrive, sb_path]|apply (st_arrive _ _ [_]), sb_path]. Qed.

(** The first request is sending its file, which the second has pushed out. *)
Definition both (sched : list nat) : option (list nat * list (nat * bool) * Z) :=
  w ← run_turns sched two_gets; Some (map fst (map_to_list (Cache.heap (table w))), map (fun '(_, e) => (Cache.refs e, Cache.dropped e)) (map_to_list (Cache.heap (table w))), Cache.held (table w)).
Example interleaved : (both [0; 0; 1; 1], both [0; 0; 1; 1; 0], both [0; 0; 1; 1; 0; 1]) = (Some ([1; 0], [(1, false); (1, true)], 5%Z), Some ([1], [(1, false)], 5%Z), Some ([1], [(0, false)], 5%Z)).
Proof. vm_compute. reflexivity. Qed.


Definition hello_file : Cache.file :=
  {| Cache.f_name := lit "a.txt"; Cache.f_hash := Cache.hash_of (lit "a.txt"); Cache.f_dev := 1; Cache.f_ino := 2; Cache.f_size := 5; Cache.f_mtime := (951868799, 0)%Z;
     Cache.f_type := type_of (lit "a.txt"); Cache.f_v := [Some (lit "hello"); None; None]; Cache.f_bytes := 5; Cache.f_etag := lit "e"; Cache.f_modified := http_date 32 951868799 |}.
Definition get_part : ioxd_request :=
  {| Headers.method := lit "GET"; target := lit "/a.txt"; path := lit "/a.txt"; query := []; minor_version := 1; Headers.headers := [hd "range" "bytes=1-3"]; params := []; params_arena := [];
     route_params := []; req_content_length := 0; Headers.chunked := false; req_keep_alive := true; req_expect_continue := false; route_arena := [] |}.

