(* ===== verification/Certs.v ===== *)
(** The certificate store (lib/tls/certs.c): the choice of a context by server name, the load of a directory
    over an old table, and the references that let a reload swap tables under handshakes in flight.
    OpenSSL is outside: a context is a number with a count of references, and what the calls that build one
    answer is part of what a directory entry is ([dirent]). *)
From S2P Require Import Prelude.

#[local] Arguments Nat.ltb : simpl never.
#[local] Arguments Nat.leb : simpl never.
#[local] Arguments lit : simpl never.

Abbreviation SSL_CTX := Z (only parsing).
Definition PATH_MAX : nat := 4096.
#[global] Arguments PATH_MAX : simpl never.

(** ** Tables *)

Record host := { name : bytes; ctx : SSL_CTX }.
Record table := { refs : Z; hosts : list host; fallback : SSL_CTX }.

Definition fold (c : Z) : Z := if ((ch "A" <=? c) && (c <=? ch "Z"))%Z%bool then Z.lor c 32 else c.

Fixpoint fold_eq (a b : bytes) : bool :=
  match a, b with
  | x :: a, y :: b => if negb (fold x =? fold y)%Z then false else fold_eq a b
  | _, _ => true
  end.
Definition host_eq (a b : bytes) : bool := if negb (length b =? length a) then false else fold_eq a b.

Fixpoint host_loop (hs : list host) (a : bytes) : option SSL_CTX :=
  match hs with
  | [] => None
  | h :: hs => if host_eq a (name h) then Some (ctx h) else host_loop hs a
  end.

(** The root dot is no part of a name. *)
Definition no_root (a : bytes) : bytes :=
  if (1 <? length a) && (nth (length a - 1) a 0 =? ch ".")%Z then take (length a - 1) a else a.

Definition lookup (t : table) (a : bytes) : option SSL_CTX :=
  let a := no_root a in
  match host_loop (hosts t) a with
  | Some c => Some c
  | None =>
      match memchr (ch ".") a with
      | Some dot =>
          let rest := drop dot a in
          if length rest + 1 <? 256 then host_loop (hosts t) (ch "_" :: rest) else None
      | None => None
      end
  end.

(** The context the ClientHello switches to, if any: [ext] is its server_name extension. [None] is a byte read
    outside it. *)
Definition on_client_hello (t : option table) (ext : option bytes) : option (option SSL_CTX) :=
  match t, ext with
  | Some t, Some ext =>
      if length ext <? 5 then Some None
      else
        b0 ← ext !! 0; b1 ← ext !! 1; b2 ← ext !! 2; b3 ← ext !! 3; b4 ← ext !! 4;
        let list_len := Z.lor (Z.shiftl b0 8) b1 in
        let name_len := Z.lor (Z.shiftl b3 8) b4 in
        if (negb (b2 =? 0) || negb (name_len + 3 =? list_len) || negb (list_len + 2 =? Z.of_nat (length ext)))%Z then Some None
        else if (5 + Z.to_nat name_len <=? length ext)%nat then Some (lookup t (span ext 5 (Z.to_nat name_len))) else None
  | _, _ => Some None
  end.

(** ** Contexts

    The live contexts with their references; using one that is not live is [None]. *)
Record contexts := { live : gmap Z Z; next : Z }.

Definition SSL_CTX_new (w : contexts) : SSL_CTX * contexts := (next w, {| live := <[next w := 1%Z]> (live w); next := (next w + 1)%Z |}).
Definition SSL_CTX_up_ref (w : contexts) (c : SSL_CTX) : option contexts :=
  n ← live w !! c; Some {| live := <[c := (n + 1)%Z]> (live w); next := next w |}.
Definition SSL_CTX_free (w : contexts) (c : SSL_CTX) : option contexts :=
  n ← live w !! c; Some {| live := if (n =? 1)%Z then delete c (live w) else <[c := (n - 1)%Z]> (live w); next := next w |}.

(** ** Loading

    What a directory entry and the calls on it give: the two files are there and regular, OpenSSL makes a
    context, each call that sets it up succeeds, and how its certificate's dates compare with now. *)
Record dirent := {
  d_name : bytes;
  regular : bool * bool;
  made : bool;
  set_up : list bool;
  dates : option (Z * Z)
}.

Definition context_for (e : dirent) (w : contexts) : option (option SSL_CTX * contexts) :=
  if negb (made e) then Some (None, w)
  else
    let '(c, w) := SSL_CTX_new w in
    if forallb id (set_up e) then Some (Some c, w) else w ← SSL_CTX_free w c; Some (None, w).

(** Whether a certificate can serve now. *)
Definition not_current (e : dirent) : bool :=
  match dates e with
  | None => true
  | Some (before, after) =>
      if ((before =? 0) || (after =? 0))%Z then true else if (0 <? before)%Z then true else (after <? 0)%Z
  end.

Fixpoint free_hosts (w : contexts) (hs : list host) : option contexts :=
  match hs with
  | [] => Some w
  | h :: hs => w ← SSL_CTX_free w (ctx h); free_hosts w hs
  end.
Definition table_free (w : contexts) (t : table) : option contexts := free_hosts w (hosts t).

Definition fallback_name (t : table) : option bytes :=
  match List.find (fun h => (ctx h =? fallback t)%Z) (hosts t) with Some h => Some (name h) | None => None end.

(** The context the old table has for a name, referenced once more. *)
Fixpoint carry (w : contexts) (old : list host) (n : bytes) (c : option SSL_CTX) : option (option SSL_CTX * contexts) :=
  match old with
  | [] => Some (c, w)
  | h :: old => if beq (name h) n then w ← SSL_CTX_up_ref w (ctx h); carry w old n (Some (ctx h)) else carry w old n c
  end.

(** A context that was made but cannot serve now is freed. *)
Definition context_now (e : dirent) (w : contexts) : option (option SSL_CTX * contexts) :=
  '(c, w) ← context_for e w;
  match c with
  | Some c => if not_current e then w ← SSL_CTX_free w c; Some (None, w) else Some (Some c, w)
  | None => Some (None, w)
  end.

(** One entry. *)
Definition load_one (dir : bytes) (old : option table) (e : dirent) (t : table) (w : contexts) : option (table * contexts) :=
  if match d_name e with c :: _ => (c =? ch ".")%Z | [] => false end then Some (t, w)
  else
    let cn := length dir + 1 + length (d_name e) + length (lit "/cert.pem") in
    let kn := length dir + 1 + length (d_name e) + length (lit "/key.pem") in
    if (PATH_MAX <=? cn) || (PATH_MAX <=? kn) then Some (t, w)
    else if negb ((regular e).1 && (regular e).2) then Some (t, w)
    else
      '(c, w) ← context_now e w;
      '(c, w) ← match c with
                | Some c => Some (Some c, w)
                | None => carry w (match old with Some old => hosts old | None => [] end) (d_name e) None
                end;
      match c with
      | None => Some (t, w)
      | Some c =>
          Some ({| refs := refs t; hosts := hosts t ++ [{| name := d_name e; ctx := c |}];
                   fallback := if beq (d_name e) (lit "default") then c else fallback t |}, w)
      end.

Fixpoint load_loop (dir : bytes) (old : option table) (es : list dirent) (t : table) (w : contexts) : option (table * contexts) :=
  match es with
  | [] => Some (t, w)
  | e :: es => '(t, w) ← load_one dir old e t w; load_loop dir old es t w
  end.

(** The context of the host that answered before, when it is still there. *)
Definition previous (old : option table) (t : table) : option SSL_CTX :=
  match old with
  | None => None
  | Some old =>
      match fallback_name old with
      | None => None
      | Some prev => match List.find (fun h => beq (name h) prev) (hosts t) with Some h => Some (ctx h) | None => None end
      end
  end.

(** [entries] is what the directory holds, absent when it does not open; [memory], whether the table is given
memory (one that a host is not given ends the process). No context has the number 0. *)
Definition load (dir : bytes) (entries : option (list dirent)) (memory : bool) (old : option table) (w : contexts) : option (option table * contexts) :=
  match entries with
  | None => Some (None, w)
  | Some es =>
      if negb memory then Some (None, w)
      else
        '(t, w) ← load_loop dir old es {| refs := 1; hosts := []; fallback := 0%Z |} w;
        if length (hosts t) =? 0 then w ← table_free w t; Some (None, w)
        else if negb (fallback t =? 0)%Z then Some (Some t, w)
        else
          match previous old t with
          | Some c => Some (Some {| refs := refs t; hosts := hosts t; fallback := c |}, w)
          | None => w ← table_free w t; Some (None, w)
          end
  end.

(** ** The store, its handshakes and its reloads

    Tables are kept by the number of their block, the ones that are freed gone; [current] is the table the store
    has, absent once the store was given back; each handshake knows the table it took. A reload holds its mutex
    from the first step to the last. *)
Inductive reload_stage :=
| Idle
| Reading (old : Z)
| Loaded (old fresh : Z)
| Swapped (old : Z)
| Leaving (old : Z).

Record system := {
  current : option Z;
  tables : list (Z * table);
  ctxs : contexts;
  fresh_id : Z;
  shaking : list (Z * Z);
  stage : reload_stage
}.

Definition set_tables (s : system) (l : list (Z * table)) : system :=
  {| current := current s; tables := l; ctxs := ctxs s; fresh_id := fresh_id s; shaking := shaking s; stage := stage s |}.
Definition set_ctxs (s : system) (w : contexts) : system :=
  {| current := current s; tables := tables s; ctxs := w; fresh_id := fresh_id s; shaking := shaking s; stage := stage s |}.
Definition set_shaking (s : system) (l : list (Z * Z)) : system :=
  {| current := current s; tables := tables s; ctxs := ctxs s; fresh_id := fresh_id s; shaking := l; stage := stage s |}.
Definition set_stage (s : system) (x : reload_stage) : system :=
  {| current := current s; tables := tables s; ctxs := ctxs s; fresh_id := fresh_id s; shaking := shaking s; stage := x |}.
Definition set_current (s : system) (x : option Z) : system :=
  {| current := x; tables := tables s; ctxs := ctxs s; fresh_id := fresh_id s; shaking := shaking s; stage := stage s |}.
Definition add_table (s : system) (t : table) : Z * system :=
  (fresh_id s, {| current := current s; tables := (fresh_id s, t) :: tables s; ctxs := ctxs s; fresh_id := (fresh_id s + 1)%Z; shaking := shaking s; stage := stage s |}).

(** The table at a block; [None] is a use after free. *)
Fixpoint at_block (i : Z) (l : list (Z * table)) : option table :=
  match l with [] => None | (j, t) :: l => if (j =? i)%Z then Some t else at_block i l end.
Fixpoint put_block (i : Z) (t : table) (l : list (Z * table)) : list (Z * table) :=
  match l with [] => [] | (j, u) :: l => if (j =? i)%Z then (j, t) :: l else (j, u) :: put_block i t l end.
Fixpoint drop_block (i : Z) (l : list (Z * table)) : list (Z * table) :=
  match l with [] => [] | (j, u) :: l => if (j =? i)%Z then l else (j, u) :: drop_block i l end.

Definition with_refs (t : table) (n : Z) : table := {| refs := n; hosts := hosts t; fallback := fallback t |}.

Definition ioxd__certs_acquire (s : system) : option (Z * system) :=
  i ← current s; t ← at_block i (tables s);
  Some (i, set_tables s (put_block i (with_refs t (refs t + 1)) (tables s))).

Definition ioxd__certs_release (s : system) (i : Z) : option system :=
  t ← at_block i (tables s);
  let left := (refs t - 1)%Z in
  if (left =? 0)%Z then w ← table_free (ctxs s) t; Some (set_ctxs (set_tables s (drop_block i (tables s))) w)
  else Some (set_tables s (put_block i (with_refs t left) (tables s))).

Definition ioxd__certs_fallback (t : table) : SSL_CTX := fallback t.

(** [ioxd_certs_load]: the store, or nothing; [memory] is what the three allocations give. *)
Definition ioxd_certs_load (dir : bytes) (entries : option (list dirent)) (memory : bool * bool * bool) (w : contexts) : option (option system * contexts) :=
  let '(mt, mc, mo) := memory in
  '(t, w) ← load dir entries mt None w;
  match t with
  | None => Some (None, w)
  | Some t =>
      if negb (mc && mo) then w ← table_free w t; Some (None, w)
      else Some (Some {| current := Some 1%Z; tables := [(1%Z, t)]; ctxs := w; fresh_id := 2; shaking := []; stage := Idle |}, w)
  end.

(** What the threads of a server do to the store, one access of the mutexes at a time. A handshake starts on the
    fallback of the table it takes ([ioxd__handshake_prologue]), its ClientHello looks into that table, and its end
    lets go of it. A reload reads the old table and the directory, swaps, and lets go twice. *)
Inductive event :=
| Start (h : Z)
| Hello (h : Z) (ext : option bytes)
| End (h : Z)
| ReloadBegin
| ReloadLoad (entries : option (list dirent)) (memory : bool)
| ReloadSwap
| ReloadDrop
| ReloadEnd
| Free.

(** A context handed to OpenSSL must be live. *)
Definition use_ctx (s : system) (c : SSL_CTX) : option system := _ ← live (ctxs s) !! c; Some s.

Fixpoint table_of (h : Z) (l : list (Z * Z)) : option Z :=
  match l with [] => None | (g, i) :: l => if (g =? h)%Z then Some i else table_of h l end.
Fixpoint without (h : Z) (l : list (Z * Z)) : list (Z * Z) :=
  match l with [] => [] | (g, i) :: l => if (g =? h)%Z then l else (g, i) :: without h l end.

Definition step (dir : bytes) (s : system) (e : event) : option system :=
  match e with
  | Start h =>
      '(i, s) ← ioxd__certs_acquire s; t ← at_block i (tables s);
      s ← use_ctx s (ioxd__certs_fallback t); Some (set_shaking s ((h, i) :: shaking s))
  | Hello h ext =>
      i ← table_of h (shaking s); t ← at_block i (tables s);
      c ← on_client_hello (Some t) ext;
      match c with Some c => use_ctx s c | None => Some s end
  | End h => i ← table_of h (shaking s); s ← ioxd__certs_release s i; Some (set_shaking s (without h (shaking s)))
  | ReloadBegin => '(i, s) ← ioxd__certs_acquire s; Some (set_stage s (Reading i))
  | ReloadLoad entries memory =>
      match stage s with
      | Reading i =>
          old ← at_block i (tables s); '(t, w) ← load dir entries memory (Some old) (ctxs s);
          let s := set_ctxs s w in
          match t with
          | Some t => let '(j, s) := add_table s t in Some (set_stage s (Loaded i j))
          | None => Some (set_stage s (Leaving i))
          end
      | _ => None
      end
  | ReloadSwap => match stage s with Loaded i j => Some (set_stage (set_current s (Some j)) (Swapped i)) | _ => None end
  | ReloadDrop => match stage s with Swapped i => s ← ioxd__certs_release s i; Some (set_stage s (Leaving i)) | _ => None end
  | ReloadEnd => match stage s with Leaving i => s ← ioxd__certs_release s i; Some (set_stage s Idle) | _ => None end
  | Free => i ← current s; s ← ioxd__certs_release s i; Some (set_current s None)
  end.

(** When a step can happen: a handshake has its own number and ends once, a reload goes through its stages with
    the mutex held, and the store is given back when no handshake and no reload uses it (ioxd/tls.h). *)
Definition can (s : system) (e : event) : Prop :=
  match e with
  | Start h => is_Some (current s) /\ table_of h (shaking s) = None
  | Hello h _ => is_Some (table_of h (shaking s))
  | End h => is_Some (table_of h (shaking s))
  | ReloadBegin => is_Some (current s) /\ stage s = Idle
  | ReloadLoad entries _ => (exists i, stage s = Reading i) /\ (forall es, entries = Some es -> List.NoDup (map d_name es))
  | ReloadSwap => exists i j, stage s = Loaded i j
  | ReloadDrop => exists i, stage s = Swapped i
  | ReloadEnd => exists i, stage s = Leaving i
  | Free => is_Some (current s) /\ shaking s = [] /\ stage s = Idle
  end.

(** [ioxd_certs_reload], nothing else running: 0, or -1 when what was serving still is. *)
Definition ioxd_certs_reload (dir : bytes) (entries : option (list dirent)) (memory : bool) (s : system) : option (Z * system) :=
  s ← step dir s ReloadBegin; s ← step dir s (ReloadLoad entries memory);
  match stage s with
  | Loaded _ _ => s ← step dir s ReloadSwap; s ← step dir s ReloadDrop; s ← step dir s ReloadEnd; Some (0%Z, s)
  | _ => s ← step dir s ReloadEnd; Some ((-1)%Z, s)
  end.

(** ** The references of contexts *)

Definition occurs (c : Z) (cs : list Z) : Z := Z.of_nat (count_occ Z.eq_dec cs c).

(** Each live context is referenced once by each place of [cs] that has it, and there is one. *)
Record ctx_ok (w : contexts) (cs : list Z) : Prop := {
  cx_count c : match live w !! c with Some n => n = occurs c cs /\ (0 < n)%Z | None => occurs c cs = 0%Z end;
  cx_next : (0 < next w)%Z;
  cx_range c n : live w !! c = Some n -> (0 < c < next w)%Z
}.

Lemma occurs_cons c x cs : occurs c (x :: cs) = ((if decide (x = c) then 1 else 0) + occurs c cs)%Z.
Proof. unfold occurs. cbn [count_occ]. destruct (Z.eq_dec x c), (decide (x = c)); try done; lia. Qed.

Lemma occurs_app c l1 l2 : occurs c (l1 ++ l2) = (occurs c l1 + occurs c l2)%Z.
Proof. unfold occurs. rewrite count_occ_app. lia. Qed.

Lemma occurs_nonneg c cs : (0 <= occurs c cs)%Z.
Proof. unfold occurs. lia. Qed.

Lemma occurs_in c cs : In c cs <-> (0 < occurs c cs)%Z.
Proof. unfold occurs. rewrite (count_occ_In Z.eq_dec). lia. Qed.

Lemma ctx_ok_ext w cs cs' : (forall c, occurs c cs' = occurs c cs) -> ctx_ok w cs -> ctx_ok w cs'.
Proof. intros He [H1 H2 H3]. split; [|done|done]. intros c. rewrite He. apply H1. Qed.

Lemma ctx_ok_live w cs c : ctx_ok w cs -> In c cs -> exists n, live w !! c = Some n /\ n = occurs c cs /\ (0 < n)%Z.
Proof. intros Hok Hc. pose proof (cx_count _ _ Hok c) as Hl. apply occurs_in in Hc. destruct (live w !! c) as [n|]; [by exists n|lia]. Qed.

Lemma new_ok w cs : ctx_ok w cs -> ctx_ok (SSL_CTX_new w).2 (next w :: cs) /\ (0 < next w)%Z.
Proof.
  intros [H1 H2 H3]. split; [|done]. assert (Hn : live w !! next w = None) by (destruct (live w !! next w) as [n|] eqn:E; [apply H3 in E; lia|done]).
  split; cbn.
  - intros c. rewrite occurs_cons. specialize (H1 c). destruct (decide (next w = c)) as [<-|Hc].
    + rewrite lookup_insert_eq. rewrite Hn in H1. lia.
    + rewrite lookup_insert_ne by done. destruct (live w !! c); lia.
  - lia.
  - intros c n. destruct (decide (next w = c)) as [<-|Hc]; [rewrite lookup_insert_eq; lia|]. rewrite lookup_insert_ne by done. intros Hl. apply H3 in Hl. lia.
Qed.

Lemma up_ref_ok w cs c : ctx_ok w cs -> In c cs -> exists w', SSL_CTX_up_ref w c = Some w' /\ ctx_ok w' (c :: cs) /\ next w' = next w.
Proof.
  intros Hok Hc. destruct (ctx_ok_live _ _ _ Hok Hc) as (n & Hl & Hn & Hp). unfold SSL_CTX_up_ref. rewrite Hl. eexists. split; [done|]. split; [|done].
  destruct Hok as [H1 H2 H3]. split; cbn; [|done|].
  - intros d. rewrite occurs_cons. specialize (H1 d). destruct (decide (c = d)) as [<-|Hd]; [rewrite lookup_insert_eq; lia|].
    rewrite lookup_insert_ne by done. destruct (live w !! d); lia.
  - intros d m. destruct (decide (c = d)) as [<-|Hd]; [intros _; by eapply H3|]. rewrite lookup_insert_ne by done. apply H3.
Qed.

Lemma free_ok w cs c : ctx_ok w (c :: cs) -> exists w', SSL_CTX_free w c = Some w' /\ ctx_ok w' cs /\ next w' = next w.
Proof.
  intros Hok. destruct (ctx_ok_live _ _ c Hok ltac:(by left)) as (n & Hl & Hn & Hp). unfold SSL_CTX_free. rewrite Hl. eexists. split; [done|]. split; [|done].
  pose proof (occurs_cons c c cs) as Hcc. destruct (decide (c = c)); [|done]. destruct Hok as [H1 H2 H3]. split; cbn; [|done|].
  - intros d. specialize (H1 d). rewrite occurs_cons in H1. destruct (decide (c = d)) as [<-|Hd].
    + destruct (Z.eqb_spec n 1); [rewrite lookup_delete_eq; lia|rewrite lookup_insert_eq; lia].
    + assert (He : (if (n =? 1)%Z then delete c (live w) else <[c:=(n - 1)%Z]> (live w)) !! d = live w !! d)
        by (destruct (n =? 1)%Z; [by rewrite lookup_delete_ne|by rewrite lookup_insert_ne]). rewrite He. destruct (live w !! d); lia.
  - intros d m Hm. destruct (decide (c = d)) as [<-|Hd]; [by eapply H3|]. apply (H3 d m).
    destruct (n =? 1)%Z; [by rewrite lookup_delete_ne in Hm|by rewrite lookup_insert_ne in Hm].
Qed.

Lemma free_hosts_ok hs : forall w cs, ctx_ok w (map ctx hs ++ cs) -> exists w', free_hosts w hs = Some w' /\ ctx_ok w' cs /\ next w' = next w.
Proof.
  induction hs as [|h hs IH]; intros w cs Hok; cbn [free_hosts map app] in *; [by exists w|].
  destruct (free_ok _ _ _ Hok) as (w1 & -> & Hok1 & Hn1). destruct (IH w1 cs Hok1) as (w2 & E & Hok2 & Hn2). exists w2. cbn. rewrite E. split; [done|]. split; [done|]. congruence.
Qed.

(** ** What a load makes *)

(** An entry that is a host's directory, and one whose files make a context that can serve now. *)
Definition host_dir (dir : bytes) (e : dirent) : bool :=
  negb (match d_name e with c :: _ => (c =? ch ".")%Z | [] => false end)
  && negb ((PATH_MAX <=? length dir + 1 + length (d_name e) + length (lit "/cert.pem")) || (PATH_MAX <=? length dir + 1 + length (d_name e) + length (lit "/key.pem")))
  && ((regular e).1 && (regular e).2).
Definition good (e : dirent) : bool := made e && forallb id (set_up e) && negb (not_current e).

Definition ctx_named (hs : list host) (n : bytes) : option SSL_CTX := match List.find (fun h => beq (name h) n) hs with Some h => Some (ctx h) | None => None end.
Definition old_ctx (old : option table) (n : bytes) : option SSL_CTX := match old with Some o => ctx_named (hosts o) n | None => None end.

Lemma context_now_ok e w cs : ctx_ok w cs -> exists c w', context_now e w = Some (c, w') /\ ctx_ok w' (option_list c ++ cs) /\
  c = (if good e then Some (next w) else None) /\ (next w <= next w')%Z /\ (good e = true -> next w < next w')%Z.
Proof.
  intros Hok. unfold context_now, context_for, good. destruct (made e); cbn; [|exists None, w; split_and!; [done..|lia|done]].
  destruct (new_ok _ _ Hok) as [Hok1 Hp]. cbn in Hok1. set (w1 := {| live := _; next := _ |}) in *.
  destruct (forallb id (set_up e)); cbn.
  - destruct (not_current e); cbn.
    + destruct (free_ok _ _ _ Hok1) as (w2 & -> & Hok2 & Hn2). exists None, w2. split_and!; try done. rewrite Hn2. cbn. lia.
    + exists (Some (next w)), w1. split_and!; try done; cbn; lia.
  - destruct (free_ok _ _ _ Hok1) as (w2 & -> & Hok2 & Hn2). exists None, w2. split_and!; try done. rewrite Hn2. cbn. lia.
Qed.

Lemma carry_none hs : forall n w c, ~ In n (map name hs) -> carry w hs n c = Some (c, w).
Proof.
  induction hs as [|h hs IH]; intros n w c Hn; cbn [carry map] in *; [done|]. destruct (beq (name h) n) eqn:E; [apply beq_true in E; exfalso; apply Hn; by left|].
  apply IH. intros ?. apply Hn. by right.
Qed.

Lemma carry_ok hs : forall n w cs, ctx_ok w cs -> incl (map ctx hs) cs -> List.NoDup (map name hs) ->
  exists w', carry w hs n None = Some (ctx_named hs n, w') /\ ctx_ok w' (option_list (ctx_named hs n) ++ cs) /\ next w' = next w.
Proof.
  induction hs as [|h hs IH]; intros n w cs Hok Hi Hnd; cbn [carry map] in *; [by exists w|]. inversion Hnd as [|? ? Hnot Hnd']; subst.
  unfold ctx_named. cbn [List.find]. destruct (beq (name h) n) eqn:E.
  - apply beq_true in E. subst n. destruct (up_ref_ok w cs (ctx h) Hok) as (w1 & -> & Hok1 & Hn1); [apply Hi; by left|]. cbn. rewrite carry_none by done. by exists w1.
  - apply IH; [done| |done]. intros c Hc. apply Hi. by right.
Qed.

Definition old_fits (old : option table) (cs : list Z) : Prop :=
  forall o, old = Some o -> incl (map ctx (hosts o)) cs /\ List.NoDup (map name (hosts o)).

Lemma load_one_ok dir old e t w cs : ctx_ok w (map ctx (hosts t) ++ cs) -> old_fits old cs ->
  exists t' w', load_one dir old e t w = Some (t', w') /\ ctx_ok w' (map ctx (hosts t') ++ cs) /\ (next w <= next w')%Z /\
    (t' = t /\ (host_dir dir e = true -> good e = false /\ old_ctx old (d_name e) = None) \/
     exists c, host_dir dir e = true /\ (0 < c)%Z /\ (if good e then (next w <= c < next w')%Z else old_ctx old (d_name e) = Some c) /\
       t' = {| refs := refs t; hosts := hosts t ++ [{| name := d_name e; ctx := c |}]; fallback := if beq (d_name e) (lit "default") then c else fallback t |}).
Proof.
  intros Hok Hold. unfold load_one, host_dir. set (dot := match d_name e with [] => false | _ => _ end). destruct dot; cbn [negb andb].
  { exists t, w. split_and!; [done..|lia|]. by left. }
  destruct (_ || _); cbn [negb andb]; [exists t, w; split_and!; [done..|lia|]; by left|].
  destruct ((regular e).1 && (regular e).2); cbn [negb]; [|exists t, w; split_and!; [done..|lia|]; by left].
  destruct (context_now_ok e w _ Hok) as (c & w1 & -> & Hok1 & Hc & Hle & Hlt). cbn.
  assert (Hadd : forall c w', ctx_ok w' (c :: map ctx (hosts t) ++ cs) -> ctx_ok w' (map ctx (hosts t ++ [{| name := d_name e; ctx := c |}]) ++ cs)).
  { intros c' w' Hx. eapply ctx_ok_ext; [|exact Hx]. intros d. rewrite map_app, occurs_cons, !occurs_app. cbn [map ctx]. rewrite occurs_cons. change (occurs d []) with 0%Z. lia. }
  destruct c as [c|].
  - destruct (good e) eqn:Eg; [|done]. injection Hc as ->. cbn. eexists _, w1. split; [done|]. split; [by apply Hadd|]. split; [lia|]. right. exists (next w).
    pose proof (cx_next _ _ Hok). specialize (Hlt eq_refl). split_and!; try done; lia.
  - destruct (good e) eqn:Eg; [done|]. set (oh := match old with Some o => hosts o | None => [] end).
    assert (Hoh : incl (map ctx oh) (map ctx (hosts t) ++ cs) /\ List.NoDup (map name oh) /\ ctx_named oh (d_name e) = old_ctx old (d_name e)).
    { unfold oh. destruct old as [o|]; [|split_and!; [intros ? []|constructor|done]]. destruct (Hold o eq_refl) as [H1 H2]. split_and!; try done.
      intros x Hx. apply in_app_iff. right. by apply H1. }
    destruct Hoh as (Hi & Hnd & Hcn). destruct (carry_ok oh (d_name e) w1 _ Hok1 Hi Hnd) as (w2 & -> & Hok2 & Hn2). rewrite Hcn in *. cbn.
    destruct (old_ctx old (d_name e)) as [c|] eqn:Eo; cbn.
    + eexists _, w2. split; [done|]. split; [by apply Hadd|]. split; [lia|]. right. exists c. split_and!; try done.
      destruct (ctx_ok_live _ _ c Hok2 ltac:(by left)) as (n & Hl & _). apply (cx_range _ _ Hok2 _ _ Hl).
    + exists t, w2. split; [done|]. split; [done|]. split; [lia|]. by left.
Qed.

(** What the entries of a directory give, in their order: a host whose files are good has a context newer than
    [lo], one whose files are not keeps the old table's, and an entry that is neither gives nothing. *)
Inductive picks (dir : bytes) (old : option table) (lo : Z) : list dirent -> list host -> Prop :=
| picks_nil : picks dir old lo [] []
| picks_skip e es hs : (host_dir dir e = true -> good e = false /\ old_ctx old (d_name e) = None) -> picks dir old lo es hs -> picks dir old lo (e :: es) hs
| picks_take e es hs c : host_dir dir e = true -> (0 < c)%Z -> (if good e then (lo <= c)%Z else old_ctx old (d_name e) = Some c) ->
    picks dir old lo es hs -> picks dir old lo (e :: es) ({| name := d_name e; ctx := c |} :: hs).

Lemma picks_lower dir old lo lo' es hs : (lo' <= lo)%Z -> picks dir old lo es hs -> picks dir old lo' es hs.
Proof. intros Hle. induction 1; [constructor|by apply picks_skip|apply picks_take; try done]. destruct (good e); [lia|done]. Qed.

Lemma picks_names dir old lo es hs : picks dir old lo es hs -> incl (map name hs) (map d_name es).
Proof. induction 1 as [|e es hs _ _ IH|e es hs c _ _ _ _ IH]; intros n Hn; cbn in *; [done|right; by apply IH|]. destruct Hn; [by left|right; by apply IH]. Qed.

Lemma picks_nodup dir old lo es hs : picks dir old lo es hs -> List.NoDup (map d_name es) -> List.NoDup (map name hs).
Proof.
  induction 1 as [|e es hs _ Hp IH|e es hs c _ _ _ Hp IH]; cbn; intros Hnd; [constructor|inversion Hnd; by apply IH|].
  inversion Hnd as [|? ? Hn Hnd']; subst. constructor; [|by apply IH]. intros Hin. apply Hn. by apply (picks_names _ _ _ _ _ Hp).
Qed.

Lemma picks_pos dir old lo es hs : picks dir old lo es hs -> Forall (fun h => (0 < ctx h)%Z) hs.
Proof. induction 1; [constructor|done|by constructor]. Qed.

Lemma ctx_named_none hs n : ~ In n (map name hs) -> ctx_named hs n = None.
Proof.
  unfold ctx_named. induction hs as [|h hs IH]; cbn; [done|]. intros Hn. destruct (beq (name h) n) eqn:E; [apply beq_true in E; tauto|]. apply IH. tauto.
Qed.

Lemma ctx_named_in hs n c : ctx_named hs n = Some c -> In c (map ctx hs).
Proof.
  unfold ctx_named. destruct (List.find _ hs) as [h|] eqn:E; [|done]. intros [= <-]. apply find_some in E as [E _]. by apply in_map.
Qed.

Lemma load_loop_ok dir old cs es : forall t w, ctx_ok w (map ctx (hosts t) ++ cs) -> old_fits old cs -> List.NoDup (map d_name es) ->
  exists t' w' hs, load_loop dir old es t w = Some (t', w') /\ ctx_ok w' (map ctx (hosts t') ++ cs) /\ (next w <= next w')%Z /\
    picks dir old (next w) es hs /\ hosts t' = hosts t ++ hs /\ refs t' = refs t /\
    fallback t' = match ctx_named hs (lit "default") with Some c => c | None => fallback t end.
Proof.
  induction es as [|e es IH]; intros t w Hok Hold Hnd; cbn [load_loop map] in *.
  { exists t, w, []. split_and!; try done; try lia; [constructor|by rewrite app_nil_r]. }
  inversion Hnd as [|? ? Hnot Hnd']; subst. destruct (load_one_ok dir old e t w cs Hok Hold) as (t1 & w1 & -> & Hok1 & Hle & H1). cbn [mbind option_bind].
  destruct (IH t1 w1 Hok1 Hold Hnd') as (t2 & w2 & hs & -> & Hok2 & Hle2 & Hp & Hh & Hr & Hf). destruct H1 as [[-> Hskip]|(c & Hd & Hc & Hg & ->)].
  - exists t2, w2, hs. split_and!; try done; [lia|]. apply picks_skip; [done|]. by eapply picks_lower.
  - exists t2, w2, ({| name := d_name e; ctx := c |} :: hs). cbn [hosts refs fallback] in *. split_and!; try done; [lia| | |].
    + apply picks_take; try done; [destruct (good e); [lia|done]|]. by eapply picks_lower.
    + by rewrite Hh, <- app_assoc.
    + rewrite Hf. unfold ctx_named at 2. cbn [List.find name]. destruct (beq (d_name e) (lit "default")) eqn:Eb; [|done].
      apply beq_true in Eb. rewrite ctx_named_none; [done|]. rewrite <- Eb. intros Hin. apply Hnot. by apply (picks_names _ _ _ _ _ Hp).
Qed.

(** A table that can serve. *)
Record table_ok (t : table) : Prop := {
  tb_names : List.NoDup (map name (hosts t));
  tb_fallback : In (fallback t) (map ctx (hosts t))
}.

Lemma previous_in old t c : previous old t = Some c -> In c (map ctx (hosts t)).
Proof.
  unfold previous. destruct old as [o|]; [|done]. destruct (fallback_name o) as [p|]; [|done]. destruct (List.find _ (hosts t)) as [h|] eqn:E; [|done].
  intros [= <-]. apply find_some in E as [E _]. by apply in_map.
Qed.

(** What a load gives, and why it gives nothing. *)
Definition load_result (dir : bytes) (entries : option (list dirent)) (memory : bool) (old : option table) (lo : Z) (r : option table) : Prop :=
  match entries, memory with
  | Some es, true =>
      exists hs, picks dir old lo es hs /\
      let before := previous old {| refs := 1; hosts := hs; fallback := 0 |} in
      match r with
      | Some t => hs <> [] /\ t = {| refs := 1; hosts := hs; fallback := fallback t |} /\
          match ctx_named hs (lit "default") with Some c => fallback t = c | None => before = Some (fallback t) end
      | None => hs = [] \/ ctx_named hs (lit "default") = None /\ before = None
      end
  | _, _ => r = None
  end.

Lemma load_sound dir entries memory old w cs : ctx_ok w cs -> old_fits old cs -> (forall es, entries = Some es -> List.NoDup (map d_name es)) ->
  exists r w', load dir entries memory old w = Some (r, w') /\ ctx_ok w' (match r with Some t => map ctx (hosts t) | None => [] end ++ cs) /\
    match r with Some t => table_ok t /\ refs t = 1%Z | None => True end /\ load_result dir entries memory old (next w) r.
Proof.
  intros Hok Hold Hnd. unfold load, load_result. destruct entries as [es|]; [|by exists None, w]. destruct memory; cbn [negb]; [|by exists None, w]. specialize (Hnd es eq_refl).
  destruct (load_loop_ok dir old cs es {| refs := 1; hosts := []; fallback := 0 |} w Hok Hold Hnd) as (t & w1 & hs & -> & Hok1 & _ & Hp & Hh & Hr & Hf).
  cbn [hosts refs fallback app mbind option_bind] in *.
  assert (Hfree : exists w', table_free w1 t = Some w' /\ ctx_ok w' cs) by (destruct (free_hosts_ok (hosts t) w1 cs Hok1) as (w' & ? & ? & _); by exists w').
  destruct Hfree as (w2 & Hw2 & Hok2). assert (Hpv : previous old t = previous old {| refs := 1; hosts := hs; fallback := 0 |}) by (unfold previous; by rewrite Hh).
  destruct (Nat.eqb_spec (length (hosts t)) 0) as [Hz|Hz].
  { rewrite Hw2. exists None, w2. split_and!; try done. exists hs. split; [done|]. left. rewrite <- Hh. by apply length_zero_iff_nil. }
  assert (Hne : hs <> []) by (intros ->; by rewrite Hh in Hz). pose proof (picks_nodup _ _ _ _ _ Hp Hnd) as Hn. pose proof (picks_pos _ _ _ _ _ Hp) as Hpos.
  destruct (Z.eqb_spec (fallback t) 0) as [Hz0|Hz0]; cbn [negb].
  - assert (Hdef : ctx_named hs (lit "default") = None).
    { destruct (ctx_named hs (lit "default")) as [c|] eqn:E; [|done]. apply ctx_named_in in E. apply in_map_iff in E as (h & <- & Hin).
      rewrite Forall_forall in Hpos. specialize (Hpos h ltac:(by apply list_elem_of_In)). lia. }
    destruct (previous old t) as [c|] eqn:Ep.
    + exists (Some {| refs := refs t; hosts := hosts t; fallback := c |}), w1. split; [reflexivity|]. cbn [hosts refs]. split; [done|]. split; [split; [|done]; split; cbn; [by rewrite Hh|]|].
      * by apply previous_in in Ep.
      * exists hs. split; [done|]. cbn [fallback]. rewrite Hdef, Hh, Hr. by split_and!.
    + rewrite Hw2. exists None, w2. split_and!; try done. exists hs. split; [done|]. by right.
  - exists (Some t), w1. split; [done|]. split; [done|]. destruct (ctx_named hs (lit "default")) as [c|] eqn:E; [|done].
    split; [split; [|done]; split; [by rewrite Hh|rewrite Hh, Hf; by apply ctx_named_in in E]|].
    exists hs. split; [done|]. split; [done|]. split; [|by rewrite E]. destruct t; cbn in *; congruence.
Qed.

(** ** The invariant of the store *)

Definition stage_holds (x : reload_stage) : list Z :=
  match x with Idle => [] | Reading i => [i] | Loaded i j => [i; j] | Swapped i => [i; i] | Leaving i => [i] end.

(** Who holds which table: the store, each handshake, and the reload under way. *)
Definition holders (s : system) : list Z := option_list (current s) ++ map snd (shaking s) ++ stage_holds (stage s).

Definition all_ctx (l : list (Z * table)) : list Z := flat_map (fun p => map ctx (hosts p.2)) l.

(** A reload works on the table the store has until it swaps. *)
Definition reload_fits (c : option Z) (x : reload_stage) : Prop :=
  match x with Reading i | Loaded i _ => c = Some i | _ => True end.

(** The tables of [ts] are held exactly as [hs] says, each by someone, and the contexts of [w] exactly by them. *)
Record sound (ts : list (Z * table)) (w : contexts) (m : Z) (hs : list Z) : Prop := {
  so_ids : List.NoDup (map fst ts);
  so_fresh : Forall (fun p => (p.1 < m)%Z) ts;
  so_refs i : match at_block i ts with Some t => refs t = occurs i hs /\ (0 < refs t)%Z | None => occurs i hs = 0%Z end;
  so_ok i t : at_block i ts = Some t -> table_ok t;
  so_ctx : ctx_ok w (all_ctx ts)
}.

Definition inv (s : system) : Prop := sound (tables s) (ctxs s) (fresh_id s) (holders s) /\ reload_fits (current s) (stage s).

(** A table is never written to but for its references. *)
Definition same_tables (ts ts' : list (Z * table)) : Prop :=
  forall i t t', at_block i ts = Some t -> at_block i ts' = Some t' -> hosts t' = hosts t /\ fallback t' = fallback t.

Lemma at_put i j u l t : at_block i l = Some t -> at_block j (put_block i u l) = if decide (j = i) then Some u else at_block j l.
Proof.
  induction l as [|[k v] l IH]; cbn; [done|]. destruct (Z.eqb_spec k i) as [->|Hk].
  - intros _. cbn. destruct (Z.eqb_spec i j), (decide (j = i)); try done; congruence.
  - intros Ht. cbn. destruct (Z.eqb_spec k j) as [->|Hj]; [by destruct (decide (j = i))|]. by apply IH.
Qed.

Lemma at_put_eq i u l t : at_block i l = Some t -> at_block i (put_block i u l) = Some u.
Proof. intros Ht. rewrite (at_put _ _ _ _ _ Ht). by destruct (decide (i = i)). Qed.

Lemma put_ids i u l : map fst (put_block i u l) = map fst l.
Proof. induction l as [|[k v] l IH]; cbn; [done|]. destruct (k =? i)%Z; cbn; [done|]. by rewrite IH. Qed.

Lemma put_ctx i u l t : at_block i l = Some t -> hosts u = hosts t -> all_ctx (put_block i u l) = all_ctx l.
Proof.
  intros Ht Hh. induction l as [|[k v] l IH]; cbn in *; [done|]. destruct (k =? i)%Z; cbn; [injection Ht as ->; by rewrite Hh|]. f_equal. by apply IH.
Qed.

Lemma at_in i l t : at_block i l = Some t -> In i (map fst l).
Proof. induction l as [|[k v] l IH]; cbn; [done|]. destruct (Z.eqb_spec k i); [by left|right; auto]. Qed.

Lemma at_none i l : ~ In i (map fst l) -> at_block i l = None.
Proof. destruct (at_block i l) as [t|] eqn:E; [|done]. intros Hn. destruct Hn. by eapply at_in. Qed.

Lemma drop_ids i l : incl (map fst (drop_block i l)) (map fst l).
Proof.
  induction l as [|[k v] l IH]; cbn; [by intros x|]. destruct (k =? i)%Z; intros x Hx; [by right|]. cbn in Hx. destruct Hx; [by left|right; by apply IH].
Qed.

Lemma drop_nodup i l : List.NoDup (map fst l) -> List.NoDup (map fst (drop_block i l)).
Proof.
  induction l as [|[k v] l IH]; cbn; [done|]. intros Hn. inversion Hn as [|? ? H1 H2]; subst. destruct (k =? i)%Z; [done|].
  cbn. constructor; [|by apply IH]. intros Hin. apply H1. by apply (drop_ids i).
Qed.

Lemma at_drop i j l : List.NoDup (map fst l) -> at_block j (drop_block i l) = if decide (j = i) then None else at_block j l.
Proof.
  induction l as [|[k v] l IH]; cbn; intros Hn; [by destruct (decide _)|]. inversion Hn as [|? ? H1 H2]; subst. destruct (Z.eqb_spec k i) as [->|Hk].
  - destruct (decide (j = i)) as [->|Hj]; [by apply at_none|]. destruct (Z.eqb_spec i j); [congruence|done].
  - cbn. destruct (Z.eqb_spec k j) as [->|Hj]; [by destruct (decide (j = i))|]. by apply IH.
Qed.

Lemma drop_ctx c i l t : at_block i l = Some t -> occurs c (all_ctx l) = occurs c (map ctx (hosts t) ++ all_ctx (drop_block i l)).
Proof.
  induction l as [|[k v] l IH]; cbn [at_block drop_block]; [done|]. destruct (k =? i)%Z; [by intros [= ->]|]. intros Ht. specialize (IH Ht).
  change (all_ctx ((k, v) :: l)) with (map ctx (hosts v) ++ all_ctx l). change (all_ctx ((k, v) :: drop_block i l)) with (map ctx (hosts v) ++ all_ctx (drop_block i l)).
  rewrite !occurs_app, IH, occurs_app. lia.
Qed.

Lemma drop_forall (P : Z * table -> Prop) i l : Forall P l -> Forall P (drop_block i l).
Proof. induction 1 as [|[k v] l Hx Hl IH]; cbn; [done|]. destruct (k =? i)%Z; [done|by constructor]. Qed.

Lemma put_fresh m i u l : Forall (fun p : Z * table => (p.1 < m)%Z) l -> Forall (fun p => (p.1 < m)%Z) (put_block i u l).
Proof. induction 1 as [|[k v] l Hx Hl IH]; cbn; [done|]. destruct (k =? i)%Z; by constructor. Qed.

Lemma sound_ext ts w m hs hs' : (forall i, occurs i hs' = occurs i hs) -> sound ts w m hs -> sound ts w m hs'.
Proof. intros He [H1 H2 H3 H4 H5]. split; try done. intros i. rewrite He. apply H3. Qed.

Lemma sound_at ts w m hs i : sound ts w m hs -> In i hs -> exists t, at_block i ts = Some t /\ refs t = occurs i hs /\ (0 < refs t)%Z /\ table_ok t.
Proof.
  intros Hs Hi. pose proof (so_refs _ _ _ _ Hs i) as Hr. apply occurs_in in Hi. destruct (at_block i ts) as [t|] eqn:E; [|lia].
  exists t. destruct Hr. split_and!; try done. by eapply so_ok.
Qed.

Lemma same_tables_refl ts : same_tables ts ts.
Proof. intros i t t' E E'. rewrite E in E'. by injection E' as ->. Qed.

Lemma same_tables_put i t n ts : at_block i ts = Some t -> same_tables ts (put_block i (with_refs t n) ts).
Proof.
  intros Ht j u u' Hu. rewrite (at_put _ _ _ _ _ Ht). destruct (decide (j = i)) as [->|Hj].
  - rewrite Ht in Hu. injection Hu as ->. by intros [= <-].
  - rewrite Hu. by intros [= ->].
Qed.

Lemma same_tables_drop i ts : List.NoDup (map fst ts) -> same_tables ts (drop_block i ts).
Proof. intros Hn j u u' Hu. rewrite at_drop by done. destruct (decide (j = i)); [done|]. rewrite Hu. by intros [= ->]. Qed.

(** Setting a table's references to what the holders then are. *)
Lemma sound_put ts w m hs hs' i t n : sound ts w m hs -> at_block i ts = Some t -> n = occurs i hs' -> (0 < n)%Z ->
  (forall j, j <> i -> occurs j hs' = occurs j hs) -> sound (put_block i (with_refs t n) ts) w m hs'.
Proof.
  intros [H1 H2 H3 H4 H5] Ht Hn Hp He. split.
  - by rewrite put_ids.
  - by apply put_fresh.
  - intros j. rewrite (at_put _ _ _ _ _ Ht). destruct (decide (j = i)) as [->|Hj]; [done|]. specialize (H3 j). rewrite He by done. done.
  - intros j u. rewrite (at_put _ _ _ _ _ Ht). destruct (decide (j = i)) as [->|Hj]; [|apply H4]. intros [= <-]. by destruct (H4 _ _ Ht).
  - by rewrite (put_ctx _ _ _ _ Ht).
Qed.

Lemma sound_drop ts w m hs hs' i t : sound ts w m hs -> at_block i ts = Some t -> occurs i hs' = 0%Z ->
  (forall j, j <> i -> occurs j hs' = occurs j hs) -> exists w', table_free w t = Some w' /\ sound (drop_block i ts) w' m hs'.
Proof.
  intros [H1 H2 H3 H4 H5] Ht Hz He.
  destruct (free_hosts_ok (hosts t) w (all_ctx (drop_block i ts))) as (w' & Hw & Hok & _).
  { eapply ctx_ok_ext; [|exact H5]. intros c. by rewrite (drop_ctx c _ _ _ Ht). }
  exists w'. split; [done|]. split; try done.
  - by apply drop_nodup.
  - by apply drop_forall.
  - intros j. rewrite at_drop by done. destruct (decide (j = i)) as [->|Hj]; [done|]. specialize (H3 j). by rewrite He.
  - intros j u. rewrite at_drop by done. destruct (decide (j = i)); [done|apply H4].
Qed.

Lemma acquire_ok s i : sound (tables s) (ctxs s) (fresh_id s) (holders s) -> current s = Some i ->
  exists t, at_block i (tables s) = Some t /\ table_ok t /\ ioxd__certs_acquire s = Some (i, set_tables s (put_block i (with_refs t (refs t + 1)) (tables s))) /\
    sound (put_block i (with_refs t (refs t + 1)) (tables s)) (ctxs s) (fresh_id s) (i :: holders s).
Proof.
  intros Hs Hc. destruct (sound_at _ _ _ _ i Hs) as (t & Ht & Hr & Hp & Hok); [unfold holders; rewrite Hc; by left|]. exists t.
  split; [done|]. split; [done|]. split; [unfold ioxd__certs_acquire; by rewrite Hc; cbn; rewrite Ht|].
  eapply sound_put; try done; [|lia|].
  - rewrite occurs_cons. destruct (decide (i = i)); [lia|done].
  - intros j Hj. rewrite occurs_cons. destruct (decide (i = j)); [congruence|lia].
Qed.

Lemma release_ok s i hs : sound (tables s) (ctxs s) (fresh_id s) (i :: hs) ->
  exists ts w, ioxd__certs_release s i = Some (set_ctxs (set_tables s ts) w) /\ sound ts w (fresh_id s) hs /\ same_tables (tables s) ts.
Proof.
  intros Hs. destruct (sound_at _ _ _ _ i Hs) as (t & Ht & Hr & Hp & Hok); [by left|]. rewrite occurs_cons in Hr. destruct (decide (i = i)); [|done].
  assert (He : forall j, j <> i -> occurs j hs = occurs j (i :: hs)) by (intros j Hj; rewrite occurs_cons; destruct (decide (i = j)); [congruence|lia]).
  unfold ioxd__certs_release. rewrite Ht. cbn [mbind option_bind]. destruct (Z.eqb_spec (refs t - 1) 0) as [Hz|Hz].
  - destruct (sound_drop _ _ _ _ hs i t Hs Ht) as (w & -> & Hs'); [lia|done|]. eexists _, w. split; [reflexivity|]. split; [exact Hs'|]. apply same_tables_drop, Hs.
  - exists (put_block i (with_refs t (refs t - 1)) (tables s)), (ctxs s). split; [by destruct s|]. split; [|by apply same_tables_put]. eapply sound_put; try done; [lia|]. pose proof (occurs_nonneg i hs). lia.
Qed.

(** ** A ClientHello finds a live context *)

Lemma host_loop_in hs a c : host_loop hs a = Some c -> In c (map ctx hs).
Proof. induction hs as [|h hs IH]; cbn; [done|]. destruct (host_eq a (name h)); [intros [= <-]; by left|right; by apply IH]. Qed.

Lemma lookup_in t a c : lookup t a = Some c -> In c (map ctx (hosts t)).
Proof.
  unfold lookup. destruct (host_loop (hosts t) (no_root a)) eqn:E; [intros [= <-]; by eapply host_loop_in|]. destruct (memchr _ _); [|done]. cbn zeta.
  destruct (_ <? _); [|done]. apply host_loop_in.
Qed.

Lemma hello_cases t ext : exists r, on_client_hello t ext = Some r /\
  (r = None \/ exists t0 x a, t = Some t0 /\ ext = Some x /\ a = drop 5 x /\ 5 <= length x /\ r = lookup t0 a /\
    x = take 5 x ++ a /\ (Z.lor (Z.shiftl (nth 3 x 0) 8) (nth 4 x 0) = Z.of_nat (length a))%Z).
Proof.
  unfold on_client_hello. destruct t as [t|]; [|exists None; split; [done|by left]]. destruct ext as [x|]; [|exists None; split; [done|by left]].
  destruct (Nat.ltb_spec (length x) 5) as [Hl|Hl]; [exists None; split; [done|by left]|].
  destruct x as [|b0 [|b1 [|b2 [|b3 [|b4 a]]]]]; cbn [length] in Hl; try lia. cbn [lookup list_lookup mbind option_bind nth]. cbn.
  set (nl := Z.lor (Z.shiftl b3 8) b4). set (ll := Z.lor _ b1).
  destruct (Z.eqb_spec b2 0); cbn; [|exists None; split; [done|by left]]. destruct (Z.eqb_spec (nl + 3) ll); cbn; [|exists None; split; [done|by left]].
  destruct (Z.eqb_spec (ll + 2) (Z.of_nat (S (S (S (S (S (length a)))))))); cbn; [|exists None; split; [done|by left]].
  destruct (Nat.leb_spec (S (S (S (S (S (Z.to_nat nl)))))) (S (S (S (S (S (length a))))))) as [Hle|]; [|lia].
  eexists. split; [done|]. right. exists t, (b0 :: b1 :: b2 :: b3 :: b4 :: a), a. cbn. unfold span. cbn.
  replace (Z.to_nat nl) with (length a) by lia. rewrite firstn_all. split_and!; try done; lia.
Qed.

Lemma use_ok s hs i t c : sound (tables s) (ctxs s) (fresh_id s) hs -> at_block i (tables s) = Some t -> In c (map ctx (hosts t)) -> use_ctx s c = Some s.
Proof.
  intros Hs Ht Hc. unfold use_ctx. destruct (ctx_ok_live _ _ c (so_ctx _ _ _ _ Hs)) as (n & -> & _); [|done].
  apply occurs_in. rewrite (drop_ctx c _ _ _ Ht), occurs_app. apply occurs_in in Hc. pose proof (occurs_nonneg c (all_ctx (drop_block i (tables s)))). lia.
Qed.

(** ** Every step *)

Definition sound_step (dir : bytes) (s : system) (e : event) : Prop :=
  exists s', step dir s e = Some s' /\ inv s' /\ same_tables (tables s) (tables s').

Lemma occurs_nil c : occurs c [] = 0%Z.
Proof. done. Qed.

Lemma occurs_option c x : occurs c (option_list (Some x)) = if decide (x = c) then 1%Z else 0%Z.
Proof. unfold occurs. cbn. by destruct (Z.eq_dec x c), (decide (x = c)). Qed.

Create HintDb occurs discriminated.
#[export] Hint Rewrite occurs_cons occurs_app occurs_nil occurs_option : occurs.

(** Two lists of holders that are the same but for their order. *)
Ltac same_holders := intros ?; unfold holders; cbn [option_list app map snd stage_holds current shaking stage set_shaking set_tables set_ctxs set_stage set_current fresh_id]; autorewrite with occurs; repeat case_decide; lia.

Lemma without_occurs h l i j : table_of h l = Some i -> occurs j (map snd l) = occurs j (i :: map snd (without h l)).
Proof.
  induction l as [|[g k] l IH]; cbn [table_of without map snd]; [done|]. destruct (g =? h)%Z; [by intros [= ->]|]. intros Hi. specialize (IH Hi).
  cbn [map snd]. autorewrite with occurs in *. lia.
Qed.

Lemma table_of_in h l i : table_of h l = Some i -> In i (map snd l).
Proof. induction l as [|[g k] l IH]; cbn; [done|]. destruct (g =? h)%Z; [intros [= ->]; by left|right; auto]. Qed.

Lemma start_sound dir s h : inv s -> can s (Start h) -> sound_step dir s (Start h).
Proof.
  intros [Hs Hf] [[i Hc] Ht]. destruct (acquire_ok s i Hs Hc) as (t & Hi & Hok & Ha & Hs'). unfold sound_step. cbn [step]. rewrite Ha. cbn [mbind option_bind].
  pose proof (at_put_eq _ (with_refs t (refs t + 1)) _ _ Hi) as Hu. cbn [tables set_tables]. rewrite Hu. cbn [mbind option_bind].
  rewrite (use_ok (set_tables s _) _ i (with_refs t (refs t + 1)) (ioxd__certs_fallback (with_refs t (refs t + 1))) Hs' Hu (tb_fallback _ Hok)).
  eexists. split; [done|]. split; [|by apply same_tables_put]. split; [|done]. eapply sound_ext; [|exact Hs']. same_holders.
Qed.

Lemma hello_ok dir s h ext : inv s -> can s (Hello h ext) -> sound_step dir s (Hello h ext).
Proof.
  intros [Hs Hf] [i Hi]. destruct (sound_at _ _ _ _ i Hs) as (t & Ht & _ & _ & Hok).
  { unfold holders. apply in_app_iff. right. apply in_app_iff. left. by eapply table_of_in. }
  exists s. split; [|split; [done|apply same_tables_refl]]. cbn [step]. rewrite Hi. cbn [mbind option_bind]. rewrite Ht. cbn [mbind option_bind].
  destruct (hello_cases (Some t) ext) as (r & -> & Hr). cbn [mbind option_bind]. destruct r as [c|]; [|done].
  destruct Hr as [?|(t0 & x & a & [= <-] & _ & _ & _ & Hl & _)]; [done|]. eapply use_ok; [exact Hs|exact Ht|by eapply lookup_in].
Qed.

Lemma end_ok dir s h : inv s -> can s (End h) -> sound_step dir s (End h).
Proof.
  intros [Hs Hf] [i Hi]. destruct (release_ok s i (option_list (current s) ++ map snd (without h (shaking s)) ++ stage_holds (stage s))) as (ts & w & Hr & Hs' & Hst).
  { eapply sound_ext; [|exact Hs]. intros j. unfold holders. pose proof (without_occurs h _ i j Hi). autorewrite with occurs in *. lia. }
  eexists. cbn [step]. rewrite Hi. cbn [mbind option_bind]. rewrite Hr. split; [done|]. by split.
Qed.

Lemma reload_begin_ok dir s : inv s -> can s ReloadBegin -> sound_step dir s ReloadBegin.
Proof.
  intros [Hs Hf] [[i Hc] Hi]. destruct (acquire_ok s i Hs Hc) as (t & Ht & Hok & Ha & Hs'). unfold sound_step. cbn [step]. rewrite Ha. cbn [mbind option_bind].
  eexists. split; [done|]. split; [|by apply same_tables_put]. split; [|done]. eapply sound_ext; [|exact Hs']. unfold holders. rewrite Hi. same_holders.
Qed.

Lemma sound_add ts w0 w m hs t : sound ts w0 m hs -> ctx_ok w (map ctx (hosts t) ++ all_ctx ts) -> table_ok t -> refs t = 1%Z -> sound ((m, t) :: ts) w (m + 1) (m :: hs).
Proof.
  intros [H1 H2 H3 H4 H5] Hw Hok Hr. rewrite Forall_forall in H2. assert (Hm : ~ In m (map fst ts)).
  { intros Hin. apply in_map_iff in Hin as ([k v] & Hk & Hin). apply list_elem_of_In in Hin. specialize (H2 _ Hin). cbn in *. lia. }
  pose proof (H3 m) as Hz. rewrite at_none in Hz by done. split.
  - cbn. by constructor.
  - constructor; [cbn; lia|]. apply Forall_forall. intros x Hx. specialize (H2 x Hx). lia.
  - intros i. cbn [at_block]. autorewrite with occurs. destruct (Z.eqb_spec m i) as [<-|Hi].
    + rewrite Hr, Hz. destruct (decide (m = m)); [lia|done].
    + destruct (decide (m = i)); [done|]. specialize (H3 i). destruct (at_block i ts); lia.
  - intros i u. cbn [at_block]. destruct (m =? i)%Z; [by intros [= <-]|apply H4].
  - exact Hw.
Qed.

Lemma same_tables_add m t ts : at_block m ts = None -> same_tables ts ((m, t) :: ts).
Proof. intros Hm i u u' Hu. cbn [at_block]. destruct (Z.eqb_spec m i) as [->|Hi]; [congruence|]. rewrite Hu. by intros [= ->]. Qed.

Lemma all_ctx_in i t ts : at_block i ts = Some t -> incl (map ctx (hosts t)) (all_ctx ts).
Proof. intros Ht c Hc. apply occurs_in. rewrite (drop_ctx c _ _ _ Ht). autorewrite with occurs. apply occurs_in in Hc. pose proof (occurs_nonneg c (all_ctx (drop_block i ts))). lia. Qed.

Lemma fresh_none ts w m hs : sound ts w m hs -> at_block m ts = None.
Proof.
  intros Hs. apply at_none. intros Hin. apply in_map_iff in Hin as ([k v] & Hk & Hin). apply list_elem_of_In in Hin.
  pose proof (so_fresh _ _ _ _ Hs) as Hf. rewrite Forall_forall in Hf. specialize (Hf _ Hin). cbn in *. lia.
Qed.

(** The load of a reload, which has the store's table as the old one. *)
Lemma reload_load_ok dir s entries memory i : inv s -> stage s = Reading i -> (forall es, entries = Some es -> List.NoDup (map d_name es)) ->
  exists t r s', at_block i (tables s) = Some t /\ step dir s (ReloadLoad entries memory) = Some s' /\ inv s' /\ same_tables (tables s) (tables s') /\
    load_result dir entries memory (Some t) (next (ctxs s)) r /\ current s' = current s /\ shaking s' = shaking s /\
    match r with
    | Some fresh => stage s' = Loaded i (fresh_id s) /\ at_block (fresh_id s) (tables s') = Some fresh
    | None => stage s' = Leaving i
    end.
Proof.
  intros [Hs Hf] Hi Hnd. rewrite Hi in Hf. cbn in Hf. destruct (sound_at _ _ _ _ i Hs) as (t & Ht & _ & _ & Hok); [unfold holders; rewrite Hf; by left|].
  destruct (load_sound dir entries memory (Some t) (ctxs s) (all_ctx (tables s)) (so_ctx _ _ _ _ Hs)) as (r & w & El & Hw & Hr & Hlr); [|done|].
  { intros o [= <-]. split; [by eapply all_ctx_in|apply Hok]. }
  exists t, r. cbn [step]. rewrite Hi, Ht. cbn [mbind option_bind]. rewrite El. cbn [mbind option_bind]. destruct r as [u|]; cbn [add_table].
  - destruct Hr as [Hu Hr1]. eexists. split; [done|]. split; [done|]. split; [split|]; [|done|].
    + eapply sound_ext; [|by eapply sound_add]. cbn. unfold holders. rewrite Hi. same_holders.
    + split; [apply same_tables_add; by eapply fresh_none|]. split_and!; try done. cbn. by rewrite Z.eqb_refl.
  - eexists. split; [done|]. split; [done|]. split; [split|]; [|done|split_and!; try done; apply same_tables_refl].
    destruct Hs as [H1 H2 H3 H4 H5]. split; try done. intros j. specialize (H3 j). unfold holders in *. by rewrite Hi in H3.
Qed.

Lemma reload_swap_ok dir s i j : inv s -> stage s = Loaded i j -> exists s', step dir s ReloadSwap = Some s' /\ inv s' /\ tables s' = tables s /\ current s' = Some j /\ shaking s' = shaking s /\ stage s' = Swapped i.
Proof.
  intros [Hs Hf] Hi. rewrite Hi in Hf. cbn in Hf. cbn [step]. rewrite Hi. eexists. split; [done|]. split; [|done]. split; [|done].
  eapply sound_ext; [|exact Hs]. unfold holders. rewrite Hf, Hi. same_holders.
Qed.

(** A reload lets go of the old table, once after the swap and once at its end. *)
Lemma reload_release_ok dir s i e x : inv s -> (stage s = Swapped i /\ e = ReloadDrop /\ x = Leaving i \/ stage s = Leaving i /\ e = ReloadEnd /\ x = Idle) ->
  exists s', step dir s e = Some s' /\ inv s' /\ same_tables (tables s) (tables s') /\ current s' = current s /\ shaking s' = shaking s /\ stage s' = x.
Proof.
  intros [Hs Hf] Hx. destruct (release_ok s i (option_list (current s) ++ map snd (shaking s) ++ stage_holds x)) as (ts & w & Hr & Hs' & Hst).
  { eapply sound_ext; [|exact Hs]. unfold holders. destruct Hx as [(-> & _ & ->)|(-> & _ & ->)]; same_holders. }
  eexists. destruct Hx as [(Hi & -> & ->)|(Hi & -> & ->)]; cbn [step]; rewrite Hi; cbn [mbind option_bind]; rewrite Hr; (split; [done|]); (split; [|done]); by split.
Qed.

Lemma free_store_ok dir s i : inv s -> current s = Some i -> shaking s = [] -> stage s = Idle -> sound_step dir s Free.
Proof.
  intros [Hs Hf] Hc Hh Hi. destruct (release_ok s i []) as (ts & w & Hr & Hs' & Hst).
  { eapply sound_ext; [|exact Hs]. unfold holders. rewrite Hc, Hh, Hi. same_holders. }
  unfold sound_step. cbn [step]. rewrite Hc. cbn [mbind option_bind]. rewrite Hr. eexists. split; [done|]. split; [|done]. split; [|by cbn; rewrite Hi].
  unfold holders. cbn. by rewrite Hh, Hi.
Qed.

Lemma step_sound dir s e : inv s -> can s e -> sound_step dir s e.
Proof.
  intros Hv Hc. destruct e as [h|h ext|h| |entries memory| | | |].
  - by apply start_sound.
  - by apply hello_ok.
  - by apply end_ok.
  - by apply reload_begin_ok.
  - destruct Hc as [[i Hi] Hnd]. destruct (reload_load_ok dir s entries memory i Hv Hi Hnd) as (t & r & s' & _ & ? & ? & ? & _). by exists s'.
  - destruct Hc as (i & j & Hi). destruct (reload_swap_ok dir s i j Hv Hi) as (s' & ? & ? & Ht & _). exists s'. split_and!; try done. rewrite Ht. apply same_tables_refl.
  - destruct Hc as (i & Hi). destruct (reload_release_ok dir s i ReloadDrop (Leaving i) Hv) as (s' & ? & ? & ? & _); [by left|]. by exists s'.
  - destruct Hc as (i & Hi). destruct (reload_release_ok dir s i ReloadEnd Idle Hv) as (s' & ? & ? & ? & _); [by right|]. by exists s'.
  - destruct Hc as ([i Hi] & ? & ?). by eapply free_store_ok.
Qed.

(** ** Which host answers a name

    A server_name extension that is one host name and nothing else, the name without its root dot, what follows
    the first label, and the host that answers: the one of that name, else the parent's wildcard, whose directory
    starts with an underscore. *)
Definition sni_ext (a : bytes) : bytes :=
  let n := Z.of_nat (length a) in [(n + 3) / 256; (n + 3) mod 256; 0; n / 256; n mod 256]%Z ++ a.

Definition unrooted (a : bytes) : bytes :=
  match rev a with d :: c :: r => if (d =? ch ".")%Z then rev (c :: r) else a | _ => a end.
Fixpoint from_dot (a : bytes) : option bytes :=
  match a with [] => None | c :: m => if (c =? ch ".")%Z then Some a else from_dot m end.
Definition lower (a : bytes) : bytes := map fold a.
Definition named (hs : list host) (a : bytes) : option SSL_CTX :=
  match List.find (fun h => beq (lower (name h)) (lower a)) hs with Some h => Some (ctx h) | None => None end.
Definition serving (hs : list host) (a : bytes) : option SSL_CTX :=
  match named hs (unrooted a) with
  | Some c => Some c
  | None => match from_dot (unrooted a) with Some m => if length m <? 255 then named hs (ch "_" :: m) else None | None => None end
  end.

Lemma host_eq_lower a b : host_eq a b = beq (lower b) (lower a).
Proof.
  unfold host_eq, beq, lower. destruct (Nat.eqb_spec (length b) (length a)) as [Hl|Hl]; cbn [negb].
  - revert b Hl. induction a as [|x a IH]; intros [|y b] Hl; cbn in *; try done. destruct (Z.eqb_spec (fold x) (fold y)) as [E|E]; cbn [negb].
    + rewrite IH by lia. rewrite E. apply bool_decide_ext. split; [by intros ->|by intros [= ?]].
    + symmetry. apply bool_decide_eq_false. intros [= ? ?]. congruence.
  - symmetry. apply bool_decide_eq_false. intros E. apply Hl. apply (f_equal length) in E. by rewrite !length_map in E.
Qed.

Lemma host_loop_named hs a : host_loop hs a = named hs a.
Proof. unfold named. induction hs as [|h hs IH]; cbn [host_loop List.find]; [done|]. rewrite host_eq_lower, IH. by destruct (beq _ _). Qed.

Lemma no_root_unrooted a : no_root a = unrooted a.
Proof.
  unfold no_root, unrooted. destruct a as [|d a _] using rev_ind; [done|]. rewrite rev_app_distr, length_app. cbn [rev app length].
  destruct (rev a) as [|c r] eqn:E.
  - apply (f_equal length) in E. rewrite length_rev in E. cbn in E. by rewrite E.
  - assert (Ha : a = rev (c :: r)) by (by rewrite <- E, rev_involutive). assert (Hl : 0 < length a) by (rewrite Ha, length_rev; cbn; lia).
    rewrite (proj2 (Nat.ltb_lt _ _)) by lia. replace (length a + 1 - 1) with (length a) by lia. rewrite nth_middle, firstn_app, firstn_all, Nat.sub_diag.
    cbn [firstn andb]. rewrite app_nil_r, Ha. by destruct (d =? ch ".")%Z.
Qed.

Lemma from_dot_memchr a : from_dot a = match memchr (ch ".") a with Some d => Some (drop d a) | None => None end.
Proof. induction a as [|c a IH]; cbn; [done|]. destruct (c =? ch ".")%Z; [done|]. rewrite IH. by destruct (memchr _ a). Qed.

Lemma lookup_serving t a : lookup t a = serving (hosts t) a.
Proof.
  unfold lookup, serving. rewrite host_loop_named, no_root_unrooted, from_dot_memchr. destruct (named _ _); [done|]. destruct (memchr _ _); [|done]. cbn zeta.
  rewrite host_loop_named. destruct (Nat.ltb_spec (length (drop n (unrooted a)) + 1) 256), (Nat.ltb_spec (length (drop n (unrooted a))) 255); try done; lia.
Qed.

(** An extension of bytes is such an extension, and its name is picked, or it leaves the default. *)
Lemma hello_ext t ext : all_bytes ext ->
  on_client_hello (Some t) (Some ext) = Some (if decide (ext = sni_ext (drop 5 ext)) then serving (hosts t) (drop 5 ext) else None).
Proof.
  intros Hb. unfold on_client_hello. destruct (Nat.ltb_spec (length ext) 5) as [Hl|Hl].
  { destruct (decide _) as [E|]; [|done]. exfalso. rewrite E in Hl. cbn in Hl. lia. }
  destruct ext as [|b0 [|b1 [|b2 [|b3 [|b4 a]]]]]; cbn [length] in Hl; try lia. cbn -[Z.shiftl Z.lor sni_ext Nat.leb Z.of_nat Z.to_nat].
  unfold all_bytes in Hb. repeat match goal with H : Forall _ (_ :: _) |- _ => apply Forall_cons in H as [? H] end. unfold is_byte in *. change (drop 0 a) with a.
  rewrite !(lor_shiftl 8) by lia. change (2 ^ 8)%Z with 256%Z. unfold sni_ext. cbn [app]. set (n := Z.of_nat (length a)).
  replace (Z.of_nat (S (S (S (S (S (length a))))))) with (n + 5)%Z by lia.
  destruct (decide _) as [E|E].
  - injection E as E0 E1 E2 E3 E4. rewrite E2. assert (b3 * 256 + b4 = n /\ b0 * 256 + b1 = n + 3)%Z as [-> ->] by (rewrite E0, E1, E3, E4; Z.div_mod_to_equations; lia).
    rewrite !(proj2 (Z.eqb_eq _ _)) by lia. cbn [negb orb]. unfold n. rewrite Nat2Z.id, (proj2 (Nat.leb_le _ _)) by lia.
    unfold span. cbn [drop]. by rewrite firstn_all, lookup_serving.
  - destruct (Z.eqb_spec b2 0) as [->|]; [|done]. destruct (Z.eqb_spec (b3 * 256 + b4 + 3) (b0 * 256 + b1)) as [E1|]; [|done].
    destruct (Z.eqb_spec (b0 * 256 + b1 + 2) (n + 5)) as [E2|]; [|done]. destruct E.
    assert (b0 = (n + 3) / 256 /\ b1 = (n + 3) mod 256 /\ b3 = n / 256 /\ b4 = n mod 256)%Z as (? & ? & ? & ?) by (Z.div_mod_to_equations; lia). congruence.
Qed.

Lemma all_bytes_sni a : (Z.of_nat (length a) + 3 < 65536)%Z -> all_bytes a -> all_bytes (sni_ext a).
Proof.
  intros Hl Ha. unfold sni_ext, all_bytes. set (n := Z.of_nat (length a)) in *. assert (0 <= n)%Z by (unfold n; lia). apply Forall_app. split; [|done].
  repeat constructor; try lia; Z.div_mod_to_equations; lia.
Qed.


(** ** What a store goes through *)

Inductive reachable (dir : bytes) (s0 : system) : system -> Prop :=
| reach_here : reachable dir s0 s0
| reach_step s e s' : reachable dir s0 s -> can s e -> step dir s e = Some s' -> reachable dir s0 s'.

Definition no_contexts : contexts := {| live := ∅; next := 1%Z |}.

Lemma no_contexts_ok : ctx_ok no_contexts [].
Proof. split; [intros c; cbn; by rewrite lookup_empty|done|intros c n; cbn; by rewrite lookup_empty]. Qed.

Lemma ctx_ok_none w : ctx_ok w [] -> live w = ∅.
Proof. intros Hw. apply map_empty. intros c. pose proof (cx_count _ _ Hw c) as Hc. destruct (live w !! c) as [n|]; [|done]. rewrite occurs_nil in Hc. lia. Qed.

Lemma sound_none ts w m : sound ts w m [] -> ts = [] /\ live w = ∅.
Proof.
  intros [_ _ H _ Hc]. destruct ts as [|[k v] ts]; [split; [done|]; by apply ctx_ok_none|]. specialize (H k). cbn [at_block] in H. rewrite Z.eqb_refl, occurs_nil in H. lia.
Qed.

Lemma certs_load_ok dir entries memory : (forall es, entries = Some es -> List.NoDup (map d_name es)) ->
  exists r w, ioxd_certs_load dir entries memory no_contexts = Some (r, w) /\
    match r with Some s => inv s | None => live w = ∅ end.
Proof.
  intros Hnd. unfold ioxd_certs_load. destruct memory as [[mt mc] mo].
  destruct (load_sound dir entries mt None no_contexts [] no_contexts_ok) as (r & w & -> & Hw & Hr & _); [done|done|]. cbn [mbind option_bind].
  destruct r as [t|]; [|exists None, w; split; [done|by apply ctx_ok_none]]. destruct Hr as [Hok Hr]. destruct (mc && mo); cbn [negb].
  - eexists _, w. split; [done|]. split; [|done]. split; cbn [tables ctxs fresh_id]; try done.
    + cbn. constructor; [by intros []|constructor].
    + constructor; [cbn; lia|constructor].
    + intros i. cbn [at_block]. unfold holders. cbn [current shaking stage map app stage_holds]. autorewrite with occurs. destruct (Z.eqb_spec 1 i) as [<-|Hi].
      * rewrite Hr. by destruct (decide (1 = 1)%Z).
      * by destruct (decide (1 = i)%Z).
    + intros i u. cbn [at_block]. destruct (1 =? i)%Z; [by intros [= <-]|done].
  - destruct (free_hosts_ok (hosts t) w [] Hw) as (w' & Hf & Hw' & _). unfold table_free. rewrite Hf. exists None, w'. split; [done|by apply ctx_ok_none].
Qed.

Lemma reachable_sound dir s0 s : inv s0 -> reachable dir s0 s -> inv s.
Proof. intros Hi. induction 1 as [|s e s' _ IH Hc He]; [done|]. destruct (step_sound dir s e IH Hc) as (s2 & E & Hv & _). congruence. Qed.

(** C21. Whatever handshakes, reloads and the end of the store do, in any order: no step reaches a table or a context
    that was freed, tables and contexts are referenced exactly as often as they are held, a table is never
    written to while it is, and once the store is given back and nothing uses it nothing is left. *)
Theorem store_stays_sound (dir : bytes) (entries : option (list dirent)) (memory : bool * bool * bool) :
  (forall es, entries = Some es -> List.NoDup (map d_name es)) ->
  exists r w, ioxd_certs_load dir entries memory no_contexts = Some (r, w) /\
    match r with
    | None => live w = ∅
    | Some s0 => forall s, reachable dir s0 s ->
        (forall e, can s e -> exists s', step dir s e = Some s' /\ same_tables (tables s) (tables s')) /\
        (forall i, match at_block i (tables s) with Some t => refs t = occurs i (holders s) /\ (0 < refs t)%Z | None => ~ In i (holders s) end) /\
        (forall c, match live (ctxs s) !! c with Some n => n = occurs c (all_ctx (tables s)) /\ (0 < n)%Z | None => ~ In c (all_ctx (tables s)) end) /\
        (current s = None -> shaking s = [] -> stage s = Idle -> tables s = [] /\ live (ctxs s) = ∅)
    end.
Proof.
  intros Hnd. destruct (certs_load_ok dir entries memory Hnd) as (r & w & Hl & Hr). exists r, w. split; [done|]. destruct r as [s0|]; [|done].
  intros s Hs. pose proof (reachable_sound _ _ _ Hr Hs) as Hv. destruct Hv as [Hso Hf]. split_and!.
  - intros e Hc. destruct (step_sound dir s e (conj Hso Hf) Hc) as (s' & ? & _ & ?). by exists s'.
  - intros i. pose proof (so_refs _ _ _ _ Hso i) as Hi. destruct (at_block i (tables s)); [done|]. rewrite occurs_in. lia.
  - intros c. pose proof (cx_count _ _ (so_ctx _ _ _ _ Hso) c) as Hc. destruct (live (ctxs s) !! c); [done|]. rewrite occurs_in. lia.
  - intros Hc Hh Hi. apply (sound_none _ _ (fresh_id s)). unfold holders in Hso. by rewrite Hc, Hh, Hi in Hso.
Qed.

(** ** What a reload does *)

Lemma picks_old dir old old' lo es hs : (forall n, old_ctx old n = old_ctx old' n) -> picks dir old lo es hs -> picks dir old' lo es hs.
Proof. intros He. induction 1; [constructor| |]; [apply picks_skip|apply picks_take]; rewrite <- ?He; done. Qed.

Lemma load_result_refs dir entries memory t n lo r : load_result dir entries memory (Some (with_refs t n)) lo r -> load_result dir entries memory (Some t) lo r.
Proof.
  unfold load_result. destruct entries as [es|]; [|done]. destruct memory; [|done]. intros (hs & Hp & Hr). exists hs. split; [eapply picks_old; [|exact Hp]; reflexivity|exact Hr].
Qed.

Lemma held_iff s i : inv s -> at_block i (tables s) = None <-> ~ In i (holders s).
Proof.
  intros [Hs _]. pose proof (so_refs _ _ _ _ Hs i) as Hi. rewrite occurs_in. destruct (at_block i (tables s)).
  - split; [discriminate|]. intros Hn. lia.
  - split; [lia|done].
Qed.

(** What a table that is still held is after a step. *)
Definition keeps (s s' : system) (k : Z) : Prop :=
  forall t, at_block k (tables s) = Some t -> exists t', at_block k (tables s') = Some t' /\ hosts t' = hosts t /\ fallback t' = fallback t.

Lemma keeps_held s s' k : inv s' -> same_tables (tables s) (tables s') -> In k (holders s') -> keeps s s' k.
Proof.
  intros Hv Hst Hk t Ht. destruct (at_block k (tables s')) as [t'|] eqn:E; [|apply held_iff in E; [done|done]]. exists t'. split; [done|]. by apply (Hst k).
Qed.

Lemma table_keeps_trans s1 s2 s3 k : keeps s1 s2 k -> keeps s2 s3 k -> keeps s1 s3 k.
Proof. intros H12 H23 t Ht. destruct (H12 t Ht) as (u & Hu & ? & ?). destruct (H23 u Hu) as (v & Hv & ? & ?). exists v. split; [done|]. split; congruence. Qed.

Lemma held_current s k : current s = Some k -> In k (holders s).
Proof. intros Hc. unfold holders. rewrite Hc. by left. Qed.

(** The end of a reload that swapped. *)
Lemma reload_swapped dir s i j : inv s -> stage s = Loaded i j ->
  exists s', (s ← step dir s ReloadSwap; s ← step dir s ReloadDrop; s ← step dir s ReloadEnd; Some (0%Z, s)) = Some (0%Z, s') /\ inv s' /\
    keeps s s' j /\ current s' = Some j /\ shaking s' = shaking s /\ stage s' = Idle.
Proof.
  intros Hv Hi. destruct (reload_swap_ok dir s i j Hv Hi) as (s1 & -> & Hv1 & Ht1 & Hc1 & Hh1 & Hi1). cbn [mbind option_bind].
  destruct (reload_release_ok dir s1 i ReloadDrop (Leaving i) Hv1) as (s2 & -> & Hv2 & Ht2 & Hc2 & Hh2 & Hi2); [by left|]. cbn [mbind option_bind].
  destruct (reload_release_ok dir s2 i ReloadEnd Idle Hv2) as (s3 & -> & Hv3 & Ht3 & Hc3 & Hh3 & Hi3); [by right|]. cbn [mbind option_bind].
  exists s3. split; [done|]. split; [done|]. split; [|split_and!; congruence].
  eapply table_keeps_trans; [apply (keeps_held s s2); [done|by rewrite <- Ht1|]|apply keeps_held; [done..|]]; apply held_current; congruence.
Qed.

(** A reload returns. What it leaves is what the load gave: a host whose files are good serves from a context made
    now, one whose files are not keeps the one it had, and the default is the new one or the host that answered
    before. When the load gives nothing, -1, the table that served still does; when it gives one, 0, the old
    table is gone unless a handshake holds it, and the handshakes are undisturbed. *)
Theorem reload_result (dir : bytes) (s : system) (entries : option (list dirent)) (memory : bool) (i : Z) (t : table) :
  inv s -> stage s = Idle -> current s = Some i -> at_block i (tables s) = Some t -> (forall es, entries = Some es -> List.NoDup (map d_name es)) ->
  exists r s' j t' given, ioxd_certs_reload dir entries memory s = Some (r, s') /\ inv s' /\ stage s' = Idle /\ shaking s' = shaking s /\
    current s' = Some j /\ at_block j (tables s') = Some t' /\ table_ok t' /\ load_result dir entries memory (Some t) (next (ctxs s)) given /\
    match given with
    | Some fresh => r = 0%Z /\ hosts t' = hosts fresh /\ fallback t' = fallback fresh /\ (at_block i (tables s') = None <-> ~ In i (map snd (shaking s)))
    | None => r = (-1)%Z /\ j = i /\ hosts t' = hosts t /\ fallback t' = fallback t
    end.
Proof.
  intros [Hs Hf] Hi Hc Ht Hnd. unfold ioxd_certs_reload. destruct (acquire_ok s i Hs Hc) as (t0 & Ht0 & _ & Ha & Hs1). rewrite Ht in Ht0. injection Ht0 as <-.
  set (s1 := set_stage (set_tables s (put_block i (with_refs t (refs t + 1)) (tables s))) (Reading i)).
  assert (E1 : step dir s ReloadBegin = Some s1) by (cbn [step]; by rewrite Ha). rewrite E1. cbn [mbind option_bind].
  assert (Hv1 : inv s1) by (split; [eapply sound_ext; [|exact Hs1]; unfold s1, holders; rewrite Hi; same_holders|exact Hc]).
  pose proof (at_put_eq _ (with_refs t (refs t + 1)) _ _ Ht : at_block i (tables s1) = _) as Ht1.
  destruct (reload_load_ok dir s1 entries memory i Hv1 eq_refl Hnd) as (u & r & s2 & Hu & E2 & Hv2 & Hst2 & Hlr & Hc2 & Hh2 & Hr).
  rewrite Ht1 in Hu. injection Hu as <-. assert (Hh1 : shaking s1 = shaking s) by done. assert (Hc1 : current s1 = Some i) by done. apply load_result_refs in Hlr. rewrite E2. cbn [mbind option_bind].
  destruct r as [fresh|].
  - destruct Hr as [Hi2 Hj]. rewrite Hi2. destruct (reload_swapped dir s2 i _ Hv2 Hi2) as (s3 & E3 & Hv3 & Hk & Hc3 & Hh3 & Hi3). rewrite E3.
    destruct (Hk fresh Hj) as (t' & Ht' & Hh' & Hf'). exists 0%Z, s3, (fresh_id s1), t', (Some fresh). split_and!; try done; try congruence.
    + by eapply so_ok; [apply Hv3|].
    + rewrite held_iff by done. unfold holders. rewrite Hc3, Hi3, Hh3, Hh2, Hh1. cbn [stage_holds]. rewrite app_nil_r.
      rewrite in_app_iff. assert (fresh_id s1 <> i) by (intros E; pose proof (fresh_none _ _ _ _ Hs) as Hn; cbn in E; rewrite E in Hn; congruence). cbn. tauto.
  - rewrite Hr. destruct (reload_release_ok dir s2 i ReloadEnd Idle Hv2) as (s3 & E3 & Hv3 & Ht3 & Hc3 & Hh3 & Hi3); [by right|]. 
    rewrite E3. cbn [mbind option_bind]. assert (Hk : keeps s1 s3 i).
    { apply (table_keeps_trans s1 s2); (apply keeps_held; [done..|apply held_current; congruence]). }
    destruct (Hk _ Ht1) as (t' & Ht' & Hh' & Hf'). exists (-1)%Z, s3, i, t', None. split_and!; try done; try congruence.
    by eapply so_ok; [apply Hv3|].
Qed.

(** ** Inputs *)

(** Three directories: the second's certificate has run out, the third's key is missing. *)
Definition a_dir (n : String.string) (ok : bool * bool) (after : Z) : dirent :=
  {| d_name := lit n; regular := ok; made := true; set_up := [true; true; true; true; true; true]; dates := Some ((-1)%Z, after) |}.
#[local] Arguments a_dir _%_string_scope.
Definition three : list dirent := [a_dir "." (true, true) 1%Z; a_dir "default" (true, true) 1%Z; a_dir "_.example.com" (true, true) 1%Z; a_dir "keyless" (true, false) 1%Z].
Definition later : list dirent := [a_dir "_.example.com" (true, true) (-1)%Z; a_dir "default" (true, true) 1%Z; a_dir "new.org" (true, true) 1%Z].
Definition two_hosts : table := {| refs := 1; hosts := [{| name := lit "default"; ctx := 1%Z |}; {| name := lit "_.example.com"; ctx := 2%Z |}]; fallback := 1%Z |}.
Definition started : system :=
  {| current := Some 1%Z; tables := [(1%Z, two_hosts)]; ctxs := {| live := <[1%Z := 1%Z]> (<[2%Z := 1%Z]> ∅); next := 3%Z |}; fresh_id := 2; shaking := []; stage := Idle |}.

Example loads : ioxd_certs_load (lit "certs") (Some three) (true, true, true) no_contexts = Some (Some started, ctxs started).
Proof. vm_compute. reflexivity. Qed.

Example loads_nothing : ioxd_certs_load (lit "certs") (Some later) (true, true, false) no_contexts = Some (None, {| live := ∅; next := 4%Z |}).
Proof. vm_compute. reflexivity. Qed.

Example hello_wildcard : on_client_hello (Some two_hosts) (Some (sni_ext (lit "WWW.Example.com."))) = Some (Some 2%Z).
Proof. vm_compute. reflexivity. Qed.

Example hello_exact : on_client_hello (Some two_hosts) (Some (sni_ext (lit "Default"))) = Some (Some 1%Z).
Proof. vm_compute. reflexivity. Qed.

Example hello_two_labels : on_client_hello (Some two_hosts) (Some (sni_ext (lit "a.b.example.com"))) = Some None.
Proof. vm_compute. reflexivity. Qed.

(** The expired host keeps its context, the old table is gone, and the contexts are those of the new one. *)
Example reloads : (r ← ioxd_certs_reload (lit "certs") (Some later) true started; Some (r.1, r.2.(tables), live (r.2.(ctxs)) !! 1%Z)) =
  Some (0%Z, [(2%Z, {| refs := 1; hosts := [{| name := lit "_.example.com"; ctx := 2%Z |}; {| name := lit "default"; ctx := 4%Z |}; {| name := lit "new.org"; ctx := 5%Z |}]; fallback := 4%Z |})], None).
Proof. vm_compute. reflexivity. Qed.

Lemma names_distinct (es : list dirent) : bool_decide (NoDup (map d_name es)) = true -> forall l, Some es = Some l -> List.NoDup (map d_name l).
Proof. intros H l [= <-]. apply NoDup_ListNoDup. by apply bool_decide_eq_true in H. Qed.

Lemma started_inv : inv started.
Proof.
  destruct (certs_load_ok (lit "certs") (Some three) (true, true, true)) as (r & w & E & Hr); [by apply names_distinct; vm_compute|].
  rewrite loads in E. injection E as <- <-. exact Hr.
Qed.


Lemma store_stays_sound_witness : exists r w, ioxd_certs_load (lit "certs") (Some three) (true, true, true) no_contexts = Some (Some r, w) /\
  forall s, reachable (lit "certs") r s -> forall e, can s e -> exists s', step (lit "certs") s e = Some s' /\ same_tables (tables s) (tables s').
Proof.
  destruct (store_stays_sound (lit "certs") (Some three) (true, true, true)) as (r & w & E & H); [by apply names_distinct; vm_compute|].
  rewrite loads in E. injection E as <- <-. exists started, (ctxs started). split; [exact loads|]. intros s Hs. apply (H s Hs).
Defined.

Lemma reload_result_witness : exists r s' j t', ioxd_certs_reload (lit "certs") (Some later) true started = Some (r, s') /\ current s' = Some j /\ at_block j (tables s') = Some t' /\ table_ok t'.
Proof.
  destruct (reload_result (lit "certs") started (Some later) true 1%Z two_hosts started_inv eq_refl eq_refl eq_refl) as (r & s' & j & t' & x & E & _ & _ & _ & Hj & Ht & Hok & _); [by apply names_distinct; vm_compute|].
  by exists r, s', j, t'.
Defined.
