(* ===== verification/Handshake.v ===== *)
(** The prologue of a TLS connection (lib/tls/handshake.c): the handshake over the pipe a record at a time, the
    secrets the keylog callback catches, early application data drained to a record boundary of the socket, and
    the keys handed to the kernel. OpenSSL and its HKDF are classes ([Tls], [Kdf]); the reader and the writer are
    those of the pipe. *)
From S2P Require Import Prelude.
From S2P Require Import Reader.
From S2P Require Writer.
From S2P Require Bufring.
Import Bufring (rx_item).
Import Writer (Sender, SenderLaws, pipewriter, ioxd__pipewriter_write, ioxd__pipewriter_flush, wire).

#[local] Arguments Nat.ltb : simpl never.
#[local] Arguments Nat.leb : simpl never.
#[local] Arguments lit : simpl never.

Definition SECRET_LEN : nat := 32.
Definition RECORD_MAX : nat := Z.to_nat 16645.
Definition PLAIN_MAX : nat := Z.to_nat 16384.
#[global] Arguments RECORD_MAX : simpl never.
#[global] Arguments PLAIN_MAX : simpl never.
Definition ECONNRESET : Z := 104.
Definition ENOENT : Z := 2.
Definition KDF_FAILED : Z := -4096.

(** ** The secrets *)

Record secrets := { tx : bytes; rx : bytes; have_tx : bool; have_rx : bool }.

Definition no_secrets : secrets := {| tx := replicate SECRET_LEN 0%Z; rx := replicate SECRET_LEN 0%Z; have_tx := false; have_rx := false |}.

Definition hexdigit (c : Z) : Z :=
  if ((ch "0" <=? c) && (c <=? ch "9"))%Z%bool then (c - ch "0")%Z
  else if ((ch "a" <=? c) && (c <=? ch "f"))%Z%bool then (c - ch "a" + 10)%Z
  else if ((ch "A" <=? c) && (c <=? ch "F"))%Z%bool then (c - ch "A" + 10)%Z
  else (-1)%Z.

(** The digits are read two at a time; [None] is a read outside the string. *)
Fixpoint unhex_loop (n i : nat) (hex out : bytes) : option (bool * bytes) :=
  match n with
  | 0 => Some (true, out)
  | S n =>
      a ← hex !! (2 * i); b ← hex !! (2 * i + 1);
      if (hexdigit a <? 0)%Z || (hexdigit b <? 0)%Z then Some (false, out)
      else unhex_loop n (S i) hex (<[i := Z.lor (Z.shiftl (hexdigit a) 4) (hexdigit b)]> out)
  end.
Definition unhex (hex out : bytes) : option (bool * bytes) := unhex_loop SECRET_LEN 0 hex out.

(** What a line's secret does to the 32 bytes it goes to, and whether they are had. *)
Definition catch (line : bytes) (into : bytes) (have : bool) : option (bytes * bool) :=
  let tag := drop 24 line in
  match memchr (ch " ") tag with
  | Some i =>
      let secret := drop (S i) tag in
      if 2 * SECRET_LEN <=? length secret then match unhex secret into with Some (ok, into) => Some (into, ok || have) | None => None end
      else Some (into, have)
  | None => Some (into, have)
  end.

(** [line] is the C string without its end. *)
Definition ioxd__handshake_keylog (s : option secrets) (line : bytes) : option (option secrets) :=
  match s with
  | None => Some None
  | Some s =>
      if beq (take 24 line) (lit "SERVER_TRAFFIC_SECRET_0 ") then
        match catch line (tx s) (have_tx s) with
        | Some (into, have) => Some (Some {| tx := into; rx := rx s; have_tx := have; have_rx := have_rx s |})
        | None => None
        end
      else if beq (take 24 line) (lit "CLIENT_TRAFFIC_SECRET_0 ") then
        match catch line (rx s) (have_rx s) with
        | Some (into, have) => Some (Some {| tx := tx s; rx := into; have_tx := have_tx s; have_rx := have |})
        | None => None
        end
      else Some (Some s)
  end.

Fixpoint keylogs (s : secrets) (lines : list bytes) : option secrets :=
  match lines with
  | [] => Some s
  | l :: lines => s ← ioxd__handshake_keylog (Some s) l; match s with Some s => keylogs s lines | None => None end
  end.

(** ** The keys *)

(** HKDF-Expand with SHA-256: what it derives from a secret and an info, absent when a call of it fails. *)
Class Kdf := EVP_PKEY_derive : bytes -> bytes -> nat -> option bytes.

(** The info is written into 64 bytes; [None] is a byte outside them. *)
Definition put (info d : bytes) : option bytes := if length info + length d <=? 64 then Some (info ++ d) else None.

Definition byte_of (z : Z) : Z := (z mod 256)%Z.

Definition expand_label `{Kdf} (secret : bytes) (label : bytes) (n : nat) : option (option bytes) :=
  let label_len := (6 + Z.of_nat (length label))%Z in
  info ← put [] [byte_of (Z.shiftr (Z.of_nat n) 8)]; info ← put info [byte_of (Z.of_nat n)]; info ← put info [byte_of label_len];
  info ← put info (lit "tls13 "); info ← put info label; info ← put info [0%Z];
  Some match EVP_PKEY_derive secret info n with
       | Some out => if length out =? n then Some out else None
       | None => None
       end.

(** [struct tls12_crypto_info_aes_gcm_128]. *)
Record crypto_info := { version : Z; cipher_type : Z; ci_iv : bytes; ci_key : bytes; ci_salt : bytes; rec_seq : bytes }.

Definition TLS_1_3_VERSION : Z := 772.
Definition TLS_CIPHER_AES_GCM_128 : Z := 51.

Inductive direction := TLS_TX | TLS_RX.

Fixpoint seq_loop (i : nat) (seq : Z) : bytes :=
  match i with
  | 0 => []
  | S i => seq_loop i seq ++ [byte_of (Z.shiftr seq (56 - 8 * Z.of_nat i))]
  end.

(** [install]'s key material, absent when it does not derive. *)
Definition key_material `{Kdf} (secret : bytes) (seq : Z) : option (option crypto_info) :=
  key ← expand_label secret (lit "key") 16;
  match key with
  | None => Some None
  | Some key =>
      iv ← expand_label secret (lit "iv") 12;
      Some match iv with
           | None => None
           | Some iv => Some {| version := TLS_1_3_VERSION; cipher_type := TLS_CIPHER_AES_GCM_128; ci_iv := drop 4 iv; ci_key := key;
                                ci_salt := take 4 iv; rec_seq := seq_loop 8 seq |}
           end
  end.

(** ** Records out of the reader and the socket *)

(** The reader and the worker's side of it, what the socket holds that was not received, and what each receive
    of the socket answers: an error, 0, or so many bytes at most. *)
Record input := { rd : pipereader; rw : rworld; sock : bytes; gets : list Z }.

Definition set_reader (x : input) (p : pipereader) (w : rworld) : input := {| rd := p; rw := w; sock := sock x; gets := gets x |}.
Definition set_sock (x : input) (s : bytes) (g : list Z) : input := {| rd := rd x; rw := rw x; sock := s; gets := g |}.

(** [ioxd__conn_recv_exact]: the bytes stored, also when it fails. A receive takes no more than is asked and there is. *)
Fixpoint recv_loop (gets : list Z) (s : bytes) (left : nat) : Z * bytes * bytes * list Z :=
  if left =? 0 then (0%Z, [], s, gets)
  else
    match gets with
    | [] => ((- ECONNRESET)%Z, [], s, [])
    | got :: gets =>
        if (got <? 0)%Z then (got, [], s, gets)
        else
          let k := Nat.min (Nat.min (Z.to_nat got) left) (length s) in
          if k =? 0 then ((- ECONNRESET)%Z, [], s, gets)
          else let '(rc, d, s', gets) := recv_loop gets (drop k s) (left - k) in (rc, take k s ++ d, s', gets)
    end.

Definition ioxd__conn_recv_exact (x : input) (n : nat) : Z * bytes * input :=
  let '(rc, d, s, g) := recv_loop (gets x) (sock x) n in (if (rc <? 0)%Z then rc else Z.of_nat n, d, set_sock x s g).

Definition record_len (rec : bytes) : nat := Z.to_nat (5 + Z.lor (Z.shiftl (nth 3 rec 0%Z) 8) (nth 4 rec 0%Z)).

(** [while (have < need)]; [rec] is what was taken so far. [None] is a byte outside the record's buffer, or fuel
    that ran out. *)
Fixpoint take_loop (fuel : nat) (draining : bool) (x : input) (rec : bytes) (need : nat) : option (Z * bytes * input) :=
  if length rec <? need then
    match fuel with
    | 0 => None
    | S fuel =>
        let '(rc, live, p, w) := if draining then ioxd__pipereader_avail (rd x) (rw x) else ioxd__pipereader_read (rd x) (rw x) in
        let x := set_reader x p w in
        if (rc <? 0)%Z || ((rc =? 0)%Z && negb draining) then Some ((-1)%Z, rec, x)
        else if (rc =? 0)%Z && (length rec =? 0) then Some (0%Z, [], x)
        else
          let '(ok, d, x) :=
            if (rc =? 0)%Z then let '(got, d, x) := ioxd__conn_recv_exact x (need - length rec) in (negb (got <? 0)%Z, d, x)
            else
              let k := if wlen live <? need - length rec then wlen live else need - length rec in
              let '(p', w') := ioxd__pipereader_drop (rd x) (rw x) k in
              (true, take k (at_span (rd x) (rw x) live), set_reader x p' w') in
          if RECORD_MAX <? length rec + length d then None
          else if negb ok then Some ((-1)%Z, rec ++ d, x)
          else
            let rec := rec ++ d in
            if (length rec =? 5) && (need =? 5) then
              if RECORD_MAX <? record_len rec then Some ((-1)%Z, rec, x) else take_loop fuel draining x rec (record_len rec)
            else take_loop fuel draining x rec need
    end
  else Some (1%Z, rec, x).

Definition take_record (draining : bool) (x : input) : option (Z * bytes * input) := take_loop (S RECORD_MAX) draining x [] 5.

(** ** OpenSSL *)

(** A connection with its two memory BIOs: a handshake step with the lines it logs, whether the read BIO took a
    record, what the write BIO gives, and what a read gives: bytes, or the 0 or less it returns. *)
Class Tls (T : Type) := {
  SSL_do_handshake : T -> Z * list bytes * T;
  SSL_get_error : T -> Z -> Z;
  BIO_write : bytes -> T -> bool * T;
  BIO_read : nat -> T -> bytes * T;
  BIO_pending : T -> nat;
  SSL_read : nat -> T -> (bytes + Z) * T;
  SSL_pending : T -> nat
}.

(** What is relied on: reads give what was asked at most, something or nothing, and a BIO gives what it holds. *)
Class TlsLaws (T : Type) `{Tls T} := {
  read_law : forall n t d t', SSL_read n t = (inl d, t') -> 0 < n -> 0 < length d <= n;
  read_bytes : forall n t d t', SSL_read n t = (inl d, t') -> all_bytes d;
  bio_law : forall n t d t', BIO_read n t = (d, t') -> 0 < n -> BIO_pending t' + length d = BIO_pending t /\ (d = [] -> BIO_pending t = 0)
}.

Definition SSL_ERROR_WANT_READ : Z := 2.
Definition SSL_ERROR_ZERO_RETURN : Z := 6.

(** Why a connection was dropped. *)
Inductive why :=
| out_of_memory | peer_gone_sending | ssl_error (e : Z) | peer_gone | no_traffic_secrets | input_ended
| early_not_taken | not_application_data | early_too_much | refused_record | post_handshake_message
| no_kernel_tls | setsockopt_failed (e : Z) | derivation_failed | early_does_not_fit.

Section Prologue.
Context {W : Type} `{Sender W} {T : Type} `{Tls T} `{Kdf}.

(** Every round but the last takes bytes out of the BIO; [None] is fuel that ran out. *)
Fixpoint flush_loop (fuel : nat) (pw : pipewriter) (w : W) (t : T) : option (bool * pipewriter * W * T) :=
  let '(d, t) := BIO_read 4096 t in
  match d, fuel with
  | [], _ => let '(ok, pw, w) := ioxd__pipewriter_flush pw w in Some (ok, pw, w, t)
  | _, 0 => None
  | _, S fuel => let '(ok, pw, w) := ioxd__pipewriter_write pw d w in if ok then flush_loop fuel pw w t else Some (false, pw, w, t)
  end.
Definition flush_outbound (pw : pipewriter) (w : W) (t : T) : option (bool * pipewriter * W * T) := flush_loop (BIO_pending t) pw w t.

Definition feed_inbound (x : input) (t : T) : option (bool * input * T) :=
  '(rc, rec, x) ← take_record false x;
  if (rc <=? 0)%Z then Some (false, x, t) else let '(ok, t) := BIO_write rec t in Some (ok, x, t).

(** What the prologue works on. *)
Record state := { inp : input; out : pipewriter; net : W; tls : T; sec : secrets }.

(** [for (;;)] around [SSL_do_handshake]. *)
Fixpoint handshake_loop (fuel : nat) (s : state) : option (option why * state) :=
  let '(ret, lines, t) := SSL_do_handshake (tls s) in
  sc ← keylogs (sec s) lines;
  let err := if (ret =? 1)%Z then 0%Z else SSL_get_error t ret in
  '(ok, pw, w, t) ← flush_outbound (out s) (net s) t;
  let s := {| inp := inp s; out := pw; net := w; tls := t; sec := sc |} in
  if negb ok then Some (Some peer_gone_sending, s)
  else if (ret =? 1)%Z then Some (None, s)
  else if negb (err =? SSL_ERROR_WANT_READ)%Z then Some (Some (ssl_error err), s)
  else
    '(fed, x, t) ← feed_inbound (inp s) (tls s);
    let s := {| inp := x; out := out s; net := net s; tls := t; sec := sec s |} in
    if negb fed then Some (Some peer_gone, s) else match fuel with 0 => None | S fuel => handshake_loop fuel s end.

(** The reads of a record: [plain] is what was read before; [None] is a byte outside the buffer. *)
Fixpoint read_plain (fuel : nat) (plain : bytes) (n : Z) (t : T) : option (bytes * Z * T) :=
  if length plain <? PLAIN_MAX then
    match fuel with
    | 0 => None
    | S fuel =>
        match SSL_read (PLAIN_MAX - length plain) t with
        | (inl d, t) => if PLAIN_MAX <? length plain + length d then None else read_plain fuel (plain ++ d) (Z.of_nat (length d)) t
        | (inr n, t) => Some (plain, n, t)
        end
    end
  else Some (plain, n, t).

(** The count of records and the early plaintext, or why not. *)
Fixpoint drain_loop (fuel : nat) (x : input) (t : T) (plain : bytes) (records : nat) : option ((nat * bytes) + why) * input * T :=
  match take_record true x with
  | None => (None, x, t)
  | Some (rc, rec, x) =>
      if (rc <? 0)%Z then (Some (inr early_not_taken), x, t)
      else if (rc =? 0)%Z then (Some (inl (records, plain)), x, t)
      else if negb (nth 0 rec 0 =? 23)%Z then (Some (inr not_application_data), x, t)
      else if length plain =? PLAIN_MAX then (Some (inr early_too_much), x, t)
      else
        let '(ok, t) := BIO_write rec t in
        if negb ok then (Some (inr out_of_memory), x, t)
        else
          match read_plain (S PLAIN_MAX) plain (-1)%Z t with
          | None => (None, x, t)
          | Some (plain, n, t) =>
              let again := match fuel with 0 => (None, x, t) | S fuel => drain_loop fuel x t plain (S records) end in
              if (length plain =? PLAIN_MAX) && (0 <? SSL_pending t) then (Some (inr early_too_much), x, t)
              else if length plain =? PLAIN_MAX then again
              else
                let err := SSL_get_error t n in
                if (err =? SSL_ERROR_ZERO_RETURN)%Z then (Some (inl (S records, plain)), x, t)
                else if negb (err =? SSL_ERROR_WANT_READ)%Z then (Some (inr refused_record), x, t)
                else if 0 <? BIO_pending t then (Some (inr post_handshake_message), x, t)
                else again
          end
  end.

(** What can still be taken: delivered bytes, bytes to come and bytes in the socket. *)
Definition input_size (x : input) : nat := length (live_bytes (rd x) (rw x)) + length (coming (rw x)) + length (sock x).

(** [ioxd__conn_recv_pause]: [arrived] of the receives to come complete before the cancel does; the rest of the
    stream stays in the socket. *)
Definition pause (arrived : nat) (x : input) : input :=
  let w := rw x in
  {| rd := rd x;
     rw := {| mem := mem w; now := now w ++ take arrived (later w); later := []; end_rc := end_rc w; back := back w |};
     sock := concat (map (item_bytes w) (drop arrived (later w))) ++ sock x; gets := gets x |}.

(** What the calls outside the repository answer: whether the objects were made, whether the input was still
    open at the pause and how much arrived before it, the results of the three [setsockopt], and whether the
    receive could be armed again. *)
Record answers := { made : bool; open : bool; arrived : nat; ulp : Z; set_tx : Z; set_rx : Z; resumed : bool }.

Definition install (secret : bytes) (seq : Z) (answer : Z) : option (Z * list crypto_info) :=
  k ← key_material secret seq; Some match k with None => (KDF_FAILED, []) | Some ci => (answer, [ci]) end.

(** From the secrets to the end, the reader at a record boundary: the keys, the early plaintext, the receive. *)
Definition hand_over (a : answers) (s : state) (x : input) (records : nat) (plain : bytes) : option (option why * input * list (direction * crypto_info)) :=
  if (ulp a <? 0)%Z then Some (Some (if (ulp a =? - ENOENT)%Z then no_kernel_tls else setsockopt_failed (ulp a)), x, [])
  else
    '(r, ktx) ← install (tx (sec s)) 0 (set_tx a);
    let keys := map (pair TLS_TX) ktx in
    '(r, keys) ← if (r =? 0)%Z then '(r, krx) ← install (rx (sec s)) (Z.of_nat records) (set_rx a); Some (r, keys ++ map (pair TLS_RX) krx) else Some (r, keys);
    if (r <? 0)%Z then Some (Some (if (r =? KDF_FAILED)%Z then derivation_failed else setsockopt_failed r), x, keys)
    else
      let '(ok, p, w) := if 0 <? length plain then ioxd__pipereader_inject (rd x) (rw x) plain else (true, rd x, rw x) in
      let x := set_reader x p w in
      if negb ok then Some (Some early_does_not_fit, x, keys)
      else Some (if resumed a then None else Some input_ended, x, keys).

(** [ioxd__handshake_prologue] between the table it takes and the table it lets go of (see [Certs]): why the
    connection is not usable, if it is not, and the keys that went into the socket. *)
Definition ioxd__handshake_prologue (a : answers) (s : state) : option (option why * state * list (direction * crypto_info)) :=
  if negb (made a) then Some (Some out_of_memory, s, [])
  else
    '(r, s) ← handshake_loop (input_size (inp s)) {| inp := inp s; out := out s; net := net s; tls := tls s; sec := no_secrets |};
    match r with
    | Some e => Some (Some e, s, [])
    | None =>
        if negb (have_tx (sec s) && have_rx (sec s)) then Some (Some no_traffic_secrets, s, [])
        else if negb (open a) then Some (Some input_ended, s, [])
        else
          let x := pause (arrived a) (inp s) in
          let '(r, x, t) := drain_loop (input_size x) x (tls s) [] 0 in
          r ← r;
          let s := {| inp := x; out := out s; net := net s; tls := t; sec := sec s |} in
          match r with
          | inr e => Some (Some e, s, [])
          | inl (records, plain) =>
              '(e, x, keys) ← hand_over a s x records plain;
              Some (e, {| inp := x; out := out s; net := net s; tls := t; sec := sec s |}, keys)
          end
    end.

End Prologue.

(** [ioxd__handshake_close_notify]: the type of the record the alert goes out as, and the socket after. *)
Definition close_notify : bytes := [1; 0]%Z.
Definition ioxd__handshake_close_notify (result : nat -> Z) (s : Writer.socket) : Z * Writer.socket :=
  (21%Z, (Writer.ioxd__conn_sendmsg result close_notify s).2).

(** ** A reader nothing is kept in *)

Record clean (c : nat) (pr : pipereader) (w : rworld) : Prop := {
  cl_ok : reader_ok 0 pr w;
  cl_end : error pr = 0%Z /\ eof pr = false /\ examined pr = 0;
  cl_run : no_run pr;
  cl_floor : floor pr = 0 /\ cap pr = c
}.

Lemma cur_done_sizes p w : floor (cur_done p w).1 = floor p /\ cap (cur_done p w).1 = cap p /\ now (cur_done p w).2 = now w /\ later (cur_done p w).2 = later w.
Proof. unfold cur_done. destruct (_ || _ || _); cbn; [done|]. by destruct (cur_is_pinned p). Qed.

Lemma more_floor pr w rc pr' w' : run_len pr = 0 -> more pr w = (rc, pr', w') -> floor pr' = floor pr /\ cap pr' = cap pr.
Proof.
  intros Hr Hm. unfold more in Hm. destruct (eof pr); [by injection Hm as <- <- <-|]. destruct (recv_item w) as [[i|] w1].
  - assert (Hc : forall p, floor (compact p) = floor p /\ cap (compact p) = cap p) by (intros p; unfold compact; by destruct (_ <? _)).
    assert (Ha : forall p w2, append_item p w2 i = (rc, pr', w') -> floor pr' = floor p /\ cap pr' = cap p).
    { intros p w2. unfold append_item, refuse. destruct (cap p <? buf_end p + ilen i); destruct (_ <? _); intros [= <- <- <-]; cbn; try apply Hc; done. }
    destruct (negb (live_in_buf pr) && negb (has_cur pr)); [by injection Hm as <- <- <-|]. destruct (negb (live_in_buf pr)); [|by eapply Ha].
    destruct (gather pr w1) as [[p w2]|] eqn:Eg; [|by injection Hm as <- <- <-]. apply Ha in Hm as [-> ->].
    unfold gather, gather_live, gather_run in Eg. rewrite Hr in Eg. destruct (_ <? _) in Eg; [done|].
    replace (if run_in_cur pr then 0 else 0) with 0 in Eg by (by destruct (run_in_cur pr)). rewrite (Nat.ltb_irrefl 0) in Eg. cbn in Eg.
    destruct (has_cur pr); [|by injection Eg as <- <-]. injection Eg as Eg. apply (f_equal fst) in Eg. cbn in Eg. rewrite <- Eg.
    match goal with |- context [cur_done ?q ?v] => destruct (cur_done_sizes q v) as (-> & -> & _) end. done.
  - destruct (end_rc w1 <? 0)%Z; by injection Hm as <- <- <-.
Qed.

Lemma more_now pr w rc pr' w' i n : now w = i :: n -> eof pr = false -> more pr w = (rc, pr', w') -> later w' = later w /\ now w' = n.
Proof.
  intros Hn He Hm. unfold more in Hm. rewrite He in Hm. unfold recv_item in Hm. rewrite Hn in Hm. cbn zeta in Hm. set (w1 := {| mem := _; now := n; later := _; end_rc := _; back := _ |}) in *.
  assert (Ha : forall p w2, append_item p w2 i = (rc, pr', w') -> later w' = later w2 /\ now w' = now w2).
  { intros p w2. unfold append_item, refuse. destruct (cap p <? buf_end p + ilen i); destruct (_ <? _); intros [= <- <- <-]; done. }
  destruct (negb (live_in_buf pr) && negb (has_cur pr)); [by injection Hm as <- <- <-|]. destruct (negb (live_in_buf pr)); [|by apply Ha in Hm].
  destruct (gather pr w1) as [[p w2]|] eqn:Eg; [|by injection Hm as <- <- <-]. apply Ha in Hm as [-> ->].
  unfold gather, gather_live in Eg. destruct (_ <? _) in Eg; [done|]. injection Eg as Eg. destruct (has_cur _) in Eg; [|by injection Eg as <- <-].
  apply (f_equal snd) in Eg. cbn in Eg. rewrite <- Eg. match goal with |- context [cur_done ?q ?v] => destruct (cur_done_sizes q v) as (_ & _ & -> & ->) end. done.
Qed.

(** An item that joins. *)
Lemma more_clean c pr w pr' w' : clean c pr w -> more pr w = (1%Z, pr', w') ->
  clean c pr' w' /\ live_bytes pr' w' ++ coming w' = live_bytes pr w ++ coming w.
Proof.
  intros [Hok (He & Hf & Hx) Hr (Hl & Hc)] Hm. pose proof (more_spec _ _ _ _ _ Hok Hm) as Hmo. destruct Hmo. pose proof (more_no_run _ _ _ _ _ Hr Hm) as Hr'.
  destruct (more_floor _ _ _ _ _ (proj1 Hr) Hm) as [Hfl Hca]. destruct mo_rc as [(_ & _ & E1 & _ & E2)|[(? & _)|[(? & _)|(? & _)]]]; try done.
  split; [|by destruct mo_stream]. split; [done|split_and!; congruence|done|split; congruence].
Qed.

Lemma read_loop_clean c fuel : forall pr w l pr' w', clean c pr w -> read_loop fuel pr w = (1%Z, l, pr', w') ->
  clean c pr' w' /\ live_bytes pr' w' ++ coming w' = live_bytes pr w ++ coming w /\ l = live_span pr' /\ 0 < wlen l.
Proof.
  induction fuel as [|fuel IH]; intros pr w l pr' w' Hcl Hr; cbn [read_loop] in Hr; destruct (cl_end _ _ _ Hcl) as (_ & _ & Hx); rewrite Hx in Hr;
    (destruct (Nat.ltb_spec 0 (wlen (live_span pr))); [injection Hr as <- <- <-; by split_and!|]); [done|].
  destruct (more pr w) as [[rc pr1] w1] eqn:Em. destruct (Z.leb_spec rc 0); [injection Hr; intros; lia|].
  assert (rc = 1%Z) as -> by (pose proof (more_spec _ _ _ _ _ (cl_ok _ _ _ Hcl) Em) as Hmo; destruct Hmo; unfold IOXD_PIPE_GONE, IOXD_PIPE_FULL in *; lia).
  destruct (more_clean _ _ _ _ _ Hcl Em) as [Hcl1 Hs]. destruct (IH _ _ _ _ _ Hcl1 Hr) as (H1 & H2 & H3 & H4). split_and!; try done; congruence.
Qed.

Lemma read_clean c pr w rc l pr' w' : clean c pr w -> ioxd__pipereader_read pr w = (rc, l, pr', w') -> (0 < rc)%Z ->
  clean c pr' w' /\ live_bytes pr' w' ++ coming w' = live_bytes pr w ++ coming w /\ l = live_span pr' /\ 0 < wlen l.
Proof.
  intros Hcl Hr Hrc. unfold ioxd__pipereader_read in Hr. rewrite (proj1 (cl_end _ _ _ Hcl)) in Hr. cbn [Z.eqb negb] in Hr.
  pose proof (read_loop_one _ _ _ _ _ _ _ Hr Hrc) as ->. by eapply read_loop_clean.
Qed.

(** A read that does not wait: bytes, nothing when everything delivered was taken, or an error. *)
Lemma avail_loop_clean c fuel : forall pr w rc l pr' w', clean c pr w -> length (now w) < fuel -> avail_loop fuel pr w = (rc, l, pr', w') ->
  (rc < 0)%Z \/ clean c pr' w' /\ live_bytes pr' w' ++ coming w' = live_bytes pr w ++ coming w /\ later w' = later w /\
    (rc = 1%Z /\ l = live_span pr' /\ 0 < wlen l \/ rc = 0%Z /\ live_bytes pr' w' = [] /\ now w' = []).
Proof.
  induction fuel as [|fuel IH]; intros pr w rc l pr' w' Hcl Hf Hr; [lia|]; cbn [avail_loop] in Hr; destruct (cl_end _ _ _ Hcl) as (_ & He & Hx); rewrite Hx in Hr.
  destruct (Nat.ltb_spec 0 (wlen (live_span pr))) as [Hw|Hw]; [injection Hr as <- <- <- <-; right; split_and!; try done; by left|].
  assert (Hlive : live_bytes pr w = []) by (apply length_zero_iff_nil; rewrite (length_live _ _ _ (cl_ok _ _ _ Hcl)); lia).
  destruct (now w) as [|i n] eqn:En; [injection Hr as <- <- <- <-; right; split_and!; try done; by right|].
  destruct (more pr w) as [[rc1 pr1] w1] eqn:Em. pose proof (more_spec _ _ _ _ _ (cl_ok _ _ _ Hcl) Em) as Hmo. destruct (more_now _ _ _ _ _ _ _ En He Em) as [Hl1 Hn1].
  destruct (Z.leb_spec rc1 0) as [Hle|Hgt].
  - injection Hr as <- <- <- <-. destruct Hmo. destruct mo_rc as [(? & _)|[(_ & _ & [?|Hi] & _)|[(-> & _)|(-> & _)]]]; [lia|congruence|unfold items_left in Hi; rewrite En in Hi; done|by left..].
  - assert (rc1 = 1%Z) as -> by (destruct Hmo; unfold IOXD_PIPE_GONE, IOXD_PIPE_FULL in *; lia).
    destruct (more_clean _ _ _ _ _ Hcl Em) as [Hcl1 Hs]. cbn [length] in Hf. destruct (IH _ _ _ _ _ _ Hcl1 ltac:(rewrite Hn1; lia) Hr) as [?|(H1 & H2 & H3 & H4)]; [by left|].
    right. split_and!; try done; congruence.
Qed.

Lemma avail_clean c pr w rc l pr' w' : clean c pr w -> ioxd__pipereader_avail pr w = (rc, l, pr', w') ->
  (rc < 0)%Z \/ clean c pr' w' /\ live_bytes pr' w' ++ coming w' = live_bytes pr w ++ coming w /\ later w' = later w /\
    (rc = 1%Z /\ l = live_span pr' /\ 0 < wlen l \/ rc = 0%Z /\ live_bytes pr' w' = [] /\ now w' = []).
Proof.
  intros Hcl Hr. unfold ioxd__pipereader_avail in Hr. rewrite (proj1 (cl_end _ _ _ Hcl)) in Hr. cbn [Z.eqb negb] in Hr.
  eapply avail_loop_clean; [done| |done]. unfold items_left. lia.
Qed.

Lemma consume_sizes pr w n : floor (consume pr w n).1 = floor pr /\ cap (consume pr w n).1 = cap pr /\ now (consume pr w n).2 = now w /\ later (consume pr w n).2 = later w.
Proof.
  unfold consume. destruct (live_in_buf pr); [by destruct (_ <=? _)|]. destruct (has_cur pr); [|done].
  match goal with |- context [cur_done ?q ?v] => pose proof (cur_done_sizes q v) as (H1 & H2 & H3 & H4); destruct (cur_done q v) as [p v'] end. cbn in *. by rewrite H1, H2, H3, H4.
Qed.

Lemma consume_examined pr w n : examined pr = 0 -> examined (consume pr w n).1 = 0.
Proof.
  intros Hx. unfold consume. match goal with |- context [let '(_, _) := ?e in _] => assert (He : examined e.1 = 0); [|destruct e as [p v]] end.
  - destruct (live_in_buf pr); [by destruct (_ <=? _)|]. destruct (has_cur pr); [|done]. unfold cur_done. by destruct (_ || _ || _).
  - cbn in *. rewrite He. match goal with |- (if ?b then _ else _) = _ => by destruct b end.
Qed.

Lemma drop_clean c pr w n pr' w' : clean c pr w -> ioxd__pipereader_drop pr w n = (pr', w') ->
  clean c pr' w' /\ live_bytes pr' w' = drop n (live_bytes pr w) /\ coming w' = coming w /\ later w' = later w.
Proof.
  intros [Hok (He & Hf & Hx) [Hr Hp] [Hl Hc]] Hd. unfold ioxd__pipereader_drop in Hd. pose proof (consume_sizes pr w n) as (S1 & S2 & S3 & S4).
  pose proof (consume_examined pr w n Hx) as Hx'. pose proof (consume_no_pin pr w n) as Hp'. rewrite Hd in *. cbn in *.
  pose proof (consume_spec 0 n _ _ _ _ Hok ltac:(lia) ltac:(lia) Hd) as Hco. destruct Hco. destruct co_end as (E1 & E2 & _ & E3).
  split_and!; try done. split; [done|split_and!; congruence|split; congruence|split; congruence].
Qed.

(** ** Whole records *)

Lemma recv_loop_spec g : forall s left rc d s' g', recv_loop g s left = (rc, d, s', g') ->
  length d <= left /\ ((0 <= rc)%Z -> length d = left /\ d ++ s' = s).
Proof.
  induction g as [|got g IH]; intros s left rc d s' g' Hr; cbn [recv_loop] in Hr; destruct (Nat.eqb_spec left 0) as [->|Hl]; try (injection Hr as <- <- <- <-; cbn; split; [lia|by intros _]).
  { injection Hr as <- <- <- <-. cbn. split; [lia|]. unfold ECONNRESET. lia. }
  destruct (Z.ltb_spec got 0); [injection Hr as <- <- <- <-; cbn; split; [lia|lia]|]. cbn zeta in Hr. set (k := Nat.min _ (length s)) in *.
  destruct (Nat.eqb_spec k 0) as [Hk|Hk]; [injection Hr as <- <- <- <-; cbn; split; [lia|unfold ECONNRESET; lia]|].
  destruct (recv_loop g (drop k s) (left - k)) as [[[rc1 d1] s1] g1] eqn:Er. injection Hr as <- <- <- <-. destruct (IH _ _ _ _ _ _ Er) as [H1 H2].
  assert (length (take k s) = k) as Hlk by (rewrite length_take; lia). rewrite length_app, Hlk. split; [lia|]. intros Hrc. destruct (H2 Hrc) as [H3 H4].
  split; [lia|]. by rewrite <- app_assoc, H4, take_drop.
Qed.

(** The bytes still to be taken, in their order. *)
Definition stream (x : input) : bytes := live_bytes (rd x) (rw x) ++ coming (rw x) ++ sock x.

(** A record: its header says its length. *)
Definition whole (rec : bytes) : Prop := 5 <= length rec <= RECORD_MAX /\ record_len rec = length rec.

Lemma record_len_app rec d : 5 <= length rec -> record_len (rec ++ d) = record_len rec.
Proof. intros Hl. unfold record_len. by rewrite !app_nth1 by lia. Qed.

Lemma record_len_min rec : all_bytes rec -> 5 <= record_len rec.
Proof.
  intros Hb. unfold record_len. assert (Hn : forall i, (0 <= nth i rec 0)%Z).
  { intros i. destruct (nth_in_or_default i rec 0%Z) as [Hi| ->]; [|done]. apply list_elem_of_In in Hi. by apply (proj1 (Forall_forall _ _) Hb) in Hi as [? _]. }
  pose proof (proj2 (Z.lor_nonneg (Z.shiftl (nth 3 rec 0%Z) 8) (nth 4 rec 0%Z)) (conj (proj2 (Z.shiftl_nonneg _ _) (Hn 3)) (Hn 4))). lia.
Qed.

Record clean_input (c : nat) (draining : bool) (x : input) : Prop := {
  ci_clean : clean c (rd x) (rw x);
  ci_later : draining = true -> later (rw x) = []
}.

(** One step of [take_loop]: the bytes it takes, in order, at least one and no more than are missing. *)
Lemma coming_none w : now w = [] -> later w = [] -> coming w = [].
Proof. intros H1 H2. unfold coming. by rewrite H1, H2. Qed.

Definition take_ok (c : nat) (draining : bool) (x : input) (rec : bytes) (r : Z * bytes * input) : Prop :=
  let '(rc, rec', x') := r in
  rc = 1%Z /\ clean_input c draining x' /\ rec' ++ stream x' = rec ++ stream x /\ whole rec' \/
  rc = 0%Z /\ draining = true /\ rec = [] /\ clean_input c true x' /\ live_bytes (rd x') (rw x') = [] /\ now (rw x') = [] /\ stream x' = stream x \/
  (rc < 0)%Z.

Lemma take_loop_spec c draining fuel : forall x rec need, clean_input c draining x -> all_bytes (rec ++ stream x) -> S RECORD_MAX - length rec <= fuel ->
  (need = 5 /\ length rec < 5 \/ 5 <= length rec <= need /\ need <= RECORD_MAX /\ record_len rec = need) ->
  exists r, take_loop fuel draining x rec need = Some r /\ take_ok c draining x rec r.
Proof.
  induction fuel as [|fuel IH]; intros x rec need Hci Hb Hf Hn; cbn [take_loop]; (destruct (Nat.ltb_spec (length rec) need) as [Hlt|Hge];
    [|eexists; split; [done|]; left; split_and!; try done; destruct Hn as [?|(? & ? & ?)]; [lia|split; lia]]).
  { exfalso. assert (length rec <= RECORD_MAX) by (unfold RECORD_MAX in *; lia). lia. }
  assert (Hmax : need <= RECORD_MAX) by (destruct Hn as [[-> _]|?]; [unfold RECORD_MAX; lia|lia]).
  destruct (if draining then _ else _) as [[[rc live] p] w] eqn:Eg. set (x1 := set_reader x p w).
  assert (Hgot : (rc < 0)%Z \/ (rc = 0%Z /\ draining = false) \/ clean_input c draining x1 /\ stream x1 = stream x /\
    (rc = 1%Z /\ live = live_span p /\ 0 < wlen live \/ rc = 0%Z /\ draining = true /\ live_bytes p w = [] /\ now w = [])).
  { destruct Hci as [Hcl Hla]. destruct draining.
    - destruct (avail_clean _ _ _ _ _ _ _ Hcl Eg) as [?|(H1 & H2 & H3 & H4)]; [by left|]. right; right. split_and!; [split; [done|intros _; cbn; rewrite H3; by apply Hla]|unfold stream; cbn; by rewrite !app_assoc, H2|].
      destruct H4 as [?|(? & ? & ?)]; [by left|right; by split_and!].
    - destruct (Z.ltb_spec rc 0); [by left|]. destruct (Z.eqb_spec rc 0); [right; left; done|]. destruct (read_clean _ _ _ _ _ _ _ Hcl Eg ltac:(lia)) as (H1 & H2 & H3 & H4).
      right; right. split_and!; [split; done|unfold stream; cbn; by rewrite !app_assoc, H2|]. left. split_and!; try done.
      unfold ioxd__pipereader_read in Eg. rewrite (proj1 (cl_end _ _ _ Hcl)) in Eg. cbn [Z.eqb negb] in Eg. eapply read_loop_one; [done|lia]. }
  destruct Hgot as [Hneg|[(-> & ->)|(Hci1 & Hs1 & Hcase)]].
  { rewrite (proj2 (Z.ltb_lt _ _) Hneg). cbn [orb]. eexists. split; [done|]. right; right. lia. }
  { cbn. eexists. split; [done|]. right; right. lia. }
  assert (Hnneg : ((rc <? 0)%Z || (rc =? 0)%Z && negb draining) = false) by (destruct Hcase as [(-> & _)|(-> & -> & _)]; done). rewrite Hnneg.
  assert (Htail : forall ok d x2, length d <= need - length rec -> (ok = true -> 0 < length d /\ clean_input c draining x2 /\ d ++ stream x2 = stream x) ->
    exists r, (if RECORD_MAX <? length rec + length d then None
               else if negb ok then Some ((-1)%Z, rec ++ d, x2)
               else if (length (rec ++ d) =? 5) && (need =? 5) then
                 if RECORD_MAX <? record_len (rec ++ d) then Some ((-1)%Z, rec ++ d, x2) else take_loop fuel draining x2 (rec ++ d) (record_len (rec ++ d))
               else take_loop fuel draining x2 (rec ++ d) need) = Some r /\ take_ok c draining x rec r).
  { intros ok d x2 Hd Hok. destruct (Nat.ltb_spec RECORD_MAX (length rec + length d)); [lia|].
    destruct ok; cbn [negb]; [|eexists; split; [done|]; right; right; lia]. destruct (Hok eq_refl) as (Hd0 & Hci2 & Hs2). pose proof (length_app rec d) as Hla.
    assert (Hb2 : all_bytes ((rec ++ d) ++ stream x2)) by (by rewrite <- app_assoc, Hs2).
    assert (Hcont : forall need', (need' = 5 /\ length (rec ++ d) < 5 \/ 5 <= length (rec ++ d) <= need' /\ need' <= RECORD_MAX /\ record_len (rec ++ d) = need') ->
      exists r, take_loop fuel draining x2 (rec ++ d) need' = Some r /\ take_ok c draining x rec r).
    { intros need' Hn'. destruct (IH x2 (rec ++ d) need' Hci2 Hb2 ltac:(lia) Hn') as (r & Er & Ht). exists r. split; [done|]. destruct r as [[rc' rec'] x'].
      destruct Ht as [(? & ? & H3 & ?)|[(? & ? & H3 & _)|?]]; [left|apply (f_equal length) in H3; rewrite Hla in H3; cbn in H3; lia|right; right; done].
      split_and!; try done. by rewrite H3, <- app_assoc, Hs2. }
    destruct Hn as [[-> H5]|(H5 & _ & Hrl)].
    - destruct (Nat.eqb_spec (length (rec ++ d)) 5) as [E5|E5]; cbn [andb Nat.eqb].
      + destruct (Nat.ltb_spec RECORD_MAX (record_len (rec ++ d))); [eexists; split; [done|]; right; right; lia|]. apply Hcont. right. split_and!; try done; try lia.
        rewrite E5. apply record_len_min. by apply Forall_app in Hb2 as [? _].
      + apply Hcont. left. lia.
    - rewrite record_len_app in Hcont by lia. rewrite (proj2 (Nat.eqb_neq need 5)) by lia. rewrite andb_false_r. apply Hcont. right. lia. }
  destruct Hcase as [(-> & -> & Hlw)|(-> & -> & Hl0 & Hn0)]; cbn [Z.eqb andb].
  - change (rd x1) with p. change (rw x1) with w. set (k := if wlen (live_span p) <? need - length rec then _ else _).
    assert (Hk : k = Nat.min (wlen (live_span p)) (need - length rec)) by (unfold k; case_test; lia).
    destruct (ioxd__pipereader_drop p w k) as [p' w'] eqn:Ed. fold (live_bytes p w). cbn [fst snd].
    destruct (drop_clean _ _ _ _ _ _ (ci_clean _ _ _ Hci1) Ed) as (H1 & H2 & H3 & H4).
    pose proof (length_live _ _ _ (cl_ok _ _ _ (ci_clean _ _ _ Hci1))) as Hll. cbn in Hll.
    apply Htail; [rewrite length_take; lia|]. intros _. split; [rewrite length_take; lia|]. split.
    + split; [done|]. intros Hdr. cbn. rewrite H4. by apply (ci_later _ _ _ Hci1).
    + rewrite <- Hs1. unfold stream. cbn. rewrite H2, H3, app_assoc, take_drop. done.
  - destruct (Nat.eqb_spec (length rec) 0) as [Hr0|Hr0].
    + eexists. split; [done|]. right; left. split_and!; try done. by apply length_zero_iff_nil.
    + unfold ioxd__conn_recv_exact. destruct (recv_loop (gets x1) (sock x1) (need - length rec)) as [[[rc d] s'] g'] eqn:Er.
      destruct (recv_loop_spec _ _ _ _ _ _ _ Er) as [Hd1 Hd2]. apply Htail; [done|]. intros Hok. destruct (Z.ltb_spec rc 0) as [Hneg|Hnn].
      { exfalso. rewrite (proj2 (Z.ltb_lt _ _) Hneg) in Hok. done. }
      destruct (Hd2 Hnn) as [Hd3 Hd4]. split; [lia|]. destruct Hci1 as [Hcl1 Hla1]. split; [by split|]. rewrite <- Hs1. unfold stream. cbn.
      cbn in Hl0, Hn0. rewrite Hl0, (coming_none w Hn0 (Hla1 eq_refl)). cbn. exact Hd4.
Qed.

Lemma take_record_spec c draining x : clean_input c draining x -> all_bytes (stream x) -> exists r, take_record draining x = Some r /\ take_ok c draining x [] r.
Proof. intros Hci Hb. apply take_loop_spec; [done|done|cbn; lia|left; cbn; lia]. Qed.

Lemma input_size_stream x : input_size x = length (stream x).
Proof. unfold input_size, stream. rewrite !length_app. lia. Qed.

(** ** The secrets are caught *)

Lemma unhex_total n : forall i hex out, 2 * (i + n) <= length hex -> exists r, unhex_loop n i hex out = Some r.
Proof.
  induction n as [|n IH]; intros i hex out Hl; cbn [unhex_loop]; [by eexists|].
  destruct (lookup_lt_is_Some_2 hex (2 * i) ltac:(lia)) as [a ->]. destruct (lookup_lt_is_Some_2 hex (2 * i + 1) ltac:(lia)) as [b ->]. cbn [mbind option_bind].
  destruct (_ || _); [by eexists|]. apply IH. lia.
Qed.

Lemma catch_total line into have : exists r, catch line into have = Some r.
Proof.
  unfold catch. destruct (memchr _ _) as [i|]; [|by eexists]. cbn zeta. destruct (Nat.leb_spec (2 * SECRET_LEN) (length (drop (S i) (drop 24 line)))) as [Hl|Hl]; [|by eexists].
  unfold unhex. destruct (unhex_total SECRET_LEN 0 (drop (S i) (drop 24 line)) into ltac:(lia)) as [[ok o] ->]. by eexists.
Qed.

Lemma keylog_total s line : exists s', ioxd__handshake_keylog (Some s) line = Some (Some s').
Proof.
  unfold ioxd__handshake_keylog. destruct (beq _ _); [destruct (catch_total line (tx s) (have_tx s)) as [[i h] ->]; by eexists|].
  destruct (beq _ _); [destruct (catch_total line (rx s) (have_rx s)) as [[i h] ->]; by eexists|by eexists].
Qed.

Lemma keylogs_total lines : forall s, exists s', keylogs s lines = Some s'.
Proof. induction lines as [|l lines IH]; intros s; cbn [keylogs]; [by exists s|]. destruct (keylog_total s l) as [s' ->]. cbn [mbind option_bind]. apply IH. Qed.

(** ** What goes between the peer and OpenSSL

    Everything the write BIO holds; the reads after a record; the records and what they opened to; the whole
    handshake, with the records in, the bytes out and the secrets logged. *)
Section Flights.
Context {W : Type} `{!Sender W} {T : Type} `{!Tls T}.

Inductive emptied : T -> bytes -> T -> Prop :=
| emptied_end t t' : BIO_read 4096 t = ([], t') -> emptied t [] t'
| emptied_more t d t1 ds t2 : BIO_read 4096 t = (d, t1) -> d <> [] -> emptied t1 ds t2 -> emptied t (d ++ ds) t2.

Inductive reads : T -> bytes -> T -> Prop :=
| reads_full t : reads t [] t
| reads_stop n t z t' : SSL_read n t = (inr z, t') -> reads t [] t'
| reads_more n t d t1 ds t2 : SSL_read n t = (inl d, t1) -> reads t1 ds t2 -> reads t (d ++ ds) t2.

Inductive opened : T -> list bytes -> bytes -> T -> Prop :=
| opened_none t : opened t [] [] t
| opened_more t r t1 d t2 rs ds t3 : BIO_write r t = (true, t1) -> reads t1 d t2 -> opened t2 rs ds t3 -> opened t (r :: rs) (d ++ ds) t3.

Inductive handshaken : T -> secrets -> list bytes -> bytes -> T -> secrets -> Prop :=
| handshaken_end t s lines t1 s' o t2 : SSL_do_handshake t = (1%Z, lines, t1) -> keylogs s lines = Some s' -> emptied t1 o t2 -> handshaken t s [] o t2 s'
| handshaken_more t s ret lines t1 s1 o t2 r t3 rs os t4 s4 : SSL_do_handshake t = (ret, lines, t1) -> SSL_get_error t1 ret = SSL_ERROR_WANT_READ ->
    keylogs s lines = Some s1 -> emptied t1 o t2 -> BIO_write r t2 = (true, t3) -> handshaken t3 s1 rs os t4 s4 -> handshaken t s (r :: rs) (o ++ os) t4 s4.

Context `{!SenderLaws W} `{!TlsLaws T}.

Lemma flush_loop_spec base fuel : forall snt (pw : pipewriter) (w : W) (t : T), Writer.carries base snt pw w -> Writer.failed pw = false -> BIO_pending t <= fuel ->
  exists ok pw' w' t', flush_loop fuel pw w t = Some (ok, pw', w', t') /\
    (ok = true -> exists o, emptied t o t' /\ Writer.carries base (snt ++ o) pw' w' /\ Writer.failed pw' = false /\ wire w' = base ++ snt ++ o).
Proof.
  induction fuel as [|fuel IH]; intros snt pw w t Hc Hf Hp; cbn [flush_loop]; destruct (BIO_read 4096 t) as [d t1] eqn:Er; destruct (bio_law _ _ _ _ Er ltac:(lia)) as [Hlen Hnil];
    (destruct d as [|b d]; [destruct (ioxd__pipewriter_flush pw w) as [[ok pw1] w1] eqn:Ef; exists ok, pw1, w1, t1; split; [done|]; intros ->; exists [];
      pose proof (Writer.carries_flush _ _ _ _ _ _ _ Hc Ef) as Hc1; destruct (Writer.flush_with_spec _ _ _ _ _ _ (proj1 Hc) Ef) as (_ & _ & Hr); rewrite Hf in Hr; destruct Hr as (Hf1 & Hp1 & _);
      rewrite app_nil_r; split_and!; [by apply emptied_end|done|done|destruct Hc1 as (_ & _ & _ & Hw); cbn in Hf1; rewrite Hf1, Hp1, app_nil_r in Hw; exact Hw]|]).
  { cbn in Hlen. lia. }
  destruct (ioxd__pipewriter_write pw (b :: d) w) as [[ok pw1] w1] eqn:Ew. destruct ok; [|exists false, pw1, w1, t1; done].
  pose proof (Writer.carries_write _ _ _ _ _ _ _ _ Hc Ew) as Hc1. destruct (Writer.write_spec _ _ _ _ _ _ (proj1 Hc) (proj1 (proj2 Hc)) Ew) as (_ & _ & _ & Hr). rewrite Hf in Hr.
  destruct (IH (snt ++ b :: d) pw1 w1 t1 Hc1 (proj1 Hr)) as (ok & pw2 & w2 & t2 & E & Ho); [cbn in Hlen; lia|]. exists ok, pw2, w2, t2. split; [done|]. intros Hok.
  destruct (Ho Hok) as (o & H1 & H2 & H3 & H4). exists ((b :: d) ++ o). rewrite app_assoc. split_and!; [by eapply emptied_more|done|done|]. by rewrite H4.
Qed.

(** The slab of the writer stays as it is laid out. *)
Definition laid (pw pw' : pipewriter) : Prop := Writer.writer_ok pw' /\ Writer.tail pw' = 0 /\ Writer.same_slab pw pw'.

Lemma laid_trans a b c : laid a b -> laid b c -> laid a c.
Proof. intros (_ & _ & A1 & A2 & A3) (? & ? & B1 & B2 & B3). unfold laid, Writer.same_slab. split_and!; try done; congruence. Qed.

Lemma flush_laid (pw : pipewriter) (w : W) ok pw' w' : laid pw pw -> ioxd__pipewriter_flush pw w = (ok, pw', w') -> laid pw pw'.
Proof.
  intros (Hok & Ht & Hs) Hf. destruct (Writer.flush_with_spec _ _ _ _ _ _ Hok Hf) as (H1 & H2 & H3). split_and!; [done| |done].
  destruct (Writer.failed pw); [by destruct H3 as (_ & -> & _)|by destruct H3 as (_ & _ & _ & _ & ? & _)].
Qed.

Lemma flush_loop_laid fuel : forall (pw : pipewriter) (w : W) (t : T) ok pw' w' t', laid pw pw -> flush_loop fuel pw w t = Some (ok, pw', w', t') -> laid pw pw'.
Proof.
  induction fuel as [|fuel IH]; intros pw w t ok pw' w' t' Hl Hf; cbn [flush_loop] in Hf; destruct (BIO_read 4096 t) as [[|b d] t1];
    try (destruct (ioxd__pipewriter_flush pw w) as [[ok1 pw1] w1] eqn:E; injection Hf as <- <- <- <-; by eapply flush_laid); [done|].
  destruct (ioxd__pipewriter_write pw (b :: d) w) as [[ok1 pw1] w1] eqn:E. destruct (Writer.write_spec _ _ _ _ _ _ (proj1 Hl) (proj1 (proj2 Hl)) E) as (H1 & H2 & H3 & _).
  destruct ok1; [|injection Hf as <- <- <- <-; by split_and!]. eapply laid_trans; [|eapply IH; [|exact Hf]]; by split_and!.
Qed.

Lemma handshake_loop_laid fuel : forall s r s', laid (out s) (out s) -> handshake_loop fuel s = Some (r, s') -> laid (out s) (out s').
Proof.
  induction fuel as [|fuel IH]; intros s r s' Hl Hs; cbn [handshake_loop] in Hs; destruct (SSL_do_handshake (tls s)) as [[ret lines] t1]; destruct (keylogs (sec s) lines) as [sc|]; try done; cbn [mbind option_bind] in Hs;
    unfold flush_outbound in Hs; destruct (flush_loop (BIO_pending t1) (out s) (net s) t1) as [[[[ok pw] w] t2]|] eqn:Ef; try done; cbn [mbind option_bind] in Hs;
    pose proof (flush_loop_laid _ _ _ _ _ _ _ _ Hl Ef) as Hl1;
    (destruct (negb ok); [by injection Hs as <- <-|]); (destruct (ret =? 1)%Z; [by injection Hs as <- <-|]);
    (destruct (negb (SSL_get_error t1 ret =? SSL_ERROR_WANT_READ)%Z); [by injection Hs as <- <-|]); cbn [inp tls] in Hs;
    destruct (feed_inbound (inp s) t2) as [[[fed x] t3]|]; try done; cbn [mbind option_bind] in Hs; (destruct (negb fed); [by injection Hs as <- <-|]); [done|].
  match type of Hs with handshake_loop fuel ?s2 = _ => eapply laid_trans; [|eapply (IH s2); [|exact Hs]] end; [done|]. cbn. destruct Hl1 as (? & ? & ?). by split_and!.
Qed.

Lemma reads_bytes t d t' : reads t d t' -> all_bytes d.
Proof. induction 1; [constructor|constructor|]. apply Forall_app. split; [by eapply read_bytes|done]. Qed.

Lemma opened_bytes t rs d t' : opened t rs d t' -> all_bytes d.
Proof. induction 1; [constructor|]. apply Forall_app. split; [by eapply reads_bytes|done]. Qed.

(** A loop's state: the reader holds nothing kept, the bytes are bytes, and all that was sent is on the wire. *)
Record going (c : nat) (base snt : bytes) (s : state (W := W) (T := T)) : Prop := {
  go_input : clean_input c false (inp s);
  go_bytes : all_bytes (stream (inp s));
  go_carries : Writer.carries base snt (out s) (net s);
  go_open : Writer.failed (out s) = false
}.

Lemma whole_min rec : whole rec -> 5 <= length rec.
Proof. by intros [[? _] _]. Qed.

Lemma handshake_loop_spec c base fuel : forall snt s, going c base snt s -> length (stream (inp s)) <= fuel ->
  exists r s', handshake_loop fuel s = Some (r, s') /\
    (r = None -> exists rs o, handshaken (tls s) (sec s) rs o (tls s') (sec s') /\ Forall whole rs /\ concat rs ++ stream (inp s') = stream (inp s) /\
      going c base (snt ++ o) s' /\ wire (net s') = base ++ snt ++ o).
Proof.
  induction fuel as [|fuel IH]; intros snt s Hgo Hlen; cbn [handshake_loop]; destruct (SSL_do_handshake (tls s)) as [[ret lines] t1] eqn:Eh;
    destruct (keylogs_total lines (sec s)) as [s1 Hk]; rewrite Hk; cbn [mbind option_bind]; unfold flush_outbound;
    destruct (flush_loop_spec base (BIO_pending t1) snt (out s) (net s) t1 (go_carries _ _ _ _ Hgo) (go_open _ _ _ _ Hgo) (le_n _)) as (ok & pw & w & t2 & -> & Ho); cbn [mbind option_bind];
    (destruct ok; cbn [negb]; [destruct (Ho eq_refl) as (o & Ho1 & Ho2 & Ho3 & Ho4); clear Ho|eexists _, _; split; [reflexivity|]; discriminate]);
    (destruct (Z.eqb_spec ret 1) as [->|Hret]; [eexists _, _; split; [reflexivity|]; intros _; exists [], o; cbn; split_and!; [by eapply handshaken_end|constructor|done|split; [apply Hgo|apply Hgo|exact Ho2|exact Ho3]|exact Ho4]|]);
    (destruct (Z.eqb_spec (SSL_get_error t1 ret) SSL_ERROR_WANT_READ) as [Hwr|]; cbn [negb]; [|eexists _, _; split; [reflexivity|]; discriminate]);
    unfold feed_inbound; cbn [inp]; destruct (take_record_spec c false (inp s) (go_input _ _ _ _ Hgo) (go_bytes _ _ _ _ Hgo)) as ([[rc rec] x'] & -> & Ht); cbn [mbind option_bind];
    (destruct (Z.leb_spec rc 0); [eexists _, _; split; [reflexivity|]; discriminate|]);
    destruct Ht as [(-> & Hci & Hs & Hw)|[(-> & _)|?]]; try lia; cbn [app] in Hs; pose proof (whole_min _ Hw) as H5; pose proof (f_equal length Hs) as Hls; rewrite length_app in Hls; [lia|].
  cbn [tls]. destruct (BIO_write rec t2) as [okw t3] eqn:Ew. cbn [mbind option_bind negb]. destruct okw; cbn [negb]; [|eexists _, _; split; [reflexivity|]; discriminate].
  match goal with |- context [handshake_loop fuel ?s2] => destruct (IH (snt ++ o) s2) as (r & s' & E & Hr) end.
  - split; [exact Hci| |exact Ho2|exact Ho3]. cbn. pose proof (go_bytes _ _ _ _ Hgo) as Hb. rewrite <- Hs in Hb. by apply Forall_app in Hb as [_ ?].
  - cbn. lia.
  - exists r, s'. split; [exact E|]. intros Hn. destruct (Hr Hn) as (rs & os & H1 & H2 & H3 & H4 & H6). exists (rec :: rs), (o ++ os). cbn in H1, H3.
    split_and!; [by eapply handshaken_more|by constructor|cbn; by rewrite <- app_assoc, H3|by rewrite app_assoc|by rewrite H6, <- !app_assoc].
Qed.

Lemma read_plain_spec fuel : forall plain n t, length plain <= PLAIN_MAX -> PLAIN_MAX - length plain < fuel ->
  exists d n' t', read_plain fuel plain n t = Some (plain ++ d, n', t') /\ reads t d t' /\ length (plain ++ d) <= PLAIN_MAX.
Proof.
  induction fuel as [|fuel IH]; intros plain n t Hl Hf; [lia|]. cbn [read_plain]. destruct (Nat.ltb_spec (length plain) PLAIN_MAX) as [Hlt|Hge].
  - destruct (SSL_read _ t) as [[d|z] t1] eqn:Er.
    + pose proof (read_law _ _ _ _ Er ltac:(lia)) as Hd. destruct (Nat.ltb_spec PLAIN_MAX (length plain + length d)); [lia|].
      destruct (IH (plain ++ d) (Z.of_nat (length d)) t1) as (d' & n' & t' & -> & Hr & Hle); [rewrite length_app; lia|rewrite length_app; lia|].
      exists (d ++ d'), n', t'. rewrite <- app_assoc in *. split_and!; [done|by eapply reads_more|done].
    + exists [], z, t1. rewrite app_nil_r. split_and!; [done|by eapply reads_stop|done].
  - exists [], n, t. rewrite app_nil_r. split_and!; [done|apply reads_full|done].
Qed.

(** A record of application data. *)
Definition app_data (rec : bytes) : Prop := whole rec /\ nth 0 rec 0%Z = 23%Z.

(** OpenSSL saw the peer close its side. *)
Definition closed_by_peer (t : T) : Prop := exists n, SSL_get_error t n = SSL_ERROR_ZERO_RETURN.

Definition drained (c : nat) (x : input) (t : T) (plain : bytes) (n : nat) (r : option ((nat * bytes) + why) * input * T) : Prop :=
  let '(r, x', t') := r in
  exists v, r = Some v /\ forall m p, v = inl (m, p) -> exists rs d, opened t rs d t' /\ m = n + length rs /\ p = plain ++ d /\ length p <= PLAIN_MAX /\
    Forall app_data rs /\ concat rs ++ stream x' = stream x /\ clean_input c true x' /\
    (live_bytes (rd x') (rw x') = [] /\ now (rw x') = [] \/ closed_by_peer t').

Lemma drained_fail c x t plain n e x' t' : drained c x t plain n (Some (inr e), x', t').
Proof. by exists (inr e). Qed.

(** A record more. *)
Lemma drained_more c x t plain n rec x1 t1 d t2 r : app_data rec -> rec ++ stream x1 = stream x -> BIO_write rec t = (true, t1) -> reads t1 d t2 ->
  drained c x1 t2 (plain ++ d) (S n) r -> drained c x t plain n r.
Proof.
  intros Ha Hs Hw Hr. destruct r as [[r x'] t']. intros (v & -> & Hv). exists v. split; [done|]. intros m p Hmp.
  destruct (Hv m p Hmp) as (rs & d' & H1 & H2 & H3 & H4 & H5 & H6 & H7 & H8). exists (rec :: rs), (d ++ d'). split_and!; try done.
  - by eapply opened_more.
  - cbn. lia.
  - by rewrite H3, <- app_assoc.
  - by constructor.
  - cbn. by rewrite <- app_assoc, H6.
Qed.

Lemma drained_stop c x x' t plain n : clean_input c true x' -> stream x' = stream x -> length plain <= PLAIN_MAX ->
  live_bytes (rd x') (rw x') = [] /\ now (rw x') = [] \/ closed_by_peer t -> drained c x t plain n (Some (inl (n, plain)), x', t).
Proof.
  intros Hci Hs Hl Hc. eexists. split; [done|]. intros m p [= <- <-]. exists [], []. rewrite app_nil_r.
  split; [apply opened_none|]. split; [cbn; lia|]. split; [done|]. split; [done|]. split; [constructor|]. by split.
Qed.

Lemma drain_records_spec c fuel : forall x t plain n, clean_input c true x -> all_bytes (stream x) -> length plain <= PLAIN_MAX -> length (stream x) <= fuel ->
  drained c x t plain n (drain_loop fuel x t plain n).
Proof.
  induction fuel as [|fuel IH]; intros x t plain n Hci Hb Hl Hf; cbn [drain_loop];
    destruct (take_record_spec c true x Hci Hb) as ([[rc rec] x1] & -> & Ht);
    (destruct (Z.ltb_spec rc 0); [apply drained_fail|]);
    (destruct (Z.eqb_spec rc 0) as [->|Hrc];
      [destruct Ht as [(? & _)|[(_ & _ & _ & H1 & H2 & H3 & H4)|?]]; [done|apply drained_stop; by auto|lia]|]);
    destruct Ht as [(-> & Hci1 & Hs & Hw)|[(-> & _)|?]]; try lia; cbn [app] in Hs; pose proof (whole_min _ Hw) as H5; pose proof (f_equal length Hs) as Hls; rewrite length_app in Hls; [lia|];
    (destruct (Z.eqb_spec (nth 0 rec 0%Z) 23) as [H23|]; cbn [negb]; [|apply drained_fail]);
    (destruct (Nat.eqb_spec (length plain) PLAIN_MAX) as [Hp|Hp]; [apply drained_fail|]).
  destruct (BIO_write rec t) as [okw t1] eqn:Ew. destruct okw; cbn [negb]; [|apply drained_fail].
  destruct (read_plain_spec (S PLAIN_MAX) plain (-1) t1 Hl ltac:(lia)) as (d & n' & t2 & -> & Hr & Hle).
  assert (Hagain : drained c x t plain n (drain_loop fuel x1 t2 (plain ++ d) (S n))).
  { eapply drained_more; [split; [exact Hw|exact H23]|exact Hs|exact Ew|exact Hr|]. apply IH; [done| |done|lia]. rewrite <- Hs in Hb. by apply Forall_app in Hb as [_ ?]. }
  destruct (_ && _); [apply drained_fail|]. destruct (Nat.eqb_spec (length (plain ++ d)) PLAIN_MAX); [exact Hagain|].
  destruct (Z.eqb_spec (SSL_get_error t2 n') SSL_ERROR_ZERO_RETURN) as [Hz|].
  { eapply drained_more; [split; [exact Hw|exact H23]|exact Hs|exact Ew|exact Hr|]. apply drained_stop; [done|done|done|]. right. by exists n'. }
  destruct (negb _); [apply drained_fail|]. destruct (0 <? BIO_pending t2); [apply drained_fail|exact Hagain].
Qed.
End Flights.

(** ** The pause and the early plaintext *)

Lemma pause_ok c n x : clean_input c false x -> clean_input c true (pause n x) /\ stream (pause n x) = stream x.
Proof.
  intros [[Hok He Hr Hf] _]. split.
  - split; [|done]. split; [|done..]. destruct Hok as [H1 H2 H3 H4 H5 H6 H7 H8 H9]. split; try done; cbn.
    + unfold ledger in *. cbn. rewrite app_nil_r. refine (sublist_NoDup _ _ H8 _). apply sublist_app; [done|]. apply sublist_app; [done|]. rewrite !map_app. apply sublist_app; [done|].
      rewrite <- (take_drop n (later (rw x))) at 2. rewrite map_app. by apply sublist_inserts_r.
    + intros i Hi. apply H9. rewrite app_nil_r in Hi. apply elem_of_app in Hi as [Hi|Hi]; apply elem_of_app; [by left|right]. rewrite <- (take_drop n (later (rw x))). apply elem_of_app. by left.
  - assert (Hit : forall i, item_bytes (rw (pause n x)) i = item_bytes (rw x) i) by done. unfold stream. change (live_bytes (rd (pause n x)) (rw (pause n x))) with (live_bytes (rd x) (rw x)). f_equal.
    unfold coming. rewrite (map_ext _ _ Hit). cbn [pause rw sock now later]. rewrite app_nil_r, app_assoc, <- concat_app, <- map_app, <- app_assoc, take_drop. done.
Qed.

Lemma gather_clean c pr w : clean c pr w -> live_in_buf pr = false -> has_cur pr = true -> live_bytes pr w = [] ->
  exists p w', gather pr w = Some (p, w') /\ clean c p w' /\ live_in_buf p = true /\ live_bytes p w' = [] /\ now w' = now w /\ later w' = later w.
Proof.
  intros [Hok He [Hr Hp] [Hf Hc]] Hlib Hcur Hlive. assert (Hlen : ilen (cur pr) - cur_pos pr = 0).
  { pose proof (length_live _ _ _ Hok) as Hl. rewrite Hlive in Hl. unfold live_span in Hl. rewrite Hlib, Hcur in Hl. done. }
  assert (Hgo : exists p w', gather pr w = Some (p, w') /\ floor p = floor pr /\ cap p = cap pr /\ has_pinned p = false /\ now w' = now w /\ later w' = later w).
  { unfold gather. rewrite Hcur, Hlen, Hf, Hr. replace (if run_in_cur pr then 0 else 0) with 0 by (by destruct (run_in_cur pr)).
    destruct (Nat.ltb_spec (cap pr) (0 + 0 + 0)); [lia|]. unfold gather_run, gather_live. rewrite (Nat.ltb_irrefl 0). cbn [has_cur set_run set_buffer]. rewrite Hcur.
    match goal with |- context [cur_done ?q ?v] => pose proof (cur_done_sizes q v) as (S1 & S2 & S3 & S4); assert (S5 : has_pinned (cur_done q v).1 = has_pinned q) by (unfold cur_done; by destruct (_ || _ || _));
      destruct (cur_done q v) as [p v'] end. exists p, v'. cbn in *. split_and!; congruence. }
  destruct Hgo as (p & w' & Hg & H1 & H2 & H3 & H4 & H5). exists p, w'. destruct (gather_spec pr w p w' Hok Hlib Hg) as (Hok' & Hs & Hlib'). destruct Hs.
  split; [done|]. destruct sm_end as (E1 & E2 & E3 & _), He as (F1 & F2 & F3). split_and!; try done; [|congruence].
  split; [done|split_and!; congruence|split; congruence|split; congruence].
Qed.

Lemma inject_into c p w d : clean c p w -> live_in_buf p = true -> live_bytes p w = [] -> length d <= c ->
  exists p', (let pr := if cap p <? buf_end p + length d then compact p else p in
    if cap pr <? buf_end pr + length d then (false, pr, w)
    else (true, set_buffer pr (blit (buf pr) (buf_end pr) d) (floor pr) (live_in_buf pr) (buf_pos pr) (buf_end pr + length d), w)) = (true, p', w) /\
    clean c p' w /\ live_bytes p' w = d.
Proof.
  intros Hcl Hlib Hlive Hd. cbn zeta. set (q := if cap p <? buf_end p + length d then compact p else p).
  assert (Hq : clean c q w /\ live_in_buf q = true /\ live_bytes q w = [] /\ buf_end q + length d <= cap q).
  { destruct Hcl as [Hok He Hr [Hf Hc]]. pose proof (length_live _ _ _ Hok) as Hl. rewrite Hlive in Hl. unfold live_span in Hl. rewrite Hlib in Hl. cbn in Hl.
    destruct (ro_buf _ _ _ Hok Hlib) as (B1 & B2 & B3). unfold q. destruct (Nat.ltb_spec (cap p) (buf_end p + length d)) as [Hbig|Hfit]; [|split_and!; [done..|lia]].
    destruct (compact_spec p w Hok Hlib) as (Hok' & Hs & Hlib'). destruct Hs. unfold compact in *. destruct (Nat.ltb_spec (floor p) (buf_pos p)).
    - split_and!; [split; done|done|congruence|cbn; lia].
    - split_and!; [split; done|done|done|lia]. }
  clearbody q. destruct Hq as ([Hok He Hr [Hf Hc]] & Hlq & Hv & Hfit). destruct (Nat.ltb_spec (cap q) (buf_end q + length d)); [lia|]. eexists. split; [done|].
  pose proof (length_live _ _ _ Hok) as Hl. rewrite Hv in Hl. unfold live_span in Hl. rewrite Hlq in Hl. cbn in Hl. destruct Hok as [H1 H2 H3 H4 H5 H6 H7 H8 H9]. destruct (H3 Hlq) as (B1 & B2 & B3). split.
  - split; [|done|done|split; done]. split; try done; cbn; [by rewrite length_blit by lia|]. intros _. split_and!; try done; lia.
  - unfold live_bytes, live_span. cbn. rewrite Hlq. cbn. replace (buf_end q + length d - buf_pos q) with (length d) by lia.
    replace (buf_pos q) with (buf_end q) by lia. apply span_blit_same. lia.
Qed.

Lemma inject_clean c pr w d : clean c pr w -> live_bytes pr w = [] -> length d <= c ->
  exists pr' w', ioxd__pipereader_inject pr w d = (true, pr', w') /\ clean c pr' w' /\ live_bytes pr' w' = d /\ now w' = now w /\ later w' = later w.
Proof.
  intros Hcl Hlive Hd. unfold ioxd__pipereader_inject. rewrite (proj1 (cl_end _ _ _ Hcl)). cbn [Z.eqb negb]. destruct (live_in_buf pr) eqn:Hlib.
  - destruct (inject_into c pr w d Hcl Hlib Hlive Hd) as (p & E & H1 & H2). cbn zeta in E. exists p, w. by split_and!.
  - destruct (has_cur pr) eqn:Hcur.
    + destruct (gather_clean c pr w Hcl Hlib Hcur Hlive) as (p & w' & -> & H1 & H2 & H3 & H4 & H5).
      destruct (inject_into c p w' d H1 H2 H3 Hd) as (p' & E & H6 & H7). cbn zeta in E. exists p', w'. by split_and!.
    + set (q := set_buffer pr _ _ _ _ _). assert (Hq : clean c q w).
      { destruct Hcl as [Hok He Hr Hf]. split; try done. destruct Hok as [H1 H2 H3 H4 H5 H6 H7 H8 H9]. split; try done; cbn. intros _. split_and!; try done; lia. }
      destruct (inject_into c q w d Hq eq_refl) as (p' & E & H6 & H7); [unfold live_bytes, live_span; cbn; by rewrite Nat.sub_diag|done|].
      exists p', w. by split_and!.
Qed.

(** ** The keys *)

(** RFC 8446's HkdfLabel: the length, the label and an empty context. *)
Definition hkdf_label (n : Z) (label : bytes) : bytes :=
  let l := lit "tls13 " ++ label in [n / 256; n mod 256; Z.of_nat (length l)]%Z ++ l ++ [0%Z].

Definition be (l : bytes) : Z := fold_left (fun a b => (a * 256 + b)%Z) l 0%Z.

(** The kernel's keys of a traffic secret: the key, the nonce in its two parts, and the number of the next record. *)
Definition traffic `{Kdf} (secret : bytes) (seq : Z) (ci : crypto_info) : Prop :=
  exists key iv, EVP_PKEY_derive secret (hkdf_label 16 (lit "key")) 16 = Some key /\ length key = 16 /\
    EVP_PKEY_derive secret (hkdf_label 12 (lit "iv")) 12 = Some iv /\ length iv = 12 /\
    version ci = TLS_1_3_VERSION /\ cipher_type ci = TLS_CIPHER_AES_GCM_128 /\
    ci_key ci = key /\ ci_salt ci ++ ci_iv ci = iv /\ length (ci_salt ci) = 4 /\ length (rec_seq ci) = 8 /\ be (rec_seq ci) = (seq mod 2 ^ 64)%Z.

Lemma expand_label_says `{Kdf} secret label n : length label <= 54 -> (Z.of_nat n < 65536)%Z ->
  expand_label secret label n = Some match EVP_PKEY_derive secret (hkdf_label (Z.of_nat n) label) n with
                                     | Some out => if length out =? n then Some out else None
                                     | None => None
                                     end.
Proof.
  intros Hl Hn. assert (Hs : length (lit "tls13 ") = 6) by done. unfold expand_label, put.
  rewrite (proj2 (Nat.leb_le _ _)) by (cbn; lia). cbn [mbind option_bind app length]. rewrite (proj2 (Nat.leb_le _ _)) by (cbn; lia). cbn [mbind option_bind app length].
  rewrite (proj2 (Nat.leb_le _ _)) by (cbn; lia). cbn [mbind option_bind app length]. rewrite Hs. rewrite (proj2 (Nat.leb_le _ _)) by lia. cbn [mbind option_bind].
  rewrite (proj2 (Nat.leb_le _ _)) by (cbn [length app]; rewrite ?length_app; cbn [length app]; rewrite ?length_app, ?Hs; cbn; lia). cbn [mbind option_bind].
  rewrite (proj2 (Nat.leb_le _ _)) by (cbn [length app]; rewrite ?length_app; cbn [length app]; rewrite ?length_app, ?Hs; cbn; lia). cbn [mbind option_bind].
  set (info := _ ++ [0%Z]). assert (Hi : info = hkdf_label (Z.of_nat n) label); [|by rewrite Hi].
  unfold info, hkdf_label. rewrite length_app, Hs. unfold byte_of. rewrite Z.shiftr_div_pow2 by lia. change (2 ^ 8)%Z with 256%Z.
  rewrite (Z.mod_small (Z.of_nat n / 256)) by (Z.div_mod_to_equations; lia). rewrite (Z.mod_small (6 + _)) by lia.
  replace (6 + Z.of_nat (length label))%Z with (Z.of_nat (6 + length label)) by lia. cbn [app]. by rewrite <- !app_assoc.
Qed.

Lemma seq_loop_says i : i <= 8 -> forall seq, length (seq_loop i seq) = i /\ be (seq_loop i seq) = ((Z.shiftr seq (64 - 8 * Z.of_nat i)) mod 2 ^ (8 * Z.of_nat i))%Z.
Proof.
  induction i as [|i IH]; intros Hi seq; cbn [seq_loop]; [split; [done|]; by rewrite Z.mod_1_r|]. destruct (IH ltac:(lia) seq) as [Hl Hb].
  split; [rewrite length_app, Hl; cbn; lia|]. unfold be in *. rewrite fold_left_app, Hb. cbn [fold_left]. unfold byte_of.
  replace (64 - 8 * Z.of_nat (S i))%Z with (56 - 8 * Z.of_nat i)%Z by lia. set (y := Z.shiftr seq (56 - 8 * Z.of_nat i)).
  replace (Z.shiftr seq (64 - 8 * Z.of_nat i)) with (y / 256)%Z
    by (unfold y; replace (64 - 8 * Z.of_nat i)%Z with (56 - 8 * Z.of_nat i + 8)%Z by lia; rewrite <- Z.shiftr_shiftr, (Z.shiftr_div_pow2 _ 8) by lia; done).
  replace (8 * Z.of_nat (S i))%Z with (8 + 8 * Z.of_nat i)%Z by lia. rewrite Z.pow_add_r, Z.rem_mul_r by lia. change (2 ^ 8)%Z with 256%Z. lia.
Qed.

Lemma install_says `{Kdf} secret seq answer : (answer <= 0)%Z -> exists r ks, install secret seq answer = Some (r, ks) /\ (r <= 0)%Z /\
  (r = 0%Z -> answer = 0%Z /\ exists ci, ks = [ci] /\ traffic secret seq ci).
Proof.
  intros Ha. unfold install, key_material. rewrite (expand_label_says secret (lit "key") 16), (expand_label_says secret (lit "iv") 12) by first [done|apply Nat.leb_le; reflexivity]. cbn [mbind option_bind].
  change (Z.of_nat 16) with 16%Z. change (Z.of_nat 12) with 12%Z.
  destruct (EVP_PKEY_derive secret (hkdf_label 16 (lit "key")) 16) as [key|] eqn:Ek; [|by eexists _, _]. destruct (Nat.eqb_spec (length key) 16) as [Hk|]; [|by eexists _, _]. cbn [mbind option_bind].
  destruct (EVP_PKEY_derive secret (hkdf_label 12 (lit "iv")) 12) as [iv|] eqn:Ei; [|by eexists _, _]. destruct (Nat.eqb_spec (length iv) 12) as [Hv|]; [|by eexists _, _].
  eexists _, _. split; [reflexivity|]. split; [done|]. intros ->. split; [done|]. eexists. split; [reflexivity|]. exists key, iv. destruct (seq_loop_says 8 (le_n _) seq) as [Hl Hb].
  cbn [version cipher_type ci_key ci_salt ci_iv rec_seq]. split_and!; try done; [by rewrite take_drop|rewrite length_take; lia].
Qed.

(** ** The properties *)

(** A secret as the callback is given it: two lower case digits a byte. *)
Definition hex_char (d : Z) : Z := if (d <? 10)%Z then (ch "0" + d)%Z else (ch "a" + (d - 10))%Z.
Definition hex_of (l : bytes) : bytes := flat_map (fun b => [hex_char (b / 16); hex_char (b mod 16)]) l.

Lemma hexdigit_char d : (0 <= d < 16)%Z -> hexdigit (hex_char d) = d.
Proof.
  intros Hd. assert (H : Forall (fun d => hexdigit (hex_char d) = d) (map Z.of_nat (List.seq 0 16))) by (repeat constructor).
  apply (proj1 (Forall_forall _ _) H). apply list_elem_of_In, in_map_iff. exists (Z.to_nat d). split; [lia|]. apply in_seq. lia.
Qed.

Lemma hex_of_at l rest : forall i b, l !! i = Some b -> (hex_of l ++ rest) !! (2 * i) = Some (hex_char (b / 16)) /\ (hex_of l ++ rest) !! (2 * i + 1) = Some (hex_char (b mod 16)).
Proof.
  induction l as [|x l IH]; intros i b Hi; [done|]. destruct i as [|i]; [injection Hi as ->; done|]. replace (2 * S i) with (S (S (2 * i))) by lia.
  replace (S (S (2 * i)) + 1) with (S (S (2 * i + 1))) by lia. apply (IH i b Hi).
Qed.

Lemma length_hex_of l : length (hex_of l) = 2 * length l.
Proof. induction l as [|x l IH]; [done|]. cbn [hex_of flat_map app length]. change (flat_map _ l) with (hex_of l). lia. Qed.

Lemma unhex_loop_says secret rest : all_bytes secret -> forall n i out, length secret = i + n -> length out = i + n ->
  unhex_loop n i (hex_of secret ++ rest) out = Some (true, take i out ++ drop i secret).
Proof.
  intros Hb. induction n as [|n IH]; intros i out Hs Ho; cbn [unhex_loop]; [rewrite take_ge, drop_ge by lia; by rewrite app_nil_r|].
  destruct (lookup_lt_is_Some_2 secret i ltac:(lia)) as [b Hi]. destruct (hex_of_at secret rest i b Hi) as [-> ->]. cbn [mbind option_bind].
  assert (Hrb : (0 <= b < 256)%Z) by (by apply (Forall_lookup_1 _ _ _ _ Hb Hi)). assert (0 <= b / 16 < 16 /\ 0 <= b mod 16 < 16)%Z as [Hh Hl] by (Z.div_mod_to_equations; lia).
  rewrite !hexdigit_char by done. rewrite !(proj2 (Z.ltb_ge _ _)) by lia. cbn [orb]. rewrite (lor_shiftl 4) by lia. replace (b / 16 * 2 ^ 4 + b mod 16)%Z with b by (Z.div_mod_to_equations; lia).
  rewrite IH by (rewrite ?length_insert; lia). do 2 f_equal. rewrite (drop_S _ _ _ Hi). rewrite (take_S_r _ i b) by (apply list_lookup_insert_eq; lia). rewrite take_insert_ge by lia. by rewrite <- app_assoc.
Qed.

Lemma catch_says label random secret rest into have : length label = 24 -> ch " " ∉ random -> all_bytes secret -> length secret = SECRET_LEN -> length into = SECRET_LEN ->
  catch (label ++ random ++ lit " " ++ hex_of secret ++ rest) into have = Some (secret, true).
Proof.
  intros Hl Hr Hb Hs Hi. unfold catch. rewrite drop_app_length' by done. rewrite memchr_app_r by done. change (lit " ") with [ch " "]. cbn [app memchr]. rewrite Z.eqb_refl. cbn [fmap option_fmap option_map].
  cbn zeta. replace (S (length random + 0)) with (length (random ++ [ch " "])) by (rewrite length_app; cbn; lia).
  replace (random ++ ch " " :: hex_of secret ++ rest) with ((random ++ [ch " "]) ++ hex_of secret ++ rest) by (by rewrite <- app_assoc).
  rewrite drop_app_length, (proj2 (Nat.leb_le _ _)) by (rewrite length_app, length_hex_of; lia). unfold unhex. rewrite unhex_loop_says by done. done.
Qed.

(** The keylog callback keeps exactly the two secrets the kernel needs: a line of the server's or the client's first
    traffic secret, whatever its random, leaves that secret's bytes and the note that it is had, and touches nothing
    else; any other line touches nothing; and no line makes it read or write outside. *)
Theorem keylog_catches (s : secrets) (random secret rest : bytes) :
  length (tx s) = SECRET_LEN -> length (rx s) = SECRET_LEN -> ch " " ∉ random -> all_bytes secret -> length secret = SECRET_LEN ->
  ioxd__handshake_keylog (Some s) (lit "SERVER_TRAFFIC_SECRET_0 " ++ random ++ lit " " ++ hex_of secret ++ rest) =
    Some (Some {| tx := secret; rx := rx s; have_tx := true; have_rx := have_rx s |}) /\
  ioxd__handshake_keylog (Some s) (lit "CLIENT_TRAFFIC_SECRET_0 " ++ random ++ lit " " ++ hex_of secret ++ rest) =
    Some (Some {| tx := tx s; rx := secret; have_tx := have_tx s; have_rx := true |}) /\
  (forall line, take 24 line <> lit "SERVER_TRAFFIC_SECRET_0 " -> take 24 line <> lit "CLIENT_TRAFFIC_SECRET_0 " -> ioxd__handshake_keylog (Some s) line = Some (Some s)) /\
  (forall line, exists s', ioxd__handshake_keylog (Some s) line = Some (Some s')).
Proof.
  intros Ht Hx Hr Hb Hs. split_and!.
  - unfold ioxd__handshake_keylog. rewrite take_app_length' by done. rewrite beq_refl. by rewrite catch_says.
  - unfold ioxd__handshake_keylog. rewrite take_app_length' by done. change (beq (lit "CLIENT_TRAFFIC_SECRET_0 ") (lit "SERVER_TRAFFIC_SECRET_0 ")) with false. rewrite beq_refl. by rewrite catch_says.
  - intros line H1 H2. unfold ioxd__handshake_keylog. by rewrite (proj2 (beq_false _ _) H1), (proj2 (beq_false _ _) H2).
  - apply keylog_total.
Qed.

Section Prologue_laws.
Context {W : Type} `{!Sender W} `{!SenderLaws W} {T : Type} `{!Tls T} `{!TlsLaws T} `{!Kdf}.

Lemma hand_over_says (a : answers) (s : state (W := W) (T := T)) x records plain : (set_tx a <= 0)%Z -> (set_rx a <= 0)%Z -> clean PLAIN_MAX (rd x) (rw x) -> length plain <= PLAIN_MAX ->
  exists r x' keys, hand_over a s x records plain = Some (r, x', keys) /\ sock x' = sock x /\
    (r = None -> (exists k1 k2, keys = [(TLS_TX, k1); (TLS_RX, k2)] /\ traffic (tx (sec s)) 0 k1 /\ traffic (rx (sec s)) (Z.of_nat records) k2) /\
      (live_bytes (rd x) (rw x) = [] -> clean PLAIN_MAX (rd x') (rw x') /\ live_bytes (rd x') (rw x') = plain /\ now (rw x') = now (rw x) /\ later (rw x') = later (rw x))).
Proof.
  intros Htx Hrx Hcl Hl. unfold hand_over. destruct (Z.ltb_spec (ulp a) 0); [eexists _, _, _; split; [reflexivity|]; split; [done|discriminate]|].
  destruct (install_says (tx (sec s)) 0 (set_tx a) Htx) as (r1 & ks1 & -> & Hr1 & H1). cbn [mbind option_bind].
  destruct (install_says (rx (sec s)) (Z.of_nat records) (set_rx a) Hrx) as (r2 & ks2 & -> & Hr2 & H2). cbn [mbind option_bind].
  destruct (Z.eqb_spec r1 0) as [->|Hne]; cbn [mbind option_bind].
  2: { rewrite (proj2 (Z.ltb_lt r1 0)) by lia. eexists _, _, _. split; [reflexivity|]. split; [done|discriminate]. }
  destruct (Z.ltb_spec r2 0); [eexists _, _, _; split; [reflexivity|]; split; [done|discriminate]|].
  destruct (H1 eq_refl) as (_ & k1 & -> & Hk1). destruct (H2 ltac:(lia)) as (_ & k2 & -> & Hk2).
  assert (Hkeys : exists k1' k2', map (pair TLS_TX) [k1] ++ map (pair TLS_RX) [k2] = [(TLS_TX, k1'); (TLS_RX, k2')] /\ traffic (tx (sec s)) 0 k1' /\ traffic (rx (sec s)) (Z.of_nat records) k2') by (by exists k1, k2).
  destruct (Nat.ltb_spec 0 (length plain)) as [Hp|Hp].
  - destruct (ioxd__pipereader_inject (rd x) (rw x) plain) as [[ok p] w] eqn:Ei. destruct ok; cbn [negb]; [|eexists _, _, _; split; [reflexivity|]; split; [done|discriminate]].
    eexists _, _, _. split; [reflexivity|]. split; [done|]. intros _. split; [done|]. intros Hlive. destruct (inject_clean _ _ _ _ Hcl Hlive Hl) as (p' & w' & E & Hx). rewrite E in Ei. injection Ei as <- <-. exact Hx.
  - cbn [negb]. eexists _, _, _. split; [reflexivity|]. split; [done|]. intros _. split; [done|]. intros Hlive. cbn. split_and!; try done. rewrite Hlive. destruct plain; [done|cbn in Hp; lia].
Qed.

Lemma prologue_spec (a : answers) (s : state (W := W) (T := T)) (base : bytes) :
  clean PLAIN_MAX (rd (inp s)) (rw (inp s)) -> all_bytes (stream (inp s)) -> Writer.carries base [] (out s) (net s) -> Writer.failed (out s) = false ->
  (set_tx a <= 0)%Z -> (set_rx a <= 0)%Z ->
  exists r s' keys, ioxd__handshake_prologue a s = Some (r, s', keys) /\
    (r = None -> exists ins outs t early plain left, handshaken (tls s) no_secrets ins outs t (sec s') /\ opened t early plain (tls s') /\ length plain <= PLAIN_MAX /\
      laid (out s) (out s') /\ Writer.failed (out s') = false /\
      Forall whole ins /\ Forall app_data early /\ concat ins ++ concat early ++ left ++ sock (inp s') = stream (inp s) /\
      wire (net s') = base ++ outs /\ have_tx (sec s') = true /\ have_rx (sec s') = true /\
      (exists k1 k2, keys = [(TLS_TX, k1); (TLS_RX, k2)] /\ traffic (tx (sec s')) 0 k1 /\ traffic (rx (sec s')) (Z.of_nat (length early)) k2) /\
      (left = [] /\ clean PLAIN_MAX (rd (inp s')) (rw (inp s')) /\ live_bytes (rd (inp s')) (rw (inp s')) = plain /\ now (rw (inp s')) = [] /\ later (rw (inp s')) = [] \/ closed_by_peer (tls s'))).
Proof.
  intros Hcl Hb Hc Hf Htx Hrx. unfold ioxd__handshake_prologue. destruct (made a); cbn [negb]; [|eexists _, _, _; split; [reflexivity|]; discriminate].
  rewrite input_size_stream. set (s0 := {| inp := inp s; out := out s; net := net s; tls := tls s; sec := no_secrets |}).
  assert (Hgo : going PLAIN_MAX base [] s0) by (split; [split; done|done..]).
  destruct (handshake_loop_spec PLAIN_MAX base (length (stream (inp s))) [] s0 Hgo (le_n _)) as (r & s1 & Eh & H1). rewrite Eh. cbn [mbind option_bind].
  assert (Hlaid : laid (out s) (out s1)) by (apply (handshake_loop_laid _ s0 r s1 ltac:(destruct Hc as (? & ? & _); by split_and!) Eh)).
  destruct r as [e|]; [eexists _, _, _; split; [reflexivity|]; discriminate|]. destruct (H1 eq_refl) as (ins & outs & Hh & Hw & Hs & Hgo1 & Hwire).
  destruct (have_tx (sec s1)) eqn:Etx; cbn [andb negb]; [|eexists _, _, _; split; [reflexivity|]; discriminate].
  destruct (have_rx (sec s1)) eqn:Erx; cbn [negb]; [|eexists _, _, _; split; [reflexivity|]; discriminate].
  destruct (open a); cbn [negb]; [|eexists _, _, _; split; [reflexivity|]; discriminate].
  destruct (pause_ok PLAIN_MAX (arrived a) (inp s1) (go_input _ _ _ _ Hgo1)) as [Hci Hps]. set (x := pause (arrived a) (inp s1)) in *. rewrite input_size_stream.
  assert (Hbx : all_bytes (stream x)) by (rewrite Hps; apply (go_bytes _ _ _ _ Hgo1)).
  pose proof (drain_records_spec PLAIN_MAX (length (stream x)) x (tls s1) [] 0 Hci Hbx ltac:(cbn; lia) (le_n _)) as Hd.
  destruct (drain_loop (length (stream x)) x (tls s1) [] 0) as [[v x1] t1]. destruct Hd as (v' & -> & Hv). cbn [mbind option_bind].
  destruct v' as [[records plain]|e]; [|eexists _, _, _; split; [reflexivity|]; discriminate].
  destruct (Hv records plain eq_refl) as (early & d & Ho & -> & -> & Hpl & Hea & Hst & Hci1 & Hend). cbn [app] in *. clear Hv.
  match goal with |- context [hand_over a ?s2 x1 _ _] => destruct (hand_over_says a s2 x1 (0 + length early) d Htx Hrx (ci_clean _ _ _ Hci1) Hpl) as (r & x2 & keys & -> & Hsk & Hr) end.
  cbn [mbind option_bind]. eexists _, _, _. split; [reflexivity|]. intros ->. destruct (Hr eq_refl) as [Hk Hlive]. cbn in Hk, Hwire.
  exists ins, outs, (tls s1), early, d. cbn [inp sec tls net out]. pose proof (go_open _ _ _ _ Hgo1) as Hopen. pose proof (ci_later _ _ _ Hci1 eq_refl) as Hlater. assert (Hin : concat ins ++ concat early ++ stream x1 = stream (inp s)) by (by rewrite Hst, Hps).
  destruct Hend as [[He1 He2]|Hcb].
  - exists []. destruct (Hlive He1) as (L1 & L2 & L3 & L4). split_and!; try done; [|left; split_and!; [done..|congruence|congruence]].
    rewrite <- Hin. unfold stream. rewrite He1, (coming_none _ He2 (ci_later _ _ _ Hci1 eq_refl)), Hsk. done.
  - exists (live_bytes (rd x1) (rw x1) ++ coming (rw x1)). split_and!; try done; [|by right]. rewrite <- Hin, Hsk. unfold stream. by rewrite <- !app_assoc.
Qed.

End Prologue_laws.

(** ** Inputs

    A connection in the clear: the first record fed ends the handshake and logs both secrets, a record after it opens
    to its body, and a body of one zero closes the peer's side. *)
Record toy := { fed : list bytes; pend : bytes; outbox : bytes; closed : bool }.

Definition toy_secret : bytes := map Z.of_nat (List.seq 100 32).
Definition toy_lines : list bytes :=
  [lit "SERVER_HANDSHAKE_TRAFFIC_SECRET 00 11"; lit "SERVER_TRAFFIC_SECRET_0 0a1b " ++ hex_of toy_secret; lit "CLIENT_TRAFFIC_SECRET_0 0a1b " ++ hex_of (rev toy_secret)].

Definition low (d : bytes) : bytes := map (fun b => b mod 256)%Z d.
Definition toy_read (n : nat) (t : toy) : (bytes + Z) * toy :=
  match pend t with
  | _ :: _ => (inl (low (take n (pend t))), {| fed := fed t; pend := drop n (pend t); outbox := outbox t; closed := closed t |})
  | [] =>
      match fed t with
      | [] => (inr (-1)%Z, t)
      | r :: rs =>
          match drop 5 r with
          | [] => (inr (-1)%Z, {| fed := rs; pend := []; outbox := outbox t; closed := closed t |})
          | [0%Z] => (inr 0%Z, {| fed := rs; pend := []; outbox := outbox t; closed := true |})
          | body => (inl (low (take n body)), {| fed := rs; pend := drop n body; outbox := outbox t; closed := closed t |})
          end
      end
  end.

#[local] Instance toy_tls : Tls toy := {|
  SSL_do_handshake t := match fed t with
                        | [] => ((-1)%Z, [], {| fed := []; pend := []; outbox := outbox t ++ lit "hello"; closed := false |})
                        | _ :: rs => (1%Z, toy_lines, {| fed := rs; pend := []; outbox := outbox t ++ lit "finished"; closed := false |})
                        end;
  SSL_get_error t _ := if closed t then SSL_ERROR_ZERO_RETURN else SSL_ERROR_WANT_READ;
  BIO_write r t := (true, {| fed := fed t ++ [r]; pend := pend t; outbox := outbox t; closed := closed t |});
  BIO_read n t := (take n (outbox t), {| fed := fed t; pend := pend t; outbox := drop n (outbox t); closed := closed t |});
  BIO_pending t := length (outbox t);
  SSL_read := toy_read;
  SSL_pending t := length (pend t)
|}.

#[local] Instance toy_laws : TlsLaws toy.
Proof.
  split.
  - intros n t d t' Hr Hn. cbn in Hr. unfold toy_read in Hr. assert (Ht : forall l : bytes, l <> [] -> 0 < length (low (take n l)) <= n) by (intros [|x l] ?; [done|destruct n; [lia|]; cbn; rewrite length_map, length_take; lia]).
    destruct (pend t) as [|x l]; [|injection Hr as <- <-; by apply Ht]. destruct (fed t) as [|r rs]; [done|]. destruct (drop 5 r) as [|y [|z m]]; [done| |destruct y; injection Hr as <- <-; by apply Ht].
    destruct y; [done| |]; injection Hr as <- <-; by apply Ht.
  - intros n t d t' Hr. cbn in Hr. unfold toy_read in Hr. assert (Hlow : forall l : bytes, all_bytes (low l)) by (intros l; apply Forall_forall; intros b (x & -> & _)%list_elem_of_fmap; unfold is_byte; pose proof (Z.mod_pos_bound x 256); lia).
    repeat case_match; simplify_eq; apply Hlow.
  - intros n t d t' Hr Hn. cbn in Hr. injection Hr as <- <-. cbn. rewrite length_drop, length_take. split; [lia|]. intros E. apply (f_equal length) in E. rewrite length_take in E. cbn in E. lia.
Defined.

#[local] Instance toy_kdf : Kdf := fun secret info n => Some (take n (secret ++ info)).

#[local] Instance toy_net : Sender Writer.socket := Writer.socket_sender Writer.all_goes.
#[local] Instance toy_net_laws : SenderLaws Writer.socket := Writer.socket_sender_laws Writer.all_goes.

Definition a_record (type : Z) (body : bytes) : bytes := [type; 3; 3; 0; Z.of_nat (length body)]%Z ++ body.

(** A client whose first receive is its hello, and its second what is given; the rest is in the socket. *)
Definition client (second rest : bytes) : state (W := Writer.socket) (T := toy) :=
  let hello := a_record 22 (lit "client hello") in
  {| inp := {| rd := ioxd__pipereader_init (replicate PLAIN_MAX 0%Z) PLAIN_MAX;
               rw := {| mem := <[1%Z := hello]> (<[2%Z := second]> ∅); now := [{| Bufring.ptr := 0; Bufring.len := Z.of_nat (length hello); Bufring.buf_id := 1 |}];
                        later := [{| Bufring.ptr := 0; Bufring.len := Z.of_nat (length second); Bufring.buf_id := 2 |}]; end_rc := 0; back := [] |};
               sock := rest; gets := [2; 1000]%Z |};
     out := Writer.ioxd__pipewriter_init (replicate 64 0%Z) 8 48 8; net := {| Writer.sent := []; Writer.awaits := 0 |};
     tls := {| fed := []; pend := []; outbox := []; closed := false |}; sec := no_secrets |}.

Definition all_well : answers := {| made := true; open := true; arrived := 1; ulp := 0; set_tx := 0; set_rx := 0; resumed := true |}.

(** What is left of a run: whether it is usable, the reader's bytes, the socket's, what was sent, and the number the
    kernel receives from. *)
Definition left_by (r : option (option why * state (W := Writer.socket) (T := toy) * list (direction * crypto_info))) : option (bool * bytes * bytes * bytes * list Z) :=
  match r with
  | Some (e, s, keys) => Some (match e with None => true | _ => false end, live_bytes (rd (inp s)) (rw (inp s)), sock (inp s), wire (net s), map (fun k => be (rec_seq k.2)) keys)
  | None => None
  end.

(** Early data in two records, the second cut by the pause; what follows stays in the socket for the kernel. *)
Example early_data :
  left_by (ioxd__handshake_prologue all_well (client (a_record 23 (lit "GET / ") ++ take 7 (a_record 23 (lit "HTTP/1.1"))) (drop 7 (a_record 23 (lit "HTTP/1.1")) ++ lit "more"))) =
  Some (true, lit "GET / HTTP/1.1", lit "more", lit "hellofinished", [0; 2]%Z).
Proof. vm_compute. reflexivity. Qed.

(** After a close_notify what was delivered next stays in the reader as it came, and is read in front of the early
    plaintext, although OpenSSL never saw it: anyone on the path can put it there. *)
Example raw_after_close :
  left_by (ioxd__handshake_prologue all_well (client (a_record 23 (lit "early") ++ a_record 23 [0%Z] ++ lit "GET /forged HTTP/1.1") [])) =
  Some (true, lit "GET /forged HTTP/1.1early", [], lit "hellofinished", [0; 2]%Z).
Proof. vm_compute. reflexivity. Qed.

Definition early_client : state (W := Writer.socket) (T := toy) :=
  client (a_record 23 (lit "GET / ") ++ take 7 (a_record 23 (lit "HTTP/1.1"))) (drop 7 (a_record 23 (lit "HTTP/1.1")) ++ lit "more").

Lemma early_client_clean : clean PLAIN_MAX (rd (inp early_client)) (rw (inp early_client)).
Proof.
  assert (Hw : world_ok (rw (inp early_client))).
  { split; [vm_compute; repeat constructor; set_solver| |reflexivity]. intros i Hi. cbn in Hi. repeat (apply elem_of_cons in Hi as [->|Hi]); [vm_compute; lia..|set_solver]. }
  split; [|done|done|done]. pose proof (reader_ok_init (replicate PLAIN_MAX 0%Z) _ Hw) as H. rewrite length_replicate in H. exact H.
Qed.


Lemma keylog_catches_witness : ioxd__handshake_keylog (Some no_secrets) (lit "SERVER_TRAFFIC_SECRET_0 " ++ lit "0a1b" ++ lit " " ++ hex_of toy_secret ++ []) =
  Some (Some {| tx := toy_secret; rx := rx no_secrets; have_tx := true; have_rx := false |}).
Proof.
  refine (proj1 (keylog_catches no_secrets (lit "0a1b") toy_secret [] eq_refl eq_refl _ _ eq_refl)).
  - assert (Hb : forallb (fun b => negb (b =? ch " ")%Z) (lit "0a1b") = true) by (vm_compute; reflexivity). intros Hin. rewrite forallb_forall in Hb. apply list_elem_of_In, Hb in Hin. by rewrite Z.eqb_refl in Hin.
  - apply Forall_forall. intros b Hin. unfold toy_secret in Hin. apply list_elem_of_In, in_map_iff in Hin as (n & <- & Hin). apply in_seq in Hin. unfold is_byte. lia.
Defined.
