(* ===== verification/Uring.v ===== *)
(** The submission and completion rings (lib/io/uring.c, and the claims of lib/io/proactor.c on top): two arrays
    shared with the kernel, indexed by 32-bit counters that wrap. The ring's set-up and its end are here too, as
    what they do with a descriptor and two mappings. *)
From S2P Require Import Prelude.

#[local] Arguments Nat.ltb : simpl never.
#[local] Arguments Nat.leb : simpl never.

(** ** Counters and slots *)

Definition slot (mask c : Z) : nat := Z.to_nat (Z.land c mask).

Definition EBUSY : Z := 16.
Definition EAGAIN : Z := 11.
Definition EINTR : Z := 4.
Definition EINVAL : Z := 22.
Definition ENOSYS : Z := 38.
Definition ENOSPC : Z := 28.

Section Rings.
(** The contents of a submission and of a completion, and the zeroed submission. *)
Context {A B : Type} (zero : A).

Record uring := {
  sq_head : Z; sq_tail : Z; sq_array : option (list nat); overflow : bool;   (* shared: the kernel's head and flag *)
  sq_mask : Z; sq_entries : Z;
  sqe_tail : Z;                                                              (* claimed, not yet published *)
  sqes : list A;
  cq_head : Z; cq_tail : Z; cq_mask : Z; cqes : list B;
  cq_overflows : Z;
  cq_taken : Z                                                               (* the worker's: taken, head not published *)
}.

Definition set_sq (r : uring) (h t st : Z) (a : option (list nat)) (s : list A) : uring :=
  {| sq_head := h; sq_tail := t; sq_array := a; overflow := overflow r; sq_mask := sq_mask r; sq_entries := sq_entries r; sqe_tail := st; sqes := s;
     cq_head := cq_head r; cq_tail := cq_tail r; cq_mask := cq_mask r; cqes := cqes r; cq_overflows := cq_overflows r; cq_taken := cq_taken r |}.
Definition set_cq (r : uring) (h t : Z) (s : list B) (f : bool) (n k : Z) : uring :=
  {| sq_head := sq_head r; sq_tail := sq_tail r; sq_array := sq_array r; overflow := f; sq_mask := sq_mask r; sq_entries := sq_entries r; sqe_tail := sqe_tail r; sqes := sqes r;
     cq_head := h; cq_tail := t; cq_mask := cq_mask r; cqes := s; cq_overflows := n; cq_taken := k |}.

(** The slot claimed, its contents zeroed; absent when the ring is full. *)
Definition ioxd__uring_get_sqe (r : uring) : option nat * uring :=
  if (sq_entries r <=? wrap32 (sqe_tail r - sq_head r))%Z then (None, r)
  else
    let i := slot (sq_mask r) (sqe_tail r) in
    let a := match sq_array r with Some a => Some (<[i := i]> a) | None => None end in
    (Some i, set_sq r (sq_head r) (sq_tail r) (wrap32 (sqe_tail r + 1)) a (<[i := zero]> (sqes r))).

(** What the caller stores in the slot it claimed. *)
Definition fill (i : nat) (v : A) (r : uring) : uring := set_sq r (sq_head r) (sq_tail r) (sqe_tail r) (sq_array r) (<[i := v]> (sqes r)).

(** *** The kernel's side *)

(** It takes the submission at its head, when the published tail is past it. *)
Definition kernel_take (r : uring) : option (A * uring) :=
  if (sq_head r =? sq_tail r)%Z then None
  else
    let i := slot (sq_mask r) (sq_head r) in
    j ← match sq_array r with Some a => a !! i | None => Some i end;
    e ← sqes r !! j;
    Some (e, set_sq r (wrap32 (sq_head r + 1)) (sq_tail r) (sqe_tail r) (sq_array r) (sqes r)).

Fixpoint kernel_takes (n : nat) (r : uring) : list A * uring :=
  match n with
  | 0 => ([], r)
  | S n => match kernel_take r with Some (e, r) => let '(es, r) := kernel_takes n r in (e :: es, r) | None => ([], r) end
  end.

(** It posts a completion where there is room, and else keeps it and says so. *)
Definition kernel_post (r : uring) (e : B) : bool * uring :=
  if (wrap32 (cq_tail r - cq_head r) <=? cq_mask r)%Z then
    (true, set_cq r (cq_head r) (wrap32 (cq_tail r + 1)) (<[slot (cq_mask r) (cq_tail r) := e]> (cqes r)) (overflow r) (cq_overflows r) (cq_taken r))
  else (false, set_cq r (cq_head r) (cq_tail r) (cqes r) true (cq_overflows r) (cq_taken r)).

(** *** Submitting and reaping *)

(** [flush_and_enter]: the ring with its tail published, and the call it makes, if any: how many submissions, how
    many completions to wait for, and whether completions are asked for. *)
Definition flush_and_enter (r : uring) (wait_nr : Z) (getevents : bool) : option (Z * Z * bool) * uring :=
  let to_submit := wrap32 (sqe_tail r - sq_head r) in
  let r := set_sq r (sq_head r) (if (sq_tail r =? sqe_tail r)%Z then sq_tail r else sqe_tail r) (sqe_tail r) (sq_array r) (sqes r) in
  let '(getevents, r) := if overflow r then (true, set_cq r (cq_head r) (cq_tail r) (cqes r) true (cq_overflows r + 1) (cq_taken r)) else (getevents, r) in
  if (to_submit =? 0)%Z && (wait_nr =? 0)%Z && negb getevents then (None, r) else (Some (to_submit, wait_nr, getevents), r).

(** What the kernel does in an enter: an error, or so many submissions taken. *)
Definition sys_enter (answer : Z) (call : Z * Z * bool) (r : uring) : Z * list A * uring :=
  if (answer <? 0)%Z then (answer, [], r)
  else let '(es, r) := kernel_takes (Z.to_nat (Z.min answer call.1.1)) r in (Z.of_nat (length es), es, r).

Definition enter (answer : Z) (r : uring) (wait_nr : Z) (getevents : bool) : Z * list A * uring :=
  let '(call, r) := flush_and_enter r wait_nr getevents in
  match call with Some call => sys_enter answer call r | None => (0%Z, [], r) end.

Definition ioxd__uring_submit (answer : Z) (r : uring) : Z * list A * uring := enter answer r 0 false.
Definition ioxd__uring_submit_wait (answer : Z) (r : uring) (wait_nr : Z) : Z * list A * uring := enter answer r wait_nr true.

Definition ioxd__uring_cq_ready (r : uring) : Z := wrap32 (cq_tail r - cq_head r).
Definition ioxd__uring_cqe_at (r : uring) (i : Z) : option B := cqes r !! slot (cq_mask r) (cq_head r + i).
Definition ioxd__uring_cq_advance (r : uring) (n : Z) : uring :=
  if (n =? 0)%Z then r else set_cq r (wrap32 (cq_head r + n)) (cq_tail r) (cqes r) (overflow r) (cq_overflows r) (cq_taken r).

(** *** The worker's claims and batches (proactor.c) *)

Definition publish_cq (r : uring) : uring :=
  if (cq_taken r =? 0)%Z then r
  else let r := ioxd__uring_cq_advance r (cq_taken r) in set_cq r (cq_head r) (cq_tail r) (cqes r) (overflow r) (cq_overflows r) 0.

(** [ioxd__proactor_sqe]: sixteen rounds of submitting what is staged; [answers] is what each enter answers, 0 past
    its end. The claim, absent at the abort, and what the kernel took on the way. *)
Fixpoint sqe_loop (rounds : nat) (answers : list Z) (r : uring) : option nat * list A * list Z * uring :=
  match ioxd__uring_get_sqe r with
  | (Some i, r) => (Some i, [], answers, r)
  | (None, _) =>
      match rounds with
      | 0 => (None, [], answers, r)
      | S rounds =>
          let r := publish_cq r in
          let '(rc, es, r) := ioxd__uring_submit (hd 0%Z answers) r in
          let answers := tl answers in
          let '(es', answers, r) :=
            if ((rc =? - EBUSY) || (rc =? - EAGAIN) || (rc =? - EINTR))%Z then
              let '(_, es', r) := ioxd__uring_submit_wait (hd 0%Z answers) r 0 in (es', tl answers, r)
            else ([], answers, r) in
          let '(i, more, answers, r) := sqe_loop rounds answers r in (i, es ++ es' ++ more, answers, r)
      end
  end.
Definition ioxd__proactor_sqe (answers : list Z) (r : uring) : option nat * list A * list Z * uring := sqe_loop 16 answers r.

(** One turn of the batch's [for]: the entry is copied out and counted before its handler runs. *)
Definition take_cqe (r : uring) : option (B * uring) :=
  e ← ioxd__uring_cqe_at r (cq_taken r); Some (e, set_cq r (cq_head r) (cq_tail r) (cqes r) (overflow r) (cq_overflows r) (wrap32 (cq_taken r + 1))).
End Rings.
Arguments uring : clear implicits.

(** ** A ring stands for a list *)

Lemma slot_mod k c : slot (2 ^ Z.of_nat k - 1) c = Z.to_nat (c mod 2 ^ Z.of_nat k).
Proof. unfold slot. rewrite Z.sub_1_r, <- Z.ones_equiv, Z.land_ones by lia. done. Qed.

Lemma slot_lt k c : slot (2 ^ Z.of_nat k - 1) c < 2 ^ k.
Proof.
  rewrite slot_mod. pose proof (Z.mod_pos_bound c (2 ^ Z.of_nat k) ltac:(lia)). apply Nat2Z.inj_lt. rewrite Z2Nat.id by lia.
  rewrite Nat2Z.inj_pow. change (Z.of_nat 2) with 2%Z. lia.
Qed.

Lemma slot_wrap32 k c : k <= 32 -> slot (2 ^ Z.of_nat k - 1) (wrap32 c) = slot (2 ^ Z.of_nat k - 1) c.
Proof.
  intros Hk. rewrite !slot_mod. f_equal. unfold wrap32. apply Z.mod_mod_divide. exists (2 ^ (32 - Z.of_nat k))%Z. rewrite <- Z.pow_add_r by lia. f_equal. lia.
Qed.

Lemma slot_ne k c i j : (i < j)%Z -> (j - i < 2 ^ Z.of_nat k)%Z -> slot (2 ^ Z.of_nat k - 1) (c + i) <> slot (2 ^ Z.of_nat k - 1) (c + j).
Proof.
  intros Hij Hlt H. rewrite !slot_mod in H. set (m := (2 ^ Z.of_nat k)%Z) in *. assert (0 < m)%Z by (unfold m; lia).
  pose proof (Z.mod_pos_bound (c + i) m ltac:(lia)). pose proof (Z.mod_pos_bound (c + j) m ltac:(lia)). assert ((c + i) mod m = (c + j) mod m)%Z as E by lia.
  pose proof (Z.div_mod (c + i) m ltac:(lia)). pose proof (Z.div_mod (c + j) m ltac:(lia)). rewrite E in *. assert (j - i = m * ((c + j) / m - (c + i) / m))%Z as Hd by lia.
  assert (0 < (c + j) / m - (c + i) / m)%Z by nia. nia.
Qed.

Lemma wrap32_add a b : wrap32 (wrap32 a + b) = wrap32 (a + b).
Proof. unfold wrap32. by rewrite Zplus_mod_idemp_l. Qed.

Lemma wrap32_diff h n : (0 <= n < 2 ^ 32)%Z -> wrap32 (wrap32 (h + n) - h) = n.
Proof. intros Hn. unfold wrap32. rewrite Zminus_mod_idemp_l. replace (h + n - h)%Z with n by lia. by apply Z.mod_small. Qed.

Record ring_rep {X} (k : nat) (cells : list X) (head tail : Z) (l : list X) : Prop := {
  rr_k : k <= 31;
  rr_cells : length cells = 2 ^ k;
  rr_head : (0 <= head < 2 ^ 32)%Z;
  rr_tail : tail = wrap32 (head + Z.of_nat (length l));
  rr_len : length l <= 2 ^ k;
  rr_at : forall i x, l !! i = Some x -> cells !! slot (2 ^ Z.of_nat k - 1) (head + Z.of_nat i) = Some x
}.

Lemma pow2_nat k : Z.of_nat (2 ^ k) = (2 ^ Z.of_nat k)%Z.
Proof. rewrite Nat2Z.inj_pow. done. Qed.

Lemma ring_count {X} k (cells : list X) h t l : ring_rep k cells h t l -> wrap32 (t - h) = Z.of_nat (length l).
Proof.
  intros [Hk _ Hh Ht Hl _]. rewrite Ht. apply wrap32_diff. pose proof (pow2_nat k). assert (2 ^ Z.of_nat k <= 2 ^ 31)%Z by (apply Z.pow_le_mono_r; lia). lia.
Qed.

Lemma ring_push {X} k (cells : list X) h t l x : ring_rep k cells h t l -> length l < 2 ^ k ->
  ring_rep k (<[slot (2 ^ Z.of_nat k - 1) t := x]> cells) h (wrap32 (t + 1)) (l ++ [x]).
Proof.
  intros [Hk Hc Hh Ht Hl Ha] Hlt. pose proof (pow2_nat k). split; [done|by rewrite length_insert|done| | |].
  - rewrite Ht, wrap32_add, length_app. f_equal. cbn. lia.
  - rewrite length_app. cbn. lia.
  - intros i y Hi. rewrite Ht, slot_wrap32 by lia. destruct (decide (i < length l)) as [Hil|Hil].
    + rewrite lookup_app_l in Hi by done. rewrite list_lookup_insert_ne; [by apply Ha|]. intros He. symmetry in He. revert He. apply slot_ne; lia.
    + rewrite lookup_app_r in Hi by lia. apply list_lookup_singleton_Some in Hi as [Hi ->]. replace i with (length l) by lia. apply list_lookup_insert_eq. rewrite Hc. apply slot_lt.
Qed.

(** Cells at and past the tail may be written. *)
Lemma ring_scratch {X} k (cells : list X) h t l x : ring_rep k cells h t l -> length l < 2 ^ k -> ring_rep k (<[slot (2 ^ Z.of_nat k - 1) t := x]> cells) h t l.
Proof.
  intros [Hk Hc Hh Ht Hl Ha] Hlt. pose proof (pow2_nat k). split; try done; [by rewrite length_insert|]. intros i y Hi. pose proof (lookup_lt_Some _ _ _ Hi).
  rewrite Ht, slot_wrap32 by lia. rewrite list_lookup_insert_ne; [by apply Ha|]. intros He. symmetry in He. revert He. apply slot_ne; lia.
Qed.

Lemma ring_drop {X} k (cells : list X) h t l n : ring_rep k cells h t l -> n <= length l -> ring_rep k cells (wrap32 (h + Z.of_nat n)) t (drop n l).
Proof.
  intros [Hk Hc Hh Ht Hl Ha] Hn. split; try done.
  - unfold wrap32. apply Z.mod_pos_bound. lia.
  - rewrite Ht, wrap32_add, length_drop. f_equal. lia.
  - rewrite length_drop. lia.
  - intros i y Hi. rewrite lookup_drop in Hi. rewrite <- (slot_wrap32 _ (wrap32 _ + _)), wrap32_add, slot_wrap32 by lia. rewrite <- (Ha _ _ Hi). do 2 f_equal. lia.
Qed.

(** ** The rings, over any history *)

Section Ok.
Context {A B : Type} (zero : A).
Notation ring := (uring A B).

(** [pend] is claimed and not taken by the kernel, [p] of it published; [m] is posted and not given back, [t] of it
    taken by the worker. *)
Record rings (k kc : nat) (r : ring) (pend : list A) (p : nat) (m : list B) (t : nat) : Prop := {
  ri_sq : ring_rep k (sqes r) (sq_head r) (sqe_tail r) pend;
  ri_sizes : sq_mask r = (2 ^ Z.of_nat k - 1)%Z /\ sq_entries r = (2 ^ Z.of_nat k)%Z /\ cq_mask r = (2 ^ Z.of_nat kc - 1)%Z;
  ri_array a : sq_array r = Some a -> length a = 2 ^ k /\ forall i, i < length pend -> a !! slot (sq_mask r) (sq_head r + Z.of_nat i) = Some (slot (sq_mask r) (sq_head r + Z.of_nat i));
  ri_pub : sq_tail r = wrap32 (sq_head r + Z.of_nat p) /\ p <= length pend;
  ri_cq : ring_rep kc (cqes r) (cq_head r) (cq_tail r) m;
  ri_taken : cq_taken r = Z.of_nat t /\ t <= length m
}.

Lemma get_sqe_ok k kc r pend p m t : rings k kc r pend p m t ->
  if decide (length pend = 2 ^ k) then ioxd__uring_get_sqe zero r = (None, r)
  else exists i r', ioxd__uring_get_sqe zero r = (Some i, r') /\ forall v, rings k kc (fill i v r') (pend ++ [v]) p m t.
Proof.
  intros [Hsq (Hm & He & Hcm) Ha (Hp & Hpl) Hcq Ht]. unfold ioxd__uring_get_sqe. rewrite (ring_count _ _ _ _ _ Hsq), He. pose proof (pow2_nat k). pose proof (rr_len _ _ _ _ _ Hsq).
  destruct (decide _) as [Hf|Hf]; [by rewrite (proj2 (Z.leb_le _ _)) by lia|]. rewrite (proj2 (Z.leb_gt _ _)) by lia. eexists _, _. split; [reflexivity|]. intros v.
  split; cbn; try done.
  - rewrite Hm, list_insert_insert_eq. apply ring_push; [done|lia].
  - intros a' E. destruct (sq_array r) as [a|] eqn:Ea; [|done]. injection E as <-. destruct (Ha a eq_refl) as [Hla Hai]. split; [by rewrite length_insert|]. intros i Hi. rewrite length_app in Hi. cbn in Hi.
    rewrite Hm in *. rewrite (rr_tail _ _ _ _ _ Hsq), slot_wrap32 by (destruct Hsq; lia). destruct (decide (i < length pend)) as [Hil|Hil].
    + rewrite list_lookup_insert_ne; [by apply Hai|]. intros E. symmetry in E. revert E. apply slot_ne; lia.
    + replace i with (length pend) by lia. apply list_lookup_insert_eq. rewrite Hla. apply slot_lt.
  - split; [done|]. rewrite length_app. lia.
Qed.

Lemma kernel_take_ok k kc r pend p m t : rings k kc r pend p m t ->
  match p with
  | 0 => kernel_take r = None
  | S p => exists e pend' r', pend = e :: pend' /\ kernel_take r = Some (e, r') /\ rings k kc r' pend' p m t
  end.
Proof.
  intros [Hsq (Hm & He & Hcm) Ha (Hp & Hpl) Hcq Ht]. pose proof (pow2_nat k). pose proof (rr_len _ _ _ _ _ Hsq) as Hl. pose proof (rr_k _ _ _ _ _ Hsq) as Hk. pose proof (rr_head _ _ _ _ _ Hsq) as Hh.
  assert (2 ^ Z.of_nat k <= 2 ^ 31)%Z by (apply Z.pow_le_mono_r; lia). unfold kernel_take. rewrite Hp. destruct p as [|p].
  - rewrite Z.add_0_r. unfold wrap32. rewrite Z.mod_small by lia. by rewrite Z.eqb_refl.
  - rewrite (proj2 (Z.eqb_neq _ _)).
    2: { intros E. pose proof (wrap32_diff (sq_head r) (Z.of_nat (S p)) ltac:(lia)) as Hd. rewrite <- E, Z.sub_diag in Hd. vm_compute in Hd. lia. }
    destruct pend as [|e pend]; [cbn in Hpl; lia|]. pose proof (rr_at _ _ _ _ _ Hsq 0 e eq_refl) as Hfst. rewrite Z.add_0_r in Hfst. rewrite Hm in *.
    assert (Hj : match sq_array r with Some a => a !! slot (2 ^ Z.of_nat k - 1) (sq_head r) | None => Some (slot (2 ^ Z.of_nat k - 1) (sq_head r)) end = Some (slot (2 ^ Z.of_nat k - 1) (sq_head r))).
    { destruct (sq_array r) as [a|] eqn:Ea; [|done]. destruct (Ha a eq_refl) as [_ Hai]. specialize (Hai 0 ltac:(cbn; lia)). by rewrite Z.add_0_r in Hai. }
    rewrite Hj. cbn [mbind option_bind]. rewrite Hfst. cbn [mbind option_bind]. eexists e, pend, _. split; [done|]. split; [reflexivity|]. split; cbn; try done.
    + apply (ring_drop _ _ _ _ _ 1) in Hsq; [|cbn; lia]. exact Hsq.
    + intros a E. destruct (Ha a E) as [Hla Hai]. split; [done|]. intros i Hi. rewrite Hm, <- !(slot_wrap32 _ (wrap32 _ + _)), wrap32_add, slot_wrap32 by lia. replace (sq_head r + 1 + Z.of_nat i)%Z with (sq_head r + Z.of_nat (S i))%Z by lia. apply Hai. cbn. lia.
    + split; [|cbn in Hpl; lia]. rewrite wrap32_add. f_equal. lia.
Qed.

Lemma kernel_takes_ok k kc n : forall r pend p m t, rings k kc r pend p m t ->
  exists es r', kernel_takes n r = (es, r') /\ es = take (n `min` p) pend /\ rings k kc r' (drop (n `min` p) pend) (p - n) m t.
Proof.
  induction n as [|n IH]; intros r pend p m t Hr; cbn [kernel_takes]; [exists [], r; split_and!; [done|by rewrite take_0|by rewrite drop_0, Nat.sub_0_r]|].
  pose proof (kernel_take_ok _ _ _ _ _ _ _ Hr) as Hk. destruct p as [|p].
  - rewrite Hk. exists [], r. rewrite Nat.min_0_r. by split_and!.
  - destruct Hk as (e & pend' & r1 & -> & -> & Hr1). destruct (IH _ _ _ _ _ Hr1) as (es & r' & -> & -> & Hr'). exists (e :: take (n `min` p) pend'), r'. by split_and!.
Qed.

Lemma publish_cq_ok k kc r pend p m t : rings k kc r pend p m t -> rings k kc (publish_cq r) pend p (drop t m) 0.
Proof.
  intros [Hsq Hs Ha Hp Hcq (Ht & Htl)]. unfold publish_cq, ioxd__uring_cq_advance. rewrite Ht. destruct (Z.eqb_spec (Z.of_nat t) 0) as [Hz|Hz].
  - replace t with 0 by lia. rewrite drop_0. split; try done. split; [lia|lia].
  - split; cbn; try done; [by apply ring_drop|]. split; [done|lia].
Qed.

Lemma enter_ok k kc answer r wait_nr g pend p m t : rings k kc r pend p m t ->
  exists rc n r' p', enter answer r wait_nr g = (rc, take n pend, r') /\ rings k kc r' (drop n pend) p' m t /\ n <= length pend /\
    ((0 < answer)%Z -> (0 < length pend) -> 0 < n).
Proof.
  intros Hr. unfold enter, flush_and_enter. set (r1 := set_sq r _ _ _ _ _). assert (Hr1 : rings k kc r1 pend (length pend) m t).
  { destruct Hr as [Hsq Hs Ha (Hp & Hpl) Hcq Ht]. split; try done. cbn. split; [|lia]. destruct (Z.eqb_spec (sq_tail r) (sqe_tail r)) as [E|E]; [rewrite E|]; apply (rr_tail _ _ _ _ _ Hsq). }
  assert (Hcount : wrap32 (sqe_tail r - sq_head r) = Z.of_nat (length pend)) by (destruct Hr; by eapply ring_count).
  destruct (if overflow r1 then _ else _) as [g' r2] eqn:Eg. assert (Hr2 : rings k kc r2 pend (length pend) m t).
  { destruct (overflow r1); injection Eg as <- <-; [|done]. destruct Hr1. by split. }
  rewrite Hcount. destruct (_ && _) eqn:Eno.
  - exists 0%Z, 0, r2, (length pend). rewrite take_0, drop_0. split_and!; try done; [lia|]. intros _ Hpos. apply andb_true_iff in Eno as [Eno _]. apply andb_true_iff in Eno as [Eno _]. apply Z.eqb_eq in Eno. lia.
  - unfold sys_enter. destruct (Z.ltb_spec answer 0).
    + exists answer, 0, r2, (length pend). rewrite take_0, drop_0. split_and!; try done; lia.
    + cbn [fst]. set (n := Z.to_nat (Z.min answer (Z.of_nat (length pend)))). destruct (kernel_takes_ok k kc n _ _ _ _ _ Hr2) as (es & r3 & -> & -> & Hr3).
      exists (Z.of_nat (length (take (n `min` length pend) pend))), (n `min` length pend), r3, (length pend - n). split_and!; [done|done|lia|]. intros. unfold n. lia.
Qed.

(** A claim: the slot it gives is the ring's next, what the kernel took meanwhile was next in order, and it gives up
    only when the ring was full and sixteen enters took nothing. *)
Lemma sqe_loop_ok k kc rounds : forall answers r pend p m t, rings k kc r pend p m t ->
  exists i n d ans r', sqe_loop zero rounds answers r = (i, take n pend, ans, r') /\ n <= length pend /\ d <= t /\
    match i with
    | Some i => forall v, exists p', rings k kc (fill i v r') (drop n pend ++ [v]) p' (drop d m) (t - d)
    | None => n = 0 /\ length pend = 2 ^ k /\ (0 < rounds -> (hd 0%Z answers <= 0)%Z) /\ exists p', rings k kc r' pend p' (drop d m) (t - d)
    end.
Proof.
  induction rounds as [|rounds IH]; intros answers r pend p m t Hr; cbn [sqe_loop]; pose proof (get_sqe_ok _ _ _ _ _ _ _ Hr) as Hg; destruct (decide (length pend = 2 ^ k)) as [Hf|Hf].
  1, 3: rewrite Hg. 3, 4: destruct Hg as (i & r' & -> & Hg); exists (Some i), 0, 0, answers, r'; rewrite take_0, !drop_0, Nat.sub_0_r; split_and!; [done|lia|lia|]; intros v; exists p; apply Hg.
  { exists None, 0, 0, answers, r. rewrite take_0, drop_0, Nat.sub_0_r. split_and!; [done|lia|lia|done|done|lia|by exists p]. }
  pose proof (publish_cq_ok _ _ _ _ _ _ _ Hr) as Hp. destruct (enter_ok k kc (hd 0%Z answers) _ 0 false _ _ _ _ Hp) as (rc & n1 & r1 & p1 & E1 & Hr1 & Hn1 & Hpos1).
  unfold ioxd__uring_submit. rewrite E1.
  assert (Hsecond : exists n2 ans2 r2 p2, (if ((rc =? - EBUSY) || (rc =? - EAGAIN) || (rc =? - EINTR))%Z then
      let '(_, es', r) := ioxd__uring_submit_wait (hd 0%Z (tl answers)) r1 0 in (es', tl (tl answers), r) else ([], tl answers, r1)) = (take n2 (drop n1 pend), ans2, r2) /\
      rings k kc r2 (drop n2 (drop n1 pend)) p2 (drop t m) 0 /\ n2 <= length (drop n1 pend)).
  { destruct (_ || _); [|exists 0, (tl answers), r1, p1; rewrite take_0, drop_0; split_and!; [done|done|lia]]. unfold ioxd__uring_submit_wait.
    destruct (enter_ok k kc (hd 0%Z (tl answers)) r1 0 true _ _ _ _ Hr1) as (rc2 & n2 & r2 & p2 & -> & Hr2 & Hn2 & _). by exists n2, (tl (tl answers)), r2, p2. }
  destruct Hsecond as (n2 & ans2 & r2 & p2 & -> & Hr2 & Hn2). destruct (IH ans2 r2 _ _ _ _ Hr2) as (i & n & d & ans & r' & -> & Hn & Hd & Hi).
  rewrite !length_drop in *. assert (d = 0) as -> by lia. exists i, (n1 + (n2 + n)), t, ans, r'.
  assert (Htake : take n1 pend ++ take n2 (drop n1 pend) ++ take n (drop n2 (drop n1 pend)) = take (n1 + (n2 + n)) pend) by (by rewrite !take_take_drop).
  rewrite Htake. split_and!; [done|lia|lia|]. rewrite Nat.sub_diag. rewrite drop_0 in Hi. rewrite drop_drop in Hi. destruct i as [i|].
  - intros v. destruct (Hi v) as [p' Hp']. exists p'. rewrite drop_drop in Hp'. by rewrite Nat.add_assoc in *.
  - destruct Hi as (-> & Hfull & _ & p' & Hp'). assert (n1 = 0 /\ n2 = 0) as [-> ->] by lia. cbn [Nat.add drop] in *. split_and!; [done|lia| |by exists p'].
    intros _. destruct (Z.le_gt_cases (hd 0%Z answers) 0) as [|Hgt]; [done|]. pose proof (Nat.pow_nonzero 2 k ltac:(lia)). specialize (Hpos1 ltac:(lia) ltac:(lia)). lia.
Qed.

(** A worker and the kernel: what the worker staged and the kernel took, what the kernel posted and the worker took. *)
Record world := { ring_ : ring; staged : list A; seen : list A; posted : list B; got : list B }.

Inductive event :=
| EStage (v : A) (answers : list Z)               (* [ioxd__proactor_sqe], and the fields its caller stores *)
| EEnter (answer wait_nr : Z) (getevents : bool)  (* [ioxd__uring_submit], [ioxd__uring_submit_wait] *)
| EPost (e : B)                                   (* the kernel *)
| ETake                                           (* the next of the batch *)
| EPublish.

(** [None] is the abort of a claim that found no room. *)
Definition do_event (w : world) (e : event) : option world :=
  let r := ring_ w in
  match e with
  | EStage v answers =>
      let '(i, es, _, r) := ioxd__proactor_sqe zero answers r in
      i ← i; Some {| ring_ := fill i v r; staged := staged w ++ [v]; seen := seen w ++ es; posted := posted w; got := got w |}
  | EEnter answer wait_nr g =>
      let '(_, es, r) := enter answer r wait_nr g in Some {| ring_ := r; staged := staged w; seen := seen w ++ es; posted := posted w; got := got w |}
  | EPost e =>
      let '(ok, r) := kernel_post r e in Some {| ring_ := r; staged := staged w; seen := seen w; posted := if ok then posted w ++ [e] else posted w; got := got w |}
  | ETake =>
      if (cq_taken r <? ioxd__uring_cq_ready r)%Z then
        '(e, r) ← take_cqe r; Some {| ring_ := r; staged := staged w; seen := seen w; posted := posted w; got := got w ++ [e] |}
      else Some w
  | EPublish => Some {| ring_ := publish_cq r; staged := staged w; seen := seen w; posted := posted w; got := got w |}
  end.

Fixpoint run (w : world) (es : list event) : option world :=
  match es with [] => Some w | e :: es => w ← do_event w e; run w es end.

Record world_ok (k kc : nat) (w : world) (pend : list A) (p : nat) (gone m : list B) (t : nat) : Prop := {
  wo_rings : rings k kc (ring_ w) pend p m t;
  wo_staged : staged w = seen w ++ pend;
  wo_posted : posted w = gone ++ m;
  wo_got : got w = gone ++ take t m
}.

Definition some_ok (k kc : nat) (w : world) : Prop := exists pend p gone m t, world_ok k kc w pend p gone m t.

Lemma rings_post k kc r pend p m t e : rings k kc r pend p m t ->
  if decide (length m = 2 ^ kc) then (kernel_post r e).1 = false /\ rings k kc (kernel_post r e).2 pend p m t
  else (kernel_post r e).1 = true /\ rings k kc (kernel_post r e).2 pend p (m ++ [e]) t.
Proof.
  intros [Hsq (Hm & He & Hcm) Ha Hp Hcq (Ht & Htl)]. unfold kernel_post. rewrite (ring_count _ _ _ _ _ Hcq), Hcm. pose proof (pow2_nat kc). pose proof (rr_len _ _ _ _ _ Hcq).
  destruct (decide _) as [Hf|Hf].
  - rewrite (proj2 (Z.leb_gt _ _)) by lia. cbn. split; [done|]. by split.
  - rewrite (proj2 (Z.leb_le _ _)) by lia. cbn. split; [done|]. split; try done; cbn; [apply ring_push; [done|lia]|]. split; [done|]. rewrite length_app. lia.
Qed.

Lemma rings_take k kc r pend p m t : rings k kc r pend p m t ->
  (cq_taken r <? ioxd__uring_cq_ready r)%Z = bool_decide (t < length m) /\
  forall e, m !! t = Some e -> exists r', take_cqe r = Some (e, r') /\ rings k kc r' pend p m (S t).
Proof.
  intros [Hsq (Hm & He & Hcm) Ha Hp Hcq (Ht & Htl)]. unfold ioxd__uring_cq_ready. rewrite (ring_count _ _ _ _ _ Hcq), Ht. split.
  - destruct (Z.ltb_spec (Z.of_nat t) (Z.of_nat (length m))); symmetry; [apply bool_decide_eq_true|apply bool_decide_eq_false]; lia.
  - intros e Hi. pose proof (lookup_lt_Some _ _ _ Hi). unfold take_cqe, ioxd__uring_cqe_at. rewrite Ht, Hcm, (rr_at _ _ _ _ _ Hcq _ _ Hi). cbn [mbind option_bind].
    eexists. split; [reflexivity|]. split; try done. cbn. split; [|lia]. pose proof (rr_len _ _ _ _ _ Hcq). pose proof (pow2_nat kc). pose proof (rr_k _ _ _ _ _ Hcq).
    assert (2 ^ Z.of_nat kc <= 2 ^ 31)%Z by (apply Z.pow_le_mono_r; lia). unfold wrap32. rewrite Z.mod_small; lia.
Qed.

(** Every event keeps the rings in order; only a claim may give up, and only when the kernel takes nothing. *)
Lemma event_ok k kc w e : some_ok k kc w ->
  match do_event w e with Some w' => some_ok k kc w' | None => exists v answers, e = EStage v answers /\ (hd 0%Z answers <= 0)%Z end.
Proof.
  intros (pend & p & gone & m & t & [Hr Hst Hpo Hgo]). destruct e as [v answers|answer wait_nr g|e| |]; cbn [do_event].
  - unfold ioxd__proactor_sqe. destruct (sqe_loop_ok k kc 16 answers _ _ _ _ _ Hr) as (i & n & d & ans & r' & -> & Hn & Hd & Hi). destruct i as [i|]; cbn [mbind option_bind].
    + destruct (Hi v) as [p' Hp']. eexists _, p', (gone ++ take d m), (drop d m), (t - d). split; [exact Hp'|..]; cbn.
      * by rewrite Hst, <- !app_assoc, (app_assoc (take n pend)), take_drop.
      * by rewrite Hpo, <- app_assoc, take_drop.
      * rewrite Hgo, <- app_assoc. f_equal. rewrite take_take_drop. f_equal. lia.
    + exists v, answers. split; [done|]. apply Hi. lia.
  - destruct (enter_ok k kc answer _ wait_nr g _ _ _ _ Hr) as (rc & n & r' & p' & -> & Hr' & Hn & _). exists (drop n pend), p', gone, m, t. split; [exact Hr'|..]; cbn; [|done..].
    by rewrite Hst, <- app_assoc, take_drop.
  - pose proof (rings_post _ _ _ _ _ _ _ e Hr) as Hk. destruct (kernel_post (ring_ w) e) as [ok r']. cbn in Hk. destruct (decide _) as [Hf|Hf]; destruct Hk as [-> Hr'].
    + by exists pend, p, gone, m, t.
    + exists pend, p, gone, (m ++ [e]), t. split; [exact Hr'|done|cbn; by rewrite Hpo, app_assoc|]. cbn. rewrite take_app_le by (destruct Hr as [_ _ _ _ _ [_ ?]]; lia). done.
  - destruct (rings_take _ _ _ _ _ _ _ Hr) as [-> Htk]. case_bool_decide as Ht; [|by exists pend, p, gone, m, t]. destruct (lookup_lt_is_Some_2 m t Ht) as [e He].
    destruct (Htk e He) as (r' & -> & Hr'). cbn [mbind option_bind]. exists pend, p, gone, m, (S t). split; [exact Hr'|done|done|]. cbn. by rewrite Hgo, (take_S_r _ _ _ He), app_assoc.
  - pose proof (publish_cq_ok _ _ _ _ _ _ _ Hr) as Hp. exists pend, p, (gone ++ take t m), (drop t m), 0. split; [exact Hp|done|..]; cbn; [by rewrite Hpo, <- app_assoc, take_drop|by rewrite Hgo, app_nil_r].
Qed.
End Ok.

(** ** Making a ring and giving it back *)

(** What is open and mapped; what the kernel says of a ring it made; and its answers to the calls of a set-up: a
    descriptor or a negative error twice, an address or a negative error twice. *)
Record os := { fds : list Z; maps : list (Z * Z) }.
Record params := { p_sq_entries : Z; p_cq_entries : Z; single_mmap : bool; off_array : Z; off_dropped : Z; off_cqes : Z }.
Record setup_answers := { first : Z; second : Z; params_of : params; ring_map : Z; sqe_map : Z }.

Record handle := { fd : Z; enter_fd : Z; enter_registered : bool; fixed_files : bool; has_sq_array : bool; ring_mem : option (Z * Z); sqe_mem : option (Z * Z) }.

Definition ring_clear : handle := {| fd := -1; enter_fd := -1; enter_registered := false; fixed_files := false; has_sq_array := false; ring_mem := None; sqe_mem := None |}.

Definition opened (w : os) (f : Z) : os := {| fds := f :: fds w; maps := maps w |}.
Definition close (w : os) (f : Z) : os := {| fds := List.remove Z.eq_dec f (fds w); maps := maps w |}.
Definition mmap (w : os) (m : Z * Z) : os := {| fds := fds w; maps := m :: maps w |}.
Definition munmap (w : os) (m : Z * Z) : os := {| fds := fds w; maps := List.filter (fun x => negb (x.1 =? m.1)%Z) (maps w) |}.

Definition ring_failed (err : Z) (w : os) : Z * handle * os := (err, ring_clear, w).

Definition ring_bytes (p : params) (sq_array : bool) : Z :=
  let sq_bytes := if sq_array then (off_array p + p_sq_entries p * 4)%Z else (off_dropped p + 4)%Z in
  let cq_bytes := (off_cqes p + p_cq_entries p * 16)%Z in
  if (cq_bytes <? sq_bytes)%Z then sq_bytes else cq_bytes.

Definition ioxd__uring_init (a : setup_answers) (w : os) : Z * handle * os :=
  let w := if (first a <? 0)%Z then w else opened w (first a) in
  let '(fd_, sq_array, bad, w) :=
    if (first a =? - EINVAL)%Z then (second a, true, (second a <? 0)%Z, if (second a <? 0)%Z then w else opened w (second a)) else (first a, false, false, w) in
  if bad then ring_failed (- EINVAL) w
  else if (fd_ <? 0)%Z then ring_failed fd_ w
  else if negb (single_mmap (params_of a)) then ring_failed (- ENOSYS) (close w fd_)
  else
    let bytes := ring_bytes (params_of a) sq_array in
    if (ring_map a <? 0)%Z then ring_failed (ring_map a) (close w fd_)
    else
      let w := mmap w (ring_map a, bytes) in
      let sqe_bytes := (p_sq_entries (params_of a) * 64)%Z in
      if (sqe_map a <? 0)%Z then ring_failed (sqe_map a) (close (munmap w (ring_map a, bytes)) fd_)
      else
        (0%Z, {| fd := fd_; enter_fd := fd_; enter_registered := false; fixed_files := false; has_sq_array := sq_array;
                 ring_mem := Some (ring_map a, bytes); sqe_mem := Some (sqe_map a, sqe_bytes) |}, mmap w (sqe_map a, sqe_bytes)).

(** The descriptor's index in the task's ring table, when the kernel registered exactly one. *)
Definition ioxd__uring_register_ring_fd (rc index : Z) (h : handle) : Z * handle :=
  if (rc <? 0)%Z then (rc, h)
  else if negb (rc =? 1)%Z then ((- ENOSPC)%Z, h)
  else (0%Z, {| fd := fd h; enter_fd := index; enter_registered := true; fixed_files := fixed_files h; has_sq_array := has_sq_array h; ring_mem := ring_mem h; sqe_mem := sqe_mem h |}).

Definition ioxd__uring_register_files_sparse (rc : Z) (h : handle) : Z * handle :=
  if (rc <? 0)%Z then (rc, h)
  else (0%Z, {| fd := fd h; enter_fd := enter_fd h; enter_registered := enter_registered h; fixed_files := true; has_sq_array := has_sq_array h; ring_mem := ring_mem h; sqe_mem := sqe_mem h |}).

Definition ioxd__uring_exit (h : handle) (w : os) : handle * os :=
  let w := match sqe_mem h with Some m => munmap w m | None => w end in
  let w := match ring_mem h with Some m => munmap w m | None => w end in
  (ring_clear, if (0 <=? fd h)%Z then close w (fd h) else w).

(** The kernel gives out descriptors and addresses that are not in use. *)
Definition fair (a : setup_answers) (w : os) : Prop :=
  (forall f, f = first a \/ f = second a -> (0 <= f)%Z -> ~ In f (fds w)) /\
  (forall m, m = ring_map a \/ m = sqe_map a -> ~ In m (map fst (maps w))) /\ ring_map a <> sqe_map a.

Lemma remove_new f l : ~ In f l -> List.remove Z.eq_dec f (f :: l) = l.
Proof. intros Hn. rewrite remove_cons. by apply notin_remove. Qed.

Lemma filter_new (m : Z * Z) l : ~ In m.1 (map fst l) -> List.filter (fun x => negb (x.1 =? m.1)%Z) (m :: l) = l.
Proof.
  intros Hn. cbn [List.filter]. rewrite Z.eqb_refl. cbn [negb]. induction l as [|x l IH]; cbn [List.filter]; [done|].
  destruct (Z.eqb_spec x.1 m.1) as [E|E]; [exfalso; apply Hn; rewrite <- E; by left|]. cbn [negb]. f_equal. apply IH. intros Hi. apply Hn. by right.
Qed.

(** A ring just made, its index array there or not. *)
Definition fresh_world {A B} (zero : A) (b0 : B) (k kc : nat) (indirect : bool) : world (A := A) (B := B) :=
  {| ring_ := {| sq_head := 0; sq_tail := 0; sq_array := if indirect then Some (replicate (2 ^ k) 0) else None; overflow := false;
                          sq_mask := 2 ^ Z.of_nat k - 1; sq_entries := 2 ^ Z.of_nat k; sqe_tail := 0; sqes := replicate (2 ^ k) zero;
                          cq_head := 0; cq_tail := 0; cq_mask := 2 ^ Z.of_nat kc - 1; cqes := replicate (2 ^ kc) b0; cq_overflows := 0; cq_taken := 0 |};
              staged := []; seen := []; posted := []; got := [] |}.

(** C29. The rings as queues. From a ring just made, whatever the worker stages, submits, takes and publishes and whatever
    the kernel answers and posts: the kernel takes the submissions in the order they were staged, each once with the
    contents it was given, the ones it has not taken are never overwritten and no more than the ring holds; the worker
    takes the completions in the order they were posted, each once; a claim gets its slot as soon as the kernel takes
    anything, and a completion posted can be taken. *)
Theorem rings_in_order {A B} (zero : A) (b0 : B) (k kc : nat) (indirect : bool) (es : list event) (w : world) :
  k <= 31 -> kc <= 31 ->
  run zero (fresh_world zero b0 k kc indirect) es = Some w ->
  exists waiting unread, staged w = seen w ++ waiting /\ length waiting <= 2 ^ k /\ posted w = got w ++ unread /\ length unread <= 2 ^ kc /\
    (forall v answers, (0 < hd 0 answers)%Z -> exists w', do_event zero w (EStage v answers) = Some w' /\ staged w' = staged w ++ [v]) /\
    (forall e rest, unread = e :: rest -> exists w', do_event zero w ETake = Some w' /\ got w' = got w ++ [e]).
Proof.
  intros Hk Hkc Hrun. assert (H0 : some_ok k kc (fresh_world zero b0 k kc indirect)).
  { exists [], 0, [], [], 0. split; [|done..]. split; cbn; [|done| |split; [done|lia]| |split; [done|lia]].
    - split; cbn; [done|by rewrite length_replicate|lia|done|lia|done].
    - intros a E. destruct indirect; [|done]. injection E as <-. split; [by rewrite length_replicate|]. intros i Hi. lia.
    - split; cbn; [done|by rewrite length_replicate|lia|done|lia|done]. }
  assert (Hw : some_ok k kc w).
  { revert Hrun H0. generalize (fresh_world zero b0 k kc indirect).
    induction es as [|e es IH]; intros w0 Hrun H0; cbn [run] in Hrun; [by injection Hrun as <-|]. pose proof (event_ok zero k kc w0 e H0) as He.
    destruct (do_event zero w0 e) as [w1|]; [|done]. cbn [mbind option_bind] in Hrun. by eapply IH. }
  clear H0 Hrun. destruct Hw as (pend & p & gone & m & t & Hok). pose proof Hok as [Hr Hst Hpo Hgo]. exists pend, (drop t m). split_and!.
  - exact Hst.
  - apply (rr_len _ _ _ _ _ (ri_sq _ _ _ _ _ _ _ Hr)).
  - by rewrite Hgo, <- app_assoc, take_drop.
  - rewrite length_drop. pose proof (rr_len _ _ _ _ _ (ri_cq _ _ _ _ _ _ _ Hr)). lia.
  - intros v answers Ha. pose proof (event_ok zero k kc w (EStage v answers) ltac:(by exists pend, p, gone, m, t)) as He. cbn [do_event] in *.
    destruct (ioxd__proactor_sqe zero answers (ring_ w)) as [[[i es'] ans] r']. destruct i as [i|]; cbn [mbind option_bind] in *; [by eexists|]. destruct He as (v' & answers' & [= <- <-] & Hle). lia.
  - intros e rest Hm. assert (He : m !! t = Some e) by (rewrite <- (Nat.add_0_r t), <- lookup_drop, Hm; done). destruct (rings_take _ _ _ _ _ _ _ Hr) as [Hc Htk]. cbn [do_event]. rewrite Hc.
    rewrite bool_decide_true by (by eapply lookup_lt_Some). destruct (Htk e He) as (r' & -> & _). by eexists.
Qed.

Lemma close_opened w f : ~ In f (fds w) -> close (opened w f) f = w.
Proof. intros Hf. unfold close, opened. cbn [fds maps]. rewrite remove_new by done. by destruct w. Qed.

Lemma munmap_mmap w m : ~ In m.1 (map fst (maps w)) -> munmap (mmap w m) m = w.
Proof. intros Hm. unfold munmap, mmap. cbn [fds maps]. rewrite filter_new by done. by destruct w. Qed.

(** The descriptor a set-up goes on with, and what is open then. *)
Lemma init_opens a w : fair a w -> exists r h w', ioxd__uring_init a w = (r, h, w') /\
  ((r < 0)%Z /\ h = ring_clear /\ w' = w \/
   exists f arr m1 m2, r = 0%Z /\ (0 <= f)%Z /\ ~ In f (fds w) /\ fd h = f /\ enter_fd h = f /\ has_sq_array h = arr /\ enter_registered h = false /\
     ring_mem h = Some m1 /\ sqe_mem h = Some m2 /\ w' = mmap (mmap (opened w f) m1) m2 /\
     ~ In m1.1 (map fst (maps w)) /\ ~ In m2.1 (map fst (maps w)) /\ m1.1 <> m2.1 /\
     m1.2 = ring_bytes (params_of a) arr /\ m2.2 = (p_sq_entries (params_of a) * 64)%Z).
Proof.
  intros (Hfd & Hmp & Hne). unfold ioxd__uring_init, ring_failed.
  set (w0 := if (first a <? 0)%Z then w else opened w (first a)).
  set (chosen := if (first a =? - EINVAL)%Z then _ else _).
  assert (Hch : exists f arr bad w1, chosen = (f, arr, bad, w1) /\ (bad = true /\ w1 = w \/ bad = false /\ ((f < 0)%Z /\ w1 = w \/ (0 <= f)%Z /\ ~ In f (fds w) /\ w1 = opened w f))).
  { unfold chosen, w0. destruct (Z.eqb_spec (first a) (- EINVAL)) as [E|E].
    - rewrite E. cbn. destruct (Z.ltb_spec (second a) 0); eexists _, _, _, _; (split; [reflexivity|]); [by left|right; split; [done|]]. right. split_and!; [done|by apply Hfd; [right|]|done].
    - eexists _, _, _, _. split; [reflexivity|]. right. split; [done|]. destruct (Z.ltb_spec (first a) 0); [by left|right]. split_and!; [done|by apply Hfd; [left|]|done]. }
  destruct Hch as (f & arr & bad & w1 & -> & Hcase). destruct Hcase as [(-> & ->)|(-> & Hf)]; [eexists _, _, _; split; [reflexivity|]; left; by vm_compute|].
  destruct Hf as [(Hneg & ->)|(Hpos & Hnew & ->)]; [rewrite (proj2 (Z.ltb_lt _ _) Hneg); eexists _, _, _; split; [reflexivity|]; by left|].
  rewrite (proj2 (Z.ltb_ge _ _) Hpos). destruct (single_mmap (params_of a)); cbn [negb].
  2: { eexists _, _, _. split; [reflexivity|]. left. split; [by vm_compute|]. split; [done|by apply close_opened]. }
  destruct (Z.ltb_spec (ring_map a) 0); [eexists _, _, _; split; [reflexivity|]; left; split_and!; [done|done|by apply close_opened]|].
  destruct (Z.ltb_spec (sqe_map a) 0).
  - eexists _, _, _. split; [reflexivity|]. left. split_and!; [done|done|]. rewrite munmap_mmap by (apply Hmp; by left). by apply close_opened.
  - eexists _, _, _. split; [reflexivity|]. right. eexists f, arr, _, _. split_and!; try done; apply Hmp; by auto.
Qed.

(** A set-up that fails, wherever it fails, leaves an empty handle and nothing open or mapped that was not; one that
    succeeds maps enough for every entry of both rings and for every submission, and giving the ring back, its
    descriptor registered or not, leaves exactly what was there before. *)
Theorem ring_setup_balanced (a : setup_answers) (w : os) (rc index files : Z) :
  fair a w ->
  exists r h w', ioxd__uring_init a w = (r, h, w') /\
    ((r < 0)%Z /\ h = ring_clear /\ w' = w /\ ioxd__uring_exit h w' = (ring_clear, w) \/
     r = 0%Z /\ ioxd__uring_exit (ioxd__uring_register_files_sparse files (ioxd__uring_register_ring_fd rc index h).2).2 w' = (ring_clear, w) /\
     exists m1 m2, ring_mem h = Some m1 /\ sqe_mem h = Some m2 /\
       (off_cqes (params_of a) + p_cq_entries (params_of a) * 16 <= m1.2)%Z /\ (p_sq_entries (params_of a) * 64 <= m2.2)%Z /\
       ((if has_sq_array h then off_array (params_of a) + p_sq_entries (params_of a) * 4 else off_dropped (params_of a) + 4) <= m1.2)%Z).
Proof.
  intros Hfair. destruct (init_opens a w Hfair) as (r & h & w' & -> & Hcase). exists r, h, w'. split; [done|].
  destruct Hcase as [(Hr & -> & ->)|(f & arr & m1 & m2 & -> & Hf & Hnew & Hfd & _ & Harr & _ & Hm1 & Hm2 & -> & Hn1 & Hn2 & Hne & Hb1 & Hb2)]; [by left|right].
  split; [done|]. split.
  - set (h' := (ioxd__uring_register_files_sparse files _).2). assert (Hh : ring_mem h' = Some m1 /\ sqe_mem h' = Some m2 /\ fd h' = f).
    { unfold h', ioxd__uring_register_files_sparse, ioxd__uring_register_ring_fd. repeat case_match; cbn; done. }
    destruct Hh as (E1 & E2 & E3). unfold ioxd__uring_exit. rewrite E1, E2, E3, (proj2 (Z.leb_le _ _) Hf).
    rewrite munmap_mmap; [|cbn; intros [?|?]; [congruence|done]]. rewrite munmap_mmap by done. by rewrite close_opened.
  - exists m1, m2. rewrite Hb1, Hb2, Harr. unfold ring_bytes. destruct arr; case_match; split_and!; lia || done.
Qed.

(** ** Inputs *)

Definition tiny : world := fresh_world 0%Z 0%Z 1 2 true.

(** The third claim finds the ring full and submits; an enter that answers busy is followed by one that reaps. *)
Definition busy : list event :=
  [EStage 7%Z []; EStage 8%Z []; EPost 70%Z; EPost 80%Z; ETake; EStage 9%Z [- EBUSY; 0; 2]%Z; ETake; ETake; EPublish; EEnter 1 1 true].

Example busy_runs : (w ← run 0%Z tiny busy; Some (staged w, seen w, posted w, got w)) = Some ([7; 8; 9], [7; 8; 9], [70; 80], [70; 80])%Z.
Proof. vm_compute. reflexivity. Qed.

(** A kernel that takes nothing ends the claim. *)
Example stuck : run 0%Z tiny [EStage 7%Z []; EStage 8%Z []; EStage 9%Z []] = None.
Proof. vm_compute. reflexivity. Qed.

Lemma rings_in_order_witness : exists w waiting unread, run 0%Z tiny busy = Some w /\ staged w = seen w ++ waiting /\ posted w = got w ++ unread.
Proof.
  destruct (run 0%Z tiny busy) as [w|] eqn:E; [|vm_compute in E; discriminate E].
  destruct (rings_in_order 0%Z 0%Z 1 2 true busy w ltac:(lia) ltac:(lia) E) as (waiting & unread & H1 & _ & H2 & _). exists w, waiting, unread. split; [reflexivity|]. split; [exact H1|exact H2].
Defined.

Definition a_setup : setup_answers :=
  {| first := - EINVAL; second := 5; params_of := {| p_sq_entries := 8; p_cq_entries := 16; single_mmap := true; off_array := 320; off_dropped := 272; off_cqes := 64 |};
     ring_map := 4096; sqe_map := 8192 |}.

Example old_kernel : (ioxd__uring_init a_setup {| fds := [0; 1; 2]; maps := [] |})%Z =
  (0, {| fd := 5; enter_fd := 5; enter_registered := false; fixed_files := false; has_sq_array := true; ring_mem := Some (4096, 352); sqe_mem := Some (8192, 512) |},
   {| fds := [5; 0; 1; 2]; maps := [(8192, 512); (4096, 352)] |})%Z.
Proof. vm_compute. reflexivity. Qed.

Lemma ring_setup_balanced_witness : exists r h w', ioxd__uring_init a_setup {| fds := [0; 1; 2]%Z; maps := [] |} = (r, h, w') /\ (r <= 0)%Z.
Proof.
  destruct (ring_setup_balanced a_setup {| fds := [0; 1; 2]%Z; maps := [] |} 1 0 0) as (r & h & w' & E & H).
  - split; [intros f [-> | ->] Hf Hin; [exfalso; apply Hf; reflexivity|cbn in Hin; intuition discriminate]|]. split; [intros m _ []|]. cbn. lia.
  - exists r, h, w'. split; [exact E|]. destruct H as [[? _]|[-> _]]; lia.
Defined.
