(* ===== verification/Coro.v ===== *)
(** Coroutines (lib/io/coro.c, lib/io/switch_x86_64.S): the switch between two stacks, instruction by instruction,
    the stacks, their guards and their first frames, the pool of finished ones, and the rules of resuming and
    yielding. What a coroutine or the loop runs in between is any code that keeps to its own stack. *)
From S2P Require Import Prelude.
Local Open Scope Z_scope.

(** ** The switch *)

Inductive reg := rbp | rbx | r12 | r13 | r14 | r15.

#[export] Instance reg_dec : EqDecision reg.
Proof. solve_decision. Defined.

(** [save_sp] is [movq %rsp, (%rdi)], [load_sp] is [movq %rsi, %rsp]. *)
Inductive instr := pushq (r : reg) | save_sp | load_sp | popq (r : reg) | ret.

Definition ioxd__coro_swap : list instr :=
  [pushq rbp; pushq rbx; pushq r12; pushq r13; pushq r14; pushq r15; save_sp; load_sp;
   popq r15; popq r14; popq r13; popq r12; popq rbx; popq rbp; ret].

(** The registers a call keeps, the stack pointer, the next instruction, and memory by words. *)
Record machine := { regs : reg -> Z; rsp : Z; rip : Z; mem : Z -> Z }.

Definition store (m : Z -> Z) (a v : Z) : Z -> Z := fun x => if x =? a then v else m x.
Definition set_reg (f : reg -> Z) (r : reg) (v : Z) : reg -> Z := fun x => if decide (x = r) then v else f x.

(** [rsi] is what %rsi holds, [saved] the word at %rdi; [None] is an access outside the stacks. *)
Definition exec (ok : Z -> bool) (rsi : Z) (i : instr) (saved : Z) (k : machine) : option (Z * machine) :=
  match i with
  | pushq r =>
      let s := rsp k - 8 in
      if ok s then Some (saved, {| regs := regs k; rsp := s; rip := rip k; mem := store (mem k) s (regs k r) |}) else None
  | save_sp => Some (rsp k, k)
  | load_sp => Some (saved, {| regs := regs k; rsp := rsi; rip := rip k; mem := mem k |})
  | popq r =>
      if ok (rsp k) then Some (saved, {| regs := set_reg (regs k) r (mem k (rsp k)); rsp := rsp k + 8; rip := rip k; mem := mem k |}) else None
  | ret => if ok (rsp k) then Some (saved, {| regs := regs k; rsp := rsp k + 8; rip := mem k (rsp k); mem := mem k |}) else None
  end.

Fixpoint exec_all (ok : Z -> bool) (rsi : Z) (code : list instr) (saved : Z) (k : machine) : option (Z * machine) :=
  match code with
  | [] => Some (saved, k)
  | i :: code => '(saved, k) ← exec ok rsi i saved k; exec_all ok rsi code saved k
  end.

(** A call of it: the return address is pushed, then its instructions run. What it left at %rdi, and the machine. *)
Definition call_swap (ok : Z -> bool) (back rsi : Z) (k : machine) : option (Z * machine) :=
  let s := rsp k - 8 in
  if ok s then exec_all ok rsi ioxd__coro_swap 0 {| regs := regs k; rsp := s; rip := rip k; mem := store (mem k) s back |} else None.

(** ** Stacks *)

Definition SIZEOF_CORO : Z := 56.
Definition CORO_GUARD : Z := 65536.
Definition CORO_POOL_MAX : Z := 512.

(** [struct coro], at its own address; its link is its place in the pool. *)
Record coro := { sp : Z; stack : Z; size : Z; fn : Z; arg : Z; done : bool }.

(** [coros] holds the mapped stacks by the address of their descriptors; [resuming] is the local [c] of the
    [ioxd__coro_resume] a coroutine runs under; [loop_stack] is where the loop's own stack lies. *)
Record world := {
  coros : gmap Z coro;
  machine_ : machine;
  cur : option Z; resuming : option Z;
  loop_sp : Z;
  pool : list Z; pool_count : Z; pool_max : Z;
  loop_stack : Z * Z
}.

(** A result, [abort], or an access outside what is mapped. *)
Inductive res (A : Type) := Ok (a : A) | Aborted | Wild.
Arguments Ok {A}. Arguments Aborted {A}. Arguments Wild {A}.

Definition set_coros (w : world) (m : gmap Z coro) : world :=
  {| coros := m; machine_ := machine_ w; cur := cur w; resuming := resuming w; loop_sp := loop_sp w; pool := pool w; pool_count := pool_count w; pool_max := pool_max w; loop_stack := loop_stack w |}.
Definition set_machine (w : world) (k : machine) : world :=
  {| coros := coros w; machine_ := k; cur := cur w; resuming := resuming w; loop_sp := loop_sp w; pool := pool w; pool_count := pool_count w; pool_max := pool_max w; loop_stack := loop_stack w |}.
Definition set_cur (w : world) (c r : option Z) : world :=
  {| coros := coros w; machine_ := machine_ w; cur := c; resuming := r; loop_sp := loop_sp w; pool := pool w; pool_count := pool_count w; pool_max := pool_max w; loop_stack := loop_stack w |}.
Definition set_loop_sp (w : world) (s : Z) : world :=
  {| coros := coros w; machine_ := machine_ w; cur := cur w; resuming := resuming w; loop_sp := s; pool := pool w; pool_count := pool_count w; pool_max := pool_max w; loop_stack := loop_stack w |}.
Definition set_pool (w : world) (l : list Z) (n : Z) : world :=
  {| coros := coros w; machine_ := machine_ w; cur := cur w; resuming := resuming w; loop_sp := loop_sp w; pool := l; pool_count := n; pool_max := pool_max w; loop_stack := loop_stack w |}.

Definition set_sp (k : coro) (s : Z) : coro := {| sp := s; stack := stack k; size := size k; fn := fn k; arg := arg k; done := done k |}.
Definition set_done (k : coro) : coro := {| sp := sp k; stack := stack k; size := size k; fn := fn k; arg := arg k; done := true |}.

Section Coroutines.
(** The size of a page, and the address of [coro_entry]. *)
Context (page coro_entry : Z).

(** [(n + page - 1) & ~(page - 1)]. *)
Definition round_up (n : Z) : Z := Z.ldiff (wrap64 (n + page - 1)) (page - 1).
Definition guard : Z := round_up CORO_GUARD.

(** The words of a stack that may be touched: above the guard, below the descriptor. *)
Definition within (b : Z * Z) (a : Z) : bool := (b.1 <=? a) && (a + 8 <=? b.2).
Definition bounds (c : Z) (k : coro) : Z * Z := (stack k + guard, c).
Definition accessible (w : world) (a : Z) : bool := within (loop_stack w) a || existsb (fun ck => within (bounds ck.1 ck.2) a) (map_to_list (coros w)).

(** [*--sp = v] for each of [vs]. *)
Fixpoint forge (ok : Z -> bool) (vs : list Z) (s : Z) (m : Z -> Z) : option (Z * (Z -> Z)) :=
  match vs with
  | [] => Some (s, m)
  | v :: vs => let s := s - 8 in if ok s then forge ok vs s (store m s v) else None
  end.

Definition first_frame : list Z := 0 :: coro_entry :: replicate 6 0.

(** From [c->fn = fn] to the end of [ioxd__coro_create]. *)
Definition make_frame (c : Z) (k : coro) (fn_ arg_ : Z) (w : world) : res (Z * world) :=
  match forge (accessible w) first_frame c (mem (machine_ w)) with
  | None => Wild
  | Some (s, m) =>
      let w := set_machine w {| regs := regs (machine_ w); rsp := rsp (machine_ w); rip := rip (machine_ w); mem := m |} in
      Ok (c, set_coros w (<[c := {| sp := s; stack := stack k; size := size k; fn := fn_; arg := arg_; done := false |}]> (coros w)))
  end.

(** [mapped] is what mmap answers, [guarded] whether mprotect succeeds. *)
Definition ioxd__coro_create (mapped : option Z) (guarded : bool) (fn_ arg_ stack_bytes : Z) (w : world) : res (Z * world) :=
  let total := wrap64 (round_up stack_bytes + guard) in
  match pool w with
  | c :: rest =>
      match coros w !! c with
      | None => Wild
      | Some k =>
          if negb (size k =? total) then Aborted
          else make_frame c k fn_ arg_ (set_pool w rest (wrap32 (pool_count w - 1)))
      end
  | [] =>
      match mapped with
      | None => Aborted
      | Some base =>
          if negb guarded then Aborted
          else
            let c := Z.ldiff (wrap64 (wrap64 (base + total) - SIZEOF_CORO)) 15 in
            let k := {| sp := 0; stack := base; size := total; fn := 0; arg := 0; done := false |} in
            make_frame c k fn_ arg_ (set_coros w (<[c := k]> (coros w)))
      end
  end.

Definition coro_destroy (c : Z) (w : world) : res world :=
  match coros w !! c with
  | None => Wild
  | Some k =>
      let w := set_coros w (<[c := set_sp k 0]> (coros w)) in
      if pool_count w <? pool_max w then Ok (set_pool w (c :: pool w) (wrap32 (pool_count w + 1)))
      else Ok (set_coros w (delete c (coros w)))
  end.

Fixpoint unmap_all (l : list Z) (w : world) : res world :=
  match l with
  | [] => Ok w
  | c :: l => match coros w !! c with None => Wild | Some _ => unmap_all l (set_pool (set_coros w (delete c (coros w))) l (pool_count w)) end
  end.
Definition ioxd__coro_pool_drain (w : world) : res world :=
  match unmap_all (pool w) w with Ok w => Ok (set_pool w (pool w) 0) | r => r end.

Definition swap (back rsi : Z) (w : world) : res (Z * world) :=
  match call_swap (accessible w) back rsi (machine_ w) with Some (saved, k) => Ok (saved, set_machine w k) | None => Wild end.

(** [ioxd__coro_resume] up to the switch, [back] being where it goes on, and from there. *)
Definition ioxd__coro_resume (back : Z) (c : Z) (w : world) : res world :=
  match cur w with
  | Some _ => Aborted
  | None =>
      match coros w !! c with
      | None => Wild
      | Some k =>
          if done k then Aborted
          else match swap back (sp k) (set_cur w (Some c) (Some c)) with Ok (saved, w) => Ok (set_loop_sp w saved) | Aborted => Aborted | Wild => Wild end
      end
  end.
Definition resumed (w : world) : res world :=
  match resuming w with
  | None => Wild
  | Some c => match coros w !! c with None => Wild | Some k => let w := set_cur w None None in if done k then coro_destroy c w else Ok w end
  end.

(** A yield ends in the loop, behind the switch of its [ioxd__coro_resume]. *)
Definition ioxd__coro_yield (back : Z) (w : world) : res world :=
  match cur w with
  | None => Aborted
  | Some c =>
      match swap back (loop_sp w) w with
      | Ok (saved, w) => match coros w !! c with None => Wild | Some k => resumed (set_coros w (<[c := set_sp k saved]> (coros w))) end
      | Aborted => Aborted
      | Wild => Wild
      end
  end.

(** [coro_entry] behind [c->fn(c->arg)]. *)
Definition coro_return (back : Z) (w : world) : res world :=
  match cur w with
  | None => Wild
  | Some c => match coros w !! c with None => Wild | Some k => ioxd__coro_yield back (set_coros w (<[c := set_done k]> (coros w))) end
  end.

(** ** Histories *)

Fixpoint stores (ws : list (Z * Z)) (m : Z -> Z) : Z -> Z := match ws with [] => m | (a, v) :: ws => stores ws (store m a v) end.

Inductive event :=
| ERun (r : reg -> Z) (s : Z) (ws : list (Z * Z))          (* the running context's own code *)
| ECreate (mapped : option Z) (guarded : bool) (fn_ arg_ : Z)
| EResume (back c : Z)
| EYield (back : Z)
| EReturn (back : Z)
| EDrain.

(** Every stack is asked for with the size the worker is configured with. *)
Context (stack_bytes : Z).

Definition do_event (w : world) (e : event) : res world :=
  match e with
  | ERun r s ws => Ok (set_machine w {| regs := r; rsp := s; rip := rip (machine_ w); mem := stores ws (mem (machine_ w)) |})
  | ECreate mapped guarded fn_ arg_ => match ioxd__coro_create mapped guarded fn_ arg_ stack_bytes w with Ok (_, w) => Ok w | Aborted => Aborted | Wild => Wild end
  | EResume back c => ioxd__coro_resume back c w
  | EYield back => ioxd__coro_yield back w
  | EReturn back => coro_return back w
  | EDrain => ioxd__coro_pool_drain w
  end.

(** The stack of the context that runs. *)
Definition own (w : world) : Z * Z :=
  match cur w with
  | None => loop_stack w
  | Some c => match coros w !! c with Some k => bounds c k | None => (0, 0) end
  end.

Definition disjoint (a b : Z * Z) : Prop := a.2 <= b.1 \/ b.2 <= a.1.
Definition mapping (k : coro) : Z * Z := (stack k, stack k + size k).
Definition total : Z := wrap64 (round_up stack_bytes + guard).

(** What holds of the code and the system: a context stays on its own stack and has room for a switch's frame; mmap
    gives pages not in use; the pool is drained by the loop. *)
Definition legal (w : world) (e : event) : Prop :=
  match e with
  | ERun _ s ws => (own w).1 <= s <= (own w).2 /\ s mod 8 = 0 /\ Forall (fun av => within (own w) av.1 = true /\ av.1 mod 8 = 0) ws
  | ECreate mapped _ _ _ =>
      forall base, mapped = Some base -> 0 < base /\ base mod page = 0 /\ base + total < 2 ^ 64 /\
        disjoint (base, base + total) (loop_stack w) /\ forall c k, coros w !! c = Some k -> disjoint (base, base + total) (mapping k)
  | EResume _ c => (own w).1 + 56 <= rsp (machine_ w) /\ is_Some (coros w !! c)
  | EYield _ | EReturn _ => cur w <> None /\ (own w).1 + 56 <= rsp (machine_ w)
  | EDrain => cur w = None
  end.

Inductive history : world -> list event -> world -> Prop :=
| history_nil w : history w [] w
| history_cons w e w1 es w2 : legal w e -> do_event w e = Ok w1 -> history w1 es w2 -> history w (e :: es) w2.
End Coroutines.

(** ** One switch *)

Definition off (r : reg) : Z := match r with r15 => 0 | r14 => 8 | r13 => 16 | r12 => 24 | rbx => 32 | rbp => 40 end.

(** The seven words a context leaves at the top of its stack. *)
Definition frame (m : Z -> Z) (s : Z) (f : reg -> Z) (back : Z) : Prop := (forall r, m (s + off r) = f r) /\ m (s + 48) = back.

Record switched (k : machine) (back rsi : Z) (k' : machine) : Prop := {
  sw_frame : frame (mem k') (rsp k - 56) (regs k) back;
  sw_mem a : a < rsp k - 56 \/ rsp k <= a -> mem k' a = mem k a;
  sw_rsp : rsp k' = rsi + 56;
  sw_rip : rip k' = mem k' (rsi + 48);
  sw_regs r : regs k' r = mem k' (rsi + off r)
}.

Lemma store_eq m a b v : b = a -> store m a v b = v.
Proof. intros ->. unfold store. by rewrite Z.eqb_refl. Qed.

Lemma store_ne m a b v : b <> a -> store m a v b = m b.
Proof. intros H. unfold store. by rewrite (proj2 (Z.eqb_neq _ _) H). Qed.

#[local] Arguments store : simpl never.
#[local] Arguments Z.add : simpl never.
#[local] Arguments Z.sub : simpl never.

Ltac mem_simp := repeat first [rewrite store_eq by lia | rewrite store_ne by lia].

Lemma exec_push ok rsi r code saved k : ok (rsp k - 8) = true ->
  exec_all ok rsi (pushq r :: code) saved k = exec_all ok rsi code saved {| regs := regs k; rsp := rsp k - 8; rip := rip k; mem := store (mem k) (rsp k - 8) (regs k r) |}.
Proof. intros H. cbn [exec_all exec]. by rewrite H. Qed.

Lemma exec_pop ok rsi r code saved k : ok (rsp k) = true ->
  exec_all ok rsi (popq r :: code) saved k = exec_all ok rsi code saved {| regs := set_reg (regs k) r (mem k (rsp k)); rsp := rsp k + 8; rip := rip k; mem := mem k |}.
Proof. intros H. cbn [exec_all exec]. by rewrite H. Qed.

Lemma call_swap_spec ok back rsi k : (forall a, rsp k - 56 <= a -> a + 8 <= rsp k -> ok a = true) -> (forall a, rsi <= a -> a + 8 <= rsi + 56 -> ok a = true) ->
  exists k', call_swap ok back rsi k = Some (rsp k - 56, k') /\ switched k back rsi k'.
Proof.
  intros Ho Hi. unfold call_swap, ioxd__coro_swap. cbn zeta. rewrite Ho by lia.
  repeat (rewrite exec_push; cbn [regs rsp rip mem]; [|apply Ho; lia]).
  change (exec_all ok rsi (save_sp :: load_sp :: ?c) ?v ?k) with (exec_all ok rsi c (rsp k) {| regs := regs k; rsp := rsi; rip := rip k; mem := mem k |}). cbn [regs rsp rip mem].
  repeat (rewrite exec_pop; cbn [regs rsp rip mem]; [|apply Hi; lia]).
  cbn [exec_all exec regs rsp rip mem]. rewrite Hi by lia. cbn [mbind option_bind].
  eexists. split; [f_equal; apply pair_equal_spec; split; [lia|reflexivity]|]. split; cbn [regs rsp rip mem].
  - split; [intros []; cbn [off]; by mem_simp|by mem_simp].
  - intros a Ha. by mem_simp.
  - lia.
  - f_equal. lia.
  - intros r. unfold set_reg. destruct r; repeat (rewrite decide_True by done || rewrite decide_False by done); f_equal; cbn [off]; lia.
Qed.

(** Where it loads from was not what it has just written. *)
Lemma switched_to k back rsi k' f b : switched k back rsi k' -> frame (mem k) rsi f b -> rsi + 56 <= rsp k - 56 \/ rsp k <= rsi ->
  rip k' = b /\ forall r, regs k' r = f r.
Proof.
  intros [_ Hm _ Hp Hr] [Hf Hb] Hd. rewrite Hp, Hm by lia. split; [done|]. intros r. rewrite Hr, Hm by (destruct r; cbn; lia). apply Hf.
Qed.

(** ** Layout *)

Lemma ldiff_ones a n : 0 <= n -> 0 <= a -> Z.ldiff a (2 ^ n - 1) = a - a mod 2 ^ n.
Proof.
  intros Hn Ha. rewrite Z.sub_1_r, <- Z.ones_equiv, Z.ldiff_ones_r, Z.shiftl_mul_pow2, Z.shiftr_div_pow2 by done. pose proof (Z.div_mod a (2 ^ n) ltac:(lia)). lia.
Qed.

Lemma round_up_says p n : 0 <= p < 32 -> 0 <= n < 2 ^ 32 -> round_up (2 ^ p) n mod 2 ^ p = 0 /\ n <= round_up (2 ^ p) n < n + 2 ^ p.
Proof.
  intros Hp Hn. assert (0 < 2 ^ p <= 2 ^ 32) by (split; [lia|apply Z.pow_le_mono_r; lia]). unfold round_up.
  assert (wrap64 (n + 2 ^ p - 1) = n + 2 ^ p - 1) as -> by (unfold wrap64; apply Z.mod_small; lia).
  rewrite ldiff_ones by lia. pose proof (Z.mod_pos_bound (n + 2 ^ p - 1) (2 ^ p) ltac:(lia)). split; [|lia].
  rewrite Zminus_mod_idemp_r, Z.sub_diag. apply Z.mod_0_l. lia.
Qed.

Section Layout.
Context (p stack_bytes : Z) (Hp : 12 <= p <= 24) (Hs : 65536 <= stack_bytes <= 67108864).
Notation page := (2 ^ p).

Lemma page_bounds : 4096 <= page <= 16777216.
Proof. change 4096 with (2 ^ 12). change 16777216 with (2 ^ 24). split; apply Z.pow_le_mono_r; lia. Qed.

Lemma guard_says : guard page mod page = 0 /\ 65536 <= guard page < 65536 + page.
Proof. apply round_up_says; [lia|unfold CORO_GUARD; lia]. Qed.

Lemma total_says : total page stack_bytes = round_up page stack_bytes + guard page /\ guard page + 65536 <= total page stack_bytes <= 2 ^ 28 /\ total page stack_bytes mod page = 0.
Proof.
  pose proof page_bounds. pose proof guard_says as [Hg1 Hg2]. destruct (round_up_says p stack_bytes ltac:(lia) ltac:(lia)) as [H1 H2].
  unfold total, wrap64. rewrite Z.mod_small by lia. split; [done|]. split; [lia|]. rewrite Z.add_mod, H1, Hg1 by lia. done.
Qed.

(** A descriptor within its stack: aligned, below the top, its frames above the guard. *)
Record stack_ok (c : Z) (k : coro) : Prop := {
  so_low : stack k + guard page + 64 <= c;
  so_high : c + SIZEOF_CORO <= stack k + size k;
  so_align : c mod 16 = 0;
  so_size : size k = total page stack_bytes;
  so_base : 0 < stack k /\ stack k mod page = 0
}.

Lemma descriptor_ok base : 0 < base -> base mod page = 0 -> base + total page stack_bytes < 2 ^ 64 ->
  stack_ok (Z.ldiff (wrap64 (wrap64 (base + total page stack_bytes) - SIZEOF_CORO)) 15) {| sp := 0; stack := base; size := total page stack_bytes; fn := 0; arg := 0; done := false |}.
Proof.
  intros Hb Hm Ht. pose proof total_says as (_ & Htot & _). pose proof guard_says as [_ Hg]. pose proof page_bounds. unfold SIZEOF_CORO.
  assert (wrap64 (wrap64 (base + total page stack_bytes) - 56) = base + total page stack_bytes - 56) as -> by (unfold wrap64; rewrite (Z.mod_small (base + _)) by lia; apply Z.mod_small; lia).
  change 15 with (2 ^ 4 - 1). rewrite ldiff_ones by lia. set (t := base + total page stack_bytes - 56) in *. pose proof (Z.mod_pos_bound t (2 ^ 4) ltac:(lia)). change (2 ^ 4) with 16 in *.
  split; cbn; unfold SIZEOF_CORO; try lia. by rewrite Zminus_mod_idemp_r, Z.sub_diag.
Qed.

(** ** What holds between the steps *)

(** A saved stack pointer with its frame on the stack. *)
Definition saved_ok (b : Z * Z) (s : Z) : Prop := b.1 <= s /\ s + 56 <= b.2 /\ s mod 8 = 0.

Record placed (m : gmap Z coro) (ls : Z * Z) : Prop := {
  pl_ok c k : m !! c = Some k -> stack_ok c k;
  pl_apart c1 k1 c2 k2 : m !! c1 = Some k1 -> m !! c2 = Some k2 -> c1 <> c2 -> disjoint (mapping k1) (mapping k2);
  pl_loop c k : m !! c = Some k -> disjoint (mapping k) ls
}.

Record Inv (w : world) : Prop := {
  i_placed : placed (coros w) (loop_stack w);
  i_nodup : List.NoDup (pool w);
  i_pool c : In c (pool w) <-> exists k, coros w !! c = Some k /\ done k = true;
  i_count : pool_count w = Z.of_nat (length (pool w)) /\ pool_count w <= pool_max w < 2 ^ 32;
  i_cur : resuming w = cur w /\ forall c, cur w = Some c -> (exists k, coros w !! c = Some k /\ done k = false) /\ saved_ok (loop_stack w) (loop_sp w);
  i_parked c k : coros w !! c = Some k -> done k = false -> cur w <> Some c -> saved_ok (bounds page c k) (sp k);
  i_rsp : (own page w).1 <= rsp (machine_ w) <= (own page w).2 /\ rsp (machine_ w) mod 8 = 0
}.

Lemma accessible_loop w a : within (loop_stack w) a = true -> accessible page w a = true.
Proof. intros H. unfold accessible. by rewrite H. Qed.

Lemma accessible_stack w c k a : coros w !! c = Some k -> within (bounds page c k) a = true -> accessible page w a = true.
Proof.
  intros Hc Ha. unfold accessible. apply orb_true_iff. right. apply existsb_exists. exists (c, k). split; [|done]. apply list_elem_of_In, elem_of_map_to_list. done.
Qed.

Lemma within_iff b a : within b a = true <-> b.1 <= a /\ a + 8 <= b.2.
Proof. unfold within. rewrite andb_true_iff, !Z.leb_le. done. Qed.

Lemma accessible_own w a : Inv w -> within (own page w) a = true -> accessible page w a = true.
Proof.
  intros Hi. unfold own. destruct (cur w) as [c|] eqn:Ec; [|apply accessible_loop]. destruct (proj2 (i_cur _ Hi) c Ec) as [(k & Hk & _) _]. rewrite Hk. by apply accessible_stack.
Qed.

Lemma placed_update m ls c k k' : placed m ls -> m !! c = Some k -> stack k' = stack k -> size k' = size k -> placed (<[c := k']> m) ls.
Proof.
  intros [Ho Ha Hl] Hc Es Ez. assert (Hm : mapping k' = mapping k) by (unfold mapping; congruence). split.
  - intros c1 k1 H1. destruct (decide (c1 = c)) as [->|Hne]; [|rewrite lookup_insert_ne in H1 by done; by apply Ho].
    rewrite lookup_insert_eq in H1. injection H1 as <-. destruct (Ho _ _ Hc) as [B1 B2 B3 B4 B5]. split; rewrite ?Es, ?Ez; done.
  - intros c1 k1 c2 k2 [[<- <-]|[N1 H1]]%lookup_insert_Some [[<- <-]|[N2 H2]]%lookup_insert_Some Hne; rewrite ?Hm; [done|by apply (Ha c k c2 k2)|by apply (Ha c1 k1 c k)|by apply (Ha c1 k1 c2 k2)].
  - intros c1 k1 [[<- <-]|[N1 H1]]%lookup_insert_Some; rewrite ?Hm; by eapply Hl.
Qed.

Lemma placed_delete m ls c : placed m ls -> placed (delete c m) ls.
Proof.
  intros [Ho Ha Hl]. split.
  - intros c1 k1 [_ H1]%lookup_delete_Some. by apply Ho.
  - intros c1 k1 c2 k2 [_ H1]%lookup_delete_Some [_ H2]%lookup_delete_Some. by apply Ha.
  - intros c1 k1 [_ H1]%lookup_delete_Some. by eapply Hl.
Qed.

Lemma stack_ok_within c k : stack_ok c k -> stack k <= (bounds page c k).1 /\ (bounds page c k).1 + 64 <= (bounds page c k).2 /\ (bounds page c k).2 + 56 <= stack k + size k.
Proof. intros [H1 H2 _ _ _]. pose proof guard_says as [_ Hg]. unfold SIZEOF_CORO in *. cbn. lia. Qed.

Lemma placed_new m ls c k : placed m ls -> stack_ok c k -> disjoint (mapping k) ls -> (forall c' k', m !! c' = Some k' -> disjoint (mapping k) (mapping k')) ->
  m !! c = None /\ placed (<[c := k]> m) ls.
Proof.
  intros [Ho Ha Hl] Hok Hd Hds. assert (Hn : m !! c = None).
  { destruct (m !! c) as [k'|] eqn:E; [|done]. pose proof (stack_ok_within _ _ Hok). pose proof (stack_ok_within _ _ (Ho _ _ E)). pose proof (Hds _ _ E) as D. unfold disjoint, mapping in D. cbn in *. lia. }
  split; [done|]. assert (Hsym : forall c' k', m !! c' = Some k' -> disjoint (mapping k') (mapping k)) by (intros c' k' E; destruct (Hds _ _ E); [by right|by left]). split.
  - intros c1 k1 [[<- <-]|[N1 H1]]%lookup_insert_Some; [done|by apply Ho].
  - intros c1 k1 c2 k2 [[<- <-]|[N1 H1]]%lookup_insert_Some [[<- <-]|[N2 H2]]%lookup_insert_Some Hne; [done|by eapply Hds|by eapply Hsym|by eapply (Ha c1 k1 c2 k2)].
  - intros c1 k1 [[<- <-]|[N1 H1]]%lookup_insert_Some; [done|by eapply Hl].
Qed.

(** Stacks of two contexts have no word in common. *)
Lemma apart_stacks w c k c' k' : Inv w -> coros w !! c = Some k -> coros w !! c' = Some k' -> c <> c' -> disjoint (bounds page c k) (bounds page c' k').
Proof.
  intros Hi H1 H2 Hne. pose proof (pl_apart _ _ (i_placed _ Hi) _ _ _ _ H1 H2 Hne) as D. pose proof (stack_ok_within _ _ (pl_ok _ _ (i_placed _ Hi) _ _ H1)). pose proof (stack_ok_within _ _ (pl_ok _ _ (i_placed _ Hi) _ _ H2)).
  unfold disjoint, mapping in *. cbn in *. lia.
Qed.

Lemma apart_loop w c k : Inv w -> coros w !! c = Some k -> disjoint (bounds page c k) (loop_stack w).
Proof.
  intros Hi H1. pose proof (pl_loop _ _ (i_placed _ Hi) _ _ H1) as D. pose proof (stack_ok_within _ _ (pl_ok _ _ (i_placed _ Hi) _ _ H1)). unfold disjoint, mapping in *. cbn in *. lia.
Qed.

Lemma own_apart w c k : Inv w -> coros w !! c = Some k -> cur w <> Some c -> disjoint (bounds page c k) (own page w).
Proof.
  intros Hi H1 Hne. unfold own. destruct (cur w) as [c'|] eqn:Ec; [|by apply apart_loop]. destruct (proj2 (i_cur _ Hi) c' Ec) as [(k' & Hk' & _) _]. rewrite Hk'. eapply apart_stacks; [done..|]. congruence.
Qed.

Lemma own_apart_loop w : Inv w -> cur w <> None -> disjoint (own page w) (loop_stack w).
Proof.
  intros Hi Hne. unfold own. destruct (cur w) as [c'|] eqn:Ec; [|done]. destruct (proj2 (i_cur _ Hi) c' Ec) as [(k' & Hk' & _) _]. rewrite Hk'. by apply apart_loop.
Qed.
End Layout.

(** ** The steps *)

Section Steps.
Context (p stack_bytes coro_entry : Z) (Hp : 12 <= p <= 24) (Hs : 65536 <= stack_bytes <= 67108864).
Notation page := (2 ^ p).
Notation Inv := (Inv p stack_bytes).

Definition live (w : world) : Z := Z.of_nat (base.size (coros w)) - Z.of_nat (length (pool w)).

Definition untouched (w w' : world) (b : Z * Z) : Prop := forall a, within b a = true -> mem (machine_ w') a = mem (machine_ w) a.

Definition delta (e : event) : Z := match e with ECreate _ _ _ _ => 1 | EReturn _ => -1 | _ => 0 end.
Definition leaves (e : event) : bool := match e with EYield _ | EReturn _ => true | _ => false end.

(** What a step keeps: a parked coroutine and its stack, until it is resumed; the loop's stack while a coroutine runs. *)
Record stepped (w : world) (e : event) (w' : world) : Prop := {
  st_inv : Inv w';
  st_loop_stack : loop_stack w' = loop_stack w /\ pool_max w' = pool_max w;
  st_live : live w' = live w + delta e;
  st_parked c k : coros w !! c = Some k -> done k = false -> cur w <> Some c -> (forall back, e <> EResume back c) ->
    coros w' !! c = Some k /\ cur w' <> Some c /\ untouched w w' (bounds page c k);
  st_loop : cur w <> None -> leaves e = false -> cur w' = cur w /\ loop_sp w' = loop_sp w /\ untouched w w' (loop_stack w)
}.

Lemma swap_says w back rsi : (forall a, rsp (machine_ w) - 56 <= a -> a + 8 <= rsp (machine_ w) -> accessible page w a = true) ->
  (forall a, rsi <= a -> a + 8 <= rsi + 56 -> accessible page w a = true) ->
  exists k', swap page back rsi w = Ok (rsp (machine_ w) - 56, set_machine w k') /\ switched (machine_ w) back rsi k'.
Proof. intros H1 H2. destruct (call_swap_spec (accessible page w) back rsi (machine_ w) H1 H2) as (k' & E & Hk). exists k'. unfold swap. by rewrite E. Qed.

(** Words outside the context's own stack are not those a switch pushes. *)
Lemma switched_untouched w w' back rsi k' b : switched (machine_ w) back rsi k' -> machine_ w' = k' -> (own page w).1 + 56 <= rsp (machine_ w) -> rsp (machine_ w) <= (own page w).2 ->
  disjoint b (own page w) -> untouched w w' b.
Proof.
  intros [_ Hm _ _ _] <- H1 H2 Hd a Ha. apply within_iff in Ha. apply Hm. unfold disjoint in Hd. lia.
Qed.

(** A parked coroutine does not notice a write outside its stack. *)
Lemma stores_untouched ws : forall m b o a, Forall (fun av => within o av.1 = true /\ av.1 mod 8 = 0) ws -> disjoint b o -> within b a = true -> stores ws m a = m a.
Proof.
  induction ws as [|[x v] ws IH]; intros m b o a Hw Hd Ha; cbn [stores]; [done|]. apply Forall_cons in Hw as [[Hx _] Hw]. rewrite (IH _ b o) by done.
  apply store_ne. apply within_iff in Ha, Hx. unfold disjoint in Hd. cbn in Hx. lia.
Qed.

Lemma run_step w r s ws : Inv w -> legal page stack_bytes w (ERun r s ws) -> exists w', do_event page coro_entry stack_bytes w (ERun r s ws) = Ok w' /\ stepped w (ERun r s ws) w'.
Proof.
  intros Hi (H1 & H2 & H3). eexists. split; [reflexivity|]. set (w' := set_machine _ _). pose proof Hi as [I1 I2 I3 I4 I5 I6 I7]. split.
  - split; try done.
  - done.
  - unfold live. cbn. lia.
  - intros c k Hc Hdn Hcur _. split_and!; [done..|]. intros a Ha. cbn. eapply stores_untouched; [done| |done]. by eapply own_apart.
  - intros Hcur _. split_and!; [done..|]. intros a Ha. cbn. eapply stores_untouched; [done| |done]. pose proof (own_apart_loop _ _ Hp _ Hi Hcur) as D. destruct D; [by right|by left].
Qed.

(** The switch of a resume: the coroutine runs where it left off. *)
Lemma resume_says w back c k : Inv w -> cur w = None -> coros w !! c = Some k -> done k = false -> (own page w).1 + 56 <= rsp (machine_ w) ->
  exists k', ioxd__coro_resume page back c w = Ok (set_loop_sp (set_machine (set_cur w (Some c) (Some c)) k') (rsp (machine_ w) - 56)) /\ switched (machine_ w) back (sp k) k'.
Proof.
  intros Hi Hcur Hc Hd Hroom. unfold ioxd__coro_resume. rewrite Hcur, Hc, Hd. pose proof (i_parked _ _ _ Hi _ _ Hc Hd ltac:(by rewrite Hcur)) as (P1 & P2 & P3).
  destruct (swap_says (set_cur w (Some c) (Some c)) back (sp k)) as (k' & -> & Hk).
  - intros a A1 A2. apply (accessible_own p stack_bytes w); [done|]. apply within_iff. pose proof (i_rsp _ _ _ Hi) as [? ?]. cbn in A1, A2. lia.
  - intros a A1 A2. apply (accessible_stack p w c k); [done|]. apply within_iff. lia.
  - exists k'. split; [done|]. exact Hk.
Qed.

Lemma mod8_add a : a mod 8 = 0 -> (a + 56) mod 8 = 0.
Proof. intros H. rewrite Z.add_mod, H by lia. done. Qed.

Lemma resume_step w back c : Inv w -> legal page stack_bytes w (EResume back c) ->
  match do_event page coro_entry stack_bytes w (EResume back c) with Ok w' => stepped w (EResume back c) w' | Aborted => True | Wild => False end.
Proof.
  intros Hi (Hroom & [k Hc]). cbn [do_event]. destruct (cur w) as [c0|] eqn:Hcur; [unfold ioxd__coro_resume; by rewrite Hcur|].
  destruct (done k) eqn:Hd; [unfold ioxd__coro_resume; by rewrite Hcur, Hc, Hd|].
  destruct (resume_says w back c k Hi Hcur Hc Hd Hroom) as (k' & -> & Hk). set (w' := set_loop_sp _ _). pose proof Hi as [I1 I2 I3 I4 I5 I6 I7].
  pose proof (I6 _ _ Hc Hd ltac:(by rewrite Hcur)) as (P1 & P2 & P3). assert (Hown : own page w = loop_stack w) by (unfold own; by rewrite Hcur). rewrite Hown in Hroom, I7. split.
  - split; cbn; try done.
    + split; [done|]. intros ? [= <-]. split; [by exists k|]. split; cbn; [lia|]. split; [lia|]. rewrite Zminus_mod, (proj2 I7). done.
    + intros c1 k1 H1 H2 H3. apply I6; [done|done|by rewrite Hcur].
    + unfold own. cbn. rewrite Hc. rewrite (sw_rsp _ _ _ _ Hk). split; [lia|by apply mod8_add].
  - done.
  - unfold live. cbn. lia.
  - intros c1 k1 H1 Hd1 _ Hne. assert (c1 <> c) by (intros ->; by eapply Hne). split_and!; [done|cbn; congruence|].
    eapply (switched_untouched w); [exact Hk|done|rewrite Hown; apply Hroom|rewrite Hown; apply I7|]. rewrite Hown. by eapply apart_loop.
  - done.
Qed.

(** The switch of a yield, with the coroutine's fields as they are then. *)
Lemma yield_says w back c k k1 : Inv w -> cur w = Some c -> coros w !! c = Some k -> stack k1 = stack k -> (own page w).1 + 56 <= rsp (machine_ w) ->
  exists k', ioxd__coro_yield page back (set_coros w (<[c := k1]> (coros w))) =
    (let w1 := set_cur (set_machine (set_coros w (<[c := set_sp k1 (rsp (machine_ w) - 56)]> (coros w))) k') None None in if done k1 then coro_destroy c w1 else Ok w1) /\
    switched (machine_ w) back (loop_sp w) k'.
Proof.
  intros Hi Hcur Hc Hst Hroom. unfold ioxd__coro_yield. cbn [cur set_coros]. rewrite Hcur. pose proof (proj2 (i_cur _ _ _ Hi) _ Hcur) as [_ (P1 & P2 & P3)]. pose proof (i_rsp _ _ _ Hi) as [HR _].
  destruct (swap_says (set_coros w (<[c := k1]> (coros w))) back (loop_sp w)) as (k' & E & Hk).
  - intros a A1 A2. cbn in A1, A2. apply (accessible_stack p _ c k1); [apply lookup_insert_eq|]. apply within_iff. unfold own in HR, Hroom. rewrite Hcur, Hc in HR, Hroom. unfold bounds in *. cbn in *. rewrite Hst. lia.
  - intros a A1 A2. apply accessible_loop, within_iff. cbn. lia.
  - cbn in E. cbn [loop_sp set_coros]. rewrite E. cbn [coros set_machine set_coros]. rewrite lookup_insert_eq, insert_insert_eq. exists k'. split; [|exact Hk].
    unfold resumed. cbn [resuming set_coros set_machine]. rewrite (proj1 (i_cur _ _ _ Hi)), Hcur. cbn [coros set_coros]. rewrite lookup_insert_eq. done.
Qed.

(** Back in the loop, whatever becomes of the coroutine. *)
Record returned (w : world) (back c : Z) (k' : machine) (w' : world) : Prop := {
  re_machine : machine_ w' = k';
  re_cur : cur w' = None /\ resuming w' = None;
  re_loop : (loop_stack w' = loop_stack w /\ pool_max w' = pool_max w) /\ loop_sp w' = loop_sp w;
  re_others c1 : c1 <> c -> coros w' !! c1 = coros w !! c1
}.

Section Back.
Context (w : world) (c : Z) (k : coro) (k' : machine) (Hi : Inv w) (Hcur : cur w = Some c) (Hc : coros w !! c = Some k) (Hback : rsp k' = loop_sp w + 56).

Definition back_in_loop (m : gmap Z coro) (l : list Z) (n : Z) : world :=
  {| coros := m; machine_ := k'; cur := None; resuming := None; loop_sp := loop_sp w; pool := l; pool_count := n; pool_max := pool_max w; loop_stack := loop_stack w |}.

Lemma back_running : done k = false /\ ~ In c (pool w) /\ saved_ok (loop_stack w) (loop_sp w).
Proof using Hi Hcur Hc.
  destruct (proj2 (i_cur _ _ _ Hi) _ Hcur) as [(k0 & Hk0 & Hd) Hsv]. rewrite Hc in Hk0. injection Hk0 as <-. split_and!; [done| |done]. intros (k1 & H1 & H2)%(i_pool _ _ _ Hi). congruence.
Qed.

Lemma back_rsp : (loop_stack w).1 <= rsp k' <= (loop_stack w).2 /\ rsp k' mod 8 = 0.
Proof using Hi Hcur Hc Hback. destruct back_running as (_ & _ & P1 & P2 & P3). rewrite Hback. split; [lia|by apply mod8_add]. Qed.

(** The other coroutines are parked as they were. *)
Lemma back_parked (m : gmap Z coro) : (forall c1 k1, m !! c1 = Some k1 -> done k1 = false -> c1 <> c -> coros w !! c1 = Some k1) -> (forall k1, m !! c = Some k1 -> done k1 = false -> saved_ok (bounds page c k1) (sp k1)) ->
  forall c1 k1, m !! c1 = Some k1 -> done k1 = false -> None <> Some c1 -> saved_ok (bounds page c1 k1) (sp k1).
Proof using Hi Hcur.
  intros Hm Hown c1 k1 H1 H2 _. destruct (decide (c1 = c)) as [->|Hne]; [by apply Hown|]. apply (i_parked _ _ _ Hi); [by apply Hm|done|congruence].
Qed.

Lemma inv_yielded s : saved_ok (bounds page c k) s -> Inv (back_in_loop (<[c := set_sp k s]> (coros w)) (pool w) (pool_count w)).
Proof using Hi Hcur Hc Hback.
  intros Hsp. destruct back_running as (Hd & Hnp & _). split; cbn; try apply Hi; try done.
  - by apply (placed_update _ _ _ _ c k); [apply (i_placed _ _ _ Hi)|..].
  - intros c1. rewrite (i_pool _ _ _ Hi). split; intros (k1 & H1 & H2).
    + exists k1. rewrite lookup_insert_ne; [done|]. intros ->. congruence.
    + apply lookup_insert_Some in H1 as [[<- <-]|[N1 H1]]; [cbn in H2; congruence|by exists k1].
  - apply back_parked; [intros c1 k1 [[<- <-]|[N1 H1]]%lookup_insert_Some; done|]. intros k1 E. rewrite lookup_insert_eq in E. by injection E as <-.
  - exact back_rsp.
Qed.

Lemma inv_pooled s : pool_count w < pool_max w -> Inv (back_in_loop (<[c := set_sp (set_done k) s]> (coros w)) (c :: pool w) (wrap32 (pool_count w + 1))).
Proof using Hi Hcur Hc Hback.
  intros Hlt. destruct back_running as (Hd & Hnp & _). pose proof (i_count _ _ _ Hi) as [I4 I4']. split; cbn; try done.
  - by apply (placed_update _ _ _ _ c k); [apply (i_placed _ _ _ Hi)|..].
  - constructor; [done|apply (i_nodup _ _ _ Hi)].
  - intros c1. split.
    + intros [<-|(k1 & H1 & H2)%(i_pool _ _ _ Hi)]; [eexists; split; [apply lookup_insert_eq|done]|]. exists k1. rewrite lookup_insert_ne; [done|]. intros ->. congruence.
    + intros (k1 & [[<- <-]|[N1 H1]]%lookup_insert_Some & H2); [by left|right; apply (i_pool _ _ _ Hi); by exists k1].
  - unfold wrap32. rewrite Z.mod_small by lia. lia.
  - apply back_parked; [intros c1 k1 [[<- <-]|[N1 H1]]%lookup_insert_Some; done|]. intros k1 E. rewrite lookup_insert_eq in E. by injection E as <-.
  - exact back_rsp.
Qed.

Lemma inv_unmapped : Inv (back_in_loop (delete c (coros w)) (pool w) (pool_count w)).
Proof using Hi Hcur Hc Hback.
  destruct back_running as (Hd & Hnp & _). split; cbn; try apply Hi; try done.
  - apply placed_delete, (i_placed _ _ _ Hi).
  - intros c1. rewrite (i_pool _ _ _ Hi). split.
    + intros (k1 & H1 & H2). exists k1. rewrite lookup_delete_ne; [done|]. intros ->. congruence.
    + intros (k1 & [N1 H1]%lookup_delete_Some & H2). by exists k1.
  - apply back_parked; [intros c1 k1 [N1 H1]%lookup_delete_Some; done|]. intros k1 E. by rewrite lookup_delete_eq in E.
  - exact back_rsp.
Qed.
End Back.

Lemma leave_step w c k back (fin : bool) : Inv w -> cur w = Some c -> coros w !! c = Some k -> (own page w).1 + 56 <= rsp (machine_ w) ->
  exists w' k', ioxd__coro_yield page back (set_coros w (<[c := if fin then set_done k else k]> (coros w))) = Ok w' /\ switched (machine_ w) back (loop_sp w) k' /\
    returned w back c k' w' /\ Inv w' /\ live w' = live w + (if fin then -1 else 0) /\ (fin = false -> coros w' !! c = Some (set_sp k (rsp (machine_ w) - 56))).
Proof.
  intros Hi Hcur Hc Hroom. destruct (yield_says w back c k (if fin then set_done k else k) Hi Hcur Hc ltac:(by destruct fin) Hroom) as (k' & -> & Hk). cbn zeta.
  destruct (back_running w c k Hi Hcur Hc) as (Hd & _ & _). pose proof (i_rsp _ _ _ Hi) as [HR HR8]. assert (HB : bounds page c k = own page w) by (unfold own; by rewrite Hcur, Hc).
  assert (Hsp : saved_ok (bounds page c k) (rsp (machine_ w) - 56)) by (rewrite HB; split; [lia|split; [lia|]]; rewrite Zminus_mod, HR8; done).
  pose proof (sw_rsp _ _ _ _ Hk) as Hback.
  assert (Hothers : forall c1 v, c1 <> c -> <[c := v]> (coros w) !! c1 = coros w !! c1) by (intros; by apply lookup_insert_ne).
  assert (Hdel : forall c1, c1 <> c -> delete c (coros w) !! c1 = coros w !! c1) by (intros; by apply lookup_delete_ne).
  destruct fin; cbn [done set_done].
  - unfold coro_destroy. cbn [coros set_cur set_machine set_coros]. rewrite lookup_insert_eq, insert_insert_eq, delete_insert_eq. cbn [pool_count pool_max set_cur set_machine set_coros].
    destruct (Z.ltb_spec (pool_count w) (pool_max w)) as [Hlt|Hge]; eexists _, k'; (split; [reflexivity|]); (split; [done|]); (split; [split; cbn; auto|]).
    + split; [by apply (inv_pooled w c k k')|]. split; [|discriminate]. unfold live. cbn. rewrite map_size_insert_Some by (by rewrite Hc). lia.
    + split; [by apply (inv_unmapped w c k k')|]. split; [|discriminate]. unfold live. cbn. rewrite map_size_delete_Some by (by rewrite Hc).
      assert (base.size (coros w) <> 0%nat) by (intros E; apply map_size_empty_inv in E; rewrite E in Hc; by apply lookup_empty_Some in Hc). lia.
  - rewrite Hd. eexists _, k'. split; [reflexivity|]. split; [done|]. split; [split; cbn; auto|]. split; [by apply (inv_yielded w c k k')|]. split.
    + unfold live. cbn. rewrite map_size_insert_Some by (by rewrite Hc). lia.
    + intros _. apply lookup_insert_eq.
Qed.

Lemma yield_event w back (fin : bool) : legal page stack_bytes w (if fin then EReturn back else EYield back) -> Inv w -> exists c k, cur w = Some c /\ coros w !! c = Some k /\ (own page w).1 + 56 <= rsp (machine_ w) /\
  do_event page coro_entry stack_bytes w (if fin then EReturn back else EYield back) = ioxd__coro_yield page back (set_coros w (<[c := if fin then set_done k else k]> (coros w))).
Proof.
  intros Hl Hi. assert (Hl' : cur w <> None /\ (own page w).1 + 56 <= rsp (machine_ w)) by (by destruct fin). destruct Hl' as [Hcur Hroom]. destruct (cur w) as [c|] eqn:Ec; [|done].
  destruct (proj2 (i_cur _ _ _ Hi) _ Ec) as [(k & Hc & _) _]. exists c, k. split_and!; [done..|]. destruct fin; cbn [do_event].
  - unfold coro_return. by rewrite Ec, Hc.
  - rewrite insert_id by done. by destruct w.
Qed.

Lemma yield_step w back (fin : bool) e : e = (if fin then EReturn back else EYield back) -> Inv w -> legal page stack_bytes w e -> exists w', do_event page coro_entry stack_bytes w e = Ok w' /\ stepped w e w'.
Proof.
  intros -> Hi Hl. destruct (yield_event w back fin Hl Hi) as (c & k & Hcur & Hc & Hroom & ->). destruct (leave_step w c k back fin Hi Hcur Hc Hroom) as (w' & k' & -> & Hk & [R1 R2 R3 R4] & Hi' & Hlive & _).
  exists w'. split; [done|]. pose proof (i_rsp _ _ _ Hi) as [HR _]. split; [done|by apply R3|by destruct fin| |].
  - intros c1 k1 H1 Hd Hne _. assert (c1 <> c) by congruence. split_and!; [by rewrite R4|by rewrite (proj1 R2)|].
    eapply (switched_untouched w); [exact Hk|done|done|lia|]. by eapply own_apart.
  - intros _ Hlv. by destruct fin.
Qed.

(** The first frame: six zeros under [coro_entry], and a zero above it. *)
Lemma forge_says ok c m : (forall a, c - 64 <= a -> a + 8 <= c -> ok a = true) ->
  exists m', forge ok (first_frame coro_entry) c m = Some (c - 64, m') /\ frame m' (c - 64) (fun _ => 0) coro_entry /\ (forall a, a < c - 64 \/ c <= a -> m' a = m a).
Proof.
  intros Ho. unfold first_frame. cbn [forge replicate]. rewrite !Ho by lia. eexists. split; [f_equal; apply pair_equal_spec; split; [lia|reflexivity]|].
  split; [split; [intros []; cbn [off]; by mem_simp|by mem_simp]|]. intros a Ha. by mem_simp.
Qed.

(** A coroutine just made: parked on its first frame. *)
Record born (w : world) (c fn_ arg_ : Z) (w' : world) : Prop := {
  bo_coro : exists k, coros w' !! c = Some k /\ sp k = c - 64 /\ fn k = fn_ /\ arg k = arg_ /\ done k = false /\ stack_ok p stack_bytes c k;
  bo_frame : frame (mem (machine_ w')) (c - 64) (fun _ => 0) coro_entry;
  bo_cur : cur w' = cur w /\ cur w <> Some c
}.

(** [k0] is the descriptor's place, [pool'] the pool without it. *)
Lemma make_frame_step w c k0 fn_ arg_ pool' n' w0 :
  Inv w -> coros w0 = <[c := k0]> (coros w) -> w0 = set_pool (set_coros w (coros w0)) pool' n' ->
  placed p stack_bytes (coros w0) (loop_stack w) -> (forall k, coros w !! c = Some k -> done k = true) ->
  List.NoDup pool' -> (forall c1, In c1 pool' <-> In c1 (pool w) /\ c1 <> c) -> n' = Z.of_nat (length pool') ->
  Z.of_nat (base.size (<[c := k0]> (coros w))) - Z.of_nat (length pool') = live w + 1 ->
  exists w', make_frame page coro_entry c k0 fn_ arg_ w0 = Ok (c, w') /\ (forall e, delta e = 1 -> stepped w e w') /\ born w c fn_ arg_ w'.
Proof.
  intros Hi Hm0 Hw0 Hpl Hfree Hnd Hin Hn Hlive. pose proof Hi as [I1 I2 I3 I4 I5 I6 I7].
  assert (Hc0 : coros w0 !! c = Some k0) by (rewrite Hm0; apply lookup_insert_eq). pose proof (pl_ok _ _ _ _ Hpl _ _ Hc0) as Hok.
  pose proof (stack_ok_within _ _ Hp _ _ Hok) as (B1 & B2 & B3). unfold make_frame.
  destruct (forge_says (accessible page w0) c (mem (machine_ w0))) as (m & -> & Hfr & Hsame).
  { intros a A1 A2. apply (accessible_stack p w0 c k0); [done|]. apply within_iff. cbn in *. lia. }
  assert (Hcur : cur w <> Some c) by (intros E; destruct (proj2 I5 _ E) as [(k & Hk & Hd) _]; rewrite (Hfree _ Hk) in Hd; done).
  assert (Hothers : forall c1 k1, c1 <> c -> coros w !! c1 = Some k1 -> coros w0 !! c1 = Some k1) by (intros c1 k1 Hne H1; by rewrite Hm0, lookup_insert_ne).
  eexists. split; [reflexivity|]. rewrite Hw0. set (k' := {| sp := c - 64; stack := _; size := _; fn := _; arg := _; done := false |}). cbn [coros set_coros set_machine set_pool].
  assert (Hpl' : placed p stack_bytes (<[c := k']> (coros w0)) (loop_stack w)) by (by apply (placed_update _ _ _ _ c k0)).
  rewrite Hw0 in Hsame. cbn in Hsame. split.
  - intros e Hd. set (w' := set_coros _ _). assert (Hown : own page w' = own page w).
    { unfold own. cbn. destruct (cur w) as [c1|] eqn:Ec; [|done]. rewrite lookup_insert_ne by congruence. rewrite Hm0, lookup_insert_ne by congruence. done. }
    split.
    + split; cbn; try done.
      * intros c1. rewrite Hin, I3. split.
        -- intros [(k1 & H1 & H2) Hne1]. exists k1. rewrite lookup_insert_ne by done. split; [by apply Hothers|done].
        -- intros (k1 & [[<- <-]|[N1 H1]]%lookup_insert_Some & H2); [done|]. rewrite Hm0, lookup_insert_ne in H1 by done. split; [by exists k1|done].
      * split; [done|]. assert (length pool' <= length (pool w))%nat by (apply List.NoDup_incl_length; [done|]; intros c1 Hc1; by apply Hin in Hc1 as [? _]). lia.
      * split; [apply I5|]. intros c1 Hc1. destruct (proj2 I5 _ Hc1) as [(k1 & H1 & H2) H3]. split; [|done]. exists k1. rewrite lookup_insert_ne by congruence. split; [apply Hothers; [congruence|done]|done].
      * intros c1 k1 [[<- <-]|[N1 H1]]%lookup_insert_Some Hd1 Hc1.
        -- pose proof (so_align _ _ _ _ Hok). unfold k', bounds in *. split; cbn in *; [lia|]. split; [lia|]. Z.to_euclidean_division_equations; lia.
        -- rewrite Hm0, lookup_insert_ne in H1 by done. by apply I6.
      * rewrite Hown. exact I7.
    + done.
    + unfold live in *. cbn. rewrite map_size_insert_Some by (by rewrite Hc0). rewrite Hm0, Hd. lia.
    + intros c1 k1 H1 H2 H3 _. assert (Hne1 : c1 <> c) by (intros ->; by rewrite (Hfree _ H1) in H2). cbn. rewrite lookup_insert_ne by done. split; [by apply Hothers|]. split; [done|].
      intros a Ha. cbn. apply Hsame. apply within_iff in Ha. pose proof (stack_ok_within _ _ Hp _ _ (pl_ok _ _ _ _ I1 _ _ H1)). pose proof (pl_apart _ _ _ _ Hpl _ _ _ _ (Hothers _ _ Hne1 H1) Hc0 Hne1) as D. unfold disjoint, mapping in D. cbn in *. lia.
    + intros _ _. split_and!; [done..|]. intros a Ha. cbn. apply Hsame. apply within_iff in Ha. pose proof (pl_loop _ _ _ _ Hpl _ _ Hc0) as D. unfold disjoint, mapping in D. cbn in *. lia.
  - split; [|done|done]. exists k'. split; [apply lookup_insert_eq|]. split_and!; try done. destruct Hok. by split.
Qed.

Lemma create_says w mapped guarded fn_ arg_ : Inv w -> legal page stack_bytes w (ECreate mapped guarded fn_ arg_) ->
  match ioxd__coro_create page coro_entry mapped guarded fn_ arg_ stack_bytes w with
  | Ok (c, w') => stepped w (ECreate mapped guarded fn_ arg_) w' /\ born w c fn_ arg_ w'
  | Aborted => True
  | Wild => False
  end.
Proof.
  intros Hi Hl. pose proof Hi as [I1 I2 I3 I4 I5 I6 I7]. unfold ioxd__coro_create. fold (total page stack_bytes).
  destruct (pool w) as [|c rest] eqn:Epool.
  - destruct mapped as [base|]; [|done]. destruct guarded; cbn [negb]; [|done]. destruct (Hl base eq_refl) as (H1 & H2 & H3 & H4 & H5).
    set (c := Z.ldiff _ _). set (k0 := {| sp := 0; stack := base; size := _; fn := 0; arg := 0; done := false |}).
    pose proof (descriptor_ok p stack_bytes Hp Hs base H1 H2 H3) as Hok. fold k0 in Hok. fold c in Hok.
    destruct (placed_new p stack_bytes Hp (coros w) (loop_stack w) c k0 I1 Hok H4 H5) as [Hnew Hpl].
    destruct (make_frame_step w c k0 fn_ arg_ [] (pool_count w) (set_coros w (<[c := k0]> (coros w)))) as (w' & -> & Hst & Hb); try done.
    + unfold set_pool, set_coros. cbn. by rewrite <- Epool.
    + intros k Hk. congruence.
    + intros c1. rewrite Epool. split; [intros []|intros [[] _]].
    + rewrite (proj1 I4). by rewrite ?Epool.
    + unfold live. rewrite map_size_insert_None by done. rewrite Epool. cbn. lia.
    + split; [by apply Hst|done].
  - assert (Hin : In c (c :: rest)) by by left. apply I3 in Hin as (k & Hc & Hd). rewrite Hc. destruct (Z.eqb_spec (size k) (total page stack_bytes)); cbn [negb]; [|done].
    assert (Hk : <[c := k]> (coros w) = coros w) by (by apply insert_id). apply List.NoDup_cons_iff in I2 as [Hnot Hnd].
    assert (Hcnt : wrap32 (pool_count w - 1) = Z.of_nat (length rest)) by (destruct I4 as [E4 I4]; rewrite E4 in *; cbn [length] in *; unfold wrap32; rewrite Z.mod_small; lia).
    destruct (make_frame_step w c k fn_ arg_ rest (wrap32 (pool_count w - 1)) (set_pool w rest (wrap32 (pool_count w - 1)))) as (w' & -> & Hst & Hb); try done.
    + intros k1 H1. congruence.
    + intros c1. rewrite Epool. split; [intros H1; split; [by right|intros ->; done]|intros [[->|H1] H2]; done].
    + rewrite Hk. unfold live. rewrite Epool. cbn [length]. lia.
    + split; [by apply Hst|done].
Qed.

(** Every stack of the pool, and none other, is unmapped. *)
Lemma unmap_all_says l : forall w, List.NoDup l -> (forall c, In c l -> is_Some (coros w !! c)) ->
  exists w', unmap_all l w = Ok w' /\ machine_ w' = machine_ w /\ cur w' = cur w /\ resuming w' = resuming w /\ loop_sp w' = loop_sp w /\ pool_max w' = pool_max w /\ loop_stack w' = loop_stack w /\
    (l <> [] -> pool w' = []) /\ (l = [] -> w' = w) /\ (forall c, In c l -> coros w' !! c = None) /\ (forall c, ~ In c l -> coros w' !! c = coros w !! c) /\
    Z.of_nat (base.size (coros w')) = Z.of_nat (base.size (coros w)) - Z.of_nat (length l).
Proof.
  induction l as [|c l IH]; intros w Hnd Hin; cbn [unmap_all].
  { exists w. split_and!; try done. cbn. lia. }
  apply List.NoDup_cons_iff in Hnd as [Hnot Hnd]. destruct (Hin c ltac:(by left)) as [k Hk]. rewrite Hk.
  destruct (IH (set_pool (set_coros w (delete c (coros w))) l (pool_count w)) Hnd) as (w' & -> & E1 & E2 & E3 & E4 & E5 & E6 & E7 & E8 & E9 & EB & E10).
  { intros c1 H1. cbn. rewrite lookup_delete_ne by (intros ->; done). apply Hin. by right. }
  exists w'. split_and!; try done.
  - intros _. destruct l; [by rewrite E8|by apply E7].
  - intros c1 Hc1. destruct (In_dec Z.eq_dec c1 l) as [H|H]; [by apply E9|]. rewrite EB by done. destruct Hc1 as [->|]; [apply lookup_delete_eq|done].
  - intros c1 Hc1. rewrite EB by (intros ?; apply Hc1; by right). apply lookup_delete_ne. intros ->. apply Hc1. by left.
  - rewrite E10. cbn. rewrite map_size_delete_Some by (by rewrite Hk).
    assert (base.size (coros w) <> 0%nat) by (intros E; apply map_size_empty_inv in E; rewrite E in Hk; by apply lookup_empty_Some in Hk). lia.
Qed.

Lemma drain_says w : Inv w -> exists w', ioxd__coro_pool_drain w = Ok w' /\ pool w' = [] /\ (cur w = None -> stepped w EDrain w') /\ forall c, In c (pool w) -> coros w' !! c = None.
Proof.
  intros Hi. pose proof Hi as [I1 I2 I3 I4 I5 I6 I7]. unfold ioxd__coro_pool_drain.
  destruct (unmap_all_says (pool w) w I2) as (w' & -> & E1 & E2 & E3 & E4 & E5 & E6 & E7 & E8 & E9 & EB & E10); [intros c (k & H1 & _)%I3; by exists k|].
  assert (Epool : pool w' = []) by (destruct (pool w) eqn:E; [by rewrite E8|by apply E7]). eexists. split; [reflexivity|]. split; [by cbn|]. split; [|by cbn].
  assert (Hsub : forall c k, coros w' !! c = Some k -> coros w !! c = Some k) by (intros c k H; destruct (In_dec Z.eq_dec c (pool w)); [by rewrite E9 in H|by rewrite EB in H]).
  intros Hcur. split.
  - split; cbn; rewrite ?Epool, ?E1, ?E2, ?E3, ?E4, ?E5, ?E6; try done.
    + destruct I1 as [P1 P2 P3]. split; intros; [eapply P1|eapply (P2 c1 k1 c2 k2)|eapply P3]; eauto.
    + constructor.
    + intros c. split; [intros []|]. intros (k & H1 & H2). pose proof (proj2 (I3 c) (ex_intro _ k (conj (Hsub _ _ H1) H2))) as Hc. rewrite E9 in H1 by done. discriminate.
    + cbn [length]. lia.
    + split; [apply I5|]. rewrite Hcur. discriminate.
    + intros c k H1. apply I6, Hsub, H1.
    + unfold own in *. cbn. rewrite E2, Hcur, E6. rewrite Hcur in I7. exact I7.
  - by cbn.
  - unfold live. cbn. rewrite Epool, E10. cbn. lia.
  - intros c k H1 H2 H3 _. cbn. rewrite E2, EB; [|intros (k1 & H4 & H5)%I3; congruence]. split_and!; [done..|]. intros a _. cbn. by rewrite E1.
  - done.
Qed.

(** No step that is legal touches what is not mapped. *)
Lemma coro_step_sound w e : Inv w -> legal page stack_bytes w e ->
  match do_event page coro_entry stack_bytes w e with Ok w' => stepped w e w' | Aborted => True | Wild => False end.
Proof.
  intros Hi Hl. destruct e as [r s ws|mapped guarded fn_ arg_|back c|back|back|].
  - destruct (run_step w r s ws Hi Hl) as (w' & -> & H). exact H.
  - pose proof (create_says w mapped guarded fn_ arg_ Hi Hl) as H. cbn [do_event]. destruct (ioxd__coro_create _ _ _ _ _ _ _ _) as [[c w']| |]; [apply H|done|done].
  - by apply resume_step.
  - destruct (yield_step w back false _ eq_refl Hi Hl) as (w' & -> & H). exact H.
  - destruct (yield_step w back true _ eq_refl Hi Hl) as (w' & -> & H). exact H.
  - cbn [do_event]. destruct (drain_says w Hi) as (w' & -> & _ & H & _). by apply H.
Qed.

(** ** Over a history *)

Notation history := (history page coro_entry stack_bytes).

Lemma history_inv w es w' : history w es w' -> Inv w -> Inv w' /\ live w' = live w + fold_right (fun e n => delta e + n) 0 es /\ loop_stack w' = loop_stack w /\ pool_max w' = pool_max w.
Proof.
  induction 1 as [w|w e w1 es w2 Hl He Hh IH]; intros Hi; [split_and!; [done|cbn; lia|done..]|]. pose proof (coro_step_sound w e Hi Hl) as Hst. rewrite He in Hst.
  destruct Hst as [S1 [S2 S2'] S3 S4 S5]. destruct (IH S1) as (H1 & H2 & H3 & H4). split_and!; [done|cbn; lia|congruence..].
Qed.

Lemma history_parked w es w' c k : history w es w' -> Inv w -> coros w !! c = Some k -> done k = false -> cur w <> Some c -> (forall back, ~ In (EResume back c) es) ->
  coros w' !! c = Some k /\ cur w' <> Some c /\ untouched w w' (bounds page c k).
Proof.
  induction 1 as [w|w e w1 es w2 Hl He Hh IH]; intros Hi Hc Hd Hcur Hno; [by split_and!|]. pose proof (coro_step_sound w e Hi Hl) as Hst. rewrite He in Hst.
  destruct Hst as [S1 S2 S3 S4 S5]. destruct (S4 c k Hc Hd Hcur) as (H1 & H2 & H3); [intros back ->; apply (Hno back); by left|].
  destruct (IH S1 H1 Hd H2) as (H4 & H5 & H6); [intros back Hin; apply (Hno back); by right|]. split_and!; [done..|]. intros a Ha. by rewrite H6, H3.
Qed.

Lemma history_loop w es w' : history w es w' -> Inv w -> cur w <> None -> Forall (fun e => leaves e = false) es ->
  cur w' = cur w /\ loop_sp w' = loop_sp w /\ untouched w w' (loop_stack w).
Proof.
  induction 1 as [w|w e w1 es w2 Hl He Hh IH]; intros Hi Hcur Hno; [by split_and!|]. pose proof (coro_step_sound w e Hi Hl) as Hst. rewrite He in Hst.
  destruct Hst as [S1 S2 S3 S4 S5]. apply Forall_cons in Hno as [Hn Hno]. destruct (S5 Hcur Hn) as (H1 & H2 & H3). destruct (IH S1) as (H4 & H5 & H6); [congruence|done|].
  split_and!; [congruence..|]. intros a Ha. rewrite H6 by (by rewrite (proj1 S2)). by rewrite H3.
Qed.

(** A context goes on as it was when it called the switch: behind the call, on the same stack, what it kept there
    and in its registers unchanged. *)
Definition as_left (w w' : world) (back : Z) : Prop :=
  rip (machine_ w') = back /\ rsp (machine_ w') = rsp (machine_ w) /\ (forall r, regs (machine_ w') r = regs (machine_ w) r) /\
  forall a, rsp (machine_ w) <= a -> within (own page w) a = true -> mem (machine_ w') a = mem (machine_ w) a.

Lemma picks_up w w2 w3 back back' : frame (mem (machine_ w2)) (rsp (machine_ w) - 56) (regs (machine_ w)) back ->
  switched (machine_ w2) back' (rsp (machine_ w) - 56) (machine_ w3) -> (own page w).1 + 56 <= rsp (machine_ w) <= (own page w).2 -> disjoint (own page w) (own page w2) ->
  (own page w2).1 + 56 <= rsp (machine_ w2) <= (own page w2).2 ->
  (forall a, rsp (machine_ w) <= a -> within (own page w) a = true -> mem (machine_ w2) a = mem (machine_ w) a) -> as_left w w3 back.
Proof.
  intros Hf Hk Hr Hd Hr2 Hm. unfold disjoint in Hd. destruct (switched_to _ _ _ _ _ _ Hk Hf ltac:(lia)) as [H1 H2]. split_and!; [done|rewrite (sw_rsp _ _ _ _ Hk); lia|done|].
  intros a A1 A2. rewrite (sw_mem _ _ _ _ Hk); [by apply Hm|]. apply within_iff in A2. lia.
Qed.

(** A coroutine that yields and is resumed later. *)
Lemma yield_resume w back c w1 es w2 back' w3 : Inv w -> cur w = Some c -> legal page stack_bytes w (EYield back) -> do_event page coro_entry stack_bytes w (EYield back) = Ok w1 ->
  history w1 es w2 -> (forall b, ~ In (EResume b c) es) -> legal page stack_bytes w2 (EResume back' c) -> do_event page coro_entry stack_bytes w2 (EResume back' c) = Ok w3 ->
  cur w3 = Some c /\ as_left w w3 back.
Proof.
  intros Hi Hcur Hl He Hh Hno Hl2 He2. destruct (yield_event w back false Hl Hi) as (c' & k & Ec & Hc & Hroom & E). rewrite Hcur in Ec. injection Ec as <-.
  destruct (leave_step w c k back false Hi Hcur Hc Hroom) as (w1' & k' & E1 & Hk & [R1 R2 R3 R4] & Hi1 & _ & Hpark). rewrite E, E1 in He. injection He as ->.
  pose proof (i_rsp _ _ _ Hi) as [HR HR8]. assert (Hown : own page w = bounds page c k) by (unfold own; by rewrite Hcur, Hc).
  assert (Hd : done k = false) by (destruct (proj2 (i_cur _ _ _ Hi) _ Hcur) as [(k0 & H0 & Hd0) _]; congruence).
  set (kp := set_sp k (rsp (machine_ w) - 56)). destruct (history_parked w1 es w2 c kp Hh Hi1 (Hpark eq_refl) Hd ltac:(by rewrite (proj1 R2)) Hno) as (Hc2 & Hcur2 & Hun).
  destruct (history_inv _ _ _ Hh Hi1) as (Hi2 & _ & _). destruct Hl2 as [Hroom2 _]. cbn [do_event] in He2. destruct (cur w2) as [c2|] eqn:Ecur2; [unfold ioxd__coro_resume in He2; by rewrite Ecur2 in He2|].
  destruct (resume_says w2 back' c kp Hi2 Ecur2 Hc2 Hd Hroom2) as (k3 & E3 & Hk3). rewrite E3 in He2. injection He2 as <-. split; [done|].
  assert (Hb : bounds page c kp = own page w) by (by rewrite Hown). pose proof (i_rsp _ _ _ Hi2) as [HR2 _].
  assert (Hsame : forall a, (own page w).1 <= a -> a + 8 <= (own page w).2 -> mem (machine_ w2) a = mem (machine_ w1) a) by (intros a A1 A2; apply Hun; rewrite Hb; by apply within_iff).
  apply (picks_up w w2 _ back back'); [| |lia| |lia|].
  - destruct Hk as [[F1 F2] _ _ _ _]. rewrite R1 in Hsame. split; [intros r; rewrite Hsame by (destruct r; cbn [off]; lia); apply F1|rewrite Hsame by lia; apply F2].
  - exact Hk3.
  - rewrite <- Hb. eapply own_apart; [done..|]. by rewrite Ecur2.
  - intros a A1 A2. apply within_iff in A2. rewrite Hsame by lia. rewrite R1. apply (sw_mem _ _ _ _ Hk). lia.
Qed.

(** The loop that resumes a coroutine, until that yields or returns. *)
Lemma resume_yield w back c w1 es w2 e w3 : Inv w -> legal page stack_bytes w (EResume back c) -> do_event page coro_entry stack_bytes w (EResume back c) = Ok w1 ->
  history w1 es w2 -> Forall (fun e => leaves e = false) es -> leaves e = true -> legal page stack_bytes w2 e -> do_event page coro_entry stack_bytes w2 e = Ok w3 ->
  cur w3 = None /\ as_left w w3 back.
Proof.
  intros Hi Hl He Hh Hno Hlv Hl2 He2. pose proof (coro_step_sound w _ Hi Hl) as Hst. rewrite He in Hst. pose proof (st_inv _ _ _ Hst) as Hi1. destruct Hl as [Hroom [k Hc]]. cbn [do_event] in He.
  destruct (cur w) as [c0|] eqn:Hcur; [unfold ioxd__coro_resume in He; by rewrite Hcur in He|]. destruct (done k) eqn:Hd; [unfold ioxd__coro_resume in He; by rewrite Hcur, Hc, Hd in He|].
  destruct (resume_says w back c k Hi Hcur Hc Hd Hroom) as (k' & E & Hk). rewrite E in He. injection He as <-. set (w1 := set_loop_sp _ _) in *.
  destruct (history_loop w1 es w2 Hh Hi1 ltac:(done) Hno) as (Hcur2 & Hsp2 & Hun). destruct (history_inv _ _ _ Hh Hi1) as (Hi2 & _ & Hls & _). cbn in Hcur2, Hsp2, Hls.
  assert (Hfin : exists back' (fin : bool), e = if fin then EReturn back' else EYield back') by (destruct e; try done; [by exists back0, false|by exists back0, true]). destruct Hfin as (back' & fin & ->).
  destruct (yield_event w2 back' fin Hl2 Hi2) as (c' & k2 & Ec & Hc2 & Hroom2 & E2). destruct (leave_step w2 c' k2 back' fin Hi2 Ec Hc2 Hroom2) as (w3' & k3 & E3 & Hk3 & [R1 R2 _ _] & _).
  rewrite E2, E3 in He2. injection He2 as ->. split; [apply R2|]. pose proof (i_rsp _ _ _ Hi) as [HR HR8]. pose proof (i_rsp _ _ _ Hi2) as [HR2 _].
  assert (Hown : own page w = loop_stack w) by (unfold own; by rewrite Hcur).
  assert (Hsame : forall a, (own page w).1 <= a -> a + 8 <= (own page w).2 -> mem (machine_ w2) a = mem k' a) by (intros a A1 A2; apply Hun; rewrite Hown in *; by apply within_iff).
  apply (picks_up w w2 _ back back'); [| |lia| |lia|].
  - destruct Hk as [[F1 F2] _ _ _ _]. split; [intros r; rewrite Hsame by (destruct r; cbn [off]; lia); apply F1|rewrite Hsame by lia; apply F2].
  - rewrite R1, <- Hsp2. exact Hk3.
  - rewrite Hown, <- Hls. pose proof (own_apart_loop _ _ Hp _ Hi2 ltac:(by rewrite Hcur2)) as D. destruct D; [by right|by left].
  - intros a A1 A2. apply within_iff in A2. rewrite Hsame by lia. apply (sw_mem _ _ _ _ Hk). lia.
Qed.

(** The first resume of a coroutine. *)
Lemma create_resume w mapped guarded fn_ arg_ c w1 es w2 back w3 : Inv w -> legal page stack_bytes w (ECreate mapped guarded fn_ arg_) ->
  ioxd__coro_create page coro_entry mapped guarded fn_ arg_ stack_bytes w = Ok (c, w1) -> history w1 es w2 -> (forall b, ~ In (EResume b c) es) ->
  legal page stack_bytes w2 (EResume back c) -> do_event page coro_entry stack_bytes w2 (EResume back c) = Ok w3 ->
  cur w3 = Some c /\ rip (machine_ w3) = coro_entry /\ rsp (machine_ w3) = c - 8 /\ rsp (machine_ w3) mod 16 = 8 /\ (forall r, regs (machine_ w3) r = 0) /\
  exists k, coros w3 !! c = Some k /\ fn k = fn_ /\ arg k = arg_ /\ stack_ok p stack_bytes c k.
Proof.
  intros Hi Hl He Hh Hno Hl2 He2. pose proof (create_says w mapped guarded fn_ arg_ Hi Hl) as Hst. rewrite He in Hst. destruct Hst as [[Hi1 _ _ _ _] [(k & Hc & Hsp & Hfn & Harg & Hd & Hok) Hfr [Hcur1 Hcur]]].
  destruct (history_parked w1 es w2 c k Hh Hi1 Hc Hd ltac:(by rewrite Hcur1) Hno) as (Hc2 & _ & Hun). destruct (history_inv _ _ _ Hh Hi1) as (Hi2 & _ & _).
  destruct Hl2 as [Hroom2 _]. cbn [do_event] in He2. destruct (cur w2) as [c2|] eqn:Ecur2; [unfold ioxd__coro_resume in He2; by rewrite Ecur2 in He2|].
  destruct (resume_says w2 back c k Hi2 Ecur2 Hc2 Hd Hroom2) as (k3 & E3 & Hk3). rewrite E3 in He2. injection He2 as <-. pose proof (i_rsp _ _ _ Hi2) as [HR2 _].
  pose proof (stack_ok_within _ _ Hp _ _ Hok) as (B1 & B2 & B3). assert (Hd2 : disjoint (bounds page c k) (own page w2)) by (eapply own_apart; [done..|]; by rewrite Ecur2).
  assert (Hfr2 : frame (mem (machine_ w2)) (c - 64) (fun _ => 0) coro_entry).
  { destruct Hfr as [F1 F2]. split; [intros r|]; rewrite Hun; [apply F1| |apply F2|]; apply within_iff; unfold bounds in *; cbn in *; [destruct r; cbn [off]|]; lia. }
  rewrite Hsp in Hk3. unfold disjoint in Hd2. destruct (switched_to _ _ _ _ _ _ Hk3 Hfr2) as [H1 H2]; [unfold bounds in *; cbn in *; lia|].
  split; [done|]. split; [exact H1|]. pose proof (sw_rsp _ _ _ _ Hk3) as Hrsp. pose proof (so_align _ _ _ _ Hok). cbn. split; [lia|]. split; [rewrite Hrsp; Z.to_euclidean_division_equations; lia|]. split; [done|].
  by exists k.
Qed.

(** Why a step aborts. *)
Definition refused (w : world) (e : event) : Prop :=
  match e with
  | EResume _ c => cur w <> None \/ In c (pool w)
  | ECreate mapped guarded _ _ => pool w = [] /\ (mapped = None \/ guarded = false)
  | _ => False
  end.

Lemma make_frame_goes_on c k f x w : make_frame page coro_entry c k f x w <> Aborted.
Proof. unfold make_frame. by destruct (forge _ _ _ _) as [[? ?]|]. Qed.

Lemma step_refused w e : Inv w -> legal page stack_bytes w e -> do_event page coro_entry stack_bytes w e = Aborted -> refused w e.
Proof.
  intros Hi Hl He. destruct e as [r s ws|mapped guarded f x|back c|back|back|]; cbn [refused do_event] in *.
  - discriminate.
  - destruct (ioxd__coro_create _ _ _ _ _ _ _ _) as [[c w']| |] eqn:E; [discriminate| |discriminate]. unfold ioxd__coro_create in E. fold (total page stack_bytes) in E. destruct (pool w) as [|c rest] eqn:Ep.
    + split; [done|]. destruct mapped as [b|]; [|by left]. destruct guarded; [|by right]. exfalso. by apply make_frame_goes_on in E.
    + exfalso. assert (Hin : In c (pool w)) by (rewrite Ep; by left). apply (i_pool _ _ _ Hi) in Hin as (k & Hc & _). rewrite Hc, (so_size _ _ _ _ (pl_ok _ _ _ _ (i_placed _ _ _ Hi) _ _ Hc)), Z.eqb_refl in E. by apply make_frame_goes_on in E.
  - destruct Hl as [Hroom [k Hc]]. destruct (cur w) as [c0|] eqn:Ec; [by left|right]. destruct (done k) eqn:Hd; [apply (i_pool _ _ _ Hi); by exists k|].
    destruct (resume_says w back c k Hi Ec Hc Hd Hroom) as (k' & E & _). rewrite E in He. discriminate.
  - destruct (yield_step w back false _ eq_refl Hi Hl) as (w' & E & _). cbn in E. congruence.
  - destruct (yield_step w back true _ eq_refl Hi Hl) as (w' & E & _). cbn in E. congruence.
  - destruct (drain_says w Hi) as (w' & E & _). congruence.
Qed.
End Steps.

(** A thread before its first coroutine: the loop runs on its own stack. *)
Definition start (limit : Z) (ls : Z * Z) (k : machine) : world :=
  {| coros := ∅; machine_ := k; cur := None; resuming := None; loop_sp := 0; pool := []; pool_count := 0; pool_max := limit; loop_stack := ls |}.

Definition start_ok (limit : Z) (ls : Z * Z) (k : machine) : Prop := 0 <= limit < 2 ^ 32 /\ ls.1 <= rsp k <= ls.2 /\ rsp k mod 8 = 0.

Lemma start_inv p stack_bytes limit ls k : start_ok limit ls k -> Inv p stack_bytes (start limit ls k).
Proof.
  intros (H1 & H2 & H3). split; cbn; try done.
  - constructor.
  - intros c. split; [intros []|]. intros (k1 & E & _). by simplify_map_eq.
Qed.

(** C32. Switching. Over any history of coroutines made, resumed, yielding, returning and drained, each running any code
    that keeps to its own stack: a coroutine first runs at [coro_entry], its registers zero and its stack aligned as a
    call leaves it, under its guard and below its descriptor, with the function it was made for; resumed after a yield it
    goes on behind that yield, and the loop behind its resume, with the stack pointer, the registers a call keeps and every
    word of the stack as they were. *)
Theorem switch_restores (p stack_bytes coro_entry limit : Z) (ls : Z * Z) (k0 : machine) (es0 : list event) (w w1 : world) (es : list event) (w2 w3 : world) (c back back' : Z) :
  12 <= p <= 24 -> 65536 <= stack_bytes <= 67108864 -> start_ok limit ls k0 -> history (2 ^ p) coro_entry stack_bytes (start limit ls k0) es0 w ->
  history (2 ^ p) coro_entry stack_bytes w1 es w2 ->
  (forall mapped guarded f x, legal (2 ^ p) stack_bytes w (ECreate mapped guarded f x) -> ioxd__coro_create (2 ^ p) coro_entry mapped guarded f x stack_bytes w = Ok (c, w1) ->
     (forall b, ~ In (EResume b c) es) -> legal (2 ^ p) stack_bytes w2 (EResume back c) -> do_event (2 ^ p) coro_entry stack_bytes w2 (EResume back c) = Ok w3 ->
     cur w3 = Some c /\ rip (machine_ w3) = coro_entry /\ rsp (machine_ w3) = c - 8 /\ rsp (machine_ w3) mod 16 = 8 /\ (forall r, regs (machine_ w3) r = 0) /\
     exists k, coros w3 !! c = Some k /\ fn k = f /\ arg k = x /\ stack_ok p stack_bytes c k) /\
  (cur w = Some c -> legal (2 ^ p) stack_bytes w (EYield back) -> do_event (2 ^ p) coro_entry stack_bytes w (EYield back) = Ok w1 ->
     (forall b, ~ In (EResume b c) es) -> legal (2 ^ p) stack_bytes w2 (EResume back' c) -> do_event (2 ^ p) coro_entry stack_bytes w2 (EResume back' c) = Ok w3 ->
     cur w3 = Some c /\ as_left p w w3 back) /\
  (forall e, legal (2 ^ p) stack_bytes w (EResume back c) -> do_event (2 ^ p) coro_entry stack_bytes w (EResume back c) = Ok w1 ->
     Forall (fun e => leaves e = false) es -> leaves e = true -> legal (2 ^ p) stack_bytes w2 e -> do_event (2 ^ p) coro_entry stack_bytes w2 e = Ok w3 ->
     cur w3 = None /\ as_left p w w3 back).
Proof.
  intros Hp Hs H0 Hh0 Hh. destruct (history_inv p stack_bytes coro_entry Hp Hs _ _ _ Hh0 (start_inv p stack_bytes _ _ _ H0)) as (Hi & _ & _). split_and!.
  - intros. by eapply create_resume.
  - intros. by eapply yield_resume.
  - intros. by eapply resume_yield.
Qed.

(** C33. The stacks. In any such history no step touches what is not mapped, and one aborts only where a coroutine is
    resumed from a coroutine or after it returned, or the system has no memory; the mapped stacks do not overlap, each
    with its guard and its descriptor in place; those of finished coroutines are in the pool, each once, or unmapped, the
    pool is never over its limit, every other stack belongs to a coroutine that has not returned; and draining the
    pool leaves exactly those. *)
Theorem stacks_sound (p stack_bytes coro_entry limit : Z) (ls : Z * Z) (k0 : machine) (es : list event) (w : world) :
  12 <= p <= 24 -> 65536 <= stack_bytes <= 67108864 -> start_ok limit ls k0 -> history (2 ^ p) coro_entry stack_bytes (start limit ls k0) es w ->
  (forall e, legal (2 ^ p) stack_bytes w e -> do_event (2 ^ p) coro_entry stack_bytes w e <> Wild /\ (do_event (2 ^ p) coro_entry stack_bytes w e = Aborted -> refused w e)) /\
  (forall c1 k1 c2 k2, coros w !! c1 = Some k1 -> coros w !! c2 = Some k2 -> stack_ok p stack_bytes c1 k1 /\ (c1 <> c2 -> disjoint (mapping k1) (mapping k2))) /\
  List.NoDup (pool w) /\ Z.of_nat (length (pool w)) <= limit /\ (forall c, In c (pool w) <-> exists k, coros w !! c = Some k /\ done k = true) /\
  live w = fold_right (fun e n => delta e + n) 0 es /\
  (cur w = None -> exists w', do_event (2 ^ p) coro_entry stack_bytes w EDrain = Ok w' /\ pool w' = [] /\ Z.of_nat (base.size (coros w')) = live w).
Proof.
  intros Hp Hs H0 Hh. pose proof (start_inv p stack_bytes _ _ _ H0) as Hi0. destruct (history_inv p stack_bytes coro_entry Hp Hs _ _ _ Hh Hi0) as (Hi & Hl & _ & Hlim). split_and!.
  - intros e He. split; [|by apply (step_refused p)]. pose proof (coro_step_sound p stack_bytes coro_entry Hp Hs w e Hi He) as H. intros E. by rewrite E in H.
  - intros c1 k1 c2 k2 H1 H2. split; [by apply (pl_ok _ _ _ _ (i_placed _ _ _ Hi))|]. by apply (pl_apart _ _ _ _ (i_placed _ _ _ Hi) c1 k1 c2 k2).
  - apply (i_nodup _ _ _ Hi).
  - cbn in Hlim. rewrite <- Hlim. destruct (i_count _ _ _ Hi) as [<- ?]. lia.
  - apply (i_pool _ _ _ Hi).
  - rewrite Hl. done.
  - intros Hcur. destruct (drain_says p stack_bytes Hp w Hi) as (w' & E & Epool & Hst & _). exists w'. split; [done|]. split; [done|]. pose proof (st_live _ _ _ _ _ (Hst Hcur)) as E2. unfold live in *. rewrite Epool in E2. cbn in E2. lia.
Qed.

(** ** Inputs *)

(** Pages of 4096 bytes, stacks of 64 KB; the loop's stack below address 65536, [coro_entry] at 7. *)
Definition a_page : Z := 12.
Definition a_size : Z := 65536.
Definition a_loop : Z * Z := (4096, 65536).
Definition a_machine : machine := {| regs := fun r => if decide (r = rbx) then 11 else 22; rsp := 60000; rip := 1; mem := fun _ => 5 |}.
Definition a_start : world := start 1 a_loop a_machine.

Lemma a_start_ok : start_ok 1 a_loop a_machine.
Proof. split; [lia|]. split; [cbn; lia|reflexivity]. Qed.

Definition mmap_at (n : Z) : event := ECreate (Some (1048576 * n)) true 100 200.
Definition c1 : Z := 1179584.

(** Two coroutines; the first yields in the middle of its work, the second returns and its stack is kept, the first
    goes on. *)
Definition work : event := ERun (fun _ => 77) (c1 - 104) [(c1 - 96, 42)].
Definition a_history : list event :=
  [mmap_at 1; mmap_at 2; EResume 3 c1; work; EYield 4; EResume 3 (c1 + 1048576); EReturn 5; ERun (fun _ => 88) 59992 []; EResume 6 c1].

Fixpoint run (es : list event) (w : world) : res world :=
  match es with [] => Ok w | e :: es => match do_event (2 ^ a_page) 7 a_size w e with Ok w => run es w | Aborted => Aborted | Wild => Wild end end.

Definition shown (r : res world) : option (option Z * list Z * list Z * Z * Z * Z * Z) :=
  match r with
  | Ok w => Some (cur w, map fst (map_to_list (coros w)), pool w, rsp (machine_ w), rip (machine_ w), regs (machine_ w) rbx, mem (machine_ w) (c1 - 96))
  | _ => None
  end.

Example first_run : shown (run [mmap_at 1; EResume 3 c1] a_start) = Some (Some c1, [c1], [], c1 - 8, 7, 0, 5).
Proof. vm_compute. reflexivity. Qed.

Example goes_on : shown (run a_history a_start) = Some (Some c1, [c1 + 1048576; c1], [c1 + 1048576], c1 - 104, 4, 77, 42).
Proof. vm_compute. reflexivity. Qed.

(** A pool that is full lets the next stack go; one that has a stack gives it again. *)
Example pool_of_one : shown (run [mmap_at 1; mmap_at 2; EResume 3 c1; EReturn 5; EResume 3 (c1 + 1048576); EReturn 5] a_start) = Some (None, [c1], [c1], 60000, 3, 11, 5).
Proof. vm_compute. reflexivity. Qed.

Example resumed_after_return : run [mmap_at 1; EResume 3 c1; EReturn 5; EResume 3 c1] a_start = Aborted.
Proof. vm_compute. reflexivity. Qed.

(** [legal], decided. *)
Definition disjointb (a b : Z * Z) : bool := (a.2 <=? b.1) || (b.2 <=? a.1).

Definition legalb (w : world) (e : event) : bool :=
  let o := own (2 ^ a_page) w in
  let room := o.1 + 56 <=? rsp (machine_ w) in
  match e with
  | ERun _ s ws => (o.1 <=? s) && (s <=? o.2) && (s mod 8 =? 0) && forallb (fun av => within o av.1 && (av.1 mod 8 =? 0)) ws
  | ECreate None _ _ _ => true
  | ECreate (Some b) _ _ _ =>
      let t := total (2 ^ a_page) a_size in
      (0 <? b) && (b mod 2 ^ a_page =? 0) && (b + t <? 2 ^ 64) && disjointb (b, b + t) (loop_stack w) && forallb (fun ck => disjointb (b, b + t) (mapping ck.2)) (map_to_list (coros w))
  | EResume _ c => room && match coros w !! c with Some _ => true | None => false end
  | EYield _ | EReturn _ => match cur w with Some _ => room | None => false end
  | EDrain => match cur w with Some _ => false | None => true end
  end.

Lemma disjointb_true a b : disjointb a b = true -> disjoint a b.
Proof. unfold disjointb, disjoint. rewrite orb_true_iff, !Z.leb_le. done. Qed.

Lemma legalb_says w e : legalb w e = true -> legal (2 ^ a_page) a_size w e.
Proof.
  destruct e as [r s ws|[b|] guarded f x|back c|back|back|]; cbn [legalb legal]; rewrite ?andb_true_iff, ?Z.leb_le, ?Z.ltb_lt, ?Z.eqb_eq.
  - intros [[[H1 H2] H3] H4]. split_and!; [done..|]. apply Forall_forall. intros av Hav. rewrite forallb_forall in H4. apply list_elem_of_In, H4, andb_true_iff in Hav as [? ?%Z.eqb_eq]. done.
  - intros [[[[H1 H2] H3] H4] H5] b' [= <-]. split_and!; [done..|by apply disjointb_true|]. intros c k Hc. rewrite forallb_forall in H5. apply elem_of_map_to_list, list_elem_of_In, H5 in Hc. by apply disjointb_true.
  - done.
  - intros [H1 H2]. split; [done|]. by destruct (coros w !! c).
  - destruct (cur w); [|done]. by intros ?%Z.leb_le.
  - destruct (cur w); [|done]. by intros ?%Z.leb_le.
  - by destruct (cur w).
Qed.

Fixpoint checked (es : list event) (w : world) : option world :=
  match es with
  | [] => Some w
  | e :: es => if legalb w e then match do_event (2 ^ a_page) 7 a_size w e with Ok w => checked es w | _ => None end else None
  end.

Definition after (es : list event) : world := default a_start (checked es a_start).
Definition runs (es : list event) : bool := match checked es a_start with Some _ => true | None => false end.

Lemma checked_history es : forall w w', checked es w = Some w' -> history (2 ^ a_page) 7 a_size w es w'.
Proof.
  induction es as [|e es IH]; intros w w' H; cbn [checked] in H; [injection H as ->; constructor|]. destruct (legalb w e) eqn:Hl; [|done].
  destruct (do_event _ _ _ w e) as [w1| |] eqn:He; [|done..]. econstructor; [by apply legalb_says|done|by apply IH].
Qed.

Lemma checked_app es es' : forall w, checked (es ++ es') w = w ← checked es w; checked es' w.
Proof. induction es as [|e es IH]; intros w; cbn [app checked]; [done|]. destruct (legalb w e); [|done]. destruct (do_event _ _ _ w e); [by rewrite IH|done..]. Qed.

Lemma after_history es es' : runs (es ++ es') = true -> history (2 ^ a_page) 7 a_size (after es) es' (after (es ++ es')).
Proof.
  unfold runs, after. rewrite checked_app. destruct (checked es a_start) as [w|]; cbn [mbind option_bind default]; [|done]. destruct (checked es' w) as [w'|] eqn:E; [|done].
  intros _. by apply checked_history.
Qed.

Lemma after_event es e : runs (es ++ [e]) = true -> legal (2 ^ a_page) a_size (after es) e /\ do_event (2 ^ a_page) 7 a_size (after es) e = Ok (after (es ++ [e])).
Proof. intros H. apply after_history in H. inversion H as [|? ? ? ? ? Hl He Hn]; subst. inversion Hn; subst. done. Qed.

Definition until_yield : list event := [mmap_at 1; EResume 3 c1; work].
Definition in_between : list event := [mmap_at 2; EResume 3 (c1 + 1048576); EReturn 5; ERun (fun _ => 88) 59992 []].

Lemma switch_restores_witness : let w := after until_yield in let w3 := after (((until_yield ++ [EYield 4]) ++ in_between) ++ [EResume 6 c1]) in cur w3 = Some c1 /\ as_left a_page w w3 4.
Proof.
  cbn zeta. destruct (after_event until_yield (EYield 4) ltac:(vm_compute; reflexivity)) as [L1 E1].
  destruct (after_event ((until_yield ++ [EYield 4]) ++ in_between) (EResume 6 c1) ltac:(vm_compute; reflexivity)) as [L2 E2].
  apply (switch_restores a_page a_size 7 1 a_loop a_machine until_yield (after until_yield) (after (until_yield ++ [EYield 4])) in_between (after ((until_yield ++ [EYield 4]) ++ in_between)) _ c1 4 6
    ltac:(unfold a_page; lia) ltac:(unfold a_size; lia) a_start_ok (after_history [] until_yield ltac:(vm_compute; reflexivity))
    (after_history (until_yield ++ [EYield 4]) in_between ltac:(vm_compute; reflexivity))); [vm_compute; reflexivity|exact L1|exact E1| |exact L2|exact E2].
  intros b Hin. unfold in_between in Hin. cbn in Hin. unfold c1 in Hin. intuition discriminate.
Defined.

Lemma stacks_sound_witness : Z.of_nat (length (pool (after a_history))) <= 1 /\ live (after a_history) = 1.
Proof.
  destruct (stacks_sound a_page a_size 7 1 a_loop a_machine a_history (after a_history) ltac:(unfold a_page; lia) ltac:(unfold a_size; lia) a_start_ok
    (after_history [] a_history ltac:(vm_compute; reflexivity))) as (_ & _ & _ & H1 & _ & H2 & _).
  split; [exact H1|]. rewrite H2. vm_compute. reflexivity.
Defined.
