(* ===== verification/Proactor.v ===== *)
(** The worker's loop (lib/io/proactor.c): its listeners and their back-pressure, the turns of the loop over what the
    kernel answers, the drain and its deadline, and what is left at the end. The connections of the worker are those of
    [Conn]; a completion is dispatched to them by its tag. *)
From S2P Require Import Prelude Bufring Conn.

#[local] Arguments Nat.ltb : simpl never.
#[local] Arguments Nat.leb : simpl never.

Definition DRAIN_GRACE_MS : Z := 2000.
Definition FIXED_FILES : Z := 16384.
Definition ENFILE : Z := 23.
Definition EMFILE : Z := 24.
Definition ENOMEM : Z := 12.
Definition ENOENT : Z := 2.
Definition ETIME : Z := 62.
Definition EINTR : Z := 4.
Definition EAGAIN : Z := 11.
Definition EBUSY : Z := 16.

(** ** A listener and a worker *)

(** [struct listener]; [pending] counts its accepts that were staged and have not had their last completion. *)
Record listener := {
  l_certs : bool; stalled : bool; stalled_live : nat; retry_at : Z; err_log_at : Z; err_since_log : Z;
  pending : nat
}.

(** [struct proactor]; [reads] counts the readings of the clock, [cancels] are the accepts cancelled by name, [lines]
    the error lines written, each a listener and how many errors it stands for. *)
Record proactor := {
  w : worker;
  listeners : list listener;
  file_slots : nat;
  deadline : Z;
  failed : Z; stop : bool;
  reads : nat;
  cancels : list nat;
  lines : list (nat * Z)
}.

Definition set_w (p : proactor) (v : worker) : proactor :=
  {| w := v; listeners := listeners p; file_slots := file_slots p; deadline := deadline p; failed := failed p; stop := stop p; reads := reads p; cancels := cancels p; lines := lines p |}.
Definition set_listeners (p : proactor) (l : list listener) : proactor :=
  {| w := w p; listeners := l; file_slots := file_slots p; deadline := deadline p; failed := failed p; stop := stop p; reads := reads p; cancels := cancels p; lines := lines p |}.
Definition set_deadline (p : proactor) (d : Z) : proactor :=
  {| w := w p; listeners := listeners p; file_slots := file_slots p; deadline := d; failed := failed p; stop := stop p; reads := reads p; cancels := cancels p; lines := lines p |}.
Definition set_failed (p : proactor) (e : Z) : proactor :=
  {| w := w p; listeners := listeners p; file_slots := file_slots p; deadline := deadline p; failed := e; stop := true; reads := reads p; cancels := cancels p; lines := lines p |}.
Definition set_reads (p : proactor) (n : nat) : proactor :=
  {| w := w p; listeners := listeners p; file_slots := file_slots p; deadline := deadline p; failed := failed p; stop := stop p; reads := n; cancels := cancels p; lines := lines p |}.
Definition set_cancels (p : proactor) (c : list nat) : proactor :=
  {| w := w p; listeners := listeners p; file_slots := file_slots p; deadline := deadline p; failed := failed p; stop := stop p; reads := reads p; cancels := c; lines := lines p |}.
Definition set_lines (p : proactor) (l : list (nat * Z)) : proactor :=
  {| w := w p; listeners := listeners p; file_slots := file_slots p; deadline := deadline p; failed := failed p; stop := stop p; reads := reads p; cancels := cancels p; lines := l |}.

Definition set_stall (l : listener) (b : bool) (v : nat) (r : Z) : listener :=
  {| l_certs := l_certs l; stalled := b; stalled_live := v; retry_at := r; err_log_at := err_log_at l; err_since_log := err_since_log l; pending := pending l |}.
Definition set_log (l : listener) (a n : Z) : listener :=
  {| l_certs := l_certs l; stalled := stalled l; stalled_live := stalled_live l; retry_at := retry_at l; err_log_at := a; err_since_log := n; pending := pending l |}.
Definition set_pending (l : listener) (n : nat) : listener :=
  {| l_certs := l_certs l; stalled := stalled l; stalled_live := stalled_live l; retry_at := retry_at l; err_log_at := err_log_at l; err_since_log := err_since_log l; pending := n |}.

Definition upd_listener (i : nat) (f : listener -> listener) (p : proactor) : option proactor :=
  l ← listeners p !! i; Some (set_listeners p (<[i := f l]> (listeners p))).

Section Loop.
(** The address of a buffer, and what the coarse clock says in milliseconds at each reading. *)
Context (base : Z -> Z) (time : nat -> Z).

Definition now_ms (p : proactor) : Z * proactor := (time (reads p), set_reads p (S (reads p))).
Definition seconds (ms : Z) : Z := (ms / 1000)%Z.

(** ** Accepting *)

Definition accept_room (p : proactor) : bool := negb (draining (w p)) && ((file_slots p =? 0) || (live (w p) <? file_slots p)).

Definition stall_accept (i : nat) (p : proactor) : option proactor :=
  let '(now, p) := now_ms p in
  upd_listener i (fun l => set_stall l true (live (w p)) (seconds now + 1)) p.

(** The submission is the accept of [i], in flight from here. *)
Definition arm_accept (i : nat) (p : proactor) : option proactor :=
  if negb (accept_room p) then stall_accept i p
  else upd_listener i (fun l => set_pending (set_stall l false (stalled_live l) (retry_at l)) (S (pending l))) p.

Fixpoint rearm_loop (ns : list nat) (now : Z) (p : proactor) : option proactor :=
  match ns with
  | [] => Some p
  | i :: ns =>
      l ← listeners p !! i;
      p ← (if stalled l && ((live (w p) <? stalled_live l) || (retry_at l <=? now)%Z) then arm_accept i p else Some p);
      rearm_loop ns now p
  end.

Definition rearm_stalled (p : proactor) : option proactor :=
  if negb (existsb stalled (listeners p)) then Some p
  else let '(ms, p) := now_ms p in rearm_loop (seq 0 (length (listeners p))) (seconds ms) p.

Definition accept_exhausted (err : Z) : bool := ((err =? - ENFILE) || (err =? - EMFILE) || (err =? - ENOMEM) || (err =? - ENOBUFS))%Z.

Definition note_accept_error (i : nat) (p : proactor) : option proactor :=
  let '(ms, p) := now_ms p in
  l ← listeners p !! i;
  let n := wrap64 (err_since_log l + 1) in
  if (seconds ms <? err_log_at l)%Z then upd_listener i (fun l => set_log l (err_log_at l) n) p
  else p ← upd_listener i (fun l => set_log l (seconds ms + 1) 0) p; Some (set_lines p (lines p ++ [(i, n)])).

(** [on_accept], the connection's part of it being [Conn.on_accept]; [fresh] is where calloc would put the object, [prog]
    what the connection's handler is going to do. *)
Definition on_accept (i : nat) (result : Z) (more : bool) (fresh : nat) (prog : list action) (p : proactor) : option proactor :=
  l ← listeners p !! i;
  v ← Conn.on_accept fresh result (l_certs l) prog (w p);
  let p := set_w p v in
  p ← (if (result <? 0)%Z && negb (draining (w p) && (result =? - ECANCELED)%Z) then note_accept_error i p else Some p);
  if more then Some p
  else if (result <? 0)%Z && accept_exhausted result then stall_accept i p
  else arm_accept i p.

(** ** Completions *)

(** A completion as its tag says. *)
Inductive completion :=
| TAG_IGNORE
| TAG_OP (a : nat)
| TAG_RECV (a : nat) (result : Z) (more : bool) (buf : option Z)
| TAG_ACCEPT (i : nat) (result : Z) (more : bool) (fresh : nat) (prog : list action)
| TAG_CLOSE (res : Z)
| TAG_DRAIN (res : Z).

(** The last completion of an accept takes it out of flight. *)
Definition dispatch (c : completion) (p : proactor) : option proactor :=
  match c with
  | TAG_OP a => v ← step base (EvOp a) (w p); Some (set_w p v)
  | TAG_RECV a result more buf => v ← step base (EvRecv a result more buf) (w p); Some (set_w p v)
  | TAG_ACCEPT i result more fresh prog =>
      p ← (if more then Some p else upd_listener i (fun l => set_pending l (pending l - 1)) p);
      on_accept i result more fresh prog p
  | TAG_DRAIN res => if (res <? 0)%Z && negb (res =? - ENOENT)%Z then v ← step base EvCancelEach (w p); Some (set_w p v) else Some p
  | TAG_CLOSE _ | TAG_IGNORE => Some p
  end.

Fixpoint dispatch_all (cs : list completion) (p : proactor) : option proactor :=
  match cs with [] => Some p | c :: cs => p ← dispatch c p; dispatch_all cs p end.

(** [while (p->ready_head)]; a round takes one. *)
Fixpoint run_ready (fuel : nat) (v : worker) : option worker :=
  match ready v with
  | [] => Some v
  | _ => match fuel with 0 => None | S fuel => v ← run_ready1 v; run_ready fuel v end
  end.

(** ** The drain *)

Fixpoint cancel_accepts (ns : list nat) (p : proactor) : option proactor :=
  match ns with
  | [] => Some p
  | i :: ns =>
      l ← listeners p !! i;
      let p := if stalled l then p else set_cancels p (cancels p ++ [i]) in
      p ← upd_listener i (fun l => set_stall l true (stalled_live l) (retry_at l)) p;
      cancel_accepts ns p
  end.

Definition begin_drain (p : proactor) : option proactor :=
  p ← cancel_accepts (seq 0 (length (listeners p))) p;
  v ← Conn.begin_drain (w p); Some (set_w p v).

(** ** A turn of the loop *)

Definition passes (rc : Z) : bool := negb ((rc <? 0) && negb (rc =? - ETIME) && negb (rc =? - EINTR) && negb (rc =? - EAGAIN) && negb (rc =? - EBUSY))%Z.

(** What a turn meets: the stop flag, the result of the enter, and the completions it finds. *)
Record answers := { stop_seen : bool; enter_rc : Z; batch : list completion }.

(** The turn up to its enter: whether the loop is left instead. *)
Definition turn_start (stop_seen : bool) (p : proactor) : option (bool * proactor) :=
  p ← (if stop_seen && negb (draining (w p)) then p ← begin_drain p; let '(ms, p) := now_ms p in Some (set_deadline p (ms + DRAIN_GRACE_MS)) else Some p);
  let '(leave, p) :=
    if draining (w p) then
      if live (w p) =? 0 then (true, p) else let '(ms, p) := now_ms p in ((deadline p <=? ms)%Z, p)
    else (false, p) in
  if leave then Some (true, p)
  else v ← run_ready (length (ready (w p))) (w p); v ← rearm_starved v; Some (false, set_w p v).

(** Whether the loop goes on behind it. *)
Definition turn (a : answers) (p : proactor) : option (bool * proactor) :=
  '(leave, p) ← turn_start (stop_seen a) p;
  if leave : bool then Some (false, p)
  else if negb (passes (enter_rc a)) then Some (false, set_failed p (enter_rc a))
  else p ← dispatch_all (batch a) p; p ← rearm_stalled p; Some (true, p).

(** The first [n] turns, as long as the loop goes on: whether it still does. *)
Fixpoint turns (n : nat) (env : nat -> answers) (p : proactor) : option (bool * proactor) :=
  match n with
  | 0 => Some (true, p)
  | S n => '(on, p) ← turns n env p; if on : bool then turn (env n) p else Some (false, p)
  end.

(** ** Before the loop and behind it *)

(** The registered table: as many slots as asked for, or as the limit on descriptors allows. *)
Definition fixed_slots (limit : option Z) : Z :=
  match limit with Some n => if (0 <? FIXED_FILES)%Z && (n <? FIXED_FILES)%Z then (n mod 2 ^ 32)%Z else FIXED_FILES | None => FIXED_FILES end.

Fixpoint arm_listeners (ns : list nat) (p : proactor) : option proactor :=
  match ns with [] => Some p | i :: ns => p ← arm_accept i p; arm_listeners ns p end.

(** A worker with its table registered or not, its sockets listening. *)
Definition listen_all (idle : nat) (certs_ : list bool) (limit : option Z) (registered : bool) : option proactor :=
  let slots := fixed_slots limit in
  let p := {| w := init_worker idle;
              listeners := map (fun c => {| l_certs := c; stalled := false; stalled_live := 0; retry_at := 0; err_log_at := 0; err_since_log := 0; pending := 0 |}) certs_;
              file_slots := if (0 <? slots)%Z && registered then Z.to_nat slots else 0; deadline := 0; failed := 0; stop := false; reads := 0; cancels := []; lines := [] |} in
  arm_listeners (seq 0 (length certs_)) p.

(** What is left at the end: the listeners closed, whether the buffers of the recvs stay mapped, and the lists freed. *)
Definition wind_up (p : proactor) : proactor * list nat * bool :=
  let v := set_pool (set_starved (w p) [] (starved_total (w p))) (conns (w p)) [] (live (w p)) in
  (set_w p v, seq 0 (length (listeners p)), negb (live (w p) =? 0)).
End Loop.

(** ** The processor of a worker *)

(** [pin_to]: the processors a thread may use, in the order of their numbers; which one it is kept on, if any. *)
Fixpoint pin_loop (allowed : list bool) (cpu seen target : nat) : option nat :=
  match allowed with
  | [] => None
  | a :: allowed => if a then if seen =? target then Some cpu else pin_loop allowed (S cpu) (S seen) target else pin_loop allowed (S cpu) seen target
  end.
Definition cpu_count (allowed : list bool) : nat := length (List.filter id allowed).
Definition pin_to (idx : nat) (allowed : option (list bool)) : option nat :=
  match allowed with
  | None => None
  | Some allowed => let count := cpu_count allowed in if count =? 0 then None else pin_loop allowed 0 0 (idx mod count)
  end.

(** ** What the steps of connections leave alone

    No step but an accept starts a coroutine or opens a connection, and none but the drain's first sets the flag. *)
Definition calm (v v' : worker) : Prop := ready v' = ready v /\ draining v' = draining v /\ live v' <= live v.

Definition calms {X} (v : worker) (to : X -> worker) (o : option X) : Prop := match o with Some x => calm v (to x) | None => True end.

Create HintDb calm.

Lemma calm_refl v : calm v v.
Proof. done. Qed.

Lemma calms_bind {X Y} v (to : X -> worker) (to' : Y -> worker) (o : option X) (f : X -> option Y) :
  calms v to o -> (forall x, calm v (to x) -> calms v to' (f x)) -> calms v to' (o ≫= f).
Proof. destruct o as [x|]; cbn; auto. Qed.

Lemma calms_get {X Y} v (to' : Y -> worker) (o : option X) (f : X -> option Y) : (forall x, calms v to' (f x)) -> calms v to' (o ≫= f).
Proof. destruct o as [x|]; cbn; auto. Qed.

(** A record update that leaves the three fields, or lowers the count. *)
Ltac calm_pure := match goal with H : calm _ _ |- calm _ _ => destruct H as (? & ? & ?); split_and!; cbn; (done || lia) end.

Ltac calm_step :=
  match goal with
  | |- calms _ _ None => exact I
  | |- calms _ _ (Some _) => cbn [calms]
  | |- calms _ _ (if ?b then _ else _) => destruct b
  | |- calms _ _ (match ?x with _ => _ end) => destruct x
  | |- calm _ _ => first [assumption | calm_pure]
  | |- calms ?v ?t (_ ≫= _) => first [eapply (calms_bind v id t); [solve [eauto with calm] | intros ? ?; cbn [id] in *]
                                     | eapply (calms_bind v snd t); [solve [eauto with calm] | intros [? ?] ?; cbn [snd] in *]
                                     | eapply (calms_bind v id t); [|intros ? ?; cbn [id] in *]; [solve [repeat calm_step]|]
                                     | apply calms_get; intros ?]
  | |- calms _ _ _ => solve [eauto with calm]
  end.

Section Calm.
Context (v : worker).

Lemma upd_calm a f u : calm v u -> calms v id (upd a f u).
Proof. intros H. unfold upd. destruct (conns u !! a); cbn; [|done]. calm_pure. Qed.
Lemma unref_calm a u : calm v u -> calms v id (conn_unref a u).
Proof. intros H. unfold conn_unref. destruct (conns u !! a); cbn; [|done]. destruct (negb _); cbn; calm_pure. Qed.
Lemma cancel_recv_calm a u : calm v u -> calms v id (cancel_recv a u).
Proof. intros H. unfold cancel_recv. destruct (conns u !! a) as [c|]; cbn; [|done]. destruct (cancelling c); cbn; calm_pure. Qed.
Lemma arm_recv_calm a u : calm v u -> calms v id (ioxd__conn_arm_recv a u).
Proof. intros H. unfold ioxd__conn_arm_recv. destruct (conns u !! a) as [c|]; cbn; [|done]. calm_pure. Qed.
Lemma bufring_return_calm i u : calm v u -> calms v id (bufring_return i u).
Proof. intros H. unfold bufring_return. destruct (out u !! i); cbn; [|done]. calm_pure. Qed.
#[local] Hint Resolve upd_calm unref_calm cancel_recv_calm arm_recv_calm bufring_return_calm : calm.

Lemma return_all_calm l : forall u, calm v u -> calms v id (return_all l u).
Proof. induction l as [|i l IH]; intros u H; cbn [return_all]; [done|]. calm_step. by apply IH. Qed.
#[local] Hint Resolve return_all_calm : calm.

Lemma close_calm a u : calm v u -> calms v id (ioxd__conn_close a u).
Proof.
  intros H. unfold ioxd__conn_close. calm_step. calm_step. eapply (calms_bind v id id).
  - destruct (decide _); [auto with calm|]. destruct (decide _); [|done]. apply upd_calm. destruct (decide _); [calm_pure|done].
  - intros u1 H1. cbn in H1. calm_step. calm_step. apply unref_calm. calm_pure.
Qed.
#[local] Hint Resolve close_calm : calm.

Lemma main_end_calm a u : calm v u -> calms v id (conn_main_end a u).
Proof. intros H. unfold conn_main_end. repeat calm_step. Qed.

Lemma pause_tail_calm a u : calm v u -> calms v snd (pause_tail a u).
Proof.
  intros H. unfold pause_tail. calm_step. eapply (calms_bind v id snd); [destruct (decide _); [apply upd_calm; calm_pure|done]|]. intros u1 H1. cbn in H1. repeat calm_step.
Qed.

Lemma recv_resume_calm a u : calm v u -> calms v snd (ioxd__conn_recv_resume a u).
Proof. intros H. unfold ioxd__conn_recv_resume. repeat calm_step. Qed.
#[local] Hint Resolve main_end_calm pause_tail_calm recv_resume_calm : calm.

Lemma run_co_calm acts : forall a u, calm v u -> calms v id (run_co acts a u).
Proof.
  induction acts as [|[] acts IH]; intros a u H; cbn [run_co]; [auto with calm|..]; repeat first [apply IH; assumption | calm_step].
Qed.
#[local] Hint Resolve run_co_calm : calm.

Lemma pause_wait_calm k a u : calm v u -> calms v id (pause_wait k a u).
Proof. intros H. unfold pause_wait. repeat calm_step. Qed.
#[local] Hint Resolve pause_wait_calm : calm.

Lemma coro_resume_calm a u : calm v u -> calms v id (coro_resume a u).
Proof. intros H. unfold coro_resume. apply calms_get. intros c. destruct (decide _); [apply pause_wait_calm|apply run_co_calm]; calm_pure. Qed.
#[local] Hint Resolve coro_resume_calm : calm.

Lemma wake_calm a u : calm v u -> calms v id (wake_reader a u).
Proof. intros H. unfold wake_reader. apply calms_get. intros c. destruct (waiter c); [apply coro_resume_calm; calm_pure|done]. Qed.
#[local] Hint Resolve wake_calm : calm.

Lemma on_recv_tail_calm a more u : calm v u -> calms v id (on_recv_tail a more u).
Proof. intros H. unfold on_recv_tail. repeat calm_step. Qed.
#[local] Hint Resolve on_recv_tail_calm : calm.

Lemma on_recv_calm base a result more buf u : calm v u -> calms v id (ioxd__conn_on_recv base a result more buf u).
Proof. intros H. unfold ioxd__conn_on_recv. repeat calm_step. Qed.

Lemma recv_drain_calm a u : calm v u -> calms v id (ioxd__conn_recv_drain a u).
Proof. intros H. unfold ioxd__conn_recv_drain. repeat calm_step. Qed.

Lemma drain_starved_calm fuel : forall u, calm v u -> calms v id (drain_starved fuel u).
Proof.
  induction fuel as [|fuel IH]; intros u H; cbn [drain_starved]; [done|]. destruct (rev (starved u)) as [|a l]; [done|].
  eapply (calms_bind v id id); [apply recv_drain_calm; calm_pure|exact (fun u1 H1 => IH u1 H1)].
Qed.

Lemma arm_all_calm l : forall u, calm v u -> calms v id (arm_all l u).
Proof. induction l as [|a l IH]; intros u H; cbn [arm_all]; [done|]. calm_step. by apply IH. Qed.

Lemma rearm_starved_calm u : calm v u -> calms v id (rearm_starved u).
Proof.
  intros H. unfold rearm_starved. destruct (_ || _); [cbn; calm_pure|]. eapply (calms_bind v id id); [apply arm_all_calm; calm_pure|]. intros u1 H1. cbn in *. calm_pure.
Qed.
End Calm.

Lemma calms_some {X} v (to : X -> worker) o x : calms v to o -> o = Some x -> calm v (to x).
Proof. by intros H ->. Qed.

(** The steps a turn makes on the connections. *)
Lemma step_calm base e v v' : step base e v = Some v' -> match e with EvOp _ | EvRecv _ _ _ _ | EvRearm | EvCancelEach => calm v v' | _ => True end.
Proof.
  destruct e; intros H; try exact I; cbn [step] in H.
  - by apply (calms_some v id _ _ (rearm_starved_calm v v (calm_refl v))).
  - apply (calms_some v id (w ← deliver base a result more buf v; ioxd__conn_on_recv base a result more buf w)); [|done].
    eapply (calms_bind v id id); [|intros u Hu; by apply on_recv_calm]. unfold deliver. eapply (calms_bind v id id); [by apply upd_calm|]. intros u Hu. cbn in Hu |- *. destruct buf; [calm_pure|done].
  - by apply (calms_some v id _ _ (coro_resume_calm v a v (calm_refl v))).
  - by injection H as <-.
Qed.

Lemma run_ready_ok n : forall v, length (ready v) = n -> Inv None v ->
  exists v', run_ready n v = Some v' /\ Inv None v' /\ ready v' = [] /\ draining v' = draining v /\ live v' <= live v.
Proof.
  induction n as [|n IH]; intros v Hn Hi.
  - destruct (ready v) eqn:E; [|done]. exists v. cbn [run_ready]. rewrite E. by split_and!.
  - destruct (step_ok (fun x => x) EvReady v Hi I) as (v1 & Hs & Hi1). cbn [step] in Hs. cbn [run_ready]. destruct (ready v) as [|a r] eqn:E; [done|]. rewrite Hs. cbn [mbind option_bind].
    unfold run_ready1 in Hs. rewrite E in Hs.
    pose proof (calms_some _ id _ _ (coro_resume_calm _ a (set_ready v r (accepted v)) (calm_refl _)) Hs) as (C1 & C2 & C3). cbn in C1, C2, C3.
    destruct (IH v1) as (v' & -> & Hi' & Hr & Hd & Hl); [rewrite C1; cbn in Hn; lia|done|]. exists v'. split_and!; [done..|congruence|lia].
Qed.

Lemma begin_drain_says v : Inv None v -> exists v', Conn.begin_drain v = Some v' /\ Inv None v' /\ draining v' = true /\ live v' <= live v /\ ready v' = ready v.
Proof.
  intros Hi. destruct (begin_drain_ok v Hi) as (v' & E & Hi' & _ & Hd). exists v'. split_and!; try done; unfold Conn.begin_drain in E;
    by pose proof (calms_some _ id _ _ (drain_starved_calm _ (length (starved v)) (stage (set_drain v true (cancel_each v)) SQ_CANCEL_ANY) (calm_refl _)) E) as (C1 & C2 & C3).
Qed.

(** ** The listeners *)

Section Listeners.
Context (base : Z -> Z) (time : nat -> Z).

(** One accept of a listener is in flight just when it is not stalled; one that is, is to be retried within a second
    of a reading of the clock. In the drain none is armed again. *)
Definition listener_ok (dr : bool) (n : nat) (l : listener) : Prop :=
  pending l <= 1 /\ (dr = true -> stalled l = true) /\
  (dr = false -> pending l = (if stalled l then 0 else 1) /\ (stalled l = true -> exists k, k < n /\ retry_at l = (seconds (time k) + 1)%Z)).

(** The listener whose last completion is being handled, if any, has nothing in flight. *)
Record pinv_at (o : option nat) (p : proactor) : Prop := {
  pv_conn : Inv None (w p);
  pv_listeners i l : listeners p !! i = Some l -> if decide (o = Some i) then pending l = 0 else listener_ok (draining (w p)) (reads p) l
}.
Definition pinv : proactor -> Prop := pinv_at None.

(** What a step leaves as it was. *)
Record kept (p p' : proactor) : Prop := {
  kp_length : length (listeners p') = length (listeners p);
  kp_slots : file_slots p' = file_slots p /\ deadline p' = deadline p /\ failed p' = failed p /\ stop p' = stop p /\ cancels p' = cancels p;
  kp_drain : draining (w p') = draining (w p);
  kp_reads : reads p <= reads p';
  kp_live : draining (w p) = true -> live (w p') <= live (w p);
  kp_pending i l l' : draining (w p) = true -> listeners p !! i = Some l -> listeners p' !! i = Some l' -> pending l' <= pending l
}.

Lemma pending_after (ls : list listener) i l l' j lj lj' : ls !! i = Some l -> pending l' <= pending l -> ls !! j = Some lj -> <[i := l']> ls !! j = Some lj' -> pending lj' <= pending lj.
Proof.
  intros Hi Hp Hj Hj'. destruct (decide (j = i)) as [->|Hne]; [|rewrite list_lookup_insert_ne in Hj' by done; by simplify_eq].
  rewrite list_lookup_insert_eq in Hj' by (by eapply lookup_lt_Some). by simplify_eq.
Qed.

#[local] Instance kept_preorder : PreOrder kept.
Proof.
  split; [split; try done; intros; by simplify_eq|]. intros p1 p2 p3 [A1 A2 A3 A4 A5 A6] [B1 B2 B3 B4 B5 B6]. split; [congruence|intuition congruence|congruence|lia| |].
  - intros H. rewrite A3 in B5. specialize (A5 H). specialize (B5 H). lia.
  - intros i l l3 H H1 H3. destruct (lookup_lt_is_Some_2 (listeners p2) i) as [l2 H2]; [rewrite A1; by eapply lookup_lt_Some|]. rewrite A3 in B6. specialize (A6 i l l2 H H1 H2). specialize (B6 i l2 l3 H H2 H3). lia.
Qed.

Lemma listener_ok_more dr n n' l : listener_ok dr n l -> n <= n' -> listener_ok dr n' l.
Proof. intros (H1 & H2 & H3) Hn. split_and!; [done..|]. intros Hd. destruct (H3 Hd) as [H4 H5]. split; [done|]. intros Hs. destruct (H5 Hs) as (k & ? & ?). exists k. split; [lia|done]. Qed.

Lemma upd_listener_some i f p l : listeners p !! i = Some l -> upd_listener i f p = Some (set_listeners p (<[i := f l]> (listeners p))).
Proof. intros H. unfold upd_listener. by rewrite H. Qed.

(** Putting a listener right puts them all right. *)
Lemma pinv_put o i l l' p n : pinv_at o p -> o = None \/ o = Some i -> listeners p !! i = Some l -> reads p <= n -> listener_ok (draining (w p)) n l' ->
  pinv (set_listeners (set_reads p n) (<[i := l']> (listeners p))).
Proof.
  intros [Hc Hl] Ho Hi Hn Hok. split; [done|]. cbn. intros j lj Hj. rewrite decide_False by done. destruct (decide (j = i)) as [->|Hne].
  - rewrite list_lookup_insert_eq in Hj by (by eapply lookup_lt_Some). by injection Hj as <-.
  - rewrite list_lookup_insert_ne in Hj by done. specialize (Hl j lj Hj). rewrite decide_False in Hl by (destruct Ho; congruence). by eapply listener_ok_more.
Qed.

Lemma set_reads_same p : set_reads p (reads p) = p.
Proof. by destruct p. Qed.

(** A listener left stalled: with no fewer connections than there were, and to be retried later than now. *)
Definition held_off (p : proactor) (now : Z) (l : listener) : Prop := stalled_live l <= live (w p) /\ (now < retry_at l)%Z.

Lemma stall_accept_ok o i p l : pinv_at o p -> o = None \/ o = Some i -> listeners p !! i = Some l -> (draining (w p) = false -> pending l = 0) -> pending l <= 1 ->
  exists p' l', stall_accept time i p = Some p' /\ pinv p' /\ kept p p' /\ w p' = w p /\ listeners p' = <[i := l']> (listeners p) /\ stalled l' = true /\ stalled_live l' = live (w p) /\
    retry_at l' = (seconds (time (reads p)) + 1)%Z /\ reads p' = S (reads p).
Proof.
  intros Hp Ho Hl H0 H1. unfold stall_accept, now_ms. rewrite (upd_listener_some _ _ _ l) by done. eexists _, _. split; [reflexivity|].
  split_and!; try done; [|split; cbn; try done; [by rewrite length_insert|lia|intros j lj lj' _; by apply (pending_after _ i l)]].
  apply (pinv_put o i l _ p (S (reads p))); [done..|lia|]. split_and!; cbn; [done..|]. intros Hd. split; [by apply H0|]. intros _. exists (reads p). split; [lia|done].
Qed.

Lemma arm_accept_ok o i p l : pinv_at o p -> o = None \/ o = Some i -> listeners p !! i = Some l -> (draining (w p) = false -> pending l = 0) -> pending l <= 1 ->
  exists p' l', arm_accept time i p = Some p' /\ pinv p' /\ kept p p' /\ w p' = w p /\ listeners p' = <[i := l']> (listeners p) /\
    (if accept_room p then stalled l' = false /\ pending l' = 1 else stalled l' = true /\ stalled_live l' = live (w p) /\ retry_at l' = (seconds (time (reads p)) + 1)%Z).
Proof.
  intros Hp Ho Hl H0 H1. unfold arm_accept. destruct (accept_room p) eqn:Er; cbn [negb].
  - assert (Hd : draining (w p) = false) by (unfold accept_room in Er; by destruct (draining (w p))). rewrite (upd_listener_some _ _ _ l) by done. eexists _, _. split; [reflexivity|].
    split_and!; try done; [|split; cbn; try done; [by rewrite length_insert|congruence]|cbn; rewrite H0 by done; done].
    rewrite <- (set_reads_same p) at 1. apply (pinv_put o i l); [done..|]. rewrite Hd. split_and!; cbn; [rewrite H0 by done; lia|done|]. intros _. rewrite H0 by done. done.
  - destruct (stall_accept_ok o i p l Hp Ho Hl H0 H1) as (p' & l' & E & H2 & H3 & H4 & H5 & H6 & H7 & H8 & _). exists p', l'. by split_and!.
Qed.

Lemma note_accept_error_ok o i p l : pinv_at o p -> listeners p !! i = Some l ->
  exists p' l', note_accept_error time i p = Some p' /\ pinv_at o p' /\ kept p p' /\ w p' = w p /\ listeners p' = <[i := l']> (listeners p) /\ pending l' = pending l.
Proof.
  intros [Hc Hl] Hi. unfold note_accept_error, now_ms. cbn zeta. cbn [listeners set_reads]. rewrite Hi. cbn [mbind option_bind].
  assert (Hput : forall x y ln, pinv_at o (set_lines (set_listeners (set_reads p (S (reads p))) (<[i := set_log l x y]> (listeners p))) ln) /\ kept p (set_lines (set_listeners (set_reads p (S (reads p))) (<[i := set_log l x y]> (listeners p))) ln)).
  { intros x y ln. split; [split; [done|]|split; cbn; try done; [by rewrite length_insert|lia|intros j lj lj' _; by apply (pending_after _ i l)]]. cbn. intros j lj Hj. destruct (decide (j = i)) as [->|Hne].
    - rewrite list_lookup_insert_eq in Hj by (by eapply lookup_lt_Some). injection Hj as <-. specialize (Hl i l Hi). destruct (decide _); [done|]. apply (listener_ok_more _ (reads p)); [done|lia].
    - rewrite list_lookup_insert_ne in Hj by done. specialize (Hl j lj Hj). destruct (decide _); [done|]. apply (listener_ok_more _ (reads p)); [done|lia]. }
  destruct (_ <? _)%Z; rewrite (upd_listener_some _ _ _ l) by done; cbn [mbind option_bind]; eexists _, _; (split; [reflexivity|]); (split; [|split; [|split; [done|split; [reflexivity|done]]]]); [apply (Hput _ _ (lines p))..|apply Hput|apply Hput].
Qed.

(** ** Completions *)

Definition take_legal (c : completion) (p : proactor) : Prop :=
  match c with
  | TAG_OP a => legal (EvOp a) (w p)
  | TAG_RECV a result more buf => legal (EvRecv a result more buf) (w p)
  | TAG_ACCEPT i _ _ fresh prog => (exists l, listeners p !! i = Some l /\ 0 < pending l) /\ conns (w p) !! fresh = None
  | _ => True
  end.

Fixpoint batch_legal (cs : list completion) (p : proactor) : Prop :=
  match cs with [] => True | c :: cs => take_legal c p /\ forall p', dispatch base time c p = Some p' -> batch_legal cs p' end.

(** Another worker under the same listeners. *)
Lemma pinv_set_w o p v : pinv_at o p -> Inv None v -> draining v = draining (w p) -> pinv_at o (set_w p v).
Proof. intros [Hc Hl] Hi Hd. split; [done|]. cbn. intros j l Hj. rewrite Hd. by apply Hl. Qed.

Lemma kept_set_w p v : draining v = draining (w p) -> (draining (w p) = true -> live v <= live (w p)) -> kept p (set_w p v).
Proof. split; try done. intros i l l' _ H1 H2. cbn in H2. by simplify_eq. Qed.

Lemma accept_conn_ok fresh result c prog v : Inv None v -> conns v !! fresh = None -> exists v', Conn.on_accept fresh result c prog v = Some v' /\ Inv None v' /\ draining v' = draining v /\ (draining v = true -> live v' = live v).
Proof.
  intros Hi Hf. destruct (step_accept fresh result c prog v Hi Hf) as (v' & E & Hi'). exists v'. split; [done|]. split; [done|]. clear -E. unfold Conn.on_accept in E.
  destruct (0 <=? result)%Z; cbn [andb] in E; [|injection E as <-; by split]. destruct (draining v) eqn:Ed.
  - injection E as <-. by cbn.
  - destruct (ioxd__conn_new fresh result c prog v) as [a v1] eqn:En. split; [|done].
    assert (Hd : draining v1 = false) by (unfold ioxd__conn_new in En; destruct (conn_free v); injection En as <- <-; done).
    unfold ioxd__conn_arm_recv in E. destruct (conns v1 !! a); cbn in E; [|done]. injection E as <-. by cbn.
Qed.

Lemma on_accept_ok o i result (more : bool) fresh prog p l : pinv_at o p -> o = (if more then None else Some i) -> listeners p !! i = Some l -> conns (w p) !! fresh = None ->
  exists p', on_accept time i result more fresh prog p = Some p' /\ pinv p' /\ kept p p'.
Proof.
  intros Hp Ho Hl Hf. unfold on_accept. rewrite Hl. cbn [mbind option_bind]. destruct (accept_conn_ok fresh result (l_certs l) prog (w p) (pv_conn _ _ Hp) Hf) as (v & -> & Hi & Hd & Hlv). cbn [mbind option_bind].
  set (p1 := set_w p v). assert (Hp1 : pinv_at o p1) by by apply pinv_set_w. assert (Hk1 : kept p p1) by (apply kept_set_w; [done|intros H; by rewrite Hlv]).
  assert (Hnote : exists p2 l2, (if (result <? 0)%Z && negb (draining (w p1) && (result =? - ECANCELED)%Z) then note_accept_error time i p1 else Some p1) = Some p2 /\ pinv_at o p2 /\ kept p p2 /\ listeners p2 !! i = Some l2 /\ pending l2 = pending l).
  { destruct (_ && _).
    - destruct (note_accept_error_ok o i p1 l Hp1 Hl) as (p2 & l2 & E & Hp2 & Hk2 & _ & Hl2 & Hpe). exists p2, l2. split_and!; [done|done|by etransitivity| |done].
      rewrite Hl2. apply list_lookup_insert_eq. by eapply lookup_lt_Some.
    - exists p1, l. by split_and!. }
  destruct Hnote as (p2 & l2 & -> & Hp2 & Hk2 & Hl2 & Hpe). cbn [mbind option_bind]. destruct more; [exists p2; subst o; by split_and!|]. subst o.
  pose proof (pv_listeners _ _ Hp i l Hl) as H0. rewrite decide_True in H0 by done.
  destruct (_ && _).
  - destruct (stall_accept_ok (Some i) i p2 l2 Hp2) as (p3 & l3 & -> & Hp3 & Hk3 & _); [by right|done|by rewrite Hpe|lia|]. exists p3. split_and!; [done|done|by etransitivity].
  - destruct (arm_accept_ok (Some i) i p2 l2 Hp2) as (p3 & l3 & -> & Hp3 & Hk3 & _); [by right|done|by rewrite Hpe|lia|]. exists p3. split_and!; [done|done|by etransitivity].
Qed.

Lemma conn_event_ok e p : pinv p -> legal e (w p) -> match e with EvOp _ | EvRecv _ _ _ _ | EvCancelEach => True | _ => False end ->
  exists p', (v ← step base e (w p); Some (set_w p v)) = Some p' /\ pinv p' /\ kept p p'.
Proof.
  intros Hp Hl He. destruct (step_ok base e (w p) (pv_conn _ _ Hp) Hl) as (v & E & Hi). rewrite E. cbn [mbind option_bind]. exists (set_w p v). split; [done|].
  assert (Hc : calm (w p) v) by (pose proof (step_calm base e _ _ E) as Hc; by destruct e). destruct Hc as (C1 & C2 & C3). split; [by apply pinv_set_w|by apply kept_set_w].
Qed.

Lemma dispatch_ok c p : pinv p -> take_legal c p -> exists p', dispatch base time c p = Some p' /\ pinv p' /\ kept p p'.
Proof.
  intros Hp Hl. destruct c as [|a|a result more buf|i result more fresh prog|res|res]; cbn [dispatch take_legal] in *.
  - exists p. by split_and!.
  - by apply conn_event_ok.
  - by apply conn_event_ok.
  - destruct Hl as [(l & Hi & Hpe) Hf]. destruct more; cbn [mbind option_bind].
    + by apply (on_accept_ok None i result true fresh prog p l).
    + rewrite (upd_listener_some _ _ _ l) by done. cbn [mbind option_bind]. set (p1 := set_listeners p _).
      assert (Hp1 : pinv_at (Some i) p1).
      { destruct Hp as [Hc Hls]. split; [done|]. cbn. intros j lj Hj. destruct (decide (j = i)) as [->|Hne].
        - rewrite list_lookup_insert_eq in Hj by (by eapply lookup_lt_Some). injection Hj as <-. rewrite decide_True by done. cbn. specialize (Hls i l Hi). rewrite decide_False in Hls by done. destruct Hls as (? & _). lia.
        - rewrite list_lookup_insert_ne in Hj by done. rewrite decide_False by congruence. specialize (Hls j lj Hj). by rewrite decide_False in Hls. }
      assert (Hk1 : kept p p1) by (split; cbn; try done; [by rewrite length_insert|intros j lj lj' _; apply (pending_after _ i l); [done|cbn; lia]]).
      destruct (on_accept_ok (Some i) i result false fresh prog p1 (set_pending l (pending l - 1)) Hp1 eq_refl) as (p' & -> & Hp' & Hk'); [apply list_lookup_insert_eq; by eapply lookup_lt_Some|done|].
      exists p'. split_and!; [done|done|by etransitivity].
  - exists p. by split_and!.
  - destruct (_ && _); [by apply conn_event_ok|exists p; by split_and!].
Qed.

Lemma dispatch_all_ok cs : forall p, pinv p -> batch_legal cs p -> exists p', dispatch_all base time cs p = Some p' /\ pinv p' /\ kept p p'.
Proof.
  induction cs as [|c cs IH]; intros p Hp Hl; cbn [dispatch_all batch_legal] in *; [exists p; by split_and!|]. destruct Hl as [H1 H2].
  destruct (dispatch_ok c p Hp H1) as (p1 & E & Hp1 & Hk1). rewrite E. cbn [mbind option_bind]. destruct (IH p1 Hp1 (H2 _ E)) as (p' & -> & Hp' & Hk'). exists p'. split_and!; [done|done|by etransitivity].
Qed.

(** ** The sweep over stalled listeners *)

Context (Htime : forall i j, i <= j -> (time i <= time j)%Z).

Lemma seconds_mono a b : (a <= b)%Z -> (seconds a <= seconds b)%Z.
Proof. intros H. unfold seconds. apply Z.div_le_mono; lia. Qed.

Lemma rearm_loop_ok ns now : forall p, pinv p -> (now <= seconds (time (reads p)))%Z -> List.NoDup ns -> (forall i, In i ns -> i < length (listeners p)) ->
  exists p', rearm_loop time ns now p = Some p' /\ pinv p' /\ kept p p' /\ w p' = w p /\
    (forall i, ~ In i ns -> listeners p' !! i = listeners p !! i) /\ (forall i l, In i ns -> listeners p' !! i = Some l -> stalled l = true -> held_off p' now l).
Proof.
  induction ns as [|i ns IH]; intros p Hp Hnow Hnd Hin; cbn [rearm_loop]; [exists p; by split_and!|]. apply List.NoDup_cons_iff in Hnd as [Hnot Hnd].
  destruct (lookup_lt_is_Some_2 (listeners p) i (Hin i ltac:(by left))) as [l Hl]. rewrite Hl. cbn [mbind option_bind]. pose proof (pv_listeners _ _ Hp i l Hl) as Hok. rewrite decide_False in Hok by done. destruct Hok as (O1 & O2 & O3).
  assert (Hone : exists p1 l1, (if stalled l && ((live (w p) <? stalled_live l) || (retry_at l <=? now)%Z) then arm_accept time i p else Some p) = Some p1 /\ pinv p1 /\ kept p p1 /\ w p1 = w p /\
    listeners p1 = <[i := l1]> (listeners p) /\ (stalled l1 = true -> held_off p1 now l1)).
  { destruct (stalled l) eqn:Est; cbn [andb]; [|exists p, l; rewrite list_insert_id by done; split_and!; [done..|congruence]].
    destruct ((live (w p) <? stalled_live l) || (retry_at l <=? now)%Z) eqn:Edue.
    - destruct (arm_accept_ok None i p l Hp ltac:(by left) Hl ltac:(intros Hd; by apply O3) O1) as (p1 & l1 & -> & Hp1 & Hk1 & Hw1 & Hl1 & Hc). exists p1, l1. split_and!; try done.
      destruct (accept_room p); [intros Hs; destruct Hc; congruence|]. destruct Hc as (_ & C2 & C3). intros _. split; [rewrite Hw1, C2; lia|rewrite C3; lia].
    - apply orb_false_iff in Edue as [E1 E2]. exists p, l. rewrite list_insert_id by done. split_and!; try done. intros _. apply Nat.ltb_ge in E1. apply Z.leb_gt in E2. by split. }
  destruct Hone as (p1 & l1 & -> & Hp1 & Hk1 & Hw1 & Hl1 & Hheld). cbn [mbind option_bind].
  destruct (IH p1 Hp1) as (p' & -> & Hp' & Hk' & Hw' & Hsame & Hrest).
  { pose proof (kp_reads _ _ Hk1). etransitivity; [exact Hnow|]. apply seconds_mono, Htime. lia. }
  { done. } { intros j Hj. rewrite (kp_length _ _ Hk1). apply Hin. by right. }
  exists p'. split_and!; [done|done|by etransitivity|congruence| |].
  - intros j Hj. rewrite Hsame by (intros ?; apply Hj; by right). rewrite Hl1. apply list_lookup_insert_ne. intros ->. apply Hj. by left.
  - intros j lj [<-|Hj] Hlj Hs; [|by apply (Hrest j)]. rewrite Hsame, Hl1, list_lookup_insert_eq in Hlj; [|by eapply lookup_lt_Some|done]. injection Hlj as <-. destruct (Hheld Hs) as [H1 H2]. split; [by rewrite Hw'|done].
Qed.

Lemma rearm_stalled_ok p : pinv p -> exists p', rearm_stalled time p = Some p' /\ pinv p' /\ kept p p' /\ w p' = w p /\
  forall i l, listeners p' !! i = Some l -> stalled l = true -> held_off p' (seconds (time (reads p))) l.
Proof.
  intros Hp. unfold rearm_stalled, now_ms. destruct (existsb stalled (listeners p)) eqn:Ex; cbn [negb].
  - set (p1 := set_reads p (S (reads p))). assert (Hp1 : pinv p1).
    { destruct Hp as [Hc Hl]. split; [done|]. intros j l Hj. specialize (Hl j l Hj). rewrite decide_False in * by done. apply (listener_ok_more _ (reads p)); [done|cbn; lia]. }
    destruct (rearm_loop_ok (seq 0 (length (listeners p1))) (seconds (time (reads p))) p1 Hp1) as (p' & E & Hp' & Hk' & Hw' & _ & Hall).
    + apply seconds_mono, Htime. cbn. lia.
    + apply seq_NoDup.
    + intros i Hi. apply in_seq in Hi. lia.
    + cbn [listeners set_reads] in E. exists p'. split_and!; [done|done| |done|].
      * etransitivity; [|exact Hk']. split; cbn; try done; [lia|intros i l l' _ H1 H2; by simplify_eq].
      * intros i l Hl Hs. apply (Hall i l); [|done..]. apply in_seq. split; [lia|]. cbn. pose proof (kp_length _ _ Hk') as E2. cbn in E2. rewrite <- E2. by eapply lookup_lt_Some.
  - exists p. split_and!; try done. intros i l Hl Hs. exfalso. assert (existsb stalled (listeners p) = true); [|congruence]. apply existsb_exists. exists l. split; [|done]. apply list_elem_of_In. by eapply list_elem_of_lookup_2.
Qed.

(** ** The drain *)

Lemma cancel_accepts_says ns : forall p, List.NoDup ns -> (forall i, In i ns -> i < length (listeners p)) ->
  exists p', cancel_accepts ns p = Some p' /\ w p' = w p /\ length (listeners p') = length (listeners p) /\ file_slots p' = file_slots p /\ failed p' = failed p /\ stop p' = stop p /\ reads p' = reads p /\
    (forall i, ~ In i ns -> listeners p' !! i = listeners p !! i) /\
    (forall i l, In i ns -> listeners p !! i = Some l -> listeners p' !! i = Some (set_stall l true (stalled_live l) (retry_at l)) /\ (stalled l = false -> In i (cancels p'))) /\
    (forall i, In i (cancels p) -> In i (cancels p')).
Proof.
  induction ns as [|i ns IH]; intros p Hnd Hin; cbn [cancel_accepts]; [exists p; by split_and!|]. apply List.NoDup_cons_iff in Hnd as [Hnot Hnd].
  destruct (lookup_lt_is_Some_2 (listeners p) i (Hin i ltac:(by left))) as [l Hl]. rewrite Hl. cbn [mbind option_bind]. set (p1 := if stalled l then p else _).
  assert (Hp1 : listeners p1 = listeners p /\ w p1 = w p /\ file_slots p1 = file_slots p /\ failed p1 = failed p /\ stop p1 = stop p /\ reads p1 = reads p /\ (forall j, In j (cancels p) -> In j (cancels p1)) /\ (stalled l = false -> In i (cancels p1))).
  { unfold p1. destruct (stalled l); cbn; split_and!; try done; [intros j Hj; apply in_or_app; by left|intros _; apply in_or_app; right; by left]. }
  destruct Hp1 as (E1 & E2 & E3 & E4 & E5 & E6 & E7 & E8). rewrite (upd_listener_some _ _ _ l) by (by rewrite E1). cbn [mbind option_bind].
  destruct (IH (set_listeners p1 (<[i := set_stall l true (stalled_live l) (retry_at l)]> (listeners p1))) Hnd) as (p' & -> & F1 & F2 & F3 & F4 & F5 & F6 & F7 & F8 & F9).
  { intros j Hj. cbn. rewrite length_insert, E1. apply Hin. by right. }
  cbn in F1, F2, F3, F4, F5, F6, F7, F8, F9. rewrite length_insert, E1 in F2. rewrite E1 in F7, F8. exists p'. split_and!; [done|congruence..| | |].
  - intros j Hj. rewrite F7 by (intros ?; apply Hj; by right). apply list_lookup_insert_ne. intros ->. apply Hj. by left.
  - intros j lj [<-|Hj] Hlj.
    + rewrite Hl in Hlj. injection Hlj as <-. rewrite F7 by done. rewrite list_lookup_insert_eq by (by eapply lookup_lt_Some). split; [done|]. intros Hs. by apply F9, E8.
    + apply F8; [done|]. rewrite list_lookup_insert_ne; [done|]. intros ->. done.
  - intros j Hj. by apply F9, E7.
Qed.

Lemma begin_drain_all p : pinv p -> draining (w p) = false ->
  exists p', begin_drain p = Some p' /\ pinv p' /\ draining (w p') = true /\ live (w p') <= live (w p) /\ length (listeners p') = length (listeners p) /\ failed p' = failed p /\ stop p' = stop p /\ reads p' = reads p /\
    (forall i l, listeners p !! i = Some l -> pending l = 1 -> In i (cancels p')).
Proof.
  intros [Hc Hl] Hd. unfold begin_drain. destruct (cancel_accepts_says (seq 0 (length (listeners p))) p (seq_NoDup _ _)) as (p1 & -> & F1 & F2 & F3 & F4 & F5 & F6 & F7 & F8 & F9); [intros i Hi; apply in_seq in Hi; lia|].
  cbn [mbind option_bind]. rewrite F1. destruct (begin_drain_says (w p) Hc) as (v & -> & Hi & Hdv & Hlv & _). cbn [mbind option_bind]. exists (set_w p1 v). cbn. split_and!; try done.
  - split; [done|]. cbn. intros i l Hil. rewrite decide_False by done. assert (Hlt : i < length (listeners p)) by (rewrite <- F2; by eapply lookup_lt_Some).
    destruct (lookup_lt_is_Some_2 (listeners p) i Hlt) as [l0 Hl0]. destruct (F8 i l0) as [E _]; [apply in_seq; lia|done|]. rewrite E in Hil. injection Hil as <-. specialize (Hl i l0 Hl0). rewrite decide_False in Hl by done.
    destruct Hl as (O1 & _). rewrite Hdv. split_and!; cbn; done.
  - intros i l Hil Hpe. apply (F8 i l); [apply in_seq; split; [lia|]; cbn; by eapply lookup_lt_Some|done|]. specialize (Hl i l Hil). rewrite decide_False in Hl by done. destruct Hl as (_ & _ & O3).
    destruct (O3 Hd) as [O4 _]. rewrite Hpe in O4. by destruct (stalled l).
Qed.

(** ** A turn *)

Lemma pinv_more p n : pinv p -> reads p <= n -> pinv (set_reads p n).
Proof. intros [Hc Hl] Hn. split; [done|]. cbn. intros i l Hi. specialize (Hl i l Hi). rewrite decide_False in * by done. by apply (listener_ok_more _ (reads p)). Qed.

Definition turn_legal (a : answers) (p : proactor) : Prop :=
  forall p1, turn_start time (stop_seen a) p = Some (false, p1) -> passes (enter_rc a) = true -> batch_legal (batch a) p1.

Record started (b : bool) (p : proactor) (leave : bool) (p' : proactor) : Prop := {
  sd_inv : pinv p';
  sd_same : failed p' = failed p /\ stop p' = stop p /\ length (listeners p') = length (listeners p) /\ reads p <= reads p';
  sd_drain : draining (w p') = (b || draining (w p));
  sd_draining : draining (w p) = true -> deadline p' = deadline p /\ live (w p') <= live (w p) /\ listeners p' = listeners p;
  sd_leave : if leave then draining (w p') = true /\ (live (w p') = 0 \/ exists k, k < reads p' /\ (deadline p' <= time k)%Z)
             else draining (w p') = true -> exists k, reads p <= k < reads p' /\ (time k < deadline p')%Z;
  sd_cancels i l : b = true -> draining (w p) = false -> listeners p !! i = Some l -> pending l = 1 -> In i (cancels p')
}.

Lemma ready_rearm_ok p : pinv p -> exists v, (v ← run_ready (length (ready (w p))) (w p); rearm_starved v) = Some v /\ Inv None v /\ draining v = draining (w p) /\ live v <= live (w p).
Proof.
  intros Hp. destruct (run_ready_ok (length (ready (w p))) (w p) eq_refl (pv_conn _ _ Hp)) as (v1 & -> & Hi1 & _ & Hd1 & Hl1). cbn [mbind option_bind].
  destruct (step_ok base EvRearm v1 Hi1 I) as (v2 & E & Hi2). cbn [step] in E. pose proof (step_calm base EvRearm v1 v2 E) as (C1 & C2 & C3). exists v2. split_and!; [done|done|congruence|lia].
Qed.

Lemma turn_start_ok b p : pinv p -> exists leave p', turn_start time b p = Some (leave, p') /\ started b p leave p'.
Proof.
  intros Hp. unfold turn_start, now_ms.
  assert (Hfirst : exists p1, (if b && negb (draining (w p)) then p0 ← begin_drain p; let '(ms, p0) := (time (reads p0), set_reads p0 (S (reads p0))) in Some (set_deadline p0 (ms + DRAIN_GRACE_MS)) else Some p) = Some p1 /\
    pinv p1 /\ failed p1 = failed p /\ stop p1 = stop p /\ length (listeners p1) = length (listeners p) /\ reads p <= reads p1 /\ draining (w p1) = (b || draining (w p)) /\ live (w p1) <= live (w p) /\
    (draining (w p) = true -> deadline p1 = deadline p /\ listeners p1 = listeners p) /\ (forall i l, b = true -> draining (w p) = false -> listeners p !! i = Some l -> pending l = 1 -> In i (cancels p1))).
  { destruct b; cbn [andb orb]; [|exists p; by split_and!]. destruct (draining (w p)) eqn:Ed; cbn [negb]; [exists p; by split_and!|].
    destruct (begin_drain_all p Hp Ed) as (p0 & -> & Hp0 & Hd0 & Hl0 & F1 & F2 & F3 & F4 & F5). cbn [mbind option_bind]. eexists. split; [reflexivity|]. cbn.
    split_and!; [|done..|lia|done|done|done|eauto]. apply (pinv_more p0 (S (reads p0))) in Hp0; [|lia]. destruct Hp0 as [H1 H2]. by split. }
  destruct Hfirst as (p1 & -> & Hp1 & F1 & F2 & F3 & F4 & F5 & F6 & F7 & F8). cbn [mbind option_bind].
  assert (Hgo : forall p2, pinv p2 -> w p2 = w p1 -> failed p2 = failed p1 -> stop p2 = stop p1 -> length (listeners p2) = length (listeners p1) -> reads p1 <= reads p2 -> deadline p2 = deadline p1 -> cancels p2 = cancels p1 -> listeners p2 = listeners p1 ->
    (draining (w p1) = true -> exists k, reads p <= k < reads p2 /\ (time k < deadline p2)%Z) ->
    exists leave p', (v ← run_ready (length (ready (w p2))) (w p2); v ← rearm_starved v; Some (false, set_w p2 v)) = Some (leave, p') /\ started b p leave p').
  { intros p2 Hp2 G1 G2 G3 G4 G5 G6 G7 G9 G8. destruct (ready_rearm_ok p2 Hp2) as (v & E & Hi & Hd & Hl). destruct (run_ready (length (ready (w p2))) (w p2)) as [v1|]; cbn [mbind option_bind] in *; [|done]. rewrite E. cbn [mbind option_bind].
    exists false, (set_w p2 v). split; [done|]. split; cbn; [by apply pinv_set_w|split_and!; [congruence..|lia]|by rewrite Hd, G1|intros H; destruct (F7 H) as [E1 E2]; split_and!; [congruence|rewrite G1 in Hl; lia|congruence]| |intros i l H1 H2 H3 H4; rewrite G7; by apply (F8 i l)].
    rewrite Hd, G1. exact G8. }
  destruct (draining (w p1)) eqn:Ed1; [|apply Hgo; try done; lia]. destruct (live (w p1) =? 0) eqn:El.
  - apply Nat.eqb_eq in El. exists true, p1. split; [done|]. split; cbn; [done|by split_and!|congruence|intros H; destruct (F7 H) as [E1 E2]; split_and!; [done|lia|done]|split; [done|by left]|done].
  - set (p2 := set_reads p1 (S (reads p1))). assert (Hp2 : pinv p2) by (apply pinv_more; [done|lia]). destruct (deadline p1 <=? time (reads p1))%Z eqn:Et.
    + apply Z.leb_le in Et. exists true, p2. cbn [deadline set_reads p2]. rewrite (proj2 (Z.leb_le _ _) Et). split; [done|]. split; cbn; [done|split_and!; [done..|lia]|congruence|intros H; destruct (F7 H) as [E1 E2]; split_and!; [done|lia|done]|split; [done|right; exists (reads p1); split; [lia|done]]|done].
    + cbn [deadline set_reads p2]. rewrite Et. apply Z.leb_gt in Et. apply Hgo; cbn; try done; [lia|]. intros _. exists (reads p1). split; [lia|done].
Qed.

(** Why the loop is left: the drain is over, its grace is, or an enter failed for good and every worker is to stop. *)
Definition left_for (a : answers) (p : proactor) : Prop :=
  draining (w p) = true /\ (live (w p) = 0 \/ exists k, k < reads p /\ (deadline p <= time k)%Z) \/
  passes (enter_rc a) = false /\ failed p = enter_rc a /\ stop p = true.

Record turned (a : answers) (p : proactor) (on : bool) (p' : proactor) : Prop := {
  td_inv : pinv p';
  td_reads : reads p <= reads p' /\ length (listeners p') = length (listeners p);
  td_drain : draining (w p') = (stop_seen a || draining (w p));
  td_draining : draining (w p) = true -> deadline p' = deadline p /\ live (w p') <= live (w p) /\
    forall i l l', listeners p !! i = Some l -> listeners p' !! i = Some l' -> pending l' <= pending l;
  td_on : if on then failed p' = failed p /\ stop p' = stop p /\
               (draining (w p') = true -> exists k, reads p <= k < reads p' /\ (time k < deadline p')%Z) /\
               (forall i l, listeners p' !! i = Some l -> stalled l = true -> exists k, reads p <= k /\ held_off p' (seconds (time k)) l)
          else left_for a p';
  td_cancels i l : stop_seen a = true -> draining (w p) = false -> listeners p !! i = Some l -> pending l = 1 -> In i (cancels p')
}.

Lemma turn_ok a p : pinv p -> turn_legal a p -> exists on p', turn base time a p = Some (on, p') /\ turned a p on p'.
Proof.
  intros Hp Hlegal. unfold turn. destruct (turn_start_ok (stop_seen a) p Hp) as (leave & p1 & E1 & [S1 (S2 & S3 & S4 & S5) S6 S7 S8 S9]). rewrite E1. cbn [mbind option_bind].
  assert (Hpend : draining (w p) = true -> forall i l l', listeners p !! i = Some l -> listeners p1 !! i = Some l' -> pending l' <= pending l) by (intros H i l l' H1 H2; destruct (S7 H) as (_ & _ & E); rewrite E in H2; by simplify_eq).
  destruct leave.
  { exists false, p1. split; [done|]. split; [done|by split|done|intros H; destruct (S7 H) as (? & ? & ?); split_and!; [done..|by apply Hpend]|left; exact S8|exact S9]. }
  destruct (passes (enter_rc a)) eqn:Epass; cbn [negb].
  2: { exists false, (set_failed p1 (enter_rc a)). split; [done|]. split; cbn; [destruct S1 as [H1 H2]; by split|by split|done|intros H; destruct (S7 H) as (? & ? & ?); split_and!; [done..|by apply Hpend]|right; by split_and!|exact S9]. }
  destruct (dispatch_all_ok (batch a) p1 S1 (Hlegal p1 E1 Epass)) as (p2 & -> & Hp2 & Hk2). cbn [mbind option_bind]. destruct (rearm_stalled_ok p2 Hp2) as (p3 & -> & Hp3 & Hk3 & _ & Hheld). cbn [mbind option_bind].
  assert (Hk : kept p1 p3) by (by etransitivity). pose proof Hk as [K1 (K2 & K3 & K4 & K5 & K6) K7 K8 K9 K10]. exists true, p3. split; [done|]. split.
  - done.
  - split; [lia|congruence].
  - congruence.
  - intros H. destruct (S7 H) as (D1 & D2 & D3). assert (draining (w p1) = true) as Hd1 by (rewrite S6, H; apply orb_true_r). specialize (K9 Hd1). split_and!; [congruence|lia|]. intros i l l' H1 H3. apply (K10 i l l'); [done|by rewrite D3|done].
  - split_and!; [congruence..| |].
    + rewrite K7, K3. intros H. destruct (S8 H) as (k & Hk1 & Hk3'). exists k. split; [lia|done].
    + intros i l Hi Hs. exists (reads p2). split; [pose proof (kp_reads _ _ Hk2); lia|by apply (Hheld i)].
  - intros i l H1 H3 H4 H5. rewrite K6. by apply (S9 i l).
Qed.

(** ** Turn after turn *)

Lemma turns_ok env p : pinv p -> (forall m q, turns base time m env p = Some (true, q) -> turn_legal (env m) q) ->
  forall n, exists on q, turns base time n env p = Some (on, q) /\ pinv q /\ reads p <= reads q.
Proof.
  intros Hp Hl. induction n as [|n IH]; cbn [turns]; [by exists true, p|]. destruct IH as (on & q & E & Hq & Hr). rewrite E. cbn [mbind option_bind]. destruct on; [|by exists false, q].
  destruct (turn_ok (env n) q Hq (Hl n q E)) as (on & q' & -> & [T1 [T2 _] _ _ _ _]). exists on, q'. split_and!; [done|done|lia].
Qed.

(** A drain that the clock outruns: every turn of it reads the clock before its deadline. *)
Lemma drain_ends env p m : pinv p -> (forall n q, turns base time n env p = Some (true, q) -> turn_legal (env n) q) ->
  forall f n q, m - reads q <= f -> turns base time n env p = Some (true, q) -> draining (w q) = true -> (deadline q <= time m)%Z -> exists n' q', turns base time n' env p = Some (false, q').
Proof.
  intros Hp Hl. induction f as [|f IH]; intros n q Hf E Hd Ht; (destruct (turns_ok env p Hp Hl n) as (on & q0 & E0 & Hq & _); rewrite E in E0; injection E0 as <- <-);
    destruct (turn_ok (env n) q Hq (Hl n q E)) as (on & q' & Et & [T1 [T2 _] T3 T4 T5 _]); (assert (En : turns base time (S n) env p = Some (on, q')) by (cbn [turns]; rewrite E; done));
    (destruct on; [|by exists (S n), q']); destruct T5 as (_ & _ & T5 & _); destruct (T4 Hd) as (T6 & _ & _); (assert (Hd' : draining (w q') = true) by (rewrite T3, Hd; apply orb_true_r));
    destruct (T5 Hd') as (k & Hk & Hlt); (assert (k < m) by (destruct (Nat.le_gt_cases m k) as [Hmk|]; [apply Htime in Hmk; lia|done])).
  - lia.
  - apply (IH (S n) q'); [lia|done|done|by rewrite T6].
Qed.

(** The turn that leaves. *)
Lemma turns_left env p n q : turns base time n env p = Some (false, q) -> exists m q1, turns base time m env p = Some (true, q1) /\ turn base time (env m) q1 = Some (false, q).
Proof.
  induction n as [|n IH]; cbn [turns]; [done|]. destruct (turns base time n env p) as [[[] q1]|] eqn:E; cbn [mbind option_bind]; [|intros [= <-]; by apply IH|done]. intros Ht. by exists n, q1.
Qed.

(** ** A worker that starts *)

Lemma arm_listeners_says ns : forall p, accept_room p = true -> List.NoDup ns -> (forall i, In i ns -> i < length (listeners p)) ->
  exists p', arm_listeners time ns p = Some p' /\ w p' = w p /\ reads p' = reads p /\ length (listeners p') = length (listeners p) /\
    forall i l, listeners p' !! i = Some l -> exists l0, listeners p !! i = Some l0 /\ (~ In i ns -> l = l0) /\ (In i ns -> pending l = S (pending l0) /\ stalled l = false).
Proof.
  induction ns as [|i ns IH]; intros p Hr Hnd Hin; cbn [arm_listeners]; [exists p; split_and!; [done..|]; intros i l Hl; exists l; by split_and!|]. apply List.NoDup_cons_iff in Hnd as [Hnot Hnd].
  destruct (lookup_lt_is_Some_2 (listeners p) i (Hin i ltac:(by left))) as [l0 Hl0]. unfold arm_accept. rewrite Hr. cbn [negb]. rewrite (upd_listener_some _ _ _ l0) by done. cbn [mbind option_bind].
  match goal with |- context [arm_listeners time ns ?q] => set (p1 := q) end. destruct (IH p1) as (p' & -> & E1 & E2 & E3 & E4); [done|done|intros j Hj; cbn; rewrite length_insert; apply Hin; by right|].
  exists p'. cbn in E1, E2, E3. rewrite length_insert in E3. split_and!; [done..|]. intros j l Hl. destruct (E4 j l Hl) as (l1 & H1 & H2 & H3). cbn in H1. destruct (decide (j = i)) as [->|Hne].
  - rewrite list_lookup_insert_eq in H1 by (by eapply lookup_lt_Some). injection H1 as <-. exists l0. split; [done|]. split; [intros H; exfalso; apply H; by left|]. intros _. rewrite (H2 Hnot). by cbn.
  - rewrite list_lookup_insert_ne in H1 by done. exists l1. split; [done|]. split; [intros H; apply H2; intros ?; apply H; by right|]. intros [?|H]; [congruence|by apply H3].
Qed.

Lemma listen_all_ok idle certs_ limit registered : exists p, listen_all time idle certs_ limit registered = Some p /\ pinv p /\ length (listeners p) = length certs_ /\ draining (w p) = false.
Proof.
  unfold listen_all. match goal with |- context [arm_listeners time _ ?q] => set (p0 := q) end.
  assert (Hlen : length (listeners p0) = length certs_) by (cbn; by rewrite length_map). assert (Hroom : accept_room p0 = true) by (unfold accept_room; cbn; destruct (_ =? 0) eqn:E; [done|]; apply Nat.eqb_neq in E; by apply Nat.ltb_lt; lia).
  destruct (arm_listeners_says (seq 0 (length certs_)) p0 Hroom (seq_NoDup _ _)) as (p & -> & E1 & E2 & E3 & E4); [intros i Hi; apply in_seq in Hi; lia|]. exists p. rewrite E3, E1. split_and!; try done.
  split; [rewrite E1; apply inv_init|]. intros i l Hl. rewrite decide_False by done. destruct (E4 i l Hl) as (l0 & H1 & _ & H2). pose proof (lookup_lt_Some _ _ _ H1) as Hlt. destruct H2 as [H2 H3]; [apply in_seq; lia|].
  cbn in H1. rewrite list_lookup_fmap in H1. destruct (certs_ !! i) as [c|]; [|done]. injection H1 as <-. cbn in H2. rewrite E1. unfold listener_ok. rewrite H2, H3. split_and!; [lia|done|]. by intros _.
Qed.
End Listeners.

(** C30. Back-pressure. Whatever a worker meets, its turns run to the end: every listener has one accept in flight, or is
    stalled with none and due to be retried within a second; behind a turn, a listener still stalled has no fewer
    connections to wait for than when it stalled and its retry lies ahead of the clock; the drain cancels by name each
    accept in flight, and from then on none is armed and no connection opened. *)
Theorem accepts_sound (base : Z -> Z) (time : nat -> Z) (idle : nat) (certs_ : list bool) (limit : option Z) (registered : bool) :
  (forall i j, i <= j -> (time i <= time j)%Z) ->
  exists p0, listen_all time idle certs_ limit registered = Some p0 /\
    forall env n, (forall m q, turns base time m env p0 = Some (true, q) -> turn_legal base time (env m) q) ->
    exists on p, turns base time n env p0 = Some (on, p) /\
      (forall i l, listeners p !! i = Some l -> pending l <= 1 /\ (draining (w p) = true -> stalled l = true) /\
         (draining (w p) = false -> pending l = (if stalled l then 0 else 1) /\ (stalled l = true -> exists k, k < reads p /\ retry_at l = (seconds (time k) + 1)%Z))) /\
      (on = true -> exists on' p', turn base time (env n) p = Some (on', p') /\
         (on' = true -> forall i l, listeners p' !! i = Some l -> stalled l = true -> exists k, reads p <= k /\ held_off p' (seconds (time k)) l) /\
         (stop_seen (env n) = true -> draining (w p) = false -> forall i l, listeners p !! i = Some l -> pending l = 1 -> In i (cancels p')) /\
         (draining (w p) = true -> live (w p') <= live (w p) /\ forall i l l', listeners p !! i = Some l -> listeners p' !! i = Some l' -> pending l' <= pending l)).
Proof.
  intros Htime. destruct (listen_all_ok time idle certs_ limit registered) as (p0 & E0 & Hp0 & _). exists p0. split; [done|]. intros env n Hl.
  destruct (turns_ok base time Htime env p0 Hp0 Hl n) as (on & p & E & Hp & _). exists on, p. split; [done|]. split.
  - intros i l Hi. pose proof (pv_listeners _ _ _ Hp i l Hi) as H. rewrite decide_False in H by done. exact H.
  - intros ->. destruct (turn_ok base time Htime (env n) p Hp (Hl n p E)) as (on' & p' & Et & [T1 T2 T3 T4 T5 T6]). exists on', p'. split; [done|]. split; [|split; [intros H1 H2 i l; by apply T6|]].
    + intros ->. apply T5.
    + intros H. destruct (T4 H) as (_ & H1 & H2). by split.
Qed.


(** ** The processor *)

(** The numbers of the processors that may be used, from [cpu] on. *)
Fixpoint cpus (allowed : list bool) (cpu : nat) : list nat :=
  match allowed with [] => [] | a :: allowed => if a then cpu :: cpus allowed (S cpu) else cpus allowed (S cpu) end.

Lemma pin_loop_says allowed : forall cpu seen target, seen <= target -> pin_loop allowed cpu seen target = cpus allowed cpu !! (target - seen).
Proof.
  induction allowed as [|[] allowed IH]; intros cpu seen target Hs; cbn [pin_loop cpus]; [done| |by apply IH]. destruct (Nat.eqb_spec seen target) as [->|Hne]; [by rewrite Nat.sub_diag|].
  rewrite IH by lia. replace (target - seen) with (S (target - S seen)) by lia. done.
Qed.

Lemma length_cpus allowed : forall cpu, length (cpus allowed cpu) = cpu_count allowed.
Proof. unfold cpu_count. induction allowed as [|[] allowed IH]; intros cpu; cbn [cpus List.filter id length]; [done|by rewrite IH|apply IH]. Qed.

(** Workers go round the processors they may use, whatever their numbers. *)
Lemma pin_to_says idx allowed : 0 < cpu_count allowed -> exists c, pin_to idx (Some allowed) = Some c /\ cpus allowed 0 !! (idx mod cpu_count allowed) = Some c.
Proof.
  intros Hc. unfold pin_to. destruct (Nat.eqb_spec (cpu_count allowed) 0); [lia|]. rewrite pin_loop_says by lia. rewrite Nat.sub_0_r. pose proof (Nat.mod_upper_bound idx (cpu_count allowed) ltac:(lia)).
  destruct (lookup_lt_is_Some_2 (cpus allowed 0) (idx mod cpu_count allowed)) as [c Hl]; [by rewrite length_cpus|]. by exists c.
Qed.

(** ** Inputs *)

(** The clock moves a tenth of a second between readings. *)
Definition tenths (n : nat) : Z := (100 * Z.of_nat n)%Z.
Definition quiet : answers := {| stop_seen := false; enter_rc := - ETIME; batch := [] |}.
Definition stopping : answers := {| stop_seen := true; enter_rc := - ETIME; batch := [] |}.

Definition shown (r : option (bool * proactor)) : option (bool * nat * list (bool * nat) * list (nat * Z)) :=
  match r with Some (on, p) => Some (on, live (w p), map (fun l => (stalled l, pending l)) (listeners p), lines p) | None => None end.

Definition a_worker : proactor := default {| w := init_worker 4; listeners := []; file_slots := 0; deadline := 0; failed := 0; stop := false; reads := 0; cancels := []; lines := [] |} (listen_all tenths 4 [false; true] (Some 1024%Z) true).

(** No descriptor is left: the listener stalls and one line is written; a second later it is armed again. *)
Definition short_of_files (n : nat) : answers :=
  match n with 0 => {| stop_seen := false; enter_rc := 1; batch := [TAG_ACCEPT 1 (- EMFILE) false 0 []] |} | _ => quiet end.

Example stalls : shown (turns (fun id => id) tenths 1 short_of_files a_worker) = Some (true, 0, [(false, 1); (true, 0)], [(1, 1%Z)]).
Proof. vm_compute. reflexivity. Qed.

Example still_stalled : shown (turns (fun id => id) tenths 7 short_of_files a_worker) = Some (true, 0, [(false, 1); (true, 0)], [(1, 1%Z)]).
Proof. vm_compute. reflexivity. Qed.

Example armed_again : shown (turns (fun id => id) tenths 12 short_of_files a_worker) = Some (true, 0, [(false, 1); (false, 1)], [(1, 1%Z)]).
Proof. vm_compute. reflexivity. Qed.

(** A handler that waits for what never comes: the grace period ends the drain. *)
Definition one_waits (n : nat) : answers :=
  match n with 0 => {| stop_seen := false; enter_rc := 1; batch := [TAG_ACCEPT 0 7 true 3 [Await]] |} | _ => stopping end.

Example waits : shown (turns (fun id => id) tenths 9 one_waits a_worker) = Some (true, 1, [(true, 1); (true, 1)], []).
Proof. vm_compute. reflexivity. Qed.

Example grace_over : shown (turns (fun id => id) tenths 11 one_waits a_worker) = Some (false, 1, [(true, 1); (true, 1)], []).
Proof. vm_compute. reflexivity. Qed.

Lemma tenths_mono i j : i <= j -> (tenths i <= tenths j)%Z.
Proof. unfold tenths. lia. Qed.

Lemma tenths_unbounded x : exists k, (x <= tenths k)%Z.
Proof. exists (Z.to_nat x). unfold tenths. lia. Qed.

Lemma accepts_sound_witness : exists p, turns (fun id => id) tenths 1 short_of_files a_worker = Some (true, p) /\ exists l k, listeners p !! 1 = Some l /\ k < reads p /\ retry_at l = (seconds (tenths k) + 1)%Z.
Proof.
  destruct (accepts_sound (fun id => id) tenths 4 [false; true] (Some 1024%Z) true tenths_mono) as (p0 & E0 & H). assert (p0 = a_worker) as -> by (unfold a_worker; rewrite E0; reflexivity).
  destruct (H short_of_files 1) as (on & p & E & Hp & _).
  { intros [|m] q E p1 Hs _; [|exact I]. injection E as <-. vm_compute in Hs. injection Hs as <-. split; [|intros; exact I]. split; [|reflexivity]. eexists. split; [reflexivity|]. cbn. lia. }
  assert (Hon : shown (Some (on, p)) = Some (true, 0, [(false, 1); (true, 0)], [(1, 1%Z)])) by (rewrite <- E; vm_compute; reflexivity). clear E0.
  assert (Hdr : match turns (fun id => id) tenths 1 short_of_files a_worker with Some (_, q) => draining (w q) | None => true end = false) by (vm_compute; reflexivity). rewrite E in Hdr.
  cbn in Hon. injection Hon as -> _ Hls _. destruct (listeners p) as [|l0 [|l1 [|]]] eqn:El; try discriminate. cbn in Hls. injection Hls as _ _ Hst _.
  exists p. split; [exact E|]. destruct (Hp 1 l1 eq_refl) as (_ & _ & H3). destruct (H3 Hdr) as [_ H4]. destruct (H4 Hst) as (k & Hk & Hr). exists l1, k. split; [rewrite El; reflexivity|]. split; [exact Hk|exact Hr].
Defined.

