(* ===== verification/Stores.v ===== *)
(** The stores of the file server (lib/http/static.c): opening and closing a directory, the slots and generations by
    which a thread finds its own table for a store, and the tables a close gives back. One block of the global mutex,
    or one use of a store by its thread, is one step. *)
From S2P Require Import Prelude.

#[local] Arguments Nat.ltb : simpl never.

Definition ROOTS : nat := 16.

(** [struct ioxd_static], as far as its life goes; [caches] are the tables of its threads, newest first. *)
Record ioxd_static := { dirfd : Z; slot : nat; gen : Z; caches : list nat }.

(** [g_taken], [g_gen], every thread's [tl], the stores and tables that are allocated - a table with the thread that made
    it - and the descriptors that are open. *)
Record system := {
  g_taken : list bool; g_gen : list Z;
  tl : gmap (nat * nat) (nat * Z);
  stores : gmap nat ioxd_static;
  tables : gmap nat nat;
  fds : list Z
}.

Definition set_slot (s : system) (i : nat) (b : bool) : system :=
  {| g_taken := <[i := b]> (g_taken s); g_gen := <[i := wrap32 (nth i (g_gen s) 0%Z + 1)]> (g_gen s); tl := tl s; stores := stores s; tables := tables s; fds := fds s |}.
Definition set_stores (s : system) (m : gmap nat ioxd_static) : system :=
  {| g_taken := g_taken s; g_gen := g_gen s; tl := tl s; stores := m; tables := tables s; fds := fds s |}.
Definition set_tables (s : system) (m : gmap nat nat) (t : gmap (nat * nat) (nat * Z)) : system :=
  {| g_taken := g_taken s; g_gen := g_gen s; tl := t; stores := stores s; tables := m; fds := fds s |}.
Definition set_fds (s : system) (l : list Z) : system :=
  {| g_taken := g_taken s; g_gen := g_gen s; tl := tl s; stores := stores s; tables := tables s; fds := l |}.

(** The first slot that is not taken. *)
Fixpoint free_slot (l : list bool) (i : nat) : option nat :=
  match l with [] => None | b :: l => if b then free_slot l (S i) else Some i end.

(** [cache_of]: [fresh] is the table the allocator gives, with its buckets, if it does. [None] is an access to memory that
    is not allocated. *)
Definition cache_of (thread a : nat) (fresh : option nat) (s : system) : option (option nat * system) :=
  st ← stores s !! a;
  match tl s !! (thread, slot st) with
  | Some (c, g) =>
      if (g =? gen st)%Z then Some (Some c, s)
      else match fresh with
           | None => Some (None, s)
           | Some c =>
               Some (Some c, set_tables (set_stores s (<[a := {| dirfd := dirfd st; slot := slot st; gen := gen st; caches := c :: caches st |}]> (stores s)))
                               (<[c := thread]> (tables s)) (<[(thread, slot st) := (c, gen st)]> (tl s)))
           end
  | None =>
      match fresh with
      | None => Some (None, s)
      | Some c =>
          Some (Some c, set_tables (set_stores s (<[a := {| dirfd := dirfd st; slot := slot st; gen := gen st; caches := c :: caches st |}]> (stores s)))
                          (<[c := thread]> (tables s)) (<[(thread, slot st) := (c, gen st)]> (tl s)))
      end
  end.

(** Every table of the list is freed once; a second time has no result. *)
Fixpoint free_caches (l : list nat) (m : gmap nat nat) : option (gmap nat nat) :=
  match l with [] => Some m | c :: l => _ ← m !! c; free_caches l (delete c m) end.

Definition ioxd_static_close (files : option nat) (s : system) : option system :=
  match files with
  | None => Some s
  | Some a =>
      st ← stores s !! a;
      let s := set_slot s (slot st) false in
      m ← free_caches (caches st) (tables s);
      let s := set_tables s m (tl s) in
      let s := if (0 <=? dirfd st)%Z then set_fds s (List.remove Z.eq_dec (dirfd st) (fds s)) else s in
      Some (set_stores s (delete a (stores s)))
  end.

(** What the system answers: the descriptor, the store, and whether its strings were copied. *)
Definition ioxd_static_open (fd : Z) (fresh : option nat) (copied : bool) (s : system) : option (option nat * system) :=
  if (fd <? 0)%Z then Some (None, s)
  else
    let s := set_fds s (fd :: fds s) in
    match free_slot (g_taken s) 0 with
    | None => Some (None, set_fds s (List.remove Z.eq_dec fd (fds s)))
    | Some i =>
        let s := set_slot s i true in
        let g := nth i (g_gen s) 0%Z in
        match fresh with
        | None => s ← ioxd_static_close None s; Some (None, s)
        | Some a =>
            let s := set_stores s (<[a := {| dirfd := fd; slot := i; gen := g; caches := [] |}]> (stores s)) in
            if negb copied then s ← ioxd_static_close (Some a) s; Some (None, s) else Some (Some a, s)
        end
    end.

(** ** Threads *)

Inductive event :=
| EOpen (fd : Z) (fresh : option nat) (copied : bool)
| EUse (thread a : nat) (fresh : option nat)
| EClose (a : nat).

Definition do_event (s : system) (e : event) : option system :=
  match e with
  | EOpen fd fresh copied => '(_, s) ← ioxd_static_open fd fresh copied s; Some s
  | EUse thread a fresh => '(_, s) ← cache_of thread a fresh s; Some s
  | EClose a => ioxd_static_close (Some a) s
  end.

Fixpoint run (es : list event) (s : system) : option system := match es with [] => Some s | e :: es => s ← do_event s e; run es s end.

(** The allocator and the kernel give what is not in use; a store is used and closed while it is open. *)
Definition legal (s : system) (e : event) : Prop :=
  match e with
  | EOpen fd fresh _ => ~ In fd (fds s) /\ forall a, fresh = Some a -> stores s !! a = None
  | EUse _ a fresh => is_Some (stores s !! a) /\ forall c, fresh = Some c -> tables s !! c = None
  | EClose a => is_Some (stores s !! a)
  end.

Fixpoint all_legal (es : list event) (s : system) : Prop :=
  match es with [] => True | e :: es => legal s e /\ forall s', do_event s e = Some s' -> all_legal es s' end.

Definition empty : system := {| g_taken := replicate ROOTS false; g_gen := replicate ROOTS 0%Z; tl := ∅; stores := ∅; tables := ∅; fds := [] |}.

(** ** What holds between the steps *)

(** [n] bounds how often a slot changed hands; [strict] says that no open failed for want of the store's own memory. *)
Record Inv (n : nat) (strict : bool) (s : system) : Prop := {
  v_len : length (g_taken s) = ROOTS /\ length (g_gen s) = ROOTS;
  v_gen i g : g_gen s !! i = Some g -> (0 <= g <= Z.of_nat n)%Z;
  v_store a st : stores s !! a = Some st -> g_taken s !! slot st = Some true /\ g_gen s !! slot st = Some (gen st) /\ (0 <= dirfd st)%Z /\ List.NoDup (caches st);
  v_slots a b sa sb : stores s !! a = Some sa -> stores s !! b = Some sb -> slot sa = slot sb -> a = b;
  v_tl t i c g : tl s !! (t, i) = Some (c, g) -> (exists g', g_gen s !! i = Some g' /\ (g <= g')%Z) /\
    forall a st, stores s !! a = Some st -> slot st = i -> gen st = g -> In c (caches st) /\ tables s !! c = Some t;
  v_caches a st c : stores s !! a = Some st -> In c (caches st) -> exists t, tables s !! c = Some t /\ tl s !! (t, slot st) = Some (c, gen st);
  v_tables c t : tables s !! c = Some t -> exists a st, stores s !! a = Some st /\ In c (caches st);
  v_apart a b sa sb c : stores s !! a = Some sa -> stores s !! b = Some sb -> In c (caches sa) -> In c (caches sb) -> a = b;
  v_fds : List.NoDup (fds s) /\ (forall a st, stores s !! a = Some st -> In (dirfd st) (fds s)) /\
    (forall a b sa sb, stores s !! a = Some sa -> stores s !! b = Some sb -> dirfd sa = dirfd sb -> a = b);
  v_strict : strict = true -> (forall f, In f (fds s) -> exists a st, stores s !! a = Some st /\ dirfd st = f) /\
    (forall i, g_taken s !! i = Some true -> exists a st, stores s !! a = Some st /\ slot st = i)
}.

Lemma inv_empty : Inv 0 true empty.
Proof.
  split; unfold empty; cbn [g_taken g_gen tl stores tables fds]; try (intros; by simplify_map_eq).
  - intros i g [-> _]%lookup_replicate. lia.
  - split; [constructor|]. split; intros; by simplify_map_eq.
  - intros _. split; [intros f []|]. intros i Hi. by apply lookup_replicate in Hi as [? _].
Qed.

Lemma inv_more n m b s : Inv n b s -> n <= m -> Inv m b s.
Proof. intros [] Hm. split; try done. intros i g Hi. specialize (v_gen0 i g Hi). lia. Qed.

Lemma free_slot_says l : forall i, match free_slot l i with Some j => i <= j /\ l !! (j - i) = Some false | None => forall k b, l !! k = Some b -> b = true end.
Proof.
  induction l as [|[] l IH]; intros i; cbn [free_slot]; [done| |split; [done|by rewrite Nat.sub_diag]]. specialize (IH (S i)). destruct (free_slot l (S i)) as [j|].
  - destruct IH as [H1 H2]. split; [lia|]. replace (j - i) with (S (j - S i)) by lia. done.
  - intros [|k] b H; [by injection H as <-|]. by apply (IH k).
Qed.

(** The generation of a slot moves on by one. *)
Lemma set_slot_gen n b s i v g : Inv n b s -> (Z.of_nat n + 1 < 2 ^ 32)%Z -> g_gen s !! i = Some g -> g_gen (set_slot s i v) = <[i := (g + 1)%Z]> (g_gen s).
Proof.
  intros Hi Hn Hg. cbn. rewrite (nth_lookup_Some _ _ _ _ Hg). pose proof (v_gen _ _ _ Hi i g Hg). unfold wrap32. by rewrite Z.mod_small by lia.
Qed.

(** *** A thread and its table *)

Lemma cache_of_known n b s t a fresh st c : Inv n b s -> stores s !! a = Some st -> tl s !! (t, slot st) = Some (c, gen st) -> cache_of t a fresh s = Some (Some c, s).
Proof. intros Hi Ha Ht. unfold cache_of. rewrite Ha. cbn [mbind option_bind]. by rewrite Ht, Z.eqb_refl. Qed.

(** A table made on first use. *)
Definition with_table (s : system) (t a : nat) (st : ioxd_static) (c : nat) : system :=
  set_tables (set_stores s (<[a := {| dirfd := dirfd st; slot := slot st; gen := gen st; caches := c :: caches st |}]> (stores s))) (<[c := t]> (tables s)) (<[(t, slot st) := (c, gen st)]> (tl s)).

Lemma cache_of_cases n b s t a fresh st : Inv n b s -> stores s !! a = Some st ->
  (exists c, tl s !! (t, slot st) = Some (c, gen st) /\ cache_of t a fresh s = Some (Some c, s)) \/
  (forall c, tl s !! (t, slot st) <> Some (c, gen st)) /\ cache_of t a fresh s = Some (match fresh with Some c => (Some c, with_table s t a st c) | None => (None, s) end).
Proof.
  intros Hi Ha. unfold cache_of. rewrite Ha. cbn [mbind option_bind]. destruct (tl s !! (t, slot st)) as [[c g]|] eqn:Et; [destruct (Z.eqb_spec g (gen st)) as [->|Hne]|].
  - left. by exists c.
  - right. split; [intros c' [= _ E]; done|by destruct fresh].
  - right. split; [done|by destruct fresh].
Qed.

Lemma with_table_inv n b s t a st c : Inv n b s -> stores s !! a = Some st -> tables s !! c = None -> (forall c', tl s !! (t, slot st) <> Some (c', gen st)) -> Inv n b (with_table s t a st c).
Proof.
  intros [V1 V2 V3 V4 V5 V6 V7 V8 V9 V10] Ha Hc Hnew. set (st' := {| dirfd := dirfd st; slot := slot st; gen := gen st; caches := c :: caches st |}).
  assert (Hfree : forall a0 st0, stores s !! a0 = Some st0 -> ~ In c (caches st0)) by (intros a0 st0 H0 Hin; destruct (V6 a0 st0 c H0 Hin) as (? & E & _); congruence).
  assert (Hst : forall a0 st0, <[a := st']> (stores s) !! a0 = Some st0 -> exists st1, stores s !! a0 = Some st1 /\ slot st0 = slot st1 /\ gen st0 = gen st1 /\ dirfd st0 = dirfd st1 /\ (a0 = a /\ st1 = st /\ caches st0 = c :: caches st \/ a0 <> a /\ st0 = st1)).
  { intros a0 st0 [[<- <-]|[N H0]]%lookup_insert_Some; [exists st; split_and!; try done; by left|exists st0; split_and!; try done; right; by split]. }
  assert (Htables : forall c0, c0 <> c -> <[c := t]> (tables s) !! c0 = tables s !! c0) by (intros; by apply lookup_insert_ne).
  split; cbn; fold st'.
  - done.
  - exact V2.
  - intros a0 st0 H0. destruct (Hst a0 st0 H0) as (st1 & H1 & E1 & E2 & E3 & Hcase). rewrite E1, E2, E3. destruct (V3 a0 st1 H1) as (? & ? & ? & ?). split_and!; try done.
    destruct Hcase as [(-> & -> & ->)|(_ & ->)]; [constructor; [by eapply Hfree|done]|done].
  - intros a0 b0 sa sb H0 H1. destruct (Hst a0 sa H0) as (? & ? & -> & _). destruct (Hst b0 sb H1) as (? & ? & -> & _). by eapply V4.
  - intros t0 i c0 g0 [[E1 E2]|[N H0]]%lookup_insert_Some.
    + injection E1 as <- <-. injection E2 as <- <-. split; [exists (gen st); split; [by apply (V3 a)|lia]|]. intros a0 st0 H0 Hs Hg. destruct (Hst a0 st0 H0) as (st1 & H1 & E1 & _ & _ & Hcase).
      assert (a0 = a) as -> by (apply (V4 a0 a st1 st); [done..|congruence]). destruct Hcase as [(_ & _ & ->)|[? _]]; [|done]. split; [by left|apply lookup_insert_eq].
    + destruct (V5 t0 i c0 g0 H0) as [H1 H2]. split; [done|]. intros a0 st0 H3 Hs Hg. destruct (Hst a0 st0 H3) as (st1 & H4 & E1 & E2 & _ & Hcase). destruct (H2 a0 st1 H4 ltac:(congruence) ltac:(congruence)) as [H5 H6].
      rewrite Htables by (intros ->; congruence). split; [|done]. destruct Hcase as [(-> & -> & ->)|(_ & ->)]; [by right|done].
  - intros a0 st0 c0 H0 Hin. destruct (Hst a0 st0 H0) as (st1 & H1 & E1 & E2 & _ & Hcase). rewrite E1, E2. destruct Hcase as [(-> & -> & E)|(Hne & ->)].
    + rewrite E in Hin. destruct Hin as [<-|Hin]; [exists t; split; [apply lookup_insert_eq|apply lookup_insert_eq]|]. destruct (V6 a st c0 Ha Hin) as (t0 & H2 & H3). exists t0. rewrite Htables by (intros ->; congruence). split; [done|].
      rewrite lookup_insert_ne; [done|]. intros [= ->]. by eapply Hnew.
    + destruct (V6 a0 st1 c0 H1 Hin) as (t0 & H2 & H3). exists t0. rewrite Htables by (intros ->; congruence). split; [done|]. rewrite lookup_insert_ne; [done|]. intros [= -> E]. apply Hne. by eapply V4.
  - intros c0 t0 [[<- <-]|[N H0]]%lookup_insert_Some; [exists a, st'; split; [apply lookup_insert_eq|by left]|]. destruct (V7 c0 t0 H0) as (a0 & st0 & H1 & H2). destruct (decide (a0 = a)) as [->|Hne].
    + rewrite Ha in H1. injection H1 as <-. exists a, st'. split; [apply lookup_insert_eq|by right].
    + exists a0, st0. split; [by rewrite lookup_insert_ne|done].
  - intros a0 b0 sa sb c0 H0 H1 I0 I1. destruct (Hst a0 sa H0) as (sa' & G0 & _ & _ & _ & C0). destruct (Hst b0 sb H1) as (sb' & G1 & _ & _ & _ & C1).
    destruct C0 as [(-> & -> & E0)|(N0 & ->)]; destruct C1 as [(-> & -> & E1)|(N1 & ->)]; [done| | |by apply (V8 a0 b0 sa' sb' c0)].
    + rewrite E0 in I0. destruct I0 as [<-|I0]; [destruct (Hfree b0 sb' G1 I1)|by apply (V8 a b0 st sb' c0)].
    + rewrite E1 in I1. destruct I1 as [<-|I1]; [destruct (Hfree a0 sa' G0 I0)|by apply (V8 a0 a sa' st c0)].
  - destruct V9 as (W1 & W2 & W3). split; [done|]. split.
    + intros a0 st0 H0. destruct (Hst a0 st0 H0) as (st1 & H1 & _ & _ & -> & _). by eapply W2.
    + intros a0 b0 sa sb H0 H1. destruct (Hst a0 sa H0) as (? & ? & _ & _ & -> & _). destruct (Hst b0 sb H1) as (? & ? & _ & _ & -> & _). by eapply W3.
  - intros E. destruct (V10 E) as [W1 W2]. split; [intros f Hf; destruct (W1 f Hf) as (a0 & st0 & H0 & H1)|intros i Hii; destruct (W2 i Hii) as (a0 & st0 & H0 & H1)];
      (destruct (decide (a0 = a)) as [->|Hne]; [rewrite Ha in H0; injection H0 as <-; exists a, st'; split; [apply lookup_insert_eq|exact H1]|exists a0, st0; split; [by rewrite lookup_insert_ne|done]]).
Qed.

(** *** The end of a store *)

Lemma free_caches_says l : forall m, List.NoDup l -> (forall c, In c l -> is_Some (m !! c)) ->
  exists m', free_caches l m = Some m' /\ (forall c, In c l -> m' !! c = None) /\ (forall c, ~ In c l -> m' !! c = m !! c).
Proof.
  induction l as [|c l IH]; intros m Hn Hm; [by exists m|]. inversion_clear Hn as [|? ? Hc Hl]. destruct (Hm c (or_introl eq_refl)) as [t Ht]. cbn [free_caches]. rewrite Ht. cbn [mbind option_bind].
  destruct (IH (delete c m) Hl) as (m' & E & H1 & H2); [intros c' H'; rewrite lookup_delete_ne by (intros ->; done); apply Hm; by right|]. exists m'. split; [exact E|]. split.
  - intros c' [<-|H']; [rewrite H2 by done; apply lookup_delete_eq|by apply H1].
  - intros c' H'. rewrite H2 by (intros ?; apply H'; by right). apply lookup_delete_ne. intros ->. apply H'. by left.
Qed.

(** The system once a store has gone. *)
Definition without (s : system) (a : nat) (st : ioxd_static) (m : gmap nat nat) : system :=
  {| g_taken := <[slot st := false]> (g_taken s); g_gen := <[slot st := (gen st + 1)%Z]> (g_gen s); tl := tl s; stores := delete a (stores s); tables := m; fds := List.remove Z.eq_dec (dirfd st) (fds s) |}.

Lemma close_says n b s a st : Inv n b s -> (Z.of_nat n + 1 < 2 ^ 32)%Z -> stores s !! a = Some st ->
  exists m, ioxd_static_close (Some a) s = Some (without s a st m) /\ (forall c, In c (caches st) -> m !! c = None) /\ (forall c, ~ In c (caches st) -> m !! c = tables s !! c).
Proof.
  intros Hi Hn Ha. destruct (v_store _ _ _ Hi a st Ha) as (_ & Hg & Hd & Hnd).
  destruct (free_caches_says (caches st) (tables s) Hnd) as (m & Em & H1 & H2); [intros c Hc; destruct (v_caches _ _ _ Hi a st c Ha Hc) as (t & -> & _); eauto|].
  exists m. split; [|by split]. unfold ioxd_static_close. rewrite Ha. cbn [mbind option_bind]. cbn [tables set_slot]. rewrite Em. rewrite (proj2 (Z.leb_le _ _) Hd).
  pose proof (set_slot_gen n b s (slot st) false _ Hi Hn Hg) as E. cbn in E. unfold set_stores, set_fds, set_tables, set_slot. cbn. by rewrite E.
Qed.

Lemma nodup_remove (f : Z) l : List.NoDup l -> List.NoDup (List.remove Z.eq_dec f l).
Proof.
  induction 1 as [|x l Hx Hl IH]; cbn; [constructor|]. destruct (Z.eq_dec f x); [done|]. constructor; [by intros [? _]%in_remove|done].
Qed.

Lemma without_inv n b s a st m : Inv n b s -> stores s !! a = Some st ->
  (forall c, In c (caches st) -> m !! c = None) -> (forall c, ~ In c (caches st) -> m !! c = tables s !! c) -> Inv (S n) b (without s a st m).
Proof.
  intros [V1 V2 V3 V4 V5 V6 V7 V8 V9 V10] Ha M1 M2. destruct (V3 a st Ha) as (Ht & Hg & Hd & Hnd).
  assert (Hslot : forall a0 st0, a0 <> a -> stores s !! a0 = Some st0 -> slot st <> slot st0) by (intros a0 st0 N H0 E; apply N; by eapply V4).
  assert (Hother : forall a0 st0 c, a0 <> a -> stores s !! a0 = Some st0 -> In c (caches st0) -> m !! c = tables s !! c) by (intros a0 st0 c N H0 Hin; apply M2; intros ?; apply N; by apply (V8 a0 a st0 st c)).
  split; cbn.
  - by rewrite !length_insert.
  - intros i g [(<- & <- & _)|[_ H]]%list_lookup_insert_Some; [pose proof (V2 _ _ Hg)|pose proof (V2 _ _ H)]; lia.
  - intros a0 st0 [N H0]%lookup_delete_Some. destruct (V3 a0 st0 H0) as (? & ? & ? & ?). rewrite !list_lookup_insert_ne by (by apply (Hslot a0)). done.
  - intros a0 b0 sa sb [N0 H0]%lookup_delete_Some [N1 H1]%lookup_delete_Some. by eapply V4.
  - intros t i c g H. destruct (V5 t i c g H) as [(g' & H1 & H2) H3]. split.
    + destruct (decide (slot st = i)) as [<-|N]; [exists (gen st + 1)%Z; rewrite list_lookup_insert_eq by (by eapply lookup_lt_Some); rewrite Hg in H1; injection H1 as ->; split; [done|lia]|exists g'; by rewrite list_lookup_insert_ne].
    + intros a0 st0 [N H0]%lookup_delete_Some E1 E2. destruct (H3 a0 st0 H0 E1 E2) as [Hin Htab]. split; [done|]. by rewrite (Hother a0 st0) by done.
  - intros a0 st0 c [N H0]%lookup_delete_Some Hin. destruct (V6 a0 st0 c H0 Hin) as (t & H1 & H2). exists t. by rewrite (Hother a0 st0) by done.
  - intros c t Hc. destruct (in_dec Nat.eq_dec c (caches st)) as [Hin|Hin]; [rewrite M1 in Hc by done; done|]. rewrite M2 in Hc by done. destruct (V7 c t Hc) as (a0 & st0 & H0 & H1).
    exists a0, st0. rewrite lookup_delete_ne; [done|]. intros <-. rewrite Ha in H0. by injection H0 as <-.
  - intros a0 b0 sa sb c [N0 H0]%lookup_delete_Some [N1 H1]%lookup_delete_Some. by eapply V8.
  - destruct V9 as (W1 & W2 & W3). split_and!; [by apply nodup_remove| |].
    + intros a0 st0 [N H0]%lookup_delete_Some. apply in_in_remove; [|by apply (W2 a0)]. intros E. apply N. by eapply W3.
    + intros a0 b0 sa sb [N0 H0]%lookup_delete_Some [N1 H1]%lookup_delete_Some. by eapply W3.
  - intros E. destruct (V10 E) as [W1 W2]. split.
    + intros f [Hf Nf]%in_remove. destruct (W1 f Hf) as (a0 & st0 & H0 & H1). exists a0, st0. rewrite lookup_delete_ne; [done|]. intros <-. rewrite Ha in H0. injection H0 as <-. done.
    + intros i [(_ & ? & _)|[N Hi]]%list_lookup_insert_Some; [done|]. destruct (W2 i Hi) as (a0 & st0 & H0 & H1). exists a0, st0. rewrite lookup_delete_ne; [done|]. intros <-. rewrite Ha in H0. injection H0 as <-. done.
Qed.

(** *** A store opened *)

(** A slot taken, for a directory [fd]; then the store in it. *)
Definition taking (s : system) (i : nat) (g : Z) (fd : Z) : system :=
  {| g_taken := <[i := true]> (g_taken s); g_gen := <[i := (g + 1)%Z]> (g_gen s); tl := tl s; stores := stores s; tables := tables s; fds := fd :: fds s |}.
Definition opened (s : system) (i : nat) (g : Z) (fd : Z) (a : nat) : system :=
  set_stores (taking s i g fd) (<[a := {| dirfd := fd; slot := i; gen := (g + 1)%Z; caches := [] |}]> (stores s)).

Lemma taken_inv n b s i g fd : Inv n b s -> g_taken s !! i = Some false -> g_gen s !! i = Some g -> ~ In fd (fds s) -> Inv (S n) false (taking s i g fd).
Proof.
  intros [V1 V2 V3 V4 V5 V6 V7 V8 V9 V10] Ht Hg Hfd.
  assert (Hslot : forall a0 st0, stores s !! a0 = Some st0 -> i <> slot st0) by (intros a0 st0 H0 ->; destruct (V3 a0 st0 H0) as (? & _); congruence).
  split; cbn; try done.
  - by rewrite !length_insert.
  - intros j g' [(<- & <- & _)|[_ H]]%list_lookup_insert_Some; [pose proof (V2 _ _ Hg)|pose proof (V2 _ _ H)]; lia.
  - intros a0 st0 H0. rewrite !list_lookup_insert_ne by (by apply (Hslot a0)). by apply (V3 a0).
  - intros t j c g0 H. destruct (V5 t j c g0 H) as [(g' & H1 & H2) H3]. split; [|done].
    destruct (decide (i = j)) as [<-|N]; [exists (g + 1)%Z; rewrite list_lookup_insert_eq by (by eapply lookup_lt_Some); rewrite Hg in H1; injection H1 as ->; split; [done|lia]|exists g'; by rewrite list_lookup_insert_ne].
  - destruct V9 as (W1 & W2 & W3). split_and!; [by constructor| |done]. intros a0 st0 H0. right. by apply (W2 a0).
Qed.

Lemma opened_inv n b s i g fd a : Inv n b s -> g_taken s !! i = Some false -> g_gen s !! i = Some g -> ~ In fd (fds s) -> (0 <= fd)%Z -> stores s !! a = None -> Inv (S n) b (opened s i g fd a).
Proof.
  intros Hi Ht Hg Hfd H0fd Ha. pose proof (taken_inv _ _ _ _ _ _ Hi Ht Hg Hfd) as [V1 V2 V3 V4 V5 V6 V7 V8 V9 _]. destruct Hi as [_ _ U3 _ U5 _ _ _ U9 U10]. cbn in *.
  set (st := {| dirfd := fd; slot := i; gen := (g + 1)%Z; caches := [] |}).
  assert (Hslot : forall a0 st0, stores s !! a0 = Some st0 -> slot st0 <> i) by (intros a0 st0 H0 E; destruct (U3 a0 st0 H0) as (? & _); congruence).
  assert (Hdir : forall a0 st0, stores s !! a0 = Some st0 -> dirfd st0 <> fd) by (intros a0 st0 H0 E; apply Hfd; rewrite <- E; by apply (proj1 (proj2 U9) a0)).
  assert (Hne : forall a0 st0, stores s !! a0 = Some st0 -> a0 <> a) by congruence.
  split; cbn; fold st; try done.
  - intros a0 st0 [[<- <-]|[N H0]]%lookup_insert_Some; [|by apply (V3 a0)]. cbn. rewrite !list_lookup_insert_eq by (by eapply lookup_lt_Some). split_and!; try done. constructor.
  - intros a0 b0 sa sb [[<- <-]|[N0 H0]]%lookup_insert_Some [[<- <-]|[N1 H1]]%lookup_insert_Some E; [done|by destruct (Hslot b0 sb H1)|by destruct (Hslot a0 sa H0)|by eapply V4].
  - intros t j c g0 H. destruct (V5 t j c g0 H) as [H1 H2]. split; [done|]. intros a0 st0 [[<- <-]|[N0 H0]]%lookup_insert_Some E1 E2; [|by apply (H2 a0)].
    exfalso. cbn in E1, E2. subst j g0. destruct (U5 t i c (g + 1)%Z H) as [(g' & G1 & G2) _]. rewrite Hg in G1. injection G1 as <-. lia.
  - intros a0 st0 c [[<- <-]|[N0 H0]]%lookup_insert_Some Hin; [done|]. by apply (V6 a0).
  - intros c t Hc. destruct (V7 c t Hc) as (a0 & st0 & H0 & H1). exists a0, st0. rewrite lookup_insert_ne; [done|]. intros <-. congruence.
  - intros a0 b0 sa sb c [[<- <-]|[N0 H0]]%lookup_insert_Some [[<- <-]|[N1 H1]]%lookup_insert_Some I0 I1; [done..|]. by eapply V8.
  - destruct V9 as (W1 & W2 & W3). split_and!; [done| |].
    + intros a0 st0 [[<- <-]|[N0 H0]]%lookup_insert_Some; [by left|by apply (W2 a0)].
    + intros a0 b0 sa sb [[<- <-]|[N0 H0]]%lookup_insert_Some [[<- <-]|[N1 H1]]%lookup_insert_Some E; [done|by destruct (Hdir b0 sb H1)|by destruct (Hdir a0 sa H0)|by eapply W3].
  - intros E. destruct (U10 E) as [W1 W2]. split.
    + intros f [<-|Hf]; [exists a, st; split; [apply lookup_insert_eq|done]|]. destruct (W1 f Hf) as (a0 & st0 & H0 & H1). exists a0, st0. rewrite lookup_insert_ne; [done|]. intros <-. congruence.
    + intros j [(<- & _)|[_ Hj]]%list_lookup_insert_Some; [exists a, st; split; [apply lookup_insert_eq|done]|]. destruct (W2 j Hj) as (a0 & st0 & H0 & H1). exists a0, st0. rewrite lookup_insert_ne; [done|]. intros <-. congruence.
Qed.

(** Every branch of opening a store. *)
Lemma open_says n b s fd fresh copied : Inv n b s -> (Z.of_nat n + 2 < 2 ^ 32)%Z -> legal s (EOpen fd fresh copied) ->
  exists r s', ioxd_static_open fd fresh copied s = Some (r, s') /\ Inv (2 + n) (b && bool_decide (is_Some fresh)) s' /\
    forall a, r = Some a -> copied = true /\ exists st, stores s' = <[a := st]> (stores s) /\ dirfd st = fd /\ caches st = [].
Proof.
  intros Hi Hn [Hfd Hfresh]. assert (Hweak : forall m s', Inv m b s' -> m <= 2 + n -> Inv (2 + n) (b && bool_decide (is_Some fresh)) s').
  { intros m s' H Hm. apply (inv_more _ (2 + n)) in H; [|done]. destruct H as [V1 V2 V3 V4 V5 V6 V7 V8 V9 V10]. split; try done. by intros [E _]%andb_prop; apply V10. }
  unfold ioxd_static_open. destruct (Z.ltb_spec fd 0) as [|H0]; [exists None, s; split_and!; try done; apply (Hweak n); [done|lia]|].
  pose proof (free_slot_says (g_taken s) 0) as Hfree. cbn [g_taken set_fds]. destruct (free_slot (g_taken s) 0) as [i|].
  2: { exists None, s. split_and!; try done; [|apply (Hweak n); [done|lia]]. do 2 f_equal. destruct s. unfold set_fds. cbn. destruct (Z.eq_dec fd fd); [|done]. by rewrite notin_remove. }
  destruct Hfree as [_ Ht]. rewrite Nat.sub_0_r in Ht. destruct (lookup_lt_is_Some_2 (g_gen s) i) as [g Hg]; [destruct (v_len _ _ _ Hi) as [L1 L2]; rewrite L2, <- L1; by eapply lookup_lt_Some|].
  assert (E1 : set_slot (set_fds s (fd :: fds s)) i true = taking s i g fd).
  { pose proof (set_slot_gen _ _ _ i true _ Hi ltac:(lia) Hg) as E. cbn in E. unfold set_slot, set_fds, taking. cbn. by rewrite E. }
  rewrite E1. assert (E2 : nth i (g_gen (taking s i g fd)) 0%Z = (g + 1)%Z) by (cbn; apply nth_lookup_Some; apply list_lookup_insert_eq; by eapply lookup_lt_Some).
  rewrite E2. destruct fresh as [a|]; cbn [mbind option_bind ioxd_static_close].
  2: { exists None, (taking s i g fd). split_and!; try done. rewrite andb_false_r. apply (inv_more (S n)); [by apply taken_inv with b|lia]. }
  fold (opened s i g fd a). pose proof (opened_inv n b s i g fd a Hi Ht Hg Hfd H0 (Hfresh a eq_refl)) as Ho. destruct copied; cbn [negb].
  - exists (Some a), (opened s i g fd a). split_and!; [done|apply (Hweak (S n)); [done|lia]|]. intros a' [= <-]. split; [done|]. by eexists.
  - destruct (close_says (S n) b _ a _ Ho ltac:(lia) ltac:(apply lookup_insert_eq)) as (m & Ec & M1 & M2). unfold ioxd_static_close in Ec. change (set_stores (taking s i g fd) _) with (opened s i g fd a). unfold ioxd_static_close. rewrite Ec. cbn [mbind option_bind].
    eexists None, _. split_and!; [done|apply (Hweak (S (S n))); [apply (without_inv (S n)); [done|apply lookup_insert_eq|done..]|lia]|done].
Qed.

Lemma use_says n b s t a fresh st : Inv n b s -> stores s !! a = Some st -> (forall c, fresh = Some c -> tables s !! c = None) ->
  exists r s', cache_of t a fresh s = Some (r, s') /\ Inv n b s' /\
    forall c, r = Some c -> tables s' !! c = Some t /\ (exists st', stores s' !! a = Some st' /\ In c (caches st')) /\ forall fresh', cache_of t a fresh' s' = Some (Some c, s').
Proof.
  intros Hi Ha Hc. destruct (cache_of_cases n b s t a fresh st Hi Ha) as [(c & Et & E)|[Hnew E]].
  - exists (Some c), s. split_and!; [done..|]. intros c' [= <-]. destruct (proj2 (v_tl _ _ _ Hi _ _ _ _ Et) a st Ha eq_refl eq_refl) as [H1 H2]. split_and!; [done|by exists st|].
    intros fresh'. by apply (cache_of_known n b _ _ _ _ st).
  - destruct fresh as [c|]; [|by exists None, s]. exists (Some c), (with_table s t a st c). pose proof (with_table_inv n b s t a st c Hi Ha (Hc c eq_refl) Hnew) as Hi'. split_and!; [done..|].
    intros c' [= <-]. split_and!; [apply lookup_insert_eq|eexists; split; [apply lookup_insert_eq|by left]|].
    intros fresh'. eapply cache_of_known; [exact Hi'|apply lookup_insert_eq|]. cbn. apply lookup_insert_eq.
Qed.

(** *** Any history *)

Definition served (e : event) : bool := match e with EOpen _ fresh _ => bool_decide (is_Some fresh) | _ => true end.

Lemma step_inv n b s e : Inv n b s -> (Z.of_nat n + 2 < 2 ^ 32)%Z -> legal s e -> exists s', do_event s e = Some s' /\ Inv (2 + n) (b && served e) s'.
Proof.
  intros Hi Hn Hl. destruct e as [fd fresh copied|t a fresh|a]; cbn [do_event served].
  - destruct (open_says n b s fd fresh copied Hi Hn Hl) as (r & s' & -> & H & _). by exists s'.
  - destruct Hl as [[st Ha] Hc]. destruct (use_says n b s t a fresh st Hi Ha Hc) as (r & s' & -> & H & _). exists s'. split; [done|]. rewrite andb_true_r. apply (inv_more n); [done|lia].
  - destruct Hl as [st Ha]. destruct (close_says n b s a st Hi ltac:(lia) Ha) as (m & -> & M1 & M2). eexists. split; [done|]. rewrite andb_true_r. apply (inv_more (S n)); [by apply without_inv|lia].
Qed.

Lemma run_inv es : forall n b s, Inv n b s -> (Z.of_nat n + 2 * Z.of_nat (length es) < 2 ^ 32)%Z -> all_legal es s ->
  exists s', run es s = Some s' /\ Inv (2 * length es + n) (b && forallb served es) s'.
Proof.
  induction es as [|e es IH]; intros n b s Hi Hn Hl; [exists s; by rewrite andb_true_r|]. destruct Hl as [H1 H2]. cbn [length] in Hn.
  destruct (step_inv n b s e Hi ltac:(lia) H1) as (s1 & E & Hi1). destruct (IH _ _ _ Hi1 ltac:(lia) (H2 s1 E)) as (s2 & E2 & Hi2). exists s2. cbn [run forallb length]. rewrite E. split; [done|].
  rewrite andb_assoc. by replace (2 * S (length es) + n) with (2 * length es + (2 + n)) by lia.
Qed.

(** C34. The stores keep to themselves: over any history of less than 2^31 steps in which the allocator and the kernel give
    what is not in use and a store is used and closed only while open, no step reads or frees memory that is not
    allocated; open stores have slots and descriptors of their own; a thread that asks for its table of an open store gets
    one that is allocated, is its own and is kept in that store - never one of a store that had the slot before - and gets
    the same the next time, unless the allocator had none; every table in memory is in exactly one open store, so with all
    stores closed none is left; and, as long as no open failed for want of the store's own memory, the open descriptors
    and the taken slots are exactly those of the open stores. *)
Theorem stores_sound es (Hlegal : all_legal es empty) (Hshort : (2 * Z.of_nat (length es) < 2 ^ 32)%Z) :
  exists s, run es empty = Some s /\
    (forall a b sa sb, stores s !! a = Some sa -> stores s !! b = Some sb -> a <> b -> slot sa <> slot sb /\ dirfd sa <> dirfd sb) /\
    (forall t a fresh, legal s (EUse t a fresh) -> exists r s', cache_of t a fresh s = Some (r, s') /\
      (r = None -> fresh = None) /\
      forall c, r = Some c -> tables s' !! c = Some t /\ (exists st', stores s' !! a = Some st' /\ In c (caches st')) /\ forall fresh', cache_of t a fresh' s' = Some (Some c, s')) /\
    (forall c t, tables s !! c = Some t -> exists a, (exists st, stores s !! a = Some st /\ In c (caches st)) /\ forall b sb, stores s !! b = Some sb -> In c (caches sb) -> b = a) /\
    (stores s = ∅ -> tables s = ∅) /\
    (forallb served es = true ->
      (forall f, In f (fds s) <-> exists a st, stores s !! a = Some st /\ dirfd st = f) /\
      (forall i, g_taken s !! i = Some true <-> exists a st, stores s !! a = Some st /\ slot st = i)).
Proof.
  destruct (run_inv es 0 true empty inv_empty ltac:(lia) Hlegal) as (s & E & Hi). exists s. split; [exact E|]. pose proof Hi as [V1 V2 V3 V4 V5 V6 V7 V8 V9 V10]. split_and!.
  - intros a b sa sb Ha Hb N. split; intros Eq; apply N; [by eapply V4|by apply (proj2 (proj2 V9) a b sa sb)].
  - intros t a fresh [[st Ha] Hc]. destruct (use_says _ _ s t a fresh st Hi Ha Hc) as (r & s' & Er & _ & H). exists r, s'. split_and!; [done| |exact H].
    intros ->. destruct (cache_of_cases _ _ s t a fresh st Hi Ha) as [(c & _ & Eq)|[_ Eq]]; rewrite Er in Eq; [done|]. by destruct fresh.
  - intros c t Hc. destruct (V7 c t Hc) as (a & st & Ha & Hin). exists a. split; [by exists st|]. intros b sb Hb Hinb. by eapply V8.
  - intros Hnone. apply map_empty. intros c. destruct (tables s !! c) as [t|] eqn:Ec; [|done]. destruct (V7 c t Ec) as (a & st & Ha & _). by rewrite Hnone in Ha.
  - intros Hs. destruct (V10 Hs) as [W1 W2]. split; [intros f|intros i]; (split; [auto|]).
    + intros (a & st & Ha & <-). by apply (proj1 (proj2 V9) a).
    + intros (a & st & Ha & <-). by apply (V3 a).
Qed.

(** Two threads, a store closed, and another that takes its slot; then every one closed. *)
Definition history : list event :=
  [EOpen 5 (Some 1) true; EUse 7 1 (Some 70); EUse 8 1 (Some 80); EUse 7 1 (Some 71); EOpen 6 (Some 2) true; EClose 1; EOpen 5 (Some 3) true; EUse 7 3 (Some 90); EOpen 9 (Some 4) false; EUse 7 3 None].

Lemma stores_sound_witness : option_map (fun s => (nth 0 (g_gen s) 0%Z, option_map gen (stores s !! 3), tl s !! (7, 0))) (run history empty) = Some (3%Z, Some 3%Z, Some (90, 3%Z)) /\
  exists s, run history empty = Some s /\ (stores s = ∅ -> tables s = ∅).
Proof.
  split; [vm_compute; reflexivity|]. destruct (stores_sound history) as (s & E & _ & _ & _ & H & _).
  - unfold history. cbn [all_legal]. repeat match goal with
      | |- legal _ (EOpen _ _ _) => split; [vm_compute; intuition congruence|intros ? [= <-]; vm_compute; reflexivity]
      | |- legal _ (EUse _ _ _) => split; [eexists; vm_compute; reflexivity|intros ? [= <-]; vm_compute; reflexivity]
      | |- legal _ (EClose _) => eexists; vm_compute; reflexivity
      | |- _ /\ _ => split
      | |- True => exact I
      | |- forall _, _ => let s := fresh in let H := fresh in intros s H; vm_compute in H; injection H as <-
      end.
  - vm_compute. reflexivity.
  - exists s. split; [exact E|exact H].
Defined.

(** An open that finds no memory for the store leaves its descriptor open and its slot taken, for ever: closing the store
    that was not made does nothing. *)
Example open_without_memory : option_map (fun s => (fds s, g_taken s !! 0, elements (dom (stores s)))) (run [EOpen 5 None true] empty) = Some ([5%Z], Some true, []).
Proof. vm_compute. reflexivity. Qed.
