(* ===== verification/Run.v ===== *)
(** The run (lib/http/run.c): the configuration that is checked on the way in and handed to the workers, the ports that
    are bound, and the threads of a run from their creation to the code [ioxd_run] returns, interleaved with the signals
    and with the ends of the workers. A worker's own life is [Proactor]'s: its loop is left when the stop flag is seen or
    when its ring failed, which sets the flag. *)
From S2P Require Import Prelude Bufring.

#[local] Arguments Nat.ltb : simpl never.

(** ** The configuration *)

Definition RING_ENTRIES : Z := 8192.
Definition BUF_COUNT : Z := 1024.
Definition BUF_SIZE : Z := 16384.
Definition STACK_SIZE : Z := 131072.
Definition CORO_POOL_MAX : Z := 512.
Definition CONN_POOL_MAX : Z := 1024.

Record ioxd_config := { ring_entries : Z; recv_buffers : Z; recv_buffer_size : Z; stack_size : Z; idle_stacks : Z; idle_connections : Z }.

Definition zeros : ioxd_config := {| ring_entries := 0; recv_buffers := 0; recv_buffer_size := 0; stack_size := 0; idle_stacks := 0; idle_connections := 0 |}.

Definition power_of_two (v : Z) : bool := negb (v =? 0)%Z && (Z.land v (wrap32 (v - 1)) =? 0)%Z.

(** Which line goes to stderr. *)
Inductive refusal := bad_ring_entries | bad_recv_buffers | bad_recv_buffer_size | bad_stack_size.

Definition why (config : ioxd_config) : option refusal :=
  if negb (ring_entries config =? 0)%Z && (negb (power_of_two (ring_entries config)) || (32768 <? ring_entries config)%Z) then Some bad_ring_entries
  else if negb (recv_buffers config =? 0)%Z && (negb (power_of_two (recv_buffers config)) || (32768 <? recv_buffers config)%Z) then Some bad_recv_buffers
  else if negb (recv_buffer_size config =? 0)%Z && ((recv_buffer_size config <? 64)%Z || (2 ^ 20 <? recv_buffer_size config)%Z) then Some bad_recv_buffer_size
  else if negb (stack_size config =? 0)%Z && ((stack_size config <? 64 * 1024)%Z || (64 * 1024 * 1024 <? stack_size config)%Z) then Some bad_stack_size
  else None.

(** The result and the configuration of the runs that follow. *)
Definition ioxd_configure (config g_config : ioxd_config) : Z * ioxd_config :=
  match why config with Some _ => ((-1)%Z, g_config) | None => (0%Z, config) end.

Definition set_or (v d : Z) : Z := if (v =? 0)%Z then d else v.

Definition effective_config (c : ioxd_config) : ioxd_config :=
  {| ring_entries := set_or (ring_entries c) RING_ENTRIES; recv_buffers := set_or (recv_buffers c) BUF_COUNT; recv_buffer_size := set_or (recv_buffer_size c) BUF_SIZE;
     stack_size := set_or (stack_size c) STACK_SIZE; idle_stacks := set_or (idle_stacks c) CORO_POOL_MAX; idle_connections := set_or (idle_connections c) CONN_POOL_MAX |}.

(** ** The ports *)

Definition IOXD_MAX_LISTENERS : nat := 8.

(** [certs] names the port's store. *)
Record listener := { port : Z; certs : option nat }.

Definition ioxd_bind (port : Z) (certs : option nat) (g_listeners : list listener) : Z * list listener :=
  if (port <? 1)%Z || (65535 <? port)%Z || (length g_listeners =? IOXD_MAX_LISTENERS) then ((-1)%Z, g_listeners)
  else (0%Z, g_listeners ++ [{| port := port; certs := certs |}]).

(** ** The threads of a run *)

(** What the cpuset holds, if it can be read, and what [sysconf] says. *)
Definition cpu_count (allowed : option nat) (online : Z) : nat :=
  match allowed with
  | Some n => if 0 <? n then n else if (0 <? online)%Z then Z.to_nat online else 1
  | None => if (0 <? online)%Z then Z.to_nat online else 1
  end.

(** The limits, soft and hard, and what the soft one becomes. *)
Definition raise_nofile (limits : option (Z * Z)) : option (Z * Z) :=
  match limits with Some (cur, max) => Some (if (cur <? max)%Z then max else cur, max) | None => None end.

Inductive thread := unborn | running | ended (failed : bool) | joined (failed : bool).

(** What the creator sets of a [proactor]. *)
Record settings := { id : nat; cpu : nat; cfg : ioxd_config; listeners : list listener }.

(** Where [run_workers] is: before the creation of a thread, before a join, or back with its result. *)
Inductive place := creating (i : nat) | joining (i : nat) | returned (rc : Z).

(** [memory] says that [ws] and [th] are allocated. *)
Record run := { at_ : place; rc : Z; started : nat; g_stop : bool; memory : bool; ws : list settings; th : list thread }.

Definition failed_of (t : thread) : bool := match t with joined b => b | _ => false end.

(** Up to the first thread: the code it returns at once, or the run. *)
Definition run_workers (workers : Z) (allowed : option nat) (online : Z) (g_listeners : list listener) (g_config : ioxd_config) (allocated : bool) : Z + run :=
  let n := if (workers <=? 0)%Z then cpu_count allowed online else Z.to_nat workers in
  if length g_listeners =? 0 then inl 2%Z
  else if negb allocated then inl 1%Z
  else inr {| at_ := creating 0; rc := 0; started := 0; g_stop := false; memory := true;
              ws := map (fun i => {| id := i; cpu := i; cfg := effective_config g_config; listeners := g_listeners |}) (seq 0 n);
              th := replicate n unborn |}.

(** The next step of the main thread; [created] is what [pthread_create] answers. [None] is a join that waits, or a run
    that is over. *)
Definition main_step (created : bool) (s : run) : option run :=
  match at_ s with
  | creating i =>
      if i <? length (th s) then
        if created then Some {| at_ := creating (S i); rc := rc s; started := S (started s); g_stop := g_stop s; memory := memory s; ws := ws s; th := <[i := running]> (th s) |}
        else Some {| at_ := joining 0; rc := 1; started := started s; g_stop := true; memory := memory s; ws := ws s; th := th s |}
      else Some {| at_ := joining 0; rc := rc s; started := started s; g_stop := g_stop s; memory := memory s; ws := ws s; th := th s |}
  | joining i =>
      if i <? started s then
        match th s !! i with
        | Some (ended b) => Some {| at_ := joining (S i); rc := rc s; started := started s; g_stop := g_stop s; memory := memory s; ws := ws s; th := <[i := joined b]> (th s) |}
        | _ => None
        end
      else Some {| at_ := returned (if existsb failed_of (take (started s) (th s)) then 1 else rc s); rc := rc s; started := started s; g_stop := g_stop s; memory := false; ws := ws s; th := th s |}
  | returned _ => None
  end.

(** A worker leaves its loop: the flag was seen, or its ring failed and it sets the flag. *)
Definition worker_end (i : nat) (failed : bool) (s : run) : option run :=
  match th s !! i with
  | Some running =>
      if g_stop s || failed then Some {| at_ := at_ s; rc := rc s; started := started s; g_stop := g_stop s || failed; memory := memory s; ws := ws s; th := <[i := ended failed]> (th s) |}
      else None
  | _ => None
  end.

Definition on_signal (s : run) : run := {| at_ := at_ s; rc := rc s; started := started s; g_stop := true; memory := memory s; ws := ws s; th := th s |}.

Inductive event := EMain (created : bool) | EWorker (i : nat) (failed : bool) | ESignal.

Definition do_event (s : run) (e : event) : option run :=
  match e with EMain created => main_step created s | EWorker i failed => worker_end i failed s | ESignal => Some (on_signal s) end.

(** An interleaving of the threads and the signals. *)
Inductive history : run -> list event -> run -> Prop :=
| history_end s : history s [] s
| history_step s e s1 es s2 : do_event s e = Some s1 -> history s1 es s2 -> history s (e :: es) s2.

(** [ioxd__run_http] up to the first thread: the application's context must have the library's size. *)
Definition ioxd__run_http (ctx_size sizeof_ctx workers : Z) (allowed : option nat) (online : Z) (g_listeners : list listener) (g_config : ioxd_config) (allocated : bool) : Z + run :=
  if negb (ctx_size =? sizeof_ctx)%Z then inl 1%Z else run_workers workers allowed online g_listeners g_config allocated.

(** ** Powers of two *)

Lemma power_of_two_says v : (0 <= v < 2 ^ 32)%Z -> power_of_two v = true -> exists k : nat, v = (2 ^ Z.of_nat k)%Z.
Proof.
  intros Hv [H0 H1]%andb_prop. apply negb_true_iff, Z.eqb_neq in H0. apply Z.eqb_eq in H1. assert (Hpos : (0 < v)%Z) by lia.
  unfold wrap32 in H1. rewrite Z.mod_small in H1 by lia. set (k := Z.log2 v). destruct (Z.log2_spec v Hpos) as [L1 L2]. fold k in L1, L2. pose proof (Z.log2_nonneg v) as Hk. fold k in Hk.
  exists (Z.to_nat k). rewrite Z2Nat.id by done. destruct (decide (v = (2 ^ k)%Z)) as [|Hne]; [done|]. exfalso.
  assert (Hlog : Z.log2 (v - 1) = k) by (apply Z.log2_unique; lia).
  pose proof (Z.bit_log2 v Hpos) as B1. pose proof (Z.pow_pos_nonneg 2 k ltac:(lia) Hk). pose proof (Z.bit_log2 (v - 1) ltac:(lia)) as B2. rewrite Hlog in B2. fold k in B1.
  pose proof (Z.land_spec v (v - 1) k) as B. by rewrite H1, B1, B2, Z.testbit_0_l in B.
Qed.

Lemma power_of_two_pow (k : nat) : k < 32 -> power_of_two (2 ^ Z.of_nat k) = true.
Proof.
  intros Hk. pose proof (Z.pow_pos_nonneg 2 (Z.of_nat k) ltac:(lia) ltac:(lia)). pose proof (Z.pow_lt_mono_r 2 (Z.of_nat k) 32 ltac:(lia) ltac:(lia) ltac:(lia)).
  unfold power_of_two, wrap32. rewrite Z.mod_small by lia. apply andb_true_iff. split; [apply negb_true_iff, Z.eqb_neq; lia|]. apply Z.eqb_eq.
  replace (2 ^ Z.of_nat k - 1)%Z with (Z.ones (Z.of_nat k)) by (rewrite Z.ones_equiv; lia). rewrite Z.land_ones by lia. by apply Z_mod_same_full.
Qed.

(** A power of two up to 32768, as one of the sixteen there are. *)
Definition ring_size (v : Z) : Prop := exists k : nat, k <= 15 /\ v = (2 ^ Z.of_nat k)%Z.

Lemma ring_size_iff v : (0 <= v < 2 ^ 32)%Z -> negb (power_of_two v) || (32768 <? v)%Z = false <-> ring_size v.
Proof.
  intros Hv. split.
  - intros [H1%negb_false_iff H2%Z.ltb_ge]%orb_false_iff. destruct (power_of_two_says v Hv H1) as (k & ->). exists k. split; [|done].
    destruct (le_lt_dec k 15) as [|Hk]; [done|]. pose proof (Z.pow_lt_mono_r 2 15 (Z.of_nat k) ltac:(lia) ltac:(lia) ltac:(lia)). lia.
  - intros (k & Hk & ->). rewrite power_of_two_pow by lia. apply Z.ltb_ge. change 32768%Z with (2 ^ 15)%Z. apply Z.pow_le_mono_r; lia.
Qed.

(** Fields of their C types. *)
Record words (c : ioxd_config) : Prop := {
  w_ring : (0 <= ring_entries c < 2 ^ 32)%Z; w_bufs : (0 <= recv_buffers c < 2 ^ 32)%Z; w_size : (0 <= recv_buffer_size c < 2 ^ 32)%Z; w_stack : (0 <= stack_size c < 2 ^ 64)%Z;
  w_stacks : (0 <= idle_stacks c < 2 ^ 32)%Z; w_conns : (0 <= idle_connections c < 2 ^ 32)%Z
}.

(** What is asked of the fields that are set. *)
Record acceptable (c : ioxd_config) : Prop := {
  a_ring : ring_entries c = 0%Z \/ ring_size (ring_entries c);
  a_bufs : recv_buffers c = 0%Z \/ ring_size (recv_buffers c);
  a_size : recv_buffer_size c = 0%Z \/ (64 <= recv_buffer_size c <= 2 ^ 20)%Z;
  a_stack : stack_size c = 0%Z \/ (64 * 1024 <= stack_size c <= 64 * 1024 * 1024)%Z
}.

Lemma unset_or (v : Z) (bad : bool) (P : Prop) : (bad = false <-> P) -> negb (v =? 0)%Z && bad = false <-> v = 0%Z \/ P.
Proof. intros H. rewrite andb_false_iff, negb_false_iff, Z.eqb_eq. tauto. Qed.

Lemma why_says c : words c -> why c = None <-> acceptable c.
Proof.
  intros [W1 W2 W3 W4 _ _]. unfold why.
  pose proof (unset_or (ring_entries c) _ _ (ring_size_iff _ W1)) as H1. pose proof (unset_or (recv_buffers c) _ _ (ring_size_iff _ W2)) as H2.
  pose proof (unset_or (recv_buffer_size c) ((recv_buffer_size c <? 64)%Z || (2 ^ 20 <? recv_buffer_size c)%Z) (64 <= recv_buffer_size c <= 2 ^ 20)%Z ltac:(rewrite orb_false_iff, !Z.ltb_ge; tauto)) as H3.
  pose proof (unset_or (stack_size c) ((stack_size c <? 64 * 1024)%Z || (64 * 1024 * 1024 <? stack_size c)%Z) (64 * 1024 <= stack_size c <= 64 * 1024 * 1024)%Z ltac:(rewrite orb_false_iff, !Z.ltb_ge; tauto)) as H4.
  repeat case_match; (split; [try done; intros _; split; tauto|intros []; try done; exfalso; intuition congruence]).
Qed.

Lemma acceptable_effective c : words c -> acceptable c -> ring_size (ring_entries (effective_config c)) /\ ring_size (recv_buffers (effective_config c)) /\
  (64 <= recv_buffer_size (effective_config c) <= 2 ^ 20)%Z /\ (64 * 1024 <= stack_size (effective_config c) <= 64 * 1024 * 1024)%Z /\
  (0 < idle_stacks (effective_config c) < 2 ^ 32)%Z /\ (0 < idle_connections (effective_config c) < 2 ^ 32)%Z.
Proof.
  intros [_ _ _ _ W5 W6] [A1 A2 A3 A4]. cbn. unfold set_or, BUF_SIZE, STACK_SIZE, CORO_POOL_MAX, CONN_POOL_MAX.
  split_and!; repeat match goal with |- context [(?v =? 0)%Z] => destruct (Z.eqb_spec v 0) end; try lia; try (destruct A1; [done|assumption]); try (destruct A2; [done|assumption]).
  - exists 13. split; [lia|reflexivity].
  - exists 10. split; [lia|reflexivity].
Qed.

(** The configuration after some calls. *)
Definition configured (calls : list ioxd_config) : ioxd_config := fold_left (fun g c => (ioxd_configure c g).2) calls zeros.

Lemma configured_ok calls : Forall words calls -> words (configured calls) /\ acceptable (configured calls).
Proof.
  intros Hw. unfold configured. assert (Hz : words zeros /\ acceptable zeros) by (split; split; cbn; auto; lia). revert Hz. generalize zeros. induction Hw as [|c calls Hc _ IH]; intros g Hg; [done|].
  cbn [fold_left]. apply IH. unfold ioxd_configure. destruct (why c) eqn:E; [done|]. split; [done|]. by apply why_says.
Qed.

(** ** What holds of a run *)

Definition is_running (t : thread) : bool := match t with running => true | _ => false end.

(** A thread that was created and is not joined. *)
Definition alive (t : thread) : bool := match t with running | ended _ => true | _ => false end.

Record Inv (n : nat) (s : run) : Prop := {
  v_len : length (th s) = n;
  v_started : started s <= n;
  v_later i t : th s !! i = Some t -> started s <= i -> t = unborn;
  v_place : match at_ s with
            | creating i => i = started s /\ rc s = 0%Z /\ memory s = true /\ forall j t, th s !! j = Some t -> j < i -> alive t = true
            | joining i => i <= started s /\ (rc s = 0%Z \/ rc s = 1%Z) /\ (rc s = 0%Z <-> started s = n) /\ (rc s = 1%Z -> g_stop s = true) /\ memory s = true /\
                           (forall j t, th s !! j = Some t -> j < i -> exists b, t = joined b) /\ (forall j t, th s !! j = Some t -> i <= j < started s -> alive t = true)
            | returned c => memory s = false /\ (forall j t, th s !! j = Some t -> j < started s -> exists b, t = joined b) /\
                            (c = 0%Z \/ c = 1%Z) /\ (c = 0%Z <-> started s = n /\ forall j, th s !! j <> Some (joined true))
            end
}.

Lemma main_step_inv n created s s' : Inv n s -> main_step created s = Some s' -> Inv n s'.
Proof.
  intros [V1 V2 V3 V4] Hs. unfold main_step in Hs. destruct (at_ s) as [i|i|c] eqn:Ea; [| |done].
  - destruct V4 as (-> & Hrc & Hm & Hal). destruct (Nat.ltb_spec (started s) (length (th s))) as [Hi|Hi].
    + destruct created; injection Hs as <-; split; cbn; try done.
      * by rewrite length_insert.
      * lia.
      * intros j t [(<- & _)|[N H]]%list_lookup_insert_Some Hj; [lia|by apply (V3 j); [|lia]].
      * split_and!; try done. intros j t [(<- & <- & _)|[N H]]%list_lookup_insert_Some Hj; [done|apply (Hal j); [done|lia]].
      * split_and!; try done; [lia|by right|split; [done|lia]|by intros ? ? ? ?%Nat.nlt_0_r|]. intros j t Hj Hlt. apply (Hal j); [done|lia].
    + injection Hs as <-. split; cbn; try done. split_and!; try done; [lia|by left|split; [lia|done]|rewrite Hrc; lia|by intros ? ? ? ?%Nat.nlt_0_r|].
      intros j t Hj Hlt. apply (Hal j); [done|lia].
  - destruct V4 as (Hle & Hrc & Hiff & Hstop & Hm & Hjo & Hal). destruct (Nat.ltb_spec i (started s)) as [Hi|Hi].
    + destruct (th s !! i) as [[| |b|]|] eqn:Et; try done. injection Hs as <-. split; cbn; try done.
      * by rewrite length_insert.
      * intros j t [(<- & _)|[N H]]%list_lookup_insert_Some Hj; [lia|by apply (V3 j)].
      * split_and!; try done.
        -- intros j t [(<- & <- & _)|[N H]]%list_lookup_insert_Some Hj; [by eexists|apply (Hjo j); [done|lia]].
        -- intros j t [(<- & <- & _)|[N H]]%list_lookup_insert_Some Hj; [lia|apply (Hal j); [done|lia]].
    + injection Hs as <-. assert (i = started s) as -> by lia. split; cbn; try done. split_and!; try done; [destruct (existsb _ _); auto|].
      destruct (existsb failed_of (take (started s) (th s))) eqn:Eb.
      * split; [done|]. intros [_ H]. apply existsb_exists in Eb as (t & Hin & Ht). apply list_elem_of_In, list_elem_of_lookup in Hin as (j & Hj). apply lookup_take_Some in Hj as [Hj _].
        destruct t as [| | |[]]; try done. by destruct (H j).
      * rewrite Hiff. split; [|tauto]. intros He. split; [done|]. intros j Hj. pose proof (lookup_lt_Some _ _ _ Hj). assert (existsb failed_of (take (started s) (th s)) = true); [|congruence].
        apply existsb_exists. exists (joined true). split; [|done]. apply list_elem_of_In, list_elem_of_lookup. exists j. apply lookup_take_Some. split; [done|lia].
Qed.

Lemma worker_end_inv n i b s s' : Inv n s -> worker_end i b s = Some s' -> Inv n s'.
Proof.
  intros [V1 V2 V3 V4] Hs. unfold worker_end in Hs. destruct (th s !! i) as [[| | |]|] eqn:Et; try done. destruct (g_stop s || b) eqn:Eg; [|done]. injection Hs as <-.
  assert (Hi : i < started s) by (destruct (le_lt_dec (started s) i) as [H|H]; [by specialize (V3 i _ Et H)|done]).
  split; cbn; try done; [by rewrite length_insert|intros j t [(<- & _)|[N H]]%list_lookup_insert_Some Hj; [lia|by apply (V3 j)]|]. destruct (at_ s) as [k|k|c].
  - destruct V4 as (-> & Hrc & Hm & Hal). split_and!; try done. intros j t [(<- & <- & _)|[N H]]%list_lookup_insert_Some Hj; [done|by apply (Hal j)].
  - destruct V4 as (Hle & Hrc & Hiff & Hstop & Hm & Hjo & Hal). split_and!; try done.
    + intros j t [(<- & <- & _)|[N H]]%list_lookup_insert_Some Hj; [destruct (Hjo i _ Et Hj) as [? ?]; done|by apply (Hjo j)].
    + intros j t [(<- & <- & _)|[N H]]%list_lookup_insert_Some Hj; [done|by apply (Hal j)].
  - destruct V4 as (_ & Hjo & _). destruct (Hjo i _ Et Hi) as [? ?]. done.
Qed.

Lemma on_signal_inv n s : Inv n s -> Inv n (on_signal s).
Proof. intros [V1 V2 V3 V4]. split; cbn; try done. destruct (at_ s); tauto. Qed.

Lemma event_inv n s e s' : Inv n s -> do_event s e = Some s' -> Inv n s'.
Proof.
  intros Hi He. destruct e as [created|i b|]; cbn [do_event] in He; [by eapply main_step_inv|by eapply worker_end_inv|injection He as <-; by apply on_signal_inv].
Qed.

(** The settings stay those of the start, and so does a flag that is set. *)
Lemma event_keeps s e s' : do_event s e = Some s' -> ws s' = ws s /\ (g_stop s = true -> g_stop s' = true).
Proof.
  destruct e as [created|i b|]; cbn [do_event]; unfold main_step, worker_end, on_signal; intros H; repeat case_match; simplify_eq; cbn; auto.
Qed.

Lemma history_ok n s es s' : history s es s' -> Inv n s -> Inv n s' /\ ws s' = ws s.
Proof.
  induction 1 as [s|s e s1 es s2 He _ IH]; intros Hi; [done|]. destruct (IH (event_inv _ _ _ _ Hi He)) as [H1 H2]. split; [done|]. by rewrite H2, (proj1 (event_keeps _ _ _ He)).
Qed.

(** ** It ends *)

Fixpoint running_of (l : list thread) : nat := match l with [] => 0 | t :: l => (if is_running t then 1 else 0) + running_of l end.
Definition runs (s : run) : nat := running_of (th s).

(** The steps that are left but for signals. *)
Definition measure (s : run) : nat :=
  match at_ s with
  | creating i => 3 * (length (th s) - i) + i + 2 + runs s
  | joining i => started s - i + 1 + runs s
  | returned _ => runs s
  end.

Lemma running_insert (l : list thread) i t u : l !! i = Some t ->
  running_of (<[i := u]> l) + (if is_running t then 1 else 0) = running_of l + (if is_running u then 1 else 0).
Proof.
  revert i. induction l as [|x l IH]; intros [|i] H; [done|done| |].
  - injection H as ->. change (<[0 := u]> (t :: l)) with (u :: l). cbn [running_of]. lia.
  - specialize (IH i H). change (<[S i := u]> (x :: l)) with (x :: <[i := u]> l). cbn [running_of]. lia.
Qed.

Lemma event_measure n s e s' : Inv n s -> do_event s e = Some s' -> e <> ESignal -> measure s' < measure s.
Proof.
  intros [V1 V2 V3 V4] He Hne. destruct e as [created|i b|]; cbn [do_event] in He; [| |done].
  - unfold main_step in He. destruct (at_ s) as [i|i|] eqn:Ea; [| |done].
    + destruct V4 as (-> & _). destruct (Nat.ltb_spec (started s) (length (th s))) as [Hi|Hi]; [destruct created|]; injection He as <-; unfold measure, runs; rewrite Ea; cbn; try lia.
      destruct (lookup_lt_is_Some_2 (th s) (started s) Hi) as [t Ht]. pose proof (running_insert _ _ t running Ht) as Hf. rewrite (V3 _ _ Ht (le_n _)) in Hf. cbn in Hf. rewrite length_insert. lia.
    + destruct (Nat.ltb_spec i (started s)) as [Hi|Hi]; [destruct (th s !! i) as [[| |b|]|] eqn:Et; try done|]; injection He as <-; unfold measure, runs; rewrite Ea; cbn; [|lia].
      pose proof (running_insert _ _ _ (joined b) Et) as Hf. cbn in Hf. lia.
  - unfold worker_end in He. destruct (th s !! i) as [[| | |]|] eqn:Et; try done. destruct (g_stop s || b); [|done]. injection He as <-. unfold measure, runs. cbn.
    pose proof (running_insert _ _ _ (ended b) Et) as Hf. cbn in Hf. rewrite length_insert. destruct (at_ s); lia.
Qed.

(** With the flag set something can always go on, until the run is back. *)
Lemma event_next n s : Inv n s -> g_stop s = true -> (forall c, at_ s <> returned c) -> exists e s', do_event s e = Some s' /\ e <> ESignal.
Proof.
  intros [V1 V2 V3 V4] Hg Hr. destruct (at_ s) as [i|i|c] eqn:Ea; [| |by destruct (Hr c)].
  - exists (EMain true). cbn [do_event]. unfold main_step. rewrite Ea. destruct (i <? length (th s)); by eexists.
  - destruct V4 as (Hle & _ & _ & _ & _ & _ & Hal). destruct (Nat.ltb_spec i (started s)) as [Hi|Hi].
    + destruct (lookup_lt_is_Some_2 (th s) i ltac:(lia)) as [t Ht]. pose proof (Hal i t Ht ltac:(lia)) as Ht2. destruct t as [| |b|]; try done.
      * exists (EWorker i false). cbn [do_event]. unfold worker_end. rewrite Ht, Hg. by eexists.
      * exists (EMain true). cbn [do_event]. unfold main_step. rewrite Ea, Ht, (proj2 (Nat.ltb_lt _ _) Hi). by eexists.
    + exists (EMain true). cbn [do_event]. unfold main_step. rewrite Ea, (proj2 (Nat.ltb_ge _ _) Hi). by eexists.
Qed.

Lemma run_workers_inv workers allowed online ls g s : run_workers workers allowed online ls g true = inr s -> Inv (length (th s)) s /\ runs s = 0.
Proof.
  unfold run_workers. destruct (length ls =? 0); [done|]. cbn [negb]. intros [= <-]. split; [split|]; cbn; try done; try lia.
  - intros i t [-> _]%lookup_replicate. done.
  - split_and!; try done. lia.
  - unfold runs. cbn. induction (if (workers <=? 0)%Z then cpu_count allowed online else Z.to_nat workers) as [|n IH]; [done|]. done.
Qed.

(** The steps of a history that are no signals. *)
Definition steps (es : list event) : nat := length (List.filter (fun e => match e with ESignal => false | _ => true end) es).

Lemma history_measure n s es s' : history s es s' -> Inv n s -> steps es + measure s' <= measure s.
Proof.
  induction 1 as [s|s e s1 es s2 He _ IH]; intros Hi; [unfold steps; cbn; lia|]. specialize (IH (event_inv _ _ _ _ Hi He)). unfold steps in *. destruct e as [c|i b|]; cbn [List.filter length].
  - pose proof (event_measure _ _ _ _ Hi He ltac:(done)). lia.
  - pose proof (event_measure _ _ _ _ Hi He ltac:(done)). lia.
  - cbn [do_event] in He. injection He as <-. unfold measure, runs in *. cbn in *. lia.
Qed.

(** ** Properties *)

(** C36. A worker's configuration. Whatever calls of [ioxd_configure] came before a run, refused ones included, a worker gets
    ring sizes that are powers of two up to 32768, buffers of 64 bytes to 1 MB, a stack of 64 KB to 64 MB and pools that
    are not empty; its buffer ring then never loses or duplicates a buffer, and every buffer lies within the slab of
    count times size bytes. A configuration is taken exactly when the fields it sets are in these ranges, and otherwise
    changes nothing. *)
Theorem configured_worker (calls : list ioxd_config) (Hwords : Forall words calls) :
  let c := effective_config (configured calls) in
  (exists k : nat, k <= 15 /\ ring_entries c = (2 ^ Z.of_nat k)%Z) /\
  (64 * 1024 <= stack_size c <= 64 * 1024 * 1024)%Z /\ (0 < idle_stacks c < 2 ^ 32)%Z /\ (0 < idle_connections c < 2 ^ 32)%Z /\
  (forall slab_ w, reachable {| b := ioxd__bufring_init slab_ (recv_buffers c) (recv_buffer_size c); khead := 0; held := [] |} w ->
    offered w ++ held w ≡ₚ seqZ 0 (recv_buffers c) /\
    forall id, id ∈ held w -> (slab_ <= slab_ + id * recv_buffer_size c)%Z /\ (slab_ + id * recv_buffer_size c + recv_buffer_size c <= slab_ + recv_buffers c * recv_buffer_size c)%Z) /\
  (recv_buffers c * recv_buffer_size c <= 2 ^ 35)%Z /\
  (forall config g, words config -> (acceptable config /\ ioxd_configure config g = (0%Z, config)) \/ (~ acceptable config /\ ioxd_configure config g = ((-1)%Z, g))).
Proof.
  destruct (configured_ok calls Hwords) as [Hw Ha]. destruct (acceptable_effective _ Hw Ha) as (H1 & (k & Hk & E) & H3 & H4 & H5 & H6). set (c := effective_config (configured calls)) in *. cbn zeta.
  assert (Hp : (recv_buffers c <= 2 ^ 15)%Z) by (rewrite E; apply Z.pow_le_mono_r; lia). split_and!; try done; try lia.
  - intros slab_ w Hr. rewrite E in Hr. destruct (ring_inv_reachable k slab_ _ w Hk Hr) as (W & p & I). rewrite (ring_offered I), E. split; [apply I|].
    intros id Hid. pose proof (held_range I id Hid). nia.
  - apply Z.le_trans with (2 ^ 15 * 2 ^ 20)%Z; [|done]. rewrite E in *. pose proof (Z.pow_pos_nonneg 2 (Z.of_nat k) ltac:(lia) ltac:(lia)). apply Z.mul_le_mono_nonneg; lia.
  - intros config g Hc. pose proof (why_says config Hc) as Hy. unfold ioxd_configure. destruct (why config); [right|left]; (split; [|done]); [intros H; by apply Hy in H|by apply Hy].
Qed.

(** C35. The threads of a run. However the workers, the signals and the main thread interleave, and whichever threads could be
    created: while a worker runs its memory is there; [ioxd_run] comes back only once every thread it created has been
    joined and the memory is freed, with 0 exactly when all of them were created and none failed; each worker has the
    settings of its number, and there is one for every processor allowed unless a count was asked for. *)
Theorem run_sound (workers online : Z) (allowed : option nat) (ls : list listener) (g : ioxd_config) (s0 s : run) (es : list event) :
  run_workers workers allowed online ls g true = inr s0 -> history s0 es s ->
  (forall i, th s !! i = Some running -> memory s = true) /\
  (forall c, at_ s = returned c -> memory s = false /\ (forall j t, th s !! j = Some t -> t = unborn \/ exists b, t = joined b) /\
    (c = 0%Z <-> forall j t, th s !! j = Some t -> t = joined false) /\ (c = 0%Z \/ c = 1%Z)) /\
  (forall i w, ws s !! i = Some w -> id w = i /\ cpu w = i /\ cfg w = effective_config g /\ listeners w = ls) /\
  length (th s) = (if (workers <=? 0)%Z then cpu_count allowed online else Z.to_nat workers) /\ length (ws s) = length (th s) /\ 0 < length (th s) /\ ls <> [].
Proof.
  intros Hs Hh. pose proof (run_workers_inv _ _ _ _ _ _ Hs) as [Hi _]. destruct (history_ok _ _ _ _ Hh Hi) as [[V1 V2 V3 V4] Hws].
  unfold run_workers in Hs. destruct (Nat.eqb_spec (length ls) 0) as [|Hls]; [done|]. cbn [negb] in Hs. injection Hs as <-. cbn [th ws] in V1, Hws. rewrite length_replicate in V1. split_and!.
  - intros i Hr. destruct (at_ s); [by destruct V4 as (_ & _ & H & _)|by destruct V4 as (_ & _ & _ & _ & H & _)|]. destruct V4 as (_ & Hj & _).
    destruct (le_lt_dec (started s) i) as [H|H]; [by specialize (V3 i _ Hr H)|]. by destruct (Hj i _ Hr H) as [? ?].
  - intros c Hc. rewrite Hc in V4. destruct V4 as (Hm & Hj & Hcc & Hiff). cbn [th] in *. rewrite length_replicate in *. split_and!; try done.
    + intros j t Ht. destruct (le_lt_dec (started s) j) as [H|H]; [left; by apply (V3 j)|right; by apply (Hj j)].
    + rewrite Hiff. split.
      * intros [H1 H2] j t Ht. destruct (Hj j t Ht ltac:(rewrite H1, <- V1; by eapply lookup_lt_Some)) as [[] ->]; [by destruct (H2 j)|done].
      * intros H. split; [|intros j Hjt; by specialize (H j _ Hjt)]. destruct (decide (started s = length (th s))) as [E|E]; [by rewrite E|].
        destruct (lookup_lt_is_Some_2 (th s) (started s) ltac:(lia)) as [t Ht]. pose proof (V3 _ _ Ht (le_n _)) as ->. by specialize (H _ _ Ht).
  - intros i w Hw. rewrite Hws in Hw. rewrite list_lookup_fmap in Hw. destruct (seq 0 _ !! i) as [j|] eqn:Ej; [|done]. apply lookup_seq in Ej as [-> _]. by injection Hw as <-.
  - done.
  - by rewrite Hws, V1, length_map, length_seq.
  - rewrite V1. destruct (Z.leb_spec workers 0); [|lia]. unfold cpu_count. repeat case_match; try lia; by apply Nat.ltb_lt.
  - by intros ->.
Qed.

(** A run ends: signals aside no run has more than three steps for each worker and two, the flag stays once it is set - by a
    signal, by a worker whose ring failed or by a thread that could not be created -, and with it set something can go on
    until [ioxd_run] is back. *)
Theorem run_ends (workers online : Z) (allowed : option nat) (ls : list listener) (g : ioxd_config) (s0 s : run) (es : list event) :
  run_workers workers allowed online ls g true = inr s0 -> history s0 es s ->
  steps es <= 3 * length (th s0) + 2 /\
  (forall e s', do_event s e = Some s' -> g_stop s = true -> g_stop s' = true) /\
  (g_stop s = true -> (exists c, at_ s = returned c) \/ exists e s', do_event s e = Some s' /\ e <> ESignal).
Proof.
  intros Hs Hh. pose proof (run_workers_inv _ _ _ _ _ _ Hs) as [Hi Hr]. destruct (history_ok _ _ _ _ Hh Hi) as [Hi' _]. split_and!.
  - pose proof (history_measure _ _ _ _ Hh Hi) as Hm. unfold run_workers in Hs. destruct (length ls =? 0); [done|]. injection Hs as <-. unfold measure in Hm at 2. cbn [at_ th] in *. lia.
  - intros e s' He. by apply (event_keeps s e s').
  - intros Hg. destruct (at_ s) as [i|i|c] eqn:Ea; [| |left; by exists c]; right; apply (event_next (length (th s0)) s Hi' Hg); intros c; by rewrite Ea.
Qed.

(** A refused call between two that are taken. *)
Definition some_calls : list ioxd_config :=
  [{| ring_entries := 256; recv_buffers := 64; recv_buffer_size := 0; stack_size := 0; idle_stacks := 0; idle_connections := 0 |};
   {| ring_entries := 0; recv_buffers := 1; recv_buffer_size := 64; stack_size := 100000; idle_stacks := 7; idle_connections := 0 |};
   {| ring_entries := 0; recv_buffers := 24; recv_buffer_size := 64; stack_size := 0; idle_stacks := 0; idle_connections := 0 |}].

Lemma some_calls_words : Forall words some_calls.
Proof. repeat constructor; cbn; lia. Qed.

Example configured_calls : effective_config (configured some_calls) = {| ring_entries := 8192; recv_buffers := 1; recv_buffer_size := 64; stack_size := 100000; idle_stacks := 7; idle_connections := 1024 |}.
Proof. reflexivity. Qed.

Lemma configured_worker_witness : ioxd_configure (nth 2 some_calls zeros) zeros = ((-1)%Z, zeros) /\ (exists k : nat, k <= 15 /\ ring_entries (effective_config (configured some_calls)) = (2 ^ Z.of_nat k)%Z).
Proof. split; [vm_compute; reflexivity|]. exact (proj1 (configured_worker some_calls some_calls_words)). Defined.

(** Two workers asked for on three processors, one with a ring that fails; then three of which the last cannot be made. *)
Definition one_port : list listener := (ioxd_bind 8080 None []).2.
Definition begun (workers : Z) : run := match run_workers workers (Some 3) 4 one_port zeros true with inr s => s | inl _ => on_signal {| at_ := returned 9; rc := 0; started := 0; g_stop := false; memory := false; ws := []; th := [] |} end.
Definition ring_fails : list event := [EMain true; EMain true; EMain false; EWorker 1 true; EWorker 0 false; EMain true; EMain true; EMain true].
Definition not_made : list event := [EMain true; EMain true; EMain false; EWorker 0 false; EMain true; EWorker 1 false; ESignal; EMain true; EMain true].

Fixpoint play (s : run) (es : list event) : option run := match es with [] => Some s | e :: es => s ← do_event s e; play s es end.

Lemma play_history es : forall s s', play s es = Some s' -> history s es s'.
Proof.
  induction es as [|e es IH]; intros s s' H; cbn in H; [injection H as <-; constructor|]. destruct (do_event s e) as [s1|] eqn:E; [|done]. econstructor; [exact E|by apply IH].
Qed.

Definition played (workers : Z) (es : list event) : run := default (begun workers) (play (begun workers) es).

Example runs_played : (at_ (played 2 ring_fails), at_ (played 0 not_made), option_map (fun s => g_stop s) (play (begun 2) [EMain true; EWorker 0 false])) = (returned 1, returned 1, None).
Proof. vm_compute. reflexivity. Qed.

Lemma run_sound_witness : at_ (played 2 ring_fails) = returned 1 /\ memory (played 2 ring_fails) = false.
Proof.
  split; [vm_compute; reflexivity|]. refine (proj1 (proj1 (proj2 (run_sound 2 4 (Some 3) one_port zeros (begun 2) _ ring_fails _ _)) 1%Z _)).
  - vm_compute. reflexivity.
  - apply play_history. vm_compute. reflexivity.
  - vm_compute. reflexivity.
Defined.

Lemma run_ends_witness : steps not_made <= 11 /\ steps not_made = 8.
Proof.
  split; [|vm_compute; reflexivity]. refine (proj1 (run_ends 0 4 (Some 3) one_port zeros (begun 0) (played 0 not_made) not_made _ _)).
  - vm_compute. reflexivity.
  - apply play_history. vm_compute. reflexivity.
Defined.
