(* ===== verification/Serve.v ===== *)
(** A connection from its prologue to its last reply (lib/http/run.c, [serve_http] and [serve_pipe]): a listener with a
    store runs the handshake first, the engine then serves, with the routes the application registered, the plaintext the kernel delivers behind what the prologue
    left in the reader, and the end is announced with a close_notify. *)
From S2P Require Import Prelude.
From S2P Require Import Slices Writer Headers Response Context Reply.
From S2P Require Import Reader Body Engine.
From S2P Require Router.
From S2P Require Handshake.
Import Bufring (rx_item, buf_id).
Import Handshake (answers, why, close_notify).

#[local] Arguments Nat.ltb : simpl never.
#[local] Arguments Nat.leb : simpl never.
#[local] Arguments lit : simpl never.

(** What arrives once the receive is armed again: the buffers' memory and the items. *)
Definition arriving : Type := gmap Z bytes * list rx_item.
Definition arrived (more : arriving) : bytes := concat (map (fun i => span (default [] (more.1 !! buf_id i)) 0 (ilen i)) more.2).

Definition resume (more : arriving) (w : rworld) : rworld :=
  {| mem := more.1; now := now w; later := later w ++ more.2; end_rc := end_rc w; back := back w |}.

Section Run.
Context {W : Type} `{Sender W} {T : Type} `{!Handshake.Tls T} `{!Handshake.Kdf} `{Hooks}.

(** [prologue]: a listener has a store ([Some]) or is plain. *)
Definition prologue (certs : option answers) (s : Handshake.state (W := W) (T := T)) : option (option why * Handshake.state (W := W) (T := T)) :=
  match certs with Some a => '(r, s, _) ← Handshake.ioxd__handshake_prologue a s; Some (r, s) | None => Some (None, s) end.

(** The context a handler starts from: its own frame [c], and the pipe. *)
Definition on_pipe (c : ctx W) (s : Handshake.state (W := W) (T := T)) (more : arriving) : ctx W :=
  let i := Handshake.inp s in
  set_in (set_out c (Handshake.out s) (coded c) (Handshake.net s)) (Handshake.rd i) (resume more (Handshake.rw i)).

(** What the handler gave, if it was run, and the alerts sent behind it. *)
Definition serve_pipe {A : Type} (g_pipe_handler : ctx W -> option (A * ctx W)) (certs : option answers) (more : Handshake.state (W := W) (T := T) -> arriving) (c : ctx W) (s : Handshake.state (W := W) (T := T)) :
  option (option (A * ctx W) * list bytes) :=
  '(r, s) ← prologue certs s;
  match r with
  | Some _ => Some (None, [])
  | None => x ← g_pipe_handler (on_pipe c s (more s)); Some (Some x, match certs with Some _ => [close_notify] | None => [] end)
  end.

(** The table of routes is the one [ioxd__run_http] built. *)
Definition serve_http `{Parser} (rounds fuel : nat) (arena coded_buf : bytes) (g : Router.router) (certs : option answers) (more : Handshake.state (W := W) (T := T) -> arriving) (c : ctx W) (s : Handshake.state (W := W) (T := T)) :
  option (option (list (ioxd_request * ctx W) * ctx W) * list bytes) :=
  serve_pipe (ioxd__engine_serve rounds fuel arena coded_buf (Router.ioxd__router_dispatch g)) certs more c s.
End Run.

(** ** What arrives behind the reader's bytes *)

(** Buffers that are no one's, each with room for its item, and none of the reader's touched. *)
Record delivery (pr : pipereader) (w : rworld) (more : arriving) : Prop := {
  dl_keep : forall id, id ∈ ledger pr w -> more.1 !! id = mem w !! id;
  dl_new : NoDup (map buf_id more.2);
  dl_apart : forall i, i ∈ more.2 -> buf_id i ∉ ledger pr w;
  dl_fit : forall i, i ∈ more.2 -> ilen i <= length (default [] (more.1 !! buf_id i));
  dl_bytes : all_bytes (arrived more)
}.

Lemma kmem_resume pr w more id : delivery pr w more -> id ∈ ledger pr w -> kmem (resume more w) id = kmem w id.
Proof. intros [D _ _ _ _] Hid. unfold kmem. cbn. by rewrite D. Qed.

Lemma cur_ledger k pr w : reader_ok k pr w -> has_cur pr = true -> buf_id (cur pr) ∈ ledger pr w.
Proof.
  intros Hr Hc. unfold ledger, owned. rewrite !elem_of_app. right; left. rewrite Hc. destruct (cur_is_pinned pr) eqn:Ep; cbn; [|left; left].
  destruct (ro_pin _ _ _ Hr Ep) as (_ & Hp & ->). rewrite Hp. right. left.
Qed.

Lemma item_ledger pr w i : i ∈ now w ++ later w -> buf_id i ∈ ledger pr w.
Proof. intros Hi. unfold ledger. rewrite !elem_of_app. right; right. by apply list_elem_of_fmap_2. Qed.

Lemma resumed_reader_ok k pr w more : reader_ok k pr w -> delivery pr w more -> reader_ok k pr (resume more w).
Proof.
  intros Hr Hd. pose proof Hr as [R1 R2 R3 R4 R5 R6 R7 R8 R9]. pose proof Hd as [D1 D2 D3 D4 _]. split; try done.
  - intros Hc. rewrite (kmem_resume pr) by (done || by eapply cur_ledger). by apply R4.
  - assert (E : ledger pr (resume more w) = ledger pr w ++ map buf_id more.2) by (unfold ledger; cbn; by rewrite !map_app, !app_assoc).
    rewrite E. apply NoDup_app. split_and!; [exact R8| |done].
    intros id Hid (i & -> & Hi)%list_elem_of_fmap. by apply (D3 i).
  - cbn. intros i. rewrite app_assoc, elem_of_app. intros [Hi|Hi]; [rewrite (kmem_resume pr) by (done || by apply item_ledger); by apply R9|by apply D4].
Qed.

Lemma resume_live k pr w more : reader_ok k pr w -> delivery pr w more -> live_bytes pr (resume more w) = live_bytes pr w.
Proof.
  intros Hr Hd. unfold live_bytes, live_span, at_span. destruct (live_in_buf pr); [done|]. destruct (has_cur pr) eqn:Hc; [|done]. by rewrite (kmem_resume pr) by (done || by eapply cur_ledger).
Qed.

Lemma resume_coming pr w more : delivery pr w more -> coming (resume more w) = coming w ++ arrived more.
Proof.
  intros Hd. unfold coming, arrived. cbn [now later resume]. rewrite app_assoc, map_app, concat_app. f_equal. f_equal. apply map_ext_in. intros i Hi%list_elem_of_In. unfold item_bytes. by rewrite (kmem_resume pr) by (done || by apply item_ledger).
Qed.

(** ** The whole connection *)

Section Whole.
Context {W : Type} `{!Sender W} `{!SenderLaws W} {T : Type} `{!Handshake.Tls T} `{!Handshake.TlsLaws T} `{!Handshake.Kdf} `{!Hooks} `{!Parser} `{!ParserLaws}.
Notation state := (Handshake.state (W := W) (T := T)).

(** A pipe the handshake left in order is one the engine can start on. *)
Lemma on_pipe_rest (c : ctx W) (s : state) more k :
  Handshake.clean Handshake.PLAIN_MAX (Handshake.rd (Handshake.inp s)) (Handshake.rw (Handshake.inp s)) -> delivery (Handshake.rd (Handshake.inp s)) (Handshake.rw (Handshake.inp s)) more ->
  all_bytes (live_bytes (Handshake.rd (Handshake.inp s)) (Handshake.rw (Handshake.inp s)) ++ coming (Handshake.rw (Handshake.inp s))) -> Writer.cap (Handshake.out s) = k -> 0 < k ->
  at_rest (on_pipe c s more) k /\
  stream (on_pipe c s more) = live_bytes (Handshake.rd (Handshake.inp s)) (Handshake.rw (Handshake.inp s)) ++ coming (Handshake.rw (Handshake.inp s)) ++ arrived more.
Proof.
  intros [C1 (C2 & _) C3 _] Hd Hb Hk Hk0. assert (Hs : stream (on_pipe c s more) = live_bytes (Handshake.rd (Handshake.inp s)) (Handshake.rw (Handshake.inp s)) ++ coming (Handshake.rw (Handshake.inp s)) ++ arrived more).
  { change (stream (on_pipe c s more)) with (live_bytes (Handshake.rd (Handshake.inp s)) (resume more (Handshake.rw (Handshake.inp s))) ++ coming (resume more (Handshake.rw (Handshake.inp s)))). by rewrite (resume_live 0) by done; rewrite (resume_coming (Handshake.rd (Handshake.inp s))) by done. }
  split; [|exact Hs]. split; [split; [by apply resumed_reader_ok|exact C2]|exact C3|by split|]. rewrite Hs, app_assoc. apply all_bytes_app. split; [exact Hb|apply (dl_bytes _ _ _ Hd)].
Qed.

End Whole.

(** ** On a concrete connection *)

#[local] Existing Instance Handshake.toy_tls.
#[local] Existing Instance Handshake.toy_laws.
#[local] Existing Instance Handshake.toy_kdf.
#[local] Existing Instance Handshake.toy_net.
#[local] Existing Instance Handshake.toy_net_laws.
#[local] Existing Instance line_parser.
#[local] Existing Instance line_parser_laws.

Notation toy_state := (Handshake.state (W := Writer.socket) (T := Handshake.toy)).

(** One buffer more, by a number no other has. *)
Definition next_id (pr : pipereader) (w : rworld) : Z := (fold_right Z.max 0 (ledger pr w) + 1)%Z.
Definition then_comes (d : bytes) (s : toy_state) : arriving :=
  let i := Handshake.inp s in let id := next_id (Handshake.rd i) (Handshake.rw i) in
  (<[id := d]> (mem (Handshake.rw i)), [{| Bufring.ptr := 0; Bufring.len := Z.of_nat (length d); Bufring.buf_id := id |}]).

Lemma next_id_above pr w id : id ∈ ledger pr w -> (id < next_id pr w)%Z.
Proof.
  unfold next_id. induction (ledger pr w) as [|x l IH]; [by intros ?%elem_of_nil|]. intros [->|Hi]%elem_of_cons; cbn [fold_right]; [lia|]. specialize (IH Hi). lia.
Qed.

Lemma then_comes_delivery d s : all_bytes d -> delivery (Handshake.rd (Handshake.inp s)) (Handshake.rw (Handshake.inp s)) (then_comes d s) /\ arrived (then_comes d s) = d.
Proof.
  intros Hd. set (pr := Handshake.rd (Handshake.inp s)). set (w := Handshake.rw (Handshake.inp s)). assert (Hit : arrived (then_comes d s) = d).
  { unfold arrived, then_comes, ilen. cbn [snd fst map concat Bufring.buf_id Bufring.len]. rewrite lookup_insert_eq, Nat2Z.id. cbn [default]. unfold span. rewrite app_nil_r. by rewrite drop_0, take_ge. }
  split; [|exact Hit]. split; [| | | |by rewrite Hit].
  - intros id Hid. cbn. apply lookup_insert_ne. pose proof (next_id_above _ _ _ Hid). fold pr w. lia.
  - apply NoDup_singleton.
  - intros i ->%list_elem_of_singleton Hin. apply next_id_above in Hin. cbn in Hin. fold pr w in Hin. lia.
  - intros i ->%list_elem_of_singleton. unfold then_comes, ilen. cbn [snd fst Bufring.buf_id Bufring.len]. by rewrite lookup_insert_eq, Nat2Z.id.
Qed.

(** One route. *)
Definition one_route : list (@Router.reg_op Router.ioxd_mw Router.ioxd_handler) := [Router.Route None (lit "POST") (lit "/") echo_two].
Definition routes : Router.router := fold_left Router.reg_do one_route (Router.registry0 Router.not_found).

(** A request cut by the end of the early records, and one behind it. *)
Definition split_client : toy_state := Handshake.client (Handshake.a_record 23 (lit "3" ++ [10%Z] ++ lit "a") ++ take 7 (Handshake.a_record 23 (lit "b"))) (drop 7 (Handshake.a_record 23 (lit "b"))).
Definition rest_of_it : bytes := lit "c2" ++ [10%Z] ++ lit "xy".

Example tls_two :
  match serve_http 20 9 (replicate 64 0%Z) [] (Router.ioxd__router_build routes) (Some Handshake.all_well) (then_comes rest_of_it) (fresh false 1) split_client with
  | Some (Some (rs, c), alerts) => (map (fun r => req_content_length r.1) rs, sent (net c), alerts)
  | _ => ([], [], [])
  end = ([3; 2]%Z, lit "hellofinished" ++ head_of [lit "HTTP/1.1 200 OK"; lit "content-type: text/plain"; lit "content-length: 2"] ++ lit "ab" ++
                   head_of [lit "HTTP/1.1 200 OK"; lit "content-type: text/plain"; lit "content-length: 2"] ++ lit "xy", [close_notify]).
Proof. vm_compute. reflexivity. Qed.

Lemma split_client_clean : Handshake.clean Handshake.PLAIN_MAX (Handshake.rd (Handshake.inp split_client)) (Handshake.rw (Handshake.inp split_client)).
Proof.
  assert (Hw : world_ok (Handshake.rw (Handshake.inp split_client))).
  { split; [vm_compute; repeat constructor; set_solver| |reflexivity]. intros i Hi. cbn in Hi. repeat (apply elem_of_cons in Hi as [->|Hi]); [vm_compute; lia..|set_solver]. }
  split; [|done|done|done]. pose proof (reader_ok_init (replicate Handshake.PLAIN_MAX 0%Z) _ Hw) as H. rewrite length_replicate in H. exact H.
Qed.

(** Bytes, by running. *)
Lemma all_bytes_by (d : bytes) : forallb (fun b => (0 <=? b)%Z && (b <? 256)%Z) d = true -> all_bytes d.
Proof. intros Hb. apply Forall_forall. intros b Hin. rewrite forallb_forall in Hb. apply list_elem_of_In, Hb in Hin. unfold is_byte. lia. Qed.

