(* ===== verification/Clients.v ===== *)
(** The clients of a worker (lib/clients/socket.c, lib/clients/timer.c): connections it makes itself and waits, each an
    operation on the ring that the calling coroutine awaits. The kernel's answers are arguments; the connection that
    comes out is one of [Conn]'s, with its pipe in a block on the heap. *)
From S2P Require Import Prelude.

#[local] Arguments Nat.ltb : simpl never.

Definition EINVAL : Z := 22.
Definition ENOMEM : Z := 12.
Definition ETIME : Z := 62.
Definition EOPNOTSUPP : Z := 95.
Definition AF_INET : Z := 2.
Definition AF_INET6 : Z := 10.
Definition SOCK_STREAM : Z := 1.
Definition SOCK_CLOEXEC : Z := 524288.
Definition IPPROTO_TCP : Z := 6.
Definition TCP_NODELAY : Z := 1.

(** The entries these files stage: [fixed] is IOSQE_FIXED_FILE, [alloc] a [file_index] of IORING_FILE_INDEX_ALLOC; a close
    names a slot by one more than its number. *)
Inductive sqe :=
| SQ_SOCKET (domain type : Z) (alloc : bool)
| SQ_CONNECT (fd : Z) (fixed : bool) (sa : Z * bytes * Z)
| SQ_SETSOCKOPT (fd : Z) (fixed : bool) (level name val : Z)
| SQ_RECV (fd : Z) (fixed : bool)
| SQ_CLOSE (fd : Z) (file_index : Z)
| SQ_TIMEOUT (sec nsec len : Z).

(** The sockets a worker has open, its client pipes - each the address of its block, with the socket - and what it
    staged, oldest first. *)
Record world := { sockets : list Z; pipes : gmap nat Z; staged : list sqe; calls : list (Z * Z) }.

Section Clients.
(** Whether the worker has a table of registered files. *)
Context (fixed_files : bool).

Definition stage (w : world) (q : sqe) : world := {| sockets := sockets w; pipes := pipes w; staged := staged w ++ [q]; calls := calls w |}.
Definition set_sockets (w : world) (l : list Z) : world := {| sockets := l; pipes := pipes w; staged := staged w; calls := calls w |}.
Definition set_pipes (w : world) (m : gmap nat Z) : world := {| sockets := sockets w; pipes := m; staged := staged w; calls := calls w |}.

(** [ioxd__io_await] gives the answer; a socket that was made is open. *)
Definition make_socket (answer domain : Z) (w : world) : Z * world :=
  let w := stage w (SQ_SOCKET domain (if fixed_files then SOCK_STREAM else Z.lor SOCK_STREAM SOCK_CLOEXEC) fixed_files) in
  (answer, if (answer <? 0)%Z then w else set_sockets w (answer :: sockets w)).

Definition connect_socket (answer fd : Z) (sa : Z * bytes * Z) (w : world) : Z * world := (answer, stage w (SQ_CONNECT fd fixed_files sa)).

Definition ioxd__conn_close_socket (fd : Z) (w : world) : world :=
  set_sockets (stage w (if fixed_files then SQ_CLOSE 0 (fd + 1) else SQ_CLOSE fd 0)) (List.remove Z.eq_dec fd (sockets w)).

(** [plain] is what [setsockopt] itself answers where the ring cannot set the option. *)
Definition ioxd__conn_setsockopt (answer plain fd level name val : Z) (w : world) : Z * world :=
  let w := stage w (SQ_SETSOCKOPT fd fixed_files level name val) in
  if ((answer =? - EOPNOTSUPP)%Z || (answer =? - EINVAL)%Z) && negb fixed_files
  then (plain, {| sockets := sockets w; pipes := pipes w; staged := staged w; calls := calls w ++ [(fd, name)] |})
  else (answer, w).

(** What the kernel and the allocator answer to one connection attempt. *)
Record answers := { a_socket : Z; a_connect : Z; a_malloc : option nat; a_option : Z; a_plain : Z }.

(** The block of the pipe, or the reason in [*err]. *)
Definition ioxd__socket_connect (a : answers) (sa : Z * bytes * Z) (w : world) : (nat + Z) * world :=
  let '(fd, w) := make_socket (a_socket a) sa.1.1 w in
  if (fd <? 0)%Z then (inr (- fd)%Z, w)
  else
    let '(rc, w) := connect_socket (a_connect a) fd sa w in
    if (rc <? 0)%Z then (inr (- rc)%Z, ioxd__conn_close_socket fd w)
    else
      match a_malloc a with
      | None => (inr ENOMEM, ioxd__conn_close_socket fd w)
      | Some cp =>
          let '(_, w) := ioxd__conn_setsockopt (a_option a) (a_plain a) fd IPPROTO_TCP TCP_NODELAY 1 w in
          (inl cp, set_pipes (stage w (SQ_RECV fd fixed_files)) (<[cp := fd]> (pipes w)))
      end.

(** [None] is a block that is not allocated. *)
Definition ioxd__socket_close (cp : nat) (w : world) : option world :=
  fd ← pipes w !! cp;
  let w := ioxd__conn_close_socket fd w in
  Some (set_pipes w (delete cp (pipes w))).

(** [inet_pton] for a family; [on_worker] says that a worker and a coroutine of it are current. [inr] is errno. *)
Definition ioxd_connect (inet_pton : Z -> bytes -> option bytes) (on_worker : bool) (a : answers) (host : option bytes) (port : Z) (w : world) : (nat + Z) * world :=
  match host with
  | None => (inr EINVAL, w)
  | Some host =>
      if negb on_worker || (port <? 1)%Z || (65535 <? port)%Z then (inr EINVAL, w)
      else
        match inet_pton AF_INET host with
        | Some addr => ioxd__socket_connect a (AF_INET, addr, port) w
        | None =>
            match inet_pton AF_INET6 host with
            | Some addr => ioxd__socket_connect a (AF_INET6, addr, port) w
            | None => (inr EINVAL, w)
            end
        end
  end.

Definition ioxd_disconnect (pipe : option nat) (w : world) : option world := match pipe with Some cp => ioxd__socket_close cp w | None => Some w end.

(** ** Waits *)

Definition ioxd__timer_delay (answer ns : Z) (w : world) : Z * world :=
  let ns := if (ns <? 1)%Z then 1%Z else ns in
  let w := stage w (SQ_TIMEOUT (ns / 1000000000) (ns mod 1000000000) 1) in
  (if (answer =? - ETIME)%Z then 0%Z else answer, w).

Definition ioxd_delay_ns (on_worker : bool) (answer ns : Z) (w : world) : Z * world :=
  if negb on_worker then ((-1)%Z, w) else ioxd__timer_delay answer ns w.

Definition ioxd_delay (on_worker : bool) (answer ms : Z) (w : world) : Z * world := ioxd_delay_ns on_worker answer (wrap64 (ms * 1000000)) w.
End Clients.

(** ** What holds of a worker's clients *)

(** An entry in the form the table of files asks for: a socket that goes into a slot is made without SOCK_CLOEXEC and is
    then always named by its slot; without a table it has the flag and is a descriptor. *)
Definition well_formed (fixed_files : bool) (q : sqe) : Prop :=
  match q with
  | SQ_SOCKET _ type alloc => alloc = fixed_files /\ (Z.land type SOCK_CLOEXEC =? 0)%Z = fixed_files
  | SQ_CONNECT _ fixed _ | SQ_SETSOCKOPT _ fixed _ _ _ | SQ_RECV _ fixed => fixed = fixed_files
  | SQ_CLOSE fd file_index => if fixed_files then fd = 0%Z /\ (0 < file_index)%Z else (0 <= fd)%Z /\ file_index = 0%Z
  | SQ_TIMEOUT sec nsec len => (0 <= nsec < 1000000000)%Z /\ len = 1%Z
  end.

Record Inv (fixed_files : bool) (w : world) : Prop := {
  v_sockets : sockets w ≡ₚ (map_to_list (pipes w)).*2;
  v_once : NoDup (sockets w);
  v_fds : forall fd, fd ∈ sockets w -> (0 <= fd)%Z;
  v_staged : Forall (well_formed fixed_files) (staged w)
}.

(** What the kernel and the allocator give is not in use. *)
Definition fresh_answers (a : answers) (w : world) : Prop :=
  ((0 <= a_socket a)%Z -> a_socket a ∉ sockets w) /\ forall cp, a_malloc a = Some cp -> pipes w !! cp = None.

Lemma remove_fresh (fd : Z) l : fd ∉ l -> List.remove Z.eq_dec fd l = l.
Proof. intros H. apply notin_remove. by rewrite <- list_elem_of_In. Qed.

Lemma remove_own (fd : Z) l : fd ∉ l -> List.remove Z.eq_dec fd (fd :: l) = l.
Proof. intros H. cbn. destruct (Z.eq_dec fd fd); [by apply remove_fresh|done]. Qed.

Lemma remove_perm (fd : Z) l : NoDup l -> fd ∈ l -> l ≡ₚ fd :: List.remove Z.eq_dec fd l.
Proof.
  induction l as [|x l IH]; intros Hn Hin; [by apply elem_of_nil in Hin|]. apply NoDup_cons in Hn as [Hx Hl]. cbn. destruct (Z.eq_dec fd x) as [->|Hne]; [by rewrite remove_fresh|].
  apply elem_of_cons in Hin as [?|Hin]; [done|]. rewrite (IH Hl Hin) at 1. constructor.
Qed.

Lemma staged_ok fixed_files w q : Forall (well_formed fixed_files) (staged w) -> well_formed fixed_files q -> Forall (well_formed fixed_files) (staged (stage w q)).
Proof. intros H1 H2. cbn. apply Forall_app. split; [done|by constructor]. Qed.

Ltac in_form := cbn [app]; repeat (apply Forall_cons; split; [done|]); by apply Forall_nil.

(** Every branch of a connection attempt. *)
Lemma socket_connect_says fixed_files a sa w : Inv fixed_files w -> fresh_answers a w ->
  match ioxd__socket_connect fixed_files a sa w with
  | (inl cp, w') => Inv fixed_files w' /\ a_malloc a = Some cp /\ pipes w' = <[cp := a_socket a]> (pipes w) /\ sockets w' = a_socket a :: sockets w
  | (inr e, w') => Inv fixed_files w' /\ (0 < e)%Z /\ pipes w' = pipes w /\ sockets w' = sockets w
  end.
Proof.
  intros [V1 V2 V3 V4] [F1 F2]. unfold ioxd__socket_connect, make_socket, connect_socket, ioxd__conn_close_socket. cbn [sockets pipes staged set_sockets stage].
  assert (W1 : well_formed fixed_files (SQ_SOCKET sa.1.1 (if fixed_files then SOCK_STREAM else Z.lor SOCK_STREAM SOCK_CLOEXEC) fixed_files)) by (by destruct fixed_files).
  destruct (Z.ltb_spec (a_socket a) 0) as [Hs|Hs].
  { split_and!; try done; [|lia]. split; try done. by apply staged_ok. }
  specialize (F1 Hs). cbn [sockets pipes staged set_sockets stage]. assert (Wc : well_formed fixed_files (if fixed_files then SQ_CLOSE 0 (a_socket a + 1) else SQ_CLOSE (a_socket a) 0)) by (destruct fixed_files; cbn; lia).
  rewrite remove_own by done. assert (Wall : forall qs, Forall (well_formed fixed_files) qs -> Forall (well_formed fixed_files) (staged w ++ qs)) by (intros; by apply Forall_app).
  destruct (Z.ltb_spec (a_connect a) 0) as [Hc|Hc]; [split_and!; try done; [|lia]; split; try done; cbn; rewrite <- !app_assoc; apply Wall; in_form|].
  destruct (a_malloc a) as [cp|]; [|split_and!; try done; split; try done; cbn; rewrite <- !app_assoc; apply Wall; in_form]. specialize (F2 cp eq_refl).
  unfold ioxd__conn_setsockopt. cbn [sockets pipes staged stage calls]. assert (Hperm : a_socket a :: sockets w ≡ₚ (map_to_list (<[cp := a_socket a]> (pipes w))).*2) by (rewrite map_to_list_insert by done; cbn; by rewrite V1).
  destruct ((_ || _) && negb fixed_files); cbn; (split_and!; [split; cbn; [done|by constructor|intros fd [->|Hin]%elem_of_cons; [done|by apply V3]|rewrite <- !app_assoc; apply Wall; in_form]|done..]).
Qed.

Lemma connect_says fixed_files pton on_worker a host port w : Inv fixed_files w -> fresh_answers a w ->
  match ioxd_connect fixed_files pton on_worker a host port w with
  | (inl cp, w') => Inv fixed_files w' /\ a_malloc a = Some cp /\ pipes w' = <[cp := a_socket a]> (pipes w) /\ sockets w' = a_socket a :: sockets w
  | (inr e, w') => Inv fixed_files w' /\ (0 < e)%Z /\ pipes w' = pipes w /\ sockets w' = sockets w
  end.
Proof.
  intros Hi Hf. unfold ioxd_connect. destruct host as [host|]; [|by split_and!]. destruct (_ || _ || _); [by split_and!|]. destruct (pton AF_INET host); [by apply socket_connect_says|].
  destruct (pton AF_INET6 host); [by apply socket_connect_says|by split_and!].
Qed.

Lemma disconnect_says fixed_files cp fd w : Inv fixed_files w -> pipes w !! cp = Some fd ->
  exists w', ioxd_disconnect fixed_files (Some cp) w = Some w' /\ Inv fixed_files w' /\ pipes w' = delete cp (pipes w) /\ sockets w ≡ₚ fd :: sockets w'.
Proof.
  intros [V1 V2 V3 V4] Hp. cbn [ioxd_disconnect]. unfold ioxd__socket_close. rewrite Hp. cbn [mbind option_bind]. eexists. split; [done|].
  assert (Hl : (map_to_list (pipes w)).*2 ≡ₚ fd :: (map_to_list (delete cp (pipes w))).*2) by (rewrite <- (map_to_list_delete (pipes w) cp fd) by done; done).
  assert (Hin : fd ∈ sockets w) by (rewrite V1, Hl; left). pose proof (remove_perm fd _ V2 Hin) as Hr. split_and!; [|done|done]. split; cbn.
  - apply (Permutation_cons_inv (a := fd)). by rewrite <- Hr, V1.
  - rewrite Hr in V2. by apply NoDup_cons in V2 as [_ ?].
  - intros x Hx. apply V3. rewrite Hr. by right.
  - apply (staged_ok _ w); [done|]. specialize (V3 fd Hin). destruct fixed_files; cbn; lia.
Qed.

(** ** Any history *)

Inductive event :=
| EConnect (on_worker : bool) (a : answers) (host : option bytes) (port : Z)
| EDisconnect (pipe : option nat)
| EDelay (on_worker : bool) (answer ms : Z).

Section History.
Context (fixed_files : bool) (inet_pton : Z -> bytes -> option bytes).

Definition do_event (w : world) (e : event) : option world :=
  match e with
  | EConnect on_worker a host port => Some (ioxd_connect fixed_files inet_pton on_worker a host port w).2
  | EDisconnect pipe => ioxd_disconnect fixed_files pipe w
  | EDelay on_worker answer ms => Some (ioxd_delay on_worker answer ms w).2
  end.

Definition legal (w : world) (e : event) : Prop :=
  match e with EConnect _ a _ _ => fresh_answers a w | EDisconnect (Some cp) => is_Some (pipes w !! cp) | _ => True end.

Inductive history : world -> list event -> world -> Prop :=
| history_end w : history w [] w
| history_step w e w1 es w2 : legal w e -> do_event w e = Some w1 -> history w1 es w2 -> history w (e :: es) w2.

Lemma delay_inv on_worker answer ms w : Inv fixed_files w -> Inv fixed_files (ioxd_delay on_worker answer ms w).2.
Proof.
  intros [V1 V2 V3 V4]. unfold ioxd_delay, ioxd_delay_ns, ioxd__timer_delay. destruct (negb on_worker); [done|]. split; try done. apply staged_ok; [done|]. split; [|done]. by apply Z.mod_pos_bound.
Qed.

Lemma event_says w e : Inv fixed_files w -> legal w e -> exists w', do_event w e = Some w' /\ Inv fixed_files w'.
Proof.
  intros Hi Hl. destruct e as [ow a host port|[cp|]|ow answer ms]; cbn [do_event legal] in *.
  - eexists. split; [done|]. pose proof (connect_says fixed_files inet_pton ow a host port w Hi Hl) as H. destruct (ioxd_connect _ _ _ _ _ _ _) as [[]]; by destruct H.
  - destruct Hl as [fd Hl]. destruct (disconnect_says _ _ _ _ Hi Hl) as (w' & ? & ? & _). by exists w'.
  - by exists w.
  - eexists. split; [done|]. by apply delay_inv.
Qed.

Lemma clients_inv w es w' : history w es w' -> Inv fixed_files w -> Inv fixed_files w'.
Proof.
  induction 1 as [|w e w1 es w2 Hl He _ IH]; intros Hi; [done|]. apply IH. destruct (event_says w e Hi Hl) as (w1' & E & H). rewrite He in E. by injection E as <-.
Qed.
End History.

Definition start : world := {| sockets := []; pipes := ∅; staged := []; calls := [] |}.

Lemma clients_start fixed_files : Inv fixed_files start.
Proof. split; try done; [constructor|by intros ? ?%elem_of_nil]. Qed.

(** ** Properties *)

(** C37. Sockets are never lost or closed twice. After any connections - made, refused by the kernel at either step, out of
    memory or called with what is no address - disconnections and waits, the open sockets are exactly those of the pipes
    there are, one each; the next attempt gives a pipe in the block and on the socket that were fresh, or a positive errno
    and leaves pipes and sockets as they were; a pipe there is can be closed, and its socket goes with it; and every entry
    staged has the form the table of files asks for. *)
Theorem clients_balanced (fixed_files : bool) (inet_pton : Z -> bytes -> option bytes) (es : list event) (w : world) :
  history fixed_files inet_pton start es w ->
  sockets w ≡ₚ (map_to_list (pipes w)).*2 /\ NoDup (sockets w) /\ Forall (well_formed fixed_files) (staged w) /\
  (forall on_worker a host port, fresh_answers a w ->
    match ioxd_connect fixed_files inet_pton on_worker a host port w with
    | (inl cp, w') => a_malloc a = Some cp /\ pipes w' = <[cp := a_socket a]> (pipes w) /\ sockets w' = a_socket a :: sockets w
    | (inr e, w') => (0 < e)%Z /\ pipes w' = pipes w /\ sockets w' = sockets w
    end) /\
  (forall cp fd, pipes w !! cp = Some fd -> exists w', ioxd_disconnect fixed_files (Some cp) w = Some w' /\ pipes w' = delete cp (pipes w) /\ sockets w ≡ₚ fd :: sockets w').
Proof.
  intros Hh. pose proof (clients_inv _ _ _ _ _ Hh (clients_start fixed_files)) as Hi. pose proof Hi as [V1 V2 V3 V4]. split_and!; try done.
  - intros ow a host port Hf. pose proof (connect_says fixed_files inet_pton ow a host port w Hi Hf) as H. destruct (ioxd_connect _ _ _ _ _ _ _) as [[]]; by destruct H as (_ & H).
  - intros cp fd Hp. destruct (disconnect_says _ _ _ _ Hi Hp) as (w' & ? & _ & ? & ?). by exists w'.
Qed.

(** The time a wait asks for. Every wait of a worker stages one timer of at least a nanosecond whose seconds fit and whose
    nanoseconds are below a second, together exactly the nanoseconds asked for - a million for each of [ms], which never
    overflows -, and says 0 exactly when the kernel says that the time passed; off a worker nothing is staged. *)
Theorem delay_exact (answer ns ms : Z) (w : world) : (0 <= ns < 2 ^ 64)%Z -> (0 <= ms < 2 ^ 32)%Z -> (answer < 0)%Z ->
  (exists sec nsec, ioxd_delay_ns true answer ns w = (if decide (answer = - ETIME)%Z then 0%Z else answer, stage w (SQ_TIMEOUT sec nsec 1)) /\
    (0 <= sec < 2 ^ 63)%Z /\ (0 <= nsec < 1000000000)%Z /\ (sec * 1000000000 + nsec = Z.max 1 ns)%Z) /\
  ioxd_delay true answer ms w = ioxd_delay_ns true answer (ms * 1000000) w /\
  ((ioxd_delay_ns true answer ns w).1 = 0%Z <-> answer = (- ETIME)%Z) /\
  ioxd_delay_ns false answer ns w = ((-1)%Z, w) /\ ioxd_delay false answer ms w = ((-1)%Z, w).
Proof.
  intros Hns Hms Ha. unfold ioxd_delay, ioxd_delay_ns, ioxd__timer_delay. cbn [negb]. set (n := if (ns <? 1)%Z then 1%Z else ns). assert (Hn : n = Z.max 1 ns) by (unfold n; destruct (Z.ltb_spec ns 1); lia).
  split_and!; try done.
  - exists (n / 1000000000)%Z, (n mod 1000000000)%Z. split; [destruct (Z.eqb_spec answer (- ETIME)), (decide (answer = - ETIME)%Z); done|]. split; [|split; [by apply Z.mod_pos_bound|]]; Z.to_euclidean_division_equations; lia.
  - unfold wrap64. by rewrite (Z.mod_small (ms * 1000000)) by lia.
  - cbn [fst]. destruct (Z.eqb_spec answer (- ETIME)); [done|]. split; [lia|done].
Qed.

(** With a table of files: two connections, one refused, one without memory, one that is no address, one closed. *)
Definition toy_pton (family : Z) (host : bytes) : option bytes := if (family =? AF_INET)%Z && beq host (lit "10.0.0.1") then Some [10; 0; 0; 1]%Z else None.
Definition well (fd : Z) (cp : nat) : answers := {| a_socket := fd; a_connect := 0; a_malloc := Some cp; a_option := 0; a_plain := 0 |}.
Definition some_history : list event :=
  [EConnect true (well 0 100) (Some (lit "10.0.0.1")) 80; EConnect true {| a_socket := 1; a_connect := -111; a_malloc := None; a_option := 0; a_plain := 0 |} (Some (lit "10.0.0.1")) 80;
   EConnect true {| a_socket := 1; a_connect := 0; a_malloc := None; a_option := 0; a_plain := 0 |} (Some (lit "10.0.0.1")) 80; EConnect true (well 1 200) (Some (lit "localhost")) 80;
   EDelay true (-62) 1500; EConnect true (well 1 200) (Some (lit "10.0.0.1")) 80; EDisconnect (Some 100)].

Fixpoint play (fixed_files : bool) (es : list event) (w : world) : option world := match es with [] => Some w | e :: es => w ← do_event fixed_files toy_pton w e; play fixed_files es w end.

Fixpoint all_legal (es : list event) (w : world) : Prop :=
  match es with [] => True | e :: es => legal w e /\ forall w1, do_event true toy_pton w e = Some w1 -> all_legal es w1 end.

Lemma clients_played es : forall w w', play true es w = Some w' -> all_legal es w -> history true toy_pton w es w'.
Proof.
  induction es as [|e es IH]; intros w w' H Hl; cbn [play] in H; [injection H as <-; constructor|]. destruct Hl as [H1 H2]. destruct (do_event true toy_pton w e) as [w1|] eqn:E; [|done]. econstructor; [exact H1|exact E|by apply IH; [|apply H2]].
Qed.

Example played : option_map (fun w => (sockets w, map_to_list (pipes w), staged w)) (play true some_history start) =
  Some ([1%Z], [(200, 1%Z)],
    [SQ_SOCKET 2 1 true; SQ_CONNECT 0 true (2, [10; 0; 0; 1], 80)%Z; SQ_SETSOCKOPT 0 true 6 1 1; SQ_RECV 0 true;
     SQ_SOCKET 2 1 true; SQ_CONNECT 1 true (2, [10; 0; 0; 1], 80)%Z; SQ_CLOSE 0 2;
     SQ_SOCKET 2 1 true; SQ_CONNECT 1 true (2, [10; 0; 0; 1], 80)%Z; SQ_CLOSE 0 2;
     SQ_TIMEOUT 1 500000000 1;
     SQ_SOCKET 2 1 true; SQ_CONNECT 1 true (2, [10; 0; 0; 1], 80)%Z; SQ_SETSOCKOPT 1 true 6 1 1; SQ_RECV 1 true; SQ_CLOSE 0 1]).
Proof. vm_compute. reflexivity. Qed.

Lemma clients_balanced_witness : exists w, play true some_history start = Some w /\ Forall (well_formed true) (staged w) /\ NoDup (sockets w).
Proof.
  destruct (play true some_history start) as [w|] eqn:E; [|vm_compute in E; discriminate E]. exists w. split; [reflexivity|].
  destruct (clients_balanced true toy_pton some_history w) as (_ & H2 & H3 & _); [|split; [exact H3|exact H2]].
  apply (clients_played some_history start w E). clear E. unfold some_history. cbn [all_legal]. repeat match goal with
    | |- legal _ (EConnect _ _ _ _) => split; [intros _; vm_compute; set_solver|intros ? [= <-]; vm_compute; reflexivity]
    | |- legal _ (EDisconnect _) => vm_compute; by eexists
    | |- legal _ (EDelay _ _ _) => exact I
    | |- _ /\ _ => split
    | |- True => exact I
    | |- forall _, _ => let w1 := fresh in let H := fresh in intros w1 H; vm_compute in H; injection H as <-
    end.
Defined.

Lemma delay_exact_witness : ioxd_delay true (-62) 1500 start = ioxd_delay_ns true (-62) 1500000000 start.
Proof. refine (proj1 (proj2 (delay_exact (-62) 0 1500 start _ _ _))); lia. Defined.
